(* ===== verification/_CoqProject ===== *)
-Q . S2P
Prelude.v
Spinlock.v
Bio.v
BioSpec.v
BlockProg.v
Log.v
LogCrash.v
Recovery.v
LogOps.v
FsProg.v
Fs.v
FsCall.v
FsAlloc.v
FsFile.v
FsInode.v
FsDir.v
FsPath.v
FsExample.v
FsSpec.v
CString.v
ULib.v
Pipe.v
Kalloc.v
Kern.v
File.v
FileSpec.v
Syscall.v
Sysfile.v
FsRefs.v
SysRefs.v
SysSpec.v
Vm.v
Proc.v
ProcWait.v
UPrintf.v
Printf.v
Console.v
Kbd.v
Structio.v
Filters.v
Ted.v
Hello.v
HelloSpec.v
Umalloc.v
Ide.v
VmSpace.v
Exec.v
Mp.v
Boot.v
Commands.v
Trap.v
