(* ===== verification/Prelude.v ===== *)
(** * Dave: a verification development for the Dave kernel and user land

    Dave is a small Unix for i386 PCs, a descendant of xv6: a boot loader (boot/), a kernel
    (system/) and user programs with their library (user/).  The development translates the C
    sources into functions and proves theorems about them.  File names below are under src/.

    ** The parts and their files

    The file system is a tower of layers, and so is its model:
    - Bio.v: the buffer cache with its LRU list (system/storage/bio.c) over the disk in memory
      (memide.c).  BioSpec.v states what the cache promises, [Spec.cache], and proves that bio.c
      refines it.  BlockProg.v has the programs that use a cache, [prog], and transports their
      theorems from the specification to bio.c.
    - Log.v: the write-ahead log (log.c) as such programs.  LogCrash.v and Recovery.v: commits and
      recoveries cut short at any block write.  LogOps.v: operations interleaved by
      begin_op, log_write and end_op.
    - FsProg.v: programs inside a transaction, [tprog].  Fs.v: fs.c as such programs, with the
      superblock and the inode cache as memory.  FsAlloc.v (the free map), FsFile.v (block maps,
      readi, writei), FsInode.v (inodes on disk), FsDir.v (directories), FsPath.v (path
      resolution) prove what its functions do; FsCall.v puts them between begin_op and end_op on
      the concrete cache and log; FsExample.v is a disk for examples; FsSpec.v has the theorems.
    - Kern.v, File.v, Syscall.v, Sysfile.v: the open files (system/core/file.c), the arguments of
      system calls (syscall.c) and the calls on files (sysfile.c), over fs.c, pipes and pages.
      FileSpec.v proves reads and writes of open files; FsRefs.v, SysRefs.v and SysSpec.v count
      references over whole executions.
    - Ide.v: the driver of a real disk (ide.c), over a class that states what an ATA controller
      does; it implements a disk that serves requests in order.

    Memory and processes:
    - Kalloc.v: the page allocator (system/memory/kalloc.c), its free list threaded through the
      pages.  Vm.v: page tables (vm.c) in those pages.  VmSpace.v: whole address spaces, their
      making and freeing, side by side.  Exec.v: exec.c over them.
    - Proc.v, ProcWait.v: the process table (system/core/proc.c), with a class for what it needs
      of files.  Trap.v: traps, the clock, the dispatch of system calls and the calls of
      sysproc.c, over the process table and user memory.
    - Spinlock.v: spin locks and sleep locks (system/sync).  Pipe.v: pipes (system/core/pipe.c).
    - Console.v, Kbd.v, Printf.v: the console, the keyboard and cprintf (system/devices).
      CString.v: system/runtime/string.c.
    - Mp.v: the search for processors (system/platform/x86/mp.c).  Boot.v: the boot loader
      (boot/stage1/bootmain.c).

    User land:
    - ULib.v, UPrintf.v, Umalloc.v, Structio.v: the library (user/lib): strings, printf, malloc,
      the JSON writer and the common options.
    - Filters.v: grep, wc and cat.  Commands.v: ls and the small commands.  Ted.v: the line editor.
      Hello.v, HelloSpec.v: the shell.

    This file has what they share: machine integers, lists as memory, the monad, tactics and
    hints.

    ** How the code is translated

    An operation on a state [St] is a function [M St A] into [outcome]: [Ok] with a result and
    the new state, [Panic] with the message, [Asleep] when a lock or a condition makes the process
    wait, and [NoFuel] when a loop used up its bound.  Integers have their width: [u32], [s32]
    and the like are written where C wraps or converts.  A pointer into a table is an index, a
    pointer to bytes an address, null a value of its own or [None].

    Code that runs under one spin lock is one step, which the spin locks justify: Spinlock.v itself
    interleaves the CPUs at every access to a lock.  An operation that sleeps is cut at the context
    switch, and the rest of it is another definition or the same one run again.  Interleavings are
    sequences of such steps: [LogOps], [SysSpec.kstep], [Proc.step], [Trap.cstep], the events of
    Pipe.v, Ide.v, Spinlock.v, Console.v and Umalloc.v.  fork and exit are one step each in
    Proc.v, although they take ptable.lock more than once; the part outside of it touches only
    what no other process uses; fork is a step while the counter of pids is below 2^31 - 1.  The
    checks of sched on held locks and the interrupt flag are not part of it.

    Fuel.  Loops that are not structural recurse on a bound computed from the state: the number of
    buffers plus one for the scans of the cache; the size of a file over the size of an entry, plus
    one, for directories; the length of the path or of the line for namex and the parser; the pages
    of the range for page tables; the sectors of the range for the boot loader; the blocks of the
    free list for malloc and free; the controller's delay for the disk; the length of the table over
    the smallest entry for mpinit.  The theorems that say what one operation does prove that it
    returns; invariants over executions speak of the steps that complete.  mpinit is the loop that
    does not end on some input, which C33 proves for every bound.

    ** What the theorems show

    - Storage: a file-system call is atomic under crashes at any block write, with any number of
      interrupted recoveries (C1, C12); the admission test keeps the log from panicking as long as
      operations log fewer blocks than MAXOPBLOCKS (C13), and three of MAXOPBLOCKS panic (C25); the disk driver is an in-order disk (C15).
    - Files: writes split into transactions are one write, within the log's bounds (C3, C4, C9);
      readi, writei, block allocation, inodes, directories as maps, and path resolution (C5, C6, C8,
      C10, C11); reference counts are exact over all executions (C2).
    - The border to user code: argument checks accept exactly user memory (C7), killed processes
      do not return (C19), copyout and the stack that exec builds (C29, C30); exec returns, and a
      failure leaves the process its memory and loses no page (C31).
    - Memory: the allocators neither lose nor hand out twice (C14, C27); address spaces grow with
      zeroed pages or not at all, and no page is lost (C28).
    - Processes: the invariant of the table, no lost wakeup in wait, sleep on time (C16 to C18),
      mutual exclusion of the spin locks (C26), pipes are queues (C24), the console is a line editor (C34).
    - Start: the kernel is loaded as its file says (C32), processors are found (C33).
    - User land: the shell's parser ends, reads back every command however it is spaced and
      connects pipelines rightly (C20 to C22); the editor keeps its buffer well formed and a map (C23, C35); JSON is
      read back (C36, C37); the regular expressions and lines of grep (C38, C39); both printfs
      agree, but for the case of hexadecimal digits (C40).

    Theorems that are no claim of their own show further facts and the errors of the code, such as
    [ProcWait.kill_zero_poisons_slot], [ProcWait.growproc_to_zero], [Vm.copyout_null_pte],
    [Umalloc.malloc_wraps], [Ide.ideintr_read_error] and [Exec.exec_long_argument].

    ** Not modelled

    - Assembly (boot/init, boot/stage0/bootasm.S, trapasm.S, swtch.S, usys.S) and the functions
      that load registers of the processor (seginit, switchkvm, switchuvm and with it kvmalloc;
      tvinit, idtinit; cpuid, mycpu, myproc, forkret): their meaning is the processor's.  The CPU
      and the process that run are arguments of the operations instead.
    - The interrupt controllers and the serial port (lapic.c, ioapic.c, picirq.c, uart.c): writes to
      device registers with no state of their own.
    - main.c and the init functions that only name a lock or register a device: a fixed order of calls.
    - panic, procdump, getcallerpcs and the messages of trap and syscall: output for debugging.
    - init.c and zombie.c, which only order system calls, the test programs, and the scripts of the
      build.
    - In Trap.v the calls of sysfile.c and the device handlers are parameters, since their models
      have states of their own (Kern.v, Ide.v, Console.v).  In Exec.v the file system is seen
      through what exec asks of it.  In Hello.v malloc succeeds, as the shell assumes, and the
      opening of the console by main is left out. *)

From stdpp Require Export base list gmap strings.
From Stdlib Require Export ZArith Lia.

#[global] Set Default Goal Selector "!".

Declare Scope dave_scope.
Delimit Scope dave_scope with dave.
#[global] Open Scope Z_scope.

(** ** Machine integers

    [uint], [int], [ushort], [short], [uchar] and [char] of the i386 ABI are
    integers reduced to their width; [char] is signed, as gcc makes it there. *)

Definition u32 (z : Z) : Z := z mod 2 ^ 32.
Definition s32 (z : Z) : Z := (z + 2 ^ 31) mod 2 ^ 32 - 2 ^ 31.
Definition u16 (z : Z) : Z := z mod 2 ^ 16.
Definition s16 (z : Z) : Z := (z + 2 ^ 15) mod 2 ^ 16 - 2 ^ 15.
Definition u8 (z : Z) : Z := z mod 2 ^ 8.
Definition s8 (z : Z) : Z := (z + 2 ^ 7) mod 2 ^ 8 - 2 ^ 7.

(** A byte is an integer between 0 and 255. *)
Definition byte_ok (b : Z) : Prop := 0 <= b < 256.

(** C string literals as byte lists, without the terminating NUL. *)
Definition cs (s : string) : list Z :=
  map (fun c => Z.of_N (Ascii.N_of_ascii c)) (String.list_ascii_of_string s).

(** A character literal: the first byte of a string. *)
Definition chr (s : string) : Z := match cs s with c :: _ => c | [] => 0 end.

(** ** Effects

    A kernel or user operation runs on a state.  It returns, panics (the
    kernel's [panic] never returns), would sleep (the calling thread gives up
    the CPU and the operation is not finished), or exhausts the fuel of a
    bounded loop. *)

Inductive outcome (St A : Type) : Type :=
| Ok (a : A) (s : St)
| Panic (msg : string)
| Asleep (s : St)
| NoFuel.

Arguments Ok {St A} a s.
Arguments Panic {St A} msg.
Arguments Asleep {St A} s.
Arguments NoFuel {St A}.

Definition M (St A : Type) : Type := St -> outcome St A.

#[global] Instance M_ret {St} : MRet (M St) := fun A a s => Ok a s.

#[global] Instance M_bind {St} : MBind (M St) :=
  fun A B k m s =>
    match m s with
    | Ok a s' => k a s'
    | Panic msg => Panic msg
    | Asleep s' => Asleep s'
    | NoFuel => NoFuel
    end.

Definition get {St} : M St St := fun s => Ok s s.
Definition put {St} (s : St) : M St unit := fun _ => Ok tt s.
Definition gets {St A} (f : St -> A) : M St A := fun s => Ok (f s) s.
Definition modify {St} (f : St -> St) : M St unit := fun s => Ok tt (f s).
Definition panic {St A} (msg : string) : M St A := fun _ => Panic msg.
Definition asleep {St A} : M St A := fun s => Asleep s.
Definition nofuel {St A} : M St A := fun _ => NoFuel.

(** [when b m] is [if(b) m;]. *)
Definition when {Mo : Type -> Type} `{!MRet Mo} (b : bool) (m : Mo unit) : Mo unit :=
  if b then m else mret tt.

(** [for_loop n i body] is [for(; i < i0 + n; i++) body(i)], where a body that
    returns [Some r] leaves the loop (a [break] or a [return]). *)
Fixpoint for_loop {Mo : Type -> Type} `{!MRet Mo, !MBind Mo} {R}
    (n : nat) (i : Z) (body : Z -> Mo (option R)) : Mo (option R) :=
  match n with
  | O => mret None
  | S n' =>
      r ← body i;
      match r with
      | Some v => mret (Some v)
      | None => for_loop n' (i + 1) body
      end
  end.

(** The same loop without early exit. *)
Fixpoint for_each {Mo : Type -> Type} `{!MRet Mo, !MBind Mo}
    (n : nat) (i : Z) (body : Z -> Mo unit) : Mo unit :=
  match n with
  | O => mret tt
  | S n' => body i ;; for_each n' (i + 1) body
  end.

(** ** Arrays

    A C array is a list; an index is an integer.  Reads outside the array
    give the default, writes outside do nothing: every use below comes with a
    bound. *)

Definition aget {A} (d : A) (l : list A) (i : Z) : A :=
  if Z.ltb i 0 then d else default d (l !! Z.to_nat i).

Definition aset {A} (l : list A) (i : Z) (x : A) : list A :=
  if Z.ltb i 0 then l else <[Z.to_nat i := x]> l.

(** [splice off src dst] is [memmove(dst + off, src, length src)] for a
    destination array that does not overlap the source. *)
Definition splice {A} (off : nat) (src dst : list A) : list A :=
  take off dst ++ src ++ drop (off + length src) dst.

(** ** Little-endian integers in byte arrays *)

Fixpoint le_bytes (n : nat) (z : Z) : list Z :=
  match n with
  | O => []
  | S n' => z mod 256 :: le_bytes n' (z / 256)
  end.

Fixpoint le_value (bs : list Z) : Z :=
  match bs with
  | [] => 0
  | b :: bs' => b + 256 * le_value bs'
  end.

(** The [uint] stored at byte offset [off] of a buffer, and its store. *)
Definition get32 (off : nat) (d : list Z) : Z := le_value (take 4 (drop off d)).
Definition put32 (off : nat) (z : Z) (d : list Z) : list Z :=
  splice off (le_bytes 4 (u32 z)) d.

Definition get16 (off : nat) (d : list Z) : Z := le_value (take 2 (drop off d)).
Definition put16 (off : nat) (z : Z) (d : list Z) : list Z :=
  splice off (le_bytes 2 (u16 z)) d.

(** ** Automation *)

Create HintDb dave.
Create Rewrite HintDb len.

#[export] Hint Rewrite @length_app @length_take @length_drop @length_insert
  @length_replicate @length_map @length_cons @length_nil : len.

(** [len] computes lengths and closes the arithmetic left. *)
Ltac len := autorewrite with len in *; try lia.

(** [msimpl] runs the monad's administrative steps. *)
Ltac msimpl :=
  unfold mbind, M_bind, mret, M_ret, get, put, gets, modify, when in *; simpl.

(** [casesof] splits on the innermost scrutinee of a match in the goal. *)
Ltac casesof :=
  match goal with
  | |- context [match ?x with _ => _ end] =>
      lazymatch x with
      | context [match _ with _ => _ end] => fail
      | _ => destruct x eqn:?
      end
  end.

(** [zbool] turns boolean integer tests in the context into propositions. *)
Ltac zbool :=
  repeat match goal with
  | H : (_ <? _) = true |- _ => apply Z.ltb_lt in H
  | H : (_ <? _) = false |- _ => apply Z.ltb_ge in H
  | H : (_ <=? _) = true |- _ => apply Z.leb_le in H
  | H : (_ <=? _) = false |- _ => apply Z.leb_gt in H
  | H : (_ =? _) = true |- _ => apply Z.eqb_eq in H
  | H : (_ =? _) = false |- _ => apply Z.eqb_neq in H
  | H : (_ && _)%bool = true |- _ => apply andb_prop in H; destruct H
  | H : (_ || _)%bool = false |- _ => apply orb_false_elim in H; destruct H
  | H : negb _ = true |- _ => apply negb_true_iff in H
  | H : negb _ = false |- _ => apply negb_false_iff in H
  end.

(** ** Integer lemmas *)

Lemma u32_range z : 0 <= u32 z < 2 ^ 32.
Proof. unfold u32. apply Z.mod_pos_bound. lia. Qed.

Lemma u32_id z : 0 <= z < 2 ^ 32 -> u32 z = z.
Proof. intros. unfold u32. apply Z.mod_small. lia. Qed.

Lemma s32_range z : - 2 ^ 31 <= s32 z < 2 ^ 31.
Proof. unfold s32. pose proof (Z.mod_pos_bound (z + 2 ^ 31) (2 ^ 32)). lia. Qed.

Lemma s32_id z : - 2 ^ 31 <= z < 2 ^ 31 -> s32 z = z.
Proof. intros. unfold s32. rewrite Z.mod_small; lia. Qed.

Lemma s8_id z : - 128 <= z < 128 -> s8 z = z.
Proof. intros. unfold s8. rewrite Z.mod_small; lia. Qed.

Lemma u32_u32 z : u32 (u32 z) = u32 z.
Proof. apply u32_id, u32_range. Qed.

Lemma u32_add_l a b : u32 (u32 a + b) = u32 (a + b).
Proof. unfold u32. apply Z.add_mod_idemp_l. lia. Qed.

Lemma u32_add_r a b : u32 (a + u32 b) = u32 (a + b).
Proof. unfold u32. apply Z.add_mod_idemp_r. lia. Qed.

Lemma u32_sub_l a b : u32 (u32 a - b) = u32 (a - b).
Proof. unfold u32. apply Zminus_mod_idemp_l. Qed.

Lemma u32_sub_r a b : u32 (a - u32 b) = u32 (a - b).
Proof. unfold u32. apply Zminus_mod_idemp_r. Qed.

(** Masking off the low [k] bits of a word. *)
Lemma land_align k a : 0 <= k <= 32 -> 0 <= a < 2 ^ 32 -> Z.land a (Z.shiftl (Z.ones (32 - k)) k) = a - a mod 2 ^ k.
Proof.
  intros Hk Ha. assert (Z.land a (Z.shiftl (Z.ones (32 - k)) k) = Z.shiftl (Z.land (Z.shiftr a k) (Z.ones (32 - k))) k) as ->.
  { apply Z.bits_inj'. intros n Hn. rewrite Z.land_spec, !Z.shiftl_spec by lia. destruct (decide (n < k)).
    - rewrite !(Z.testbit_neg_r _ (n - k)) by lia. apply andb_false_r.
    - rewrite Z.land_spec, Z.shiftr_spec by lia. do 2 f_equal. lia. }
  assert (0 < 2 ^ k) by (apply Z.pow_pos_nonneg; lia).
  rewrite Z.land_ones, Z.shiftl_mul_pow2, Z.shiftr_div_pow2 by lia. rewrite (Z.mod_small (a / 2 ^ k)).
  - rewrite (Z.mod_eq a (2 ^ k)) by lia. lia.
  - split; [apply Z.div_pos; lia|]. apply Z.div_lt_upper_bound; [done|]. rewrite <- Z.pow_add_r by lia. replace (k + (32 - k)) with 32 by lia. lia.
Qed.

#[export] Hint Resolve u32_range : dave.

(** ** Monad lemmas *)

Lemma bind_unfold {St A B} (m : M St A) (k : A -> M St B) s :
  (m ≫= k) s =
    match m s with
    | Ok a s' => k a s'
    | Panic msg => Panic msg
    | Asleep s' => Asleep s'
    | NoFuel => NoFuel
    end.
Proof. done. Qed.

Lemma bind_ok {St A B} (m : M St A) (k : A -> M St B) s a s' :
  m s = Ok a s' -> (m ≫= k) s = k a s'.
Proof. intros H. unfold mbind, M_bind. by rewrite H. Qed.

Lemma bind_ok_inv {St A B} (m : M St A) (k : A -> M St B) s b s'' :
  (m ≫= k) s = Ok b s'' -> exists a s', m s = Ok a s' /\ k a s' = Ok b s''.
Proof.
  unfold mbind, M_bind. destruct (m s) as [a s'| | |] eqn:E; [|done..]. eauto.
Qed.

Lemma bind_assoc {St A B C} (m : M St A) (f : A -> M St B) (g : B -> M St C) s :
  ((m ≫= f) ≫= g) s = (m ≫= (fun x => f x ≫= g)) s.
Proof. unfold mbind, M_bind. by destruct (m s). Qed.

(** ** Array lemmas *)

Lemma aget_lookup {A} (d : A) l i x :
  l !! Z.to_nat i = Some x -> 0 <= i -> aget d l i = x.
Proof.
  intros H Hi. unfold aget. destruct (Z.ltb_spec i 0); [lia|]. by rewrite H.
Qed.

Lemma aget_nat {A} (d : A) l (i : nat) : aget d l (Z.of_nat i) = default d (l !! i).
Proof. unfold aget. destruct (Z.ltb_spec (Z.of_nat i) 0); [lia|]. by rewrite Nat2Z.id. Qed.

Lemma aget_aset_eq {A} (d : A) l i x :
  0 <= i < Z.of_nat (length l) -> aget d (aset l i x) i = x.
Proof.
  intros H. unfold aget, aset. destruct (Z.ltb_spec i 0); [lia|].
  rewrite list_lookup_insert_eq by lia. done.
Qed.

Lemma aget_aset_ne {A} (d : A) l i j x :
  i <> j -> aget d (aset l i x) j = aget d l j.
Proof.
  intros H. unfold aget, aset.
  destruct (Z.ltb_spec j 0); [done|]. destruct (Z.ltb_spec i 0); [done|].
  rewrite list_lookup_insert_ne by lia. done.
Qed.

Lemma length_aset {A} (l : list A) i x : length (aset l i x) = length l.
Proof. unfold aset. destruct (i <? 0); [done|]. apply length_insert. Qed.

Lemma length_splice {A} off (src dst : list A) :
  (off + length src <= length dst)%nat -> length (splice off src dst) = length dst.
Proof. intros. unfold splice. rewrite !length_app, length_take, length_drop. lia. Qed.

#[export] Hint Rewrite @length_aset : len.
#[export] Hint Rewrite @length_splice using lia : len.

Lemma lookup_splice_in {A} off (src dst : list A) i :
  (off <= i < off + length src)%nat -> (off + length src <= length dst)%nat ->
  splice off src dst !! i = src !! (i - off)%nat.
Proof.
  intros. unfold splice. rewrite lookup_app_r by (rewrite length_take; lia).
  rewrite length_take, Nat.min_l by lia. rewrite lookup_app_l by lia. done.
Qed.

Lemma lookup_splice_out {A} off (src dst : list A) i :
  (i < off \/ off + length src <= i)%nat -> (off + length src <= length dst)%nat ->
  splice off src dst !! i = dst !! i.
Proof.
  intros H Hl. unfold splice. destruct (decide (i < off)%nat).
  - rewrite lookup_app_l by (rewrite length_take; lia). by rewrite lookup_take_lt.
  - rewrite lookup_app_r by (rewrite length_take; lia).
    rewrite length_take, Nat.min_l by lia.
    rewrite lookup_app_r by lia. rewrite lookup_drop. f_equal. lia.
Qed.

Lemma take_drop_splice {A} off (src dst : list A) :
  (off + length src <= length dst)%nat ->
  take (length src) (drop off (splice off src dst)) = src.
Proof.
  intros. unfold splice.
  rewrite drop_app_length' by (rewrite length_take; lia).
  by rewrite take_app_length.
Qed.

Lemma take_drop_splice_ne {A} off n o (src dst : list A) :
  (o + n <= off \/ off + length src <= o)%nat ->
  (off + length src <= length dst)%nat ->
  take n (drop o (splice off src dst)) = take n (drop o dst).
Proof.
  intros H Hl. apply list_eq. intros i.
  destruct (decide (i < n)%nat) as [Hi|Hi].
  - rewrite !lookup_take_lt by done. rewrite !lookup_drop.
    apply lookup_splice_out; lia.
  - by rewrite !lookup_take_ge by lia.
Qed.

Lemma last_cons_default {A} (l : list A) x y : List.last (y :: l) x = List.last l y.
Proof.
  revert x y. induction l as [|z l IH]; intros x y; [done|].
  change (List.last (y :: z :: l) x) with (List.last (z :: l) x).
  by rewrite (IH x z), (IH y z).
Qed.

Lemma last_elem {A} (l : list A) x : List.last l x ∈ x :: l.
Proof.
  revert x. induction l as [|y l IH]; intros x; [by apply elem_of_cons; left|].
  rewrite last_cons_default. apply elem_of_cons. right. apply IH.
Qed.

Lemma list_filter_all {A} (P : A -> Prop) `{!forall x, Decision (P x)} (l : list A) :
  (forall x, x ∈ l -> P x) -> filter P l = l.
Proof.
  induction l as [|x l IH]; intros Hl; [done|]. rewrite filter_cons_True by (apply Hl; set_solver).
  f_equal. apply IH. intros y Hy. apply Hl. set_solver.
Qed.

(** ** Little-endian lemmas *)

Lemma length_le_bytes n z : length (le_bytes n z) = n.
Proof. revert z. induction n; simpl; auto. Qed.

Lemma le_value_bytes n z :
  le_value (le_bytes n z) = z mod 256 ^ Z.of_nat n.
Proof.
  revert z. induction n as [|n IH]; intros z; cbn [le_bytes le_value].
  - by rewrite Z.mod_1_r.
  - rewrite IH, Nat2Z.inj_succ, Z.pow_succ_r by lia.
    rewrite Z.rem_mul_r by lia. lia.
Qed.

Lemma le_bytes_ok n z : Forall byte_ok (le_bytes n z).
Proof.
  revert z. induction n; intros z; constructor; auto.
  unfold byte_ok. pose proof (Z.mod_pos_bound z 256). lia.
Qed.

Lemma le_value_range bs :
  Forall byte_ok bs -> 0 <= le_value bs < 256 ^ Z.of_nat (length bs).
Proof.
  induction 1 as [|b bs Hb Hbs IH]; [simpl; lia|].
  cbn [le_value length]. rewrite Nat2Z.inj_succ, Z.pow_succ_r by lia.
  unfold byte_ok in Hb. lia.
Qed.

Lemma le_bytes_value bs :
  Forall byte_ok bs -> le_bytes (length bs) (le_value bs) = bs.
Proof.
  induction 1 as [|b bs Hb Hbs IH]; [done|].
  cbn [le_bytes le_value length]. unfold byte_ok in Hb.
  rewrite (Z.mul_comm 256), Z.mod_add, Z.mod_small by lia.
  rewrite Z.div_add, Z.div_small, Z.add_0_l by lia. by rewrite IH.
Qed.

#[export] Hint Rewrite length_le_bytes : len.

Lemma length_put32 off z d :
  (off + 4 <= length d)%nat -> length (put32 off z d) = length d.
Proof. intros. unfold put32. apply length_splice. rewrite length_le_bytes. lia. Qed.

Lemma get_put32 off z d :
  (off + 4 <= length d)%nat -> get32 off (put32 off z d) = u32 z.
Proof.
  intros H. unfold get32, put32.
  rewrite <- (length_le_bytes 4 (u32 z)) at 1.
  rewrite take_drop_splice by (rewrite length_le_bytes; lia).
  rewrite le_value_bytes. apply u32_u32.
Qed.

Lemma get_put32_ne o off z d :
  (o + 4 <= off \/ off + 4 <= o)%nat -> (off + 4 <= length d)%nat ->
  get32 o (put32 off z d) = get32 o d.
Proof.
  intros. unfold get32, put32.
  rewrite take_drop_splice_ne by (rewrite length_le_bytes; lia). done.
Qed.

Lemma length_put16 off z d :
  (off + 2 <= length d)%nat -> length (put16 off z d) = length d.
Proof. intros. unfold put16. apply length_splice. rewrite length_le_bytes. lia. Qed.

Lemma get_put16 off z d :
  (off + 2 <= length d)%nat -> get16 off (put16 off z d) = u16 z.
Proof.
  intros H. unfold get16, put16.
  rewrite <- (length_le_bytes 2 (u16 z)) at 1.
  rewrite take_drop_splice by (rewrite length_le_bytes; lia).
  rewrite le_value_bytes. unfold u16. apply Z.mod_small, Z.mod_pos_bound. lia.
Qed.

#[export] Hint Rewrite length_put32 length_put16 using lia : len.
