(* ===== verification/Spinlock.v ===== *)
(** * Spin locks (system/sync/spinlock.c) and sleep locks (system/sync/sleeplock.c)

    [Spinlock] models [pushcli]/[popcli] on the per-CPU fields they use and
    [acquire]/[release]/[holding] on top of them.  A CPU's interrupt flag is
    the FL_IF bit of its EFLAGS.  The CPUs share the locks, so [acquire],
    [release] and [holding] are programs with a program counter, one step per
    access to a field of a lock: the [xchg] is one access, the reads of
    [lock->locked] and [lock->cpu] in [holding] are two.  [pushcli] and [popcli]
    touch only what belongs to the CPU that runs them and are one step each.
    Interrupts are not steps: a handler gives back every lock it takes, and
    none runs while [ncli] is positive.  The call-stack record [pcs] is
    debugging output and is left out.

    [SleepLock] models the sleep locks that buffers and inodes carry: a lock
    word and the pid of its holder. *)

From S2P Require Import Prelude.

Module Spinlock.

(** The fields of [struct cpu] that the lock code uses, with the CPU's
    interrupt flag. *)
Record cpu := mkcpu {
  ncli : Z;
  intena : bool;
  fl_if : bool
}.

(** [struct spinlock]: the lock word and the CPU that holds it. *)
Record spinlock := mklock {
  locked : Z;
  lcpu : option nat
}.

Record mach := mkmach {
  cpus : list cpu;
  locks : list spinlock
}.

Definition cpu0 : cpu := mkcpu 0 false false.
Definition initlock : spinlock := mklock 0 None.

Definition cpu_at (c : nat) (s : mach) : cpu := default cpu0 (cpus s !! c).
Definition lock_at (l : nat) (s : mach) : spinlock := default initlock (locks s !! l).
Definition set_cpu (c : nat) (x : cpu) (s : mach) : mach :=
  mkmach (<[c := x]> (cpus s)) (locks s).
Definition set_lock (l : nat) (x : spinlock) (s : mach) : mach :=
  mkmach (cpus s) (<[l := x]> (locks s)).

(** Operations are indexed by the CPU that runs them. *)

Definition pushcli (c : nat) : M mach unit :=
  x ← gets (cpu_at c);
  let eflags := fl_if x in
  let x := mkcpu (ncli x) (intena x) false in
  let x := if ncli x =? 0 then mkcpu (ncli x) eflags (fl_if x) else x in
  modify (set_cpu c (mkcpu (ncli x + 1) (intena x) (fl_if x))).

Definition popcli (c : nat) : M mach unit :=
  x ← gets (cpu_at c);
  if fl_if x then panic "popcli - interruptible" else
  let x := mkcpu (ncli x - 1) (intena x) (fl_if x) in
  if ncli x <? 0 then panic "popcli" else
  modify (set_cpu c
    (if (ncli x =? 0) && intena x then mkcpu (ncli x) (intena x) true else x)).

(** Where a CPU is in [holding]: before its [pushcli], before the read of
    [lock->locked], before that of [lock->cpu], and before its [popcli], with
    the result. *)
Inductive hpc := H_push | H_locked | H_cpu | H_pop (r : bool).

(** One step; the result when it is the last. *)
Definition holding (c l : nat) (h : hpc) : M mach (hpc + bool) :=
  match h with
  | H_push => pushcli c ;; mret (inl H_locked)
  | H_locked =>
      w ← gets (fun s => locked (lock_at l s));
      mret (inl (if w =? 0 then H_pop false else H_cpu))
  | H_cpu =>
      o ← gets (fun s => lcpu (lock_at l s));
      mret (inl (H_pop (bool_decide (o = Some c))))
  | H_pop r => popcli c ;; mret (inr r)
  end.

(** Where a CPU is: outside of the lock code, in [acquire] of a lock, or in
    [release]. *)
Inductive pc :=
| Idle
| A_push (l : nat) | A_holding (l : nat) (h : hpc) | A_xchg (l : nat) | A_cpu (l : nat)
| R_holding (l : nat) (h : hpc) | R_cpu (l : nat) | R_store (l : nat) | R_pop (l : nat).

(** [xchg(addr, newval)]: the exchange is one access. *)
Definition xchg (l : nat) (newval : Z) : M mach Z :=
  lk ← gets (lock_at l);
  modify (set_lock l (mklock newval (lcpu lk))) ;;
  mret (locked lk).

Definition acquire (c : nat) (p : pc) : M mach pc :=
  match p with
  | A_push l => pushcli c ;; mret (A_holding l H_push)
  | A_holding l h =>
      r ← holding c l h;
      match r with
      | inl h' => mret (A_holding l h')
      | inr true => panic "acquire"
      | inr false => mret (A_xchg l)
      end
  | A_xchg l =>
      old ← xchg l 1;
      mret (if negb (old =? 0) then A_xchg l else A_cpu l)
  | A_cpu l => modify (fun s => set_lock l (mklock (locked (lock_at l s)) (Some c)) s) ;; mret Idle
  | _ => mret p
  end.

Definition release (c : nat) (p : pc) : M mach pc :=
  match p with
  | R_holding l h =>
      r ← holding c l h;
      match r with
      | inl h' => mret (R_holding l h')
      | inr false => panic "release"
      | inr true => mret (R_cpu l)
      end
  | R_cpu l => modify (fun s => set_lock l (mklock (locked (lock_at l s)) None) s) ;; mret (R_store l)
  | R_store l => modify (fun s => set_lock l (mklock 0 (lcpu (lock_at l s))) s) ;; mret (R_pop l)
  | R_pop l => popcli c ;; mret Idle
  | _ => mret p
  end.

(** The step of a CPU inside the lock code. *)
Definition lock_step (c : nat) (p : pc) : M mach pc :=
  match p with
  | R_holding _ _ | R_cpu _ | R_store _ | R_pop _ => release c p
  | _ => acquire c p
  end.

(** ** Interrupt-disable nesting *)

(** Outside a critical section a CPU's flags are consistent: a positive
    nesting depth means that interrupts are off. *)
Definition cpu_ok (x : cpu) : Prop := 0 <= ncli x /\ (0 < ncli x -> fl_if x = false).

Lemma cpu_at_set c x s :
  (c < length (cpus s))%nat -> cpu_at c (set_cpu c x s) = x.
Proof. intros. unfold cpu_at, set_cpu; simpl. by rewrite list_lookup_insert_eq. Qed.

Lemma cpu_at_set_ne c c' x s : c <> c' -> cpu_at c' (set_cpu c x s) = cpu_at c' s.
Proof. intros. unfold cpu_at, set_cpu; simpl. by rewrite list_lookup_insert_ne. Qed.

Lemma lock_at_set l x s :
  (l < length (locks s))%nat -> lock_at l (set_lock l x s) = x.
Proof. intros. unfold lock_at, set_lock; simpl. by rewrite list_lookup_insert_eq. Qed.

Lemma lock_at_set_ne l l' x s : l <> l' -> lock_at l' (set_lock l x s) = lock_at l' s.
Proof. intros. unfold lock_at, set_lock; simpl. by rewrite list_lookup_insert_ne. Qed.

Lemma set_cpu_set_cpu c x y s : set_cpu c y (set_cpu c x s) = set_cpu c y s.
Proof. unfold set_cpu; simpl. by rewrite list_insert_insert_eq. Qed.

Lemma set_cpu_id c s : (c < length (cpus s))%nat -> set_cpu c (cpu_at c s) s = s.
Proof.
  intros H. destruct s as [cs ls]. unfold set_cpu, cpu_at in *; simpl in *. f_equal.
  destruct (lookup_lt_is_Some_2 cs c H) as [x Hx]. rewrite Hx; simpl.
  by apply list_insert_id.
Qed.

(** The CPU record after [pushcli]. *)
Definition pushed (x : cpu) : cpu :=
  mkcpu (ncli x + 1) (if ncli x =? 0 then fl_if x else intena x) false.

Lemma pushcli_eq c s : pushcli c s = Ok tt (set_cpu c (pushed (cpu_at c s)) s).
Proof.
  unfold pushcli, pushed; msimpl. by destruct (ncli (cpu_at c s) =? 0).
Qed.

(** The CPU record after a [pushcli] and a [popcli]: nothing but the saved
    [intena] of an outermost pair differs. *)
Definition bracketed (x : cpu) : cpu :=
  mkcpu (ncli x) (if ncli x =? 0 then fl_if x else intena x) (fl_if x).

Lemma popcli_pushed c s :
  (c < length (cpus s))%nat -> cpu_ok (cpu_at c s) ->
  popcli c (set_cpu c (pushed (cpu_at c s)) s)
    = Ok tt (set_cpu c (bracketed (cpu_at c s)) s).
Proof.
  intros Hc [Hn Hi]. unfold popcli; msimpl. rewrite cpu_at_set by done. simpl.
  replace (ncli (cpu_at c s) + 1 - 1) with (ncli (cpu_at c s)) by lia.
  destruct (Z.ltb_spec (ncli (cpu_at c s)) 0); [lia|].
  rewrite set_cpu_set_cpu. unfold bracketed. do 2 f_equal.
  destruct (Z.eqb_spec (ncli (cpu_at c s)) 0) as [E|E]; simpl.
  - by destruct (fl_if (cpu_at c s)).
  - by rewrite Hi by lia.
Qed.

Lemma bracketed_ok x : cpu_ok x -> cpu_ok (bracketed x).
Proof. done. Qed.

Lemma pushed_ok x : cpu_ok x -> cpu_ok (pushed x).
Proof. intros [? ?]. split; simpl; [lia|done]. Qed.

(** ** The machine: every CPU acquires and releases locks *)

(** The machine with the program counters of its CPUs.  The history [held]
    records which CPU has taken which lock word and not given it back; it is
    not part of the machine. *)
Record sys := mksys { mch : mach; pcs : list pc; held : list (nat * nat) }.

(** The [xchg] that finds 0 takes the lock, the store of 0 gives it back. *)
Definition note (c : nat) (p p' : pc) (h : list (nat * nat)) : list (nat * nat) :=
  match p, p' with
  | A_xchg l, A_cpu _ => (c, l) :: h
  | R_store l, _ => filter (fun q => q <> (c, l)) h
  | _, _ => h
  end.

(** CPUs call [acquire] and [release] on any locks at any time, and their steps
    interleave. *)
Inductive step : sys -> sys -> Prop :=
| step_call c l p s : pcs s !! c = Some Idle -> (l < length (locks (mch s)))%nat ->
    p = A_push l \/ p = R_holding l H_push ->
    step s (mksys (mch s) (<[c := p]> (pcs s)) (held s))
| step_run c p p' m' s : pcs s !! c = Some p -> p <> Idle -> lock_step c p (mch s) = Ok p' m' ->
    step s (mksys m' (<[c := p']> (pcs s)) (note c p p' (held s))).

(** At boot every lock is free and no CPU has interrupts pushed off. *)
Definition boot (ncpu nlocks : nat) (ifs : nat -> bool) : sys :=
  mksys (mkmach (map (fun i => mkcpu 0 false (ifs i)) (seq 0 ncpu)) (replicate nlocks initlock))
    (replicate ncpu Idle) [].

(** How many locks CPU [c] is holding. *)
Definition nheld (c : nat) (h : list (nat * nat)) : Z :=
  Z.of_nat (length (filter (fun p => p.1 = c) h)).

(** The [pushcli]s that are not accounted for by locks held. *)
Definition depth (p : pc) : Z :=
  match p with
  | A_holding _ H_push | A_xchg _ | R_pop _ => 1
  | A_holding _ _ => 2
  | R_holding _ H_push => 0
  | R_holding _ _ => 1
  | Idle | A_push _ | A_cpu _ | R_cpu _ | R_store _ => 0
  end.

(** The lock that a CPU is working on, and whether it has taken the word but
    not recorded itself in [lock->cpu]. *)
Definition target (p : pc) : option nat :=
  match p with
  | Idle => None
  | A_push l | A_holding l _ | A_xchg l | A_cpu l | R_holding l _ | R_cpu l | R_store l | R_pop l => Some l
  end.
Definition unrecorded (l : nat) (p : pc) : Prop := p = A_cpu l \/ p = R_store l.

Lemma nheld_cons c c' l h :
  nheld c ((c', l) :: h) = (if decide (c' = c) then 1 else 0) + nheld c h.
Proof.
  unfold nheld. rewrite filter_cons. simpl. destruct (decide (c' = c)); simpl; lia.
Qed.

Lemma nheld_remove c c' l h :
  NoDup h -> (c', l) ∈ h ->
  nheld c (filter (fun p => p <> (c', l)) h) = nheld c h - (if decide (c' = c) then 1 else 0).
Proof.
  induction h as [|[d m] h IH]; intros Hnd Hin; [by apply elem_of_nil in Hin|].
  apply NoDup_cons in Hnd as [Hnot Hnd]. rewrite filter_cons, nheld_cons.
  destruct (decide ((d, m) <> (c', l))) as [Hne|Heq].
  - apply elem_of_cons in Hin as [E|Hin]; [congruence|].
    rewrite nheld_cons, IH by done. lia.
  - assert ((d, m) = (c', l)) as E.
    { destruct (decide ((d, m) = (c', l))); [done|]. by destruct Heq. }
    simplify_eq. replace (filter (fun p => p <> (c', l)) h) with h; [lia|].
    clear -Hnot. induction h as [|p h IH]; [done|].
    rewrite filter_cons_True; [|intros ->; apply Hnot; constructor].
    f_equal. apply IH. intros ?. apply Hnot. by constructor.
Qed.

Lemma nheld_nonneg c h : 0 <= nheld c h.
Proof. unfold nheld. lia. Qed.

(** What a program counter says about the history. *)
Definition pc_ok (c : nat) (p : pc) (h : list (nat * nat)) : Prop :=
  match p with
  | A_cpu l | R_cpu l | R_store l => (c, l) ∈ h
  | A_xchg l => (c, l) ∉ h
  | A_holding l (H_pop r) | R_holding l (H_pop r) => r = true <-> (c, l) ∈ h
  | _ => True
  end.

(** The invariant: a lock word is 1 when exactly one CPU has taken it and 0 when
    none has, [lock->cpu] names that CPU but for the moment before it records
    itself and after it has erased itself, and the nesting depth of a CPU is the
    number of locks it holds and of the [pushcli]s on its way. *)
Record inv (s : sys) : Prop := {
  i_len : length (pcs s) = length (cpus (mch s));
  i_nodup : NoDup (held s);
  i_range : forall c l, (c, l) ∈ held s -> (c < length (cpus (mch s)))%nat /\ (l < length (locks (mch s)))%nat;
  i_target : forall c p l, pcs s !! c = Some p -> target p = Some l -> (l < length (locks (mch s)))%nat;
  i_one : forall c d l, (c, l) ∈ held s -> (d, l) ∈ held s -> c = d;
  i_word : forall l, (l < length (locks (mch s)))%nat ->
    locked (lock_at l (mch s)) = 0 /\ (forall c, (c, l) ∉ held s) \/
    locked (lock_at l (mch s)) = 1 /\ exists c, (c, l) ∈ held s;
  i_cpu : forall c l p, (l < length (locks (mch s)))%nat -> pcs s !! c = Some p ->
    lcpu (lock_at l (mch s)) = Some c <-> (c, l) ∈ held s /\ ~ unrecorded l p;
  i_pc : forall c p, pcs s !! c = Some p -> pc_ok c p (held s);
  i_ncli : forall c p, pcs s !! c = Some p ->
    ncli (cpu_at c (mch s)) = nheld c (held s) + depth p /\ cpu_ok (cpu_at c (mch s))
}.

Lemma nheld_pos c l h : (c, l) ∈ h -> 0 < nheld c h.
Proof.
  intros Hin. unfold nheld. assert ((c, l) ∈ filter (fun p => p.1 = c) h) as Hf by by apply list_elem_of_filter.
  destruct (filter _ h); [by apply elem_of_nil in Hf|simpl; lia].
Qed.

Lemma boot_inv n k ifs : inv (boot n k ifs).
Proof.
  assert (forall l, lock_at l (mch (boot n k ifs)) = initlock) as Hl.
  { intros l. unfold lock_at; simpl. destruct (replicate k initlock !! l) eqn:E; [|done].
    by apply lookup_replicate in E as [-> _]. }
  assert (forall c, ncli (cpu_at c (mch (boot n k ifs))) = 0) as Hn.
  { intros c. unfold cpu_at; simpl. rewrite list_lookup_fmap. by destruct (seq 0 n !! c). }
  assert (forall c p, pcs (boot n k ifs) !! c = Some p -> p = Idle) as Hp.
  { intros c p H. by apply lookup_replicate in H as [-> _]. }
  split.
  - simpl. by rewrite length_replicate, length_map, length_seq.
  - constructor.
  - intros c l H. by apply elem_of_nil in H.
  - intros c p l H. by rewrite (Hp c p H).
  - intros c d l H. by apply elem_of_nil in H.
  - intros l _. rewrite Hl. left. split; [done|]. intros c H. by apply elem_of_nil in H.
  - intros c l p _ _. rewrite Hl. split; [done|]. intros [H _]. by apply elem_of_nil in H.
  - intros c p H. by rewrite (Hp c p H).
  - intros c p H. rewrite (Hp c p H). unfold cpu_ok. rewrite Hn. split; [done|]. split; lia.
Qed.

Lemma pcs_insert (ps : list pc) c p c' q : (c < length ps)%nat -> <[c := p]> ps !! c' = Some q ->
  c' = c /\ q = p \/ c' <> c /\ ps !! c' = Some q.
Proof.
  intros Hc. destruct (decide (c' = c)) as [->|Hne].
  - rewrite list_lookup_insert_eq by done. intros [= <-]. auto.
  - rewrite list_lookup_insert_ne by done. auto.
Qed.

(** A step that touches only what belongs to the CPU. *)
Lemma inv_local c p p' x s : inv s -> pcs s !! c = Some p ->
  (forall l, target p' = Some l -> (l < length (locks (mch s)))%nat) ->
  (forall l, ~ unrecorded l p /\ ~ unrecorded l p') -> pc_ok c p' (held s) ->
  ncli x = nheld c (held s) + depth p' -> cpu_ok x ->
  inv (mksys (set_cpu c x (mch s)) (<[c := p']> (pcs s)) (held s)).
Proof.
  intros [Hlen Hnd Hr Ht H1 Hw Hcpu Hpc Hn] Hp Ht' Hu Hok Hx Hxok.
  pose proof (lookup_lt_Some _ _ _ Hp) as Hc. assert (c < length (cpus (mch s)))%nat as Hc' by congruence.
  split; cbn [mch pcs held]; try done.
  - simpl. by len.
  - intros d l Hd. simpl. len. by apply Hr.
  - intros d q l Hq Hl. simpl. apply pcs_insert in Hq as [[-> ->]|[_ Hq]]; [by apply Ht'|by eapply Ht|done].
  - intros d l q Hl Hq. change (lock_at l (set_cpu c x (mch s))) with (lock_at l (mch s)).
    apply pcs_insert in Hq as [[-> ->]|[_ Hq]]; [|by apply Hcpu|done].
    rewrite (Hcpu c l p Hl Hp). destruct (Hu l). tauto.
  - intros d q Hq. apply pcs_insert in Hq as [[-> ->]|[_ Hq]]; [done|by apply Hpc|done].
  - intros d q Hq. apply pcs_insert in Hq as [[-> ->]|[Hne Hq]]; [by rewrite cpu_at_set| |done].
    rewrite cpu_at_set_ne by congruence. by apply Hn.
Qed.

(** A step that changes a lock and, with it, the history. *)
Lemma inv_shared c p p' l y h s : inv s -> pcs s !! c = Some p -> target p = Some l -> target p' = Some l \/ p' = Idle ->
  NoDup h -> (forall d m, (d, m) ∈ h <-> if decide (m = l /\ d = c) then (c, l) ∈ h else (d, m) ∈ held s) ->
  (locked y = 0 /\ (forall d, (d, l) ∉ h) \/ locked y = 1 /\ (c, l) ∈ h /\ forall d, (d, l) ∈ h -> d = c) ->
  (lcpu y = Some c <-> (c, l) ∈ h /\ ~ unrecorded l p') ->
  (forall d q, d <> c -> pcs s !! d = Some q -> lcpu y <> Some d) ->
  (forall m, m <> l -> ~ unrecorded m p /\ ~ unrecorded m p') ->
  pc_ok c p' h -> nheld c h + depth p' = nheld c (held s) + depth p -> (forall d, d <> c -> nheld d h = nheld d (held s)) ->
  inv (mksys (set_lock l y (mch s)) (<[c := p']> (pcs s)) h).
Proof.
  intros [Hlen Hnd Hr Ht H1 Hw Hcpu Hpc Hn] Hp Htp Htp' Hnd' Hh Hy Hyc Hyd Hu Hok Hd1 Hd2.
  pose proof (lookup_lt_Some _ _ _ Hp) as Hc. assert (c < length (cpus (mch s)))%nat as Hc' by congruence.
  pose proof (Ht c p l Hp Htp) as Hl.
  assert (forall d m, m <> l -> (d, m) ∈ h <-> (d, m) ∈ held s) as Hother.
  { intros d m Hm. rewrite Hh. case_decide; [naive_solver|done]. }
  assert (forall d m, d <> c -> (d, m) ∈ h <-> (d, m) ∈ held s) as Hother'.
  { intros d m Hm. rewrite Hh. case_decide; [naive_solver|done]. }
  split; cbn [mch pcs held]; try done.
  - simpl. by len.
  - intros d m Hd. simpl. len. destruct (decide (d = c /\ m = l)) as [[-> ->]|Hne]; [done|].
    apply Hr. rewrite Hh in Hd. case_decide; [naive_solver|done].
  - intros d q m Hq Hm. simpl. len. apply pcs_insert in Hq as [[-> ->]|[_ Hq]]; [|by eapply Ht|done].
    destruct Htp' as [E| ->]; [congruence|done].
  - intros d e m Hd He. destruct (decide (m = l)) as [->|Hm]; [|rewrite Hother in Hd, He by done; eauto].
    destruct Hy as [[_ Hno]|(_ & _ & Hc1)]; [by destruct (Hno d)|]. rewrite (Hc1 d Hd). by rewrite (Hc1 e He).
  - intros m. simpl. len. intros Hm. destruct (decide (m = l)) as [->|Hne].
    + rewrite lock_at_set by done. naive_solver.
    + rewrite lock_at_set_ne by done. setoid_rewrite Hother; [|done..]. by apply Hw.
  - intros d m q. simpl. len. intros Hm Hq. destruct (decide (m = l)) as [->|Hne].
    + rewrite lock_at_set by done. apply pcs_insert in Hq as [[-> ->]|[Hdc Hq]]; [done| |done].
      split; [intros E; by destruct (Hyd d q Hdc Hq)|]. intros [Hin _].
      destruct Hy as [[_ Hno]|(_ & _ & Hc1)]; [by destruct (Hno d)|by rewrite (Hc1 d Hin) in Hdc].
    + rewrite lock_at_set_ne, Hother by done. apply pcs_insert in Hq as [[-> ->]|[_ Hq]]; [|by apply Hcpu|done].
      rewrite (Hcpu c m p Hm Hp). destruct (Hu m Hne). tauto.
  - intros d q Hq. apply pcs_insert in Hq as [[-> ->]|[Hdc Hq]]; [done| |done]. specialize (Hpc d q Hq).
    destruct q as [| |? []| | |? []| | |]; cbn in *; try done; by rewrite Hother'.
  - intros d q Hq. change (cpu_at d (set_lock l y (mch s))) with (cpu_at d (mch s)).
    apply pcs_insert in Hq as [[-> ->]|[Hdc Hq]]; [|rewrite Hd2 by done; by apply Hn|done].
    destruct (Hn c p Hp). split; [lia|done].
Qed.

Lemma popcli_eq c s : 0 < ncli (cpu_at c s) -> cpu_ok (cpu_at c s) ->
  exists x, popcli c s = Ok tt (set_cpu c x s) /\ ncli x = ncli (cpu_at c s) - 1 /\ cpu_ok x.
Proof.
  intros Hn [_ Hi]. unfold popcli; msimpl. rewrite (Hi Hn). simpl.
  destruct (Z.ltb_spec (ncli (cpu_at c s) - 1) 0); [lia|].
  eexists. split; [done|]. destruct (Z.eqb_spec (ncli (cpu_at c s) - 1) 0) as [E|E]; simpl.
  - destruct (intena _); unfold cpu_ok; simpl; split; lia.
  - unfold cpu_ok; simpl. split; [done|]. split; [lia|done].
Qed.

Lemma inv_idle_cpu c p p' s : inv s -> pcs s !! c = Some p ->
  (forall l, target p' = Some l -> (l < length (locks (mch s)))%nat) ->
  (forall l, ~ unrecorded l p /\ ~ unrecorded l p') -> pc_ok c p' (held s) -> depth p' = depth p ->
  inv (mksys (mch s) (<[c := p']> (pcs s)) (held s)).
Proof.
  intros Hi Hp Ht Hu Hok Hd. destruct (i_ncli _ Hi c p Hp) as [Hn Hc].
  rewrite <- (set_cpu_id c (mch s)) by (rewrite <- (i_len _ Hi); by eapply lookup_lt_Some).
  eapply inv_local; [done..|lia|done].
Qed.

(** The three ways of a step of [holding]: a [pushcli], reads, and a [popcli]. *)
Lemma holding_step c l h m : 0 < ncli (cpu_at c m) \/ h = H_push -> cpu_ok (cpu_at c m) ->
  match h with
  | H_push => holding c l h m = Ok (inl H_locked) (set_cpu c (pushed (cpu_at c m)) m)
  | H_locked => holding c l h m = Ok (inl (if locked (lock_at l m) =? 0 then H_pop false else H_cpu)) m
  | H_cpu => holding c l h m = Ok (inl (H_pop (bool_decide (lcpu (lock_at l m) = Some c)))) m
  | H_pop r => exists x, holding c l h m = Ok (inr r) (set_cpu c x m) /\ ncli x = ncli (cpu_at c m) - 1 /\ cpu_ok x
  end.
Proof.
  intros Hn Hok. destruct h; unfold holding; [|done|done|].
  - by rewrite (bind_ok _ _ _ _ _ (pushcli_eq c m)).
  - destruct Hn as [Hn|Hn]; [|done]. destruct (popcli_eq c m Hn Hok) as (x & E & Hx).
    exists x. by rewrite (bind_ok _ _ _ _ _ E).
Qed.

(** A CPU in the lock code makes a step, which keeps the invariant, unless it
    misuses the lock. *)
Definition misuse (c : nat) (p : pc) (s : sys) : Prop :=
  exists l, p = A_holding l (H_pop true) /\ (c, l) ∈ held s /\ lock_step c p (mch s) = Panic "acquire" \/
            p = R_holding l (H_pop false) /\ (c, l) ∉ held s /\ lock_step c p (mch s) = Panic "release".

Definition moves (c : nat) (p : pc) (s : sys) : Prop :=
  exists p' m', lock_step c p (mch s) = Ok p' m' /\ inv (mksys m' (<[c := p']> (pcs s)) (note c p p' (held s))).

(** The reads of [holding] decide whether the CPU holds the lock. *)
Lemma holding_reads c p l s : inv s -> pcs s !! c = Some p -> (l < length (locks (mch s)))%nat -> (forall m, ~ unrecorded m p) ->
  (locked (lock_at l (mch s)) = 0 -> (c, l) ∉ held s) /\
  (lcpu (lock_at l (mch s)) = Some c <-> (c, l) ∈ held s).
Proof.
  intros Hi Hp Hl Hu. split.
  - intros E. destruct (i_word _ Hi l Hl) as [[_ H]|[H _]]; [done|congruence].
  - rewrite (i_cpu _ Hi c l p Hl Hp). specialize (Hu l). tauto.
Qed.

Lemma holding_moves c p l h s (mk : nat -> hpc -> pc) : inv s -> pcs s !! c = Some p -> p = mk l h ->
  mk = A_holding \/ mk = R_holding ->
  match h with
  | H_pop r => exists x, holding c l h (mch s) = Ok (inr r) (set_cpu c x (mch s)) /\
      ncli x = ncli (cpu_at c (mch s)) - 1 /\ cpu_ok x
  | _ => exists h' m', holding c l h (mch s) = Ok (inl h') m' /\ inv (mksys m' (<[c := mk l h']> (pcs s)) (held s))
  end.
Proof.
  intros Hi Hp -> Hmk. destruct (i_ncli _ Hi c _ Hp) as [Hn Hok].
  assert (l < length (locks (mch s)))%nat as Hl by (eapply (i_target _ Hi); [done|by destruct Hmk as [-> | ->]]).
  assert (forall h' m, ~ unrecorded m (mk l h')) as Hu by (intros h' m [E|E]; by destruct Hmk as [-> | ->]).
  assert (0 < ncli (cpu_at c (mch s)) \/ h = H_push) as Hpos.
  { pose proof (nheld_nonneg c (held s)). destruct Hmk as [-> | ->], h; cbn in Hn; (by right) || (left; lia). }
  pose proof (holding_step c l h (mch s) Hpos Hok) as Hs.
  pose proof (holding_reads c _ l s Hi Hp Hl (Hu h)) as [Hr1 Hr2].
  destruct h as [| | |r].
  - eexists _, _. split; [done|]. eapply inv_local; [done|done| |by split; apply Hu| | |by apply pushed_ok].
    + intros m. by destruct Hmk as [-> | ->]; intros [= <-].
    + by destruct Hmk as [-> | ->].
    + simpl. destruct Hmk as [-> | ->]; cbn in *; lia.
  - eexists _, _. split; [done|]. eapply inv_idle_cpu; [done|done| |by split; apply Hu| |].
    + intros m. by destruct Hmk as [-> | ->]; intros [= <-].
    + destruct (Z.eqb_spec (locked (lock_at l (mch s))) 0) as [E|E]; [|by destruct Hmk as [-> | ->]].
      specialize (Hr1 E). by destruct Hmk as [-> | ->]; cbn.
    + by destruct Hmk as [-> | ->]; destruct (_ =? 0).
  - eexists _, _. split; [done|]. eapply inv_idle_cpu; [done|done| |by split; apply Hu| |].
    + intros m. by destruct Hmk as [-> | ->]; intros [= <-].
    + destruct Hmk as [-> | ->]; cbn; by rewrite bool_decide_eq_true.
    + by destruct Hmk as [-> | ->].
  - done.
Qed.

(** The last step of [holding] goes on to [p'], with one [pushcli] less. *)
Lemma holding_done c l r p p' s x : inv s -> pcs s !! c = Some p -> p = A_holding l (H_pop r) \/ p = R_holding l (H_pop r) ->
  target p' = Some l -> (forall m, ~ unrecorded m p') -> pc_ok c p' (held s) -> depth p' = depth p - 1 ->
  ncli x = ncli (cpu_at c (mch s)) - 1 -> cpu_ok x ->
  inv (mksys (set_cpu c x (mch s)) (<[c := p']> (pcs s)) (held s)).
Proof.
  intros Hi Hp Hcase Ht Hu Hok Hd Hx Hxok. destruct (i_ncli _ Hi c p Hp) as [Hn _].
  eapply inv_local; [done|done| | |done|lia|done].
  - intros m E. rewrite Ht in E. injection E as <-. eapply (i_target _ Hi); [done|]. by destruct Hcase as [-> | ->].
  - intros m. split; [|done]. by destruct Hcase as [-> | ->]; intros [E|E].
Qed.

Lemma acquire_holding_moves c l h s : inv s -> pcs s !! c = Some (A_holding l h) ->
  moves c (A_holding l h) s \/ misuse c (A_holding l h) s.
Proof.
  intros Hi Hp. pose proof (holding_moves c _ l h s A_holding Hi Hp eq_refl ltac:(auto)) as H.
  destruct h as [| | |r]; try (destruct H as (h' & m' & E & Hinv); left; exists (A_holding l h'), m';
    split; [cbn [lock_step acquire]; by rewrite (bind_ok _ _ _ _ _ E)|exact Hinv]).
  destruct H as (x & E & Hx & Hok). pose proof (i_pc _ Hi c _ Hp) as Hpc. cbn in Hpc. destruct r.
  - right. exists l. left. split; [done|]. split; [by apply Hpc|]. cbn [lock_step acquire]. by rewrite (bind_ok _ _ _ _ _ E).
  - left. exists (A_xchg l), (set_cpu c x (mch s)). split; [cbn [lock_step acquire]; by rewrite (bind_ok _ _ _ _ _ E)|].
    eapply holding_done; [done|done|by left|done|by intros m [?|?]| |done|done|done]. cbn. by rewrite <- Hpc.
Qed.

Lemma release_holding_moves c l h s : inv s -> pcs s !! c = Some (R_holding l h) ->
  moves c (R_holding l h) s \/ misuse c (R_holding l h) s.
Proof.
  intros Hi Hp. pose proof (holding_moves c _ l h s R_holding Hi Hp eq_refl ltac:(auto)) as H.
  destruct h as [| | |r]; try (destruct H as (h' & m' & E & Hinv); left; exists (R_holding l h'), m';
    split; [cbn [lock_step release]; by rewrite (bind_ok _ _ _ _ _ E)|exact Hinv]).
  destruct H as (x & E & Hx & Hok). pose proof (i_pc _ Hi c _ Hp) as Hpc. cbn in Hpc. destruct r.
  - left. exists (R_cpu l), (set_cpu c x (mch s)). split; [cbn [lock_step release]; by rewrite (bind_ok _ _ _ _ _ E)|].
    eapply holding_done; [done|done|by right|done|by intros m [?|?]| |done|done|done]. by apply Hpc.
  - right. exists l. right. split; [done|]. split; [by rewrite <- Hpc|]. cbn [lock_step release]. by rewrite (bind_ok _ _ _ _ _ E).
Qed.

Lemma held_same (c l : nat) (h : list (nat * nat)) d m :
  (d, m) ∈ h <-> if decide (m = l /\ d = c) then (c, l) ∈ h else (d, m) ∈ h.
Proof. case_decide; naive_solver. Qed.

(** The word that [xchg] returns is 0 when no CPU has the lock. *)
Lemma xchg_moves c l s : inv s -> pcs s !! c = Some (A_xchg l) -> moves c (A_xchg l) s.
Proof.
  intros Hi Hp. pose proof (i_target _ Hi c _ l Hp eq_refl) as Hl. pose proof (i_pc _ Hi c _ Hp) as Hno. cbn in Hno.
  unfold moves. cbn [lock_step acquire]. unfold xchg. msimpl.
  destruct (i_word _ Hi l Hl) as [[E Hfree]|[E [d Hd]]]; rewrite E; simpl.
  - exists (A_cpu l), (set_lock l (mklock 1 (lcpu (lock_at l (mch s)))) (mch s)). split; [done|]. cbn [note].
    assert (forall d q, pcs s !! d = Some q -> lcpu (lock_at l (mch s)) <> Some d) as Hcpu.
    { intros d q Hq Hd. apply (i_cpu _ Hi d l q Hl Hq) in Hd as [Hd _]. by apply (Hfree d). }
    eapply inv_shared; [done|done|done|by left|..].
    + apply NoDup_cons. split; [done|by apply i_nodup].
    + intros d m. case_decide as E'; [by destruct E' as [-> ->]|]. rewrite elem_of_cons.
      split; [intros [[= -> ->]|?]; [by destruct E'|done]|by right].
    + right. split; [done|]. split; [by constructor|]. intros d [[= ->]|Hd]%elem_of_cons; [done|]. by destruct (Hfree d).
    + split; [intros E'; by destruct (Hcpu c _ Hp)|]. intros [_ Hu]. destruct Hu. by left.
    + intros d q _ Hq. by apply (Hcpu d q).
    + intros m Hm. split; intros [[= ?]|?]; congruence.
    + by constructor.
    + rewrite nheld_cons, decide_True by done. cbn. lia.
    + intros d Hd. rewrite nheld_cons, decide_False by congruence. lia.
  - exists (A_xchg l), (set_lock l (mklock 1 (lcpu (lock_at l (mch s)))) (mch s)). split; [done|]. cbn [note].
    rewrite <- E.
    replace (set_lock l _ (mch s)) with (mch s).
    2:{ destruct s as [[cs ls] ? ?]; cbn in *. unfold set_lock, lock_at in *. cbn in *. f_equal.
        destruct (lookup_lt_is_Some_2 ls l Hl) as [y Hy]. rewrite Hy. cbn. rewrite list_insert_id; [done|]. by destruct y. }
    rewrite list_insert_id by done. by destruct s.
Qed.

Lemma record_moves c l s : inv s -> pcs s !! c = Some (A_cpu l) -> moves c (A_cpu l) s.
Proof.
  intros Hi Hp. pose proof (i_target _ Hi c _ l Hp eq_refl) as Hl. pose proof (i_pc _ Hi c _ Hp) as Hin. cbn in Hin.
  destruct (i_word _ Hi l Hl) as [[_ Hno]|[E _]]; [by destruct (Hno c)|].
  eexists _, _. split; [done|]. cbn [note]. eapply inv_shared; [done|done|done|by right|..].
  - by apply i_nodup.
  - apply held_same.
  - right. split; [done|]. split; [done|]. intros d Hd. by eapply i_one.
  - split; [|done]. intros _. split; [done|]. by intros [?|?].
  - intros d q Hd _ [= ?]. congruence.
  - intros m Hm. split; intros [[= ?]|?]; congruence.
  - done.
  - done.
  - done.
Qed.

Lemma erase_moves c l s : inv s -> pcs s !! c = Some (R_cpu l) -> moves c (R_cpu l) s.
Proof.
  intros Hi Hp. pose proof (i_target _ Hi c _ l Hp eq_refl) as Hl. pose proof (i_pc _ Hi c _ Hp) as Hin. cbn in Hin.
  destruct (i_word _ Hi l Hl) as [[_ Hno]|[E _]]; [by destruct (Hno c)|].
  eexists _, _. split; [done|]. cbn [note]. eapply inv_shared; [done|done|done|by left|..].
  - by apply i_nodup.
  - apply held_same.
  - right. split; [done|]. split; [done|]. intros d Hd. by eapply i_one.
  - split; [done|]. intros [_ Hu]. destruct Hu. by right.
  - done.
  - intros m Hm. split; intros [?|[= ?]]; congruence.
  - done.
  - done.
  - done.
Qed.

Lemma store_moves c l s : inv s -> pcs s !! c = Some (R_store l) -> moves c (R_store l) s.
Proof.
  intros Hi Hp. pose proof (i_target _ Hi c _ l Hp eq_refl) as Hl. pose proof (i_pc _ Hi c _ Hp) as Hin. cbn in Hin.
  assert (forall d, (d, l) ∉ filter (fun q => q <> (c, l)) (held s)) as Hnone.
  { intros d [Hne Hd]%list_elem_of_filter. by rewrite (i_one _ Hi d c l Hd Hin) in Hne. }
  eexists _, _. split; [done|]. cbn [note]. eapply inv_shared; [done|done|done|by left|..].
  - apply NoDup_filter, Hi.
  - intros d m. case_decide as E; [by destruct E as [-> ->]|]. rewrite list_elem_of_filter. naive_solver.
  - left. by split.
  - cbn. rewrite (i_cpu _ Hi c l _ Hl Hp). split; [|intros [Hd _]; by destruct (Hnone c)].
    intros [_ Hu]. destruct Hu. by right.
  - intros d q Hd Hq E. cbn in E. apply (i_cpu _ Hi d l q Hl Hq) in E as [E _]. by destruct Hd, (i_one _ Hi d c l E Hin).
  - intros m Hm. split; intros [?|[= ?]]; congruence.
  - done.
  - rewrite nheld_remove, decide_True by (done || apply Hi). cbn. lia.
  - intros d Hd. rewrite nheld_remove, decide_False by (congruence || apply Hi || done). lia.
Qed.

Lemma lock_step_moves c p s : inv s -> pcs s !! c = Some p -> p <> Idle -> moves c p s \/ misuse c p s.
Proof.
  intros Hi Hp Hne. destruct (i_ncli _ Hi c p Hp) as [Hn Hok].
  destruct p as [|l|l h|l|l|l h|l|l|l]; [done| |by apply acquire_holding_moves|left; by apply xchg_moves
    |left; by apply record_moves|by apply release_holding_moves|left; by apply erase_moves|left; by apply store_moves|].
  - left. eexists _, _. split; [cbn [lock_step acquire]; by rewrite (bind_ok _ _ _ _ _ (pushcli_eq c (mch s)))|].
    eapply inv_local; [done|done| | |done| |by apply pushed_ok].
    + intros m [= <-]. by eapply (i_target _ Hi).
    + intros m. by split; intros [?|?].
    + cbn in *. lia.
  - left. pose proof (nheld_nonneg c (held s)). destruct (popcli_eq c (mch s)) as (x & E & Hx & Hxok); [cbn in Hn; lia|done|].
    eexists _, _. split; [cbn [lock_step release]; by rewrite (bind_ok _ _ _ _ _ E)|].
    eapply inv_local; [done|done|done| |done| |done].
    + intros m. by split; intros [?|?].
    + cbn in *. lia.
Qed.

Lemma sys_step_inv s s' : step s s' -> inv s -> inv s'.
Proof.
  intros [c l p t Hp Hl Hcase|c p p' m' t Hp Hne E] Hi.
  - eapply inv_idle_cpu; [done|done| | | |].
    + intros m. destruct Hcase as [-> | ->]; by intros [= <-].
    + intros m. split; [by intros [?|?]|]. destruct Hcase as [-> | ->]; by intros [?|?].
    + by destruct Hcase as [-> | ->].
    + by destruct Hcase as [-> | ->].
  - destruct (lock_step_moves c p t Hi Hp Hne) as [(q & m & E' & Hq)|(l & [(_ & _ & E')|(_ & _ & E')])]; [|congruence..].
    rewrite E in E'. by injection E' as <- <-.
Qed.

Lemma reachable_inv s s' : inv s -> rtc step s s' -> inv s'.
Proof. intros Hi Hr. induction Hr; eauto using sys_step_inv. Qed.

(** C26. The CPUs run [acquire] and [release] of any locks, interleaved at every access
    to a lock.  Two CPUs never have the same lock, from the [xchg] that took its word to the
    store that gives it back.  A CPU that has one has interrupts off, the lock word is 1, and
    outside of the lock code [lock->cpu] names the CPU.  A CPU in the lock code can always go
    on: the only panics are [acquire] of a lock that it has and [release] of one that it
    has not. *)
Theorem spinlock_mutual_exclusion n k ifs s : rtc step (boot n k ifs) s ->
  (forall c d l, (c, l) ∈ held s -> (d, l) ∈ held s -> c = d) /\
  (forall c l p, (c, l) ∈ held s -> pcs s !! c = Some p ->
     fl_if (cpu_at c (mch s)) = false /\ locked (lock_at l (mch s)) = 1 /\
     (p = Idle -> lcpu (lock_at l (mch s)) = Some c)) /\
  (forall c p, pcs s !! c = Some p -> p <> Idle ->
     (exists p' m', lock_step c p (mch s) = Ok p' m') \/ misuse c p s).
Proof.
  intros Hr. apply reachable_inv in Hr; [|apply boot_inv]. split_and!.
  - apply Hr.
  - intros c l p Hin Hp. destruct (i_range _ Hr c l Hin) as [_ Hl]. destruct (i_ncli _ Hr c p Hp) as [Hn [_ Hoff]].
    assert (0 < nheld c (held s)) by by eapply nheld_pos.
    split_and!; [apply Hoff; destruct p as [| |? []| | |? []| | |]; cbn in Hn; lia| |].
    + destruct (i_word _ Hr l Hl) as [[_ Hno]|[E _]]; [by destruct (Hno c)|done].
    + intros ->. apply (i_cpu _ Hr c l Idle Hl Hp). split; [done|]. by intros [?|?].
  - intros c p Hp Hne. destruct (lock_step_moves c p s Hr Hp Hne) as [(p' & m' & E & _)|Hm]; [left; eauto|by right].
Qed.

(** A balanced [pushcli]/[popcli] pair gives back the nesting depth and the
    interrupt flag it found, at any depth, and does not panic. *)
Theorem pushcli_popcli_balanced c s :
  (c < length (cpus s))%nat -> cpu_ok (cpu_at c s) ->
  exists s', (pushcli c ;; popcli c) s = Ok tt s' /\
    ncli (cpu_at c s') = ncli (cpu_at c s) /\ fl_if (cpu_at c s') = fl_if (cpu_at c s) /\
    (forall d, d <> c -> cpu_at d s' = cpu_at d s) /\ locks s' = locks s.
Proof.
  intros Hc Hok. rewrite (bind_ok _ _ _ _ _ (pushcli_eq c s)), popcli_pushed by done.
  eexists. split; [done|]. rewrite cpu_at_set by done.
  repeat split. intros d Hd. by apply cpu_at_set_ne.
Qed.

(** ** Two CPUs after one lock *)

#[global] Instance hpc_eq_dec : EqDecision hpc.
Proof. solve_decision. Defined.
#[global] Instance pc_eq_dec : EqDecision pc.
Proof. solve_decision. Defined.

Inductive event := Call (c : nat) (p : pc) | Run (c : nat).

Definition do_event (e : event) (s : sys) : option sys :=
  match e with
  | Call c p => Some (mksys (mch s) (<[c := p]> (pcs s)) (held s))
  | Run c =>
      p ← pcs s !! c;
      match lock_step c p (mch s) with
      | Ok p' m' => Some (mksys m' (<[c := p']> (pcs s)) (note c p p' (held s)))
      | _ => None
      end
  end.

Definition event_ok (e : event) (s : sys) : bool :=
  match e with
  | Call c p => bool_decide (pcs s !! c = Some Idle) &&
      match p with A_push l | R_holding l H_push => bool_decide (l < length (locks (mch s)))%nat | _ => false end
  | Run c => negb (bool_decide (pcs s !! c = Some Idle))
  end.

Fixpoint do_events (es : list event) (s : sys) : option sys :=
  match es with
  | [] => Some s
  | e :: es' => if event_ok e s then s' ← do_event e s; do_events es' s' else None
  end.


Lemma do_events_run es s s' : do_events es s = Some s' -> rtc step s s'.
Proof.
  revert s. induction es as [|e es IH]; intros s; cbn [do_events]; [intros [= ->]; apply rtc_refl|].
  destruct (event_ok e s) eqn:Eok; [|done]. destruct (do_event e s) as [s1|] eqn:E; [|done]. intros H.
  apply (rtc_l _ _ s1); [|by apply IH]. destruct e as [c p|c]; cbn in Eok, E.
  - injection E as <-. apply andb_prop in Eok as [E1 E2]. apply bool_decide_eq_true in E1.
    destruct p as [|l| | | |l []| | |]; try done; apply bool_decide_eq_true in E2; eapply step_call; eauto.
  - destruct (pcs s !! c) as [p|] eqn:Hp; [|done]. cbn in E. destruct (lock_step c p (mch s)) eqn:El; try done.
    injection E as <-. apply step_run; [done| |done]. intros ->. by rewrite bool_decide_eq_true_2 in Eok.
Qed.

(** Both CPUs find the lock free in [holding]; CPU 1 gets the word, and CPU 0 spins. *)
Definition race : list event :=
  [Call 0 (A_push 0); Call 1 (A_push 0); Run 0; Run 1; Run 0; Run 1; Run 0; Run 1; Run 0; Run 1;
   Run 1; Run 0; Run 0; Run 1; Run 0].
Definition raced : sys :=
  mksys (mkmach [mkcpu 1 true false; mkcpu 1 true false] [mklock 1 (Some 1%nat)]) [A_xchg 0; Idle] [(1, 0)]%nat.

Lemma spinlock_mutual_exclusion_witness : rtc step (boot 2 1 (fun _ => true)) raced /\
  fl_if (cpu_at 1 (mch raced)) = false /\ lcpu (lock_at 0 (mch raced)) = Some 1%nat /\
  exists p' m', lock_step 0 (A_xchg 0) (mch raced) = Ok p' m'.
Proof.
  assert (rtc step (boot 2 1 (fun _ => true)) raced) as Hr by (apply (do_events_run race); vm_compute; reflexivity).
  destruct (spinlock_mutual_exclusion 2 1 (fun _ => true) raced Hr) as (_ & H1 & H2).
  destruct (H1 1%nat 0%nat Idle) as (H3 & _ & H4); [constructor|reflexivity|].
  split; [exact Hr|]. split; [exact H3|]. split; [exact (H4 eq_refl)|].
  destruct (H2 0%nat (A_xchg 0) eq_refl ltac:(discriminate)) as [H|(l & [[H _]|[H _]])]; [exact H|discriminate..].
Defined.

Lemma pushcli_popcli_balanced_witness : exists s', (pushcli 1 ;; popcli 1) (mch raced) = Ok tt s' /\
  ncli (cpu_at 1 s') = 1 /\ fl_if (cpu_at 1 s') = false.
Proof.
  destruct (pushcli_popcli_balanced 1 (mch raced)) as (s' & E & H1 & H2 & _);
    [simpl; lia|by split|]. exists s'. split; [exact E|split; [exact H1|exact H2]].
Defined.

End Spinlock.

(** ** Sleep locks *)

Module SleepLock.

(** [struct sleeplock]: the lock word and the pid of the process holding it. *)
Record sleeplock := mksl { sl_locked : Z; sl_pid : Z }.

Definition initsleeplock : sleeplock := mksl 0 0.

(** [acquiresleep] by process [pid]: [None] when the process goes to sleep on
    the lock, else the lock as taken. *)
Definition acquiresleep (pid : Z) (lk : sleeplock) : option sleeplock :=
  if negb (sl_locked lk =? 0) then None else Some (mksl 1 pid).

Definition releasesleep (lk : sleeplock) : sleeplock := mksl 0 0.

Definition holdingsleep (pid : Z) (lk : sleeplock) : bool :=
  negb (sl_locked lk =? 0) && (sl_pid lk =? pid).

#[global] Instance sleeplock_eq_dec : EqDecision sleeplock.
Proof. solve_decision. Defined.

Lemma holding_acquired pid lk lk' :
  acquiresleep pid lk = Some lk' -> holdingsleep pid lk' = true.
Proof.
  unfold acquiresleep. destruct (negb _); intros [= <-].
  unfold holdingsleep; simpl. apply Z.eqb_refl.
Qed.

Lemma holding_released pid lk : holdingsleep pid (releasesleep lk) = false.
Proof. done. Qed.

End SleepLock.
