(* ===== verification/Bio.v ===== *)
(** * The buffer cache (system/storage/bio.c) over the memory disk
    (system/storage/memide.c)

    The cache is the array [bcache.buf] with the list head as one more entry
    at index [HEAD]; [prev] and [next] are indices into it, so that the
    doubly linked LRU list is the pointer structure of the code.  The disk is
    the memory image of memide.c, a list of blocks, and [trace] is the history
    of the block writes that reached it, which crash reasoning uses.

    The spin lock [bcache.lock] is held for the whole of each list
    manipulation, which is one step here; sleep locks are modelled, and a
    process that would wait on one leaves the operation [Asleep].

    The specification [Spec] is a cache in which every block is present; the
    theorem [bio_refines_spec] (in BlockProg.v) relates the two. *)

From S2P Require Import Prelude Spinlock.
Import SleepLock.

(** Constants of include/fs.h, include/param.h and include/buf.h. *)
Definition BSIZE : nat := 512.
Definition MAXOPBLOCKS : Z := 10.
Definition LOGSIZE : Z := MAXOPBLOCKS * 3.
Definition NBUF : nat := 30.
Definition ROOTDEV : Z := 1.
Definition B_VALID : Z := 2.
Definition B_DIRTY : Z := 4.

Definition block : Type := list Z.

Module Bio.

(** [struct buf]; [qnext] belongs to the IDE driver's queue. *)
Record buf := mkbuf {
  flags : Z;
  dev : Z;
  blockno : Z;
  lock : sleeplock;
  refcnt : Z;
  prev : nat;
  next : nat;
  data : block
}.

(** The disk image of memide.c and the history of its block writes. *)
Record disk := mkdisk {
  memdisk : list block;
  trace : list (Z * block)
}.

Record state := mkst {
  bufs : list buf;
  dsk : disk;
  pid : Z
}.

(** The entry [bcache.head]. *)
Definition HEAD : nat := NBUF.

Definition zero_block : block := replicate BSIZE 0.
Definition buf0 : buf := mkbuf 0 0 0 initsleeplock 0 0 0 zero_block.

Definition buf_at (i : nat) (s : state) : buf := default buf0 (bufs s !! i).
Definition set_buf (i : nat) (b : buf) (s : state) : state :=
  mkst (<[i := b]> (bufs s)) (dsk s) (pid s).
Definition upd (i : nat) (f : buf -> buf) : M state unit :=
  modify (fun s => set_buf i (f (buf_at i s)) s).

Definition set_flags (v : Z) (b : buf) : buf :=
  mkbuf v (dev b) (blockno b) (lock b) (refcnt b) (prev b) (next b) (data b).
Definition set_refcnt (v : Z) (b : buf) : buf :=
  mkbuf (flags b) (dev b) (blockno b) (lock b) v (prev b) (next b) (data b).
Definition set_lock (v : sleeplock) (b : buf) : buf :=
  mkbuf (flags b) (dev b) (blockno b) v (refcnt b) (prev b) (next b) (data b).
Definition set_prev (v : nat) (b : buf) : buf :=
  mkbuf (flags b) (dev b) (blockno b) (lock b) (refcnt b) v (next b) (data b).
Definition set_next (v : nat) (b : buf) : buf :=
  mkbuf (flags b) (dev b) (blockno b) (lock b) (refcnt b) (prev b) v (data b).
Definition set_data (v : block) (b : buf) : buf :=
  mkbuf (flags b) (dev b) (blockno b) (lock b) (refcnt b) (prev b) (next b) v.

(** ** memide.c *)

Definition disksize (s : state) : Z := Z.of_nat (length (memdisk (dsk s))).

Definition iderw (i : nat) : M state unit :=
  s ← get;
  let b := buf_at i s in
  if negb (holdingsleep (pid s) (lock b)) then panic "iderw: buf not locked" else
  if Z.land (flags b) (Z.lor B_VALID B_DIRTY) =? B_VALID
  then panic "iderw: nothing to do" else
  if negb (dev b =? 1) then panic "iderw: request not for disk 1" else
  if disksize s <=? blockno b then panic "iderw: block out of range" else
  let p := Z.to_nat (blockno b) in
  (if negb (Z.land (flags b) B_DIRTY =? 0)
   then
     upd i (fun b => set_flags (Z.land (flags b) (Z.lnot B_DIRTY)) b) ;;
     modify (fun s => mkst (bufs s)
       (mkdisk (<[p := data b]> (memdisk (dsk s))) (trace (dsk s) ++ [(blockno b, data b)]))
       (pid s))
   else
     upd i (set_data (default zero_block (memdisk (dsk s) !! p)))) ;;
  upd i (fun b => set_flags (Z.lor (flags b) B_VALID) b).

(** ** bio.c *)

(** The body of [binit]'s loop: push buffer [b] at the front of the list. *)
Definition binit_push (b : nat) : M state unit :=
  h ← gets (buf_at HEAD);
  upd b (set_next (next h)) ;;
  upd b (set_prev HEAD) ;;
  upd b (set_lock initsleeplock) ;;
  h ← gets (buf_at HEAD);
  upd (next h) (set_prev b) ;;
  upd HEAD (set_next b).

Definition binit : M state unit :=
  upd HEAD (set_prev HEAD) ;;
  upd HEAD (set_next HEAD) ;;
  for_each NBUF 0 (fun i => binit_push (Z.to_nat i)).

(** [acquiresleep(&b->lock)] *)
Definition lock_buf (i : nat) : M state unit :=
  s ← get;
  match acquiresleep (pid s) (lock (buf_at i s)) with
  | Some lk => upd i (set_lock lk)
  | None => asleep
  end.

(** The two scans of [bget], along [next] and along [prev]. *)
Fixpoint scan_cached (fuel : nat) (b : nat) (d bn : Z) : M state (option nat) :=
  match fuel with
  | O => nofuel
  | S fuel' =>
      if bool_decide (b = HEAD) then mret None else
      x ← gets (buf_at b);
      if (dev x =? d) && (blockno x =? bn) then mret (Some b)
      else scan_cached fuel' (next x) d bn
  end.

Fixpoint scan_unused (fuel : nat) (b : nat) : M state (option nat) :=
  match fuel with
  | O => nofuel
  | S fuel' =>
      if bool_decide (b = HEAD) then mret None else
      x ← gets (buf_at b);
      if (refcnt x =? 0) && (Z.land (flags x) B_DIRTY =? 0) then mret (Some b)
      else scan_unused fuel' (prev x)
  end.

Definition recycle (d bn : Z) (b : buf) : buf :=
  mkbuf 0 d bn (lock b) 1 (prev b) (next b) (data b).

Definition bget (d bn : Z) : M state nat :=
  h ← gets (buf_at HEAD);
  r ← scan_cached (S NBUF) (next h) d bn;
  match r with
  | Some b =>
      upd b (fun x => set_refcnt (u32 (refcnt x + 1)) x) ;;
      lock_buf b ;;
      mret b
  | None =>
      h ← gets (buf_at HEAD);
      r ← scan_unused (S NBUF) (prev h);
      match r with
      | Some b => upd b (recycle d bn) ;; lock_buf b ;; mret b
      | None => panic "bget: no buffers"
      end
  end.

Definition bread (d bn : Z) : M state nat :=
  b ← bget d bn;
  x ← gets (buf_at b);
  when (Z.land (flags x) B_VALID =? 0) (iderw b) ;;
  mret b.

Definition bwrite (b : nat) : M state unit :=
  s ← get;
  if negb (holdingsleep (pid s) (lock (buf_at b s))) then panic "bwrite" else
  upd b (fun x => set_flags (Z.lor (flags x) B_DIRTY) x) ;;
  iderw b.

(** Unlink [b] from the LRU list and put it at the front. *)
Definition move_to_front (b : nat) : M state unit :=
  x ← gets (buf_at b);
  upd (next x) (set_prev (prev x)) ;;
  x ← gets (buf_at b);
  upd (prev x) (set_next (next x)) ;;
  h ← gets (buf_at HEAD);
  upd b (set_next (next h)) ;;
  upd b (set_prev HEAD) ;;
  h ← gets (buf_at HEAD);
  upd (next h) (set_prev b) ;;
  upd HEAD (set_next b).

Definition brelse (b : nat) : M state unit :=
  s ← get;
  if negb (holdingsleep (pid s) (lock (buf_at b s))) then panic "brelse" else
  upd b (fun x => set_lock (releasesleep (lock x)) x) ;;
  upd b (fun x => set_refcnt (u32 (refcnt x - 1)) x) ;;
  x ← gets (buf_at b);
  when (refcnt x =? 0) (move_to_front b).

(** The cache at boot: static storage is zero, then [binit]. *)
Definition boot (img : list block) (p : Z) : state :=
  mkst (replicate (S NBUF) buf0) (mkdisk img []) p.

End Bio.
