(* ===== verification/BioSpec.v ===== *)
(** * The buffer cache refines a cache in which every block is present

    [Spec] is the contract of bio.c as log.c and fs.c use it: a current
    content for every block, the set of buffers that are dirty (pinned by
    log_write) and the set of buffers that are held (locked).  [R] relates a
    concrete cache to it: the LRU list is a well-linked ring over the whole
    buffer array, no block is cached twice, and a block that is neither dirty
    nor held has on disk the content that its buffer shows.  Each operation of
    bio.c is shown to simulate its specification. *)

From S2P Require Import Prelude Spinlock Bio.
Import SleepLock.

Module Spec.

(** The abstract cache. *)
Record cache := mkc {
  vw : list block;          (** current content of every block *)
  img : list block;         (** content of the disk *)
  tr : list (Z * block);    (** block writes so far *)
  dirty : gset Z;
  held : gset Z
}.

Definition in_range (b : Z) (c : cache) : Prop := 0 <= b < Z.of_nat (length (img c)).
#[global] Instance in_range_dec b c : Decision (in_range b c).
Proof. unfold in_range. apply _. Defined.

Definition vw_at (b : Z) (c : cache) : block := default Bio.zero_block (vw c !! Z.to_nat b).
Definition img_at (b : Z) (c : cache) : block := default Bio.zero_block (img c !! Z.to_nat b).

(** [NoFuel] marks the calls the specification says nothing about: a block
    outside the disk, a cache in which every buffer may be pinned. *)
Definition bread (d b : Z) : M cache unit :=
  c ← get;
  if bool_decide (d <> ROOTDEV \/ ~ in_range b c) then nofuel else
  if bool_decide (b ∈ held c) then asleep else
  if bool_decide (b ∉ dirty c /\ NBUF <= size (dirty c ∪ held c))%nat then nofuel else
  put (mkc (vw c) (img c) (tr c) (dirty c) ({[b]} ∪ held c)).

Definition data (b : Z) : M cache block :=
  c ← get;
  if bool_decide (b ∈ held c) then mret (vw_at b c) else nofuel.

Definition set_data (b : Z) (d : block) : M cache unit :=
  c ← get;
  if bool_decide (b ∈ held c)
  then put (mkc (<[Z.to_nat b := d]> (vw c)) (img c) (tr c) (dirty c) (held c))
  else nofuel.

Definition mark_dirty (b : Z) : M cache unit :=
  c ← get;
  if bool_decide (b ∈ held c)
  then put (mkc (vw c) (img c) (tr c) ({[b]} ∪ dirty c) (held c))
  else nofuel.

Definition bwrite (b : Z) : M cache unit :=
  c ← get;
  if bool_decide (b ∈ held c)
  then put (mkc (vw c) (<[Z.to_nat b := vw_at b c]> (img c)) (tr c ++ [(b, vw_at b c)])
                (dirty c ∖ {[b]}) (held c))
  else nofuel.

Definition brelse (b : Z) : M cache unit :=
  c ← get;
  if bool_decide (b ∈ held c /\ (b ∈ dirty c \/ vw_at b c = img_at b c))
  then put (mkc (vw c) (img c) (tr c) (dirty c) (held c ∖ {[b]}))
  else nofuel.

(** A machine that has just booted on a disk image. *)
Definition fresh (i : list block) : cache := mkc i i [] ∅ ∅.

End Spec.

Import Bio.

(** ** Doubly linked rings of indices *)

Section Chain.
Context (nx pv : nat -> nat).

(** The nodes [l] are linked, in order, between [x] and [e]. *)
Fixpoint chain (x : nat) (l : list nat) (e : nat) : Prop :=
  match l with
  | [] => nx x = e /\ pv e = x
  | y :: l' => nx x = y /\ pv y = x /\ chain y l' e
  end.

Lemma chain_app x l1 b l2 e :
  chain x (l1 ++ b :: l2) e <-> chain x l1 b /\ chain b l2 e.
Proof.
  revert x. induction l1 as [|y l1 IH]; intros x; simpl.
  - tauto.
  - rewrite IH. tauto.
Qed.

Lemma chain_first x l e : chain x l e -> nx x = hd e l.
Proof. destruct l; simpl; tauto. Qed.

Lemma chain_last x l e : chain x l e -> pv e = List.last l x.
Proof.
  revert x. induction l as [|y l IH]; intros x; [simpl; tauto|].
  intros (_ & _ & H). rewrite last_cons_default. auto.
Qed.

End Chain.

Definition fupd {A} (f : nat -> A) (i : nat) (v : A) : nat -> A :=
  fun j => if decide (i = j) then v else f j.

Lemma chain_ext nx pv nx' pv' x l e :
  (forall j, j = x \/ j ∈ l -> nx' j = nx j) -> (forall j, j = e \/ j ∈ l -> pv' j = pv j) ->
  chain nx pv x l e -> chain nx' pv' x l e.
Proof.
  revert x. induction l as [|y l IH]; intros x Hn Hp; simpl.
  - intros [Hx He]. rewrite Hn, Hp by auto. auto.
  - intros (Hx & Hpx & H). rewrite Hn by auto.
    rewrite Hp by (right; constructor). split_and!; [done..|].
    apply IH; [| |done]; intros j Hj; [apply Hn|apply Hp]; rewrite elem_of_cons; tauto.
Qed.

(** Redirecting the last link of a chain. *)
Lemma chain_relink nx pv x l e n :
  NoDup (x :: l) -> n ∉ l -> chain nx pv x l e ->
  chain (fupd nx (List.last l x) n) (fupd pv n (List.last l x)) x l n.
Proof.
  revert x. induction l as [|y l IH]; intros x Hnd Hn; simpl.
  - intros _. unfold fupd. by rewrite !decide_True.
  - intros (<- & Hp & Hc). apply NoDup_cons in Hnd as [Hx Hnd].
    change (match l with [] => nx x | _ :: _ => List.last l x end)
      with (List.last (nx x :: l) x).
    rewrite last_cons_default. pose proof (last_elem l (nx x)) as Hlast.
    split_and!.
    + unfold fupd. rewrite decide_False; [done|]. intros E. by rewrite E in Hlast.
    + unfold fupd. rewrite decide_False; [done|]. set_solver.
    + apply IH; [done|set_solver|done].
Qed.

(** Unlinking a node, and linking one at the front of a ring. *)
Lemma chain_unlink nx pv h l1 b l2 :
  NoDup (h :: l1 ++ b :: l2) -> chain nx pv h (l1 ++ b :: l2) h ->
  chain (fupd nx (pv b) (nx b)) (fupd pv (nx b) (pv b)) h (l1 ++ l2) h.
Proof.
  intros Hnd [H1 H2]%chain_app.
  rewrite (chain_last _ _ _ _ _ H1), (chain_first _ _ _ _ _ H2).
  apply NoDup_cons in Hnd as [Hh Hnd]. apply NoDup_app in Hnd as (Hnd1 & Hd & Hnd2).
  rewrite not_elem_of_app, not_elem_of_cons in Hh. destruct Hh as (Hh1 & Hhb & Hh2).
  pose proof (last_elem l1 h) as Hlast.
  destruct l2 as [|n l2]; simpl.
  - rewrite app_nil_r. apply (chain_relink _ _ _ _ b); [by apply NoDup_cons|done|done].
  - apply chain_app. destruct H2 as (_ & _ & H2).
    apply NoDup_cons in Hnd2 as [_ Hnd2]. apply NoDup_cons in Hnd2 as [Hn2 _].
    rewrite not_elem_of_cons in Hh2. destruct Hh2 as [Hhn Hh2].
    split.
    + apply (chain_relink _ _ _ _ b); [by apply NoDup_cons| |done].
      intros Hn. apply (Hd n Hn). rewrite !elem_of_cons. auto.
    + apply (chain_ext nx pv); [..|done]; unfold fupd; intros j Hj;
        rewrite decide_False; try done; intros <-.
      * apply elem_of_cons in Hlast as [E|Hlast]; [rewrite E in Hj; naive_solver|].
        apply (Hd _ Hlast). rewrite !elem_of_cons. tauto.
      * naive_solver.
Qed.

Lemma chain_push nx pv h l b :
  b <> h -> b ∉ l -> NoDup (h :: l) -> chain nx pv h l h ->
  let nx1 := fupd nx b (nx h) in
  let pv1 := fupd pv b h in
  chain (fupd nx1 h b) (fupd pv1 (nx1 h) b) h (b :: l) h.
Proof.
  intros Hbh Hbl Hnd Hc nx1 pv1.
  assert (nx1 h = nx h) as -> by (unfold nx1, fupd; by rewrite decide_False).
  pose proof (chain_first _ _ _ _ _ Hc) as Hf. apply NoDup_cons in Hnd as [Hh Hnd].
  assert (nx h <> b) as Hfb.
  { rewrite Hf. destruct l; [done|]. simpl. intros ->. apply Hbl. constructor. }
  simpl. split_and!; [unfold fupd; by rewrite decide_True| |].
  { unfold pv1, fupd. rewrite decide_False by done. by rewrite decide_True. }
  destruct l as [|f l]; simpl in *.
  - unfold nx1, pv1, fupd. rewrite Hf.
    rewrite (decide_False (P := h = b)) by done. by rewrite !decide_True.
  - destruct Hc as (E & Ep & Hc). apply NoDup_cons in Hnd as [Hfl _].
    rewrite not_elem_of_cons in Hh, Hbl. rewrite E in *. split_and!.
    + unfold nx1, fupd. rewrite decide_False by done. by rewrite decide_True.
    + unfold fupd. by rewrite decide_True.
    + apply (chain_ext nx pv); [..|done]; unfold nx1, pv1, fupd; intros j Hj;
        rewrite !decide_False; try done; intros <-; destruct Hj; naive_solver.
Qed.

Lemma chain_rev nx pv x l e : chain nx pv x l e -> chain pv nx e (reverse l) x.
Proof.
  revert x. induction l as [|y l IH]; intros x; [simpl; tauto|].
  intros (Hn & Hp & H). rewrite reverse_cons. apply chain_app.
  split; [by apply IH|by simpl].
Qed.

(** ** The simulation relation *)

Definition nx (s : state) (i : nat) : nat := next (buf_at i s).
Definition pv (s : state) (i : nat) : nat := prev (buf_at i s).

(** The LRU list, from the most to the least recently used buffer. *)
Record ring (s : state) (l : list nat) : Prop := {
  ring_chain : chain (nx s) (pv s) HEAD l HEAD;
  ring_perm : l ≡ₚ seq 0 NBUF
}.

(** A buffer entry agrees with the abstract cache: it is unused since boot, or
    it shows the current content of its block. *)
Definition buf_ok (p : Z) (c : Spec.cache) (b : buf) : Prop :=
  (dev b <> ROOTDEV /\ flags b = 0 /\ refcnt b = 0 /\ lock b = initsleeplock) \/
  (dev b = ROOTDEV /\ Spec.in_range (blockno b) c /\
   flags b = (if bool_decide (blockno b ∈ Spec.dirty c) then Z.lor B_VALID B_DIRTY else B_VALID) /\
   Spec.vw c !! Z.to_nat (blockno b) = Some (data b) /\
   lock b = (if bool_decide (blockno b ∈ Spec.held c) then mksl 1 p else initsleeplock) /\
   refcnt b = (if bool_decide (blockno b ∈ Spec.held c) then 1 else 0)).

(** Buffer [i] caches block [b] of the root device. *)
Definition caches (s : state) (i : nat) (b : Z) : Prop :=
  (i < NBUF)%nat /\ dev (buf_at i s) = ROOTDEV /\ blockno (buf_at i s) = b.

Record R (s : state) (c : Spec.cache) : Prop := {
  R_len : length (bufs s) = S NBUF;
  R_ring : exists l, ring s l;
  R_buf : forall i, (i < NBUF)%nat -> buf_ok (pid s) c (buf_at i s);
  R_uniq : forall i j b, caches s i b -> caches s j b -> i = j;
  R_pinned : forall b, b ∈ Spec.dirty c ∪ Spec.held c -> exists i, caches s i b;
  R_clean : forall b, 0 <= b -> b ∉ Spec.dirty c -> b ∉ Spec.held c ->
    Spec.vw c !! Z.to_nat b = Spec.img c !! Z.to_nat b;
  R_img : memdisk (dsk s) = Spec.img c;
  R_tr : trace (dsk s) = Spec.tr c;
  R_vlen : length (Spec.vw c) = length (Spec.img c)
}.

Lemma buf_at_set i b s :
  (i < length (bufs s))%nat -> buf_at i (set_buf i b s) = b.
Proof. intros. unfold buf_at, set_buf; simpl. by rewrite list_lookup_insert_eq. Qed.

Lemma buf_at_set_ne i j b s : i <> j -> buf_at j (set_buf i b s) = buf_at j s.
Proof. intros. unfold buf_at, set_buf; simpl. by rewrite list_lookup_insert_ne. Qed.

Lemma set_buf_set_buf i b b' s : set_buf i b' (set_buf i b s) = set_buf i b' s.
Proof. unfold set_buf; simpl. by rewrite list_insert_insert_eq. Qed.

Lemma buf_at_mk i b l d p : (i < length l)%nat -> buf_at i (mkst (<[i := b]> l) d p) = b.
Proof. intros. unfold buf_at; simpl. by rewrite list_lookup_insert_eq. Qed.

Lemma set_buf_mk i b b' l d p :
  set_buf i b' (mkst (<[i := b]> l) d p) = mkst (<[i := b']> l) d p.
Proof. unfold set_buf; simpl. by rewrite list_insert_insert_eq. Qed.

(** Changing a buffer but not its links keeps the list. *)
Lemma ring_set_buf s i b l :
  (i < length (bufs s))%nat ->
  next b = next (buf_at i s) -> prev b = prev (buf_at i s) ->
  ring s l -> ring (set_buf i b s) l.
Proof.
  intros Hi Hn Hp [Hc Hperm]. split; [|done].
  apply (chain_ext (nx s) (pv s)); [..|done]; intros j _; unfold nx, pv;
    (destruct (decide (i = j)) as [->|]; [by rewrite buf_at_set|by rewrite buf_at_set_ne]).
Qed.

Lemma ring_head s l : ring s l -> HEAD ∉ l /\ NoDup l /\ (forall i, i ∈ l <-> (i < NBUF)%nat).
Proof.
  intros [_ Hp].
  assert (forall i, i ∈ l <-> (i < NBUF)%nat) as H.
  { intros i. rewrite Hp. rewrite elem_of_seq. lia. }
  split_and!; [|rewrite Hp; apply NoDup_seq|done].
  rewrite H. unfold HEAD. lia.
Qed.

(** ** The two scans find what they look for *)

Definition is_block (s : state) (d bn : Z) (i : nat) : bool :=
  (dev (buf_at i s) =? d) && (blockno (buf_at i s) =? bn).
Definition is_unused (s : state) (i : nat) : bool :=
  (refcnt (buf_at i s) =? 0) && (Z.land (flags (buf_at i s)) B_DIRTY =? 0).

Lemma scan_cached_find s d bn x l fuel :
  chain (nx s) (pv s) x l HEAD -> HEAD ∉ l -> (length l < fuel)%nat ->
  scan_cached fuel (nx s x) d bn s = Ok (List.find (is_block s d bn) l) s.
Proof.
  revert x fuel. induction l as [|y l IH]; intros x fuel Hc Hh Hf.
  - destruct Hc as [-> _]. destruct fuel; [simpl in Hf; lia|]. done.
  - destruct Hc as (-> & _ & Hc). apply not_elem_of_cons in Hh as [Hne Hh].
    destruct fuel; [simpl in Hf; lia|]. simpl in Hf |- *.
    rewrite bool_decide_eq_false_2 by congruence.
    unfold is_block at 1. msimpl.
    destruct ((dev (buf_at y s) =? d) && (blockno (buf_at y s) =? bn)); [done|].
    apply (IH y); [done|done|lia].
Qed.

Lemma scan_unused_find s x l fuel :
  chain (pv s) (nx s) x l HEAD -> HEAD ∉ l -> (length l < fuel)%nat ->
  scan_unused fuel (pv s x) s = Ok (List.find (is_unused s) l) s.
Proof.
  revert x fuel. induction l as [|y l IH]; intros x fuel Hc Hh Hf.
  - destruct Hc as [-> _]. destruct fuel; [simpl in Hf; lia|]. done.
  - destruct Hc as (-> & _ & Hc). apply not_elem_of_cons in Hh as [Hne Hh].
    destruct fuel; [simpl in Hf; lia|]. simpl in Hf |- *.
    rewrite bool_decide_eq_false_2 by congruence.
    unfold is_unused at 1. msimpl.
    destruct ((refcnt (buf_at y s) =? 0) && _); [done|].
    apply (IH y); [done|done|lia].
Qed.

Lemma scan_cached_ring s l d bn :
  ring s l ->
  scan_cached (S NBUF) (next (buf_at HEAD s)) d bn s = Ok (List.find (is_block s d bn) l) s.
Proof.
  intros Hr. destruct (ring_head _ _ Hr) as (Hh & _ & _). destruct Hr as [Hc Hp].
  apply (scan_cached_find s d bn HEAD); [done..|].
  rewrite Hp, length_seq. lia.
Qed.

Lemma scan_unused_ring s l :
  ring s l ->
  scan_unused (S NBUF) (prev (buf_at HEAD s)) s = Ok (List.find (is_unused s) (reverse l)) s.
Proof.
  intros Hr. destruct (ring_head _ _ Hr) as (Hh & _ & _). destruct Hr as [Hc Hp].
  apply (scan_unused_find s HEAD); [by apply chain_rev|by rewrite elem_of_reverse|].
  rewrite length_reverse, Hp, length_seq. lia.
Qed.

(** When fewer than [NBUF] blocks are dirty or held, some buffer is free. *)
Lemma unused_exists s c l :
  R s c -> ring s l -> (size (Spec.dirty c ∪ Spec.held c) < NBUF)%nat ->
  exists i, List.find (is_unused s) (reverse l) = Some i.
Proof.
  intros HR Hr Hsz. destruct (List.find (is_unused s) (reverse l)) eqn:E; [eauto|].
  exfalso. destruct (ring_head _ _ Hr) as (_ & Hnd & Hin).
  assert (forall i, (i < NBUF)%nat -> caches s i (blockno (buf_at i s)) /\
            blockno (buf_at i s) ∈ Spec.dirty c ∪ Spec.held c) as Hall.
  { intros i Hi. pose proof (R_buf _ _ HR i Hi) as Hok.
    assert (is_unused s i = false) as Hun.
    { apply (List.find_none _ _ E). apply list_elem_of_In. by rewrite elem_of_reverse, Hin. }
    unfold is_unused in Hun. destruct Hok as [(_ & Hf & Hr0 & _)|(Hd & _ & Hf & _ & _ & Hrc)].
    { by rewrite Hr0, Hf in Hun. }
    split; [done|]. rewrite Hrc, Hf in Hun.
    destruct (bool_decide_reflect (blockno (buf_at i s) ∈ Spec.held c)); [set_solver|].
    destruct (bool_decide_reflect (blockno (buf_at i s) ∈ Spec.dirty c)); [set_solver|done]. }
  set (bs := map (fun i => blockno (buf_at i s)) (seq 0 NBUF)).
  assert (NoDup bs) as Hndb.
  { unfold bs. apply NoDup_fmap_2_strong; [|apply NoDup_seq].
    intros i j Hi Hj Heq. apply elem_of_seq in Hi, Hj.
    apply (R_uniq _ _ HR i j (blockno (buf_at i s))); [apply Hall; lia|].
    rewrite Heq. apply Hall. lia. }
  assert (list_to_set bs ⊆ Spec.dirty c ∪ Spec.held c) as Hsub.
  { intros b Hb. apply elem_of_list_to_set, list_elem_of_fmap in Hb as (i & -> & Hi).
    apply elem_of_seq in Hi. apply Hall. lia. }
  apply subseteq_size in Hsub. rewrite size_list_to_set in Hsub by done.
  unfold bs in Hsub. rewrite length_fmap, length_seq in Hsub. lia.
Qed.

(** ** Re-establishing the relation after a change of one buffer *)

Lemma R_step s c i b' d' c' :
  R s c -> (i < NBUF)%nat ->
  next b' = next (buf_at i s) -> prev b' = prev (buf_at i s) ->
  buf_ok (pid s) c' b' ->
  (forall j, (j < NBUF)%nat -> j <> i -> buf_ok (pid s) c' (buf_at j s)) ->
  (forall j, j <> i -> dev b' = ROOTDEV -> ~ caches s j (blockno b')) ->
  (forall b, b ∈ Spec.dirty c' ∪ Spec.held c' ->
     (dev b' = ROOTDEV /\ blockno b' = b) \/ exists j, j <> i /\ caches s j b) ->
  (forall b, 0 <= b -> b ∉ Spec.dirty c' -> b ∉ Spec.held c' ->
     Spec.vw c' !! Z.to_nat b = Spec.img c' !! Z.to_nat b) ->
  memdisk d' = Spec.img c' -> trace d' = Spec.tr c' ->
  length (Spec.vw c') = length (Spec.img c') ->
  R (mkst (<[i := b']> (bufs s)) d' (pid s)) c'.
Proof.
  intros HR Hi Hn Hp Hok Hoth Huq Hpin Hcl Himg Htr Hvl.
  assert (i < length (bufs s))%nat as Hil by (rewrite (R_len _ _ HR); lia).
  set (s1 := mkst _ _ _).
  assert (buf_at i s1 = b') as Ei by (by apply (buf_at_set i b' s)).
  assert (forall j, j <> i -> buf_at j s1 = buf_at j s) as Ej.
  { intros j Hj. by apply (buf_at_set_ne i j b' s). }
  assert (forall j b, caches s1 j b ->
            (j = i /\ dev b' = ROOTDEV /\ blockno b' = b) \/ (j <> i /\ caches s j b)) as Hca.
  { intros j b (Hj & Hd & Hb). destruct (decide (j = i)) as [->|Hne].
    - rewrite Ei in *. auto.
    - right. rewrite Ej in * by done. done. }
  split; simpl; [by rewrite length_insert, (R_len _ _ HR)| | | | |done..].
  - destruct (R_ring _ _ HR) as [l Hr]. exists l.
    destruct (ring_set_buf s i b' l Hil Hn Hp Hr) as [H1 H2]. split; done.
  - intros j Hj. destruct (decide (j = i)) as [->|Hne].
    + by rewrite Ei.
    + rewrite Ej by done. auto.
  - intros j k b [(-> & Hd & Hb)|(Hne & Hc1)]%Hca [(-> & Hd' & Hb')|(Hne' & Hc2)]%Hca;
      [done| | |].
    + subst b. by destruct (Huq k Hne' Hd).
    + subst b. by destruct (Huq j Hne Hd').
    + by apply (R_uniq _ _ HR j k b).
  - intros b Hb. destruct (Hpin b Hb) as [[Hd Hb']|(j & Hne & Hc)].
    + exists i. unfold caches. rewrite Ei. auto.
    + exists j. unfold caches. rewrite Ej by done. done.
Qed.

(** A buffer that caches a block, as the abstract cache describes it. *)
Lemma R_caches s c i b :
  R s c -> caches s i b ->
  Spec.in_range b c /\
  flags (buf_at i s) = (if bool_decide (b ∈ Spec.dirty c) then Z.lor B_VALID B_DIRTY else B_VALID) /\
  Spec.vw c !! Z.to_nat b = Some (data (buf_at i s)) /\
  lock (buf_at i s) = (if bool_decide (b ∈ Spec.held c) then mksl 1 (pid s) else initsleeplock) /\
  refcnt (buf_at i s) = (if bool_decide (b ∈ Spec.held c) then 1 else 0).
Proof.
  intros HR (Hi & Hd & Hb). destruct (R_buf _ _ HR i Hi) as [(Hnd & _)|(_ & H)]; [done|].
  by rewrite Hb in H.
Qed.

Lemma R_not_cached s c j i b :
  R s c -> caches s i b -> j <> i -> ~ caches s j b.
Proof. intros HR H1 Hne H2. apply Hne. by apply (R_uniq _ _ HR j i b). Qed.

(** The other buffers do not depend on what the abstract cache says of [b]. *)
Lemma buf_ok_frame p c c' b x :
  buf_ok p c x -> (dev x = ROOTDEV -> blockno x <> b) ->
  length (Spec.img c') = length (Spec.img c) ->
  (forall y, y <> b -> 0 <= y -> Spec.vw c' !! Z.to_nat y = Spec.vw c !! Z.to_nat y) ->
  (forall y, y <> b -> y ∈ Spec.dirty c' <-> y ∈ Spec.dirty c) ->
  (forall y, y <> b -> y ∈ Spec.held c' <-> y ∈ Spec.held c) ->
  buf_ok p c' x.
Proof.
  intros Hok Hne Hlen Hv Hd Hh. destruct Hok as [H|(E & Hr & Hf & Hvw & Hl & Hc)]; [by left|].
  right. specialize (Hne E). unfold Spec.in_range in *. rewrite Hlen.
  rewrite (bool_decide_ext _ _ (Hd _ Hne)), (bool_decide_ext _ _ (Hh _ Hne)).
  rewrite Hv by (done || lia). done.
Qed.

Lemma lock_buf_free i s :
  lock (buf_at i s) = initsleeplock ->
  lock_buf i s = Ok tt (set_buf i (set_lock (mksl 1 (pid s)) (buf_at i s)) s).
Proof. intros E. unfold lock_buf; msimpl. by rewrite E. Qed.

(** ** bread *)

Definition add_held (b : Z) (c : Spec.cache) : Spec.cache :=
  Spec.mkc (Spec.vw c) (Spec.img c) (Spec.tr c) (Spec.dirty c) ({[b]} ∪ Spec.held c).

Lemma R_frame_held s c b i :
  R s c -> caches s i b ->
  forall j, (j < NBUF)%nat -> j <> i -> buf_ok (pid s) (add_held b c) (buf_at j s).
Proof.
  intros HR Hc j Hj Hne. apply (buf_ok_frame _ c _ b); [by apply R_buf|..]; simpl; try done.
  - intros Hd Hb. by apply (R_not_cached s c j i b HR Hc Hne).
  - set_solver.
Qed.

Lemma bread_hit s c i b :
  R s c -> caches s i b -> b ∉ Spec.held c ->
  exists s', (upd i (fun x => set_refcnt (u32 (refcnt x + 1)) x) ;; lock_buf i ;; mret i) s
               = Ok i s' /\
    R s' (add_held b c) /\ Z.land (flags (buf_at i s')) B_VALID <> 0 /\ caches s' i b /\
    (forall j, j <> i -> buf_at j s' = buf_at j s) /\ pid s' = pid s.
Proof.
  intros HR Hc Hnh. destruct (R_caches _ _ _ _ HR Hc) as (Hr & Hf & Hv & Hl & Hrc).
  destruct Hc as (Hi & Hd & Hb).
  rewrite bool_decide_eq_false_2 in Hl, Hrc by done.
  assert (i < length (bufs s))%nat as Hil by (rewrite (R_len _ _ HR); lia).
  set (b1 := set_refcnt (u32 (refcnt (buf_at i s) + 1)) (buf_at i s)).
  rewrite (bind_ok _ _ _ tt (set_buf i b1 s)) by done.
  rewrite (bind_ok _ _ _ tt (set_buf i (set_lock (mksl 1 (pid s)) b1) s)); cycle 1.
  { rewrite lock_buf_free; rewrite buf_at_set by done; [|done].
    by rewrite set_buf_set_buf. }
  eexists. split; [done|]. rewrite buf_at_set by done. split_and!.
  - apply (R_step s c i); try done.
    + right. unfold b1; simpl. rewrite Hb, Hrc, Hf. split_and!; try done.
      * rewrite bool_decide_eq_true_2 by set_solver. done.
      * rewrite bool_decide_eq_true_2 by set_solver. done.
    + by apply R_frame_held.
    + simpl. intros j Hne _. rewrite Hb. by apply (R_not_cached s c j i b HR).
    + simpl. intros y Hy. destruct (decide (y = b)) as [->|Hne]; [auto|].
      right. destruct (R_pinned _ _ HR y) as [j Hj]; [set_solver|]. exists j.
      split; [|done]. intros ->. destruct Hj as (_ & _ & ?). congruence.
    + simpl. intros y H0 Hyd Hyh. apply (R_clean _ _ HR); set_solver.
    + apply (R_img _ _ HR).
    + apply (R_tr _ _ HR).
    + apply (R_vlen _ _ HR).
  - simpl. rewrite Hf. by destruct (bool_decide _).
  - unfold caches. rewrite buf_at_set by done. done.
  - intros j Hne. by rewrite buf_at_set_ne.
  - done.
Qed.

(** The read of a block into a buffer that was just recycled and locked. *)
Lemma iderw_read i s :
  (i < length (bufs s))%nat -> lock (buf_at i s) = mksl 1 (pid s) ->
  flags (buf_at i s) = 0 -> dev (buf_at i s) = ROOTDEV ->
  0 <= blockno (buf_at i s) < disksize s ->
  iderw i s = Ok tt (set_buf i (set_flags B_VALID (set_data
    (default zero_block (memdisk (dsk s) !! Z.to_nat (blockno (buf_at i s)))) (buf_at i s))) s).
Proof.
  intros Hi Hl Hf Hd Hr. unfold iderw, upd. msimpl. rewrite Hl, Hf, Hd; simpl.
  unfold holdingsleep; simpl. rewrite Z.eqb_refl; simpl.
  destruct (Z.leb_spec (disksize s) (blockno (buf_at i s))); [lia|].
  simpl. rewrite buf_at_set, set_buf_set_buf by done. simpl. by rewrite Hf.
Qed.

Lemma bread_miss s c i b :
  R s c -> Spec.in_range b c -> b ∉ Spec.held c -> (i < NBUF)%nat ->
  is_unused s i = true -> (forall j, ~ caches s j b) ->
  exists s', (upd i (recycle ROOTDEV b) ;; lock_buf i ;;
              x ← gets (buf_at i);
              when (Z.land (flags x) B_VALID =? 0) (iderw i) ;; mret i) s = Ok i s' /\
    R s' (add_held b c) /\ caches s' i b /\
    (forall j, j <> i -> buf_at j s' = buf_at j s) /\
    (forall y, y ∈ Spec.held c -> ~ caches s i y) /\ pid s' = pid s.
Proof.
  intros HR Hr Hnh Hi Hun Hnc. unfold is_unused in Hun. zbool.
  assert (i < length (bufs s))%nat as Hil by (rewrite (R_len _ _ HR); lia).
  assert (lock (buf_at i s) = initsleeplock /\
    (dev (buf_at i s) = ROOTDEV -> blockno (buf_at i s) ∉ Spec.dirty c ∪ Spec.held c)) as [Hlk Hold].
  { destruct (R_buf _ _ HR i Hi) as [(? & _ & _ & ?)|(Hd & _ & Hf & _ & Hl & Hrc)]; [done|].
    rewrite Hrc in H. destruct (bool_decide_reflect (blockno (buf_at i s) ∈ Spec.held c)); [done|].
    split; [done|]. rewrite Hf in H0.
    destruct (bool_decide_reflect (blockno (buf_at i s) ∈ Spec.dirty c)); [done|set_solver]. }
  set (b1 := set_lock (mksl 1 (pid s)) (recycle ROOTDEV b (buf_at i s))).
  rewrite (bind_ok _ _ _ tt (set_buf i (recycle ROOTDEV b (buf_at i s)) s)) by done.
  rewrite (bind_ok _ _ _ tt (set_buf i b1 s)); cycle 1.
  { rewrite lock_buf_free; rewrite buf_at_set by done; [|done]. by rewrite set_buf_set_buf. }
  set (s1 := set_buf i b1 s).
  assert (buf_at i s1 = b1) as E1 by by apply buf_at_set.
  rewrite (bind_ok _ _ _ b1 s1) by (unfold gets; by rewrite E1).
  unfold when; simpl.
  set (b2 := set_flags B_VALID (set_data (default zero_block (Spec.img c !! Z.to_nat b)) b1)).
  assert (iderw i s1 = Ok tt (set_buf i b2 s)) as E2.
  { rewrite iderw_read; rewrite ?E1; try done; simpl.
    - unfold s1. rewrite set_buf_set_buf, (R_img _ _ HR). done.
    - by rewrite length_insert.
    - unfold Spec.in_range in Hr. unfold disksize; simpl. rewrite (R_img _ _ HR). lia. }
  rewrite (bind_ok _ _ _ _ _ E2). eexists. split; [done|].
  assert (b ∉ Spec.dirty c) as Hnd.
  { intros Hd. destruct (R_pinned _ _ HR b) as [j Hj]; [set_solver|]. by apply (Hnc j). }
  split_and!; [|unfold caches; by rewrite buf_at_set| | |done].
  - apply (R_step s c i); try done; simpl.
    + right. simpl. rewrite bool_decide_eq_false_2 by done.
      rewrite bool_decide_eq_true_2 by set_solver. split_and!; try done.
      unfold Spec.in_range in Hr. rewrite (R_clean _ _ HR b) by (done || lia).
      destruct (lookup_lt_is_Some_2 (Spec.img c) (Z.to_nat b)) as [y Hy]; [lia|]. by rewrite Hy.
    + intros j Hj Hne. apply (buf_ok_frame _ c _ b); [by apply R_buf|..]; simpl; try done.
      * intros Hd Hb. by apply (Hnc j).
      * set_solver.
    + intros y Hy. destruct (decide (y = b)) as [->|Hne]; [auto|].
      right. destruct (R_pinned _ _ HR y) as [j Hj]; [set_solver|]. exists j.
      split; [|done]. intros ->. destruct Hj as (_ & Hd & <-). set_solver.
    + intros y H0' Hyd Hyh. apply (R_clean _ _ HR); set_solver.
    + apply (R_img _ _ HR).
    + apply (R_tr _ _ HR).
    + apply (R_vlen _ _ HR).
  - intros j Hne. by rewrite buf_at_set_ne.
  - intros y Hy (_ & Hd & <-). set_solver.
Qed.

Lemma find_block_caches s l b i :
  ring s l -> List.find (is_block s ROOTDEV b) l = Some i -> caches s i b.
Proof.
  intros Hr H. destruct (ring_head _ _ Hr) as (_ & _ & Hin).
  apply List.find_some in H as [Hi Hb]. unfold is_block in Hb. zbool.
  apply list_elem_of_In, Hin in Hi. done.
Qed.

Lemma find_block_none s l b j :
  ring s l -> List.find (is_block s ROOTDEV b) l = None -> ~ caches s j b.
Proof.
  intros Hr H (Hj & Hd & Hb). destruct (ring_head _ _ Hr) as (_ & _ & Hin).
  apply (List.find_none _ _) with (x := j) in H; [|by apply list_elem_of_In, Hin].
  unfold is_block in H. rewrite Hd, Hb, !Z.eqb_refl in H. done.
Qed.

(** [bread] returns a locked buffer holding the current content of its block,
    and changes nothing else that the specification speaks about. *)
Theorem bread_sim s c b :
  R s c -> Spec.in_range b c -> b ∉ Spec.held c ->
  (b ∈ Spec.dirty c \/ size (Spec.dirty c ∪ Spec.held c) < NBUF)%nat ->
  exists i s', bread ROOTDEV b s = Ok i s' /\ R s' (add_held b c) /\ caches s' i b /\
    (forall j y, y ∈ Spec.held c -> caches s j y -> caches s' j y) /\ pid s' = pid s.
Proof.
  intros HR Hr Hnh Hsz. destruct (R_ring _ _ HR) as [l Hl].
  unfold bread, bget.
  destruct (List.find (is_block s ROOTDEV b) l) as [i|] eqn:Ef.
  - pose proof (find_block_caches _ _ _ _ Hl Ef) as Hc.
    destruct (bread_hit s c i b HR Hc Hnh) as (s' & E & HR' & Hv & Hc' & Hoth & Hp).
    exists i, s'. split; [|split_and!; [done..| |done]].
    + rewrite bind_assoc. rewrite (bind_ok _ _ _ (buf_at HEAD s) s) by done.
      rewrite bind_assoc. rewrite (bind_ok _ _ _ _ _ (scan_cached_ring s l _ _ Hl)), Ef.
      rewrite (bind_ok _ _ _ _ _ E). rewrite (bind_ok _ _ _ (buf_at i s') s') by done.
      destruct (Z.eqb_spec (Z.land (flags (buf_at i s')) B_VALID) 0); done.
    + intros j y Hy Hcj. destruct (decide (j = i)) as [->|Hne].
      * destruct Hc as (_ & _ & E1), Hcj as (_ & _ & E2). congruence.
      * unfold caches. by rewrite Hoth.
  - assert (size (Spec.dirty c ∪ Spec.held c) < NBUF)%nat as Hsz'.
    { destruct Hsz as [Hd|]; [|done]. destruct (R_pinned _ _ HR b) as [j Hj]; [set_solver|].
      by destruct (find_block_none s l b j Hl Ef). }
    destruct (unused_exists s c l HR Hl Hsz') as [i Ei].
    pose proof Ei as Hi. apply List.find_some in Hi as [Hi Hun].
    apply list_elem_of_In in Hi. rewrite elem_of_reverse in Hi.
    destruct (ring_head _ _ Hl) as (_ & _ & Hin). apply Hin in Hi.
    destruct (bread_miss s c i b HR Hr Hnh Hi Hun) as (s' & E & HR' & Hc' & Hoth & Hfr & Hp).
    { intros j. by apply (find_block_none s l). }
    exists i, s'. split; [|split_and!; [done..| |done]].
    + rewrite bind_assoc. rewrite (bind_ok _ _ _ (buf_at HEAD s) s) by done.
      rewrite bind_assoc. rewrite (bind_ok _ _ _ _ _ (scan_cached_ring s l _ _ Hl)), Ef.
      rewrite bind_assoc. rewrite (bind_ok _ _ _ (buf_at HEAD s) s) by done.
      rewrite bind_assoc. rewrite (bind_ok _ _ _ _ _ (scan_unused_ring s l Hl)), Ei.
      rewrite <- E. rewrite !bind_assoc. unfold mbind, M_bind.
      destruct (upd i (recycle ROOTDEV b) s); [|done..]. by destruct (lock_buf i s0).
    + intros j y Hy Hcj. destruct (decide (j = i)) as [->|Hne].
      * by destruct (Hfr y Hy).
      * unfold caches. by rewrite Hoth.
Qed.

(** ** Moving a buffer to the front of the LRU list *)

(** A buffer without its links. *)
Definition core (b : buf) : buf := Bio.set_prev 0 (Bio.set_next 0 b).

(** State [t] is [s] with its links replaced by [nxf] and [pvf]. *)
Record relinked (s t : state) (nxf pvf : nat -> nat) : Prop := {
  rl_len : length (bufs t) = S NBUF;
  rl_nx : forall j, nx t j = nxf j;
  rl_pv : forall j, pv t j = pvf j;
  rl_core : forall j, core (buf_at j t) = core (buf_at j s);
  rl_dsk : dsk t = dsk s;
  rl_pid : pid t = pid s
}.

Lemma relinked_refl s : length (bufs s) = S NBUF -> relinked s s (nx s) (pv s).
Proof. by split. Qed.

Lemma relinked_next s t nxf pvf i v :
  relinked s t nxf pvf -> (i <= NBUF)%nat ->
  relinked s (set_buf i (Bio.set_next v (buf_at i t)) t) (fupd nxf i v) pvf.
Proof.
  intros [Hl Hn Hp Hc Hd Hpid] Hi.
  assert (i < length (bufs t))%nat as Hil by lia.
  split; simpl; [by rewrite length_insert|..]; try done; intros j.
  - unfold nx, fupd. destruct (decide (i = j)) as [->|Hne].
    + by rewrite buf_at_set.
    + rewrite buf_at_set_ne by done. apply Hn.
  - rewrite <- Hp. unfold pv. destruct (decide (i = j)) as [->|Hne];
      [by rewrite buf_at_set|by rewrite buf_at_set_ne].
  - rewrite <- Hc. destruct (decide (i = j)) as [->|Hne];
      [by rewrite buf_at_set|by rewrite buf_at_set_ne].
Qed.

Lemma relinked_prev s t nxf pvf i v :
  relinked s t nxf pvf -> (i <= NBUF)%nat ->
  relinked s (set_buf i (Bio.set_prev v (buf_at i t)) t) nxf (fupd pvf i v).
Proof.
  intros [Hl Hn Hp Hc Hd Hpid] Hi.
  assert (i < length (bufs t))%nat as Hil by lia.
  split; simpl; [by rewrite length_insert|..]; try done; intros j.
  - rewrite <- Hn. unfold nx. destruct (decide (i = j)) as [->|Hne];
      [by rewrite buf_at_set|by rewrite buf_at_set_ne].
  - unfold pv, fupd. destruct (decide (i = j)) as [->|Hne].
    + by rewrite buf_at_set.
    + rewrite buf_at_set_ne by done. apply Hp.
  - rewrite <- Hc. destruct (decide (i = j)) as [->|Hne];
      [by rewrite buf_at_set|by rewrite buf_at_set_ne].
Qed.

Lemma chain_next_bound nx pv x l e n :
  chain nx pv x l e -> (e <= n)%nat -> (forall j, j ∈ l -> (j <= n)%nat) -> (nx x <= n)%nat.
Proof.
  intros Hc He Hl. rewrite (chain_first _ _ _ _ _ Hc). destruct l; simpl; [done|].
  apply Hl. constructor.
Qed.

Lemma move_to_front_sim s l1 i l2 :
  length (bufs s) = S NBUF -> ring s (l1 ++ i :: l2) ->
  exists s' nxf pvf, move_to_front i s = Ok tt s' /\ relinked s s' nxf pvf /\
    ring s' (i :: l1 ++ l2).
Proof.
  intros Hlen Hr. destruct (ring_head _ _ Hr) as (Hh & Hnd & Hin). destruct Hr as [Hc Hp].
  assert (i < NBUF)%nat as Hi by (apply Hin; set_solver).
  assert (NoDup (HEAD :: l1 ++ i :: l2)) as Hnd' by by apply NoDup_cons.
  pose proof (chain_unlink _ _ _ _ _ _ Hnd' Hc) as Hc1.
  assert (i <> HEAD) as HiH by (unfold HEAD; lia).
  assert (forall j, j ∈ l1 ++ i :: l2 -> (j <= NBUF)%nat) as Hb.
  { intros j Hj. apply Hin in Hj. lia. }
  apply chain_app in Hc as Hsplit. destruct Hsplit as [Hca Hcb].
  assert (nx s i <= NBUF)%nat as Hn.
  { apply (chain_next_bound _ _ _ _ _ _ Hcb); [done|]. intros j Hj. apply Hb. set_solver. }
  assert (pv s i <= NBUF)%nat as Hpb.
  { apply chain_rev in Hca. apply (chain_next_bound _ _ _ _ _ _ Hca); [done|].
    intros j Hj. rewrite elem_of_reverse in Hj. apply Hb. set_solver. }
  assert (nx s i <> i) as Hni.
  { rewrite (chain_first _ _ _ _ _ Hcb). destruct l2 as [|y l2]; simpl; [done|].
    apply NoDup_app in Hnd as (_ & _ & Hnd). apply NoDup_cons in Hnd as [Hnd _]. set_solver. }
  set (n := nx s i) in *. set (p := pv s i) in *.
  pose proof (relinked_prev _ _ _ _ n p (relinked_refl s Hlen) Hn) as L1.
  set (t1 := set_buf n _ s) in L1.
  pose proof (relinked_next _ _ _ _ p n L1 Hpb) as L2. set (t2 := set_buf p _ t1) in L2.
  assert (fupd (nx s) p n HEAD <= NBUF)%nat as Hf.
  { apply (chain_next_bound _ _ _ _ _ _ Hc1); [done|]. intros j Hj. apply Hb. set_solver. }
  pose proof (relinked_next _ _ _ _ i (fupd (nx s) p n HEAD) L2 ltac:(lia)) as L3.
  set (t3 := set_buf i _ t2) in L3.
  pose proof (relinked_prev _ _ _ _ i HEAD L3 ltac:(lia)) as L4. set (t4 := set_buf i _ t3) in L4.
  set (nx3 := fupd (fupd (nx s) p n) i (fupd (nx s) p n HEAD)) in *.
  assert (nx3 HEAD = fupd (nx s) p n HEAD) as E3.
  { unfold nx3. unfold fupd at 1. by rewrite decide_False. }
  pose proof (relinked_prev _ _ _ _ (nx3 HEAD) i L4 ltac:(rewrite E3; lia)) as L5.
  set (t5 := set_buf (nx3 HEAD) _ t4) in L5.
  pose proof (relinked_next _ _ _ _ HEAD i L5 ltac:(unfold HEAD; lia)) as L6.
  set (t6 := set_buf HEAD _ t5) in L6.
  exists t6. do 2 eexists. split; [|split; [exact L6|]].
  - unfold move_to_front, upd. msimpl.
    change (next (buf_at i s)) with n. change (prev (buf_at i s)) with p.
    fold t1.
    assert (prev (buf_at i t1) = p) as E1.
    { change (pv t1 i = p). rewrite (rl_pv _ _ _ _ L1). unfold fupd. by rewrite decide_False. }
    assert (next (buf_at i t1) = n) as E1' by apply (rl_nx _ _ _ _ L1).
    rewrite E1, E1'. fold t2.
    assert (next (buf_at HEAD t2) = fupd (nx s) p n HEAD) as E2 by apply (rl_nx _ _ _ _ L2).
    rewrite E2. fold t3. fold t4.
    assert (next (buf_at HEAD t4) = nx3 HEAD) as E4 by apply (rl_nx _ _ _ _ L4).
    rewrite E4. fold t5. fold t6. done.
  - split.
    + apply (chain_ext (fupd nx3 HEAD i) (fupd (fupd (fupd (pv s) n p) i HEAD) (nx3 HEAD) i)).
      * intros j _. apply (rl_nx _ _ _ _ L6).
      * intros j _. apply (rl_pv _ _ _ _ L6).
      * apply chain_push; [done| | |done].
        -- apply NoDup_app in Hnd as (_ & Hd & Hnd). apply NoDup_cons in Hnd as [Hnd _].
           rewrite elem_of_app. intros [H|H]; [|done]. apply (Hd i H). constructor.
        -- apply NoDup_cons. split; [set_solver|].
           apply NoDup_app in Hnd as (H1 & Hd & Hnd). apply NoDup_cons in Hnd as [_ Hnd].
           apply NoDup_app. split_and!; [done| |done]. intros j Hj Hj2.
           apply (Hd j Hj). by constructor.
    + rewrite <- Hp. by rewrite Permutation_middle.
Qed.

Lemma R_relinked s t c nxf pvf l :
  R s c -> relinked s t nxf pvf -> ring t l -> R t c.
Proof.
  intros [Hlen Hr Hb Hu Hpi Hcl Hi Ht Hv] [Ll _ _ Lc Ld Lp] Hrt.
  assert (forall j, flags (buf_at j t) = flags (buf_at j s) /\ dev (buf_at j t) = dev (buf_at j s) /\
    blockno (buf_at j t) = blockno (buf_at j s) /\ lock (buf_at j t) = lock (buf_at j s) /\
    refcnt (buf_at j t) = refcnt (buf_at j s) /\ data (buf_at j t) = data (buf_at j s)) as F.
  { intros j. specialize (Lc j). unfold core in Lc. by injection Lc. }
  assert (forall j b, caches t j b <-> caches s j b) as Fc.
  { intros j b. unfold caches. destruct (F j) as (_ & -> & -> & _). done. }
  split; try done; [by exists l| | | |by rewrite Ld|by rewrite Ld].
  - intros j Hj. specialize (Hb j Hj). unfold buf_ok in *.
    destruct (F j) as (-> & -> & -> & -> & -> & ->). by rewrite Lp.
  - intros j k b H1%Fc H2%Fc. eauto.
  - intros b H. destruct (Hpi b H) as [j Hj]. exists j. by apply Fc.
Qed.

(** ** The other operations of bio.c *)

Section HeldBuffer.
Context (s : state) (c : Spec.cache) (i : nat) (b : Z).
Context (HR : R s c) (Hc : caches s i b) (Hh : b ∈ Spec.held c).

Lemma held_facts :
  (i < NBUF)%nat /\ (i < length (bufs s))%nat /\ Spec.in_range b c /\
  holdingsleep (pid s) (lock (buf_at i s)) = true /\ refcnt (buf_at i s) = 1 /\
  lock (buf_at i s) = mksl 1 (pid s) /\
  Spec.vw c !! Z.to_nat b = Some (data (buf_at i s)) /\
  flags (buf_at i s) = (if bool_decide (b ∈ Spec.dirty c) then Z.lor B_VALID B_DIRTY else B_VALID).
Proof using HR Hc Hh.
  destruct (R_caches _ _ _ _ HR Hc) as (Hr & Hf & Hv & Hl & Hrc).
  rewrite bool_decide_eq_true_2 in Hl, Hrc by done.
  destruct Hc as (Hi & _). pose proof (R_len _ _ HR) as Hlen.
  split_and!; try done; [lia|]. rewrite Hl. unfold holdingsleep; simpl. apply Z.eqb_refl.
Qed.

Lemma data_sim : data (buf_at i s) = Spec.vw_at b c.
Proof using HR Hc Hh.
  destruct held_facts as (_ & _ & _ & _ & _ & _ & Hv & _). unfold Spec.vw_at. by rewrite Hv.
Qed.

(** A change of buffer [i] alone, for a block [b] that stays held. *)
Lemma R_step_held b' d' c' :
  next b' = next (buf_at i s) -> prev b' = prev (buf_at i s) ->
  dev b' = ROOTDEV -> blockno b' = b -> buf_ok (pid s) c' b' ->
  length (Spec.vw c') = length (Spec.vw c) -> length (Spec.img c') = length (Spec.img c) ->
  (forall y, y <> b -> 0 <= y -> Spec.vw c' !! Z.to_nat y = Spec.vw c !! Z.to_nat y) ->
  (forall y, y <> b -> 0 <= y -> Spec.img c' !! Z.to_nat y = Spec.img c !! Z.to_nat y) ->
  (forall y, y <> b -> y ∈ Spec.dirty c' <-> y ∈ Spec.dirty c) ->
  Spec.held c' = Spec.held c ->
  memdisk d' = Spec.img c' -> trace d' = Spec.tr c' ->
  R (mkst (<[i := b']> (bufs s)) d' (pid s)) c'.
Proof using HR Hc Hh.
  intros Hn Hp Hd Hb Hok Hlv Hli Hv Hi Hdi Hhe Hm Ht.
  destruct held_facts as (Hib & _ & Hr & _).
  apply (R_step s c i); try done.
  - intros j Hj Hne. apply (buf_ok_frame _ c _ b); [by apply R_buf|..]; try done.
    + intros Ed Eb. by apply (R_not_cached s c j i b HR Hc Hne).
    + intros y _. by rewrite Hhe.
  - intros j Hne _. rewrite Hb. by apply (R_not_cached s c j i b HR).
  - intros y Hy. destruct (decide (y = b)) as [->|Hne]; [auto|].
    right. destruct (R_pinned _ _ HR y) as [j Hj].
    { rewrite Hhe in Hy. rewrite elem_of_union in Hy |- *. rewrite <- Hdi by done. done. }
    exists j. split; [|done]. intros ->. destruct Hj as (_ & _ & E1), Hc as (_ & _ & E2). congruence.
  - intros y H0 Hyd Hyh. rewrite Hhe in Hyh.
    assert (y <> b) as Hne by (intros ->; done).
    rewrite Hv, Hi by done. apply (R_clean _ _ HR); [done| |done]. by rewrite <- Hdi.
  - rewrite Hlv, Hli. apply (R_vlen _ _ HR).
Qed.

Lemma set_data_sim d :
  R (set_buf i (Bio.set_data d (buf_at i s)) s)
    (Spec.mkc (<[Z.to_nat b := d]> (Spec.vw c)) (Spec.img c) (Spec.tr c) (Spec.dirty c) (Spec.held c)).
Proof using HR Hc Hh.
  destruct held_facts as (Hib & Hil & Hr & Hho & Hrc & Hl & Hv & Hf).
  pose proof Hc as (_ & Hd & Hb).
  apply R_step_held; try done; simpl.
  - right; simpl. rewrite Hb, Hrc, Hl, Hf, (bool_decide_eq_true_2 (b ∈ Spec.held c)) by done. split_and!; try done.
    apply list_lookup_insert_eq. rewrite (R_vlen _ _ HR). unfold Spec.in_range in Hr. lia.
  - by rewrite length_insert.
  - intros y Hy H0. rewrite list_lookup_insert_ne; [done|].
    unfold Spec.in_range in Hr. lia.
  - apply (R_img _ _ HR).
  - apply (R_tr _ _ HR).
Qed.

Lemma mark_dirty_sim :
  R (set_buf i (Bio.set_flags (Z.lor (flags (buf_at i s)) B_DIRTY) (buf_at i s)) s)
    (Spec.mkc (Spec.vw c) (Spec.img c) (Spec.tr c) ({[b]} ∪ Spec.dirty c) (Spec.held c)).
Proof using HR Hc Hh.
  destruct held_facts as (Hib & Hil & Hr & Hho & Hrc & Hl & Hv & Hf).
  pose proof Hc as (_ & Hd & Hb).
  apply R_step_held; try done; simpl.
  - right; simpl. rewrite Hb, Hrc, Hl, Hf, (bool_decide_eq_true_2 (b ∈ Spec.held c)) by done.
    split_and!; try done. rewrite (bool_decide_eq_true_2 (b ∈ {[b]} ∪ _)) by set_solver.
    by destruct (bool_decide _).
  - set_solver.
  - apply (R_img _ _ HR).
  - apply (R_tr _ _ HR).
Qed.

Lemma bwrite_sim :
  exists s', bwrite i s = Ok tt s' /\
    R s' (Spec.mkc (Spec.vw c) (<[Z.to_nat b := Spec.vw_at b c]> (Spec.img c))
            (Spec.tr c ++ [(b, Spec.vw_at b c)]) (Spec.dirty c ∖ {[b]}) (Spec.held c)) /\
    (forall j y, caches s' j y <-> caches s j y) /\ pid s' = pid s.
Proof using HR Hc Hh.
  destruct held_facts as (Hib & Hil & Hr & Hho & Hrc & Hl & Hv & Hf).
  pose proof Hc as (_ & Hd & Hb). pose proof data_sim as Hdata.
  set (x := Bio.set_flags B_VALID (buf_at i s)).
  set (d' := mkdisk (<[Z.to_nat b := Spec.vw_at b c]> (memdisk (dsk s)))
                    (trace (dsk s) ++ [(b, Spec.vw_at b c)])).
  exists (mkst (<[i := x]> (bufs s)) d' (pid s)). split_and!.
  - unfold bwrite, iderw, upd. msimpl. rewrite Hho; simpl. rewrite buf_at_set by done. simpl.
    rewrite Hho, Hd, Hb; simpl.
    assert (Z.lor (flags (buf_at i s)) B_DIRTY = Z.lor B_VALID B_DIRTY) as ->.
    { rewrite Hf. by destruct (bool_decide _). }
    simpl. unfold Spec.in_range in Hr. unfold disksize; simpl.
    rewrite (R_img _ _ HR).
    destruct (Z.leb_spec (Z.of_nat (length (Spec.img c))) b); [lia|]. simpl.
    rewrite buf_at_set by done. simpl. rewrite list_insert_insert_eq.
    rewrite buf_at_mk, set_buf_mk by done. simpl. unfold d', x.
    by rewrite Hdata, (R_img _ _ HR).
  - apply R_step_held; try done; simpl.
    + right. simpl. rewrite Hb, Hrc, Hl, (bool_decide_eq_true_2 (b ∈ Spec.held c)) by done.
      split_and!; try done.
      * unfold Spec.in_range in *; simpl. by rewrite length_insert.
      * rewrite bool_decide_eq_false_2 by set_solver. done.
    + by rewrite length_insert.
    + intros y Hy H0. rewrite list_lookup_insert_ne; [done|]. unfold Spec.in_range in Hr. lia.
    + set_solver.
    + by rewrite (R_img _ _ HR).
    + by rewrite (R_tr _ _ HR).
  - intros j y. unfold caches. destruct (decide (i = j)) as [->|Hne].
    + by rewrite buf_at_mk.
    + unfold buf_at; simpl. by rewrite list_lookup_insert_ne.
  - done.
Qed.

Lemma brelse_sim :
  b ∈ Spec.dirty c \/ Spec.vw_at b c = Spec.img_at b c ->
  exists s', brelse i s = Ok tt s' /\
    R s' (Spec.mkc (Spec.vw c) (Spec.img c) (Spec.tr c) (Spec.dirty c) (Spec.held c ∖ {[b]})) /\
    (forall j y, caches s' j y <-> caches s j y) /\ pid s' = pid s /\
    exists l, ring s' (i :: l).
Proof using HR Hc Hh.
  intros Hsame. destruct held_facts as (Hib & Hil & Hr & Hho & Hrc & Hl & Hv & Hf).
  pose proof Hc as (_ & Hd & Hb).
  set (x := set_refcnt 0 (set_lock initsleeplock (buf_at i s))).
  set (c' := Spec.mkc _ _ _ _ _).
  set (s1 := set_buf i x s).
  assert (R s1 c') as HR1.
  { apply (R_step s c i); try done.
    - right; simpl. rewrite Hb, Hf. split_and!; try done;
        by rewrite bool_decide_eq_false_2 by set_solver.
    - intros j Hj Hne. apply (buf_ok_frame _ c _ b); [by apply R_buf|..]; simpl; try done.
      + intros Ed Eb. by apply (R_not_cached s c j i b HR Hc Hne).
      + set_solver.
    - simpl. intros j Hne _. rewrite Hb. by apply (R_not_cached s c j i b HR).
    - simpl. intros y Hy. destruct (decide (y = b)) as [->|Hne]; [auto|].
      right. destruct (R_pinned _ _ HR y) as [j Hj]; [set_solver|]. exists j.
      split; [|done]. intros ->. destruct Hj as (_ & _ & ?). congruence.
    - simpl. intros y H0 Hyd Hyh. destruct (decide (y = b)) as [->|Hne].
      + destruct Hsame as [?|E]; [done|]. unfold Spec.vw_at, Spec.img_at in E.
        unfold Spec.in_range in Hr. rewrite Hv in E. simpl in E. rewrite Hv, E.
        destruct (lookup_lt_is_Some_2 (Spec.img c) (Z.to_nat b)) as [z Hz]; [lia|]. by rewrite Hz.
      + apply (R_clean _ _ HR); set_solver.
    - apply (R_img _ _ HR).
    - apply (R_tr _ _ HR).
    - apply (R_vlen _ _ HR). }
  destruct (R_ring _ _ HR1) as [l Hring].
  destruct (ring_head _ _ Hring) as (_ & _ & Hin).
  assert (i ∈ l) as Hil' by by apply Hin.
  apply list_elem_of_split in Hil' as (l1 & l2 & ->).
  destruct (move_to_front_sim s1 l1 i l2 (R_len _ _ HR1) Hring) as (s' & nxf & pvf & E & L & Hr').
  exists s'. split_and!.
  - unfold brelse, upd. msimpl. rewrite Hho; simpl.
    rewrite !buf_at_set by (simpl; rewrite ?length_insert; done). simpl.
    rewrite set_buf_set_buf, Hrc. exact E.
  - by apply (R_relinked s1 s' c' nxf pvf (i :: l1 ++ l2)).
  - intros j y. unfold caches. pose proof (rl_core _ _ _ _ L j) as Hcore.
    unfold core in Hcore. injection Hcore as _ -> -> _ _ _.
    destruct (decide (i = j)) as [->|Hne].
    + unfold s1. rewrite buf_at_set by done. done.
    + unfold s1. by rewrite buf_at_set_ne.
  - apply (rl_pid _ _ _ _ L).
  - eauto.
Qed.

End HeldBuffer.

(** ** Boot *)

Lemma chain_dec_ok nx pv x l e :
  forallb (fun p => (nx p.1 =? p.2)%nat && (pv p.2 =? p.1)%nat)
    (combine (x :: l) (l ++ [e])) = true -> chain nx pv x l e.
Proof.
  revert x. induction l as [|y l IH]; intros x; simpl.
  - rewrite andb_true_r. intros [H1 H2]%andb_prop. by rewrite !Nat.eqb_eq in *.
  - intros [[H1 H2]%andb_prop H]%andb_prop. rewrite !Nat.eqb_eq in *. auto.
Qed.

(** After [binit] the cache relates to a freshly booted specification. *)
Theorem binit_sim img p :
  exists s', binit (Bio.boot img p) = Ok tt s' /\ R s' (Spec.fresh img) /\ pid s' = p.
Proof.
  destruct (binit (Bio.boot img p)) as [[] s'| | |] eqn:E; [|vm_compute in E; discriminate..].
  exists s'. split; [done|].
  assert (map core (bufs s') = replicate (S NBUF) buf0 /\ dsk s' = mkdisk img [] /\ pid s' = p /\
    forallb (fun q => (nx s' q.1 =? q.2)%nat && (pv s' q.2 =? q.1)%nat)
      (combine (HEAD :: reverse (seq 0 NBUF)) (reverse (seq 0 NBUF) ++ [HEAD])) = true)
    as (Hb & Hd & Hp & Hring).
  { vm_compute in E. injection E as <-. vm_compute. done. }
  clear E. split; [|done].
  assert (length (bufs s') = S NBUF) as Hlen.
  { apply (f_equal length) in Hb. by rewrite length_fmap, length_replicate in Hb. }
  assert (forall i, core (buf_at i s') = buf0) as Hcore.
  { intros i. unfold buf_at. destruct (bufs s' !! i) as [b|] eqn:Ei; [|done].
    apply (f_equal (lookup i)) in Hb. rewrite list_lookup_fmap, Ei in Hb.
    symmetry in Hb. by apply lookup_replicate in Hb as [Hb _]. }
  assert (forall i, dev (buf_at i s') = 0 /\ flags (buf_at i s') = 0 /\
     refcnt (buf_at i s') = 0 /\ lock (buf_at i s') = initsleeplock) as F.
  { intros i. specialize (Hcore i). unfold core, buf0 in Hcore. by injection Hcore. }
  split; rewrite ?Hd; simpl; try done.
  - exists (reverse (seq 0 NBUF)). split; [by apply chain_dec_ok|].
    by rewrite reverse_Permutation.
  - intros i _. left. destruct (F i) as (-> & -> & -> & ->). done.
  - intros i j b (_ & Hdev & _). destruct (F i) as (E & _). by rewrite E in Hdev.
Qed.
