(* ===== verification/BlockProg.v ===== *)
(** * Programs over the buffer cache

    log.c and fs.c use the buffer cache through [bread], [bwrite], [brelse],
    the contents [bp->data] of buffers they hold, and the B_DIRTY mark that
    log_write sets.  [prog] is the type of such programs: it fixes the calls
    and leaves open which cache answers them.  [run_bio] runs a program on the
    cache of bio.c, where a [struct buf *] is the index that [bread] returned;
    [run_spec] runs it on the specification of BioSpec.v.  [run_refines]
    transports every result proved of the second to the first, so the theorems
    about log.c and fs.c are proved once, against the specification.

    [Mem] is the in-memory state of the program (the log header, the inode
    cache). A buffer is named by its block number, unique while it is held. *)

From S2P Require Import Prelude Spinlock Bio BioSpec.

Inductive prog (Mem A : Type) : Type :=
| PRet (a : A)
| PPanic (msg : string)
| PSleep
| PNoFuel
| PBread (d b : Z) (k : prog Mem A)
| PData (b : Z) (k : block -> prog Mem A)
| PSetData (b : Z) (d : block) (k : prog Mem A)
| PDirty (b : Z) (k : prog Mem A)
| PBwrite (b : Z) (k : prog Mem A)
| PBrelse (b : Z) (k : prog Mem A)
| PGet (k : Mem -> prog Mem A)
| PPut (m : Mem) (k : prog Mem A).

Arguments PRet {Mem A} a.
Arguments PPanic {Mem A} msg.
Arguments PSleep {Mem A}.
Arguments PNoFuel {Mem A}.
Arguments PBread {Mem A} d b k.
Arguments PData {Mem A} b k.
Arguments PSetData {Mem A} b d k.
Arguments PDirty {Mem A} b k.
Arguments PBwrite {Mem A} b k.
Arguments PBrelse {Mem A} b k.
Arguments PGet {Mem A} k.
Arguments PPut {Mem A} m k.

Fixpoint pbind {Mem A B} (f : A -> prog Mem B) (p : prog Mem A) : prog Mem B :=
  match p with
  | PRet a => f a
  | PPanic msg => PPanic msg
  | PSleep => PSleep
  | PNoFuel => PNoFuel
  | PBread d b k => PBread d b (pbind f k)
  | PData b k => PData b (fun x => pbind f (k x))
  | PSetData b d k => PSetData b d (pbind f k)
  | PDirty b k => PDirty b (pbind f k)
  | PBwrite b k => PBwrite b (pbind f k)
  | PBrelse b k => PBrelse b (pbind f k)
  | PGet k => PGet (fun m => pbind f (k m))
  | PPut m k => PPut m (pbind f k)
  end.

#[global] Instance prog_ret {Mem} : MRet (prog Mem) := fun A a => PRet a.
#[global] Instance prog_bind {Mem} : MBind (prog Mem) := fun A B f p => pbind f p.

(** The calls, in the vocabulary of the code. *)
Definition bread {Mem} (d b : Z) : prog Mem unit := PBread d b (PRet tt).
Definition bdata {Mem} (b : Z) : prog Mem block := PData b PRet.
Definition bset {Mem} (b : Z) (d : block) : prog Mem unit := PSetData b d (PRet tt).
Definition bdirty {Mem} (b : Z) : prog Mem unit := PDirty b (PRet tt).
Definition bwrite {Mem} (b : Z) : prog Mem unit := PBwrite b (PRet tt).
Definition brelse {Mem} (b : Z) : prog Mem unit := PBrelse b (PRet tt).
Definition pget {Mem} : prog Mem Mem := PGet PRet.
Definition pgets {Mem A} (f : Mem -> A) : prog Mem A := PGet (fun m => PRet (f m)).
Definition pput {Mem} (m : Mem) : prog Mem unit := PPut m (PRet tt).
Definition pmod {Mem} (f : Mem -> Mem) : prog Mem unit := PGet (fun m => PPut (f m) (PRet tt)).
Definition ppanic {Mem A} (msg : string) : prog Mem A := PPanic msg.
Definition psleep {Mem A} : prog Mem A := PSleep.

(** ** Running a program on the specification *)

Definition lift_spec {Mem A} (m : M Spec.cache A) : M (Mem * Spec.cache) A :=
  fun '(x, c) =>
    match m c with
    | Ok a c' => Ok a (x, c')
    | Panic msg => Panic msg
    | Asleep c' => Asleep (x, c')
    | NoFuel => NoFuel
    end.

Fixpoint run_spec {Mem A} (p : prog Mem A) : M (Mem * Spec.cache) A :=
  match p with
  | PRet a => mret a
  | PPanic msg => panic msg
  | PSleep => asleep
  | PNoFuel => nofuel
  | PBread d b k => lift_spec (Spec.bread d b) ;; run_spec k
  | PData b k => x ← lift_spec (Spec.data b); run_spec (k x)
  | PSetData b d k => lift_spec (Spec.set_data b d) ;; run_spec k
  | PDirty b k => lift_spec (Spec.mark_dirty b) ;; run_spec k
  | PBwrite b k => lift_spec (Spec.bwrite b) ;; run_spec k
  | PBrelse b k => lift_spec (Spec.brelse b) ;; run_spec k
  | PGet k => m ← gets fst; run_spec (k m)
  | PPut m k => modify (fun s => (m, s.2)) ;; run_spec k
  end.

(** ** Running a program on bio.c *)

(** The pointers that a program holds, by block number. *)
Definition env := gmap Z nat.

Definition lift_bio {Mem A} (m : M Bio.state A) : M (Mem * gmap Z nat * Bio.state) A :=
  fun '(x, e, s) =>
    match m s with
    | Ok a s' => Ok a (x, e, s')
    | Panic msg => Panic msg
    | Asleep s' => Asleep (x, e, s')
    | NoFuel => NoFuel
    end.

Definition with_ptr {Mem A} (b : Z) (f : nat -> M Bio.state A) : M (Mem * gmap Z nat * Bio.state) A :=
  e ← gets (fun st => st.1.2);
  match e !! b with
  | Some i => lift_bio (f i)
  | None => nofuel
  end.

Fixpoint run_bio {Mem A} (p : prog Mem A) : M (Mem * gmap Z nat * Bio.state) A :=
  match p with
  | PRet a => mret a
  | PPanic msg => panic msg
  | PSleep => asleep
  | PNoFuel => nofuel
  | PBread d b k =>
      i ← lift_bio (Bio.bread d b);
      modify (fun st => (st.1.1, <[b := i]> st.1.2, st.2)) ;;
      run_bio k
  | PData b k => x ← with_ptr b (fun i => gets (fun s => Bio.data (Bio.buf_at i s))); run_bio (k x)
  | PSetData b d k => with_ptr b (fun i => Bio.upd i (Bio.set_data d)) ;; run_bio k
  | PDirty b k =>
      with_ptr b (fun i => Bio.upd i (fun x => Bio.set_flags (Z.lor (Bio.flags x) B_DIRTY) x)) ;;
      run_bio k
  | PBwrite b k => with_ptr b Bio.bwrite ;; run_bio k
  | PBrelse b k =>
      with_ptr b Bio.brelse ;;
      modify (fun st => (st.1.1, delete b st.1.2, st.2)) ;;
      run_bio k
  | PGet k => m ← gets (fun st => st.1.1); run_bio (k m)
  | PPut m k => modify (fun st => (m, st.1.2, st.2)) ;; run_bio k
  end.

(** ** Laws of the two interpretations *)

Lemma run_spec_bind {Mem A B} (p : prog Mem A) (f : A -> prog Mem B) st :
  run_spec (p ≫= f) st = (run_spec p ≫= (fun a => run_spec (f a))) st.
Proof.
  revert st. unfold mbind at 1, prog_bind.
  induction p; intros st; simpl; try done; rewrite ?bind_assoc; msimpl;
    match goal with
    | |- context [lift_spec ?x st] => destruct (lift_spec x st); by auto
    | _ => by auto
    end.
Qed.

Lemma run_spec_bind_ok {Mem A B} (p : prog Mem A) (f : A -> prog Mem B) st a st' :
  run_spec p st = Ok a st' -> run_spec (p ≫= f) st = run_spec (f a) st'.
Proof. intros H. by rewrite run_spec_bind, (bind_ok _ _ _ _ _ H). Qed.

Lemma prog_bind_assoc {Mem A B C} (p : prog Mem A) (f : A -> prog Mem B) (g : B -> prog Mem C) st :
  run_spec ((p ≫= f) ≫= g) st = run_spec (p ≫= (fun a => f a ≫= g)) st.
Proof.
  rewrite (run_spec_bind (p ≫= f) g), (run_spec_bind p (fun a => f a ≫= g)).
  rewrite !bind_unfold, run_spec_bind, bind_unfold.
  destruct (run_spec p st) as [a s| | |]; try done.
  by rewrite (run_spec_bind (f a) g s), bind_unfold.
Qed.

(** ** Refinement *)

(** The pointers of the held buffers are the ones the program has. *)
Definition RR (e : gmap Z nat) (s : Bio.state) (c : Spec.cache) : Prop :=
  R s c /\ forall b, b ∈ Spec.held c -> exists i, e !! b = Some i /\ caches s i b.

(** What a run on the specification says of the run on bio.c. *)
Definition outcome_refines {Mem A} (o : outcome (Mem * Spec.cache) A)
    (o' : outcome (Mem * gmap Z nat * Bio.state) A) : Prop :=
  match o with
  | Ok a (m, c) => exists e s, o' = Ok a (m, e, s) /\ RR e s c
  | Panic msg => o' = Panic msg
  | Asleep _ => exists st, o' = Asleep st
  | NoFuel => True
  end.

Lemma caches_set_buf s i x j y :
  Bio.dev x = Bio.dev (Bio.buf_at i s) -> Bio.blockno x = Bio.blockno (Bio.buf_at i s) ->
  caches s j y -> caches (Bio.set_buf i x s) j y.
Proof.
  intros Hd Hb (Hj & Hdj & Hbj). unfold caches. destruct (decide (i = j)) as [->|Hne].
  - unfold Bio.buf_at, Bio.set_buf in *; simpl.
    destruct (decide (j < length (Bio.bufs s))%nat).
    + rewrite list_lookup_insert_eq by done. simpl. by rewrite Hd, Hb.
    + by rewrite list_insert_ge by lia.
  - by rewrite buf_at_set_ne.
Qed.

Lemma bread_held_sleeps s c b :
  R s c -> b ∈ Spec.held c -> exists s', Bio.bread ROOTDEV b s = Asleep s'.
Proof.
  intros HR Hb. destruct (R_ring _ _ HR) as [l Hl].
  destruct (R_pinned _ _ HR b) as [j Hj]; [set_solver|].
  destruct (List.find (is_block s ROOTDEV b) l) as [i|] eqn:Ef; cycle 1.
  { by destruct (find_block_none _ _ _ j Hl Ef). }
  pose proof (find_block_caches _ _ _ _ Hl Ef) as Hc.
  destruct (held_facts s c i b HR Hc Hb) as (_ & Hil & _ & _ & _ & Hlk & _).
  unfold Bio.bread, Bio.bget.
  rewrite bind_assoc. rewrite (bind_ok _ _ _ (Bio.buf_at Bio.HEAD s) s) by done.
  rewrite bind_assoc. rewrite (bind_ok _ _ _ _ _ (scan_cached_ring s l _ _ Hl)), Ef.
  unfold Bio.upd, Bio.lock_buf. msimpl. rewrite buf_at_set by done. simpl.
  rewrite Hlk. simpl. eauto.
Qed.

(** Every program that the specification runs, bio.c runs with the same
    result: the buffer cache is transparent. *)
Theorem run_refines {Mem A} (p : prog Mem A) m c e s :
  RR e s c -> outcome_refines (run_spec p (m, c)) (run_bio p (m, e, s)).
Proof.
  revert m c e s.
  induction p as [a|msg| | |d b k IH|b k IH|b d k IH|b k IH|b k IH|b k IH|k IH|m' k IH];
    intros m c e s HRR; simpl; try done.
  - exists e, s. done.
  - eauto.
  - destruct HRR as [HR He]. unfold Spec.bread, lift_spec. msimpl.
    destruct (bool_decide_reflect (d <> ROOTDEV \/ ~ Spec.in_range b c)) as [|Hok]; [done|].
    assert (d = ROOTDEV /\ Spec.in_range b c) as [-> Hr].
    { split; [destruct (decide (d = ROOTDEV))|destruct (decide (Spec.in_range b c))];
        try done; exfalso; tauto. }
    destruct (bool_decide_reflect (b ∈ Spec.held c)) as [Hh|Hh].
    { destruct (bread_held_sleeps s c b HR Hh) as [s' ->]. simpl. eauto. }
    destruct (bool_decide_reflect (b ∉ Spec.dirty c /\ NBUF <= size (Spec.dirty c ∪ Spec.held c))%nat)
      as [|Hroom]; [done|].
    destruct (bread_sim s c b HR Hr Hh) as (i & s' & -> & HR' & Hc & Hfr & _).
    { destruct (decide (b ∈ Spec.dirty c)); [by left|right]. apply Nat.nle_gt. intros ?. by apply Hroom. }
    simpl. apply IH. split; [done|]. intros y Hy. simpl in Hy.
    destruct (decide (y = b)) as [->|Hne].
    + exists i. by rewrite lookup_insert_eq.
    + rewrite lookup_insert_ne by done. destruct (He y) as (j & Ej & Hj); [set_solver|].
      exists j. split; [done|]. apply Hfr; [set_solver|done].
  - destruct HRR as [HR He]. unfold Spec.data, lift_spec, with_ptr. msimpl.
    destruct (bool_decide_reflect (b ∈ Spec.held c)) as [Hh|Hh]; [|done].
    destruct (He b Hh) as (i & -> & Hc). simpl. rewrite (data_sim s c i b HR Hc Hh).
    by apply IH.
  - destruct HRR as [HR He]. unfold Spec.set_data, lift_spec, with_ptr. msimpl.
    destruct (bool_decide_reflect (b ∈ Spec.held c)) as [Hh|Hh]; [|done].
    destruct (He b Hh) as (i & Ei & Hc). rewrite Ei. simpl.
    apply IH. split; [by apply set_data_sim|]. simpl. intros y Hy.
    destruct (He y Hy) as (j & Ej & Hj). exists j. split; [done|].
    by apply caches_set_buf.
  - destruct HRR as [HR He]. unfold Spec.mark_dirty, lift_spec, with_ptr. msimpl.
    destruct (bool_decide_reflect (b ∈ Spec.held c)) as [Hh|Hh]; [|done].
    destruct (He b Hh) as (i & Ei & Hc). rewrite Ei. simpl.
    apply IH. split; [by apply mark_dirty_sim|]. simpl. intros y Hy.
    destruct (He y Hy) as (j & Ej & Hj). exists j. split; [done|].
    by apply caches_set_buf.
  - destruct HRR as [HR He]. unfold Spec.bwrite, lift_spec, with_ptr. msimpl.
    destruct (bool_decide_reflect (b ∈ Spec.held c)) as [Hh|Hh]; [|done].
    destruct (He b Hh) as (i & Ei & Hc). rewrite Ei. simpl.
    destruct (bwrite_sim s c i b HR Hc Hh) as (s' & -> & HR' & Hca & _). simpl.
    apply IH. split; [done|]. simpl. intros y Hy.
    destruct (He y Hy) as (j & Ej & Hj). exists j. split; [done|]. by apply Hca.
  - destruct HRR as [HR He]. unfold Spec.brelse, lift_spec, with_ptr. msimpl.
    destruct (bool_decide_reflect (b ∈ Spec.held c /\ (b ∈ Spec.dirty c \/ Spec.vw_at b c = Spec.img_at b c)))
      as [[Hh Hs]|Hh]; [|done].
    destruct (He b Hh) as (i & Ei & Hc). rewrite Ei. simpl.
    destruct (brelse_sim s c i b HR Hc Hh Hs) as (s' & -> & HR' & Hca & _). simpl.
    apply IH. split; [done|]. simpl. intros y Hy.
    rewrite lookup_delete_ne by set_solver.
    destruct (He y) as (j & Ej & Hj); [set_solver|]. exists j. split; [done|]. by apply Hca.
  - by apply (IH m m).
  - by apply IH.
Qed.

(** ** Steps of a program on the specification *)

Section Steps.
Context {Mem A : Type}.
Implicit Types (m : Mem) (c : Spec.cache).

Lemma run_bread b (f : unit -> prog Mem A) m c :
  Spec.in_range b c -> b ∉ Spec.held c ->
  (b ∈ Spec.dirty c \/ size (Spec.dirty c ∪ Spec.held c) < NBUF)%nat ->
  run_spec (bread ROOTDEV b ≫= f) (m, c) = run_spec (f tt) (m, add_held b c).
Proof.
  intros Hr Hh Hs. cbn. unfold Spec.bread. msimpl.
  rewrite (bool_decide_eq_false_2 (ROOTDEV <> ROOTDEV \/ _)) by tauto.
  rewrite bool_decide_eq_false_2 by done.
  rewrite bool_decide_eq_false_2 by (intros [? ?]; destruct Hs; [done|lia]). done.
Qed.

Lemma run_bdata b (f : block -> prog Mem A) m c :
  b ∈ Spec.held c -> run_spec (bdata b ≫= f) (m, c) = run_spec (f (Spec.vw_at b c)) (m, c).
Proof. intros Hh. cbn. unfold Spec.data. msimpl. by rewrite bool_decide_eq_true_2. Qed.

Lemma run_bset b d (f : unit -> prog Mem A) m c :
  b ∈ Spec.held c ->
  run_spec (bset b d ≫= f) (m, c) =
  run_spec (f tt) (m, Spec.mkc (<[Z.to_nat b := d]> (Spec.vw c)) (Spec.img c) (Spec.tr c)
                        (Spec.dirty c) (Spec.held c)).
Proof. intros Hh. cbn. unfold Spec.set_data. msimpl. by rewrite bool_decide_eq_true_2. Qed.

Lemma run_bdirty b (f : unit -> prog Mem A) m c :
  b ∈ Spec.held c ->
  run_spec (bdirty b ≫= f) (m, c) =
  run_spec (f tt) (m, Spec.mkc (Spec.vw c) (Spec.img c) (Spec.tr c)
                        ({[b]} ∪ Spec.dirty c) (Spec.held c)).
Proof. intros Hh. cbn. unfold Spec.mark_dirty. msimpl. by rewrite bool_decide_eq_true_2. Qed.

Lemma run_bwrite b (f : unit -> prog Mem A) m c :
  b ∈ Spec.held c ->
  run_spec (bwrite b ≫= f) (m, c) =
  run_spec (f tt) (m, Spec.mkc (Spec.vw c) (<[Z.to_nat b := Spec.vw_at b c]> (Spec.img c))
                        (Spec.tr c ++ [(b, Spec.vw_at b c)]) (Spec.dirty c ∖ {[b]}) (Spec.held c)).
Proof. intros Hh. cbn. unfold Spec.bwrite. msimpl. by rewrite bool_decide_eq_true_2. Qed.

Lemma run_brelse b (f : unit -> prog Mem A) m c :
  b ∈ Spec.held c -> b ∈ Spec.dirty c \/ Spec.vw_at b c = Spec.img_at b c ->
  run_spec (brelse b ≫= f) (m, c) =
  run_spec (f tt) (m, Spec.mkc (Spec.vw c) (Spec.img c) (Spec.tr c)
                        (Spec.dirty c) (Spec.held c ∖ {[b]})).
Proof. intros Hh Hs. cbn. unfold Spec.brelse. msimpl. by rewrite bool_decide_eq_true_2. Qed.

Lemma run_pget (f : Mem -> prog Mem A) m c :
  run_spec (pget ≫= f) (m, c) = run_spec (f m) (m, c).
Proof. done. Qed.

Lemma run_pgets {B} (g : Mem -> B) (f : B -> prog Mem A) m c :
  run_spec (pgets g ≫= f) (m, c) = run_spec (f (g m)) (m, c).
Proof. done. Qed.

Lemma run_pput m' (f : unit -> prog Mem A) m c :
  run_spec (pput m' ≫= f) (m, c) = run_spec (f tt) (m', c).
Proof. done. Qed.

Lemma run_pmod g (f : unit -> prog Mem A) m c :
  run_spec (pmod g ≫= f) (m, c) = run_spec (f tt) (g m, c).
Proof. done. Qed.

End Steps.

(** A trailing call is a call followed by [mret]. *)
Lemma run_spec_tail {Mem A} (p : prog Mem A) st :
  run_spec p st = run_spec (p ≫= mret) st.
Proof.
  rewrite run_spec_bind, bind_unfold. by destruct (run_spec p st).
Qed.
