(* ===== verification/Log.v ===== *)
(** * The write-ahead log (system/storage/log.c)

    The operations of log.c as programs over the buffer cache, with
    [struct log] as their memory.  A [struct buf *] is named by its block
    number.  The spin lock [log.lock] is held over each update of the header
    and makes it one step; [wakeup(&log)] only concerns the scheduler.

    [logical] reads a disk image the way recovery will: the blocks that a
    committed header names come from the log, the others from their home.
    The theorems in LogCrash.v say that a commit switches [logical] from the
    old to the new contents at one block write, and that recovery installs
    [logical]. *)

From S2P Require Import Prelude Spinlock Bio BioSpec BlockProg.

(** [struct superblock] (include/fs.h). *)
Record superblock := mksb {
  sb_size : Z;
  sb_nblocks : Z;
  sb_ninodes : Z;
  sb_nlog : Z;
  sb_logstart : Z;
  sb_inodestart : Z;
  sb_bmapstart : Z
}.

(** The superblock as it lies at the start of block 1. *)
Definition decode_sb (d : block) : superblock :=
  mksb (get32 0 d) (get32 4 d) (get32 8 d) (get32 12 d) (get32 16 d) (get32 20 d) (get32 24 d).

Definition readsb {Mem} (dev : Z) : prog Mem superblock :=
  bread dev 1 ;;
  d ← bdata 1;
  brelse 1 ;;
  mret (decode_sb d).

Module Log.

(** [struct logheader] and [struct log]. *)
Record logheader := mklh { n : Z; blk : list Z }.

Record log := mklog {
  start : Z;
  size : Z;
  outstanding : Z;
  committing : Z;
  dev : Z;
  lh : logheader
}.

Definition set_lh (h : logheader) (l : log) : log :=
  mklog (start l) (size l) (outstanding l) (committing l) (dev l) h.
Definition set_n (v : Z) (l : log) : log := set_lh (mklh v (blk (lh l))) l.
Definition set_outstanding (v : Z) (l : log) : log :=
  mklog (start l) (size l) v (committing l) (dev l) (lh l).
Definition set_committing (v : Z) (l : log) : log :=
  mklog (start l) (size l) (outstanding l) v (dev l) (lh l).

(** [sizeof(struct logheader)]: an int and LOGSIZE ints. *)
Definition sizeof_logheader : Z := 4 + 4 * LOGSIZE.

(** Block numbers come from [log.lh.block[i]]. *)
Definition lh_block (l : log) (i : Z) : Z := aget 0 (blk (lh l)) i.

(** Byte offset of [block[i]] in a header block. *)
Definition block_off (i : Z) : nat := Z.to_nat (4 + 4 * i).

Definition install_trans : prog log unit :=
  l ← pget;
  for_each (Z.to_nat (n (lh l))) 0 (fun tail =>
    let lbuf := start l + tail + 1 in
    let dbuf := lh_block l tail in
    bread (dev l) lbuf ;;
    bread (dev l) dbuf ;;
    d ← bdata lbuf;
    bset dbuf d ;;
    bwrite dbuf ;;
    brelse lbuf ;;
    brelse dbuf).

(** The loop of [read_head] over [lh->block]. *)
Fixpoint head_load (k : nat) (i : Z) (d : block) (bl : list Z) : list Z :=
  match k with
  | O => bl
  | S k' => head_load k' (i + 1) d (aset bl i (s32 (get32 (block_off i) d)))
  end.

Definition read_head : prog log unit :=
  l ← pget;
  bread (dev l) (start l) ;;
  d ← bdata (start l);
  let n' := s32 (get32 0 d) in
  pput (set_lh (mklh n' (head_load (Z.to_nat n') 0 d (blk (lh l)))) l) ;;
  brelse (start l).

(** The loop of [write_head] over [hb->block]. *)
Fixpoint head_store (k : nat) (i : Z) (bl : list Z) (d : block) : block :=
  match k with
  | O => d
  | S k' => head_store k' (i + 1) bl (put32 (block_off i) (aget 0 bl i) d)
  end.

Definition write_head : prog log unit :=
  l ← pget;
  bread (dev l) (start l) ;;
  d ← bdata (start l);
  let d := put32 0 (n (lh l)) d in
  bset (start l) (head_store (Z.to_nat (n (lh l))) 0 (blk (lh l)) d) ;;
  bwrite (start l) ;;
  brelse (start l).

Definition recover_from_log : prog log unit :=
  read_head ;;
  install_trans ;;
  pmod (set_n 0) ;;
  write_head.

Definition initlog (d : Z) : prog log unit :=
  if sizeof_logheader >=? Z.of_nat BSIZE then ppanic "initlog: too big logheader" else
  sb ← readsb d;
  pmod (fun l => mklog (sb_logstart sb) (sb_nlog sb) (outstanding l) (committing l) d (lh l)) ;;
  recover_from_log.

(** [begin_op]: a process that finds the log committing or short of space goes
    to sleep and tries again when woken. *)
Definition begin_op : prog log unit :=
  l ← pget;
  if negb (committing l =? 0) then psleep else
  if n (lh l) + (outstanding l + 1) * MAXOPBLOCKS >? LOGSIZE then psleep else
  pput (set_outstanding (outstanding l + 1) l).

Definition write_log : prog log unit :=
  l ← pget;
  for_each (Z.to_nat (n (lh l))) 0 (fun tail =>
    let to := start l + tail + 1 in
    let from := lh_block l tail in
    bread (dev l) to ;;
    bread (dev l) from ;;
    d ← bdata from;
    bset to d ;;
    bwrite to ;;
    brelse from ;;
    brelse to).

Definition commit : prog log unit :=
  l ← pget;
  when (n (lh l) >? 0) (
    write_log ;;
    write_head ;;
    install_trans ;;
    pmod (set_n 0) ;;
    write_head).

Definition end_op : prog log unit :=
  pmod (fun l => set_outstanding (outstanding l - 1) l) ;;
  l ← pget;
  if negb (committing l =? 0) then ppanic "log.committing" else
  if outstanding l =? 0
  then
    pput (set_committing 1 l) ;;
    commit ;;
    pmod (set_committing 0)
  else mret tt.

(** The absorption loop of [log_write]: the index of [b] in the header, or the
    first free index. *)
Fixpoint log_index (k : nat) (i : Z) (bl : list Z) (b : Z) : Z :=
  match k with
  | O => i
  | S k' => if aget 0 bl i =? b then i else log_index k' (i + 1) bl b
  end.

Definition log_write (b : Z) : prog log unit :=
  l ← pget;
  if (n (lh l) >=? LOGSIZE) || (n (lh l) >=? size l - 1)
  then ppanic "too big a transaction" else
  if outstanding l <? 1 then ppanic "log_write outside of trans" else
  let i := log_index (Z.to_nat (n (lh l))) 0 (blk (lh l)) b in
  let bl := aset (blk (lh l)) i b in
  pput (set_lh (mklh (if i =? n (lh l) then n (lh l) + 1 else n (lh l)) bl) l) ;;
  bdirty b.

(** ** The disk as recovery will read it *)

(** The header of a disk image whose log starts at block [st]. *)
Definition img_at (im : list block) (b : Z) : block :=
  default Bio.zero_block (im !! Z.to_nat b).

Definition hdr_n (st : Z) (im : list block) : Z := s32 (get32 0 (img_at im st)).

Definition hdr_blocks (st : Z) (im : list block) : list Z :=
  map (fun i => s32 (get32 (block_off (Z.of_nat i)) (img_at im st)))
      (seq 0 (Z.to_nat (hdr_n st im))).

(** Position of a block number in a list. *)
Fixpoint index_of (b : Z) (l : list Z) : option nat :=
  match l with
  | [] => None
  | x :: l' => if x =? b then Some O else S <$> index_of b l'
  end.

Definition logical (st : Z) (im : list block) (b : Z) : block :=
  match index_of b (hdr_blocks st im) with
  | Some i => img_at im (st + Z.of_nat i + 1)
  | None => img_at im b
  end.

(** The effect of a sequence of block writes on a disk image. *)
Definition apply_writes (ws : list (Z * block)) (im : list block) : list block :=
  foldl (fun d w => <[Z.to_nat w.1 := w.2]> d) im ws.

End Log.
