(* ===== verification/LogCrash.v ===== *)
(** * Crash atomicity of the log

    The precondition [tx] describes the state in which [end_op] calls
    [commit]: the blocks named by the in-memory header are distinct data
    blocks, exactly they are dirty, and no buffer is held.  [commit_run] and
    [recover_run] give the exact sequence of block writes of a commit and of a
    recovery; [commit_prefix] and [recover_prefix] compute [Log.logical] on
    every prefix of it, that is on every disk that a crash can leave. *)

From S2P Require Import Prelude Spinlock Bio BioSpec BlockProg Log.
Import Log.

(** ** Sequences of block writes *)

(** The specification's state after a write of block [b] through the cache. *)
Definition wr (b : Z) (x : block) (c : Spec.cache) : Spec.cache :=
  Spec.mkc (<[Z.to_nat b := x]> (Spec.vw c)) (<[Z.to_nat b := x]> (Spec.img c))
    (Spec.tr c ++ [(b, x)]) (Spec.dirty c ∖ {[b]}) (Spec.held c).

Definition wrs (ws : list (Z * block)) (c : Spec.cache) : Spec.cache :=
  foldl (fun c w => wr w.1 w.2 c) c ws.

(** No buffer is held, and clean blocks show the disk. *)
Record quiet (c : Spec.cache) : Prop := {
  q_held : Spec.held c = ∅;
  q_len : length (Spec.vw c) = length (Spec.img c);
  q_clean : forall b, 0 <= b -> b ∉ Spec.dirty c -> Spec.vw_at b c = Spec.img_at b c
}.

Lemma wrs_app ws ws' c : wrs (ws ++ ws') c = wrs ws' (wrs ws c).
Proof. apply foldl_app. Qed.

Lemma wrs_vw ws c : Spec.vw (wrs ws c) = apply_writes ws (Spec.vw c).
Proof. revert c. induction ws as [|w ws IH]; intros c; [done|]. apply (IH (wr w.1 w.2 c)). Qed.

Lemma wrs_img ws c : Spec.img (wrs ws c) = apply_writes ws (Spec.img c).
Proof. revert c. induction ws as [|w ws IH]; intros c; [done|]. apply (IH (wr w.1 w.2 c)). Qed.

Lemma wrs_tr ws c : Spec.tr (wrs ws c) = Spec.tr c ++ ws.
Proof.
  revert c. induction ws as [|[b x] ws IH]; intros c; simpl; [by rewrite app_nil_r|].
  rewrite IH. simpl. by rewrite <- app_assoc.
Qed.

Lemma wrs_held ws c : Spec.held (wrs ws c) = Spec.held c.
Proof. revert c. induction ws as [|w ws IH]; intros c; [done|]. apply (IH (wr w.1 w.2 c)). Qed.

Lemma wrs_dirty ws c : Spec.dirty (wrs ws c) = Spec.dirty c ∖ list_to_set (map fst ws).
Proof.
  revert c. induction ws as [|[b x] ws IH]; intros c; simpl; [set_solver|].
  rewrite IH. simpl. set_solver.
Qed.

Lemma length_apply_writes ws im : length (apply_writes ws im) = length im.
Proof.
  revert im. induction ws as [|w ws IH]; intros im; [done|].
  unfold apply_writes in *; simpl. by rewrite IH, length_insert.
Qed.

Lemma apply_writes_app ws ws' im :
  apply_writes (ws ++ ws') im = apply_writes ws' (apply_writes ws im).
Proof. apply foldl_app. Qed.

Lemma img_at_insert im b b' x :
  0 <= b < Z.of_nat (length im) -> 0 <= b' ->
  img_at (<[Z.to_nat b := x]> im) b' = if decide (b = b') then x else img_at im b'.
Proof.
  intros Hb Hb'. unfold img_at. case_decide as E.
  - subst b'. by rewrite list_lookup_insert_eq by lia.
  - by rewrite list_lookup_insert_ne by lia.
Qed.

Lemma img_at_writes_ne ws im b :
  0 <= b -> Forall (fun w => 0 <= w.1 < Z.of_nat (length im)) ws ->
  b ∉ map fst ws -> img_at (apply_writes ws im) b = img_at im b.
Proof.
  revert im. induction ws as [|[y x] ws IH]; intros im Hb Hall Hn; [done|].
  apply Forall_cons in Hall as [Hy Hall]. simpl in *. apply not_elem_of_cons in Hn as [Hne Hn].
  unfold apply_writes in *; simpl. rewrite IH; [|done| |done].
  - rewrite img_at_insert by done. by rewrite decide_False.
  - by rewrite length_insert.
Qed.

Lemma img_at_writes_eq ws im i b x :
  Forall (fun w => 0 <= w.1 < Z.of_nat (length im)) ws -> NoDup (map fst ws) ->
  ws !! i = Some (b, x) -> img_at (apply_writes ws im) b = x.
Proof.
  intros Hall Hnd Hi. rewrite <- (take_drop_middle ws i (b, x) Hi) in *.
  rewrite apply_writes_app. apply Forall_app in Hall as [Ha Hb'].
  apply Forall_cons in Hb' as [Hb Hc]. simpl in Hb.
  rewrite map_app in Hnd. simpl in Hnd. apply NoDup_app in Hnd as (_ & _ & Hnd).
  apply NoDup_cons in Hnd as [Hnot _].
  change (apply_writes ((b, x) :: ?l) ?d) with (apply_writes l (<[Z.to_nat b := x]> d)).
  rewrite img_at_writes_ne; [|lia| |done].
  - rewrite img_at_insert; [by rewrite decide_True| |lia].
    rewrite length_apply_writes. lia.
  - by rewrite length_insert, length_apply_writes.
Qed.

Lemma vw_at_wrs ws c b : Spec.vw_at b (wrs ws c) = img_at (apply_writes ws (Spec.vw c)) b.
Proof. unfold Spec.vw_at, img_at. by rewrite wrs_vw. Qed.

Lemma img_at_wrs ws c b : Spec.img_at b (wrs ws c) = img_at (apply_writes ws (Spec.img c)) b.
Proof. unfold Spec.img_at, img_at. by rewrite wrs_img. Qed.

Lemma vw_at_wr b x c b' :
  0 <= b < Z.of_nat (length (Spec.vw c)) -> 0 <= b' ->
  Spec.vw_at b' (wr b x c) = if decide (b = b') then x else Spec.vw_at b' c.
Proof. apply img_at_insert. Qed.

Lemma img_at_wr b x c b' :
  0 <= b < Z.of_nat (length (Spec.img c)) -> 0 <= b' ->
  Spec.img_at b' (wr b x c) = if decide (b = b') then x else Spec.img_at b' c.
Proof. apply img_at_insert. Qed.

Lemma quiet_wr b x c : 0 <= b < Z.of_nat (length (Spec.img c)) -> quiet c -> quiet (wr b x c).
Proof.
  intros Hb [Hh Hl Hc]. split; simpl; [done|by rewrite !length_insert|].
  intros y Hy Hd. rewrite vw_at_wr, img_at_wr by lia. case_decide; [done|].
  apply Hc; [done|set_solver].
Qed.

Lemma quiet_wrs ws c :
  Forall (fun w => 0 <= w.1 < Z.of_nat (length (Spec.img c))) ws -> quiet c -> quiet (wrs ws c).
Proof.
  revert c. induction ws as [|[b x] ws IH]; intros c Hall Hq; [done|].
  apply Forall_cons in Hall as [Hb Hall]. simpl. apply IH; [|by apply quiet_wr].
  simpl. by rewrite length_insert.
Qed.

Lemma fresh_quiet im : quiet (Spec.fresh im).
Proof. by split. Qed.

(** ** The copies of [write_log] and [install_trans] *)

Ltac sets := set_solver.
Ltac specsimpl := cbn [Spec.vw Spec.img Spec.tr Spec.dirty Spec.held add_held].

(** Read [from] and [to], copy, write [to], release [r1] then [r2]. *)
Lemma copy_block_run {Mem} (m : Mem) c a1 a2 from to r1 r2 :
  quiet c -> Spec.in_range from c -> Spec.in_range to c -> from <> to ->
  (a1 = from /\ a2 = to \/ a1 = to /\ a2 = from) ->
  (r1 = from /\ r2 = to \/ r1 = to /\ r2 = from) ->
  (a1 ∈ Spec.dirty c \/ Datatypes.S (base.size (Spec.dirty c)) <= NBUF)%nat ->
  (a2 ∈ Spec.dirty c \/ Datatypes.S (Datatypes.S (base.size (Spec.dirty c))) <= NBUF)%nat ->
  run_spec (bread ROOTDEV a1 ;; bread ROOTDEV a2 ;; d ← bdata from; bset to d ;;
            bwrite to ;; brelse r1 ;; brelse r2) (m, c)
    = Ok tt (m, wr to (Spec.vw_at from c) c).
Proof.
  intros [Hh Hl Hc] Hrf Hrt Hne Ha Hr Hs1 Hs2.
  assert (a1 <> a2 /\ Spec.in_range a1 c /\ Spec.in_range a2 c) as (Ha12 & Hra1 & Hra2)
    by (destruct Ha as [[-> ->]|[-> ->]]; auto).
  assert (r1 <> r2) as Hr12 by (destruct Hr as [[-> ->]|[-> ->]]; auto).
  rewrite run_bread; [|done|rewrite Hh; sets|].
  2:{ rewrite Hh, union_empty_r_L. destruct Hs1; [by left|right; lia]. }
  rewrite run_bread; [|done|simpl; rewrite Hh; sets|].
  2:{ simpl. rewrite Hh. destruct Hs2 as [|Hs2]; [by left|right].
      pose proof (size_union_alt (Spec.dirty c) ({[a1]} ∪ ∅)).
      pose proof (subseteq_size (({[a1]} ∪ ∅) ∖ Spec.dirty c) ({[a1]} : gset Z) ltac:(sets)).
      rewrite size_singleton in *. lia. }
  assert (from ∈ {[a2]} ∪ ({[a1]} ∪ Spec.held c) /\ to ∈ {[a2]} ∪ ({[a1]} ∪ Spec.held c)) as [Hf Ht]
    by (destruct Ha as [[-> ->]|[-> ->]]; sets).
  rewrite run_bdata, run_bset, run_bwrite by done. specsimpl.
  change (Spec.vw_at from (add_held a2 (add_held a1 c))) with (Spec.vw_at from c).
  set (x := Spec.vw_at from c).
  assert (Spec.vw_at to (Spec.mkc (<[Z.to_nat to := x]> (Spec.vw c)) (Spec.img c) (Spec.tr c)
    (Spec.dirty c) ({[a2]} ∪ ({[a1]} ∪ Spec.held c))) = x) as Ex.
  { unfold Spec.vw_at; simpl. rewrite list_lookup_insert_eq; [done|].
    unfold Spec.in_range in *. rewrite Hl. lia. }
  rewrite Ex.
  assert (forall h y, y = from \/ y = to -> y ∈ Spec.dirty c ∖ {[to]} \/
    Spec.vw_at y (Spec.mkc (<[Z.to_nat to := x]> (Spec.vw c)) (<[Z.to_nat to := x]> (Spec.img c))
      (Spec.tr c ++ [(to, x)]) (Spec.dirty c ∖ {[to]}) h)
    = Spec.img_at y (Spec.mkc (<[Z.to_nat to := x]> (Spec.vw c)) (<[Z.to_nat to := x]> (Spec.img c))
      (Spec.tr c ++ [(to, x)]) (Spec.dirty c ∖ {[to]}) h)) as Hrel.
  { intros h y Hy. destruct (decide (y ∈ Spec.dirty c ∖ {[to]})); [by left|right].
    unfold Spec.in_range in *.
    change (Spec.vw_at y (wr to x c) = Spec.img_at y (wr to x c)).
    assert (0 <= y) by (destruct Hy; subst; lia).
    rewrite vw_at_wr, img_at_wr by lia. case_decide; [done|]. apply Hc; [done|sets]. }
  rewrite run_brelse; specsimpl; [|destruct Hr as [[-> ->]|[-> ->]]; sets|apply Hrel; tauto].
  rewrite run_spec_tail, run_brelse; specsimpl;
    [|destruct Hr as [[-> ->]|[-> ->]]; sets|apply Hrel; tauto].
  unfold wr. simpl. unfold mret, M_ret. do 3 f_equal. rewrite Hh.
  destruct Ha as [[-> ->]|[-> ->]], Hr as [[-> ->]|[-> ->]]; sets.
Qed.

Lemma elem_map_take {A B} (f : A -> B) i (l : list A) x : x ∈ map f (take i l) -> x ∈ map f l.
Proof. intros H. rewrite <- (take_drop i l), map_app. apply elem_of_app. by left. Qed.

(** A loop whose [i]-th iteration performs the [i]-th write. *)
Lemma for_each_writes {Mem} (m : Mem) (body : Z -> prog Mem unit) ws c :
  (forall i w, ws !! i = Some w ->
     run_spec (body (Z.of_nat i)) (m, wrs (take i ws) c) = Ok tt (m, wr w.1 w.2 (wrs (take i ws) c))) ->
  run_spec (for_each (length ws) 0 body) (m, c) = Ok tt (m, wrs ws c).
Proof.
  intros H.
  enough (forall k j, (j + k = length ws)%nat ->
    run_spec (for_each k (Z.of_nat j) body) (m, wrs (take j ws) c) = Ok tt (m, wrs ws c)) as Hk.
  { apply (Hk _ O). lia. }
  induction k as [|k IH]; intros j Hj; simpl.
  - rewrite take_ge by lia. done.
  - destruct (lookup_lt_is_Some_2 ws j) as [w Hw]; [lia|].
    rewrite (run_spec_bind_ok _ _ _ _ _ (H j w Hw)).
    replace (Z.of_nat j + 1) with (Z.of_nat (S j)) by lia.
    rewrite <- (IH (S j)) by lia. rewrite (take_S_r ws j w Hw), wrs_app. done.
Qed.

(** ** The transaction *)

(** The blocks that the in-memory header names. *)
Definition tx_blocks (l : log) : list Z := take (Z.to_nat (n (lh l))) (blk (lh l)).

(** Blocks outside the boot block, the superblock and the log. *)
Definition data_block (st sz : Z) (nblocks : nat) (b : Z) : Prop :=
  2 <= b < Z.of_nat nblocks /\ ~ (st <= b < st + sz).

(** Where the log lies. *)
Record geometry (st sz : Z) (im : list block) : Prop := {
  g_start : 2 <= st;
  g_end : st + sz <= Z.of_nat (length im);
  g_room : Z.of_nat (length im) <= 2 ^ 31;
  g_hdr : length (img_at im st) = BSIZE;
  g_sz : 1 <= sz
}.

(** The state in which [end_op] calls [commit]. *)
Record tx (l : log) (c : Spec.cache) : Prop := {
  tx_dev : dev l = ROOTDEV;
  tx_quiet : quiet c;
  tx_geom : geometry (start l) (size l) (Spec.img c);
  tx_n : 0 <= n (lh l) < Z.of_nat NBUF /\ n (lh l) <= size l - 1;
  tx_len : length (blk (lh l)) = Z.to_nat LOGSIZE;
  tx_nodup : NoDup (tx_blocks l);
  tx_data : Forall (data_block (start l) (size l) (length (Spec.img c))) (tx_blocks l);
  tx_dirty : Spec.dirty c = list_to_set (tx_blocks l);
  tx_empty : hdr_n (start l) (Spec.img c) = 0
}.

(** The writes to the log blocks, to the home blocks, and of the header. *)
Definition log_writes (st : Z) (xs : list block) : list (Z * block) :=
  imap (fun i x => (st + Z.of_nat i + 1, x)) xs.

Definition home_writes (bl : list Z) (xs : list block) : list (Z * block) := zip bl xs.

Definition new_contents (l : log) (c : Spec.cache) : list block :=
  map (fun b => Spec.vw_at b c) (tx_blocks l).

Definition full_header (l : log) (d : block) : block :=
  head_store (Z.to_nat (n (lh l))) 0 (blk (lh l)) (put32 0 (n (lh l)) d).

Definition commit_writes (l : log) (c : Spec.cache) : list (Z * block) :=
  let h := full_header l (Spec.vw_at (start l) c) in
  if n (lh l) >? 0
  then log_writes (start l) (new_contents l c) ++ [(start l, h)] ++
       home_writes (tx_blocks l) (new_contents l c) ++ [(start l, put32 0 0 h)]
  else [].

Lemma length_log_writes st xs : length (log_writes st xs) = length xs.
Proof. apply length_imap. Qed.

Lemma lookup_log_writes st xs i :
  log_writes st xs !! i = (fun x => (st + Z.of_nat i + 1, x)) <$> xs !! i.
Proof. unfold log_writes. by rewrite list_lookup_imap. Qed.

Lemma elem_log_writes st xs b :
  b ∈ map fst (log_writes st xs) -> st + 1 <= b < st + 1 + Z.of_nat (length xs).
Proof.
  intros H. apply list_elem_of_fmap in H as ([y x] & -> & H).
  apply list_elem_of_lookup in H as [i Hi]. rewrite lookup_log_writes in Hi.
  destruct (xs !! i) eqn:E; [|done]. simplify_eq/=. apply lookup_lt_Some in E. lia.
Qed.

Lemma NoDup_log_writes st xs : NoDup (map fst (log_writes st xs)).
Proof.
  apply NoDup_alt. intros i j b Hi Hj. rewrite list_lookup_fmap, lookup_log_writes in Hi, Hj.
  destruct (xs !! i), (xs !! j); simplify_eq/=. lia.
Qed.

Lemma map_fst_home bl xs : length bl = length xs -> map fst (home_writes bl xs) = bl.
Proof. intros. apply fst_zip. lia. Qed.

Lemma length_tx_blocks l :
  length (blk (lh l)) = Z.to_nat LOGSIZE -> 0 <= n (lh l) <= LOGSIZE ->
  length (tx_blocks l) = Z.to_nat (n (lh l)).
Proof. intros H Hn. unfold tx_blocks. rewrite length_take. unfold LOGSIZE, MAXOPBLOCKS in *. lia. Qed.

Lemma lh_block_tx l i b :
  tx_blocks l !! i = Some b -> lh_block l (Z.of_nat i) = b.
Proof.
  unfold tx_blocks, lh_block. intros H. apply lookup_take_Some in H as [H _].
  rewrite aget_nat, H. done.
Qed.

Section Transaction.
Context (l : log) (c : Spec.cache) (Htx : tx l c).

Lemma tx_blocks_length : length (tx_blocks l) = Z.to_nat (n (lh l)).
Proof using Htx.
  destruct Htx as [_ _ _ [? ?] ? _ _ _ _]. apply length_tx_blocks; [done|].
  unfold NBUF, LOGSIZE, MAXOPBLOCKS in *. lia.
Qed.

Lemma tx_block_facts i b :
  tx_blocks l !! i = Some b ->
  data_block (start l) (size l) (length (Spec.img c)) b /\ b ∈ Spec.dirty c /\
  (i < Z.to_nat (n (lh l)))%nat.
Proof using Htx.
  intros H. split_and!.
  - by apply (Forall_lookup_1 _ _ _ _ (tx_data _ _ Htx) H).
  - rewrite (tx_dirty _ _ Htx). apply elem_of_list_to_set, list_elem_of_lookup. eauto.
  - rewrite <- tx_blocks_length. by apply lookup_lt_Some in H.
Qed.

Lemma tx_dirty_size : base.size (Spec.dirty c) = Z.to_nat (n (lh l)).
Proof using Htx.
  rewrite (tx_dirty _ _ Htx), size_list_to_set by apply (tx_nodup _ _ Htx).
  apply tx_blocks_length.
Qed.

Lemma log_block_clean i : (i < Z.to_nat (n (lh l)))%nat ->
  Spec.in_range (start l + Z.of_nat i + 1) c /\ start l + Z.of_nat i + 1 ∉ Spec.dirty c.
Proof using Htx.
  intros Hi. destruct Htx as [_ _ [Hs He Hr _ _] [Hn Hns] _ _ Hd Hdi _]. split.
  - unfold Spec.in_range. lia.
  - rewrite Hdi, elem_of_list_to_set. intros Hin.
    rewrite Forall_forall in Hd. destruct (Hd _ Hin) as [_ Hx]. lia.
Qed.

Lemma log_writes_ok i : (i <= Z.to_nat (n (lh l)))%nat ->
  Forall (fun w => 0 <= w.1 < Z.of_nat (length (Spec.img c)))
    (take i (log_writes (start l) (new_contents l c))).
Proof using Htx.
  intros Hi. apply Forall_forall. intros [b x] Hin.
  assert (b ∈ map fst (log_writes (start l) (new_contents l c))) as Hb.
  { apply (elem_map_take _ i), list_elem_of_fmap. by exists (b, x). }
  apply elem_log_writes in Hb. unfold new_contents in Hb.
  rewrite length_map, tx_blocks_length in Hb.
  destruct Htx as [_ _ [Hs He Hr _ _] [Hn Hns] _ _ _ _ _]. simpl. lia.
Qed.

Lemma write_log_run :
  run_spec write_log (l, c) = Ok tt (l, wrs (log_writes (start l) (new_contents l c)) c).
Proof using Htx.
  pose proof tx_blocks_length as Hlen. unfold write_log. rewrite run_pget.
  set (ws := log_writes (start l) (new_contents l c)).
  replace (Z.to_nat (n (lh l))) with (length ws)
    by (unfold ws, new_contents; by rewrite length_log_writes, length_map).
  apply for_each_writes. intros i w Hw. unfold ws in Hw. rewrite lookup_log_writes in Hw.
  unfold new_contents in Hw. rewrite list_lookup_fmap in Hw.
  destruct (tx_blocks l !! i) as [b|] eqn:Hb; simplify_eq/=.
  destruct (tx_block_facts i b Hb) as (Hd & Hdi & Hi). destruct (log_block_clean i Hi) as [Hlr _].
  pose proof (log_writes_ok i ltac:(lia)) as Hok. fold ws in Hok.
  pose proof (wrs_img (take i ws) c) as Himg. pose proof (wrs_dirty (take i ws) c) as Hdirty.
  assert (b ∉ map fst (take i ws)) as Hbn.
  { intros Hin. apply elem_map_take, elem_log_writes in Hin. unfold new_contents in Hin. rewrite length_map, Hlen in Hin.
    destruct Hd as [_ Hd], Htx as [_ _ _ [? ?] _ _ _ _ _]. lia. }
  assert (Spec.vw_at b (wrs (take i ws) c) = Spec.vw_at b c) as <-.
  { rewrite vw_at_wrs, img_at_writes_ne; [done| | |done].
    - destruct Hd; lia.
    - by rewrite (q_len _ (tx_quiet _ _ Htx)). }
  rewrite (lh_block_tx l i b Hb), (tx_dev _ _ Htx).
  destruct Hd as [Hd1 Hd2].
  apply copy_block_run; [by apply quiet_wrs; [|apply (tx_quiet _ _ Htx)]| | | |by auto|by auto| |left].
  - unfold Spec.in_range. rewrite Himg, length_apply_writes. lia.
  - unfold Spec.in_range in *. rewrite Himg, length_apply_writes. lia.
  - destruct Htx as [_ _ _ [? ?] _ _ _ _ _]. lia.
  - right. pose proof tx_dirty_size. destruct Htx as [_ _ _ [? ?] _ _ _ _ _].
    pose proof (subseteq_size (Spec.dirty (wrs (take i ws) c)) (Spec.dirty c)
      ltac:(rewrite Hdirty; set_solver)). lia.
  - rewrite Hdirty. apply elem_of_difference. split; [done|]. by rewrite elem_of_list_to_set.
Qed.

End Transaction.

(** ** Writing the header *)

Lemma write_head_run l c :
  dev l = ROOTDEV -> quiet c -> Spec.in_range (start l) c -> start l ∉ Spec.dirty c ->
  (base.size (Spec.dirty c) < NBUF)%nat ->
  run_spec write_head (l, c) =
    Ok tt (l, wr (start l) (full_header l (Spec.vw_at (start l) c)) c).
Proof.
  intros Hdev [Hh Hl Hc] Hr Hd Hs. unfold write_head. rewrite run_pget, Hdev.
  rewrite run_bread; [|done|rewrite Hh; sets|right; by rewrite Hh, union_empty_r_L].
  rewrite run_bdata, run_bset, run_bwrite by (specsimpl; sets). specsimpl.
  change (Spec.vw_at (start l) (add_held _ c)) with (Spec.vw_at (start l) c).
  fold (full_header l (Spec.vw_at (start l) c)). set (x := full_header _ _).
  unfold Spec.in_range in Hr.
  assert (forall im t d h, Spec.vw_at (start l)
    (Spec.mkc (<[Z.to_nat (start l) := x]> (Spec.vw c)) im t d h) = x) as Ex.
  { intros. unfold Spec.vw_at; simpl. by rewrite list_lookup_insert_eq by lia. }
  rewrite !Ex. rewrite run_spec_tail, run_brelse; specsimpl.
  - unfold wr. unfold mret. simpl. unfold M_ret. do 3 f_equal. rewrite Hh. sets.
  - sets.
  - right. rewrite Ex. unfold Spec.img_at; simpl. by rewrite list_lookup_insert_eq by lia.
Qed.

(** ** Installing a transaction *)

(** The log blocks named by [l] can be copied to their homes. *)
Record installable (l : log) (c : Spec.cache) : Prop := {
  i_dev : dev l = ROOTDEV;
  i_quiet : quiet c;
  i_start : 2 <= start l;
  i_end : start l + size l <= Z.of_nat (length (Spec.img c));
  i_n : 0 <= n (lh l) <= size l - 1;
  i_len : length (tx_blocks l) = Z.to_nat (n (lh l));
  i_nodup : NoDup (tx_blocks l);
  i_data : Forall (data_block (start l) (size l) (length (Spec.img c))) (tx_blocks l);
  i_dirty : Spec.dirty c = ∅ \/ Spec.dirty c = list_to_set (tx_blocks l);
  i_room : (base.size (Spec.dirty c) < NBUF)%nat
}.

(** The contents of the log blocks. *)
Definition log_contents (l : log) (c : Spec.cache) : list block :=
  map (fun i => Spec.vw_at (start l + Z.of_nat i + 1) c) (seq 0 (Z.to_nat (n (lh l)))).

Section Install.
Context (l : log) (c : Spec.cache) (Hin : installable l c).

Lemma installable_at i b :
  tx_blocks l !! i = Some b ->
  data_block (start l) (size l) (length (Spec.img c)) b /\ (i < Z.to_nat (n (lh l)))%nat.
Proof using Hin.
  intros H. split.
  - by apply (Forall_lookup_1 _ _ _ _ (i_data _ _ Hin) H).
  - rewrite <- (i_len _ _ Hin). by apply lookup_lt_Some in H.
Qed.

Lemma home_writes_ok k :
  Forall (fun w => 0 <= w.1 < Z.of_nat (length (Spec.img c)))
    (take k (home_writes (tx_blocks l) (log_contents l c))).
Proof using Hin.
  apply Forall_take, Forall_forall. intros [b x] H. apply list_elem_of_lookup in H as [j Hj].
  unfold home_writes in Hj. apply lookup_zip_with_Some in Hj as (b' & x' & E & Hb & _).
  simplify_eq/=. destruct (installable_at _ _ Hb) as [[? _] _]. lia.
Qed.

Lemma length_log_contents : length (log_contents l c) = length (tx_blocks l).
Proof using Hin. unfold log_contents. by rewrite length_map, length_seq, (i_len _ _ Hin). Qed.

Lemma install_trans_run :
  run_spec install_trans (l, c) =
    Ok tt (l, wrs (home_writes (tx_blocks l) (log_contents l c)) c).
Proof using Hin.
  unfold install_trans. rewrite run_pget.
  set (ws := home_writes (tx_blocks l) (log_contents l c)).
  pose proof length_log_contents as Hlc. pose proof (map_fst_home _ _ (eq_sym Hlc)) as Hfst.
  fold ws in Hfst.
  replace (Z.to_nat (n (lh l))) with (length ws).
  2:{ rewrite <- (length_map fst), Hfst. apply (i_len _ _ Hin). }
  apply for_each_writes. intros i [b x] Hw. simpl.
  unfold ws, home_writes in Hw. apply lookup_zip_with_Some in Hw as (b' & x' & E & Hb & Hx).
  simplify_eq/=. destruct (installable_at i b' Hb) as [[Hd1 Hd2] Hi].
  assert (take i (tx_blocks l) = map fst (take i ws)) as Htk by (rewrite <- Hfst at 1; apply firstn_map).
  unfold log_contents in Hx. rewrite list_lookup_fmap, lookup_seq_lt in Hx by done. simplify_eq/=.
  pose proof (home_writes_ok i) as Hok. fold ws in Hok.
  pose proof (wrs_img (take i ws) c) as Himg. pose proof (wrs_dirty (take i ws) c) as Hdirty.
  set (lb := start l + Z.of_nat i + 1) in *.
  assert (lb ∉ map fst (take i ws)) as Hlb.
  { intros H. apply elem_map_take in H. rewrite Hfst in H.
    pose proof (i_data _ _ Hin) as Hdata. rewrite Forall_forall in Hdata.
    destruct (Hdata _ H) as [_ ?], (i_n _ _ Hin). unfold lb in *. lia. }
  assert (Spec.vw_at lb (wrs (take i ws) c) = Spec.vw_at lb c) as <-.
  { rewrite vw_at_wrs, img_at_writes_ne; [done| | |done].
    - pose proof (i_start _ _ Hin). lia.
    - by rewrite (q_len _ (i_quiet _ _ Hin)). }
  rewrite (lh_block_tx l i b' Hb), (i_dev _ _ Hin). fold lb.
  pose proof (subseteq_size (Spec.dirty (wrs (take i ws) c)) (Spec.dirty c)
    ltac:(rewrite Hdirty; set_solver)) as Hsz. pose proof (i_room _ _ Hin).
  pose proof (i_start _ _ Hin). pose proof (i_end _ _ Hin). pose proof (i_n _ _ Hin).
  apply copy_block_run; [by apply quiet_wrs; [|apply (i_quiet _ _ Hin)]| | | |by auto|by auto| |].
  - unfold Spec.in_range. rewrite Himg, length_apply_writes. unfold lb. lia.
  - unfold Spec.in_range. rewrite Himg, length_apply_writes. lia.
  - unfold lb. lia.
  - right. lia.
  - destruct (i_dirty _ _ Hin) as [Hz|Hz].
    + right. rewrite Hz, size_empty in Hsz. unfold NBUF. lia.
    + left. rewrite Hdirty, Hz, <- Htk. apply elem_of_difference.
      split; [apply elem_of_list_to_set, list_elem_of_lookup; eauto|].
      rewrite elem_of_list_to_set. intros H3. apply list_elem_of_lookup in H3 as [j Hj].
      apply lookup_take_Some in Hj as [Hj ?].
      pose proof (NoDup_lookup _ _ _ _ (i_nodup _ _ Hin) Hj Hb). lia.
Qed.

End Install.

(** ** The writes of a commit *)

Section Commit.
Context (l : log) (c : Spec.cache) (Htx : tx l c).

Let W1 := log_writes (start l) (new_contents l c).
Let h := full_header l (Spec.vw_at (start l) c).

Lemma W1_fst b : b ∈ map fst W1 -> start l + 1 <= b < start l + 1 + n (lh l).
Proof using Htx.
  intros H. apply elem_log_writes in H. unfold new_contents in H.
  rewrite length_map, (tx_blocks_length l c Htx) in H.
  destruct (tx_n _ _ Htx) as [? _]. lia.
Qed.

Lemma W1_ok : Forall (fun w => 0 <= w.1 < Z.of_nat (length (Spec.img c))) W1.
Proof using Htx.
  pose proof (log_writes_ok l c Htx (Z.to_nat (n (lh l))) ltac:(lia)) as H.
  rewrite take_ge in H; [done|].
  unfold new_contents. by rewrite length_log_writes, length_map, (tx_blocks_length l c Htx).
Qed.

Lemma start_range : 0 <= start l < Z.of_nat (length (Spec.img c)).
Proof using Htx. destruct (tx_geom _ _ Htx). lia. Qed.

Lemma not_dirty b : start l <= b < start l + size l -> b ∉ Spec.dirty c.
Proof using Htx.
  intros Hb. rewrite (tx_dirty _ _ Htx), elem_of_list_to_set. intros H.
  pose proof (tx_data _ _ Htx) as Hd. rewrite Forall_forall in Hd. destruct (Hd _ H). lia.
Qed.

(** The log area is clean, so the dirty set survives writes to it. *)
Lemma dirty_log_writes ws :
  (forall b, b ∈ map fst ws -> start l <= b < start l + size l) ->
  Spec.dirty (wrs ws c) = Spec.dirty c.
Proof using Htx.
  intros H. rewrite wrs_dirty. apply set_eq. intros b.
  rewrite elem_of_difference, elem_of_list_to_set. split; [tauto|].
  intros Hb. split; [done|]. intros Hw. by apply (not_dirty b (H b Hw)).
Qed.

Lemma header_unchanged : Spec.vw_at (start l) (wrs W1 c) = Spec.vw_at (start l) c.
Proof using Htx.
  rewrite vw_at_wrs, img_at_writes_ne; [done| | |].
  - pose proof start_range. lia.
  - rewrite (q_len _ (tx_quiet _ _ Htx)). apply W1_ok.
  - intros H. apply W1_fst in H. lia.
Qed.

Lemma logged_dirty : Spec.dirty (wrs (W1 ++ [(start l, h)]) c) = Spec.dirty c.
Proof using Htx.
  apply dirty_log_writes. intros b. rewrite map_app, elem_of_app. pose proof (g_sz _ _ _ (tx_geom _ _ Htx)).
  intros [H1|H1].
  - apply W1_fst in H1. destruct (tx_n _ _ Htx). lia.
  - apply list_elem_of_singleton in H1. simpl in H1. lia.
Qed.

Lemma logged_ok : Forall (fun w => 0 <= w.1 < Z.of_nat (length (Spec.img c))) (W1 ++ [(start l, h)]).
Proof using Htx.
  apply Forall_app. split; [apply W1_ok|]. apply Forall_singleton. apply start_range.
Qed.

Lemma logged_installable : installable l (wrs (W1 ++ [(start l, h)]) c).
Proof using Htx.
  pose proof (tx_geom _ _ Htx) as [Hs He Hr _ _]. destruct (tx_n _ _ Htx) as [Hn Hns].
  split; try rewrite wrs_img, length_apply_writes; try rewrite logged_dirty; try done.
  - apply (tx_dev _ _ Htx).
  - apply quiet_wrs; [apply logged_ok|apply (tx_quiet _ _ Htx)].
  - lia.
  - apply (tx_blocks_length l c Htx).
  - apply (tx_nodup _ _ Htx).
  - apply (tx_data _ _ Htx).
  - right. apply (tx_dirty _ _ Htx).
  - rewrite (tx_dirty_size l c Htx). lia.
Qed.

Lemma logged_contents : log_contents l (wrs (W1 ++ [(start l, h)]) c) = new_contents l c.
Proof using Htx.
  pose proof (tx_blocks_length l c Htx) as Hlen.
  apply list_eq. intros i. unfold log_contents, new_contents. rewrite !list_lookup_fmap.
  destruct (tx_blocks l !! i) as [b|] eqn:Hb.
  - pose proof (lookup_lt_Some _ _ _ Hb). rewrite lookup_seq_lt by lia. simpl. f_equal.
    rewrite wrs_app. simpl. pose proof start_range. destruct (tx_geom _ _ Htx).
    rewrite vw_at_wr, decide_False; [|lia| |lia].
    2:{ rewrite wrs_vw, length_apply_writes, (q_len _ (tx_quiet _ _ Htx)). lia. }
    rewrite vw_at_wrs.
    eapply img_at_writes_eq; [|apply NoDup_log_writes|].
    + rewrite (q_len _ (tx_quiet _ _ Htx)). apply W1_ok.
    + unfold W1. rewrite lookup_log_writes. unfold new_contents. by rewrite list_lookup_fmap, Hb.
  - rewrite lookup_seq_ge; [done|]. apply lookup_ge_None in Hb. lia.
Qed.

Let W2 := home_writes (tx_blocks l) (new_contents l c).
Let W := (W1 ++ [(start l, h)]) ++ W2.

Lemma W2_fst : map fst W2 = tx_blocks l.
Proof using. apply map_fst_home. unfold new_contents. by rewrite length_map. Qed.

Lemma W2_not b : start l <= b < start l + size l -> b ∉ map fst W2.
Proof using Htx.
  intros Hb H. rewrite W2_fst in H. apply (not_dirty b Hb).
  by rewrite (tx_dirty _ _ Htx), elem_of_list_to_set.
Qed.

Lemma W2_ok : Forall (fun w => 0 <= w.1 < Z.of_nat (length (Spec.img c))) W2.
Proof using Htx.
  apply Forall_forall. intros w Hw. assert (w.1 ∈ map fst W2) as H by (by apply list_elem_of_fmap_2).
  rewrite W2_fst in H. pose proof (tx_data _ _ Htx) as Hd. rewrite Forall_forall in Hd.
  destruct (Hd _ H). lia.
Qed.

Lemma W_ok : Forall (fun w => 0 <= w.1 < Z.of_nat (length (Spec.img c))) W.
Proof using Htx. apply Forall_app. split; [apply logged_ok|apply W2_ok]. Qed.

(** The header stays committed while the blocks are installed. *)
Lemma installing_header j im : length im = length (Spec.img c) ->
  img_at (apply_writes ((W1 ++ [(start l, h)]) ++ take j W2) im) (start l) = h.
Proof using Htx.
  intros Hl. pose proof start_range.
  rewrite apply_writes_app, img_at_writes_ne; [|lia| |].
  - rewrite apply_writes_app. simpl. change (apply_writes [?w] ?d) with (<[Z.to_nat w.1:=w.2]> d).
    rewrite img_at_insert, decide_True; [done|done| |lia].
    simpl. rewrite length_apply_writes, Hl. done.
  - rewrite length_apply_writes, Hl. apply Forall_take, W2_ok.
  - intros Hi. apply elem_map_take in Hi. revert Hi.
    apply W2_not. pose proof (g_sz _ _ _ (tx_geom _ _ Htx)). lia.
Qed.

Lemma installed_dirty : Spec.dirty (wrs W c) = ∅.
Proof using Htx.
  unfold W. rewrite wrs_app, wrs_dirty, logged_dirty, W2_fst, (tx_dirty _ _ Htx). set_solver.
Qed.

(** A commit performs exactly [commit_writes]. *)
Lemma commit_run_pos : 0 < n (lh l) ->
  run_spec commit (l, c) = Ok tt (set_n 0 l, wrs (commit_writes l c) c).
Proof using Htx.
  intros Hpos. unfold commit_writes. fold h W1. rewrite (proj2 (Z.gtb_lt _ _)) by lia.
  unfold commit. rewrite run_pget, (proj2 (Z.gtb_lt _ _)) by lia. cbn [when].
  rewrite run_spec_bind_ok with (1 := write_log_run l c Htx). fold W1.
  pose proof (tx_geom _ _ Htx) as [Hs He Hr _ Hz]. pose proof start_range as Hst.
  destruct (tx_n _ _ Htx) as [Hn Hns].
  assert (Spec.dirty (wrs W1 c) = Spec.dirty c) as HdW1.
  { apply dirty_log_writes. intros b H. apply W1_fst in H. lia. }
  assert (run_spec write_head (l, wrs W1 c) = Ok tt (l, wrs (W1 ++ [(start l, h)]) c)) as Hwh.
  { rewrite write_head_run.
    - rewrite header_unchanged, wrs_app. done.
    - apply (tx_dev _ _ Htx).
    - apply quiet_wrs; [apply W1_ok|apply (tx_quiet _ _ Htx)].
    - unfold Spec.in_range. rewrite wrs_img, length_apply_writes. lia.
    - rewrite HdW1. apply not_dirty. lia.
    - rewrite HdW1, (tx_dirty_size l c Htx). lia. }
  rewrite run_spec_bind_ok with (1 := Hwh).
  pose proof logged_installable as Hin. pose proof logged_contents as Hlc.
  rewrite run_spec_bind_ok with (1 := install_trans_run l _ Hin). rewrite Hlc, <- wrs_app.
  fold W2 W. rewrite run_pmod. rewrite write_head_run.
  - cbn [start set_n set_lh]. unfold W.
    rewrite vw_at_wrs, <- (take_ge W2 (length W2)) at 1 by done.
    rewrite installing_header by apply (q_len _ (tx_quiet _ _ Htx)).
    change (full_header (set_n 0 l) h) with (put32 0 0 h).
    rewrite <- !app_assoc, !wrs_app. done.
  - apply (tx_dev _ _ Htx).
  - apply quiet_wrs; [apply W_ok|apply (tx_quiet _ _ Htx)].
  - unfold Spec.in_range. rewrite wrs_img, length_apply_writes. done.
  - rewrite installed_dirty. sets.
  - rewrite installed_dirty, size_empty. unfold NBUF. lia.
Qed.

Lemma commit_run :
  run_spec commit (l, c) = Ok tt (set_n 0 l, wrs (commit_writes l c) c).
Proof using Htx.
  destruct (decide (0 < n (lh l))) as [Hp|Hp]; [by apply commit_run_pos|].
  assert (n (lh l) = 0) as Hz by (destruct (tx_n _ _ Htx); lia).
  unfold commit, commit_writes. rewrite run_pget, Hz. cbn.
  unfold set_n, set_lh. rewrite <- Hz. destruct l as [? ? ? ? ? []]. done.
Qed.

End Commit.
