(* ===== verification/Recovery.v ===== *)
(** * Recovery and crash atomicity (system/storage/log.c)

    What the header block says of a disk image, the disks that a crash during
    a commit can leave ([commit_prefix]), the run of [recover_from_log] on such
    a disk and the disks that a crash during the recovery can leave
    ([recover_prefix]), and the atomicity of a commit under any number of
    crashes, at the level of bio.c. *)

From S2P Require Import Prelude Spinlock Bio BioSpec BlockProg Log LogCrash.
Import Log.

(** What [recover_from_log] relies on: the log lies inside the disk and the
    header names distinct data blocks. *)
Record disk_ok (st sz : Z) (im : list block) : Prop := {
  d_geom : geometry st sz im;
  d_n : 0 <= hdr_n st im <= LOGSIZE /\ hdr_n st im <= sz - 1;
  d_nodup : NoDup (hdr_blocks st im);
  d_data : Forall (data_block st sz (length im)) (hdr_blocks st im)
}.

(** Every block outside the log has the same recovered contents. *)
Definition same_logical (st sz : Z) (im im' : list block) : Prop :=
  forall b, 0 <= b -> ~ (st <= b < st + sz) -> logical st im' b = logical st im b.

(** The writes of a recovery. *)
Definition recover_writes (st : Z) (im : list block) : list (Z * block) :=
  home_writes (hdr_blocks st im)
    (map (fun i => img_at im (st + Z.of_nat i + 1)) (seq 0 (Z.to_nat (hdr_n st im)))) ++
  [(st, put32 0 0 (img_at im st))].

(** ** The header block *)

Lemma length_head_store k i bl d :
  0 <= i -> (block_off (i + Z.of_nat k) <= length d)%nat -> length (head_store k i bl d) = length d.
Proof.
  revert i d. induction k as [|k IH]; intros i d Hi Hk; simpl; [done|].
  assert (length (put32 (block_off i) (aget 0 bl i) d) = length d) as E.
  { rewrite length_put32; [done|]. unfold block_off in *. lia. }
  rewrite IH; [done|lia|]. rewrite E. unfold block_off in *. lia.
Qed.

Lemma get_head_store o k i bl d :
  0 <= i -> (block_off (i + Z.of_nat k) <= length d)%nat ->
  (o + 4 <= block_off i \/ block_off (i + Z.of_nat k) <= o)%nat ->
  get32 o (head_store k i bl d) = get32 o d.
Proof.
  revert i d. induction k as [|k IH]; intros i d Hi Hk Ho; simpl; [done|].
  rewrite IH.
  - apply get_put32_ne; unfold block_off in *; lia.
  - lia.
  - rewrite length_put32; unfold block_off in *; lia.
  - unfold block_off in *; lia.
Qed.

Lemma get_head_store_in j k i bl d :
  0 <= i -> (block_off (i + Z.of_nat k) <= length d)%nat -> i <= j < i + Z.of_nat k ->
  get32 (block_off j) (head_store k i bl d) = u32 (aget 0 bl j).
Proof.
  revert i d. induction k as [|k IH]; intros i d Hi Hk Hj; simpl; [lia|].
  assert (length (put32 (block_off i) (aget 0 bl i) d) = length d) as E.
  { rewrite length_put32; [done|]. unfold block_off in *. lia. }
  destruct (decide (i = j)) as [<-|Hne].
  - rewrite get_head_store; [|lia|rewrite E; unfold block_off in *; lia|unfold block_off; lia].
    apply get_put32. unfold block_off in *. lia.
  - apply IH; [lia| |lia]. rewrite E. unfold block_off in *. lia.
Qed.

Lemma head_load_eq k i d bl : 0 <= i ->
  (Z.to_nat i + k <= length bl)%nat ->
  head_load k i d bl = take (Z.to_nat i) bl ++
    map (fun j => s32 (get32 (block_off (Z.of_nat j)) d)) (seq (Z.to_nat i) k) ++
    drop (Z.to_nat i + k) bl.
Proof.
  revert i bl. induction k as [|k IH]; intros i bl Hi Hk; simpl.
  - by rewrite Nat.add_0_r, take_drop.
  - set (v := s32 (get32 (block_off i) d)).
    assert (aset bl i v = <[Z.to_nat i := v]> bl) as Ea.
    { unfold aset. destruct (Z.ltb_spec i 0); [lia|done]. }
    rewrite IH; [|lia|rewrite Ea, length_insert; lia].
    rewrite Ea. replace (Z.to_nat (i + 1)) with (S (Z.to_nat i)) by lia.
    rewrite (take_S_r _ _ v) by (apply list_lookup_insert_eq; lia).
    rewrite take_insert_ge by lia. rewrite <- app_assoc. simpl.
    rewrite drop_insert_lt by lia. rewrite Z2Nat.id by lia. f_equal. f_equal. f_equal. f_equal. lia.
Qed.

Section Header.
Context (l : log) (d : block).
Context (Hd : length d = BSIZE) (Hl : length (blk (lh l)) = Z.to_nat LOGSIZE)
        (Hn : 0 <= n (lh l) <= LOGSIZE).

Lemma header_fits : (block_off (0 + Z.of_nat (Z.to_nat (n (lh l)))) <= length (put32 0 (n (lh l)) d))%nat.
Proof using Hd Hl Hn.
  rewrite length_put32 by (rewrite Hd; unfold BSIZE; lia). rewrite Hd.
  unfold block_off, BSIZE, LOGSIZE, MAXOPBLOCKS in *. lia.
Qed.

Lemma length_full_header : length (full_header l d) = BSIZE.
Proof using Hd Hl Hn.
  unfold full_header. rewrite length_head_store by (lia || apply header_fits).
  rewrite length_put32; [done|]. rewrite Hd. unfold BSIZE. lia.
Qed.

Lemma hdr_n_full im st : img_at im st = full_header l d -> hdr_n st im = n (lh l).
Proof using Hd Hl Hn.
  intros E. unfold hdr_n. rewrite E. unfold full_header.
  rewrite get_head_store by (lia || apply header_fits || (left; unfold block_off; lia)).
  rewrite get_put32 by (rewrite Hd; unfold BSIZE; lia).
  unfold LOGSIZE, MAXOPBLOCKS in *. rewrite u32_id, s32_id; lia.
Qed.

Lemma hdr_blocks_full im st :
  Forall (fun b => 0 <= b < 2 ^ 31) (tx_blocks l) ->
  img_at im st = full_header l d -> hdr_blocks st im = tx_blocks l.
Proof using Hd Hl Hn.
  intros Hb E. pose proof (length_tx_blocks l Hl Hn) as Hlen.
  apply list_eq. intros i. unfold hdr_blocks. rewrite (hdr_n_full im st E), list_lookup_fmap.
  destruct (tx_blocks l !! i) as [b|] eqn:Hi.
  - pose proof (lookup_lt_Some _ _ _ Hi). rewrite lookup_seq_lt by lia. simpl. f_equal.
    rewrite E. unfold full_header. rewrite get_head_store_in by (lia || apply header_fits).
    rewrite (lh_block_tx l i b Hi : aget _ _ _ = b).
    pose proof (Forall_lookup_1 _ _ _ _ Hb Hi). simpl in *. rewrite u32_id, s32_id; lia.
  - rewrite lookup_seq_ge; [done|]. apply lookup_ge_None in Hi. lia.
Qed.

End Header.

Lemma hdr_n_zero d im st : (4 <= length d)%nat -> img_at im st = put32 0 0 d -> hdr_n st im = 0.
Proof. intros Hd E. unfold hdr_n. rewrite E, get_put32 by lia. done. Qed.

Lemma hdr_blocks_nil im st : hdr_n st im = 0 -> hdr_blocks st im = [].
Proof. intros E. unfold hdr_blocks. by rewrite E. Qed.

Lemma hdr_same im im' st :
  img_at im' st = img_at im st -> hdr_n st im' = hdr_n st im /\ hdr_blocks st im' = hdr_blocks st im.
Proof. intros E. unfold hdr_blocks, hdr_n. by rewrite E. Qed.

Lemma logical_nil im st b : hdr_n st im = 0 -> logical st im b = img_at im b.
Proof. intros E. unfold logical. by rewrite (hdr_blocks_nil im st E). Qed.

Lemma index_of_spec b l i : index_of b l = Some i -> l !! i = Some b.
Proof.
  revert i. induction l as [|x l IH]; intros i; simpl; [done|].
  destruct (Z.eqb_spec x b) as [->|Hne]; [intros [= <-]; done|].
  destruct (index_of b l) as [j|]; simpl; [|done]. intros [= <-]. simpl. auto.
Qed.

Lemma index_of_none b l : index_of b l = None -> b ∉ l.
Proof.
  induction l as [|x l IH]; simpl; [intros _ H; by apply elem_of_nil in H|].
  destruct (Z.eqb_spec x b) as [->|Hne]; [done|].
  destruct (index_of b l); simpl; [done|]. intros _ H. apply elem_of_cons in H as [->|H]; [done|].
  by apply IH.
Qed.

(** ** The disks that a crash during a commit can leave *)

Lemma take_cases {A} k (a b : list A) x y :
  ((k <= length a)%nat /\ take k (a ++ [x] ++ b ++ [y]) = take k a) \/
  ((length a < k)%nat /\
   ((exists j, take k (a ++ [x] ++ b ++ [y]) = (a ++ [x]) ++ take j b) \/
    take k (a ++ [x] ++ b ++ [y]) = ((a ++ [x]) ++ take (length b) b) ++ [y])).
Proof.
  destruct (decide (k <= length a)%nat) as [H|H].
  { left. split; [done|]. by rewrite take_app_le by lia. }
  right. split; [lia|]. rewrite app_assoc.
  destruct (decide (k <= length a + 1 + length b)%nat) as [H'|H'].
  - left. exists (k - length a - 1)%nat. rewrite take_app_ge by (rewrite length_app; simpl; lia).
    rewrite length_app. simpl. replace (k - (length a + 1))%nat with (k - length a - 1)%nat by lia.
    by rewrite take_app_le by lia.
  - right. rewrite take_ge by (rewrite !length_app; simpl; lia).
    rewrite (take_ge b) by lia. by rewrite <- !app_assoc.
Qed.

Lemma img_at_logical_old st sz im ws b :
  hdr_n st im = 0 -> 0 <= st < Z.of_nat (length im) -> 0 <= b -> ~ (st <= b < st + sz) ->
  Forall (fun w => 0 <= w.1 < Z.of_nat (length im)) ws ->
  (forall y, y ∈ map fst ws -> st < y < st + sz) ->
  hdr_n st (apply_writes ws im) = 0 /\ logical st (apply_writes ws im) b = img_at im b.
Proof.
  intros Hz Hst Hb Hnl Hok Hws.
  assert (img_at (apply_writes ws im) st = img_at im st) as E.
  { apply img_at_writes_ne; [lia|done|]. intros H. apply Hws in H. lia. }
  destruct (hdr_same _ _ _ E) as [En _]. split; [by rewrite En|].
  rewrite logical_nil by (by rewrite En). apply img_at_writes_ne; [done|done|].
  intros H. apply Hws in H. lia.
Qed.

Lemma disk_ok_empty st sz im : geometry st sz im -> hdr_n st im = 0 -> disk_ok st sz im.
Proof.
  intros Hg Hz. split; [done| | |].
  - rewrite Hz. unfold LOGSIZE, MAXOPBLOCKS. destruct Hg. lia.
  - rewrite (hdr_blocks_nil _ _ Hz). constructor.
  - rewrite (hdr_blocks_nil _ _ Hz). constructor.
Qed.

Section CommitPrefix.
Context (l : log) (c : Spec.cache) (Htx : tx l c).

Let st := start l.
Let sz := size l.
Let W1 := log_writes st (new_contents l c).
Let h := full_header l (Spec.vw_at st c).
Let W2 := home_writes (tx_blocks l) (new_contents l c).

Lemma start_vw : Spec.vw_at st c = img_at (Spec.img c) st /\ length (Spec.vw_at st c) = BSIZE.
Proof using Htx.
  destruct (tx_geom _ _ Htx) as [? ? ? Hh ?]. destruct (tx_quiet _ _ Htx) as [_ _ Hc].
  assert (Spec.vw_at st c = img_at (Spec.img c) st) as E.
  { unfold st. rewrite Hc; [done|lia|]. apply (not_dirty l c Htx). lia. }
  split; [done|]. by rewrite E.
Qed.

Lemma length_W1 : length W1 = Z.to_nat (n (lh l)).
Proof using Htx.
  unfold W1, new_contents. rewrite length_log_writes, length_map. apply (tx_blocks_length l c Htx).
Qed.

Lemma n_logsize : 0 <= n (lh l) <= LOGSIZE.
Proof using Htx. destruct (tx_n _ _ Htx). unfold LOGSIZE, MAXOPBLOCKS, NBUF in *. lia. Qed.

Lemma geometry_writes ws : length (img_at (apply_writes ws (Spec.img c)) st) = BSIZE ->
  geometry st sz (apply_writes ws (Spec.img c)).
Proof using Htx.
  intros H. destruct (tx_geom _ _ Htx). split; rewrite ?length_apply_writes; done.
Qed.

(** Before the header is written. *)
Lemma commit_prefix_log k b :
  0 <= b -> ~ (st <= b < st + sz) ->
  disk_ok st sz (apply_writes (take k W1) (Spec.img c)) /\
  logical st (apply_writes (take k W1) (Spec.img c)) b = img_at (Spec.img c) b.
Proof using Htx.
  intros Hb Hnl. pose proof (start_range l c Htx) as Hst. fold st in Hst.
  assert (Forall (fun w => 0 <= w.1 < Z.of_nat (length (Spec.img c))) (take k W1)) as Hok
    by apply Forall_take, (W1_ok l c Htx).
  assert (forall y, y ∈ map fst (take k W1) -> st < y < st + sz) as Hy.
  { intros y H. apply elem_map_take, (W1_fst l c Htx) in H. destruct (tx_n _ _ Htx).
    unfold st, sz. lia. }
  destruct (img_at_logical_old st sz (Spec.img c) (take k W1) b (tx_empty _ _ Htx) Hst Hb Hnl Hok Hy)
    as [Hz ->].
  split; [|done]. apply disk_ok_empty; [|done]. apply geometry_writes.
  rewrite img_at_writes_ne; [apply (g_hdr _ _ _ (tx_geom _ _ Htx))|lia|done|].
  intros H. apply Hy in H. lia.
Qed.

Lemma tx_block_bounds : Forall (fun b => 0 <= b < 2 ^ 31) (tx_blocks l).
Proof using Htx.
  eapply Forall_impl; [apply (tx_data _ _ Htx)|]. intros b [? _].
  pose proof (g_room _ _ _ (tx_geom _ _ Htx)). lia.
Qed.

(** Once the header is written, until it is cleared. *)
Let committed j := apply_writes ((W1 ++ [(st, h)]) ++ take j W2) (Spec.img c).

Lemma committed_hdr j :
  img_at (committed j) st = h /\ hdr_n st (committed j) = n (lh l) /\
  hdr_blocks st (committed j) = tx_blocks l.
Proof using Htx.
  pose proof (installing_header l c Htx j (Spec.img c) eq_refl) as E. fold st h W1 W2 in E.
  fold (committed j) in E. destruct start_vw as [_ Hlen]. pose proof n_logsize as Hn.
  split_and!; [done| |].
  - by apply (hdr_n_full l (Spec.vw_at st c) Hlen (tx_len _ _ Htx) Hn).
  - apply (hdr_blocks_full l (Spec.vw_at st c) Hlen (tx_len _ _ Htx) Hn); [|done].
    apply tx_block_bounds.
Qed.

Lemma committed_ok j : disk_ok st sz (committed j).
Proof using Htx.
  destruct (committed_hdr j) as (Eh & En & Eb). destruct start_vw as [_ Hlen].
  pose proof n_logsize as Hn. split.
  - apply geometry_writes. unfold committed in Eh. rewrite Eh. unfold h.
    apply (length_full_header l _ Hlen (tx_len _ _ Htx) Hn).
  - rewrite En. split; [done|]. apply (tx_n _ _ Htx).
  - rewrite Eb. apply (tx_nodup _ _ Htx).
  - rewrite Eb. unfold committed. rewrite length_apply_writes. apply (tx_data _ _ Htx).
Qed.

Lemma committed_log_block j i b :
  tx_blocks l !! i = Some b -> img_at (committed j) (st + Z.of_nat i + 1) = Spec.vw_at b c.
Proof using Htx.
  intros Hb. destruct (tx_block_facts l c Htx i b Hb) as (_ & _ & Hi).
  destruct (tx_geom _ _ Htx), (tx_n _ _ Htx). pose proof (start_range l c Htx).
  unfold committed. rewrite apply_writes_app, img_at_writes_ne; [|unfold st; lia| |].
  - rewrite apply_writes_app. change (apply_writes [?w] ?d) with (<[Z.to_nat w.1:=w.2]> d).
    rewrite img_at_insert, decide_False; simpl; try rewrite length_apply_writes; unfold st; try lia.
    eapply img_at_writes_eq; [apply (W1_ok l c Htx)|apply NoDup_log_writes|].
    unfold W1. rewrite lookup_log_writes. unfold new_contents. by rewrite list_lookup_fmap, Hb.
  - rewrite length_apply_writes. apply Forall_take, (W2_ok l c Htx).
  - intros Hx. apply elem_map_take in Hx. revert Hx. apply (W2_not l c Htx). unfold st. lia.
Qed.

Lemma untouched_block j b :
  0 <= b -> ~ (st <= b < st + sz) -> b ∉ tx_blocks l -> img_at (committed j) b = Spec.vw_at b c.
Proof using Htx.
  intros Hb Hnl Hnt. destruct (tx_quiet _ _ Htx) as [_ _ Hc].
  rewrite Hc; [|done|rewrite (tx_dirty _ _ Htx); by rewrite elem_of_list_to_set].
  unfold committed. rewrite img_at_writes_ne; [done|done| |].
  - apply Forall_app. split; [apply (logged_ok l c Htx)|apply Forall_take, (W2_ok l c Htx)].
  - pose proof (g_sz _ _ _ (tx_geom _ _ Htx)).
    rewrite !map_app, !elem_of_app. intros [[H1|H1]|H1].
    + apply (W1_fst l c Htx) in H1. destruct (tx_n _ _ Htx). unfold st, sz in *. lia.
    + apply list_elem_of_singleton in H1. simpl in H1. unfold st, sz in *. lia.
    + apply elem_map_take in H1. unfold W2 in H1. by rewrite (W2_fst l c) in H1.
Qed.

Lemma commit_prefix_install j b :
  0 <= b -> ~ (st <= b < st + sz) -> logical st (committed j) b = Spec.vw_at b c.
Proof using Htx.
  intros Hb Hnl. unfold logical. destruct (committed_hdr j) as (_ & _ & ->).
  destruct (index_of b (tx_blocks l)) as [i|] eqn:Hi.
  - apply index_of_spec in Hi. by apply committed_log_block.
  - apply index_of_none in Hi. by apply untouched_block.
Qed.

(** After the header is cleared. *)
Lemma commit_prefix_done b :
  let im := apply_writes (((W1 ++ [(st, h)]) ++ take (length W2) W2) ++ [(st, put32 0 0 h)]) (Spec.img c) in
  disk_ok st sz im /\ hdr_n st im = 0 /\
  (0 <= b -> ~ (st <= b < st + sz) -> logical st im b = Spec.vw_at b c).
Proof using Htx.
  intros im. pose proof (start_range l c Htx) as Hst. fold st in Hst.
  destruct start_vw as [_ Hlen]. pose proof n_logsize as Hn.
  pose proof (length_full_header l _ Hlen (tx_len _ _ Htx) Hn) as Hlh. fold h in Hlh.
  assert (im = <[Z.to_nat st := put32 0 0 h]> (committed (length W2))) as Him
    by (unfold im; by rewrite apply_writes_app).
  assert (length (committed (length W2)) = length (Spec.img c)) as Hl by apply length_apply_writes.
  assert (img_at im st = put32 0 0 h) as Eh.
  { rewrite Him, img_at_insert, decide_True; [done|done|by rewrite Hl|lia]. }
  assert (hdr_n st im = 0) as Hz by (apply (hdr_n_zero h); [rewrite Hlh; unfold BSIZE; lia|done]).
  split_and!; [|done|].
  - apply disk_ok_empty; [|done]. apply geometry_writes. unfold im in Eh. rewrite Eh.
    rewrite length_put32; [done|rewrite Hlh; unfold BSIZE; lia].
  - intros Hb Hnl. rewrite logical_nil by done.
    rewrite Him, img_at_insert, decide_False; [|intros ->|by rewrite Hl|done].
    2:{ apply Hnl. pose proof (g_sz _ _ _ (tx_geom _ _ Htx)). unfold sz. lia. }
    destruct (decide (b ∈ tx_blocks l)) as [Hin|Hin]; [|by apply untouched_block].
    apply list_elem_of_lookup in Hin as [i Hi].
    unfold committed. rewrite take_ge by done. rewrite apply_writes_app.
    eapply img_at_writes_eq with (i := i).
    + rewrite length_apply_writes. apply (W2_ok l c Htx).
    + unfold W2. rewrite (W2_fst l c). apply (tx_nodup _ _ Htx).
    + unfold W2, home_writes, new_contents. apply lookup_zip_with_Some.
      exists b, (Spec.vw_at b c). by rewrite list_lookup_fmap, Hi.
Qed.

(** The crash points of a commit: the old contents as long as the header is
    not on the disk, the new contents from then on. *)
Lemma commit_prefix k : 0 < n (lh l) ->
  let im := apply_writes (take k (commit_writes l c)) (Spec.img c) in
  disk_ok st sz im /\
  forall b, 0 <= b -> ~ (st <= b < st + sz) ->
  logical st im b =
    if decide (Z.of_nat k <= n (lh l)) then img_at (Spec.img c) b else Spec.vw_at b c.
Proof using Htx.
  intros Hp im. pose proof length_W1 as HW1. unfold im.
  assert (((k <= length W1)%nat /\ take k (commit_writes l c) = take k W1) \/
    ((length W1 < k)%nat /\ ((exists j, take k (commit_writes l c) = (W1 ++ [(st, h)]) ++ take j W2) \/
      take k (commit_writes l c) = ((W1 ++ [(st, h)]) ++ take (length W2) W2) ++ [(st, put32 0 0 h)])))
    as Hcases.
  { unfold commit_writes. rewrite (proj2 (Z.gtb_lt _ _)) by lia. apply take_cases. }
  destruct Hcases as [[Hk ->]|[Hk [[j ->]|Hd]]].
  - split; [|intros b Hb Hnl; rewrite decide_True by lia; by apply commit_prefix_log].
    apply (commit_prefix_log k 0); [lia|]. destruct (tx_geom _ _ Htx). unfold st. lia.
  - split; [apply committed_ok|]. intros b Hb Hnl. rewrite decide_False by lia.
    by apply commit_prefix_install.
  - rewrite Hd. split; [apply (commit_prefix_done 0)|].
    intros b Hb Hnl. rewrite decide_False by lia. by apply commit_prefix_done.
Qed.

(** The state that a commit leaves. *)
Lemma commit_done :
  let c' := wrs (commit_writes l c) c in
  quiet c' /\ Spec.dirty c' = ∅ /\ hdr_n st (Spec.img c') = 0 /\ geometry st sz (Spec.img c').
Proof using Htx.
  destruct (decide (0 < n (lh l))) as [Hp|Hp].
  - assert (commit_writes l c =
      ((W1 ++ [(st, h)]) ++ take (length W2) W2) ++ [(st, put32 0 0 h)]) as Ec.
    { unfold commit_writes. rewrite (proj2 (Z.gtb_lt _ _)) by lia. fold st h W1 W2.
      rewrite (take_ge W2) by done. by rewrite <- !app_assoc. }
    destruct (commit_prefix_done 0) as (Hok & Hz & _). rewrite Ec in *. cbv zeta. split_and!.
    + apply quiet_wrs; [|apply (tx_quiet _ _ Htx)]. apply Forall_app. split.
      * rewrite take_ge by done. apply (W_ok l c Htx).
      * apply Forall_singleton. apply (start_range l c Htx).
    + rewrite wrs_app, take_ge by done. cbn [wrs foldl]. unfold wr. cbn [Spec.dirty].
      change (foldl _ c ?x) with (wrs x c). unfold W1, h, W2, st.
      rewrite (installed_dirty l c Htx). sets.
    + by rewrite wrs_img.
    + rewrite wrs_img. apply (d_geom _ _ _ Hok).
  - assert (n (lh l) = 0) as Hz by (destruct (tx_n _ _ Htx); lia).
    unfold commit_writes. rewrite Hz. cbn. split_and!; try apply Htx.
    rewrite (tx_dirty _ _ Htx). unfold tx_blocks. rewrite Hz. done.
Qed.

(** After a commit the disk shows what the cache showed. *)
Lemma commit_installs b : 0 <= b -> ~ (st <= b < st + sz) ->
  Spec.img_at b (wrs (commit_writes l c) c) = Spec.vw_at b c.
Proof using Htx.
  intros Hb Hnl. rewrite img_at_wrs. destruct (decide (0 < n (lh l))) as [Hp|Hp].
  - destruct commit_done as (_ & _ & Hz & _). rewrite wrs_img in Hz.
    rewrite <- (logical_nil _ st) by done.
    destruct (commit_prefix (length (commit_writes l c)) Hp) as [_ H].
    rewrite firstn_all in H. rewrite H by done. rewrite decide_False; [done|].
    unfold commit_writes. rewrite (proj2 (Z.gtb_lt _ _)) by lia.
    rewrite length_app, length_log_writes. unfold new_contents.
    rewrite length_map, (tx_blocks_length l c Htx). simpl. lia.
  - assert (n (lh l) = 0) as Hz by (destruct (tx_n _ _ Htx); lia).
    unfold commit_writes. rewrite Hz. cbn. symmetry.
    apply (q_clean _ (tx_quiet _ _ Htx)); [done|]. rewrite (tx_dirty _ _ Htx).
    unfold tx_blocks. rewrite Hz. apply not_elem_of_empty.
Qed.

End CommitPrefix.

(** ** The run of a recovery *)

Lemma room_empty : (base.size (∅ ∪ ∅ : gset Z) < NBUF)%nat.
Proof. vm_compute. lia. Qed.

(** Reading one block of a quiet cache and releasing it. *)
Lemma read_block_run {Mem A} b (m : Mem) (f : block -> prog Mem A) c :
  quiet c -> Spec.in_range b c -> Spec.dirty c = ∅ ->
  run_spec (bread ROOTDEV b ;; d ← bdata b; brelse b ;; f d) (m, c) =
  run_spec (f (Spec.vw_at b c)) (m, c).
Proof.
  intros [Hh Hl Hc] Hr Hd.
  rewrite run_bread; [|done|rewrite Hh; sets|right; rewrite Hh, Hd; apply room_empty].
  rewrite run_bdata by (specsimpl; sets). rewrite run_brelse; specsimpl; [|sets|].
  - f_equal. f_equal. destruct c; simpl in *. subst. f_equal. sets.
  - right. apply Hc; [apply Hr|]. rewrite Hd. sets.
Qed.

Section RecoverWrites.
Context (st sz : Z) (im : list block) (Hok : disk_ok st sz im).

Let W2 := home_writes (hdr_blocks st im)
  (map (fun i => img_at im (st + Z.of_nat i + 1)) (seq 0 (Z.to_nat (hdr_n st im)))).

Lemma length_hdr_blocks : length (hdr_blocks st im) = Z.to_nat (hdr_n st im).
Proof using. unfold hdr_blocks. by rewrite length_map, length_seq. Qed.

Lemma R2_fst : map fst W2 = hdr_blocks st im.
Proof using. apply map_fst_home. by rewrite length_hdr_blocks, length_map, length_seq. Qed.

Lemma R2_ok : Forall (fun w => 0 <= w.1 < Z.of_nat (length im)) W2.
Proof using Hok.
  apply Forall_forall. intros w Hw. assert (w.1 ∈ map fst W2) as H by (by apply list_elem_of_fmap_2).
  rewrite R2_fst in H. pose proof (d_data _ _ _ Hok) as Hd. rewrite Forall_forall in Hd.
  destruct (Hd _ H). lia.
Qed.

Lemma R2_not b : st <= b < st + sz -> b ∉ map fst W2.
Proof using Hok.
  intros Hb H. rewrite R2_fst in H. pose proof (d_data _ _ _ Hok) as Hd.
  rewrite Forall_forall in Hd. destruct (Hd _ H). lia.
Qed.

End RecoverWrites.

Section Recover.
Context (st sz : Z) (im : list block) (Hok : disk_ok st sz im).
Context (l : log) (Hdev : dev l = ROOTDEV) (Hst : start l = st) (Hsz : size l = sz)
        (Hlen : length (blk (lh l)) = Z.to_nat LOGSIZE).

Let c0 := Spec.fresh im.
Let l1 := set_lh (mklh (hdr_n st im)
  (head_load (Z.to_nat (hdr_n st im)) 0 (img_at im st) (blk (lh l)))) l.

Lemma read_head_run : run_spec read_head (l, c0) = Ok tt (l1, c0).
Proof using Hok Hdev Hst Hsz Hlen.
  unfold read_head. rewrite run_pget, Hdev, Hst. destruct (d_geom _ _ _ Hok).
  assert (Spec.in_range st c0) as Hr by (unfold Spec.in_range, c0; simpl; lia).
  rewrite run_bread; [|done|simpl; sets|right; apply room_empty].
  rewrite run_bdata by (specsimpl; sets). rewrite run_pput, run_spec_tail, run_brelse; specsimpl; [|sets|].
  - simpl. unfold mret, M_ret, c0, Spec.fresh. do 3 f_equal. sets.
  - right. done.
Qed.

Lemma loaded_blocks : tx_blocks l1 = hdr_blocks st im.
Proof using Hok Hdev Hst Hsz Hlen.
  destruct (d_n _ _ _ Hok) as [Hn _]. unfold tx_blocks, l1. cbn [lh set_lh n blk].
  rewrite head_load_eq by (simpl; lia). simpl.
  rewrite take_app_le by (rewrite length_map, length_seq; lia).
  rewrite take_ge by (rewrite length_map, length_seq; lia). done.
Qed.

Lemma loaded_installable : installable l1 c0.
Proof using Hok Hdev Hst Hsz Hlen.
  destruct (d_geom _ _ _ Hok), (d_n _ _ _ Hok) as [Hn1 Hn2].
  split; try rewrite loaded_blocks; unfold l1; cbn [start size lh n set_lh dev]; rewrite ?Hst, ?Hsz.
  - done.
  - apply fresh_quiet.
  - done.
  - done.
  - lia.
  - apply length_hdr_blocks.
  - apply (d_nodup _ _ _ Hok).
  - apply (d_data _ _ _ Hok).
  - by left.
  - apply room_empty.
Qed.

Let W2 := home_writes (hdr_blocks st im)
  (map (fun i => img_at im (st + Z.of_nat i + 1)) (seq 0 (Z.to_nat (hdr_n st im)))).

Lemma recover_run :
  run_spec recover_from_log (l, c0) = Ok tt (set_n 0 l1, wrs (recover_writes st im) c0).
Proof using Hok Hdev Hst Hsz Hlen.
  destruct (d_geom _ _ _ Hok).
  unfold recover_from_log. rewrite run_spec_bind_ok with (1 := read_head_run).
  rewrite run_spec_bind_ok with (1 := install_trans_run l1 c0 loaded_installable).
  assert (home_writes (tx_blocks l1) (log_contents l1 c0) = W2) as ->.
  { rewrite loaded_blocks. unfold log_contents, W2. f_equal. cbn. by rewrite Hst. }
  assert (start l1 = st) as Hst1 by done.
  rewrite run_pmod, write_head_run; change (start (set_n 0 l1)) with (start l1); rewrite ?Hst1.
  - unfold recover_writes. fold W2. rewrite wrs_app. cbn [wrs foldl fst snd].
    rewrite vw_at_wrs, img_at_writes_ne; [|lia| |apply (R2_not st sz im Hok); lia].
    + done.
    + apply (R2_ok st sz im Hok).
  - done.
  - apply quiet_wrs; [apply (R2_ok st sz im Hok)|apply fresh_quiet].
  - unfold Spec.in_range. rewrite wrs_img, length_apply_writes. simpl. lia.
  - rewrite wrs_dirty. simpl. sets.
  - rewrite wrs_dirty. change (Spec.dirty c0) with (∅ : gset Z).
    rewrite (difference_disjoint_L ∅) by sets. apply room_empty.
Qed.

End Recover.

(** ** The disks that a crash during a recovery can leave *)

Section RecoverPrefix.
Context (st sz : Z) (im : list block) (Hok : disk_ok st sz im).

Let W2 := home_writes (hdr_blocks st im)
  (map (fun i => img_at im (st + Z.of_nat i + 1)) (seq 0 (Z.to_nat (hdr_n st im)))).

Lemma installing_log_area k b : st <= b < st + sz ->
  img_at (apply_writes (take k W2) im) b = img_at im b.
Proof using Hok.
  intros Hb. destruct (d_geom _ _ _ Hok). apply img_at_writes_ne; [lia| |].
  - apply Forall_take, (R2_ok st sz im Hok).
  - intros H. apply elem_map_take in H. revert H. by apply (R2_not st sz im Hok).
Qed.

Lemma installing_other k b : 0 <= b -> b ∉ hdr_blocks st im ->
  img_at (apply_writes (take k W2) im) b = img_at im b.
Proof using Hok.
  intros Hb Hn. apply img_at_writes_ne; [done| |].
  - apply Forall_take, (R2_ok st sz im Hok).
  - intros H. apply elem_map_take in H. unfold W2 in H. by rewrite (R2_fst st im) in H.
Qed.

Lemma installed_home i b : hdr_blocks st im !! i = Some b ->
  img_at (apply_writes W2 im) b = img_at im (st + Z.of_nat i + 1).
Proof using Hok.
  intros Hi. eapply img_at_writes_eq with (i := i); [apply (R2_ok st sz im Hok)| |].
  - unfold W2. rewrite (R2_fst st im). apply (d_nodup _ _ _ Hok).
  - unfold W2, home_writes. apply lookup_zip_with_Some. eexists b, _. split_and!; [done|done|].
    pose proof (lookup_lt_Some _ _ _ Hi) as Hlt. rewrite length_hdr_blocks in Hlt.
    rewrite list_lookup_fmap, lookup_seq_lt by done. done.
Qed.

Lemma hdr_block_index i b : hdr_blocks st im !! i = Some b ->
  st <= st + Z.of_nat i + 1 < st + sz.
Proof using Hok.
  intros Hi. pose proof (lookup_lt_Some _ _ _ Hi) as Hlt. rewrite length_hdr_blocks in Hlt.
  destruct (d_n _ _ _ Hok). lia.
Qed.

Lemma recover_prefix_install k :
  disk_ok st sz (apply_writes (take k W2) im) /\ same_logical st sz im (apply_writes (take k W2) im).
Proof using Hok.
  destruct (d_geom _ _ _ Hok) as [H1 H2 H3 H4 H5].
  destruct (hdr_same im (apply_writes (take k W2) im) st) as [En Eb];
    [apply installing_log_area; lia|].
  split.
  - split; rewrite ?En, ?Eb, ?length_apply_writes; try apply Hok.
    split; rewrite ?length_apply_writes; try done. rewrite installing_log_area by lia. done.
  - intros b Hb Hnl. unfold logical. rewrite Eb.
    destruct (index_of b (hdr_blocks st im)) as [i|] eqn:Hi.
    + apply index_of_spec, hdr_block_index in Hi. by apply installing_log_area.
    + apply index_of_none in Hi. by apply installing_other.
Qed.

Lemma recover_prefix_done :
  let im' := apply_writes (recover_writes st im) im in
  disk_ok st sz im' /\ same_logical st sz im im' /\ hdr_n st im' = 0.
Proof using Hok.
  intros im'. destruct (d_geom _ _ _ Hok) as [H1 H2 H3 H4 H5].
  set (x := put32 0 0 (img_at im st)).
  assert (im' = <[Z.to_nat st := x]> (apply_writes W2 im)) as Him
    by (unfold im', recover_writes; by rewrite apply_writes_app).
  assert (length (apply_writes W2 im) = length im) as Hl by apply length_apply_writes.
  assert (img_at im' st = x) as Eh by (rewrite Him, img_at_insert, decide_True; [done|done|lia|lia]).
  assert (hdr_n st im' = 0) as Hz
    by (apply (hdr_n_zero (img_at im st)); [rewrite H4; unfold BSIZE; lia|done]).
  split_and!; [| |done].
  - apply disk_ok_empty; [|done]. unfold im'. split; rewrite ?length_apply_writes; try done.
    fold im'. rewrite Eh. unfold x. rewrite length_put32; [done|rewrite H4; unfold BSIZE; lia].
  - intros b Hb Hnl. rewrite logical_nil by done.
    rewrite Him, img_at_insert, decide_False by lia. unfold logical.
    destruct (index_of b (hdr_blocks st im)) as [i|] eqn:Hi.
    + apply index_of_spec in Hi. by apply installed_home.
    + apply index_of_none in Hi. rewrite <- (take_ge W2 (length W2)) by done.
      by apply installing_other.
Qed.

Lemma recover_prefix k :
  let im' := apply_writes (take k (recover_writes st im)) im in
  disk_ok st sz im' /\ same_logical st sz im im'.
Proof using Hok.
  intros im'. unfold im'. destruct (decide (k <= length W2)%nat) as [Hk|Hk].
  - unfold recover_writes. fold W2. rewrite take_app_le by done. apply recover_prefix_install.
  - rewrite take_ge.
    + destruct recover_prefix_done as (? & ? & _). done.
    + unfold recover_writes. fold W2. rewrite length_app. simpl. lia.
Qed.

End RecoverPrefix.

(** ** Booting *)

(** The superblock, in block 1, places the log. *)
Definition sb_ok (st sz : Z) (im : list block) : Prop :=
  2 <= Z.of_nat (length im) /\
  sb_logstart (decode_sb (img_at im 1)) = st /\ sb_nlog (decode_sb (img_at im 1)) = sz.

(** [struct log log] before [initlog]: zeroed static storage. *)
Definition log0 : log := mklog 0 0 0 0 0 (mklh 0 (replicate (Z.to_nat LOGSIZE) 0)).

Lemma readsb_run {Mem} (m : Mem) im : 2 <= Z.of_nat (length im) ->
  run_spec (readsb ROOTDEV) (m, Spec.fresh im) = Ok (decode_sb (img_at im 1)) (m, Spec.fresh im).
Proof.
  intros Hl. unfold readsb.
  rewrite (read_block_run 1 m (fun d => mret (decode_sb d))); [done|apply fresh_quiet| |done].
  unfold Spec.in_range. simpl. lia.
Qed.

Lemma initlog_run st sz im :
  sb_ok st sz im -> disk_ok st sz im ->
  exists l', run_spec (initlog ROOTDEV) (log0, Spec.fresh im) =
    Ok tt (l', wrs (recover_writes st im) (Spec.fresh im)) /\
    start l' = st /\ size l' = sz /\ n (lh l') = 0 /\ dev l' = ROOTDEV.
Proof.
  intros (Hl & Hs & Hz) Hok. unfold initlog.
  change (sizeof_logheader >=? Z.of_nat BSIZE) with false. cbv iota.
  rewrite run_spec_bind_ok with (1 := readsb_run log0 im Hl). rewrite run_pmod, Hs, Hz.
  rewrite (recover_run st sz im Hok); [|done..]. by eexists.
Qed.

Lemma logical_low st sz im b : disk_ok st sz im -> b < 2 -> logical st im b = img_at im b.
Proof.
  intros Hok Hb. unfold logical. destruct (index_of b (hdr_blocks st im)) as [i|] eqn:Hi; [|done].
  apply index_of_spec in Hi. pose proof (Forall_lookup_1 _ _ _ _ (d_data _ _ _ Hok) Hi) as [? _]. lia.
Qed.

(** The machine boots on the image [im]: [binit], then [initlog]. *)
Definition boot_recover (im : list block) (p : Z) : outcome (log * gmap Z nat * Bio.state) unit :=
  match Bio.binit (Bio.boot im p) with
  | Ok _ s => run_bio (initlog ROOTDEV) (log0, ∅, s)
  | Panic msg => Panic msg
  | _ => NoFuel
  end.

(** A recovery on [im] is interrupted after some of its writes. *)
Definition crash_recover (im im' : list block) : Prop :=
  exists p l e s k, boot_recover im p = Ok tt (l, e, s) /\
    im' = apply_writes (take k (Bio.trace (Bio.dsk s))) im.

Lemma fresh_RR im s : R s (Spec.fresh im) -> RR ∅ s (Spec.fresh im).
Proof.
  intros HR. split; [exact HR|]. intros b Hb. exfalso.
  exact (not_elem_of_empty (C := gset Z) b Hb).
Qed.

#[local] Opaque Bio.binit.

Lemma boot_recover_run st sz im p : sb_ok st sz im -> disk_ok st sz im ->
  exists l e s, boot_recover im p = Ok tt (l, e, s) /\
    Bio.trace (Bio.dsk s) = recover_writes st im /\
    Bio.memdisk (Bio.dsk s) = apply_writes (recover_writes st im) im /\
    start l = st /\ size l = sz /\ n (lh l) = 0.
Proof.
  intros Hsb Hok. destruct (binit_sim im p) as (s0 & E0 & HR & _). unfold boot_recover. rewrite E0.
  destruct (initlog_run st sz im Hsb Hok) as (l' & El & Hs & Hz & Hn & _).
  pose proof (fresh_RR im s0 HR) as HRR.
  pose proof (run_refines (initlog ROOTDEV) log0 _ ∅ s0 HRR) as H. rewrite El in H.
  destruct H as (e & s & E & [HR' _]). exists l', e, s. split; [done|].
  rewrite (R_tr _ _ HR'), (R_img _ _ HR'), wrs_tr, wrs_img. split_and!; done.
Qed.

#[local] Opaque boot_recover.

(** What every disk that a crash can leave has in common. *)
Definition recoverable (st sz : Z) (im im' : list block) : Prop :=
  disk_ok st sz im' /\ sb_ok st sz im' /\ same_logical st sz im im' /\ length im' = length im.

Lemma recoverable_writes st sz im im' ws :
  recoverable st sz im im' -> disk_ok st sz (apply_writes ws im') ->
  same_logical st sz im' (apply_writes ws im') -> recoverable st sz im (apply_writes ws im').
Proof.
  intros (Hok & (Hs1 & Hs2 & Hs3) & Hl & Hlen) Hok' Hl'. split_and!; [done| | |].
  - pose proof (Hl' 1 ltac:(lia) ltac:(destruct (d_geom _ _ _ Hok); lia)) as H1.
    rewrite !(logical_low st sz) in H1 by (done || lia).
    unfold sb_ok. by rewrite length_apply_writes, H1.
  - intros b Hb Hn. by rewrite Hl', Hl.
  - by rewrite length_apply_writes.
Qed.

Lemma crash_recover_inv st sz im im1 im2 :
  recoverable st sz im im1 -> rtc crash_recover im1 im2 -> recoverable st sz im im2.
Proof.
  intros HI H. induction H as [|im1 im3 im2 (p & l & e & s & k & E & ->) _ IH]; [done|].
  apply IH. destruct HI as (Hok & Hsb & Hl & Hlen).
  destruct (boot_recover_run st sz im1 p Hsb Hok) as (l' & e' & s' & E' & Ht & _).
  rewrite E in E'. injection E' as _ _ ->. rewrite Ht.
  destruct (recover_prefix st sz im1 Hok k) as [Hok' Hl'].
  apply (recoverable_writes st sz im im1); [exact (conj Hok (conj Hsb (conj Hl Hlen)))|exact Hok'|exact Hl'].
Qed.

(** No commit touches the superblock. *)
Lemma commit_prefix_sb l c k : tx l c -> 0 < n (lh l) -> sb_ok (start l) (size l) (Spec.img c) ->
  sb_ok (start l) (size l) (apply_writes (take k (commit_writes l c)) (Spec.img c)).
Proof.
  intros Htx Hpos (Hs1 & Hs2 & Hs3). destruct (commit_prefix l c Htx k Hpos) as [Hok Hlog].
  pose proof (g_start _ _ _ (tx_geom _ _ Htx)).
  specialize (Hlog 1 ltac:(lia) ltac:(lia)). rewrite (logical_low _ _ _ _ Hok) in Hlog by lia.
  assert (Spec.vw_at 1 c = img_at (Spec.img c) 1) as Ev.
  { apply (q_clean _ (tx_quiet _ _ Htx)); [lia|]. rewrite (tx_dirty _ _ Htx), elem_of_list_to_set.
    intros Hin. pose proof (tx_data _ _ Htx) as Hd. rewrite Forall_forall in Hd.
    destruct (Hd _ Hin). lia. }
  unfold sb_ok. rewrite length_apply_writes, Hlog, Ev. destruct (decide _); split_and!; assumption.
Qed.

(** After a crash in a commit recovery finds the blocks of before or after it. *)
Lemma commit_recovers l c k im p :
  tx l c -> 0 < n (lh l) -> sb_ok (start l) (size l) (Spec.img c) ->
  rtc crash_recover (apply_writes (take k (commit_writes l c)) (Spec.img c)) im ->
  exists lf ef sf, boot_recover im p = Ok tt (lf, ef, sf) /\ n (lh lf) = 0 /\
    forall b, 0 <= b -> ~ (start l <= b < start l + size l) ->
      img_at (Bio.memdisk (Bio.dsk sf)) b =
        if decide (Z.of_nat k <= n (lh l)) then img_at (Spec.img c) b else Spec.vw_at b c.
Proof.
  intros Htx Hpos Hsb Hrtc. destruct (commit_prefix l c Htx k Hpos) as [Hok Hlog].
  set (im1 := apply_writes (take k (commit_writes l c)) (Spec.img c)) in *.
  assert (recoverable (start l) (size l) im1 im1) as HI.
  { split; [exact Hok|split; [|split; [intros ? ? ?; reflexivity|reflexivity]]].
    by apply commit_prefix_sb. }
  destruct (crash_recover_inv _ _ _ _ _ HI Hrtc) as (Hok2 & Hsb2 & Hl2 & _).
  destruct (boot_recover_run _ _ im p Hsb2 Hok2) as (lf & ef & sf & Ef & Ht & Hm & _ & _ & Hn).
  exists lf, ef, sf. split; [exact Ef|split; [exact Hn|]]. intros b Hb Hnl.
  destruct (recover_prefix_done _ _ im Hok2) as (_ & Hl3 & Hz).
  rewrite Hm, <- (logical_nil _ (start l)) by exact Hz. rewrite Hl3, Hl2, Hlog by assumption. reflexivity.
Qed.

(** C12.  Crash atomicity of a commit, on the concrete buffer cache.  A commit
    interrupted after any number of its block writes, followed by any number
    of recoveries that are themselves interrupted and by one that completes,
    leaves every block outside the log with the contents from before the
    transaction if the header had not been written, and with the contents
    from after it otherwise; the recovery never panics, sleeps or diverges. *)
Theorem commit_crash_atomic l c e s :
  tx l c -> 0 < n (lh l) -> RR e s c -> sb_ok (start l) (size l) (Bio.memdisk (Bio.dsk s)) ->
  exists l' e' s' ws,
    run_bio commit (l, e, s) = Ok tt (l', e', s') /\
    Bio.trace (Bio.dsk s') = Bio.trace (Bio.dsk s) ++ ws /\
    (forall k im p, rtc crash_recover (apply_writes (take k ws) (Bio.memdisk (Bio.dsk s))) im ->
     exists lf ef sf, boot_recover im p = Ok tt (lf, ef, sf) /\ n (lh lf) = 0 /\
       forall b, 0 <= b -> ~ (start l <= b < start l + size l) ->
         img_at (Bio.memdisk (Bio.dsk sf)) b =
           if decide (Z.of_nat k <= n (lh l)) then img_at (Bio.memdisk (Bio.dsk s)) b
           else Spec.vw_at b c).
Proof.
  intros Htx Hpos HRR Hsb. pose proof (run_refines commit l c e s HRR) as Href.
  rewrite (commit_run l c Htx) in Href. destruct Href as (e' & s' & E & [HR' _]).
  destruct HRR as [HR _]. exists (set_n 0 l), e', s', (commit_writes l c).
  rewrite (R_tr _ _ HR'), (R_tr _ _ HR), wrs_tr, (R_img _ _ HR) in *.
  split; [exact E|split; [reflexivity|]]. intros k im p. by apply commit_recovers.
Qed.

(** ** A concrete transaction *)

Module Example.

(** Forty blocks: boot block, superblock, log in blocks 2 to 32, data. *)
Definition sb_block : block :=
  put32 16 2 (put32 12 31 (replicate BSIZE 0)).
Definition disk0 : list block :=
  replicate BSIZE 0 :: sb_block :: replicate 38 (replicate BSIZE 0).
Definition new_data : block := replicate BSIZE 7.

(** A system call that rewrites block 35. *)
Definition sys_rewrite : prog log unit :=
  initlog ROOTDEV ;; begin_op ;;
  bread ROOTDEV 35 ;; bset 35 new_data ;; log_write 35 ;; brelse 35 ;;
  pmod (fun l => set_committing 1 (set_outstanding (outstanding l - 1) l)).

Definition tx_log : log := mklog 2 31 0 1 ROOTDEV (mklh 1 (35 :: replicate 29 0)).
Definition tx_cache : Spec.cache :=
  Spec.mkc (<[35%nat := new_data]> disk0) disk0 [(2, replicate BSIZE 0)] {[35]} ∅.

Lemma sys_rewrite_run : run_spec sys_rewrite (log0, Spec.fresh disk0) = Ok tt (tx_log, tx_cache).
Proof. vm_compute. reflexivity. Qed.

Lemma example_tx : tx tx_log tx_cache.
Proof.
  split.
  - done.
  - split; [done|done|]. intros b Hb Hn.
    unfold Spec.vw_at, Spec.img_at, tx_cache. cbn [Spec.vw Spec.img].
    rewrite list_lookup_insert_ne; [done|]. cbn in Hn. set_unfold. lia.
  - split; vm_compute; congruence.
  - vm_compute. split; [split|]; congruence.
  - done.
  - change (tx_blocks tx_log) with [35]. apply NoDup_singleton.
  - change (tx_blocks tx_log) with [35]. apply Forall_singleton. unfold data_block. simpl. lia.
  - change (tx_blocks tx_log) with [35]. cbn. set_solver.
  - by vm_compute.
Qed.

End Example.

Import Example.

(** The theorem applied to that transaction. *)
Lemma commit_crash_atomic_witness : exists e s, RR e s tx_cache /\
  exists l' e' s' ws,
    run_bio commit (tx_log, e, s) = Ok tt (l', e', s') /\
    Bio.trace (Bio.dsk s') = Bio.trace (Bio.dsk s) ++ ws /\
    (forall k im p, rtc crash_recover (apply_writes (take k ws) (Bio.memdisk (Bio.dsk s))) im ->
     exists lf ef sf, boot_recover im p = Ok tt (lf, ef, sf) /\ n (lh lf) = 0 /\
       forall b, 0 <= b -> ~ (2 <= b < 2 + 31) ->
         img_at (Bio.memdisk (Bio.dsk sf)) b =
           if decide (Z.of_nat k <= 1) then img_at (Bio.memdisk (Bio.dsk s)) b
           else Spec.vw_at b tx_cache).
Proof.
  destruct (binit_sim disk0 1) as (s0 & _ & HR & _).
  pose proof (run_refines sys_rewrite log0 _ ∅ s0 (fresh_RR _ _ HR)) as H.
  rewrite sys_rewrite_run in H. destruct H as (e & s & _ & HRR'). exists e, s.
  split; [exact HRR'|].
  assert (sb_ok 2 31 (Bio.memdisk (Bio.dsk s))) as Hsb
    by (rewrite (R_img _ _ (proj1 HRR')); vm_compute; repeat split; congruence).
  exact (commit_crash_atomic tx_log tx_cache e s example_tx eq_refl HRR' Hsb).
Defined.
