(* ===== verification/LogOps.v ===== *)
(** * File-system operations on the log (begin_op, log_write, end_op)

    A transition system in which the active file-system operations call the
    functions of log.c in any order.  [log_inv] is the invariant that the
    admission test of [begin_op] maintains; it gives the precondition [tx] of
    a commit when the last operation ends. *)

From S2P Require Import Prelude Spinlock Bio BioSpec BlockProg Log LogCrash Recovery.
Import Log.

(** The blocks logged by each active operation, the log and the cache. *)
Record sys := mksys { ops : list (gset Z); mem : log; cache : Spec.cache }.

(** Blocks that the active operations may still add to the header. *)
Definition reserve (os : list (gset Z)) : Z :=
  foldr Z.add 0 (map (fun s : gset Z => MAXOPBLOCKS - Z.of_nat (base.size s)) os).

Section Operations.
(** Every operation stays [slack] blocks below MAXOPBLOCKS. *)
Context (slack : Z) (Hslack : 1 <= slack).

Definition within (s : gset Z) : Prop := Z.of_nat (base.size s) + slack <= MAXOPBLOCKS.

Inductive step : sys -> sys -> Prop :=
| step_begin os l c l' c' :
    run_spec begin_op (l, c) = Ok tt (l', c') ->
    step (mksys os l c) (mksys (∅ :: os) l' c')
| step_read os l c l' c' b :
    run_spec (bread ROOTDEV b) (l, c) = Ok tt (l', c') ->
    step (mksys os l c) (mksys os l' c')
| step_modify os l c l' c' b d :
    run_spec (bset b d) (l, c) = Ok tt (l', c') ->
    step (mksys os l c) (mksys os l' c')
| step_log os l c l' c' i s b :
    os !! i = Some s -> within ({[b]} ∪ s) ->
    data_block (start l) (size l) (length (Spec.img c)) b ->
    run_spec (log_write b) (l, c) = Ok tt (l', c') ->
    step (mksys os l c) (mksys (<[i := {[b]} ∪ s]> os) l' c')
| step_release os l c l' c' b :
    run_spec (brelse b) (l, c) = Ok tt (l', c') ->
    step (mksys os l c) (mksys os l' c')
| step_end os l c l' c' i s :
    os !! i = Some s -> (length os = 1%nat -> Spec.held c = ∅) ->
    run_spec end_op (l, c) = Ok tt (l', c') ->
    step (mksys os l c) (mksys (delete i os) l' c').

Record log_inv (y : sys) : Prop := {
  v_dev : dev (mem y) = ROOTDEV;
  v_geom : geometry (start (mem y)) (size (mem y)) (Spec.img (cache y));
  v_size : LOGSIZE + 2 <= size (mem y) + slack;
  v_out : outstanding (mem y) = Z.of_nat (length (ops y));
  v_idle : committing (mem y) = 0;
  v_n : 0 <= n (lh (mem y)) <= LOGSIZE - slack;
  v_len : length (blk (lh (mem y))) = Z.to_nat LOGSIZE;
  v_nodup : NoDup (tx_blocks (mem y));
  v_data : Forall (data_block (start (mem y)) (size (mem y)) (length (Spec.img (cache y)))) (tx_blocks (mem y));
  v_dirty : Spec.dirty (cache y) = list_to_set (tx_blocks (mem y));
  v_empty : hdr_n (start (mem y)) (Spec.img (cache y)) = 0;
  v_vlen : length (Spec.vw (cache y)) = length (Spec.img (cache y));
  v_clean : forall b, 0 <= b -> b ∉ Spec.dirty (cache y) -> b ∉ Spec.held (cache y) ->
    Spec.vw_at b (cache y) = Spec.img_at b (cache y);
  v_held : forall b, b ∈ Spec.held (cache y) -> Spec.in_range b (cache y);
  v_ops : Forall (fun s : gset Z => within s /\ s ⊆ Spec.dirty (cache y)) (ops y);
  v_room : n (lh (mem y)) + reserve (ops y) <= LOGSIZE
}.

(** ** Arithmetic of the reservations *)

Lemma reserve_app os os' : reserve (os ++ os') = reserve os + reserve os'.
Proof.
  unfold reserve. rewrite map_app. induction (map _ os) as [|x xs IH]; simpl; lia.
Qed.

Lemma reserve_split os i s : os !! i = Some s ->
  reserve os = reserve (take i os) + (MAXOPBLOCKS - Z.of_nat (base.size s)) + reserve (drop (S i) os).
Proof.
  intros H. rewrite <- (take_drop_middle os i s H) at 1. rewrite reserve_app. cbn. unfold reserve. lia.
Qed.

Lemma reserve_insert os i s s' : os !! i = Some s ->
  reserve (<[i := s']> os) = reserve os + Z.of_nat (base.size s) - Z.of_nat (base.size s').
Proof.
  intros H. pose proof (lookup_lt_Some _ _ _ H).
  rewrite (reserve_split os i s H), (reserve_split (<[i:=s']> os) i s')
    by (by apply list_lookup_insert_eq).
  rewrite take_insert_ge, drop_insert_lt by lia. lia.
Qed.

Lemma reserve_delete os i s : os !! i = Some s ->
  reserve (delete i os) = reserve os - (MAXOPBLOCKS - Z.of_nat (base.size s)).
Proof.
  intros H. rewrite (reserve_split os i s H), delete_take_drop, reserve_app. lia.
Qed.

Lemma reserve_ge os i s : Forall within os -> os !! i = Some s ->
  MAXOPBLOCKS - Z.of_nat (base.size s) <= reserve os.
Proof.
  intros Hw H. rewrite (reserve_split os i s H).
  assert (forall l, Forall within l -> 0 <= reserve l) as Hp.
  { intros l Hl. induction Hl as [|x l Hx _ IH]; [done|]. cbn. unfold within, reserve in *. lia. }
  pose proof (Hp _ (Forall_take _ i os Hw)). pose proof (Hp _ (Forall_drop _ (S i) os Hw)). lia.
Qed.

Lemma reserve_le os : reserve os <= MAXOPBLOCKS * Z.of_nat (length os).
Proof. unfold reserve. induction os as [|s os IH]; cbn in *; lia. Qed.

(** ** The search of [log_write] *)

Lemma log_index_spec k i bl b : 0 <= i -> (Z.to_nat i + k <= length bl)%nat ->
  (exists j, i <= j < i + Z.of_nat k /\ log_index k i bl b = j /\ aget 0 bl j = b) \/
  (log_index k i bl b = i + Z.of_nat k /\ b ∉ take k (drop (Z.to_nat i) bl)).
Proof.
  revert i. induction k as [|k IH]; intros i Hi Hk; simpl.
  - right. split; [lia|]. rewrite take_0. apply not_elem_of_nil.
  - destruct (lookup_lt_is_Some_2 bl (Z.to_nat i)) as [x Hx]; [lia|].
    rewrite (aget_lookup 0 bl i x Hx Hi).
    destruct (Z.eqb_spec x b) as [->|Hne].
    + left. exists i. split_and!; [lia|lia|done|]. by apply aget_lookup.
    + rewrite (drop_S _ x _ Hx). replace (S (Z.to_nat i)) with (Z.to_nat (i + 1)) by lia.
      destruct (IH (i + 1)) as [(j & Hj & E & Ej)|[E Hn]]; [lia|lia| |].
      * left. exists j. split_and!; [lia|lia|done|done].
      * right. split; [lia|]. rewrite firstn_cons. apply not_elem_of_cons. done.
Qed.

(** The header after [log_write b]: [b] is appended unless it is there. *)
Lemma log_index_tx l b : length (blk (lh l)) = Z.to_nat LOGSIZE -> 0 <= n (lh l) < LOGSIZE ->
  let i := log_index (Z.to_nat (n (lh l))) 0 (blk (lh l)) b in
  let l' := set_lh (mklh (if i =? n (lh l) then n (lh l) + 1 else n (lh l)) (aset (blk (lh l)) i b)) l in
  (b ∈ tx_blocks l /\ l' = l) \/
  (b ∉ tx_blocks l /\ n (lh l') = n (lh l) + 1 /\ tx_blocks l' = tx_blocks l ++ [b] /\
   length (blk (lh l')) = Z.to_nat LOGSIZE).
Proof.
  intros Hl Hn i l'. unfold LOGSIZE, MAXOPBLOCKS in *.
  destruct (log_index_spec (Z.to_nat (n (lh l))) 0 (blk (lh l)) b) as [(j & Hj & E & Ej)|[E Hnin]];
    [lia|lia| |]; fold i in E.
  - left. rewrite Z2Nat.id in Hj by lia.
    destruct (lookup_lt_is_Some_2 (blk (lh l)) (Z.to_nat j)) as [x Hx]; [lia|].
    rewrite (aget_lookup 0 _ _ _ Hx) in Ej by lia. subst x. split.
    + apply list_elem_of_lookup. exists (Z.to_nat j). unfold tx_blocks.
      by rewrite lookup_take_lt by lia.
    + unfold l'. rewrite E, (proj2 (Z.eqb_neq _ _)) by lia. unfold aset.
      destruct (Z.ltb_spec j 0); [lia|]. rewrite list_insert_id by done.
      destruct l as [? ? ? ? ? []]. done.
  - right. rewrite Z2Nat.id, Z.add_0_l in E by lia. simpl in Hnin. rewrite drop_0 in Hnin.
    split; [done|]. unfold l'. rewrite E, Z.eqb_refl. cbn [n blk lh set_lh tx_blocks].
    split_and!; [done| |by rewrite length_aset].
    unfold tx_blocks. cbn [n blk lh set_lh]. unfold aset. destruct (Z.ltb_spec (n (lh l)) 0); [lia|].
    replace (Z.to_nat (n (lh l) + 1)) with (S (Z.to_nat (n (lh l)))) by lia.
    rewrite (take_S_r _ _ b) by (apply list_lookup_insert_eq; lia).
    by rewrite take_insert_ge by lia.
Qed.

(** ** Preservation of the invariant *)

Lemma inv_quiet y : log_inv y -> Spec.held (cache y) = ∅ -> quiet (cache y).
Proof.
  intros Hv Hh. split; [done|apply (v_vlen _ Hv)|]. intros b Hb Hd.
  apply (v_clean _ Hv); [done|done|]. rewrite Hh. apply not_elem_of_empty.
Qed.

(** When nothing is held the log can be committed. *)
Lemma inv_tx y o k : log_inv y -> Spec.held (cache y) = ∅ ->
  tx (set_committing k (set_outstanding o (mem y))) (cache y).
Proof.
  intros Hv Hh. pose proof (v_n _ Hv). pose proof (v_size _ Hv).
  split; cbn [dev start size lh set_committing set_outstanding].
  - apply (v_dev _ Hv).
  - by apply inv_quiet.
  - apply (v_geom _ Hv).
  - unfold LOGSIZE, MAXOPBLOCKS, NBUF in *. lia.
  - apply (v_len _ Hv).
  - apply (v_nodup _ Hv).
  - apply (v_data _ Hv).
  - apply (v_dirty _ Hv).
  - apply (v_empty _ Hv).
Qed.

Lemma begin_op_run l c : committing l = 0 ->
  run_spec begin_op (l, c) =
    if n (lh l) + (outstanding l + 1) * MAXOPBLOCKS <=? LOGSIZE
    then Ok tt (set_outstanding (outstanding l + 1) l, c) else Asleep (l, c).
Proof.
  intros Hc. unfold begin_op. rewrite run_pget, Hc. cbn [negb Z.eqb].
  destruct (Z.leb_spec (n (lh l) + (outstanding l + 1) * MAXOPBLOCKS) LOGSIZE) as [H|H].
  - by rewrite Z.gtb_ltb, (proj2 (Z.ltb_ge _ _)) by lia.
  - by rewrite Z.gtb_ltb, (proj2 (Z.ltb_lt _ _)) by lia.
Qed.

Lemma bread_ok_inv {Mem} (l l' : Mem) c c' b :
  run_spec (bread ROOTDEV b) (l, c) = Ok tt (l', c') ->
  l' = l /\ Spec.in_range b c /\ c' = add_held b c.
Proof.
  cbn. unfold lift_spec, Spec.bread, nofuel, asleep. msimpl.
  case_bool_decide as Hr; [intros E; discriminate E|].
  case_bool_decide; [intros E; discriminate E|].
  case_bool_decide; [intros E; discriminate E|]. cbn. intros E. injection E as <- <-. split_and!; [done| |done].
  destruct (decide (Spec.in_range b c)); [done|exfalso; tauto].
Qed.

Lemma bset_ok_inv {Mem} (l l' : Mem) c c' b d :
  run_spec (bset b d) (l, c) = Ok tt (l', c') ->
  l' = l /\ b ∈ Spec.held c /\
  c' = Spec.mkc (<[Z.to_nat b := d]> (Spec.vw c)) (Spec.img c) (Spec.tr c) (Spec.dirty c) (Spec.held c).
Proof.
  cbn. unfold lift_spec, Spec.set_data, nofuel. msimpl. case_bool_decide; [|intros E; discriminate E].
  cbn. intros E. injection E as <- <-. done.
Qed.

Lemma brelse_ok_inv {Mem} (l l' : Mem) c c' b :
  run_spec (brelse b) (l, c) = Ok tt (l', c') ->
  l' = l /\ (b ∈ Spec.dirty c \/ Spec.vw_at b c = Spec.img_at b c) /\
  c' = Spec.mkc (Spec.vw c) (Spec.img c) (Spec.tr c) (Spec.dirty c) (Spec.held c ∖ {[b]}).
Proof.
  cbn. unfold lift_spec, Spec.brelse, nofuel. msimpl. case_bool_decide as H; [|intros E; discriminate E].
  cbn. intros E. injection E as <- <-. split_and!; tauto.
Qed.

Lemma bdirty_run {Mem} (l : Mem) c b :
  run_spec (bdirty b) (l, c) =
    if bool_decide (b ∈ Spec.held c)
    then Ok tt (l, Spec.mkc (Spec.vw c) (Spec.img c) (Spec.tr c) ({[b]} ∪ Spec.dirty c) (Spec.held c))
    else NoFuel.
Proof. cbn. unfold lift_spec, Spec.mark_dirty, nofuel. msimpl. by case_bool_decide. Qed.

(** The header that [log_write b] leaves. *)
Definition logged (b : Z) (l : log) : log :=
  let i := log_index (Z.to_nat (n (lh l))) 0 (blk (lh l)) b in
  set_lh (mklh (if i =? n (lh l) then n (lh l) + 1 else n (lh l)) (aset (blk (lh l)) i b)) l.

Lemma log_space y i s b : log_inv y -> ops y !! i = Some s -> within ({[b]} ∪ s) ->
  n (lh (mem y)) <= LOGSIZE - slack /\ (b ∉ s -> n (lh (mem y)) < LOGSIZE - slack).
Proof using Hslack.
  intros Hv Hi Hw. split; [apply (v_n _ Hv)|]. intros Hn.
  assert (Forall within (ops y)) as Hall
    by (eapply Forall_impl; [apply (v_ops _ Hv)|]; by intros ? [? _]).
  pose proof (reserve_ge _ _ _ Hall Hi). pose proof (v_room _ Hv).
  unfold within in Hw. rewrite size_union, size_singleton in Hw by set_solver. lia.
Qed.

Lemma log_write_run y i s b : log_inv y -> ops y !! i = Some s -> within ({[b]} ∪ s) ->
  run_spec (log_write b) (mem y, cache y) = run_spec (bdirty b) (logged b (mem y), cache y).
Proof using Hslack.
  intros Hv Hi Hw. destruct (log_space y i s b Hv Hi Hw) as [Hn _].
  pose proof (v_size _ Hv). pose proof (lookup_lt_Some _ _ _ Hi). pose proof (v_out _ Hv).
  unfold log_write. rewrite run_pget.
  destruct (Z.geb_spec (n (lh (mem y))) LOGSIZE); [lia|].
  destruct (Z.geb_spec (n (lh (mem y))) (size (mem y) - 1)); [lia|]. cbn [orb].
  destruct (Z.ltb_spec (outstanding (mem y)) 1); [lia|]. by rewrite run_pput.
Qed.

Lemma end_op_run y i s : log_inv y -> ops y !! i = Some s ->
  (length (ops y) = 1%nat -> Spec.held (cache y) = ∅) ->
  run_spec end_op (mem y, cache y) =
    if decide (length (ops y) = 1%nat)
    then let l := set_committing 1 (set_outstanding 0 (mem y)) in
         Ok tt (set_n 0 (set_outstanding 0 (mem y)), wrs (commit_writes l (cache y)) (cache y))
    else Ok tt (set_outstanding (outstanding (mem y) - 1) (mem y), cache y).
Proof using Hslack.
  intros Hv Hi Hh. pose proof (v_out _ Hv) as Ho. pose proof (lookup_lt_Some _ _ _ Hi).
  unfold end_op. rewrite run_pmod, run_pget. cbn [committing outstanding set_outstanding].
  rewrite (v_idle _ Hv). cbn [negb Z.eqb]. rewrite Ho. case_decide as E.
  - rewrite E in *. change (Z.of_nat 1 - 1) with 0. change (0 =? 0) with true. cbv iota.
    rewrite run_pput. pose proof (inv_tx y 0 1 Hv (Hh eq_refl)) as Htx.
    rewrite run_spec_bind_ok with (1 := commit_run _ _ Htx).
    cbn. unfold mret, M_ret. do 3 f_equal. unfold set_committing, set_n, set_lh, set_outstanding. cbn.
    by rewrite (v_idle _ Hv).
  - destruct (Z.eqb_spec (Z.of_nat (length (ops y)) - 1) 0); [lia|]. done.
Qed.

(** Operations that leave the log alone and only hold, change or release
    a buffer. *)
Lemma inv_cache y c' : log_inv y ->
  Spec.img c' = Spec.img (cache y) -> Spec.dirty c' = Spec.dirty (cache y) ->
  length (Spec.vw c') = length (Spec.img c') ->
  (forall b, 0 <= b -> b ∉ Spec.dirty c' -> b ∉ Spec.held c' -> Spec.vw_at b c' = Spec.img_at b c') ->
  (forall b, b ∈ Spec.held c' -> Spec.in_range b c') ->
  log_inv (mksys (ops y) (mem y) c').
Proof using.
  intros [] Hi Hd Hl Hc Hr. split; cbn [ops mem cache]; rewrite ?Hi, ?Hd; try done.
  - by rewrite <- Hi.
  - intros b Hb Hn Hh. apply Hc; [done|by rewrite Hd|done].
Qed.

Lemma inv_begin y : log_inv y ->
  n (lh (mem y)) + (outstanding (mem y) + 1) * MAXOPBLOCKS <= LOGSIZE ->
  slack <= MAXOPBLOCKS ->
  log_inv (mksys (∅ :: ops y) (set_outstanding (outstanding (mem y) + 1) (mem y)) (cache y)).
Proof using Hslack.
  intros Hv Hn Hs. pose proof (reserve_le (ops y)). destruct Hv.
  split; cbn [ops mem cache dev start size outstanding committing lh set_outstanding]; try done.
  - cbn. lia.
  - constructor; [|done]. split; [unfold within; rewrite size_empty; lia|set_solver].
  - cbn. unfold reserve in *. rewrite v_out0 in Hn. rewrite size_empty. lia.
Qed.

Lemma inv_log y i s b : log_inv y -> ops y !! i = Some s -> within ({[b]} ∪ s) ->
  data_block (start (mem y)) (size (mem y)) (length (Spec.img (cache y))) b ->
  log_inv (mksys (<[i := {[b]} ∪ s]> (ops y)) (logged b (mem y))
    (Spec.mkc (Spec.vw (cache y)) (Spec.img (cache y)) (Spec.tr (cache y))
       ({[b]} ∪ Spec.dirty (cache y)) (Spec.held (cache y)))).
Proof using Hslack.
  intros Hv Hi Hw Hb. destruct (log_space y i s b Hv Hi Hw) as [Hsp Hsp'].
  pose proof (reserve_insert _ _ _ ({[b]} ∪ s) Hi) as Hres.
  pose proof (Forall_lookup_1 _ _ _ _ (v_ops _ Hv) Hi) as [_ Hsd]. simpl in Hsd.
  assert (base.size s <= base.size ({[b]} ∪ s))%nat by (apply subseteq_size; set_solver).
  assert (b ∈ s \/ b ∉ s /\ base.size ({[b]} ∪ s) = S (base.size s)) as Hsz.
  { destruct (decide (b ∈ s)); [by left|right]. split; [done|].
    rewrite size_union, size_singleton by set_solver. done. }
  destruct (log_index_tx (mem y) b (v_len _ Hv)) as [[Hin Hl]|(Hnin & Hn & Ht & Hl)];
    [pose proof (v_n _ Hv); lia| |]; fold (logged b (mem y)) in *.
  - rewrite Hl. assert ({[b]} ∪ Spec.dirty (cache y) = Spec.dirty (cache y)) as ->
      by (rewrite (v_dirty _ Hv); set_solver).
    destruct Hv. split; cbn [ops mem cache Spec.vw Spec.img Spec.tr Spec.dirty Spec.held]; try done.
    + by rewrite length_insert.
    + apply Forall_insert; [done|]. split; [done|]. rewrite v_dirty0. set_solver.
    + lia.
  - assert (b ∉ s) as Hbs by (rewrite (v_dirty _ Hv) in Hsd; set_solver).
    specialize (Hsp' Hbs). destruct Hsz as [|[_ Hsz]]; [done|]. destruct Hv.
    split; cbn [ops mem cache Spec.vw Spec.img Spec.tr Spec.dirty Spec.held]; try done.
    + by rewrite length_insert.
    + rewrite Hn. lia.
    + rewrite Ht. apply NoDup_app. split_and!; [done|set_solver|apply NoDup_singleton].
    + rewrite Ht. apply Forall_app. split; [done|by apply Forall_singleton].
    + rewrite Ht, v_dirty0, list_to_set_app_L. set_solver.
    + intros x Hx Hd Hh. apply v_clean0; [done|set_solver|done].
    + apply Forall_insert; [|split; [done|set_solver]].
      eapply Forall_impl; [exact v_ops0|]. intros ? [? ?]. split; [done|set_solver].
    + rewrite Hn. lia.
Qed.

Lemma inv_end_last y : log_inv y -> Spec.held (cache y) = ∅ ->
  let l := set_committing 1 (set_outstanding 0 (mem y)) in
  log_inv (mksys [] (set_n 0 (set_outstanding 0 (mem y))) (wrs (commit_writes l (cache y)) (cache y))).
Proof using Hslack.
  intros Hv Hh l. pose proof (inv_tx y 0 1 Hv Hh) as Htx. fold l in Htx.
  destruct (commit_done l (cache y) Htx) as ([Hh' Hl' Hc'] & Hd & Hz & Hg).
  change (start l) with (start (mem y)) in *. change (size l) with (size (mem y)) in *.
  assert (0 <= LOGSIZE - slack) by (destruct Hv; lia).
  destruct Hv.
  split; cbn [ops mem cache dev start size outstanding committing lh n blk set_outstanding set_n set_lh];
    try done.
  - apply NoDup_nil_2.
  - intros b Hb Hnd _. by apply Hc'.
  - rewrite Hh'. intros b Hb. by apply not_elem_of_empty in Hb.
Qed.

Lemma inv_end_more y i s : log_inv y -> ops y !! i = Some s ->
  log_inv (mksys (delete i (ops y)) (set_outstanding (outstanding (mem y) - 1) (mem y)) (cache y)).
Proof using Hslack.
  intros Hv Hi. pose proof (reserve_delete _ _ _ Hi) as Hr. pose proof (lookup_lt_Some _ _ _ Hi).
  pose proof (Forall_lookup_1 _ _ _ _ (v_ops _ Hv) Hi) as [Hw _]. unfold within in Hw. simpl in Hw.
  destruct Hv.
  split; cbn [ops mem cache dev start size outstanding committing lh set_outstanding]; try done.
  - rewrite length_delete by eauto. lia.
  - by apply Forall_delete.
  - lia.
Qed.

Lemma step_inv y y' : slack <= MAXOPBLOCKS -> log_inv y -> step y y' -> log_inv y'.
Proof using Hslack.
  intros Hs Hv Hst.
  destruct Hst as [os l c l' c' E|os l c l' c' b E|os l c l' c' b d E|os l c l' c' i s b Hi Hw Hb E
    |os l c l' c' b E|os l c l' c' i s Hi Hh E].
  - rewrite begin_op_run in E by apply (v_idle _ Hv). destruct (Z.leb_spec (n (lh l) + (outstanding l + 1) * MAXOPBLOCKS) LOGSIZE) as [Hn|Hn]; [|discriminate].
    injection E as <- <-. apply (inv_begin _ Hv Hn Hs).
  - apply bread_ok_inv in E as (-> & Hr & ->). apply (inv_cache _ _ Hv); try done.
    + apply (v_vlen _ Hv).
    + intros x Hx Hd Hh. apply (v_clean _ Hv); [done|done|]. cbn in *. set_solver.
    + cbn. intros x [Hx%elem_of_singleton|Hx]%elem_of_union; [by subst|by apply (v_held _ Hv)].
  - apply bset_ok_inv in E as (-> & Hh & ->).
    pose proof (v_held _ Hv _ Hh) as Hr. apply (inv_cache _ _ Hv); try done; cbn.
    + rewrite length_insert. apply (v_vlen _ Hv).
    + intros x Hx Hd Hnh. transitivity (Spec.vw_at x c); [|apply (v_clean _ Hv x Hx Hd Hnh)].
      unfold Spec.vw_at. cbn.
      unfold Spec.in_range in Hr. rewrite list_lookup_insert_ne; [done|].
      intros Ex. apply Hnh. replace x with b by (cbn in *; lia). done.
    + apply (v_held _ Hv).
  - pose proof (log_write_run (mksys os l c) i s b Hv Hi Hw) as E'. cbn [ops mem cache] in E'.
    rewrite E', bdirty_run in E.
    case_bool_decide; [|discriminate]. injection E as <- <-.
    apply (inv_log (mksys os l c) i s b Hv Hi Hw Hb).
  - apply brelse_ok_inv in E as (-> & Hb & ->). apply (inv_cache _ _ Hv); try done; cbn.
    + apply (v_vlen _ Hv).
    + intros x Hx Hd Hh. destruct (decide (x = b)) as [->|Hne].
      * destruct Hb; done.
      * apply (v_clean _ Hv); [done|done|]. cbn. set_solver.
    + intros x Hx. apply (v_held _ Hv). cbn. set_solver.
  - pose proof (end_op_run (mksys os l c) i s Hv Hi Hh) as E'. cbn [ops mem cache] in E'.
    rewrite E' in E. case_decide as El.
    + injection E as <- <-. destruct os as [|s' [|]]; try done. apply lookup_lt_Some in Hi.
      destruct i; [|simpl in Hi; lia]. apply (inv_end_last _ Hv (Hh El)).
    + injection E as <- <-. apply (inv_end_more _ _ _ Hv Hi).
Qed.

End Operations.


(** ** The bound on the size of an operation is sharp *)

(** Log the blocks [bs], in that order, whichever operations they belong to. *)
Fixpoint log_all (bs : list Z) : prog log unit :=
  match bs with
  | [] => mret tt
  | b :: bs' => bread ROOTDEV b ;; log_write b ;; brelse b ;; log_all bs'
  end.

(** The log holds the blocks [bs], all of them pinned and none held. *)
Record holds (bs : list Z) (l : log) (c : Spec.cache) : Prop := {
  h_out : 1 <= outstanding l;
  h_n : n (lh l) = Z.of_nat (length bs);
  h_len : length (blk (lh l)) = Z.to_nat LOGSIZE;
  h_tx : tx_blocks l = bs;
  h_dirty : Spec.dirty c = list_to_set bs;
  h_held : Spec.held c = ∅
}.

Lemma dirty_size (bs : list Z) :
  (base.size (list_to_set bs ∪ ∅ : gset Z) <= length bs)%nat.
Proof.
  rewrite union_empty_r_L. induction bs as [|b bs IH]; [done|]. cbn.
  rewrite size_union_alt, size_singleton.
  pose proof (subseteq_size (list_to_set bs ∖ {[b]}) (list_to_set bs : gset Z)
    ltac:(set_solver)). lia.
Qed.

Lemma holds_nil l c : outstanding l = 0 -> n (lh l) = 0 ->
  length (blk (lh l)) = Z.to_nat LOGSIZE -> Spec.dirty c = ∅ -> Spec.held c = ∅ ->
  holds [] (set_outstanding 3 l) c.
Proof. intros _ Hn Hl Hd Hh. split; try done. unfold tx_blocks. cbn. by rewrite Hn. Qed.

Lemma run_begin_op {A} (f : unit -> prog log A) l c : committing l = 0 ->
  n (lh l) + (outstanding l + 1) * MAXOPBLOCKS <= LOGSIZE ->
  run_spec (begin_op ≫= f) (l, c) = run_spec (f tt) (set_outstanding (outstanding l + 1) l, c).
Proof.
  intros Hc Hr. apply run_spec_bind_ok. rewrite begin_op_run by done.
  by rewrite (proj2 (Z.leb_le _ _)).
Qed.

Lemma three_admitted {A} (f : unit -> prog log A) l c :
  outstanding l = 0 -> committing l = 0 -> n (lh l) = 0 ->
  run_spec (begin_op ;; begin_op ;; begin_op ≫= f) (l, c) = run_spec (f tt) (set_outstanding 3 l, c).
Proof.
  intros Ho Hc Hn. unfold LOGSIZE, MAXOPBLOCKS in *.
  rewrite run_begin_op by (unfold LOGSIZE, MAXOPBLOCKS; lia). rewrite Ho.
  rewrite run_begin_op by (cbn [set_outstanding committing outstanding lh]; unfold LOGSIZE, MAXOPBLOCKS; lia).
  rewrite run_begin_op by (cbn [set_outstanding committing outstanding lh]; unfold LOGSIZE, MAXOPBLOCKS; lia).
  by destruct l.
Qed.

(** One more block, when there is room for it. *)
Lemma log_one bs b bs' l c : holds bs l c -> b ∉ bs -> Spec.in_range b c ->
  Z.of_nat (length bs) < LOGSIZE -> Z.of_nat (length bs) < size l - 1 ->
  exists l' c', run_spec (log_all (b :: bs')) (l, c) = run_spec (log_all bs') (l', c') /\
    holds (bs ++ [b]) l' c' /\ size l' = size l /\ Spec.img c' = Spec.img c.
Proof.
  intros H Hb Hr Hn Hs. pose proof (h_n _ _ _ H) as En. pose proof (h_out _ _ _ H).
  destruct (log_index_tx l b) as [[Hin _]|(_ & En' & Et & El)]; [apply H|lia| |].
  { rewrite (h_tx _ _ _ H) in Hin. done. }
  fold (logged b l) in En', Et, El.
  exists (logged b l), (Spec.mkc (Spec.vw c) (Spec.img c) (Spec.tr c) ({[b]} ∪ Spec.dirty c) ∅).
  split_and!; [| |done|done].
  - cbn [log_all]. rewrite run_bread; [|done|by rewrite (h_held _ _ _ H)|right].
    2:{ rewrite (h_dirty _ _ _ H), (h_held _ _ _ H). pose proof (dirty_size bs).
        unfold LOGSIZE, MAXOPBLOCKS, NBUF in *. lia. }
    rewrite (run_spec_bind_ok _ _ _ tt (logged b l, Spec.mkc (Spec.vw c) (Spec.img c) (Spec.tr c)
      ({[b]} ∪ Spec.dirty c) ({[b]} ∪ Spec.held c))).
    + rewrite run_brelse by (cbn; set_solver). cbn. rewrite (h_held _ _ _ H).
      do 3 f_equal. set_solver.
    + unfold log_write. rewrite run_pget.
      destruct (Z.geb_spec (n (lh l)) LOGSIZE); [lia|].
      destruct (Z.geb_spec (n (lh l)) (size l - 1)); [lia|]. cbn [orb].
      destruct (Z.ltb_spec (outstanding l) 1); [lia|]. rewrite run_pput, bdirty_run.
      by rewrite bool_decide_eq_true_2 by (cbn; set_solver).
  - split; [done| |done| | |done].
    + rewrite En', length_app, En. cbn. lia.
    + by rewrite Et, (h_tx _ _ _ H).
    + cbn. rewrite (h_dirty _ _ _ H), list_to_set_app_L. set_solver.
Qed.

(** One block too many. *)
Lemma log_full bs b bs' l c : holds bs l c -> b ∉ bs -> Spec.in_range b c ->
  Z.of_nat (length bs) < LOGSIZE -> Z.of_nat (length bs) = size l - 1 ->
  run_spec (log_all (b :: bs')) (l, c) = Panic "too big a transaction".
Proof.
  intros H Hb Hr Hn Hs. pose proof (h_n _ _ _ H) as En. cbn [log_all].
  rewrite run_bread; [|done|by rewrite (h_held _ _ _ H)|right].
  2:{ rewrite (h_dirty _ _ _ H), (h_held _ _ _ H). pose proof (dirty_size bs).
      unfold LOGSIZE, MAXOPBLOCKS, NBUF in *. lia. }
  rewrite run_spec_bind, bind_unfold. unfold log_write. rewrite run_pget.
  destruct (Z.geb_spec (n (lh l)) (size l - 1)); [|lia]. by rewrite orb_true_r.
Qed.

Lemma log_run bs' : forall bs l c, holds bs l c -> NoDup (bs ++ bs') ->
  Forall (fun b => Spec.in_range b c) bs' ->
  Z.of_nat (length (bs ++ bs')) <= LOGSIZE -> Z.of_nat (length bs) <= size l - 1 ->
  (Z.of_nat (length (bs ++ bs')) <= size l - 1 ->
   exists l' c', run_spec (log_all bs') (l, c) = Ok tt (l', c')) /\
  (size l - 1 < Z.of_nat (length (bs ++ bs')) ->
   run_spec (log_all bs') (l, c) = Panic "too big a transaction").
Proof.
  induction bs' as [|b bs' IH]; intros bs l c H Hnd Hr Hn Hs.
  { rewrite app_nil_r. split; [by eexists _, _|lia]. }
  apply Forall_cons in Hr as [Hb Hr]. rewrite length_app in *. cbn [length] in *.
  assert (b ∉ bs) as Hnin by (apply NoDup_app in Hnd as (_ & Hd & _); intros Hi; apply (Hd b Hi); left).
  destruct (Z.eq_dec (Z.of_nat (length bs)) (size l - 1)) as [E|E].
  { split; [lia|]. intros _. by apply (log_full bs); [| | |lia|]. }
  destruct (log_one bs b bs' l c H Hnin Hb) as (l' & c' & -> & H' & Es & Ei); [lia|lia|].
  assert (bs ++ b :: bs' = (bs ++ [b]) ++ bs') as Eb by by rewrite <- app_assoc.
  rewrite Eb in Hnd. specialize (IH (bs ++ [b]) l' c' H' Hnd).
  rewrite Es, !length_app in IH. cbn [length] in IH. destruct IH as [IH1 IH2]; [|lia|lia|].
  { eapply Forall_impl; [exact Hr|]. intros x. unfold Spec.in_range. by rewrite Ei. }
  split; intros ?; [apply IH1|apply IH2]; lia.
Qed.

(** ** Concrete runs *)

Module LogExample.
Import Example.

(** The log after [initlog] on [disk0], then after one [begin_op]. *)
Definition idle_log : log := mklog 2 31 0 0 ROOTDEV (mklh 0 (replicate 30 0)).
Definition idle : sys := mksys [] idle_log (Spec.fresh disk0).
Definition busy : sys :=
  mksys [{[35]} ∪ ∅; ∅] (mklog 2 31 2 0 ROOTDEV (mklh 1 (35 :: replicate 29 0)))
    (Spec.mkc disk0 disk0 [] {[35]} {[35]}).

Lemma idle_inv : log_inv 1 idle.
Proof.
  split; try done. apply NoDup_nil_2.
Qed.

Lemma idle_busy : rtc (step 1) idle busy.
Proof.
  eapply rtc_l. { apply step_begin. reflexivity. }
  eapply rtc_l. { apply step_begin. reflexivity. }
  eapply rtc_l. { eapply (step_read _ _ _ _ _ _ 35). reflexivity. }
  eapply rtc_l. 2:{ apply rtc_refl. }
  change busy with (mksys (<[0%nat := {[35]} ∪ ∅]> [∅; ∅]) (mem busy) (cache busy)).
  eapply (step_log 1 [∅; ∅] _ _ _ _ 0 ∅ 35); [done|by vm_compute| |vm_compute; reflexivity].
  unfold data_block. cbn. lia.
Qed.

(** Three operations that log ten blocks each, on a disk whose log has [nlog]
    blocks. *)
Definition sb_block_of (nlog : Z) : block := put32 16 2 (put32 12 nlog (replicate BSIZE 0)).
Definition disk_of (nlog : Z) : list block :=
  replicate BSIZE 0 :: sb_block_of nlog :: replicate 68 (replicate BSIZE 0).

Definition log_ten (b : Z) : prog log unit :=
  for_each 10 b (fun b => bread ROOTDEV b ;; log_write b ;; brelse b).

Definition three_ops : prog log unit :=
  initlog ROOTDEV ;;
  begin_op ;; begin_op ;; begin_op ;;
  log_ten 35 ;; log_ten 45 ;; log_ten 55 ;;
  end_op ;; end_op ;; end_op.

Definition run_three (nlog : Z) : option string :=
  match Bio.binit (Bio.boot (disk_of nlog) 1) with
  | Ok _ s => match run_bio three_ops (log0, ∅, s) with Panic msg => Some msg | _ => None end
  | _ => None
  end.

End LogExample.
Import LogExample.


(** Three operations of MAXOPBLOCKS blocks on the kernel's own buffer cache: a
    log of LOGSIZE blocks overflows in [log_write], and in a log with one more
    block the commit finds every buffer pinned. *)
Lemma three_ops_panic :
  run_three LOGSIZE = Some "too big a transaction"%string /\
  run_three (LOGSIZE + 1) = Some "bget: no buffers"%string.
Proof. split; vm_compute; reflexivity. Qed.


