(* ===== verification/FsProg.v ===== *)
(** * Programs inside a transaction

    fs.c runs between [begin_op] and [end_op].  It reaches the disk through
    [bread], [brelse], the contents of the buffers it holds, and [log_write].
    [tprog] is the type of such programs.  [run_tx] runs one on the current
    contents of the blocks, as if cache and log had no limits; it records the
    blocks that have been logged and the most buffers that were in use at once.
    [compile] is the same program over the buffer cache with log.c's
    [log_write], and [run_tx_refines] says that it does the same whenever what
    was recorded fits the cache and the log. *)

From S2P Require Import Prelude Spinlock Bio BioSpec BlockProg Log LogCrash Recovery LogOps.
Import Log.

Inductive tprog (Mem A : Type) : Type :=
| TRet (a : A)
| TPanic (msg : string)
| TSleep
| TNoFuel
| TBread (d b : Z) (k : tprog Mem A)
| TData (b : Z) (k : block -> tprog Mem A)
| TSet (b : Z) (d : block) (k : tprog Mem A)
| TLogWrite (b : Z) (k : tprog Mem A)
| TBrelse (b : Z) (k : tprog Mem A)
| TGet (k : Mem -> tprog Mem A)
| TPut (m : Mem) (k : tprog Mem A).

Arguments TRet {Mem A} a.
Arguments TPanic {Mem A} msg.
Arguments TSleep {Mem A}.
Arguments TNoFuel {Mem A}.
Arguments TBread {Mem A} d b k.
Arguments TData {Mem A} b k.
Arguments TSet {Mem A} b d k.
Arguments TLogWrite {Mem A} b k.
Arguments TBrelse {Mem A} b k.
Arguments TGet {Mem A} k.
Arguments TPut {Mem A} m k.

Fixpoint tbind {Mem A B} (f : A -> tprog Mem B) (p : tprog Mem A) : tprog Mem B :=
  match p with
  | TRet a => f a
  | TPanic msg => TPanic msg
  | TSleep => TSleep
  | TNoFuel => TNoFuel
  | TBread d b k => TBread d b (tbind f k)
  | TData b k => TData b (fun x => tbind f (k x))
  | TSet b d k => TSet b d (tbind f k)
  | TLogWrite b k => TLogWrite b (tbind f k)
  | TBrelse b k => TBrelse b (tbind f k)
  | TGet k => TGet (fun m => tbind f (k m))
  | TPut m k => TPut m (tbind f k)
  end.

#[global] Instance tprog_ret {Mem} : MRet (tprog Mem) := fun A a => TRet a.
#[global] Instance tprog_bind {Mem} : MBind (tprog Mem) := fun A B f p => tbind f p.

(** The calls, in the vocabulary of the code. *)
Definition tread {Mem} (d b : Z) : tprog Mem unit := TBread d b (TRet tt).
Definition tdata {Mem} (b : Z) : tprog Mem block := TData b TRet.
Definition tset {Mem} (b : Z) (d : block) : tprog Mem unit := TSet b d (TRet tt).
Definition tlog {Mem} (b : Z) : tprog Mem unit := TLogWrite b (TRet tt).
Definition trelse {Mem} (b : Z) : tprog Mem unit := TBrelse b (TRet tt).
Definition tget {Mem} : tprog Mem Mem := TGet TRet.
Definition tgets {Mem A} (f : Mem -> A) : tprog Mem A := TGet (fun m => TRet (f m)).
Definition tmod {Mem} (f : Mem -> Mem) : tprog Mem unit := TGet (fun m => TPut (f m) (TRet tt)).
Definition tpanic {Mem A} (msg : string) : tprog Mem A := TPanic msg.
Definition tsleep {Mem A} : tprog Mem A := TSleep.
Definition tnofuel {Mem A} : tprog Mem A := TNoFuel.

(** ** The transaction *)

Record txs := mktx {
  view : list block;      (** current contents of the blocks *)
  theld : gset Z;         (** buffers held *)
  stale : gset Z;         (** buffers changed and not yet logged *)
  tlogged : gset Z;        (** blocks in the log's header *)
  peak : nat;             (** the most buffers in use at once *)
  touched : gset Z        (** blocks that have been read *)
}.

Definition tview (b : Z) (t : txs) : block := default Bio.zero_block (view t !! Z.to_nat b).

(** The superblock, and the blocks that are the log's. *)
Definition super (v : list block) : superblock := decode_sb (default Bio.zero_block (v !! 1%nat)).
Arguments super : simpl never.
Definition log_area (v : list block) (b : Z) : Prop :=
  sb_logstart (super v) <= b < sb_logstart (super v) + sb_nlog (super v).

(** The blocks that belong to the file system. *)
Definition t_in_range (b : Z) (t : txs) : Prop := 2 <= b < Z.of_nat (length (view t)) /\ ~ log_area (view t) b.
#[global] Instance log_area_dec v b : Decision (log_area v b).
Proof. unfold log_area. apply _. Defined.
#[global] Instance t_in_range_dec b t : Decision (t_in_range b t).
Proof. unfold t_in_range. apply _. Defined.

(** [NoFuel] marks what a correct program does not do: a block outside the disk
    or of the log, a buffer that is not held, one released before its change is
    logged. *)
Definition t_bread (d b : Z) : M txs unit :=
  t ← get;
  if bool_decide (d <> ROOTDEV \/ ~ t_in_range b t) then nofuel else
  if bool_decide (b ∈ theld t) then asleep else
  put (mktx (view t) ({[b]} ∪ theld t) (stale t) (tlogged t)
         (max (peak t) (base.size ({[b]} ∪ (tlogged t ∪ theld t)))) ({[b]} ∪ touched t)).

Definition t_data (b : Z) : M txs block :=
  t ← get;
  if bool_decide (b ∈ theld t) then mret (tview b t) else nofuel.

Definition t_set (b : Z) (d : block) : M txs unit :=
  t ← get;
  if bool_decide (b ∈ theld t)
  then put (mktx (<[Z.to_nat b := d]> (view t)) (theld t) ({[b]} ∪ stale t) (tlogged t) (peak t) (touched t))
  else nofuel.

Definition t_log (b : Z) : M txs unit :=
  t ← get;
  if bool_decide (b ∈ theld t)
  then put (mktx (view t) (theld t) (stale t ∖ {[b]}) ({[b]} ∪ tlogged t) (peak t) (touched t))
  else nofuel.

Definition t_brelse (b : Z) : M txs unit :=
  t ← get;
  if bool_decide (b ∈ theld t /\ b ∉ stale t)
  then put (mktx (view t) (theld t ∖ {[b]}) (stale t) (tlogged t) (peak t) (touched t))
  else nofuel.

Definition lift_tx {Mem A} (m : M txs A) : M (Mem * txs) A :=
  fun '(x, t) =>
    match m t with
    | Ok a t' => Ok a (x, t')
    | Panic msg => Panic msg
    | Asleep t' => Asleep (x, t')
    | NoFuel => NoFuel
    end.

Fixpoint run_tx {Mem A} (p : tprog Mem A) : M (Mem * txs) A :=
  match p with
  | TRet a => mret a
  | TPanic msg => panic msg
  | TSleep => asleep
  | TNoFuel => nofuel
  | TBread d b k => lift_tx (t_bread d b) ;; run_tx k
  | TData b k => x ← lift_tx (t_data b); run_tx (k x)
  | TSet b d k => lift_tx (t_set b d) ;; run_tx k
  | TLogWrite b k => lift_tx (t_log b) ;; run_tx k
  | TBrelse b k => lift_tx (t_brelse b) ;; run_tx k
  | TGet k => m ← gets fst; run_tx (k m)
  | TPut m k => modify (fun s => (m, s.2)) ;; run_tx k
  end.

(** ** The program over the cache and the log *)

(** A program of log.c in a larger memory. *)
Fixpoint with_log {Mem A} (p : prog log A) : prog (Mem * log) A :=
  match p with
  | PRet a => PRet a
  | PPanic msg => PPanic msg
  | PSleep => PSleep
  | PNoFuel => PNoFuel
  | PBread d b k => PBread d b (with_log k)
  | PData b k => PData b (fun x => with_log (k x))
  | PSetData b d k => PSetData b d (with_log k)
  | PDirty b k => PDirty b (with_log k)
  | PBwrite b k => PBwrite b (with_log k)
  | PBrelse b k => PBrelse b (with_log k)
  | PGet k => PGet (fun m => with_log (k m.2))
  | PPut l k => PGet (fun m => PPut (m.1, l) (with_log k))
  end.

Fixpoint compile {Mem A} (p : tprog Mem A) : prog (Mem * log) A :=
  match p with
  | TRet a => PRet a
  | TPanic msg => PPanic msg
  | TSleep => PSleep
  | TNoFuel => PNoFuel
  | TBread d b k => PBread d b (compile k)
  | TData b k => PData b (fun x => compile (k x))
  | TSet b d k => PSetData b d (compile k)
  | TLogWrite b k => with_log (log_write b) ;; compile k
  | TBrelse b k => PBrelse b (compile k)
  | TGet k => PGet (fun m => compile (k m.1))
  | TPut m k => PGet (fun ml => PPut (m, ml.2) (compile k))
  end.

(** ** Laws *)

Lemma run_tx_bind {Mem A B} (p : tprog Mem A) (f : A -> tprog Mem B) st :
  run_tx (p ≫= f) st = (run_tx p ≫= (fun a => run_tx (f a))) st.
Proof.
  revert st. unfold mbind at 1, tprog_bind.
  induction p; intros st; simpl; try done; rewrite ?bind_assoc; msimpl;
    match goal with
    | |- context [lift_tx ?x st] => destruct (lift_tx x st); by auto
    | _ => by auto
    end.
Qed.

Lemma run_tx_bind_ok {Mem A B} (p : tprog Mem A) (f : A -> tprog Mem B) st a st' :
  run_tx p st = Ok a st' -> run_tx (p ≫= f) st = run_tx (f a) st'.
Proof. intros H. by rewrite run_tx_bind, (bind_ok _ _ _ _ _ H). Qed.

(** What is recorded only grows. *)
Lemma run_tx_grows {Mem A} (p : tprog Mem A) m t a m' t' :
  run_tx p (m, t) = Ok a (m', t') -> tlogged t ⊆ tlogged t' /\ (peak t <= peak t')%nat.
Proof.
  revert m t. induction p as [a0|msg| | |d b k IH|b k IH|b d k IH|b k IH|b k IH|k IH|m0 k IH];
    intros m t; cbn [run_tx]; try done.
  - intros [= -> -> ->]. done.
  - unfold lift_tx, t_bread. msimpl. repeat case_bool_decide; try done. intros HH%IH. cbn in HH. split; [tauto|lia].
  - unfold lift_tx, t_data. msimpl. repeat case_bool_decide; try done. intros HH%IH. exact HH.
  - unfold lift_tx, t_set. msimpl. repeat case_bool_decide; try done. intros HH%IH. exact HH.
  - unfold lift_tx, t_log. msimpl. repeat case_bool_decide; try done. intros HH%IH. cbn in HH. set_solver.
  - unfold lift_tx, t_brelse. msimpl. repeat case_bool_decide; try done. intros HH%IH. exact HH.
  - msimpl. apply IH.
  - msimpl. apply IH.
Qed.

(** ** Refinement *)

(** The transaction describes the log and the cache: the header lists the dirty
    blocks, and a block that is not dirty and not changed is as on disk. *)
Record Rtx (t : txs) (l : log) (c : Spec.cache) : Prop := {
  x_view : forall b, 0 <= b -> ~ log_area (view t) b -> Spec.vw_at b c = tview b t;
  x_vlen : length (Spec.vw c) = length (view t);
  x_geo : sb_logstart (super (view t)) = start l /\ sb_nlog (super (view t)) = size l;
  x_held : Spec.held c = theld t;
  x_dirty : Spec.dirty c = tlogged t;
  x_len : length (Spec.vw c) = length (Spec.img c);
  x_n : 0 <= n (lh l) <= Z.of_nat (length (blk (lh l)));
  x_blklen : length (blk (lh l)) = Z.to_nat LOGSIZE;
  x_nodup : NoDup (tx_blocks l);
  x_blocks : Spec.dirty c = list_to_set (tx_blocks l);
  x_clean : forall b, 0 <= b -> b ∉ Spec.dirty c -> b ∉ stale t -> Spec.vw_at b c = Spec.img_at b c;
  x_stale : stale t ⊆ theld t;
  x_range : forall b, b ∈ theld t -> t_in_range b t;
  x_data : forall b, b ∈ tlogged t -> data_block (start l) (size l) (length (Spec.img c)) b
}.

(** A change to a block of the file system leaves the superblock alone. *)
Lemma super_insert v b d : 2 <= b -> super (<[Z.to_nat b := d]> v) = super v.
Proof. intros H. unfold super. by rewrite list_lookup_insert_ne by lia. Qed.

Lemma log_area_insert v b d b' : 2 <= b -> log_area (<[Z.to_nat b := d]> v) b' <-> log_area v b'.
Proof. intros H. unfold log_area. by rewrite super_insert. Qed.

Lemma in_range_insert v v' th st lg pk tc th' st' lg' pk' tc' b d b' : 2 <= b -> v' = <[Z.to_nat b := d]> v ->
  t_in_range b' (mktx v th st lg pk tc) -> t_in_range b' (mktx v' th' st' lg' pk' tc').
Proof. intros Hb -> [H1 H2]. split; cbn in *; [by rewrite length_insert|]. by rewrite log_area_insert. Qed.

(** What the run needs fits the cache and the log. *)
Definition fits (t : txs) (l : log) : Prop :=
  (peak t <= NBUF)%nat /\ Z.of_nat (base.size (tlogged t)) < LOGSIZE /\ Z.of_nat (base.size (tlogged t)) < size l - 1.

Lemma run_with_log {Mem A} (p : prog log A) (m : Mem) l c :
  run_spec (with_log p) ((m, l), c) =
  match run_spec p (l, c) with
  | Ok a (l', c') => Ok a ((m, l'), c')
  | Panic msg => Panic msg
  | Asleep (l', c') => Asleep ((m, l'), c')
  | NoFuel => NoFuel
  end.
Proof.
  revert l c. induction p; intros l c; cbn [with_log run_spec]; try done; msimpl; try done;
    unfold lift_spec;
    match goal with
    | |- context [match ?x c with _ => _ end] => destruct (x c); [by auto|done..]
    | _ => by auto
    end.
Qed.

Lemma x_count t l c : Rtx t l c -> n (lh l) = Z.of_nat (base.size (tlogged t)).
Proof.
  intros H. rewrite <- (x_dirty _ _ _ H), (x_blocks _ _ _ H), size_list_to_set by apply H.
  unfold tx_blocks. rewrite length_take. pose proof (x_n _ _ _ H). lia.
Qed.

Lemma log_write_room t l c b : Rtx t l c -> fits t l -> 1 <= outstanding l ->
  run_spec (log_write b) (l, c) = run_spec (bdirty b) (logged b l, c).
Proof.
  intros H (_ & H1 & H2) Ho. pose proof (x_count _ _ _ H).
  unfold log_write. rewrite run_pget.
  destruct (Z.geb_spec (n (lh l)) LOGSIZE); [lia|].
  destruct (Z.geb_spec (n (lh l)) (size l - 1)); [lia|]. cbn [orb].
  destruct (Z.ltb_spec (outstanding l) 1); [lia|]. by rewrite run_pput.
Qed.

Lemma fits_mono t t' l : tlogged t ⊆ tlogged t' -> (peak t <= peak t')%nat -> fits t' l -> fits t l.
Proof. intros Hs Hp (H1 & H2 & H3). pose proof (subseteq_size _ _ Hs). split; [lia|]. split; lia. Qed.

Lemma x_bread t l c b : Rtx t l c -> t_in_range b t ->
  Rtx (mktx (view t) ({[b]} ∪ theld t) (stale t) (tlogged t) (max (peak t) (base.size ({[b]} ∪ (tlogged t ∪ theld t))))
         ({[b]} ∪ touched t)) l
      (add_held b c).
Proof.
  intros H Hr. destruct H. split; cbn in *; try done.
  - by rewrite x_held0.
  - set_solver.
  - intros y [->%elem_of_singleton|Hy]%elem_of_union; [done|]. by apply x_range0.
Qed.

Lemma x_set t l c b d : Rtx t l c -> b ∈ theld t ->
  Rtx (mktx (<[Z.to_nat b := d]> (view t)) (theld t) ({[b]} ∪ stale t) (tlogged t) (peak t) (touched t)) l
      (Spec.mkc (<[Z.to_nat b := d]> (Spec.vw c)) (Spec.img c) (Spec.tr c) (Spec.dirty c) (Spec.held c)).
Proof.
  intros H Hb. pose proof (x_range _ _ _ H b Hb) as Hbr. pose proof Hbr as [Hb2 Hbl]. destruct H.
  split; cbn [view theld stale tlogged peak Spec.vw Spec.img Spec.tr Spec.dirty Spec.held] in *; try done.
  - intros y Hy Hn. rewrite log_area_insert in Hn by lia. unfold Spec.vw_at, tview. cbn. destruct (decide (y = b)) as [->|Hne].
    + rewrite !list_lookup_insert_eq by lia. done.
    + rewrite !list_lookup_insert_ne by lia. by apply x_view0.
  - by rewrite !length_insert.
  - by rewrite super_insert by lia.
  - by rewrite length_insert.
  - intros y Hy Hd Hs. transitivity (Spec.vw_at y c); [|apply x_clean0; set_solver]. unfold Spec.vw_at; cbn.
    rewrite list_lookup_insert_ne; [done|]. intros E. apply Hs.
    apply elem_of_union_l, elem_of_singleton. lia.
  - set_solver.
  - intros y Hy. destruct t. eapply in_range_insert; [|done|by apply x_range0]. lia.
Qed.

Lemma x_log t l c b : Rtx t l c -> fits t l -> b ∈ theld t ->
  Rtx (mktx (view t) (theld t) (stale t ∖ {[b]}) ({[b]} ∪ tlogged t) (peak t) (touched t)) (logged b l)
      (Spec.mkc (Spec.vw c) (Spec.img c) (Spec.tr c) ({[b]} ∪ Spec.dirty c) (Spec.held c)).
Proof.
  intros H (_ & Hf & _) Hb. pose proof (x_count _ _ _ H) as Hn.
  destruct (log_index_tx l b) as [[Hin E]|(Hin & En & Et & El)]; [apply H|lia|fold (logged b l) in E|fold (logged b l) in *].
  - rewrite E. destruct H. assert (Hbd : b ∈ Spec.dirty c) by (rewrite x_blocks0; by apply elem_of_list_to_set).
    assert (Hsub : {[b]} ∪ Spec.dirty c = Spec.dirty c) by set_solver.
    split; cbn in *; try done; rewrite ?Hsub; try done.
    + by rewrite <- x_dirty0, Hsub.
    + intros y Hy Hd Hs. apply x_clean0; [done|done|]. set_solver.
    + set_solver.
    + intros y Hy. apply x_data0. rewrite <- x_dirty0. set_solver.
  - pose proof (x_range _ _ _ H b Hb) as [Hr1 Hr2]. destruct H. split; cbn [view theld stale tlogged peak Spec.vw Spec.held Spec.dirty Spec.img]; try done.
    + by rewrite x_dirty0.
    + rewrite En, El. unfold LOGSIZE, MAXOPBLOCKS in *. lia.
    + rewrite Et. apply NoDup_app. split; [done|]. split; [|apply NoDup_singleton].
      intros y Hy ->%list_elem_of_singleton. done.
    + rewrite Et, x_blocks0, list_to_set_app_L. set_solver.
    + intros y Hy Hd Hs. apply x_clean0; [done|set_solver|set_solver].
    + set_solver.
    + change (start (logged b l)) with (start l). change (size (logged b l)) with (size l).
      intros y [->%elem_of_singleton|Hy]%elem_of_union; [|by apply x_data0]. unfold data_block, log_area in *.
      destruct x_geo0 as [<- <-]. split; [lia|done].
Qed.

Lemma x_brelse t l c b : Rtx t l c -> b ∉ stale t ->
  Rtx (mktx (view t) (theld t ∖ {[b]}) (stale t) (tlogged t) (peak t) (touched t)) l
      (Spec.mkc (Spec.vw c) (Spec.img c) (Spec.tr c) (Spec.dirty c) (Spec.held c ∖ {[b]})).
Proof.
  intros H Hb. destruct H. split; cbn in *; try done.
  - by rewrite x_held0.
  - set_solver.
  - intros y Hy. apply x_range0. set_solver.
Qed.

(** The program over the cache and the log does what the transaction says; no
    block reaches the disk.  Outside of a transaction it must not log. *)
Theorem run_tx_refines {Mem A} (p : tprog Mem A) m t a m' t' l c :
  run_tx p (m, t) = Ok a (m', t') -> Rtx t l c -> fits t' l -> 1 <= outstanding l \/ tlogged t' = ∅ ->
  exists l' c', run_spec (compile p) ((m, l), c) = Ok a ((m', l'), c') /\ Rtx t' l' c' /\
    (exists h, l' = set_lh h l) /\ Spec.img c' = Spec.img c /\ Spec.tr c' = Spec.tr c.
Proof.
  revert m t l c. induction p as [a0|msg| | |d b k IH|b k IH|b d k IH|b k IH|b k IH|k IH|m0 k IH];
    intros m t l c; cbn [run_tx compile run_spec]; try done.
  - intros [= -> -> ->] HR _ _. exists l, c. split; [done|]. split; [done|]. split; [|done].
    exists (lh l). by destruct l.
  - unfold lift_tx at 1, t_bread. msimpl. case_bool_decide as H0; [done|]. case_bool_decide as H1; [done|].
    intros Hrun HR Hf Ho. assert (d = ROOTDEV /\ t_in_range b t) as [-> Hr].
    { split; [destruct (decide (d = ROOTDEV))|destruct (decide (t_in_range b t))]; try done; exfalso; tauto. }
    pose proof (run_tx_grows _ _ _ _ _ _ Hrun) as [_ Hp]. cbn in Hp.
    destruct (IH m _ l (add_held b c) Hrun (x_bread _ _ _ b HR Hr) Hf Ho) as (l' & c' & E & HR' & Hl & Hi & Ht).
    exists l', c'. split; [|done]. rewrite <- E. unfold lift_spec, Spec.bread. msimpl.
    rewrite bool_decide_eq_false_2.
    2: { intros [|Hn]; [done|]. apply Hn. destruct Hr as [Hr _]. unfold Spec.in_range.
      rewrite <- (x_len _ _ _ HR), (x_vlen _ _ _ HR). lia. }
    rewrite bool_decide_eq_false_2 by by rewrite (x_held _ _ _ HR).
    rewrite bool_decide_eq_false_2; [done|]. intros [Hb Hs]. rewrite (x_dirty _ _ _ HR), (x_held _ _ _ HR) in *.
    destruct Hf as (Hpk & _). rewrite size_union, size_singleton in Hp by set_solver. lia.
  - unfold lift_tx at 1, t_data. msimpl. case_bool_decide as H0; [|done]. intros Hrun HR Hf Ho.
    unfold lift_spec, Spec.data. msimpl. rewrite (x_held _ _ _ HR), bool_decide_eq_true_2 by done.
    destruct (x_range _ _ _ HR b H0) as [Hr Hnl]. rewrite (x_view _ _ _ HR b) by (done || lia).
    by apply (IH _ m t).
  - unfold lift_tx at 1, t_set. msimpl. case_bool_decide as H0; [|done]. intros Hrun HR Hf Ho.
    unfold lift_spec, Spec.set_data. msimpl. rewrite (x_held _ _ _ HR), bool_decide_eq_true_2 by done.
    rewrite <- (x_held _ _ _ HR). exact (IH m _ l _ Hrun (x_set _ _ _ _ _ HR H0) Hf Ho).
  - rewrite run_spec_bind, (bind_unfold (run_spec (with_log _))), run_with_log. remember (run_spec (log_write b) (l, c)) as o eqn:Eo.
    unfold lift_tx at 1, t_log. msimpl. case_bool_decide as H0; [|done]. intros Hrun HR Hf Ho.
    pose proof (run_tx_grows _ _ _ _ _ _ Hrun) as [Hg Hp]. cbn in Hg, Hp.
    assert (Hft : fits t l) by (eapply fits_mono; [| |exact Hf]; [set_solver|lia]).
    assert (Ho1 : 1 <= outstanding l) by (destruct Ho as [|Ho]; [done|]; set_solver).
    rewrite (log_write_room t), bdirty_run, (x_held _ _ _ HR), bool_decide_eq_true_2 in Eo by done.
    rewrite <- (x_held _ _ _ HR) in Eo. subst o.
    destruct (IH m _ _ _ Hrun (x_log _ _ _ b HR Hft H0) Hf Ho) as (l' & c' & E & HR' & [h ->] & Hi & Ht).
    eexists _, _. split; [exact E|]. split; [done|]. split; [|done]. by exists h.
  - unfold lift_tx at 1, t_brelse. msimpl. case_bool_decide as H0; [|done]. destruct H0 as [H0 H1]. intros Hrun HR Hf Ho.
    unfold lift_spec, Spec.brelse. msimpl. rewrite (x_held _ _ _ HR), bool_decide_eq_true_2.
    2: { split; [done|]. destruct (decide (b ∈ Spec.dirty c)); [by left|right]. apply (x_clean _ _ _ HR); [|done|done].
      destruct (x_range _ _ _ HR b H0) as [Hr _]. lia. }
    rewrite <- (x_held _ _ _ HR). exact (IH m _ l _ Hrun (x_brelse _ _ _ _ HR H1) Hf Ho).
  - msimpl. apply IH.
  - msimpl. apply IH.
Qed.

(** ** Steps of a transaction *)

Definition hold (b : Z) (t : txs) : txs :=
  mktx (view t) ({[b]} ∪ theld t) (stale t) (tlogged t) (max (peak t) (base.size ({[b]} ∪ (tlogged t ∪ theld t)))) ({[b]} ∪ touched t).
Definition change (b : Z) (d : block) (t : txs) : txs :=
  mktx (<[Z.to_nat b := d]> (view t)) (theld t) ({[b]} ∪ stale t) (tlogged t) (peak t) (touched t).
Definition enlog (b : Z) (t : txs) : txs :=
  mktx (view t) (theld t) (stale t ∖ {[b]}) ({[b]} ∪ tlogged t) (peak t) (touched t).
Definition release (b : Z) (t : txs) : txs :=
  mktx (view t) (theld t ∖ {[b]}) (stale t) (tlogged t) (peak t) (touched t).

Section TSteps.
Context {Mem A : Type}.
Implicit Types (m : Mem) (t : txs).

Lemma run_tread b (f : unit -> tprog Mem A) m t : t_in_range b t -> b ∉ theld t ->
  run_tx (tread ROOTDEV b ≫= f) (m, t) = run_tx (f tt) (m, hold b t).
Proof.
  intros Hr Hh. cbn. unfold t_bread. msimpl.
  rewrite (bool_decide_eq_false_2 (ROOTDEV <> ROOTDEV \/ _)) by tauto.
  by rewrite bool_decide_eq_false_2.
Qed.

Lemma run_tdata b (f : block -> tprog Mem A) m t : b ∈ theld t ->
  run_tx (tdata b ≫= f) (m, t) = run_tx (f (tview b t)) (m, t).
Proof. intros Hh. cbn. unfold t_data. msimpl. by rewrite bool_decide_eq_true_2. Qed.

Lemma run_tset b d (f : unit -> tprog Mem A) m t : b ∈ theld t ->
  run_tx (tset b d ≫= f) (m, t) = run_tx (f tt) (m, change b d t).
Proof. intros Hh. cbn. unfold t_set. msimpl. by rewrite bool_decide_eq_true_2. Qed.

Lemma run_tlog b (f : unit -> tprog Mem A) m t : b ∈ theld t ->
  run_tx (tlog b ≫= f) (m, t) = run_tx (f tt) (m, enlog b t).
Proof. intros Hh. cbn. unfold t_log. msimpl. by rewrite bool_decide_eq_true_2. Qed.

Lemma run_trelse b (f : unit -> tprog Mem A) m t : b ∈ theld t -> b ∉ stale t ->
  run_tx (trelse b ≫= f) (m, t) = run_tx (f tt) (m, release b t).
Proof. intros Hh Hs. cbn. unfold t_brelse. msimpl. by rewrite bool_decide_eq_true_2. Qed.

Lemma run_tget (f : Mem -> tprog Mem A) m t : run_tx (tget ≫= f) (m, t) = run_tx (f m) (m, t).
Proof. done. Qed.

Lemma run_tgets {B} (g : Mem -> B) (f : B -> tprog Mem A) m t :
  run_tx (tgets g ≫= f) (m, t) = run_tx (f (g m)) (m, t).
Proof. done. Qed.

Lemma run_tmod g (f : unit -> tprog Mem A) m t : run_tx (tmod g ≫= f) (m, t) = run_tx (f tt) (g m, t).
Proof. done. Qed.

End TSteps.

(** A trailing call is a call followed by [mret]. *)
Lemma run_tx_tail {Mem A} (p : tprog Mem A) st : run_tx p st = run_tx (p ≫= mret) st.
Proof. rewrite run_tx_bind, bind_unfold. by destruct (run_tx p st). Qed.

Lemma run_tx_assoc {Mem A B C} (p : tprog Mem A) (f : A -> tprog Mem B) (g : B -> tprog Mem C) st :
  run_tx ((p ≫= f) ≫= g) st = run_tx (p ≫= (fun a => f a ≫= g)) st.
Proof.
  rewrite (run_tx_bind (p ≫= f) g), (run_tx_bind p (fun a => f a ≫= g)).
  rewrite !bind_unfold, run_tx_bind, bind_unfold.
  destruct (run_tx p st) as [a s| | |]; try done.
  by rewrite (run_tx_bind (f a) g s), bind_unfold.
Qed.

(** What a call leaves: the contents of the blocks, with the same buffers held
    and nothing that is not logged. *)
Definition leaves (t : txs) (v : list block) (t' : txs) : Prop :=
  view t' = v /\ theld t' = theld t /\ stale t' = stale t.

(** What code that only reads leaves: the same blocks and the same log, with at most
    one more buffer in use. *)
Record reads (t t' : txs) : Prop := {
  rd_view : view t' = view t;
  rd_held : theld t' = theld t;
  rd_stale : stale t' = stale t;
  rd_logged : tlogged t' = tlogged t;
  rd_peak : (peak t' <= max (peak t) (S (base.size (tlogged t ∪ theld t))))%nat
}.

Lemma reads_leaves t t' : reads t t' -> leaves t (view t) t'.
Proof. by intros []. Qed.

Lemma reads_refl t : reads t t.
Proof. split; try done. lia. Qed.

Lemma reads_trans t t' t'' : reads t t' -> reads t' t'' -> reads t t''.
Proof. intros [H1 H2 H3 H4 H5] [G1 G2 G3 G4 G5]. split; try congruence. rewrite H4, H2 in G5. lia. Qed.

(** The blocks read since [t] satisfy [P]. *)
Definition reach (P : Z -> Prop) (t t' : txs) : Prop := forall b, b ∈ touched t' -> b ∈ touched t \/ P b.

Lemma reach_refl P t : reach P t t.
Proof. intros b Hb. by left. Qed.

Lemma reach_trans P t t1 t2 : reach P t t1 -> reach P t1 t2 -> reach P t t2.
Proof. intros H1 H2 b [Hb|Hb]%H2; [by apply H1|by right]. Qed.

Lemma reach_mono (P Q : Z -> Prop) t t' : (forall b, P b -> Q b) -> reach P t t' -> reach Q t t'.
Proof. intros H Hr b [Hb|Hb]%Hr; [by left|right; by apply H]. Qed.

Lemma reads_hold b t : b ∉ theld t -> reads t (release b (hold b t)).
Proof.
  intros Hb. split; cbn; try done; [set_solver|]. rewrite size_union_alt, size_singleton.
  pose proof (subseteq_size ((tlogged t ∪ theld t) ∖ {[b]}) (tlogged t ∪ theld t) ltac:(set_solver)). lia.
Qed.

(** Reading a block. *)
Lemma run_read_block {Mem A} b (f : block -> tprog Mem A) (m : Mem) t :
  t_in_range b t -> b ∉ theld t -> b ∉ stale t ->
  exists t', reads t t' /\ reach (eq b) t t' /\
    run_tx (tread ROOTDEV b ;; d ← tdata b; trelse b ;; f d) (m, t) = run_tx (f (tview b t)) (m, t').
Proof.
  intros Hr Hh Hs. exists (release b (hold b t)). split; [by apply reads_hold|]. split.
  - intros y. cbn. set_solver.
  - rewrite run_tread, run_tdata, run_trelse by (done || cbn; set_solver). done.
Qed.

(** Changing a block. *)
Lemma run_change_block {Mem A} b (g : block) (f : unit -> tprog Mem A) (m : Mem) t :
  t_in_range b t -> b ∉ theld t -> b ∉ stale t ->
  exists t', leaves t (<[Z.to_nat b := g]> (view t)) t' /\ reach (eq b) t t' /\
    run_tx (tset b g ;; tlog b ;; trelse b ;; f tt) (m, hold b t) = run_tx (f tt) (m, t').
Proof.
  intros Hr Hh Hs. exists (release b (enlog b (change b g (hold b t)))). split.
  - split; [done|]. split; cbn; set_solver.
  - split; [intros y; cbn; set_solver|]. rewrite run_tset, run_tlog, run_trelse by (cbn; set_solver). done.
Qed.

Lemma tview_hold b b' t : tview b (hold b' t) = tview b t.
Proof. done. Qed.
