(* ===== verification/Fs.v ===== *)
(** * The file system (system/storage/fs.c, include/fs.h, include/file.h)

    The functions of fs.c as programs inside a transaction (FsProg.v), with the
    superblock and the inode cache as their memory.  A [struct inode *] is the
    index of its entry in [icache.inode].  [icache.lock] makes each use of the
    reference counts one step; inodes carry sleep locks, and a process that
    would wait for one leaves the operation asleep.

    [pid] is the calling process.  [devread] and [devwrite] are the entries of
    [devsw], none where the table has a null pointer: the value that the device's
    function returns, with the bytes it reads. *)

From S2P Require Import Prelude Spinlock Bio BioSpec BlockProg Log FsProg.
Import SleepLock.

Definition ROOTINO : Z := 1.
Definition NDIRECT : Z := 12.
Definition NINDIRECT : Z := 128.         (** BSIZE / sizeof(uint) *)
Definition MAXFILE : Z := NDIRECT + NINDIRECT.
Definition sizeof_dinode : Z := 64.
Definition IPB : Z := 8.                 (** BSIZE / sizeof(struct dinode) *)
Definition BPB : Z := 4096.              (** BSIZE*8 *)
Definition DIRSIZ : nat := 14.
Definition sizeof_dirent : Z := 16.
Definition NINODE : nat := 50.
Definition NDEV : Z := 10.
Definition T_DIR : Z := 1.
Definition T_FILE : Z := 2.
Definition T_DEV : Z := 3.
Definition BSZ : Z := 512.               (** BSIZE *)

Module Fs.

(** [struct inode]. *)
Record inode := mkinode {
  i_dev : Z;
  i_inum : Z;
  i_ref : Z;
  i_lock : sleeplock;
  i_valid : bool;
  i_type : Z;
  i_major : Z;
  i_minor : Z;
  i_nlink : Z;
  i_size : Z;
  i_addrs : list Z
}.

Definition inode0 : inode := mkinode 0 0 0 initsleeplock false 0 0 0 0 0 (replicate 13 0).

Definition set_ref v i := mkinode (i_dev i) (i_inum i) v (i_lock i) (i_valid i) (i_type i) (i_major i) (i_minor i) (i_nlink i) (i_size i) (i_addrs i).
Definition set_lock v i := mkinode (i_dev i) (i_inum i) (i_ref i) v (i_valid i) (i_type i) (i_major i) (i_minor i) (i_nlink i) (i_size i) (i_addrs i).
Definition set_valid v i := mkinode (i_dev i) (i_inum i) (i_ref i) (i_lock i) v (i_type i) (i_major i) (i_minor i) (i_nlink i) (i_size i) (i_addrs i).
Definition set_type v i := mkinode (i_dev i) (i_inum i) (i_ref i) (i_lock i) (i_valid i) v (i_major i) (i_minor i) (i_nlink i) (i_size i) (i_addrs i).
Definition set_major v i := mkinode (i_dev i) (i_inum i) (i_ref i) (i_lock i) (i_valid i) (i_type i) v (i_minor i) (i_nlink i) (i_size i) (i_addrs i).
Definition set_minor v i := mkinode (i_dev i) (i_inum i) (i_ref i) (i_lock i) (i_valid i) (i_type i) (i_major i) v (i_nlink i) (i_size i) (i_addrs i).
Definition set_nlink v i := mkinode (i_dev i) (i_inum i) (i_ref i) (i_lock i) (i_valid i) (i_type i) (i_major i) (i_minor i) v (i_size i) (i_addrs i).
Definition set_size v i := mkinode (i_dev i) (i_inum i) (i_ref i) (i_lock i) (i_valid i) (i_type i) (i_major i) (i_minor i) (i_nlink i) v (i_addrs i).
Definition set_addrs v i := mkinode (i_dev i) (i_inum i) (i_ref i) (i_lock i) (i_valid i) (i_type i) (i_major i) (i_minor i) (i_nlink i) (i_size i) v.

(** The static variables of fs.c. *)
Record fs := mkfs { sb : superblock; icache : list inode }.

Definition ip_at (ip : nat) (m : fs) : inode := default inode0 (icache m !! ip).
Definition ip_set (ip : nat) (x : inode) (m : fs) : fs := mkfs (sb m) (<[ip := x]> (icache m)).

Notation T := (tprog fs).
Definition inode_ (ip : nat) : T inode := tgets (ip_at ip).
Definition upd (ip : nat) (f : inode -> inode) : T unit := tmod (fun m => ip_set ip (f (ip_at ip m)) m).

Definition IBLOCK (i : Z) (s : superblock) : Z := i / IPB + sb_inodestart s.
Definition BBLOCK (b : Z) (s : superblock) : Z := b / BPB + sb_bmapstart s.

(** ** Blocks *)

Definition bzero (dev bno : Z) : T unit :=
  tread dev bno ;;
  tset bno (replicate BSIZE 0) ;;
  tlog bno ;;
  trelse bno.

(** The bit of a block in its bitmap block. *)
Definition bit_free (d : block) (bi : Z) : bool := Z.land (aget 0 d (bi / 8)) (Z.shiftl 1 (bi mod 8)) =? 0.

(** The first free bit from [bi] on, among [k]. *)
Fixpoint find_bit (k : nat) (bi : Z) (d : block) : option Z :=
  match k with
  | O => None
  | S k' => if bit_free d bi then Some bi else find_bit k' (bi + 1) d
  end.

Fixpoint balloc_loop (fuel : nat) (dev b : Z) : T Z :=
  match fuel with
  | O => tnofuel
  | S f =>
      s ← tgets sb;
      if negb (b <? sb_size s) then tpanic "balloc: out of blocks" else
      let bp := BBLOCK b s in
      tread dev bp ;;
      d ← tdata bp;
      match find_bit (Z.to_nat (Z.min BPB (sb_size s - b))) 0 d with
      | Some bi =>
          tset bp (aset d (bi / 8) (Z.lor (aget 0 d (bi / 8)) (Z.shiftl 1 (bi mod 8)))) ;;
          tlog bp ;;
          trelse bp ;;
          bzero dev (b + bi) ;;
          mret (b + bi)
      | None =>
          trelse bp ;;
          balloc_loop f dev (b + BPB)
      end
  end.

(** The loop runs once per bitmap block, and once more to panic. *)
Definition balloc (dev : Z) : T Z := s ← tgets sb; balloc_loop (S (S (Z.to_nat (sb_size s / BPB)))) dev 0.

Definition bfree (dev b : Z) : T unit :=
  s ← tgets sb;
  let bp := BBLOCK b s in
  tread dev bp ;;
  d ← tdata bp;
  let bi := b mod BPB in
  if bit_free d bi then tpanic "freeing free block" else
  tset bp (aset d (bi / 8) (Z.land (aget 0 d (bi / 8)) (Z.lxor 255 (Z.shiftl 1 (bi mod 8))))) ;;
  tlog bp ;;
  trelse bp.

(** ** Inodes *)

(** Byte offset of [dip] in its block, and of [dip->addrs[k]]. *)
Definition dip_off (inum : Z) : nat := Z.to_nat (sizeof_dinode * (inum mod IPB)).
Definition addr_off (off : nat) (k : nat) : nat := (off + 12 + 4 * k)%nat.

(** The fields of a [struct dinode] at [off], copied into [ip]. *)
Definition load_dinode (off : nat) (d : block) (ip : inode) : inode :=
  mkinode (i_dev ip) (i_inum ip) (i_ref ip) (i_lock ip) (i_valid ip)
    (s16 (get16 off d)) (s16 (get16 (off + 2) d)) (s16 (get16 (off + 4) d)) (s16 (get16 (off + 6) d))
    (get32 (off + 8) d) (map (fun k => get32 (addr_off off k) d) (seq 0 13)).

(** [memmove(dip->addrs, ip->addrs, sizeof(ip->addrs))] *)
Fixpoint store_addrs (off k : nat) (addrs : list Z) (d : block) : block :=
  match addrs with
  | [] => d
  | a :: addrs' => store_addrs off (S k) addrs' (put32 (addr_off off k) a d)
  end.

Definition store_dinode (off : nat) (ip : inode) (d : block) : block :=
  store_addrs off 0 (i_addrs ip)
    (put32 (off + 8) (i_size ip) (put16 (off + 6) (i_nlink ip)
      (put16 (off + 4) (i_minor ip) (put16 (off + 2) (i_major ip) (put16 off (i_type ip) d))))).

(** The entry of [iget], and a free one. *)
Fixpoint find_inode (dev inum : Z) (i : nat) (l : list inode) (empty : option nat) : option nat * option nat :=
  match l with
  | [] => (None, empty)
  | x :: l' =>
      if (i_ref x >? 0) && (i_dev x =? dev) && (i_inum x =? inum) then (Some i, empty)
      else find_inode dev inum (S i) l'
             (match empty with None => if i_ref x =? 0 then Some i else None | Some _ => empty end)
  end.

Definition iget (dev inum : Z) : T nat :=
  m ← tget;
  match find_inode dev inum 0 (icache m) None with
  | (Some ip, _) => upd ip (fun x => set_ref (i_ref x + 1) x) ;; mret ip
  | (None, None) => tpanic "iget: no inodes"
  | (None, Some ip) =>
      upd ip (fun x => mkinode dev inum 1 (i_lock x) false (i_type x) (i_major x) (i_minor x) (i_nlink x)
                         (i_size x) (i_addrs x)) ;;
      mret ip
  end.

Fixpoint ialloc_loop (fuel : nat) (dev type inum : Z) : T nat :=
  match fuel with
  | O => tnofuel
  | S f =>
      s ← tgets sb;
      if negb (inum <? sb_ninodes s) then tpanic "ialloc: no inodes" else
      let bp := IBLOCK inum s in
      tread dev bp ;;
      d ← tdata bp;
      let off := dip_off inum in
      if s16 (get16 off d) =? 0 then
        tset bp (put16 off type (splice off (replicate (Z.to_nat sizeof_dinode) 0) d)) ;;
        tlog bp ;;
        trelse bp ;;
        iget dev inum
      else
        trelse bp ;;
        ialloc_loop f dev type (inum + 1)
  end.

Definition ialloc (dev type : Z) : T nat := s ← tgets sb; ialloc_loop (S (Z.to_nat (sb_ninodes s))) dev type 1.

Definition iupdate (ip : nat) : T unit :=
  s ← tgets sb;
  x ← inode_ ip;
  let bp := IBLOCK (i_inum x) s in
  tread (i_dev x) bp ;;
  d ← tdata bp;
  tset bp (store_dinode (dip_off (i_inum x)) x d) ;;
  tlog bp ;;
  trelse bp.

Definition idup (ip : nat) : T nat := upd ip (fun x => set_ref (i_ref x + 1) x) ;; mret ip.

(** ** Inode content *)

Definition bmap (ip : nat) (bn : Z) : T Z :=
  x ← inode_ ip;
  if bn <? NDIRECT then
    let addr := aget 0 (i_addrs x) bn in
    if addr =? 0 then
      addr ← balloc (i_dev x);
      upd ip (fun x => set_addrs (aset (i_addrs x) bn addr) x) ;;
      mret addr
    else mret addr
  else
    let bn := bn - NDIRECT in
    if bn <? NINDIRECT then
      addr ← (let addr := aget 0 (i_addrs x) NDIRECT in
              if addr =? 0 then
                addr ← balloc (i_dev x);
                upd ip (fun x => set_addrs (aset (i_addrs x) NDIRECT addr) x) ;;
                mret addr
              else mret addr);
      tread (i_dev x) addr ;;
      a ← tdata addr;
      let bp := addr in
      let addr := get32 (Z.to_nat (4 * bn)) a in
      addr ← (if addr =? 0 then
                addr ← balloc (i_dev x);
                tset bp (put32 (Z.to_nat (4 * bn)) addr a) ;;
                tlog bp ;;
                mret addr
              else mret addr);
      trelse bp ;;
      mret addr
    else tpanic "bmap: out of range".

Fixpoint itrunc_direct (k : nat) (i : Z) (ip : nat) : T unit :=
  match k with
  | O => mret tt
  | S k' =>
      x ← inode_ ip;
      (if aget 0 (i_addrs x) i =? 0 then mret tt else
       bfree (i_dev x) (aget 0 (i_addrs x) i) ;;
       upd ip (fun x => set_addrs (aset (i_addrs x) i 0) x)) ;;
      itrunc_direct k' (i + 1) ip
  end.

(** The loop over the indirect block [bp], which the loop does not change. *)
Fixpoint itrunc_indirect (k : nat) (j dev bp : Z) : T unit :=
  match k with
  | O => mret tt
  | S k' =>
      a ← tdata bp;
      (if get32 (Z.to_nat (4 * j)) a =? 0 then mret tt
       else bfree dev (get32 (Z.to_nat (4 * j)) a)) ;;
      itrunc_indirect k' (j + 1) dev bp
  end.

Definition itrunc (ip : nat) : T unit :=
  itrunc_direct (Z.to_nat NDIRECT) 0 ip ;;
  x ← inode_ ip;
  let bp := aget 0 (i_addrs x) NDIRECT in
  (if bp =? 0 then mret tt else
   tread (i_dev x) bp ;;
   itrunc_indirect (Z.to_nat NINDIRECT) 0 (i_dev x) bp ;;
   trelse bp ;;
   bfree (i_dev x) bp ;;
   upd ip (fun x => set_addrs (aset (i_addrs x) NDIRECT 0) x)) ;;
  upd ip (set_size 0) ;;
  iupdate ip.

(** [struct stat]. *)
Record stat := mkstat { st_type : Z; st_dev : Z; st_ino : Z; st_nlink : Z; st_size : Z }.

Definition stati (ip : nat) : T stat :=
  x ← inode_ ip;
  mret (mkstat (i_type x) (s32 (i_dev x)) (i_inum x) (i_nlink x) (i_size x)).

Section Process.
Context (pid : Z) (devread : Z -> option (Z -> Z * list Z)) (devwrite : Z -> option (list Z -> Z)).

(** ** Locking *)

Definition ilock (ip : nat) : T unit :=
  s ← tgets sb;
  x ← inode_ ip;
  if i_ref x <? 1 then tpanic "ilock" else
  match acquiresleep pid (i_lock x) with
  | None => tsleep
  | Some lk =>
      upd ip (set_lock lk) ;;
      if i_valid x then mret tt else
      let bp := IBLOCK (i_inum x) s in
      tread (i_dev x) bp ;;
      d ← tdata bp;
      upd ip (load_dinode (dip_off (i_inum x)) d) ;;
      trelse bp ;;
      upd ip (set_valid true) ;;
      x ← inode_ ip;
      if i_type x =? 0 then tpanic "ilock: no type" else mret tt
  end.

Definition iunlock (ip : nat) : T unit :=
  x ← inode_ ip;
  if negb (holdingsleep pid (i_lock x)) || (i_ref x <? 1) then tpanic "iunlock" else
  upd ip (set_lock (releasesleep (i_lock x))).

Definition iput (ip : nat) : T unit :=
  x ← inode_ ip;
  match acquiresleep pid (i_lock x) with
  | None => tsleep
  | Some lk =>
      upd ip (set_lock lk) ;;
      (if i_valid x && (i_nlink x =? 0) && (i_ref x =? 1) then
         itrunc ip ;;
         upd ip (set_type 0) ;;
         iupdate ip ;;
         upd ip (set_valid false)
       else mret tt) ;;
      upd ip (fun x => set_lock (releasesleep (i_lock x)) x) ;;
      upd ip (fun x => set_ref (i_ref x - 1) x)
  end.

Definition iunlockput (ip : nat) : T unit := iunlock ip ;; iput ip.

(** ** Reading and writing *)

(** The loop of [readi]; the bytes already read are [dst]. *)
Fixpoint readi_loop (fuel : nat) (ip : nat) (off n tot : Z) (dst : list Z) : T (list Z) :=
  if negb (tot <? n) then mret dst else
  match fuel with
  | O => tnofuel
  | S f =>
      x ← inode_ ip;
      bp ← bmap ip (off / BSZ);
      tread (i_dev x) bp ;;
      d ← tdata bp;
      let m := Z.min (n - tot) (BSZ - off mod BSZ) in
      trelse bp ;;
      readi_loop f ip (off + m) n (tot + m) (dst ++ take (Z.to_nat m) (drop (Z.to_nat (off mod BSZ)) d))
  end.

(** The value returned and the bytes stored at [dst]. *)
Definition readi (ip : nat) (off n : Z) : T (Z * list Z) :=
  x ← inode_ ip;
  if i_type x =? T_DEV then
    if (i_major x <? 0) || (i_major x >=? NDEV) then mret (-1, []) else
    match devread (i_major x) with
    | None => mret (-1, [])
    | Some f => mret (f n)
    end
  else
  if (off >? i_size x) || (u32 (off + n) <? off) then mret (-1, []) else
  let n := if u32 (off + n) >? i_size x then i_size x - off else n in
  bs ← readi_loop (Z.to_nat n) ip off n 0 [];
  mret (n, bs).

(** The loop of [writei] on the bytes that are left to write. *)
Fixpoint writei_loop (fuel : nat) (ip : nat) (src : list Z) (off n tot : Z) : T Z :=
  if negb (tot <? n) then mret off else
  match fuel with
  | O => tnofuel
  | S f =>
      x ← inode_ ip;
      bp ← bmap ip (off / BSZ);
      tread (i_dev x) bp ;;
      d ← tdata bp;
      let m := Z.min (n - tot) (BSZ - off mod BSZ) in
      tset bp (splice (Z.to_nat (off mod BSZ)) (take (Z.to_nat m) src) d) ;;
      tlog bp ;;
      trelse bp ;;
      writei_loop f ip (drop (Z.to_nat m) src) (off + m) n (tot + m)
  end.

(** [n] is the length of [src]. *)
Definition writei (ip : nat) (src : list Z) (off : Z) : T Z :=
  let n := Z.of_nat (length src) in
  x ← inode_ ip;
  if i_type x =? T_DEV then
    if (i_major x <? 0) || (i_major x >=? NDEV) then mret (-1) else
    match devwrite (i_major x) with
    | None => mret (-1)
    | Some f => mret (f src)
    end
  else
  if (off >? i_size x) || (u32 (off + n) <? off) then mret (-1) else
  if u32 (off + n) >? MAXFILE * BSZ then mret (-1) else
  off ← writei_loop (Z.to_nat n) ip src off n 0;
  x ← inode_ ip;
  (if (n >? 0) && (off >? i_size x) then upd ip (set_size off) ;; iupdate ip else mret tt) ;;
  mret n.

(** ** Directories *)

(** [strncmp] on strings whose end reads as NUL. *)
Fixpoint strncmp (n : nat) (p q : list Z) : Z :=
  match n with
  | O => 0
  | S n' =>
      let c := default 0 (head p) in
      let d := default 0 (head q) in
      if negb (c =? 0) && (c =? d) then strncmp n' (drop 1 p) (drop 1 q) else c - d
  end.

Definition namecmp (s t : list Z) : Z := strncmp DIRSIZ s t.

(** The fields of a [struct dirent] and its bytes; [strncpy] pads with NULs. *)
Definition de_inum (de : list Z) : Z := get16 0 de.
Definition de_name (de : list Z) : list Z := drop 2 de.
Definition dirent (inum : Z) (name : list Z) : list Z :=
  le_bytes 2 (u16 inum) ++ take DIRSIZ (name ++ replicate DIRSIZ 0).

(** The entry's inode and its offset. *)
Fixpoint dirlookup_loop (fuel : nat) (dp : nat) (name : list Z) (off : Z) : T (option (nat * Z)) :=
  x ← inode_ dp;
  if negb (off <? i_size x) then mret None else
  match fuel with
  | O => tnofuel
  | S f =>
      '(r, de) ← readi dp off sizeof_dirent;
      if negb (r =? sizeof_dirent) then tpanic "dirlookup read" else
      if de_inum de =? 0 then dirlookup_loop f dp name (off + sizeof_dirent) else
      if namecmp name (de_name de) =? 0 then
        ip ← iget (i_dev x) (de_inum de);
        mret (Some (ip, off))
      else dirlookup_loop f dp name (off + sizeof_dirent)
  end.

Definition dir_fuel (x : inode) : nat := S (Z.to_nat (i_size x / sizeof_dirent)).

Definition dirlookup (dp : nat) (name : list Z) : T (option (nat * Z)) :=
  x ← inode_ dp;
  if negb (i_type x =? T_DIR) then tpanic "dirlookup not DIR" else
  dirlookup_loop (dir_fuel x) dp name 0.

(** The offset of an empty entry, or the directory's size. *)
Fixpoint empty_loop (fuel : nat) (dp : nat) (off : Z) : T Z :=
  x ← inode_ dp;
  if negb (off <? i_size x) then mret off else
  match fuel with
  | O => tnofuel
  | S f =>
      '(r, de) ← readi dp off sizeof_dirent;
      if negb (r =? sizeof_dirent) then tpanic "dirlink read" else
      if de_inum de =? 0 then mret off else empty_loop f dp (off + sizeof_dirent)
  end.

Definition dirlink (dp : nat) (name : list Z) (inum : Z) : T Z :=
  r ← dirlookup dp name;
  match r with
  | Some (ip, _) => iput ip ;; mret (-1)
  | None =>
      x ← inode_ dp;
      off ← empty_loop (dir_fuel x) dp 0;
      n ← writei dp (dirent inum name) off;
      if negb (n =? sizeof_dirent) then tpanic "dirlink" else mret 0
  end.

(** ** Paths *)

Fixpoint skip_slashes (path : list Z) : list Z :=
  match path with
  | c :: path' => if c =? chr "/" then skip_slashes path' else path
  | [] => []
  end.

(** The characters up to a slash or the end, and the rest. *)
Fixpoint elem (path : list Z) : list Z * list Z :=
  match path with
  | [] => ([], [])
  | c :: path' => if c =? chr "/" then ([], path) else let '(e, r) := elem path' in (c :: e, r)
  end.

(** The rest of the path and the element, cut to DIRSIZ characters. *)
Definition skipelem (path : list Z) : option (list Z * list Z) :=
  match skip_slashes path with
  | [] => None
  | path => let '(e, r) := elem path in Some (skip_slashes r, take DIRSIZ e)
  end.

(** The inode, with the last name that [skipelem] stored. *)
Fixpoint namex_loop (fuel : nat) (ip : nat) (path : list Z) (nameiparent : bool) (name : list Z) :
    T (option (nat * list Z)) :=
  match fuel with
  | O => tnofuel
  | S f =>
      match skipelem path with
      | None =>
          if nameiparent then iput ip ;; mret None else mret (Some (ip, name))
      | Some (path, name) =>
          ilock ip ;;
          x ← inode_ ip;
          if negb (i_type x =? T_DIR) then iunlockput ip ;; mret None else
          if nameiparent && bool_decide (path = []) then iunlock ip ;; mret (Some (ip, name)) else
          next ← dirlookup ip name;
          match next with
          | None => iunlockput ip ;; mret None
          | Some (next, _) => iunlockput ip ;; namex_loop f next path nameiparent name
          end
      end
  end.

(** Each turn takes a character of the path. *)
Definition namex (cwd : nat) (path : list Z) (nameiparent : bool) : T (option (nat * list Z)) :=
  ip ← (if bool_decide (head path = Some (chr "/")) then iget ROOTDEV ROOTINO else idup cwd);
  namex_loop (S (length path)) ip path nameiparent [].

Definition namei (cwd : nat) (path : list Z) : T (option nat) :=
  r ← namex cwd path false;
  mret (option_map fst r).

Definition nameiparent (cwd : nat) (path : list Z) : T (option (nat * list Z)) := namex cwd path true.

End Process.

(** [iinit]: locks and the superblock, outside any transaction; the message on the
    console is left out. *)
Definition iinit (dev : Z) : prog fs unit :=
  pmod (fun m => mkfs (sb m) (map (set_lock initsleeplock) (icache m))) ;;
  s ← readsb dev;
  pmod (fun m => mkfs s (icache m)).

End Fs.
