(* ===== verification/FsCall.v ===== *)
(** * File-system calls are atomic

    sysfile.c, exec.c and proc.c run the operations of fs.c between [begin_op]
    and [end_op].  [fs_call] is such a call over bio.c and log.c; what [run_tx]
    says of an operation holds of the call, and a crash at any point of it leaves
    all of its effect or none. *)

From S2P Require Import Prelude Spinlock Bio BioSpec BlockProg Log LogCrash Recovery LogOps FsProg.
Import Log.

Definition fs_call {Mem A} (p : tprog Mem A) : prog (Mem * log) A :=
  with_log begin_op ;; a ← compile p; with_log end_op ;; mret a.

(** A transaction that has done nothing. *)
Definition tx0 (v : list block) : txs := mktx v ∅ ∅ ∅ 0 ∅.

(** Between calls: no operation, nothing in the log, no buffer held; the blocks of
    the file system are [v]. *)
Record at_rest (v : list block) (l : log) (c : Spec.cache) : Prop := {
  r_inv : log_inv 1 (mksys [] l c);
  r_n : n (lh l) = 0;
  r_held : Spec.held c = ∅;
  r_view : forall b, 0 <= b -> ~ log_area v b -> Spec.vw_at b c = tview b (tx0 v);
  r_len : length (Spec.vw c) = length v;
  r_geo : sb_logstart (super v) = start l /\ sb_nlog (super v) = size l
}.

Lemma rest_blocks l : n (lh l) = 0 -> tx_blocks l = [].
Proof. intros H. unfold tx_blocks. by rewrite H. Qed.

Lemma rest_rtx v l c : at_rest v l c -> Rtx (tx0 v) (set_outstanding 1 l) c.
Proof.
  intros [Hv Hn Hh Hvw Hlen Hgeo]. pose proof (rest_blocks l Hn) as Eb. pose proof (v_dirty _ _ Hv) as Hd. cbn in Hd. rewrite Eb in Hd.
  split; cbn; try done.
  - apply (v_vlen _ _ Hv).
  - rewrite Hn. lia.
  - apply (v_len _ _ Hv).
  - apply (v_nodup _ _ Hv).
  - apply (v_dirty _ _ Hv).
  - intros b Hb Hb' _. apply (v_clean _ _ Hv); [done|done|]. cbn. rewrite Hh. set_solver.
Qed.

(** The state in which the call commits. *)
Lemma call_tx v l c t l' c' h : at_rest v l c -> Rtx t l' c' -> l' = set_lh h (set_outstanding 1 l) -> fits t l ->
  Spec.img c' = Spec.img c -> theld t = ∅ -> stale t = ∅ -> tx (set_committing 1 (set_outstanding 0 l')) c'.
Proof.
  intros [Hv _ _ _ _ _] HR -> (Hp & Hf1 & Hf2) Himg Hh Hs. pose proof (x_count _ _ _ HR) as Hn. cbn in Hn.
  split; cbn; rewrite ?Himg.
  - apply (v_dev _ _ Hv).
  - split; [by rewrite (x_held _ _ _ HR)|apply HR|]. intros b Hb Hb'. apply (x_clean _ _ _ HR); [done|done|rewrite Hs; set_solver].
  - apply (v_geom _ _ Hv).
  - rewrite Hn. unfold LOGSIZE, MAXOPBLOCKS, NBUF in *. lia.
  - apply (x_blklen _ _ _ HR).
  - apply (x_nodup _ _ _ HR).
  - apply Forall_forall. intros b Hb. rewrite <- Himg. apply (x_data _ _ _ HR).
    rewrite <- (x_dirty _ _ _ HR), (x_blocks _ _ _ HR). by apply elem_of_list_to_set.
  - apply (x_blocks _ _ _ HR).
  - apply (v_empty _ _ Hv).
Qed.

Lemma end_op_last l c : committing l = 0 -> outstanding l = 1 -> let l' := set_committing 1 (set_outstanding 0 l) in
  tx l' c -> run_spec end_op (l, c) = Ok tt (set_n 0 (set_outstanding 0 l), wrs (commit_writes l' c) c).
Proof.
  intros Hc Ho l' Htx. unfold end_op. rewrite run_pmod, run_pget. cbn [committing outstanding set_outstanding].
  rewrite Hc, Ho. change (1 - 1) with 0. cbn [negb Z.eqb]. rewrite run_pput, run_spec_bind_ok with (1 := commit_run _ _ Htx).
  cbn. unfold mret, M_ret. do 3 f_equal. unfold set_committing, set_n, set_lh, set_outstanding. cbn. by rewrite Hc.
Qed.

Lemma commit_at_rest t l c : Rtx t l c -> LOGSIZE + 1 <= size l -> tx (set_committing 1 (set_outstanding 0 l)) c -> committing l = 0 ->
  at_rest (view t) (set_n 0 (set_outstanding 0 l)) (wrs (commit_writes (set_committing 1 (set_outstanding 0 l)) c) c).
Proof.
  intros HR Hsz Htx Hc. destruct (commit_done _ _ Htx) as ([Hh' Hl' Hc'] & Hd & Hz & Hg).
  change (start (set_committing 1 (set_outstanding 0 l))) with (start l) in *.
  change (size (set_committing 1 (set_outstanding 0 l))) with (size l) in *. split; try done.
  - split; cbn [ops mem cache dev start size outstanding committing lh n blk set_outstanding set_n set_lh]; try done.
    + apply (tx_dev _ _ Htx).
    + lia.
    + apply (tx_len _ _ Htx).
    + apply NoDup_nil_2.
    + intros b Hb Hnd _. by apply Hc'.
    + rewrite Hh'. intros b Hb. by apply not_elem_of_empty in Hb.
  - intros b Hb Hn. rewrite Hc' by (done || rewrite Hd; set_solver). rewrite (commit_installs _ _ Htx b Hb).
    + by apply (x_view _ _ _ HR).
    + unfold log_area in Hn. destruct (x_geo _ _ _ HR) as [E1 E2]. by rewrite E1, E2 in Hn.
  - rewrite wrs_vw, length_apply_writes. apply (x_vlen _ _ _ HR).
  - apply (x_geo _ _ _ HR).
Qed.

(** The call on the specification of the cache. *)
Lemma fs_call_run {Mem A} (p : tprog Mem A) m a m' t' v l c :
  at_rest v l c -> run_tx p (m, tx0 v) = Ok a (m', t') -> fits t' l -> theld t' = ∅ -> stale t' = ∅ ->
  exists l1 c1, let l2 := set_committing 1 (set_outstanding 0 l1) in
    run_spec (fs_call p) ((m, l), c) = Ok a ((m', set_n 0 (set_outstanding 0 l1)), wrs (commit_writes l2 c1) c1) /\
    tx l2 c1 /\ Spec.img c1 = Spec.img c /\ Spec.tr c1 = Spec.tr c /\ Rtx t' l1 c1 /\
    start l1 = start l /\ size l1 = size l /\
    at_rest (view t') (set_n 0 (set_outstanding 0 l1)) (wrs (commit_writes l2 c1) c1).
Proof.
  intros Hr Hrun Hfit Hh Hs. pose proof (r_inv _ _ _ Hr) as Hv. pose proof (v_out _ _ Hv) as Ho. pose proof (v_idle _ _ Hv) as Hc.
  cbn in Ho, Hc. assert (Ho1 : 1 <= outstanding (set_outstanding 1 l)) by done.
  destruct (run_tx_refines p m _ a m' t' (set_outstanding 1 l) c Hrun (rest_rtx _ _ _ Hr) Hfit (or_introl Ho1))
    as (l1 & c1 & E & HR & [h El] & Himg & Htr).
  assert (Htx : tx (set_committing 1 (set_outstanding 0 l1)) c1) by (by eapply call_tx).
  exists l1, c1. cbv zeta. split.
  - unfold fs_call. rewrite run_spec_bind_ok with (a := tt) (st' := ((m, set_outstanding 1 l), c)).
    + rewrite run_spec_bind_ok with (1 := E). rewrite run_spec_bind_ok with (a := tt)
        (st' := ((m', set_n 0 (set_outstanding 0 l1)), wrs (commit_writes (set_committing 1 (set_outstanding 0 l1)) c1) c1)); [done|].
      rewrite run_with_log, end_op_last; [done| | |done]; by rewrite El.
    + rewrite run_with_log, begin_op_run by done. rewrite (r_n _ _ _ Hr), Ho. done.
  - split; [done|]. split; [done|]. split; [done|]. split; [done|]. split; [by rewrite El|]. split; [by rewrite El|].
    apply commit_at_rest; [done| |done|by rewrite El]. rewrite El. pose proof (v_size _ _ Hv). cbn in *. lia.
Qed.

(** ** Recovery between calls *)

#[local] Opaque boot_recover.

Lemma rest_clean v l c b : at_rest v l c -> 0 <= b -> Spec.vw_at b c = Spec.img_at b c.
Proof.
  intros [Hv Hn Hh _ _ _] Hb. apply (v_clean _ _ Hv); [done| |]; cbn [cache].
  - pose proof (v_dirty _ _ Hv) as E. cbn in E. rewrite E, rest_blocks by done. set_solver.
  - rewrite Hh. set_solver.
Qed.

Lemma rest_sb_ok v l c : at_rest v l c -> sb_ok (start l) (size l) (Spec.img c).
Proof.
  intros Hr. pose proof Hr as [Hv Hn Hh Hvw Hlen [G1 G2]]. pose proof (v_geom _ _ Hv) as Hg. cbn in Hg. pose proof (g_start _ _ _ Hg). pose proof (g_end _ _ _ Hg).
  pose proof (g_sz _ _ _ Hg).
  assert (E : img_at (Spec.img c) 1 = default Bio.zero_block (v !! 1%nat)).
  { transitivity (Spec.vw_at 1 c); [symmetry; by apply (rest_clean v l)|apply Hvw; [lia|]]. unfold log_area. rewrite G1. lia. }
  unfold sb_ok. rewrite E. fold (super v). split; [lia|done].
Qed.

Lemma rest_recovers v l c im q : at_rest v l c -> rtc crash_recover (Spec.img c) im ->
  exists lf ef sf, boot_recover im q = Ok tt (lf, ef, sf) /\
    forall b, 0 <= b -> ~ log_area v b -> img_at (Bio.memdisk (Bio.dsk sf)) b = tview b (tx0 v).
Proof.
  intros Hr Hrtc. pose proof (rest_sb_ok _ _ _ Hr) as Hsb. pose proof (inv_tx 1 ltac:(lia) _ 0 1 (r_inv _ _ _ Hr) (r_held _ _ _ Hr)) as Htx.
  cbn [cache mem] in Htx. assert (Hok : disk_ok (start l) (size l) (Spec.img c)).
  { destruct (commit_prefix_log _ _ Htx 0 (start l + size l)) as [H _]; [|cbn; lia|exact H].
    pose proof (g_start _ _ _ (tx_geom _ _ Htx)). pose proof (g_sz _ _ _ (tx_geom _ _ Htx)). cbn in *. lia. }
  assert (HI : recoverable (start l) (size l) (Spec.img c) (Spec.img c)) by (split; [done|split; [done|split; [by intros ? ? ?|done]]]).
  destruct (crash_recover_inv _ _ _ _ _ HI Hrtc) as (Hok2 & Hsb2 & Hl2 & _).
  destruct (boot_recover_run _ _ im q Hsb2 Hok2) as (lf & ef & sf & Ef & Ht & Hm & _ & _ & Hn).
  exists lf, ef, sf. split; [done|]. intros b Hb Hnl. destruct (recover_prefix_done _ _ im Hok2) as (_ & Hl3 & Hz).
  assert (Hnl' : ~ (start l <= b < start l + size l)).
  { unfold log_area in Hnl. destruct (r_geo _ _ _ Hr) as [E1 E2]. by rewrite E1, E2 in Hnl. }
  rewrite Hm, <- (logical_nil _ (start l)) by exact Hz. rewrite Hl3, Hl2 by done.
  rewrite (logical_nil _ (start l)) by apply (v_empty _ _ (r_inv _ _ _ Hr)). rewrite <- (r_view _ _ _ Hr b Hb Hnl). symmetry.
  by apply (rest_clean v l).
Qed.

(** ** Programs of several transactions *)

(** A system call: transactions, and code outside of them that reads blocks. *)
Inductive sprog (Mem A : Type) : Type :=
| SRet (a : A)
| SPanic (msg : string)
| SSleep
| STx {B : Type} (p : tprog Mem B) (k : B -> sprog Mem A)
| SRun {B : Type} (p : tprog Mem B) (k : B -> sprog Mem A).

Arguments SRet {Mem A} a.
Arguments SPanic {Mem A} msg.
Arguments SSleep {Mem A}.
Arguments STx {Mem A B} p k.
Arguments SRun {Mem A B} p k.

Fixpoint sbind {Mem A B} (f : A -> sprog Mem B) (p : sprog Mem A) : sprog Mem B :=
  match p with
  | SRet a => f a
  | SPanic msg => SPanic msg
  | SSleep => SSleep
  | STx p k => STx p (fun b => sbind f (k b))
  | SRun p k => SRun p (fun b => sbind f (k b))
  end.

#[global] Instance sprog_ret {Mem} : MRet (sprog Mem) := fun A a => SRet a.
#[global] Instance sprog_bind {Mem} : MBind (sprog Mem) := fun A B f p => sbind f p.

Definition stx {Mem A} (p : tprog Mem A) : sprog Mem A := STx p SRet.
Definition srun {Mem A} (p : tprog Mem A) : sprog Mem A := SRun p SRet.

(** The program over the blocks of the file system. *)
Fixpoint run_s {Mem A} (p : sprog Mem A) : M (Mem * list block) A :=
  match p with
  | SRet a => mret a
  | SPanic msg => panic msg
  | SSleep => asleep
  | STx p k | SRun p k => fun st =>
      match run_tx p (st.1, tx0 st.2) with
      | Ok b (m', t') => run_s (k b) (m', view t')
      | Panic msg => Panic msg
      | Asleep (m', t') => Asleep (m', view t')
      | NoFuel => NoFuel
      end
  end.

(** The program over the cache and the log. *)
Fixpoint compile_s {Mem A} (p : sprog Mem A) : prog (Mem * log) A :=
  match p with
  | SRet a => PRet a
  | SPanic msg => PPanic msg
  | SSleep => PSleep
  | STx p k => b ← fs_call p; compile_s (k b)
  | SRun p k => b ← compile p; compile_s (k b)
  end.

(** Each transaction of the run fits the cache and the log and leaves no buffer
    held; the code outside of transactions changes no block. *)
Fixpoint fits_s {Mem A} (p : sprog Mem A) (l : log) (m : Mem) (v : list block) : Prop :=
  match p with
  | STx p k =>
      match run_tx p (m, tx0 v) with
      | Ok b (m', t') => fits t' l /\ theld t' = ∅ /\ stale t' = ∅ /\ fits_s (k b) l m' (view t')
      | _ => True
      end
  | SRun p k =>
      match run_tx p (m, tx0 v) with
      | Ok b (m', t') => fits t' l /\ theld t' = ∅ /\ stale t' = ∅ /\ tlogged t' = ∅ /\ fits_s (k b) l m' (view t')
      | _ => True
      end
  | _ => True
  end.

(** The same as a check. *)
#[global] Instance fits_dec t l : Decision (fits t l).
Proof. unfold fits. apply _. Defined.

Fixpoint fits_sb {Mem A} (p : sprog Mem A) (l : log) (m : Mem) (v : list block) : bool :=
  match p with
  | STx p k =>
      match run_tx p (m, tx0 v) with
      | Ok b (m', t') => bool_decide (fits t' l /\ theld t' = ∅ /\ stale t' = ∅) && fits_sb (k b) l m' (view t')
      | _ => true
      end
  | SRun p k =>
      match run_tx p (m, tx0 v) with
      | Ok b (m', t') => bool_decide (fits t' l /\ theld t' = ∅ /\ stale t' = ∅ /\ tlogged t' = ∅) && fits_sb (k b) l m' (view t')
      | _ => true
      end
  | _ => true
  end.

Lemma fits_sb_ok {Mem A} (p : sprog Mem A) l m v : fits_sb p l m v = true -> fits_s p l m v.
Proof.
  revert m v. induction p as [a|msg| |B p k IH|B p k IH]; intros m v; cbn [fits_sb fits_s]; try done.
  all: destruct (run_tx p (m, tx0 v)) as [b [m' t']|?|?|]; try done.
  - intros [(H1 & H2 & H3)%bool_decide_eq_true H4]%andb_true_iff. split; [done|]. split; [done|]. split; [done|]. by apply IH.
  - intros [(H1 & H2 & H3 & H5)%bool_decide_eq_true H4]%andb_true_iff. split; [done|]. split; [done|]. split; [done|]. split; [done|]. by apply IH.
Qed.

(** The contents of the file system between the transactions of the run. *)
Fixpoint views_s {Mem A} (p : sprog Mem A) (m : Mem) (v : list block) : list (list block) :=
  v :: match p with
       | STx p k | SRun p k =>
           match run_tx p (m, tx0 v) with
           | Ok b (m', t') => views_s (k b) m' (view t')
           | _ => []
           end
       | _ => []
       end.

Lemma fits_geo t l l' : size l' = size l -> fits t l -> fits t l'.
Proof. unfold fits. by intros ->. Qed.

Lemma fits_s_geo {Mem A} (p : sprog Mem A) l l' m v : size l' = size l -> fits_s p l m v -> fits_s p l' m v.
Proof.
  intros E. revert m v. induction p as [| | |B p k IH|B p k IH]; intros m v; cbn; try done; destruct (run_tx p (m, tx0 v)) as [b [m' t']| | |]; try done.
  - intros (H1 & H2 & H3 & H4). split; [by eapply fits_geo|]. split; [done|]. split; [done|]. by apply IH.
  - intros (H1 & H2 & H3 & H4 & H5). split; [by eapply fits_geo|]. split; [done|]. split; [done|]. split; [done|]. by apply IH.
Qed.

(** Code outside of a transaction leaves log and disk as they are. *)
Lemma run_outside {Mem A} (p : tprog Mem A) m a m' t' v l c :
  at_rest v l c -> run_tx p (m, tx0 v) = Ok a (m', t') -> fits t' l -> theld t' = ∅ -> stale t' = ∅ -> tlogged t' = ∅ ->
  exists l' c', run_spec (compile p) ((m, l), c) = Ok a ((m', l'), c') /\ start l' = start l /\ size l' = size l /\
    Spec.img c' = Spec.img c /\ Spec.tr c' = Spec.tr c /\ at_rest (view t') l' c'.
Proof.
  intros Hr Hrun Hfit Hh Hs Hlg. pose proof (r_inv _ _ _ Hr) as Hv.
  assert (HR0 : Rtx (tx0 v) l c) by (destruct (rest_rtx v l c Hr); split; done).
  destruct (run_tx_refines p m _ a m' t' l c Hrun HR0 Hfit (or_intror Hlg)) as (l' & c' & E & HR & [h El] & Himg & Htr).
  subst l'. exists (set_lh h l), c'. split; [done|]. split; [done|]. split; [done|]. split; [done|]. split; [done|].
  pose proof (x_count _ _ _ HR) as Hn. rewrite Hlg, size_empty in Hn. change (Z.of_nat 0) with 0 in Hn. destruct Hv.
  split; [|done|by rewrite (x_held _ _ _ HR)|apply (x_view _ _ _ HR)|apply (x_vlen _ _ _ HR)|apply (x_geo _ _ _ HR)].
  split; cbn [ops mem cache dev start size outstanding committing set_lh] in *; rewrite ?Himg, ?Hn; try done.
  - apply (x_blklen _ _ _ HR).
  - apply (x_nodup _ _ _ HR).
  - by rewrite rest_blocks.
  - apply (x_blocks _ _ _ HR).
  - rewrite <- Himg. apply (x_len _ _ _ HR).
  - intros b Hb Hd _. apply (x_clean _ _ _ HR); [done|done|]. rewrite Hs. set_solver.
  - rewrite (x_held _ _ _ HR), Hh. set_solver.
Qed.

(** What a run of transactions does to the disk: its writes, of which any prefix
    recovers to the file system between two transactions. *)
Definition prefixes_recover (im : list block) (ws : list (Z * block)) (vs : list (list block)) : Prop :=
  forall k im' q, rtc crash_recover (apply_writes (take k ws) im) im' ->
  exists lf ef sf v, boot_recover im' q = Ok tt (lf, ef, sf) /\ v ∈ vs /\
    forall b, 0 <= b -> ~ log_area v b -> img_at (Bio.memdisk (Bio.dsk sf)) b = tview b (tx0 v).

Lemma prefixes_app im ws ws' vs vs' : prefixes_recover im ws vs -> prefixes_recover (apply_writes ws im) ws' vs' ->
  prefixes_recover im (ws ++ ws') (vs ++ vs').
Proof.
  intros H1 H2 k im' q Hr. destruct (decide (k <= length ws)%nat) as [Hk|Hk].
  - rewrite take_app_le in Hr by done. destruct (H1 k im' q Hr) as (lf & ef & sf & v & E & Hv & Hb).
    exists lf, ef, sf, v. split; [done|]. split; [|done]. apply elem_of_app. by left.
  - rewrite take_app_ge, apply_writes_app in Hr by lia. destruct (H2 _ im' q Hr) as (lf & ef & sf & v & E & Hv & Hb).
    exists lf, ef, sf, v. split; [done|]. split; [|done]. apply elem_of_app. by right.
Qed.

Lemma prefixes_mono im ws vs vs' : (forall v, v ∈ vs -> v ∈ vs') -> prefixes_recover im ws vs -> prefixes_recover im ws vs'.
Proof. intros Hs H k im' q Hr. destruct (H k im' q Hr) as (lf & ef & sf & v & E & Hv & Hb). exists lf, ef, sf, v. eauto. Qed.

Lemma rest_prefixes v l c : at_rest v l c -> prefixes_recover (Spec.img c) [] [v].
Proof.
  intros Hr k im' q Hrtc. rewrite take_nil in Hrtc. destruct (rest_recovers v l c im' q Hr Hrtc) as (lf & ef & sf & E & Hb).
  exists lf, ef, sf, v. split; [done|]. split; [by apply list_elem_of_singleton|done].
Qed.

(** One call. *)
Lemma call_prefixes v l c l2 c1 t' l1 : at_rest v l c -> l2 = set_committing 1 (set_outstanding 0 l1) -> tx l2 c1 -> Spec.img c1 = Spec.img c ->
  Rtx t' l1 c1 -> start l1 = start l -> size l1 = size l ->
  at_rest (view t') (set_n 0 (set_outstanding 0 l1)) (wrs (commit_writes l2 c1) c1) ->
  prefixes_recover (Spec.img c) (commit_writes l2 c1) [v; view t'].
Proof.
  intros Hr -> Htx Himg HR Hst Hsz Hr' k im' q Hrtc. rewrite <- Himg in Hrtc.
  assert (G : forall w, sb_logstart (super w) = start l -> sb_nlog (super w) = size l -> forall b, ~ log_area w b ->
    ~ (start l1 <= b < start l1 + size l1)).
  { intros w E1 E2 b Hn. unfold log_area in Hn. by rewrite E1, E2, <- Hst, <- Hsz in Hn. }
  destruct (decide (0 < n (lh l1))) as [Hpos|Hz].
  - destruct (commit_recovers _ c1 k im' q Htx Hpos) as (lf & ef & sf & E & _ & Hb); [|done|].
    { cbn. rewrite Himg, Hst, Hsz. by eapply rest_sb_ok. }
    exists lf, ef, sf. cbn in Hb. case_decide.
    + exists v. split; [done|]. split; [apply list_elem_of_here|]. intros b Hb0 Hnl. destruct (r_geo _ _ _ Hr) as [G1 G2].
      rewrite (Hb b Hb0 (G v G1 G2 b Hnl)), Himg, <- (r_view _ _ _ Hr b Hb0 Hnl). exact (eq_sym (rest_clean v l c b Hr Hb0)).
    + exists (view t'). split; [done|]. split; [apply list_elem_of_further, list_elem_of_here|]. intros b Hb0 Hnl. destruct (x_geo _ _ _ HR) as [G1 G2].
      rewrite Hst in G1. rewrite Hsz in G2. rewrite (Hb b Hb0 (G _ G1 G2 b Hnl)). exact (x_view _ _ _ HR b Hb0 Hnl).
  - assert (commit_writes (set_committing 1 (set_outstanding 0 l1)) c1 = []) as E.
    { unfold commit_writes. cbn [n lh set_committing set_outstanding]. by rewrite Z.gtb_ltb, (proj2 (Z.ltb_ge _ _)) by lia. }
    rewrite E, take_nil in Hrtc. rewrite Himg in Hrtc. destruct (rest_recovers v l c im' q Hr Hrtc) as (lf & ef & sf & Ef & Hb).
    exists lf, ef, sf, v. split; [done|]. split; [apply list_elem_of_here|done].
Qed.

Lemma views_head {Mem A} (p : sprog Mem A) m v : v ∈ views_s p m v.
Proof. destruct p; apply list_elem_of_here. Qed.

(** A run of transactions over the specification of the cache. *)
Lemma run_s_sim {Mem A} (p : sprog Mem A) m v l c a m' v' :
  at_rest v l c -> run_s p (m, v) = Ok a (m', v') -> fits_s p l m v ->
  exists l' c' ws, run_spec (compile_s p) ((m, l), c) = Ok a ((m', l'), c') /\ at_rest v' l' c' /\
    Spec.tr c' = Spec.tr c ++ ws /\ Spec.img c' = apply_writes ws (Spec.img c) /\
    prefixes_recover (Spec.img c) ws (views_s p m v).
Proof.
  revert m v l c. induction p as [a0| | |B p k IH|B p k IH]; intros m v l c Hr; cbn [run_s compile_s fits_s views_s]; try done.
  - intros [= -> -> ->] _. exists l, c, []. split; [done|]. split; [done|]. split; [by rewrite app_nil_r|]. split; [done|]. by eapply rest_prefixes.
  - destruct (run_tx p (m, tx0 v)) as [b [m1 t1]| |[]|] eqn:Ep; try done; cbn [fst snd]; rewrite Ep; try done.
    intros Hrun (Hf & Hh & Hs & Hfs). destruct (fs_call_run p m b m1 t1 v l c Hr Ep Hf Hh Hs) as (l1 & c1 & E & Htx & Himg & Htr & HR & Hst & Hsz & Hr1).
    destruct (IH b m1 (view t1) _ _ Hr1 Hrun) as (l' & c' & ws & E' & Hr' & Htr' & Himg' & Hp); [by eapply fits_s_geo|].
    eexists l', c', (_ ++ ws). split; [rewrite run_spec_bind_ok with (1 := E); exact E'|]. split; [done|].
    split; [rewrite Htr', wrs_tr, Htr, (assoc_L (++)); reflexivity|].
    rewrite wrs_img, Himg in Himg', Hp. split; [by rewrite apply_writes_app|].
    eapply (prefixes_mono _ _ ([v; view t1] ++ views_s (k b) m1 (view t1))).
    { intros w [[->|[->|[]%elem_of_nil]%elem_of_cons]%elem_of_cons|Hw]%elem_of_app.
      - apply list_elem_of_here.
      - apply list_elem_of_further, views_head.
      - by apply list_elem_of_further. }
    apply prefixes_app; [|exact Hp]. by eapply call_prefixes.
  - destruct (run_tx p (m, tx0 v)) as [b [m1 t1]| |[]|] eqn:Ep; try done; cbn [fst snd]; rewrite Ep; try done.
    intros Hrun (Hf & Hh & Hs & Hlg & Hfs). destruct (run_outside p m b m1 t1 v l c Hr Ep Hf Hh Hs Hlg) as (l1 & c1 & E & Hst & Hsz & Himg & Htr & Hr1).
    destruct (IH b m1 (view t1) _ _ Hr1 Hrun) as (l' & c' & ws & E' & Hr' & Htr' & Himg' & Hp); [by eapply fits_s_geo|].
    exists l', c', ws. split; [rewrite run_spec_bind_ok with (1 := E); exact E'|]. split; [done|]. split; [by rewrite Htr', Htr|].
    rewrite Himg in Himg', Hp. split; [done|]. eapply prefixes_mono; [|exact Hp]. intros w Hw. by apply list_elem_of_further.
Qed.
