(* ===== verification/FsAlloc.v ===== *)
(** * The free map of the file system (system/storage/fs.c)

    [used] reads the bit of a block.  [balloc] takes the first free block, marks
    and zeroes it and changes nothing else; [bfree] clears the bit of a block. *)

From S2P Require Import Prelude Spinlock Bio BioSpec BlockProg Log FsProg Fs.
Import Fs.

(** ** Blocks of a disk *)

Definition blk (v : list block) (b : Z) : block := default Bio.zero_block (v !! Z.to_nat b).

Definition used (s : superblock) (v : list block) (b : Z) : bool := negb (bit_free (blk v (BBLOCK b s)) (b mod BPB)).

(** The first data block: the blocks before are the boot block, the superblock, the
    log, the inodes and the free map. *)
Definition dstart (s : superblock) : Z := sb_bmapstart s + (sb_size s - 1) / BPB + 1.

Record disk_ok (s : superblock) (v : list block) : Prop := {
  d_super : super v = s;
  d_log : sb_logstart s + sb_nlog s <= sb_inodestart s;
  d_size : 0 < sb_size s <= Z.of_nat (length v);
  d_max : sb_size s < 2 ^ 31;
  d_blocks : Forall (fun d => length d = BSIZE) v;
  d_inodes : 1 < sb_inodestart s /\ 0 <= sb_ninodes s /\ sb_inodestart s + sb_ninodes s / IPB + 1 <= sb_bmapstart s;
  d_data : dstart s <= sb_size s;
  d_meta : forall b, 0 <= b < dstart s -> used s v b = true
}.

Lemma layout s v : disk_ok s v -> 2 <= sb_inodestart s < sb_bmapstart s /\ sb_bmapstart s < dstart s.
Proof.
  intros H. pose proof (d_inodes _ _ H). pose proof (d_size _ _ H).
  assert (0 <= sb_ninodes s / IPB) by (apply Z.div_pos; unfold IPB; lia).
  assert (0 <= (sb_size s - 1) / BPB) by (apply Z.div_pos; unfold BPB; lia). unfold dstart. lia.
Qed.

(** The inodes, the free map and the data are not the log's. *)
Lemma range_ok s t b : disk_ok s (view t) -> sb_inodestart s <= b < sb_size s -> t_in_range b t.
Proof.
  intros H Hb. pose proof (d_inodes _ _ H). pose proof (d_size _ _ H). pose proof (d_log _ _ H).
  split; [lia|]. unfold log_area. rewrite (d_super _ _ H). lia.
Qed.

Lemma blk_length s v b : disk_ok s v -> length (blk v b) = BSIZE.
Proof.
  intros H. unfold blk. destruct (v !! Z.to_nat b) as [d|] eqn:E; [|done].
  by apply (Forall_lookup_1 _ _ _ _ (d_blocks _ _ H) E).
Qed.

Lemma blk_insert_eq v b d : 0 <= b < Z.of_nat (length v) -> blk (<[Z.to_nat b := d]> v) b = d.
Proof. intros Hb. unfold blk. by rewrite list_lookup_insert_eq by lia. Qed.

Lemma blk_insert_ne v b b' d : 0 <= b -> 0 <= b' -> b <> b' -> blk (<[Z.to_nat b := d]> v) b' = blk v b'.
Proof. intros H1 H2 H3. unfold blk. by rewrite list_lookup_insert_ne by lia. Qed.

Lemma bblock_range s v b : disk_ok s v -> 0 <= b < sb_size s ->
  sb_bmapstart s <= BBLOCK b s < dstart s /\ 0 < BBLOCK b s < sb_size s.
Proof.
  intros H Hb. pose proof (d_inodes _ _ H). pose proof (d_data _ _ H). pose proof (d_size _ _ H).
  assert (0 <= b / BPB) by (apply Z.div_pos; unfold BPB; lia).
  assert (b / BPB <= (sb_size s - 1) / BPB) by (apply Z.div_le_mono; unfold BPB; lia).
  assert (0 <= sb_ninodes s / IPB) by (apply Z.div_pos; unfold IPB; lia).
  unfold BBLOCK, dstart in *. lia.
Qed.

Lemma dstart_pos s v : disk_ok s v -> 0 < dstart s.
Proof. intros H. pose proof (d_size _ _ H). destruct (bblock_range s v 0 H); lia. Qed.

(** ** Bits *)

Lemma land_bit x k : 0 <= k -> (Z.land x (Z.shiftl 1 k) =? 0) = negb (Z.testbit x k).
Proof.
  intros Hk. rewrite Z.shiftl_1_l. destruct (Z.testbit x k) eqn:E; cbn [negb].
  - apply Z.eqb_neq. intros H0. apply (f_equal (fun z => Z.testbit z k)) in H0.
    rewrite Z.land_spec, E, Z.pow2_bits_true, Z.bits_0 in H0 by done. done.
  - apply Z.eqb_eq. apply Z.bits_inj'. intros n Hn. rewrite Z.land_spec, Z.pow2_bits_eqb, Z.bits_0 by done.
    destruct (Z.eqb_spec k n) as [->|]; [by rewrite E|by rewrite andb_false_r].
Qed.

Lemma bit_free_testbit d bi : 0 <= bi -> bit_free d bi = negb (Z.testbit (aget 0 d (bi / 8)) (bi mod 8)).
Proof. intros H. unfold bit_free. apply land_bit. apply Z.mod_pos_bound. lia. Qed.

Lemma same_bit bi bj : 0 <= bi -> 0 <= bj -> bi / 8 = bj / 8 -> bi mod 8 = bj mod 8 -> bi = bj.
Proof. intros. rewrite (Z.div_mod bi 8), (Z.div_mod bj 8) by lia. congruence. Qed.

(** Setting a bit, and clearing it, changes that bit only. *)
Definition set_bit (bi : Z) (d : block) : block :=
  aset d (bi / 8) (Z.lor (aget 0 d (bi / 8)) (Z.shiftl 1 (bi mod 8))).
Definition clear_bit (bi : Z) (d : block) : block :=
  aset d (bi / 8) (Z.land (aget 0 d (bi / 8)) (Z.lxor 255 (Z.shiftl 1 (bi mod 8)))).

Lemma bit_index bi (d : block) : length d = BSIZE -> 0 <= bi < BPB -> 0 <= bi / 8 < Z.of_nat (length d).
Proof.
  intros Hd Hb. rewrite Hd. unfold BPB, BSIZE in *. split; [apply Z.div_pos; lia|].
  apply Z.div_lt_upper_bound; lia.
Qed.

Lemma bit_set bi bj d : length d = BSIZE -> 0 <= bi < BPB -> 0 <= bj ->
  bit_free (set_bit bi d) bj = if bi =? bj then false else bit_free d bj.
Proof.
  intros Hd Hb Hj. pose proof (bit_index bi d Hd Hb) as Hi.
  pose proof (Z.mod_pos_bound bi 8 ltac:(lia)). pose proof (Z.mod_pos_bound bj 8 ltac:(lia)).
  rewrite !bit_free_testbit by done. unfold set_bit.
  destruct (decide (bi / 8 = bj / 8)) as [E|E].
  - rewrite <- E, aget_aset_eq by done. rewrite Z.lor_spec, Z.shiftl_1_l, Z.pow2_bits_eqb by lia.
    destruct (Z.eqb_spec (bi mod 8) (bj mod 8)) as [E'|E'].
    + rewrite (proj2 (Z.eqb_eq bi bj)) by (apply same_bit; done || lia). by rewrite orb_true_r.
    + rewrite (proj2 (Z.eqb_neq bi bj)) by congruence. by rewrite orb_false_r.
  - rewrite aget_aset_ne by done. by rewrite (proj2 (Z.eqb_neq bi bj)) by congruence.
Qed.

Lemma byte_bit k j : 0 <= k < 8 -> 0 <= j < 8 -> Z.testbit (Z.lxor 255 (Z.shiftl 1 k)) j = negb (k =? j).
Proof.
  intros Hk Hj. rewrite Z.lxor_spec, Z.shiftl_1_l, Z.pow2_bits_eqb by lia.
  change 255 with (Z.ones 8). rewrite Z.ones_spec_low by lia. by destruct (k =? j).
Qed.

Lemma bit_clear bi bj d : length d = BSIZE -> 0 <= bi < BPB -> 0 <= bj ->
  bit_free (clear_bit bi d) bj = if bi =? bj then true else bit_free d bj.
Proof.
  intros Hd Hb Hj. pose proof (bit_index bi d Hd Hb) as Hi.
  pose proof (Z.mod_pos_bound bi 8 ltac:(lia)). pose proof (Z.mod_pos_bound bj 8 ltac:(lia)).
  rewrite !bit_free_testbit by done. unfold clear_bit.
  destruct (decide (bi / 8 = bj / 8)) as [E|E].
  - rewrite <- E, aget_aset_eq by done. rewrite Z.land_spec, byte_bit by lia.
    destruct (Z.eqb_spec (bi mod 8) (bj mod 8)) as [E'|E'].
    + rewrite (proj2 (Z.eqb_eq bi bj)) by (apply same_bit; done || lia). by rewrite andb_false_r.
    + rewrite (proj2 (Z.eqb_neq bi bj)) by congruence. by rewrite andb_true_r.
  - rewrite aget_aset_ne by done. by rewrite (proj2 (Z.eqb_neq bi bj)) by congruence.
Qed.

Lemma find_bit_spec k bi d :
  match find_bit k bi d with
  | Some j => bi <= j < bi + Z.of_nat k /\ bit_free d j = true /\ forall i, bi <= i < j -> bit_free d i = false
  | None => forall i, bi <= i < bi + Z.of_nat k -> bit_free d i = false
  end.
Proof.
  revert bi. induction k as [|k IH]; intros bi; cbn [find_bit]; [lia|].
  destruct (bit_free d bi) eqn:E; [split; [lia|]; split; [done|lia]|].
  specialize (IH (bi + 1)). destruct (find_bit k (bi + 1) d) as [j|].
  - destruct IH as (H1 & H2 & H3). split; [lia|]. split; [done|]. intros i Hi.
    destruct (decide (i = bi)) as [->|]; [done|]. apply H3. lia.
  - intros i Hi. destruct (decide (i = bi)) as [->|]; [done|]. apply IH. lia.
Qed.

(** ** Allocation *)

Definition mark (s : superblock) (b : Z) (v : list block) : list block :=
  <[Z.to_nat (BBLOCK b s) := set_bit (b mod BPB) (blk v (BBLOCK b s))]> v.

Definition unmark (s : superblock) (b : Z) (v : list block) : list block :=
  <[Z.to_nat (BBLOCK b s) := clear_bit (b mod BPB) (blk v (BBLOCK b s))]> v.

(** The disk after [balloc] returns [b]. *)
Definition allocated (s : superblock) (b : Z) (v : list block) : list block :=
  <[Z.to_nat b := Bio.zero_block]> (mark s b v).

Lemma mod_bpb b : 0 <= b mod BPB < BPB.
Proof. apply Z.mod_pos_bound. unfold BPB. lia. Qed.

Lemma same_block b b' : b / BPB = b' / BPB -> b mod BPB = b' mod BPB -> b = b'.
Proof. intros. rewrite (Z.div_mod b BPB), (Z.div_mod b' BPB) by (unfold BPB; lia). congruence. Qed.

Lemma used_mark s v b b' : disk_ok s v -> 0 <= b < sb_size s -> 0 <= b' < sb_size s ->
  used s (mark s b v) b' = if b =? b' then true else used s v b'.
Proof.
  intros H Hb Hb'. pose proof (bblock_range _ _ _ H Hb) as [_ R1]. pose proof (bblock_range _ _ _ H Hb') as [_ R2].
  pose proof (d_size _ _ H). unfold used, mark. destruct (decide (BBLOCK b s = BBLOCK b' s)) as [E|E].
  - rewrite <- E, blk_insert_eq by lia. rewrite bit_set by (apply mod_bpb || by apply (blk_length s)).
    destruct (Z.eqb_spec (b mod BPB) (b' mod BPB)) as [E'|E'].
    + rewrite (proj2 (Z.eqb_eq b b')); [done|]. apply same_block; [|done]. unfold BBLOCK in E. lia.
    + rewrite (proj2 (Z.eqb_neq b b')) by congruence. done.
  - rewrite blk_insert_ne by lia. by rewrite (proj2 (Z.eqb_neq b b')) by congruence.
Qed.

Lemma used_unmark s v b b' : disk_ok s v -> 0 <= b < sb_size s -> 0 <= b' < sb_size s ->
  used s (unmark s b v) b' = if b =? b' then false else used s v b'.
Proof.
  intros H Hb Hb'. pose proof (bblock_range _ _ _ H Hb) as [_ R1]. pose proof (bblock_range _ _ _ H Hb') as [_ R2].
  pose proof (d_size _ _ H). unfold used, unmark. destruct (decide (BBLOCK b s = BBLOCK b' s)) as [E|E].
  - rewrite <- E, blk_insert_eq by lia. rewrite bit_clear by (apply mod_bpb || by apply (blk_length s)).
    destruct (Z.eqb_spec (b mod BPB) (b' mod BPB)) as [E'|E'].
    + rewrite (proj2 (Z.eqb_eq b b')); [done|]. apply same_block; [|done]. unfold BBLOCK in E. lia.
    + rewrite (proj2 (Z.eqb_neq b b')) by congruence. done.
  - rewrite blk_insert_ne by lia. by rewrite (proj2 (Z.eqb_neq b b')) by congruence.
Qed.

(** A write to a block after the free map changes no bit. *)
Lemma used_data s v b b' d : disk_ok s v -> dstart s <= b -> 0 <= b' < sb_size s ->
  used s (<[Z.to_nat b := d]> v) b' = used s v b'.
Proof.
  intros H Hb Hb'. pose proof (bblock_range _ _ _ H Hb'). unfold used. by rewrite blk_insert_ne by lia.
Qed.

Lemma length_set_bit bi d : length (set_bit bi d) = length d.
Proof. apply length_aset. Qed.
Lemma length_clear_bit bi d : length (clear_bit bi d) = length d.
Proof. apply length_aset. Qed.

Lemma disk_ok_insert s v b d : disk_ok s v -> 2 <= b -> length d = BSIZE ->
  (forall b', 0 <= b' < dstart s -> used s (<[Z.to_nat b := d]> v) b' = true) -> disk_ok s (<[Z.to_nat b := d]> v).
Proof.
  intros H H2 Hd Hm. destruct H. split; try done.
  - by rewrite super_insert.
  - by rewrite length_insert.
  - by apply Forall_insert.
Qed.

Lemma disk_ok_data s v b d : disk_ok s v -> dstart s <= b -> length d = BSIZE -> disk_ok s (<[Z.to_nat b := d]> v).
Proof.
  intros H Hb Hd. pose proof (layout _ _ H). apply disk_ok_insert; [done|lia|done|]. intros b' Hb'. pose proof (d_data _ _ H).
  rewrite used_data by (done || lia). by apply (d_meta _ _ H).
Qed.

Lemma disk_ok_mark s v b : disk_ok s v -> 0 <= b < sb_size s -> disk_ok s (mark s b v).
Proof.
  intros H Hb. pose proof (bblock_range _ _ _ H Hb). pose proof (layout _ _ H). apply disk_ok_insert; [done|lia|rewrite length_set_bit; by apply (blk_length s)|].
  intros b' Hb'. pose proof (d_data _ _ H). change (used s (mark s b v) b' = true). rewrite used_mark by (done || lia).
  destruct (b =? b'); [done|]. by apply (d_meta _ _ H).
Qed.

Lemma disk_ok_unmark s v b : disk_ok s v -> dstart s <= b < sb_size s -> disk_ok s (unmark s b v).
Proof.
  intros H Hb. pose proof (d_data _ _ H). pose proof (layout _ _ H). pose proof (bblock_range s v b H ltac:(lia)).
  apply disk_ok_insert; [done|lia|rewrite length_clear_bit; by apply (blk_length s)|].
  intros b' Hb'. change (used s (unmark s b v) b' = true). rewrite used_unmark by (done || lia).
  destruct (Z.eqb_spec b b'); [lia|]. by apply (d_meta _ _ H).
Qed.

Lemma free_is_data s v b : disk_ok s v -> 0 <= b -> used s v b = false -> dstart s <= b.
Proof.
  intros H Hb Hu. destruct (Z.lt_ge_cases b (dstart s)); [|done]. by rewrite (d_meta _ _ H) in Hu by lia.
Qed.

Lemma disk_ok_allocated s v b : disk_ok s v -> 0 <= b < sb_size s -> used s v b = false -> disk_ok s (allocated s b v).
Proof.
  intros H Hb Hu. apply disk_ok_data; [by apply disk_ok_mark|apply (free_is_data s v); [done|lia|done]|done].
Qed.

Lemma used_allocated s v b b' : disk_ok s v -> 0 <= b < sb_size s -> used s v b = false -> 0 <= b' < sb_size s ->
  used s (allocated s b v) b' = if b =? b' then true else used s v b'.
Proof.
  intros H Hb Hu Hb'. unfold allocated. rewrite used_data; [by apply used_mark|by apply disk_ok_mark| |done].
  apply (free_is_data s v); [done|lia|done].
Qed.

(** The blocks that hold data other than the new one are as before. *)
Lemma blk_allocated s v b b' : disk_ok s v -> 0 <= b < sb_size s -> used s v b = false -> 0 <= b' ->
  ~ sb_bmapstart s <= b' < dstart s -> blk (allocated s b v) b' = if b =? b' then Bio.zero_block else blk v b'.
Proof.
  intros H Hb Hu Hb' Hm. pose proof (bblock_range _ _ _ H Hb). pose proof (d_size _ _ H). unfold allocated, mark.
  destruct (Z.eqb_spec b b') as [<-|Hne].
  - rewrite blk_insert_eq; [done|]. rewrite length_insert. lia.
  - rewrite !blk_insert_ne by lia. done.
Qed.

Lemma bzero_run bno m t : t_in_range bno t -> bno ∉ theld t -> bno ∉ stale t ->
  exists t', leaves t (<[Z.to_nat bno := Bio.zero_block]> (view t)) t' /\ reach (eq bno) t t' /\ run_tx (bzero ROOTDEV bno) (m, t) = Ok tt (m, t').
Proof.
  intros Hr Hh Hs. destruct (run_change_block bno Bio.zero_block mret m t Hr Hh Hs) as (t' & Hl & Hre & E).
  exists t'. split; [done|]. split; [done|]. unfold bzero. rewrite run_tread by done. rewrite run_tset, run_tlog by (cbn; set_solver).
  rewrite run_tset, run_tlog in E by (cbn; set_solver). rewrite run_tx_tail. exact E.
Qed.

(** The buffers held are data blocks in use, and nothing waits to be logged. *)
Definition busy_ok (s : superblock) (t : txs) : Prop :=
  stale t = ∅ /\ forall b, b ∈ theld t -> dstart s <= b /\ used s (view t) b = true.

Lemma leaves_trans t v t' v' t'' : leaves t v t' -> leaves t' v' t'' -> leaves t v' t''.
Proof. intros (H1 & H2 & H3) (H4 & H5 & H6). split; [done|]. split; congruence. Qed.

(** The blocks of the free map. *)
Definition in_bitmap (s : superblock) (b : Z) : Prop := sb_bmapstart s <= b < dstart s.

Definition balloc_ok (m : fs) (t : txs) (r : outcome (fs * txs) Z) : Prop :=
  let s := sb m in
  (exists b t', r = Ok b (m, t') /\ leaves t (allocated s b (view t)) t' /\ reach (fun y => in_bitmap s y \/ y = b) t t' /\ dstart s <= b < sb_size s /\
     used s (view t) b = false /\ forall b', 0 <= b' < b -> used s (view t) b' = true) \/
  (r = Panic "balloc: out of blocks" /\ forall b, 0 <= b < sb_size s -> used s (view t) b = true).

Lemma used_bit s v q i : 0 <= i < BPB -> used s v (q * BPB + i) = negb (bit_free (blk v (q + sb_bmapstart s)) i).
Proof.
  intros Hi. unfold used, BBLOCK. rewrite (Z.add_comm (q * BPB) i), Z.mod_add, Z.div_add by (unfold BPB; lia).
  rewrite Z.mod_small, Z.div_small by done. by rewrite Z.add_0_l.
Qed.

Lemma div_bpb q : q * BPB / BPB = q.
Proof. apply Z.div_mul. unfold BPB. lia. Qed.

Lemma used_below s v q n : (forall b', 0 <= b' < q * BPB -> used s v b' = true) ->
  (forall i, 0 <= i < n -> bit_free (blk v (q + sb_bmapstart s)) i = false) -> n <= BPB -> 0 <= q ->
  forall b', 0 <= b' < q * BPB + n -> used s v b' = true.
Proof.
  intros H1 H2 Hn Hq b' Hb'. destruct (Z.lt_ge_cases b' (q * BPB)); [apply H1; lia|].
  replace b' with (q * BPB + (b' - q * BPB)) by lia. rewrite used_bit by lia. by rewrite H2 by lia.
Qed.

Lemma balloc_loop_run f q m t : disk_ok (sb m) (view t) -> busy_ok (sb m) t -> 0 <= q ->
  sb_size (sb m) <= q * BPB + BPB * Z.of_nat f ->
  (forall b', 0 <= b' < q * BPB -> b' < sb_size (sb m) -> used (sb m) (view t) b' = true) ->
  balloc_ok m t (run_tx (balloc_loop (S f) ROOTDEV (q * BPB)) (m, t)).
Proof.
  revert q t. induction f as [|f IH]; intros q t Hd Hb Hq Hf Hbelow; cbn [balloc_loop]; rewrite run_tgets.
  { rewrite (proj2 (Z.ltb_ge _ _)) by lia. right. split; [done|]. intros b Hlt. apply Hbelow; lia. }
  destruct (Z.ltb_spec (q * BPB) (sb_size (sb m))) as [Hlt|Hge]; cbn [negb]; cycle 1.
  { right. split; [done|]. intros b Hlt. apply Hbelow; lia. }
  set (s := sb m) in *. set (bp := BBLOCK (q * BPB) s) in *.
  assert (Hq0 : 0 <= q * BPB) by (unfold BPB; lia).
  destruct (bblock_range s (view t) (q * BPB) Hd ltac:(lia)) as [Hbm Hbp]. fold bp in Hbm, Hbp.
  assert (Ebp : bp = q + sb_bmapstart s) by (unfold bp, BBLOCK; by rewrite div_bpb).
  pose proof (d_size _ _ Hd) as Hsz. destruct Hb as [Hst Hheld].
  pose proof (layout _ _ Hd). assert (Hr : t_in_range bp t) by (apply (range_ok s); [done|lia]).
  assert (Hnh : bp ∉ theld t) by (intros Hin; destruct (Hheld _ Hin); lia).
  assert (Hns : bp ∉ stale t) by (rewrite Hst; set_solver).
  set (n := Z.min BPB (sb_size s - q * BPB)).
  pose proof (find_bit_spec (Z.to_nat n) 0 (tview bp t)) as Hfind.
  assert (Hn : 0 < n <= BPB) by (unfold n, BPB in *; lia).
  rewrite run_tread, run_tdata by (done || cbn; set_solver). rewrite tview_hold.
  destruct (find_bit (Z.to_nat n) 0 (tview bp t)) as [bi|].
  - destruct Hfind as (Hbi & Hfree & Hbefore). rewrite Z2Nat.id in Hbi by lia. left.
    set (b := q * BPB + bi).
    assert (Hbit : b mod BPB = bi /\ BBLOCK b s = bp).
    { unfold b, BBLOCK. rewrite (Z.add_comm (q * BPB) bi), Z.mod_add, Z.div_add by (unfold BPB; lia).
      rewrite Z.mod_small, Z.div_small by lia. split; [done|]. rewrite Ebp. lia. }
    destruct Hbit as [Emod Ebl].
    assert (Hub : used s (view t) b = false).
    { unfold b. rewrite used_bit by lia. rewrite <- Ebp. change (blk (view t) bp) with (tview bp t). by rewrite Hfree. }
    assert (Hbr : dstart s <= b < sb_size s).
    { split; [apply (free_is_data s (view t)); [done|unfold b; lia|done]|]. unfold b, n in *. lia. }
    destruct (run_change_block bp (set_bit bi (tview bp t)) (fun _ => bzero ROOTDEV b ;; mret b) m t Hr Hnh Hns)
      as (t1 & (V1 & H1 & S1) & Hre1 & E1).
    unfold set_bit in E1. rewrite E1.
    destruct (bzero_run b m t1) as (t2 & Hl2 & Hre2 & E2).
    + apply (range_ok s); [|lia]. replace (view t1) with (mark s b (view t)) by (rewrite V1; unfold mark; by rewrite Ebl, Emod).
      apply disk_ok_mark; [done|lia].
    + rewrite H1. intros Hin. destruct (Hheld _ Hin) as [_ Hu]. congruence.
    + rewrite S1, Hst. set_solver.
    + rewrite (run_tx_bind_ok _ _ _ _ _ E2). exists b, t2. split; [done|]. split.
      * eapply leaves_trans; [split; [exact V1|by split]|]. unfold allocated, mark. change (sb m) with s. rewrite Ebl, Emod.
        rewrite V1 in Hl2. exact Hl2.
      * split.
        { eapply reach_trans; eapply reach_mono; [|exact Hre1| |exact Hre2]; intros y <-; [left|by right].
          unfold in_bitmap. change (sb m) with s. lia. }
        split; [done|]. split; [done|]. unfold b. apply used_below; [|change (sb m) with s; by rewrite <- Ebp|lia|lia].
        intros b' Hb'. apply Hbelow; lia.
  - destruct (run_read_block bp (fun _ => balloc_loop (S f) ROOTDEV (q * BPB + BPB)) m t Hr Hnh Hns) as (t1 & Hl1 & Hre1 & E1).
    rewrite run_tread, run_tdata in E1 by (done || cbn; set_solver). cbn [balloc_loop] in E1. rewrite E1.
    destruct (reads_leaves _ _ Hl1) as (V1 & H1 & S1).
    replace (q * BPB + BPB) with ((q + 1) * BPB) by lia.
    assert (Hnext : balloc_ok m t1 (run_tx (balloc_loop (S f) ROOTDEV ((q + 1) * BPB)) (m, t1))).
    { apply IH; rewrite ?V1; [done| |lia|lia|].
      - unfold busy_ok. rewrite S1, H1, V1. done.
      - intros b' Hb' Hb's. apply (used_below s (view t) q n); [| |lia|lia|].
        + intros b'' ?. apply Hbelow; lia.
        + rewrite <- Ebp. intros i Hi. apply Hfind. lia.
        + unfold n in *. lia. }
    destruct Hnext as [(b & t2 & Er & Hl & Hre2 & Hrest)|[Er Hall]]; rewrite V1 in *.
    + left. exists b, t2. split; [exact Er|].
      split; [eapply leaves_trans; [split; [exact V1|by split]|done]|]. split; [|done].
      eapply reach_trans; [|exact Hre2]. eapply reach_mono; [|exact Hre1]. intros y <-. left. unfold in_bitmap. change (sb m) with s. lia.
    + right. split; [exact Er|done].
Qed.

Lemma balloc_run m t : disk_ok (sb m) (view t) -> busy_ok (sb m) t ->
  balloc_ok m t (run_tx (balloc ROOTDEV) (m, t)).
Proof.
  intros Hd Hb. unfold balloc. rewrite run_tgets.
  apply (balloc_loop_run (S (Z.to_nat (sb_size (sb m) / BPB))) 0 m t Hd Hb); [lia| |lia].
  pose proof (d_size _ _ Hd). pose proof (Z.div_pos (sb_size (sb m)) BPB ltac:(lia) ltac:(unfold BPB; lia)).
  pose proof (Z.mul_succ_div_gt (sb_size (sb m)) BPB ltac:(unfold BPB; lia)). unfold BPB in *. lia.
Qed.

Lemma bfree_run b m t : disk_ok (sb m) (view t) -> busy_ok (sb m) t -> dstart (sb m) <= b < sb_size (sb m) ->
  if used (sb m) (view t) b
  then exists t', leaves t (unmark (sb m) b (view t)) t' /\ run_tx (bfree ROOTDEV b) (m, t) = Ok tt (m, t')
  else run_tx (bfree ROOTDEV b) (m, t) = Panic "freeing free block".
Proof.
  intros Hd [Hst Hheld] Hb. set (s := sb m) in *.
  assert (H0 : 0 <= dstart s) by (destruct (bblock_range s (view t) 0 Hd); [pose proof (d_size _ _ Hd); lia|]; lia).
  destruct (bblock_range s (view t) b Hd ltac:(lia)) as [Hbm Hbp]. pose proof (d_size _ _ Hd).
  set (bp := BBLOCK b s) in *.
  pose proof (layout _ _ Hd). assert (Hr : t_in_range bp t) by (apply (range_ok s); [done|lia]).
  assert (Hnh : bp ∉ theld t) by (intros Hin; destruct (Hheld _ Hin); lia).
  assert (Hns : bp ∉ stale t) by (rewrite Hst; set_solver).
  unfold bfree. rewrite run_tgets. fold s. fold bp. rewrite run_tread, run_tdata by (done || cbn; set_solver).
  rewrite tview_hold. unfold used. fold bp. change (blk (view t) bp) with (tview bp t).
  destruct (bit_free (tview bp t) (b mod BPB)); [done|].
  destruct (run_change_block bp (clear_bit (b mod BPB) (tview bp t)) mret m t Hr Hnh Hns) as (t' & Hl & _ & E).
  exists t'. split; [done|]. rewrite run_tset, run_tlog in E |- * by (cbn; set_solver). rewrite run_tx_tail. exact E.
Qed.

(** ** Counting free blocks *)

Definition nfree (s : superblock) (v : list block) : nat :=
  length (filter (fun b => used s v b = false) (seqZ 0 (sb_size s))).

Lemma filter_ext_elem (f g : Z -> bool) (l : list Z) : (forall b, b ∈ l -> f b = g b) ->
  filter (fun b => f b = false) l = filter (fun b => g b = false) l.
Proof.
  induction l as [|x l IH]; intros H; [done|]. rewrite !filter_cons, (H x (list_elem_of_here _ _)).
  rewrite IH; [done|]. intros b Hb. apply H. by apply list_elem_of_further.
Qed.

Lemma filter_remove (f g : Z -> bool) (a : Z) (l : list Z) : NoDup l -> a ∈ l -> f a = false ->
  (forall b, b ∈ l -> g b = if a =? b then true else f b) ->
  length (filter (fun b => f b = false) l) = S (length (filter (fun b => g b = false) l)).
Proof.
  induction 1 as [|x l Hx Hl IH]; intros Ha Hfa Hg; [by apply elem_of_nil in Ha|].
  rewrite !filter_cons. pose proof (Hg x (list_elem_of_here _ _)) as Ex.
  assert (Hg' : forall b, b ∈ l -> g b = if a =? b then true else f b) by (intros; apply Hg; by apply list_elem_of_further).
  destruct (decide (a = x)) as [<-|Hne].
  - rewrite Z.eqb_refl in Ex. rewrite Ex, Hfa, decide_True, decide_False by done. cbn. do 2 f_equal.
    apply filter_ext_elem. intros b Hb. rewrite Hg' by done. by destruct (Z.eqb_spec a b) as [<-|].
  - rewrite (proj2 (Z.eqb_neq a x)) in Ex by done. rewrite Ex.
    assert (a ∈ l) by (by apply elem_of_cons in Ha as [|]).
    destruct (decide (f x = false)); cbn; [f_equal|]; by apply IH.
Qed.

Lemma nfree_taken s v v' a : 0 <= a < sb_size s -> used s v a = false ->
  (forall b, 0 <= b < sb_size s -> used s v' b = if a =? b then true else used s v b) -> nfree s v = S (nfree s v').
Proof.
  intros Ha Hu Hv. apply (filter_remove (used s v) (used s v') a); [apply NoDup_seqZ|apply elem_of_seqZ; lia|done|].
  intros b Hb%elem_of_seqZ. apply Hv. lia.
Qed.

Lemma nfree_same s v v' : (forall b, 0 <= b < sb_size s -> used s v' b = used s v b) -> nfree s v' = nfree s v.
Proof.
  intros H. unfold nfree. f_equal. apply filter_ext_elem. intros b Hb%elem_of_seqZ. apply H. lia.
Qed.

Lemma nfree_pos s v : (0 < nfree s v)%nat -> exists b, 0 <= b < sb_size s /\ used s v b = false.
Proof.
  unfold nfree. intros H. destruct (filter _ _) as [|b l] eqn:E; [cbn in H; lia|].
  assert (b ∈ filter (fun b => used s v b = false) (seqZ 0 (sb_size s))) as [Hu Hb]%list_elem_of_filter
    by (rewrite E; apply list_elem_of_here).
  apply elem_of_seqZ in Hb. exists b. split; [lia|done].
Qed.

(** [balloc] does not panic when a block is free. *)
Lemma balloc_free m t : disk_ok (sb m) (view t) -> busy_ok (sb m) t -> (0 < nfree (sb m) (view t))%nat ->
  exists b t', run_tx (balloc ROOTDEV) (m, t) = Ok b (m, t') /\ leaves t (allocated (sb m) b (view t)) t' /\
    reach (fun y => in_bitmap (sb m) y \/ y = b) t t' /\ dstart (sb m) <= b < sb_size (sb m) /\ used (sb m) (view t) b = false.
Proof.
  intros Hd Hb Hn. destruct (balloc_run m t Hd Hb) as [(b & t' & E & Hl & Hre & Hr & Hu & _)|[_ Hall]].
  - by exists b, t'.
  - destruct (nfree_pos _ _ Hn) as (b & Hr & Hu). by rewrite Hall in Hu.
Qed.
