(* ===== verification/FsFile.v ===== *)
(** * The contents of files (system/storage/fs.c)

    A file's block addresses are its slots: the direct blocks, the entries of the
    indirect block and, last, the indirect block itself.  [file_ok] says that the
    slots in use are distinct data blocks marked in the free map.  [bmap] extends
    the slots; [readi] and [writei] are then shown to read and write an array of
    bytes. *)

From S2P Require Import Prelude Spinlock Bio BioSpec BlockProg Log FsProg Fs FsAlloc.
Import Fs.

Definition ind (addrs : list Z) : Z := aget 0 addrs NDIRECT.

(** Offset of an entry in the indirect block. *)
Definition entry (bn : Z) : nat := Z.to_nat (4 * (bn - NDIRECT)).

Definition baddr (v : list block) (addrs : list Z) (bn : Z) : Z :=
  if bn <? NDIRECT then aget 0 addrs bn
  else if ind addrs =? 0 then 0 else get32 (entry bn) (blk v (ind addrs)).

Definition slot (v : list block) (addrs : list Z) (k : Z) : Z :=
  if k =? MAXFILE then ind addrs else baddr v addrs k.

Definition owns (v : list block) (addrs : list Z) (b : Z) : Prop :=
  b <> 0 /\ exists k, 0 <= k <= MAXFILE /\ slot v addrs k = b.

Record file_ok (s : superblock) (v : list block) (addrs : list Z) (size : Z) : Prop := {
  f_len : length addrs = 13%nat;
  f_size : 0 <= size <= MAXFILE * BSZ;
  f_alloc : forall bn, 0 <= bn -> bn * BSZ < size -> baddr v addrs bn <> 0;
  f_data : forall k, 0 <= k <= MAXFILE -> slot v addrs k <> 0 ->
    dstart s <= slot v addrs k < sb_size s /\ used s v (slot v addrs k) = true;
  f_inj : forall k k', 0 <= k <= MAXFILE -> 0 <= k' <= MAXFILE -> slot v addrs k <> 0 ->
    slot v addrs k = slot v addrs k' -> k = k'
}.

(** What an extension of a file keeps. *)
Record grown (s : superblock) (v : list block) (addrs : list Z) (v' : list block) (addrs' : list Z) : Prop := {
  g_disk : disk_ok s v';
  g_length : length v' = length v;
  g_used : forall b, 0 <= b < sb_size s -> used s v b = true -> used s v' b = true;
  g_frame : forall b, 0 <= b < sb_size s -> used s v b = true -> (b = ind addrs -> b = 0) ->
    ~ sb_bmapstart s <= b < dstart s -> blk v' b = blk v b;
  g_slot : forall k, 0 <= k <= MAXFILE -> slot v addrs k <> 0 -> slot v' addrs' k = slot v addrs k;
  g_owns : forall b, 0 <= b < sb_size s -> owns v' addrs' b -> owns v addrs b \/ used s v b = false
}.

Lemma file_grown_refl s v addrs : disk_ok s v -> grown s v addrs v addrs.
Proof. intros H. split; auto. Qed.

Lemma slot_ind v addrs : slot v addrs MAXFILE = ind addrs.
Proof. unfold slot. by rewrite Z.eqb_refl. Qed.

Lemma slot_baddr v addrs k : k <> MAXFILE -> slot v addrs k = baddr v addrs k.
Proof. intros H. unfold slot. by rewrite (proj2 (Z.eqb_neq _ _)). Qed.

Lemma maxfile_slot : 0 <= MAXFILE <= MAXFILE.
Proof. unfold MAXFILE, NDIRECT, NINDIRECT. lia. Qed.

Lemma grown_trans s v a v1 a1 v2 a2 size : file_ok s v1 a1 size ->
  grown s v a v1 a1 -> grown s v1 a1 v2 a2 -> grown s v a v2 a2.
Proof.
  intros Hf H1 H2. pose proof maxfile_slot as Hmax. split.
  - apply H2.
  - rewrite (g_length _ _ _ _ _ H2). apply H1.
  - intros b Hb Hu. apply (g_used _ _ _ _ _ H2); [done|]. by apply (g_used _ _ _ _ _ H1).
  - intros b Hb Hu Hi Hm. rewrite (g_frame _ _ _ _ _ H2); [by apply (g_frame _ _ _ _ _ H1)|done|by apply (g_used _ _ _ _ _ H1)| |done].
    intros ->. destruct (decide (ind a1 = 0)) as [|Hne]; [done|].
    destruct (g_owns _ _ _ _ _ H1 (ind a1) Hb) as [[_ (k & Hk & E)]|Hfr]; [| |congruence].
    { split; [done|]. exists MAXFILE. split; [done|apply slot_ind]. }
    apply Hi. assert (Hs : slot v1 a1 k = ind a1) by (rewrite (g_slot _ _ _ _ _ H1); [done|done|congruence]).
    assert (k = MAXFILE) as ->.
    { apply (f_inj _ _ _ _ Hf); [done|done|congruence|]. by rewrite slot_ind. }
    by rewrite slot_ind in E.
  - intros k Hk Hne. rewrite (g_slot _ _ _ _ _ H2), (g_slot _ _ _ _ _ H1); try done. by rewrite (g_slot _ _ _ _ _ H1).
  - intros b Hb Ho. destruct (g_owns _ _ _ _ _ H2 b Hb Ho) as [Ho'|Hfr].
    + by apply (g_owns _ _ _ _ _ H1).
    + right. destruct (used s v b) eqn:E; [|done]. by rewrite (g_used _ _ _ _ _ H1) in Hfr.
Qed.

(** ** Adding a block to a file *)

(** A free block becomes the slot [k0], and the other slots stay. *)
Lemma extend s v addrs v' addrs' size a k0 :
  file_ok s v addrs size -> disk_ok s v' -> length v' = length v -> length addrs' = 13%nat ->
  dstart s <= a < sb_size s -> used s v a = false ->
  (forall b, 0 <= b < sb_size s -> used s v' b = if a =? b then true else used s v b) ->
  0 <= k0 <= MAXFILE -> slot v addrs k0 = 0 ->
  (forall k, 0 <= k <= MAXFILE -> slot v' addrs' k = if k =? k0 then a else slot v addrs k) ->
  (forall b, 0 <= b < sb_size s -> used s v b = true -> (b = ind addrs -> b = 0) ->
    ~ sb_bmapstart s <= b < dstart s -> blk v' b = blk v b) ->
  file_ok s v' addrs' size /\ grown s v addrs v' addrs' /\ nfree s v = S (nfree s v').
Proof.
  intros Hf Hd Hlen Hl Ha Hu Hused Hk0 Hs0 Hslot Hfr. pose proof (dstart_pos _ _ Hd) as Hpos. split; [|split].
  - split.
    + done.
    + apply Hf.
    + intros bn Hbn Hsz. pose proof (f_size _ _ _ _ Hf).
      assert (bn < MAXFILE) by (unfold BSZ in *; lia).
      pose proof (f_alloc _ _ _ _ Hf bn Hbn Hsz) as Hne. rewrite <- slot_baddr by lia.
      rewrite <- (slot_baddr v addrs bn) in Hne by lia. rewrite Hslot by lia. destruct (Z.eqb_spec bn k0); [lia|done].
    + intros k Hk Hne. rewrite Hslot in * by done. destruct (Z.eqb_spec k k0) as [->|Hkk].
      * split; [done|]. rewrite Hused by lia. by rewrite Z.eqb_refl.
      * destruct (f_data _ _ _ _ Hf k Hk Hne) as [Hr Hus]. split; [done|]. rewrite Hused by lia.
        by destruct (a =? _).
    + intros k k' Hk Hk' Hne Heq. rewrite !Hslot in * by done.
      destruct (Z.eqb_spec k k0) as [->|Hkk], (Z.eqb_spec k' k0) as [->|Hkk']; try done.
      * exfalso. destruct (f_data _ _ _ _ Hf k' Hk') as [_ Hus]; [congruence|]. congruence.
      * exfalso. destruct (f_data _ _ _ _ Hf k Hk) as [_ Hus]; [congruence|]. congruence.
      * by apply (f_inj _ _ _ _ Hf).
  - split; try done.
    + intros b Hb Hub. rewrite Hused by done. by destruct (a =? b).
    + intros k Hk Hne. rewrite Hslot by done. destruct (Z.eqb_spec k k0) as [->|]; [done|done].
    + intros b Hb [Hb0 (k & Hk & E)]. rewrite Hslot in E by done.
      destruct (Z.eqb_spec k k0) as [->|]; [right; congruence|left]. split; [done|]. by exists k.
  - apply (nfree_taken s v v' a); [|done|done]. lia.
Qed.

Lemma blk_allocated_used s v a b : disk_ok s v -> dstart s <= a < sb_size s -> used s v a = false ->
  0 <= b -> ~ sb_bmapstart s <= b < dstart s -> used s v b = true -> blk (allocated s a v) b = blk v b.
Proof.
  intros Hd Ha Hu Hb Hm Hub. pose proof (dstart_pos _ _ Hd).
  rewrite blk_allocated by (done || lia). destruct (Z.eqb_spec a b) as [<-|]; [congruence|done].
Qed.

Lemma length_allocated s a v : length (allocated s a v) = length v.
Proof. unfold allocated, mark. by rewrite !length_insert. Qed.

Section Grow.
Context (s : superblock) (v : list block) (addrs : list Z) (size a : Z).
Context (Hd : disk_ok s v) (Hf : file_ok s v addrs size).
Context (Ha : dstart s <= a < sb_size s) (Hu : used s v a = false).

Lemma alloc_used b : 0 <= b < sb_size s -> used s (allocated s a v) b = if a =? b then true else used s v b.
Proof using Hd Ha Hu. intros Hb. pose proof (dstart_pos _ _ Hd). apply used_allocated; [done|lia|done|done]. Qed.

Lemma alloc_disk : disk_ok s (allocated s a v).
Proof using Hd Ha Hu. pose proof (dstart_pos _ _ Hd). apply disk_ok_allocated; [done|lia|done]. Qed.

(** The indirect block is in use and holds data. *)
Lemma ind_used : ind addrs <> 0 -> dstart s <= ind addrs < sb_size s /\ used s v (ind addrs) = true.
Proof using Hf. intros Hi. pose proof (f_data _ _ _ _ Hf MAXFILE maxfile_slot) as H. rewrite slot_ind in H. auto. Qed.

Lemma ind_kept : ind addrs <> 0 -> blk (allocated s a v) (ind addrs) = blk v (ind addrs).
Proof using Hd Hf Ha Hu.
  intros Hi. destruct (ind_used Hi) as [Hr Hus]. pose proof (dstart_pos _ _ Hd).
  apply blk_allocated_used; [done..|lia|lia|done].
Qed.

Lemma alloc_frame b : 0 <= b < sb_size s -> used s v b = true -> (b = ind addrs -> b = 0) ->
  ~ sb_bmapstart s <= b < dstart s -> blk (allocated s a v) b = blk v b.
Proof using Hd Ha Hu. intros Hb Hub _ Hm. by apply blk_allocated_used; [..|lia|done|done]. Qed.

Lemma grow_direct bn : 0 <= bn < NDIRECT -> baddr v addrs bn = 0 ->
  let v' := allocated s a v in let addrs' := aset addrs bn a in
  slot v' addrs' bn = a /\ file_ok s v' addrs' size /\ grown s v addrs v' addrs' /\ nfree s v = S (nfree s v').
Proof using Hd Hf Ha Hu.
  intros Hbn H0 v' addrs'. pose proof (f_len _ _ _ _ Hf) as Hlen.
  assert (Hi : ind addrs' = ind addrs) by (apply aget_aset_ne; unfold NDIRECT in *; lia).
  assert (Hslot : forall k, 0 <= k <= MAXFILE -> slot v' addrs' k = if k =? bn then a else slot v addrs k).
  { intros k Hk. unfold slot, baddr. rewrite Hi.
    destruct (Z.eqb_spec k MAXFILE) as [->|].
    { by rewrite (proj2 (Z.eqb_neq _ _)) by (unfold MAXFILE, NDIRECT, NINDIRECT in *; lia). }
    destruct (Z.ltb_spec k NDIRECT).
    - destruct (Z.eqb_spec k bn) as [->|]; [|by apply aget_aset_ne].
      apply aget_aset_eq. rewrite Hlen. unfold NDIRECT in *. lia.
    - rewrite (proj2 (Z.eqb_neq k bn)) by lia. destruct (Z.eqb_spec (ind addrs) 0); [done|].
      unfold v'. by rewrite ind_kept. }
  assert (Hbm : 0 <= bn <= MAXFILE) by (unfold MAXFILE, NDIRECT, NINDIRECT in *; lia).
  split; [rewrite Hslot by done; by rewrite Z.eqb_refl|].
  apply (extend s v addrs v' addrs' size a bn); try done.
  - apply alloc_disk.
  - apply length_allocated.
  - unfold addrs'. by rewrite length_aset.
  - apply alloc_used.
  - rewrite slot_baddr; [done|]. unfold MAXFILE, NDIRECT, NINDIRECT in *. lia.
  - apply alloc_frame.
Qed.

Lemma get32_zero_block off : get32 off Bio.zero_block = 0.
Proof using.
  unfold get32, Bio.zero_block. rewrite drop_replicate, take_replicate.
  by induction (Nat.min 4 (BSIZE - off)) as [|n IH]; cbn; [|rewrite IH].
Qed.

Lemma grow_ind : ind addrs = 0 ->
  let v' := allocated s a v in let addrs' := aset addrs NDIRECT a in
  ind addrs' = a /\ file_ok s v' addrs' size /\ grown s v addrs v' addrs' /\ nfree s v = S (nfree s v').
Proof using Hd Hf Ha Hu.
  intros H0 v' addrs'. pose proof (f_len _ _ _ _ Hf) as Hlen. pose proof (dstart_pos _ _ Hd).
  assert (Hi : ind addrs' = a) by (apply aget_aset_eq; rewrite Hlen; unfold NDIRECT; lia).
  split; [done|]. pose proof (d_size _ _ Hd).
  apply (extend s v addrs v' addrs' size a MAXFILE); try done; try exact maxfile_slot.
  - apply alloc_disk.
  - apply length_allocated.
  - unfold addrs'. by rewrite length_aset.
  - apply alloc_used.
  - intros k Hk. unfold slot, baddr. rewrite Hi, H0. destruct (Z.eqb_spec k MAXFILE); [done|].
    destruct (Z.ltb_spec k NDIRECT); [apply aget_aset_ne; lia|].
    destruct (Z.eqb_spec a 0); [done|]. cbn. unfold v', allocated.
    rewrite blk_insert_eq by (unfold mark; rewrite length_insert; lia). apply get32_zero_block.
  - apply alloc_frame.
Qed.

Lemma entry_bound bn : NDIRECT <= bn < MAXFILE -> (entry bn + 4 <= BSIZE)%nat.
Proof using. unfold entry, BSIZE, MAXFILE, NDIRECT, NINDIRECT. lia. Qed.

Lemma entry_disjoint bn bn' : NDIRECT <= bn -> NDIRECT <= bn' -> bn <> bn' ->
  (entry bn + 4 <= entry bn' \/ entry bn' + 4 <= entry bn)%nat.
Proof using. unfold entry, NDIRECT. lia. Qed.

Lemma grow_entry bn : NDIRECT <= bn < MAXFILE -> ind addrs <> 0 -> baddr v addrs bn = 0 ->
  let v' := <[Z.to_nat (ind addrs) := put32 (entry bn) a (blk v (ind addrs))]> (allocated s a v) in
  slot v' addrs bn = a /\ file_ok s v' addrs size /\ grown s v addrs v' addrs /\ nfree s v = S (nfree s v').
Proof using Hd Hf Ha Hu.
  intros Hbn Hi H0 v'. assert (0 <= bn) by (unfold NDIRECT in *; lia).
  pose proof (dstart_pos _ _ Hd). pose proof (d_size _ _ Hd). pose proof (d_max _ _ Hd).
  destruct (ind_used Hi) as [Hir Hiu]. pose proof (blk_length s v (ind addrs) Hd) as Hbl.
  pose proof (entry_bound bn Hbn) as He.
  assert (Hblk : blk v' (ind addrs) = put32 (entry bn) a (blk v (ind addrs))).
  { unfold v'. apply blk_insert_eq. rewrite length_allocated. lia. }
  assert (Hput : length (put32 (entry bn) a (blk v (ind addrs))) = BSIZE) by (rewrite length_put32; lia).
  assert (Hslot : forall k, 0 <= k <= MAXFILE -> slot v' addrs k = if k =? bn then a else slot v addrs k).
  { intros k Hk. unfold slot, baddr. rewrite Hblk.
    destruct (Z.eqb_spec k MAXFILE) as [->|]; [by rewrite (proj2 (Z.eqb_neq _ _)) by lia|].
    destruct (Z.ltb_spec k NDIRECT); [by rewrite (proj2 (Z.eqb_neq _ _)) by lia|].
    rewrite (proj2 (Z.eqb_neq (ind addrs) 0)) by done.
    destruct (Z.eqb_spec k bn) as [->|Hne].
    - rewrite get_put32 by lia. apply u32_id. lia.
    - destruct (entry_disjoint k bn) as [Hdis|Hdis]; [lia..|rewrite get_put32_ne; [done|lia|lia]|rewrite get_put32_ne; [done|lia|lia]]. }
  split; [rewrite Hslot by lia; by rewrite Z.eqb_refl|].
  apply (extend s v addrs v' addrs size a bn); try done; try lia.
  - apply disk_ok_data; [apply alloc_disk|lia|done].
  - unfold v'. by rewrite length_insert, length_allocated.
  - apply Hf.
  - intros b Hb. unfold v'. rewrite used_data by (apply alloc_disk || lia). by apply alloc_used.
  - rewrite slot_baddr by lia. done.
  - intros b Hb Hub Hbi Hm. unfold v'. rewrite blk_insert_ne; [by apply alloc_frame|lia|lia|].
    intros E. symmetry in E. specialize (Hbi E). lia.
Qed.

End Grow.

(** ** bmap *)

(** Between calls no buffer is held. *)
Definition idle (t : txs) : Prop := theld t = ∅ /\ stale t = ∅.

Lemma idle_busy_ok s t : idle t -> busy_ok s t.
Proof. intros [H1 H2]. split; [done|]. rewrite H1. set_solver. Qed.

Lemma idle_leaves t v t' : idle t -> leaves t v t' -> idle t'.
Proof. intros [H1 H2] (_ & H3 & H4). split; congruence. Qed.

Lemma ip_at_set ip x m : (ip < length (icache m))%nat -> ip_at ip (ip_set ip x m) = x.
Proof. intros H. unfold ip_at, ip_set; cbn. by rewrite list_lookup_insert_eq. Qed.

Lemma ip_set_set ip x y m : ip_set ip y (ip_set ip x m) = ip_set ip y m.
Proof. unfold ip_set; cbn. by rewrite list_insert_insert_eq. Qed.

Lemma ip_set_id ip m : (ip < length (icache m))%nat -> ip_set ip (ip_at ip m) m = m.
Proof.
  intros H. unfold ip_at, ip_set. destruct m as [s c]; cbn in *. f_equal.
  destruct (lookup_lt_is_Some_2 c ip H) as [x E]. rewrite E. by apply list_insert_id.
Qed.

Lemma set_addrs_id x : set_addrs (i_addrs x) x = x.
Proof. by destruct x. Qed.

Lemma set_addrs_set a a' x : set_addrs a' (set_addrs a x) = set_addrs a' x.
Proof. done. Qed.

Lemma length_ip_set ip x m : length (icache (ip_set ip x m)) = length (icache m).
Proof. apply length_insert. Qed.

(** The indirect block of a file and its data blocks from [lo] to [hi]. *)
Definition file_block (v : list block) (addrs : list Z) (lo hi b : Z) : Prop :=
  b <> 0 /\ exists k, 0 <= k <= MAXFILE /\ (k = MAXFILE \/ lo <= k < hi) /\ slot v addrs k = b.

(** What an operation on these blocks may read: them, and the free map. *)
Definition file_area (s : superblock) (v : list block) (addrs : list Z) (lo hi b : Z) : Prop :=
  in_bitmap s b \/ file_block v addrs lo hi b.

Lemma file_area_ind s v addrs lo hi b : ind addrs = b -> b <> 0 -> file_area s v addrs lo hi b.
Proof. intros E H. right. split; [done|]. exists MAXFILE. split; [apply maxfile_slot|]. split; [by left|]. by rewrite slot_ind. Qed.

Lemma file_area_slot s v addrs lo hi k b : slot v addrs k = b -> b <> 0 -> 0 <= k <= MAXFILE -> lo <= k < hi -> file_area s v addrs lo hi b.
Proof. intros E H Hk Hl. right. split; [done|]. exists k. split; [done|]. split; [by right|done]. Qed.

(** What [bmap] does to the file of the inode [ip]. *)
Record bmapped (ip : nat) (bn size : Z) (m : fs) (t : txs) (r : outcome (fs * txs) Z) (addrs' : list Z) (t' : txs) : Prop := {
  bm_run : r = Ok (slot (view t') addrs' bn) (ip_set ip (set_addrs addrs' (ip_at ip m)) m, t');
  bm_idle : idle t';
  bm_nonzero : slot (view t') addrs' bn <> 0;
  bm_ok : file_ok (sb m) (view t') addrs' size;
  bm_grown : grown (sb m) (view t) (i_addrs (ip_at ip m)) (view t') addrs';
  bm_free : (nfree (sb m) (view t) <= nfree (sb m) (view t') + 2)%nat;
  bm_same : slot (view t) (i_addrs (ip_at ip m)) bn <> 0 ->
    view t' = view t /\ addrs' = i_addrs (ip_at ip m);
  bm_reach : reach (file_area (sb m) (view t') addrs' bn (bn + 1)) t t'
}.

Section Bmap.
Context (ip : nat) (m : fs) (t : txs) (size : Z).
Context (Hip : (ip < length (icache m))%nat) (Hdev : i_dev (ip_at ip m) = ROOTDEV).
Context (Hd : disk_ok (sb m) (view t)) (Hidle : idle t).
Context (Hf : file_ok (sb m) (view t) (i_addrs (ip_at ip m)) size).

Lemma bmap_direct bn : 0 <= bn < NDIRECT -> (2 <= nfree (sb m) (view t))%nat ->
  exists addrs' t', bmapped ip bn size m t (run_tx (bmap ip bn) (m, t)) addrs' t'.
Proof using Hip Hdev Hd Hidle Hf.
  intros Hbn Hfree. set (x := ip_at ip m) in *. set (s := sb m) in *.
  assert (Hsl : slot (view t) (i_addrs x) bn = aget 0 (i_addrs x) bn).
  { rewrite slot_baddr by (unfold MAXFILE, NDIRECT, NINDIRECT in *; lia). unfold baddr. by rewrite (proj2 (Z.ltb_lt _ _)) by lia. }
  unfold bmap, inode_, upd. rewrite run_tgets. fold x. rewrite (proj2 (Z.ltb_lt _ _)) by lia. rewrite <- Hsl.
  destruct (Z.eqb_spec (slot (view t) (i_addrs x) bn) 0) as [H0|Hne].
  - destruct (balloc_free m t Hd (idle_busy_ok _ _ Hidle)) as (a & t1 & E & Hl & Hre & Ha & Hu); [fold s; lia|].
    fold s in Hl, Hre, Ha, Hu. rewrite Hdev, (run_tx_bind_ok _ _ _ _ _ E), run_tmod. fold x.
    destruct (grow_direct s (view t) (i_addrs x) size a Hd Hf Ha Hu bn Hbn) as (Hs & Hf' & Hg & Hn).
    { rewrite slot_baddr in H0; [done|]. unfold MAXFILE, NDIRECT, NINDIRECT in *. lia. }
    pose proof (dstart_pos _ _ Hd). destruct Hl as (V1 & H1 & S1). exists (aset (i_addrs x) bn a), t1. split.
    + rewrite V1, Hs. done.
    + by eapply idle_leaves; [|split].
    + rewrite V1, Hs. fold s in H. lia.
    + by rewrite V1.
    + by rewrite V1.
    + rewrite V1. fold s. lia.
    + done.
    + eapply reach_mono; [|exact Hre]. intros y [Hy| ->]; [by left|]. fold s. rewrite V1.
      apply (file_area_slot _ _ _ _ _ bn); [done|fold s in H; lia|unfold MAXFILE, NDIRECT, NINDIRECT in *; lia|lia].
  - exists (i_addrs x), t. split; try done.
    + fold x. rewrite set_addrs_id. unfold x. by rewrite ip_set_id.
    + by apply file_grown_refl.
    + lia.
    + apply reach_refl.
Qed.

(** The entry of an indirect block that the inode has. *)
Lemma bmap_entry bn : NDIRECT <= bn < MAXFILE -> ind (i_addrs (ip_at ip m)) <> 0 ->
  (1 <= nfree (sb m) (view t))%nat ->
  exists t' a, a = slot (view t') (i_addrs (ip_at ip m)) bn /\ a <> 0 /\ idle t' /\
    file_ok (sb m) (view t') (i_addrs (ip_at ip m)) size /\
    grown (sb m) (view t) (i_addrs (ip_at ip m)) (view t') (i_addrs (ip_at ip m)) /\
    (nfree (sb m) (view t) <= S (nfree (sb m) (view t')))%nat /\
    (slot (view t) (i_addrs (ip_at ip m)) bn <> 0 -> view t' = view t) /\
    reach (file_area (sb m) (view t') (i_addrs (ip_at ip m)) bn (bn + 1)) t t' /\
    run_tx (tread ROOTDEV (ind (i_addrs (ip_at ip m))) ;;
            a ← tdata (ind (i_addrs (ip_at ip m)));
            addr ← (if get32 (entry bn) a =? 0 then
                      addr ← balloc ROOTDEV;
                      tset (ind (i_addrs (ip_at ip m))) (put32 (entry bn) addr a) ;;
                      tlog (ind (i_addrs (ip_at ip m))) ;;
                      mret addr
                    else mret (get32 (entry bn) a));
            trelse (ind (i_addrs (ip_at ip m))) ;;
            mret addr) (m, t) = Ok a (m, t').
Proof using Hip Hdev Hd Hidle Hf.
  intros Hbn Hi Hfree. set (x := ip_at ip m) in *. set (s := sb m) in *. set (bp := ind (i_addrs x)) in *.
  destruct (ind_used s (view t) (i_addrs x) size Hf Hi) as [Hir Hiu]. fold bp in Hir, Hiu.
  pose proof (dstart_pos _ _ Hd) as Hpos. fold s in Hpos. pose proof (d_size _ _ Hd) as Hsz. fold s in Hsz.
  destruct Hidle as [Hh Hst].
  pose proof (layout _ _ Hd) as Hly. fold s in Hly. assert (Hr : t_in_range bp t) by (apply (range_ok s); [done|lia]).
  rewrite run_tread by (done || rewrite Hh; set_solver). rewrite run_tdata by (cbn; set_solver). rewrite tview_hold.
  assert (Hb : slot (view t) (i_addrs x) bn = get32 (entry bn) (tview bp t)).
  { rewrite slot_baddr by lia. unfold baddr. rewrite (proj2 (Z.ltb_ge _ _)) by lia. fold bp. by rewrite (proj2 (Z.eqb_neq _ _)). }
  rewrite <- Hb. destruct (Z.eqb_spec (slot (view t) (i_addrs x) bn) 0) as [H0|Hne].
  - destruct (balloc_free m (hold bp t)) as (a & t1 & E & (V1 & H1 & S1) & Hre & Ha & Hu).
    { done. }
    { split; [done|]. cbn. rewrite Hh. intros b Hbb. assert (b = bp) as -> by set_solver.
      split; [change (sb m) with s; lia|done]. }
    { cbn. fold s. lia. }
    cbn in V1, H1, S1, Ha, Hu. fold s in V1, Ha, Hu. rewrite run_tx_assoc, (run_tx_bind_ok _ _ _ _ _ E).
    rewrite run_tx_assoc, run_tset by (rewrite H1; set_solver). rewrite run_tx_assoc, run_tlog by (cbn; rewrite H1; set_solver).
    change (mret a ≫= ?f) with (f a). cbn beta. rewrite run_trelse by (cbn; rewrite ?H1, ?S1, ?Hst; set_solver).
    destruct (grow_entry s (view t) (i_addrs x) size a Hd Hf Ha Hu bn Hbn Hi) as (Hs & Hf' & Hg & Hn).
    { by rewrite slot_baddr in H0 by lia. }
    fold bp in Hs, Hf', Hg, Hn.
    set (t2 := release bp (enlog bp (change bp (put32 (entry bn) a (tview bp t)) t1))).
    assert (V2 : view t2 = <[Z.to_nat bp := put32 (entry bn) a (blk (view t) bp)]> (allocated s a (view t))) by (cbn; by rewrite V1).
    exists t2, a. rewrite V2. split; [done|]. split; [lia|]. split.
    { split; cbn; rewrite ?H1, ?S1, ?Hh, ?Hst; set_solver. }
    split; [done|]. split; [done|]. split; [lia|]. split; [done|]. split; [|done].
    intros y Hy. cbn in Hy. destruct (Hre y Hy) as [Hy'|[Hy'| ->]].
    + cbn in Hy'. apply elem_of_union in Hy' as [->%elem_of_singleton|Hy']; [right; by apply file_area_ind|by left].
    + right. by left.
    + right. apply (file_area_slot _ _ _ _ _ bn); [done|lia|unfold NDIRECT in *; lia|lia].
  - change (mret (slot (view t) (i_addrs x) bn) ≫= ?f) with (f (slot (view t) (i_addrs x) bn)). cbn beta.
    rewrite run_trelse by (cbn; rewrite ?Hst; set_solver).
    exists (release bp (hold bp t)), (slot (view t) (i_addrs x) bn). split; [done|]. split; [done|]. split.
    { split; cbn; rewrite ?Hh, ?Hst; set_solver. }
    split; [done|]. split; [by apply file_grown_refl|]. split; [cbn; lia|]. split; [done|]. split; [|done].
    intros y Hy. cbn in Hy. apply elem_of_union in Hy as [->%elem_of_singleton|Hy]; [right; by apply file_area_ind|by left].
Qed.

End Bmap.

Lemma bmap_run ip m t size bn : (ip < length (icache m))%nat -> i_dev (ip_at ip m) = ROOTDEV ->
  disk_ok (sb m) (view t) -> idle t -> file_ok (sb m) (view t) (i_addrs (ip_at ip m)) size ->
  0 <= bn < MAXFILE -> (2 <= nfree (sb m) (view t))%nat ->
  exists addrs' t', bmapped ip bn size m t (run_tx (bmap ip bn) (m, t)) addrs' t'.
Proof.
  intros Hip Hdev Hd Hidle Hf Hbn Hfree.
  destruct (Z.lt_ge_cases bn NDIRECT); [apply bmap_direct; done || lia|].
  set (x := ip_at ip m) in *. set (s := sb m) in *.
  unfold bmap, inode_, upd. rewrite run_tgets. fold x. rewrite (proj2 (Z.ltb_ge bn NDIRECT)) by lia.
  rewrite (proj2 (Z.ltb_lt (bn - NDIRECT) NINDIRECT)) by (unfold MAXFILE in *; lia). rewrite Hdev.
  fold (ind (i_addrs x)). destruct (Z.eqb_spec (ind (i_addrs x)) 0) as [E0|Hne].
  - destruct (balloc_free m t Hd (idle_busy_ok _ _ Hidle)) as (a & t1 & E & (V1 & H1 & S1) & Hre & Ha & Hu); [fold s; lia|].
    fold s in V1, Hre, Ha, Hu. rewrite run_tx_assoc, (run_tx_bind_ok _ _ _ _ _ E), run_tx_assoc, run_tmod. fold x.
    change (mret a ≫= ?f) with (f a). cbn beta.
    destruct (grow_ind s (view t) (i_addrs x) size a Hd Hf Ha Hu E0) as (Hi & Hf1 & Hg1 & Hn1).
    pose proof (dstart_pos _ _ Hd) as Hpos. fold s in Hpos.
    set (addrs1 := aset (i_addrs x) NDIRECT a) in *. set (m1 := ip_set ip (set_addrs addrs1 x) m) in *.
    assert (Hx1 : ip_at ip m1 = set_addrs addrs1 x) by by apply ip_at_set.
    destruct (bmap_entry ip m1 t1 size) with (bn := bn) as (t2 & a2 & Ea & Hane & Hidle2 & Hf2 & Hg2 & Hn2 & _ & Hre2 & Erun).
    { unfold m1. by rewrite length_ip_set. }
    { by rewrite Hx1. }
    { rewrite V1. apply Hg1. }
    { by eapply idle_leaves; [|split]. }
    { rewrite Hx1, V1. exact Hf1. }
    { lia. }
    { rewrite Hx1. change (ind addrs1 <> 0). rewrite Hi. lia. }
    { rewrite V1. change (sb m1) with s. lia. }
    rewrite Hx1 in Ea, Hf2, Hg2, Hre2, Erun. cbn [i_addrs set_addrs] in Ea, Hf2, Hg2, Hre2, Erun. rewrite Hi in Erun.
    change (sb m1) with s in *. rewrite V1 in Hg2, Hn2.
    exists addrs1, t2. split; try done.
    + rewrite <- Ea. exact Erun.
    + by rewrite <- Ea.
    + eapply grown_trans; [exact Hf1|exact Hg1|exact Hg2].
    + fold s. lia.
    + intros Hs. exfalso. apply Hs. rewrite slot_baddr by lia. unfold baddr. rewrite (proj2 (Z.ltb_ge _ _)) by lia. fold x. by rewrite E0.
    + eapply reach_trans; [|exact Hre2]. eapply reach_mono; [|exact Hre]. intros y [Hy| ->]; [by left|].
      apply file_area_ind; [done|lia].
  - change (mret (ind (i_addrs x)) ≫= ?f) with (f (ind (i_addrs x))). cbn beta.
    destruct (bmap_entry ip m t size) with (bn := bn) as (t2 & a2 & Ea & Hane & Hidle2 & Hf2 & Hg2 & Hn2 & Hsame & Hre2 & Erun); try done.
    { lia. }
    { fold s. lia. }
    exists (i_addrs x), t2. split; try done.
    + fold x. rewrite set_addrs_id. unfold x. rewrite ip_set_id by done. rewrite <- Ea. exact Erun.
    + unfold x. by rewrite <- Ea.
    + fold s. fold s in Hn2. lia.
    + intros Hs. split; [by apply Hsame|done].
Qed.

(** A block that the file has is found without a free block. *)
Lemma bmap_hit ip m t size bn : i_dev (ip_at ip m) = ROOTDEV -> disk_ok (sb m) (view t) -> idle t ->
  file_ok (sb m) (view t) (i_addrs (ip_at ip m)) size -> 0 <= bn < MAXFILE ->
  baddr (view t) (i_addrs (ip_at ip m)) bn <> 0 ->
  exists t', reads t t' /\
    run_tx (bmap ip bn) (m, t) = Ok (baddr (view t) (i_addrs (ip_at ip m)) bn) (m, t').
Proof.
  intros Hdev Hd [Hh Hst] Hf Hbn Hne. set (x := ip_at ip m) in *. unfold bmap, inode_. rewrite run_tgets. fold x.
  destruct (Z.ltb_spec bn NDIRECT) as [Hlt|Hge].
  - unfold baddr in *. rewrite (proj2 (Z.ltb_lt _ _)) in * by done. rewrite (proj2 (Z.eqb_neq _ _)) by done.
    exists t. split; [apply reads_refl|done].
  - rewrite (proj2 (Z.ltb_lt (bn - NDIRECT) NINDIRECT)) by (unfold MAXFILE in *; lia).
    unfold baddr in *. rewrite (proj2 (Z.ltb_ge bn NDIRECT)) in * by done. fold (ind (i_addrs x)) in *.
    destruct (Z.eqb_spec (ind (i_addrs x)) 0) as [|Hi]; [done|].
    destruct (ind_used _ _ _ _ Hf Hi) as [Hir _]. pose proof (dstart_pos _ _ Hd). pose proof (d_size _ _ Hd).
    change (mret (ind (i_addrs x)) ≫= ?f) with (f (ind (i_addrs x))). cbn beta zeta. rewrite Hdev.
    pose proof (layout _ _ Hd). rewrite run_tread by ((apply (range_ok (sb m)); [done|lia]) || (rewrite Hh; set_solver)). rewrite run_tdata by (cbn; set_solver).
    rewrite tview_hold. change (get32 (Z.to_nat (4 * (bn - NDIRECT))) (tview (ind (i_addrs x)) t)) with
      (get32 (entry bn) (blk (view t) (ind (i_addrs x)))).
    rewrite (proj2 (Z.eqb_neq (get32 _ _) 0)) by done.
    change (mret (get32 ?o ?d) ≫= ?f) with (f (get32 o d)). cbn beta.
    rewrite run_trelse by (cbn; rewrite ?Hst; set_solver).
    eexists. split; [|done]. apply reads_hold. rewrite Hh. set_solver.
Qed.

(** ** Bytes *)

Definition fbyte (v : list block) (addrs : list Z) (i : Z) : Z := aget 0 (blk v (baddr v addrs (i / BSZ))) (i mod BSZ).

Definition contents (v : list block) (x : inode) : list Z := map (fbyte v (i_addrs x)) (seqZ 0 (i_size x)).

Lemma seqZ_split a n k : 0 <= k <= n -> seqZ a n = seqZ a k ++ seqZ (a + k) (n - k).
Proof. intros H. rewrite <- seqZ_app by lia. f_equal. lia. Qed.

Lemma map_aget (d : list Z) o k : 0 <= o -> 0 <= k -> o + k <= Z.of_nat (length d) ->
  take (Z.to_nat k) (drop (Z.to_nat o) d) = map (aget 0 d) (seqZ o k).
Proof.
  intros Ho Hk Hd. apply list_eq. intros i. rewrite list_lookup_fmap.
  destruct (decide (Z.of_nat i < k)) as [Hi|Hi].
  - rewrite lookup_take_lt, lookup_drop by lia. rewrite lookup_seqZ_lt by lia. cbn.
    destruct (lookup_lt_is_Some_2 d (Z.to_nat o + i)) as [y Ey]; [lia|]. rewrite Ey. f_equal. symmetry.
    apply aget_lookup; [|lia]. rewrite <- Ey. f_equal. lia.
  - rewrite lookup_take_ge by lia. by rewrite lookup_seqZ_ge by lia.
Qed.

(** The bytes of one block. *)
Lemma block_bytes v addrs off k : 0 <= off -> 0 <= k -> off mod BSZ + k <= BSZ ->
  length (blk v (baddr v addrs (off / BSZ))) = BSIZE ->
  take (Z.to_nat k) (drop (Z.to_nat (off mod BSZ)) (blk v (baddr v addrs (off / BSZ)))) =
  map (fbyte v addrs) (seqZ off k).
Proof.
  intros Ho Hk Hm Hl. pose proof (Z.mod_pos_bound off BSZ ltac:(unfold BSZ; lia)) as Hmod.
  rewrite map_aget by (rewrite ?Hl; unfold BSZ, BSIZE in *; lia).
  replace (seqZ off k) with (map (Z.add (off - off mod BSZ)) (seqZ (off mod BSZ) k)).
  2: { apply list_eq. intros i. rewrite list_lookup_fmap.
       destruct (decide (Z.of_nat i < k)); [rewrite !lookup_seqZ_lt by lia; cbn; f_equal; lia|by rewrite !lookup_seqZ_ge by lia]. }
  rewrite map_map. apply map_ext_in. intros y Hy%list_elem_of_In%elem_of_seqZ. unfold fbyte.
  assert (Hq : (off - off mod BSZ + y) / BSZ = off / BSZ /\ (off - off mod BSZ + y) mod BSZ = y).
  { pose proof (Z.div_mod off BSZ ltac:(unfold BSZ; lia)) as E.
    replace (off - off mod BSZ + y) with (y + off / BSZ * BSZ) by lia.
    rewrite Z.div_add, Z.mod_add by (unfold BSZ; lia). rewrite Z.div_small, Z.mod_small by lia. lia. }
  destruct Hq as [-> ->]. done.
Qed.

(** ** readi *)

(** The inode [ip] is cached with the file that the disk has. *)
Record file_at (ip : nat) (m : fs) (t : txs) : Prop := {
  a_ip : (ip < length (icache m))%nat;
  a_dev : i_dev (ip_at ip m) = ROOTDEV;
  a_disk : disk_ok (sb m) (view t);
  a_idle : idle t;
  a_file : file_ok (sb m) (view t) (i_addrs (ip_at ip m)) (i_size (ip_at ip m))
}.

Lemma idle_reads t t' : idle t -> reads t t' -> idle t'.
Proof. intros H Hr. by eapply idle_leaves, reads_leaves. Qed.

Lemma file_at_reads ip m t t' : file_at ip m t -> reads t t' -> file_at ip m t'.
Proof. intros H Hl. pose proof (idle_reads _ _ (a_idle _ _ _ H) Hl). destruct H, Hl as [V _ _ _ _]. split; rewrite ?V; done. Qed.

Lemma block_of off size : 0 <= off < size -> size <= MAXFILE * BSZ ->
  0 <= off / BSZ < MAXFILE /\ off / BSZ * BSZ <= off.
Proof.
  intros Ho Hs. pose proof (Z.mul_div_le off BSZ ltac:(unfold BSZ; lia)).
  split; [|lia]. split; [apply Z.div_pos; unfold BSZ; lia|]. apply Z.div_lt_upper_bound; unfold BSZ in *; lia.
Qed.

Lemma readi_loop_run f ip off n tot dst m t : file_at ip m t ->
  0 <= off -> 0 <= tot <= n -> off + (n - tot) <= i_size (ip_at ip m) -> (Z.to_nat (n - tot) <= f)%nat ->
  exists t', reads t t' /\
    run_tx (readi_loop f ip off n tot dst) (m, t) =
      Ok (dst ++ map (fbyte (view t) (i_addrs (ip_at ip m))) (seqZ off (n - tot))) (m, t').
Proof.
  revert off tot dst t. induction f as [|f IH]; intros off tot dst t Hfa Ho Ht Hs Hf; cbn [readi_loop].
  { assert (tot = n) as -> by lia. rewrite Z.ltb_irrefl, Z.sub_diag. cbn [negb]. rewrite app_nil_r. exists t. split; [apply reads_refl|done]. }
  destruct (Z.ltb_spec tot n) as [Hlt|Hge]; cbn [negb].
  2: { assert (tot = n) as -> by lia. rewrite Z.sub_diag. cbn. rewrite app_nil_r. exists t. split; [apply reads_refl|done]. }
  set (x := ip_at ip m) in *. unfold inode_. rewrite run_tgets. fold x.
  pose proof (a_file _ _ _ Hfa) as Hfile. fold x in Hfile. pose proof (f_size _ _ _ _ Hfile) as Hsz.
  destruct (block_of off (i_size x)) as [Hbn Hbo]; [lia|lia|].
  assert (Hne : baddr (view t) (i_addrs x) (off / BSZ) <> 0) by (apply (f_alloc _ _ _ _ Hfile); lia).
  destruct (bmap_hit ip m t (i_size x) (off / BSZ) (a_dev _ _ _ Hfa) (a_disk _ _ _ Hfa) (a_idle _ _ _ Hfa) Hfile Hbn Hne)
    as (t1 & Hl1 & E1).
  rewrite (run_tx_bind_ok _ _ _ _ _ E1). fold x. set (a := baddr (view t) (i_addrs x) (off / BSZ)) in *.
  pose proof (file_at_reads _ _ _ _ Hfa Hl1) as Hfa1. destruct (a_idle _ _ _ Hfa1) as [Hh1 Hs1].
  destruct (f_data _ _ _ _ Hfile (off / BSZ)) as [Har _]; [lia|by rewrite slot_baddr by lia|].
  rewrite slot_baddr in Har by lia. fold a in Har. pose proof (dstart_pos _ _ (a_disk _ _ _ Hfa)).
  pose proof (d_size _ _ (a_disk _ _ _ Hfa1)).
  destruct (run_read_block a (fun d => readi_loop f ip (off + Z.min (n - tot) (BSZ - off mod BSZ)) n
    (tot + Z.min (n - tot) (BSZ - off mod BSZ))
    (dst ++ take (Z.to_nat (Z.min (n - tot) (BSZ - off mod BSZ))) (drop (Z.to_nat (off mod BSZ)) d))) m t1) as (t2 & Hl2 & _ & E2).
  { apply (range_ok (sb m)); [apply Hfa1|]. pose proof (layout _ _ (a_disk _ _ _ Hfa1)). lia. }
  { rewrite Hh1. set_solver. }
  { rewrite Hs1. set_solver. }
  replace (i_dev x) with ROOTDEV by (symmetry; apply Hfa). cbn zeta.
  set (k := Z.min (n - tot) (BSZ - off mod BSZ)) in *.
  pose proof (Z.mod_pos_bound off BSZ ltac:(unfold BSZ; lia)) as Hmod.
  assert (Hv1 : view t1 = view t) by apply Hl1.
  pose proof (file_at_reads _ _ _ _ Hfa1 Hl2) as Hfa2.
  destruct (IH (off + k) (tot + k) (dst ++ take (Z.to_nat k) (drop (Z.to_nat (off mod BSZ)) (tview a t1))) t2 Hfa2)
    as (t3 & Hl3 & E3); [lia|lia|fold x; lia|lia|].
  assert (Hv2 : view t2 = view t) by (rewrite <- Hv1; apply Hl2).
  exists t3. split.
  - eapply reads_trans; [exact Hl1|]. eapply reads_trans; [exact Hl2|exact Hl3].
  - etransitivity; [exact E2|]. rewrite E3. f_equal. rewrite Hv2. fold x. rewrite <- app_assoc. f_equal.
    rewrite (seqZ_split off (n - tot) k) by lia. rewrite map_app. f_equal.
    + unfold tview. rewrite Hv1. apply block_bytes; [lia|lia|lia|]. apply (blk_length (sb m)), Hfa.
    + do 2 f_equal. lia.
Qed.

Lemma map_fbyte_contents v x off k : 0 <= off -> 0 <= k -> off + k <= i_size x ->
  map (fbyte v (i_addrs x)) (seqZ off k) = take (Z.to_nat k) (drop (Z.to_nat off) (contents v x)).
Proof.
  intros Ho Hk Hs. unfold contents. rewrite (seqZ_split 0 (i_size x) off) by lia. rewrite map_app.
  rewrite drop_app_length' by (rewrite length_map, length_seqZ; lia).
  rewrite (seqZ_split (0 + off) (i_size x - off) k) by lia. rewrite map_app.
  rewrite take_app_length' by (rewrite length_map, length_seqZ; lia). done.
Qed.

Lemma readi_run devread ip off n m t : file_at ip m t -> i_type (ip_at ip m) <> T_DEV ->
  0 <= off < 2 ^ 32 -> 0 <= n < 2 ^ 32 ->
  let x := ip_at ip m in
  if (off >? i_size x) || (off + n >=? 2 ^ 32) then run_tx (readi devread ip off n) (m, t) = Ok (-1, []) (m, t)
  else exists t', reads t t' /\
    let k := Z.min n (i_size x - off) in
    run_tx (readi devread ip off n) (m, t) = Ok (k, take (Z.to_nat k) (drop (Z.to_nat off) (contents (view t) x))) (m, t').
Proof.
  intros Hfa Hty Ho Hn x. unfold readi, inode_. rewrite run_tgets. fold x.
  rewrite (proj2 (Z.eqb_neq (i_type x) T_DEV)) by done.
  destruct (Z.gtb_spec off (i_size x)) as [|Hle]; cbn [orb]; [done|].
  destruct (Z.geb_spec (off + n) (2 ^ 32)) as [Hov|Hov].
  { assert (u32 (off + n) = off + n - 2 ^ 32) as ->.
    { unfold u32. symmetry. apply (Z.mod_unique_pos _ _ 1); lia. }
    by rewrite (proj2 (Z.ltb_lt _ _)) by lia. }
  rewrite u32_id by lia. rewrite (proj2 (Z.ltb_ge _ _)) by lia.
  assert ((if off + n >? i_size x then i_size x - off else n) = Z.min n (i_size x - off)) as ->.
  { destruct (Z.gtb_spec (off + n) (i_size x)); lia. }
  set (k := Z.min n (i_size x - off)).
  destruct (readi_loop_run (Z.to_nat k) ip off k 0 [] m t Hfa) as (t' & Hl & E); [lia|lia|fold x; lia|lia|].
  exists t'. split; [done|]. cbn zeta. rewrite (run_tx_bind_ok _ _ _ _ _ E). fold x. rewrite Z.sub_0_r. cbn [app].
  rewrite map_fbyte_contents by lia. done.
Qed.

(** ** writei *)

(** What writing to a file keeps: the blocks that the file does not own. *)
Record wrote (s : superblock) (v : list block) (addrs : list Z) (v' : list block) (addrs' : list Z) : Prop := {
  w_disk : disk_ok s v';
  w_length : length v' = length v;
  w_used : forall b, 0 <= b < sb_size s -> used s v b = true -> used s v' b = true;
  w_frame : forall b, 0 <= b < sb_size s -> used s v b = true -> ~ owns v addrs b ->
    ~ sb_bmapstart s <= b < dstart s -> blk v' b = blk v b;
  w_slot : forall k, 0 <= k <= MAXFILE -> slot v addrs k <> 0 -> slot v' addrs' k = slot v addrs k;
  w_owns : forall b, 0 <= b < sb_size s -> owns v' addrs' b -> owns v addrs b \/ used s v b = false
}.

Lemma wrote_refl s v addrs : disk_ok s v -> wrote s v addrs v addrs.
Proof. intros H. split; auto. Qed.

Lemma file_area_wrote s v a v' a' lo hi lo' hi' b : wrote s v a v' a' -> lo' <= lo -> hi <= hi' ->
  file_area s v a lo hi b -> file_area s v' a' lo' hi' b.
Proof.
  intros W Hlo Hhi [Hb|[H0 (k & Hk & Hr & E)]]; [by left|right]. split; [done|]. exists k. split; [done|].
  split; [lia|]. rewrite (w_slot _ _ _ _ _ W); [done|done|congruence].
Qed.

Lemma ind_owned v addrs : ind addrs <> 0 -> owns v addrs (ind addrs).
Proof. intros H. split; [done|]. exists MAXFILE. split; [apply maxfile_slot|apply slot_ind]. Qed.

Lemma grown_wrote s v addrs v' addrs' : grown s v addrs v' addrs' -> wrote s v addrs v' addrs'.
Proof.
  intros H. split; try apply H. intros b Hb Hu Ho Hm. apply (g_frame _ _ _ _ _ H); [done|done| |done].
  intros ->. destruct (decide (ind addrs = 0)); [done|]. by destruct Ho; apply ind_owned.
Qed.

Lemma wrote_trans s v a v1 a1 v2 a2 : wrote s v a v1 a1 -> wrote s v1 a1 v2 a2 -> wrote s v a v2 a2.
Proof.
  intros H1 H2. split.
  - apply H2.
  - rewrite (w_length _ _ _ _ _ H2). apply H1.
  - intros b Hb Hu. apply (w_used _ _ _ _ _ H2); [done|]. by apply (w_used _ _ _ _ _ H1).
  - intros b Hb Hu Ho Hm.
    rewrite (w_frame _ _ _ _ _ H2); [by apply (w_frame _ _ _ _ _ H1)|done|by apply (w_used _ _ _ _ _ H1)| |done].
    intros Ho1. destruct (w_owns _ _ _ _ _ H1 b Hb Ho1); [done|congruence].
  - intros k Hk Hne. rewrite (w_slot _ _ _ _ _ H2), (w_slot _ _ _ _ _ H1); try done. by rewrite (w_slot _ _ _ _ _ H1).
  - intros b Hb Ho. destruct (w_owns _ _ _ _ _ H2 b Hb Ho) as [Ho'|Hfr].
    + by apply (w_owns _ _ _ _ _ H1).
    + right. destruct (used s v b) eqn:E; [|done]. by rewrite (w_used _ _ _ _ _ H1) in Hfr.
Qed.

(** Extending a file keeps its bytes. *)
Lemma grown_fbyte s v addrs v' addrs' size i : file_ok s v addrs size -> disk_ok s v -> grown s v addrs v' addrs' ->
  0 <= i -> i / BSZ < MAXFILE -> baddr v addrs (i / BSZ) <> 0 -> fbyte v' addrs' i = fbyte v addrs i.
Proof.
  intros Hf Hd Hg Hi Hb Hne. assert (0 <= i / BSZ) by (apply Z.div_pos; unfold BSZ; lia).
  pose proof (dstart_pos _ _ Hd). rewrite <- (slot_baddr v addrs) in Hne by lia.
  destruct (f_data _ _ _ _ Hf (i / BSZ) ltac:(lia) Hne) as [Hr Hu].
  unfold fbyte. f_equal. rewrite <- !slot_baddr by lia. rewrite (g_slot _ _ _ _ _ Hg) by (done || lia).
  apply (g_frame _ _ _ _ _ Hg); [lia|done| |lia]. intros E. exfalso.
  assert (i / BSZ = MAXFILE); [|lia]. apply (f_inj _ _ _ _ Hf); [lia|apply maxfile_slot|done|]. by rewrite slot_ind.
Qed.

Section WriteBlock.
Context (s : superblock) (v : list block) (addrs : list Z) (size bn : Z) (d : block).
Context (Hd : disk_ok s v) (Hf : file_ok s v addrs size) (Hbn : 0 <= bn < MAXFILE) (Hne : baddr v addrs bn <> 0).
Context (Hlen : length d = BSIZE).
Local Notation a := (baddr v addrs bn).
Local Notation v' := (<[Z.to_nat a := d]> v).

Lemma wb_addr : dstart s <= a < sb_size s /\ used s v a = true.
Proof using Hd Hf Hbn Hne Hlen.
  pose proof (f_data _ _ _ _ Hf bn ltac:(lia)) as H. rewrite slot_baddr in H by lia. auto.
Qed.

Lemma wb_blk b : 0 <= b -> b <> a -> blk v' b = blk v b.
Proof using Hd Hf Hbn Hne Hlen. intros H0 Hb. pose proof wb_addr. pose proof (dstart_pos _ _ Hd). apply blk_insert_ne; lia. Qed.

Lemma wb_slot k : 0 <= k <= MAXFILE -> slot v' addrs k = slot v addrs k.
Proof using Hd Hf Hbn Hne Hlen.
  intros Hk. assert (Hblk : ind addrs <> 0 -> blk v' (ind addrs) = blk v (ind addrs)).
  { intros Hi. destruct (ind_used _ _ _ _ Hf Hi). pose proof (dstart_pos _ _ Hd). apply wb_blk; [lia|].
    intros E. assert (bn = MAXFILE); [|lia].
    apply (f_inj _ _ _ _ Hf); [lia|apply maxfile_slot|by rewrite slot_baddr by lia|].
    rewrite slot_ind, slot_baddr by lia. done. }
  revert Hblk. generalize v'. intros w Hblk. unfold slot, baddr.
  destruct (Z.eqb_spec k MAXFILE); [done|]. destruct (k <? NDIRECT); [done|].
  destruct (Z.eqb_spec (ind addrs) 0) as [|Hi]; [done|]. by rewrite Hblk.
Qed.

Lemma wb_baddr k : 0 <= k < MAXFILE -> baddr v' addrs k = baddr v addrs k.
Proof using Hd Hf Hbn Hne Hlen. intros Hk. pose proof (wb_slot k ltac:(lia)) as E. by rewrite !slot_baddr in E by lia. Qed.

Lemma wb_used b : 0 <= b < sb_size s -> used s v' b = used s v b.
Proof using Hd Hf Hbn Hne Hlen. intros Hb. pose proof wb_addr. apply used_data; [done|lia|done]. Qed.

Lemma wb_disk : disk_ok s v'.
Proof using Hd Hf Hbn Hne Hlen. pose proof wb_addr. apply disk_ok_data; [done|lia|done]. Qed.

Lemma wb_file : file_ok s v' addrs size.
Proof using Hd Hf Hbn Hne Hlen.
  pose proof (dstart_pos _ _ Hd). split; try apply Hf.
  - intros k Hk Hs. pose proof (f_size _ _ _ _ Hf). rewrite wb_baddr by (unfold BSZ in *; lia). by apply (f_alloc _ _ _ _ Hf).
  - intros k Hk. rewrite wb_slot by done. intros Hne'. destruct (f_data _ _ _ _ Hf k Hk Hne') as [Hr Hu].
    split; [done|]. by rewrite wb_used by lia.
  - intros k k' Hk Hk'. rewrite !wb_slot by done. by apply (f_inj _ _ _ _ Hf).
Qed.

Lemma wb_wrote : wrote s v addrs v' addrs.
Proof using Hd Hf Hbn Hne Hlen.
  assert (Ho : owns v addrs a) by (split; [done|]; exists bn; split; [lia|apply slot_baddr; lia]).
  split.
  - apply wb_disk.
  - apply length_insert.
  - intros b Hb Hu. by rewrite wb_used.
  - intros b Hb Hu Hno _. apply wb_blk; [lia|]. by intros ->.
  - intros k Hk _. by apply wb_slot.
  - intros b Hb [Hb0 (k & Hk & E)]. left. split; [done|]. exists k. split; [done|]. by rewrite wb_slot in E.
Qed.

Lemma wb_free : nfree s v' = nfree s v.
Proof using Hd Hf Hbn Hne Hlen. apply nfree_same. apply wb_used. Qed.

Lemma wb_fbyte i : 0 <= i -> i / BSZ < MAXFILE ->
  fbyte v' addrs i = if i / BSZ =? bn then aget 0 d (i mod BSZ) else fbyte v addrs i.
Proof using Hd Hf Hbn Hne Hlen.
  intros Hi Hm. assert (0 <= i / BSZ) by (apply Z.div_pos; unfold BSZ; lia). unfold fbyte.
  rewrite wb_baddr by lia. pose proof wb_addr. pose proof (d_size _ _ Hd). pose proof (dstart_pos _ _ Hd).
  destruct (Z.eqb_spec (i / BSZ) bn) as [->|Hnb].
  - by rewrite blk_insert_eq by lia.
  - f_equal. destruct (decide (baddr v addrs (i / BSZ) = 0)) as [E0|E0].
    { rewrite E0. apply wb_blk; lia. }
    pose proof (f_data _ _ _ _ Hf (i / BSZ) ltac:(lia)) as Hdat. rewrite slot_baddr in Hdat by lia. specialize (Hdat E0).
    apply wb_blk; [lia|]. intros E. apply Hnb. apply (f_inj _ _ _ _ Hf); [lia|lia|by rewrite slot_baddr by lia|].
    by rewrite !slot_baddr by lia.
Qed.

End WriteBlock.

Lemma file_ok_extent s v addrs z off k : file_ok s v addrs z -> 0 <= off <= z -> 0 <= k ->
  off mod BSZ + k <= BSZ -> off + k <= MAXFILE * BSZ -> baddr v addrs (off / BSZ) <> 0 ->
  file_ok s v addrs (Z.max z (off + k)).
Proof.
  intros Hf Ho Hk Hm Hmax Hne. pose proof (f_size _ _ _ _ Hf). split; try apply Hf; [lia|].
  intros bn Hbn Hlt. destruct (Z.lt_ge_cases (bn * BSZ) z); [by apply (f_alloc _ _ _ _ Hf)|].
  assert (bn = off / BSZ) as ->; [|done].
  pose proof (Z.div_mod off BSZ ltac:(unfold BSZ; lia)). pose proof (Z.mod_pos_bound off BSZ ltac:(unfold BSZ; lia)).
  unfold BSZ in *. nia.
Qed.

(** The blocks that a write touches, rounded up. *)
Definition nblocks (off n : Z) : Z := if n <=? 0 then 0 else (off + n + (BSZ - 1)) / BSZ - off / BSZ.

Lemma nblocks_first off n : 0 <= off -> 0 < n -> 1 <= nblocks off n.
Proof.
  intros Ho Hn. unfold nblocks. rewrite (proj2 (Z.leb_gt _ _)) by done. assert (off / BSZ + 1 <= (off + n + (BSZ - 1)) / BSZ); [|lia].
  replace (off / BSZ + 1) with ((off + BSZ) / BSZ); [apply Z.div_le_mono; unfold BSZ; lia|].
  replace (off + BSZ) with (off + 1 * BSZ) by lia. apply Z.div_add. unfold BSZ. lia.
Qed.

Lemma nblocks_next off n k : 0 <= off -> 0 <= k < n -> off mod BSZ + k = BSZ -> nblocks (off + k) (n - k) = nblocks off n - 1.
Proof.
  intros Ho Hkn Hk. unfold nblocks. rewrite !(proj2 (Z.leb_gt _ _)) by lia.
  replace (off + k + (n - k)) with (off + n) by lia.
  assert ((off + k) / BSZ = off / BSZ + 1); [|lia].
  pose proof (Z.div_mod off BSZ ltac:(unfold BSZ; lia)).
  replace (off + k) with ((off / BSZ + 1) * BSZ) by lia. apply Z.div_mul. unfold BSZ. lia.
Qed.

Lemma nblocks_one off k : 0 <= off -> 0 < k -> off mod BSZ + k <= BSZ -> nblocks off k = 1.
Proof.
  intros Ho Hk Hb. unfold nblocks. rewrite (proj2 (Z.leb_gt _ _)) by done.
  pose proof (Z.div_mod off BSZ ltac:(unfold BSZ; lia)). pose proof (Z.mod_pos_bound off BSZ ltac:(unfold BSZ; lia)).
  assert ((off + k + (BSZ - 1)) / BSZ = off / BSZ + 1); [|lia]. symmetry.
  apply (Z.div_unique_pos _ _ _ (off mod BSZ + k - 1)); unfold BSZ in *; lia.
Qed.

(** A write cut at a block boundary. *)
Lemma nblocks_split off n k : 0 <= off -> 0 < k <= n -> k = n \/ off mod BSZ + k = BSZ ->
  nblocks off k <= nblocks off n /\ off / BSZ <= (off + k) / BSZ /\
  (off + k) / BSZ + nblocks (off + k) (n - k) <= off / BSZ + nblocks off n.
Proof.
  intros Ho Hk Hb. pose proof (Z.div_le_mono off (off + k) BSZ ltac:(unfold BSZ; lia) ltac:(lia)).
  destruct (Z.eq_dec k n) as [->|Hne].
  - split; [lia|]. split; [done|]. rewrite Z.sub_diag. change (nblocks (off + n) 0) with 0. rewrite Z.add_0_r.
    unfold nblocks. rewrite (proj2 (Z.leb_gt _ _)) by lia.
    pose proof (Z.div_le_mono (off + n) (off + n + (BSZ - 1)) BSZ ltac:(unfold BSZ; lia) ltac:(unfold BSZ; lia)). lia.
  - destruct Hb as [|Hb]; [done|]. pose proof (nblocks_first off n Ho ltac:(lia)). rewrite (nblocks_one off k) by lia.
    split; [lia|]. split; [done|]. rewrite nblocks_next by lia. pose proof (Z.div_mod off BSZ ltac:(unfold BSZ; lia)).
    replace (off + k) with ((off / BSZ + 1) * BSZ) by lia. rewrite Z.div_mul by (unfold BSZ; lia). lia.
Qed.

(** The bytes of a file after a write of [src] at [off]. *)
Definition patched (off : Z) (src : list Z) (g : Z -> Z) (i : Z) : Z :=
  if (off <=? i) && (i <? off + Z.of_nat (length src)) then aget 0 src (i - off) else g i.

Lemma aget_drop (l : list Z) k i : 0 <= k -> 0 <= i -> aget 0 (drop (Z.to_nat k) l) i = aget 0 l (k + i).
Proof.
  intros Hk Hi. unfold aget. rewrite !(proj2 (Z.ltb_ge _ _)) by lia. rewrite lookup_drop. do 2 f_equal. lia.
Qed.

Lemma aget_splice_in off (src d : list Z) j : (off + length src <= length d)%nat ->
  Z.of_nat off <= j < Z.of_nat off + Z.of_nat (length src) -> aget 0 (splice off src d) j = aget 0 src (j - Z.of_nat off).
Proof.
  intros Hd Hj. unfold aget. rewrite !(proj2 (Z.ltb_ge _ _)) by lia. rewrite lookup_splice_in by lia. do 2 f_equal. lia.
Qed.

Lemma aget_splice_out off (src d : list Z) j : (off + length src <= length d)%nat -> 0 <= j ->
  ~ Z.of_nat off <= j < Z.of_nat off + Z.of_nat (length src) -> aget 0 (splice off src d) j = aget 0 d j.
Proof.
  intros Hd Hj Hn. unfold aget. rewrite !(proj2 (Z.ltb_ge _ _)) by lia. rewrite lookup_splice_out by lia. done.
Qed.

Lemma patched_split off k (src : list Z) g i : 0 <= k <= Z.of_nat (length src) ->
  patched (off + k) (drop (Z.to_nat k) src) (patched off (take (Z.to_nat k) src) g) i = patched off src g i.
Proof.
  intros Hk. unfold patched. rewrite length_take, length_drop.
  destruct (Z.leb_spec off i), (Z.ltb_spec i (off + Z.of_nat (length src))); cbn [andb];
    destruct (Z.leb_spec (off + k) i), (Z.ltb_spec i (off + k + Z.of_nat (length src - Z.to_nat k))); cbn [andb]; try lia;
    try (rewrite aget_drop by lia; f_equal; lia);
    destruct (Z.ltb_spec i (off + Z.of_nat (Z.to_nat k `min` length src))); try lia; cbn [andb]; try done;
    destruct (Z.leb_spec off i); try lia; cbn [andb]; try done.
  all: unfold aget; rewrite !(proj2 (Z.ltb_ge (i - off) 0)) by lia; by rewrite lookup_take_lt by lia.
Qed.

Lemma patched_ext off (src : list Z) g g' i : (~ off <= i < off + Z.of_nat (length src) -> g i = g' i) ->
  patched off src g i = patched off src g' i.
Proof.
  intros H. unfold patched. destruct (Z.leb_spec off i), (Z.ltb_spec i (off + Z.of_nat (length src))); cbn [andb]; try done;
    apply H; lia.
Qed.

(** One block of a write: the splice into the block is a patch of the bytes. *)
Lemma write_patch v addrs off src i d : 0 <= off -> 0 <= i -> length d = BSIZE ->
  off mod BSZ + Z.of_nat (length src) <= BSZ -> blk v (baddr v addrs (off / BSZ)) = d ->
  (if i / BSZ =? off / BSZ then aget 0 (splice (Z.to_nat (off mod BSZ)) src d) (i mod BSZ) else fbyte v addrs i) =
  patched off src (fbyte v addrs) i.
Proof.
  intros Ho Hi Hd Hm Hb. unfold patched.
  pose proof (Z.div_mod off BSZ ltac:(unfold BSZ; lia)) as E1. pose proof (Z.mod_pos_bound off BSZ ltac:(unfold BSZ; lia)) as M1.
  pose proof (Z.div_mod i BSZ ltac:(unfold BSZ; lia)) as E2. pose proof (Z.mod_pos_bound i BSZ ltac:(unfold BSZ; lia)) as M2.
  assert (Hfit : (Z.to_nat (off mod BSZ) + length src <= length d)%nat) by (rewrite Hd; unfold BSZ, BSIZE in *; lia).
  destruct (Z.eqb_spec (i / BSZ) (off / BSZ)) as [E|E].
  - rewrite E in E2. destruct (Z.leb_spec off i), (Z.ltb_spec i (off + Z.of_nat (length src))); cbn [andb].
    + rewrite aget_splice_in by lia. f_equal. lia.
    + rewrite aget_splice_out by lia. unfold fbyte. by rewrite E, Hb.
    + rewrite aget_splice_out by lia. unfold fbyte. by rewrite E, Hb.
    + rewrite aget_splice_out by lia. unfold fbyte. by rewrite E, Hb.
  - destruct (Z.leb_spec off i), (Z.ltb_spec i (off + Z.of_nat (length src))); cbn [andb]; try done.
    exfalso. apply E. unfold BSZ in *. nia.
Qed.

(** The file after writing [src] at [off], its blocks now reaching [z]. *)
Record written (ip : nat) (off z : Z) (src : list Z) (m : fs) (t : txs) (addrs' : list Z) (t' : txs) : Prop := {
  wr_idle : idle t';
  wr_file : file_ok (sb m) (view t') addrs' (Z.max z (off + Z.of_nat (length src)));
  wr_wrote : wrote (sb m) (view t) (i_addrs (ip_at ip m)) (view t') addrs';
  wr_bytes : forall i, 0 <= i < Z.max z (off + Z.of_nat (length src)) ->
    fbyte (view t') addrs' i = patched off src (fbyte (view t) (i_addrs (ip_at ip m))) i;
  wr_same : off + Z.of_nat (length src) <= z -> addrs' = i_addrs (ip_at ip m);
  wr_reach : reach (file_area (sb m) (view t') addrs' (off / BSZ) (off / BSZ + nblocks off (Z.of_nat (length src)))) t t';
  wr_free : Z.of_nat (nfree (sb m) (view t)) <= Z.of_nat (nfree (sb m) (view t')) + 2 * nblocks off (Z.of_nat (length src))
}.

(** One turn of the loop. *)
Lemma write_turn ip off src m t z (f : unit -> T Z) :
  (ip < length (icache m))%nat -> i_dev (ip_at ip m) = ROOTDEV -> disk_ok (sb m) (view t) -> idle t ->
  file_ok (sb m) (view t) (i_addrs (ip_at ip m)) z -> 0 <= off <= z -> (0 < length src)%nat ->
  off mod BSZ + Z.of_nat (length src) <= BSZ -> off + Z.of_nat (length src) <= MAXFILE * BSZ ->
  (2 <= nfree (sb m) (view t))%nat ->
  exists addrs' t', written ip off z src m t addrs' t' /\ (nfree (sb m) (view t) <= nfree (sb m) (view t') + 2)%nat /\
    run_tx (bp ← bmap ip (off / BSZ);
            tread ROOTDEV bp ;;
            d ← tdata bp;
            tset bp (splice (Z.to_nat (off mod BSZ)) src d) ;;
            tlog bp ;;
            trelse bp ;;
            f tt) (m, t) = run_tx (f tt) (ip_set ip (set_addrs addrs' (ip_at ip m)) m, t').
Proof.
  intros Hip Hdev Hd Hidle Hf Ho Hsrc Hm Hmax Hfree. set (x := ip_at ip m) in *. set (s := sb m) in *.
  destruct (block_of off (off + Z.of_nat (length src))) as [Hbn _]; [lia|lia|].
  destruct (bmap_run ip m t z (off / BSZ)) as (addrs1 & t1 & [Erun Hidle1 Hnz Hf1 Hg1 Hn1 Hsame1 Hre1]); try done.
  fold x in Hg1, Erun, Hsame1. fold s in Hf1, Hg1, Hn1. rewrite (run_tx_bind_ok _ _ _ _ _ Erun).
  rewrite slot_baddr in * by lia. set (a := baddr (view t1) addrs1 (off / BSZ)) in *.
  pose proof (g_disk _ _ _ _ _ Hg1) as Hd1. destruct Hidle1 as [Hh1 Hs1].
  set (d := splice (Z.to_nat (off mod BSZ)) src (blk (view t1) a)).
  pose proof (Z.mod_pos_bound off BSZ ltac:(unfold BSZ; lia)) as Hmod.
  pose proof (blk_length s (view t1) a Hd1) as Hbl.
  assert (Hdl : length d = BSIZE).
  { unfold d. rewrite length_splice; [done|]. rewrite Hbl. unfold BSZ, BSIZE in *. lia. }
  pose proof (wb_addr s (view t1) addrs1 z (off / BSZ) d Hd1 Hf1 Hbn Hnz Hdl) as [Har _]. fold a in Har.
  pose proof (dstart_pos _ _ Hd1) as Hpos. pose proof (d_size _ _ Hd1) as Hsz.
  assert (Hnh : a ∉ theld t1) by (rewrite Hh1; set_solver).
  assert (Hra : t_in_range a t1) by (apply (range_ok s); [done|]; pose proof (layout _ _ Hd1); lia).
  rewrite run_tread by done. rewrite run_tdata by (cbn; set_solver).
  rewrite tview_hold. change (tview a t1) with (blk (view t1) a). fold d.
  destruct (run_change_block a d f (ip_set ip (set_addrs addrs1 x) m) t1) as (t2 & Hl2 & Hre2 & E2);
    [done|done|rewrite Hs1; set_solver|].
  rewrite E2. destruct Hl2 as (V2 & H2 & S2). exists addrs1, t2.
  assert (Hf2 : file_ok s (view t2) addrs1 z) by (rewrite V2; by apply wb_file).
  pose proof (wb_free s (view t1) addrs1 z (off / BSZ) d Hd1 Hf1 Hbn Hnz Hdl) as Hfr.
  pose proof (wb_baddr s (view t1) addrs1 z (off / BSZ) d Hd1 Hf1 Hbn Hnz Hdl) as Hwb.
  pose proof (wb_fbyte s (view t1) addrs1 z (off / BSZ) d Hd1 Hf1 Hbn Hnz Hdl) as Hwf.
  fold a in Hfr, Hwb, Hwf. rewrite <- V2 in Hfr, Hwb, Hwf.
  split; [|split; [lia|done]]. split.
  - split; congruence.
  - fold s. apply file_ok_extent; try done; try lia. by rewrite Hwb by lia.
  - fold s x. rewrite V2. eapply wrote_trans; [apply grown_wrote; exact Hg1|]. by apply (wb_wrote s (view t1) addrs1 z).
  - fold x. intros i Hi.
    assert (Him : i / BSZ < MAXFILE).
    { pose proof (f_size _ _ _ _ Hf). apply Z.div_lt_upper_bound; unfold BSZ in *; lia. }
    rewrite Hwf by (done || lia).
    unfold d. rewrite (write_patch (view t1) addrs1 off src i (blk (view t1) a)) by (done || lia).
    unfold patched. destruct ((off <=? i) && (i <? off + Z.of_nat (length src))) eqn:Ein; [done|].
    apply (grown_fbyte s _ _ _ _ z); [done|done|done|lia|done|].
    apply (f_alloc _ _ _ _ Hf); [apply Z.div_pos; unfold BSZ; lia|].
    pose proof (Z.mul_div_le i BSZ ltac:(unfold BSZ; lia)). apply andb_false_iff in Ein.
    destruct (Z.leb_spec off i), (Z.ltb_spec i (off + Z.of_nat (length src))); destruct Ein; try done; lia.
  - fold x. intros Hz. destruct Hsame1 as [_ ->]; [|done].
    apply (f_alloc _ _ _ _ Hf); [lia|]. pose proof (Z.mul_div_le off BSZ ltac:(unfold BSZ; lia)). lia.
  - fold s x. pose proof (nblocks_first off (Z.of_nat (length src)) ltac:(lia) ltac:(lia)) as Hnb.
    assert (W12 : wrote s (view t1) addrs1 (view t2) addrs1) by (rewrite V2; by apply (wb_wrote s (view t1) addrs1 z)).
    eapply reach_trans; [eapply reach_mono; [|exact Hre1]|eapply reach_mono; [|exact Hre2]].
    + intros b. apply (file_area_wrote _ _ _ _ _ _ _ _ _ _ W12); lia.
    + intros b <-. apply (file_area_slot _ _ _ _ _ (off / BSZ)); [|lia|lia|lia]. rewrite slot_baddr by lia. by rewrite Hwb by lia.
  - fold s. pose proof (nblocks_first off (Z.of_nat (length src)) ltac:(lia) ltac:(lia)). lia.
Qed.

Lemma nblocks_sum off n k : 0 <= off -> 0 < k <= n -> k = n \/ off mod BSZ + k = BSZ ->
  nblocks off k + nblocks (off + k) (n - k) <= nblocks off n.
Proof.
  intros Ho Hk [->|Hb]; [rewrite Z.sub_diag; change (nblocks (off + n) 0) with 0; lia|].
  destruct (Z.eq_dec k n) as [->|]; [rewrite Z.sub_diag; change (nblocks (off + n) 0) with 0; lia|].
  rewrite nblocks_one, nblocks_next by lia. lia.
Qed.

Lemma ip_at_set_ne ip y x m : ip <> y -> ip_at y (ip_set ip x m) = ip_at y m.
Proof. intros H. unfold ip_at, ip_set; cbn. by rewrite list_lookup_insert_ne. Qed.

Lemma written_trans ip off k z (src : list Z) m t addrs1 t1 addrs2 t2 :
  (ip < length (icache m))%nat -> 0 <= off -> 0 < k <= Z.of_nat (length src) ->
  (k = Z.of_nat (length src) \/ off mod BSZ + k = BSZ) ->
  written ip off z (take (Z.to_nat k) src) m t addrs1 t1 ->
  written ip (off + k) (Z.max z (off + k)) (drop (Z.to_nat k) src) (ip_set ip (set_addrs addrs1 (ip_at ip m)) m) t1 addrs2 t2 ->
  written ip off z src m t addrs2 t2.
Proof.
  intros Hip Ho Hk Hkb [I1 F1 W1 B1 S1 R1 N1] [I2 F2 W2 B2 S2 R2 N2].
  rewrite length_take, length_drop in *. rewrite ip_at_set in * by done. cbn [i_addrs set_addrs sb ip_set] in *.
  replace (Z.max (Z.max z (off + k)) (off + k + Z.of_nat (length src - Z.to_nat k))) with
    (Z.max z (off + Z.of_nat (length src))) in * by lia.
  replace (Z.of_nat (Z.to_nat k `min` length src)) with k in * by lia. split.
  - done.
  - done.
  - eapply wrote_trans; [exact W1|exact W2].
  - intros i Hi. rewrite B2 by lia. rewrite <- (patched_split off k) by lia.
    apply patched_ext. rewrite length_drop. intros Hout. apply B1. lia.
  - intros Hz. rewrite S2 by lia. apply S1. lia.
  - replace (Z.of_nat (length src - Z.to_nat k)) with (Z.of_nat (length src) - k) in R2 by lia.
    destruct (nblocks_split off (Z.of_nat (length src)) k Ho Hk Hkb) as (? & ? & ?).
    eapply reach_trans; [eapply reach_mono; [|exact R1]|eapply reach_mono; [|exact R2]]; intros b.
    + apply (file_area_wrote _ _ _ _ _ _ _ _ _ _ W2); lia.
    + apply (file_area_wrote _ _ _ _ _ _ _ _ _ _ (wrote_refl _ _ _ (w_disk _ _ _ _ _ W2))); lia.
  - replace (Z.of_nat (length src - Z.to_nat k)) with (Z.of_nat (length src) - k) in N2 by lia.
    pose proof (nblocks_sum off (Z.of_nat (length src)) k Ho Hk Hkb). lia.
Qed.

Lemma written_nil ip off z m t : disk_ok (sb m) (view t) -> idle t -> 0 <= off <= z ->
  file_ok (sb m) (view t) (i_addrs (ip_at ip m)) z -> written ip off z [] m t (i_addrs (ip_at ip m)) t.
Proof.
  intros Hd Hi Ho Hf. split; [done| |by apply wrote_refl| |done|apply reach_refl|]; cbn [length].
  - by replace (Z.max z (off + Z.of_nat 0)) with z by lia.
  - intros i _. unfold patched. cbn [length]. destruct (Z.leb_spec off i), (Z.ltb_spec i (off + Z.of_nat 0)); try done; lia.
  - change (nblocks off (Z.of_nat 0)) with 0. lia.
Qed.

Lemma writei_loop_run f ip src off n tot m t z :
  (ip < length (icache m))%nat -> i_dev (ip_at ip m) = ROOTDEV -> disk_ok (sb m) (view t) -> idle t ->
  file_ok (sb m) (view t) (i_addrs (ip_at ip m)) z -> 0 <= off <= z -> tot + Z.of_nat (length src) = n ->
  off + Z.of_nat (length src) <= MAXFILE * BSZ -> (length src <= f)%nat ->
  2 * nblocks off (Z.of_nat (length src)) <= Z.of_nat (nfree (sb m) (view t)) ->
  exists addrs' t', written ip off z src m t addrs' t' /\
    run_tx (writei_loop f ip src off n tot) (m, t) =
      Ok (off + Z.of_nat (length src)) (ip_set ip (set_addrs addrs' (ip_at ip m)) m, t').
Proof.
  revert src off tot m t z.
  induction f as [|f IH]; intros src off tot m t z Hip Hdev Hd Hi Hf Ho Hn Hmax Hfuel Hfree; cbn [writei_loop].
  { assert (src = []) as -> by (apply nil_length_inv; lia). cbn [length] in *. rewrite (proj2 (Z.ltb_ge _ _)) by lia.
    exists (i_addrs (ip_at ip m)), t. split; [by apply written_nil|]. cbn [negb].
    rewrite set_addrs_id, ip_set_id by done. by rewrite Z.add_0_r. }
  destruct (decide (src = [])) as [->|Hsrc].
  { cbn [length] in *. rewrite (proj2 (Z.ltb_ge _ _)) by lia.
    exists (i_addrs (ip_at ip m)), t. split; [by apply written_nil|]. cbn [negb].
    rewrite set_addrs_id, ip_set_id by done. by rewrite Z.add_0_r. }
  assert (Hls : (0 < length src)%nat) by (destruct src; [done|cbn; lia]).
  rewrite (proj2 (Z.ltb_lt _ _)) by lia. cbn [negb]. unfold inode_. rewrite run_tgets, Hdev. cbn zeta.
  set (k := Z.min (n - tot) (BSZ - off mod BSZ)).
  pose proof (Z.mod_pos_bound off BSZ ltac:(unfold BSZ; lia)) as Hmod.
  assert (Hk : 0 < k <= Z.of_nat (length src) /\ off mod BSZ + k <= BSZ) by lia.
  pose proof (nblocks_first off (Z.of_nat (length src)) ltac:(lia) ltac:(lia)) as Hnb.
  assert (Hlt : Z.of_nat (length (take (Z.to_nat k) src)) = k) by (rewrite length_take; lia).
  destruct (write_turn ip off (take (Z.to_nat k) src) m t z
    (fun _ => writei_loop f ip (drop (Z.to_nat k) src) (off + k) n (tot + k))) as (addrs1 & t1 & Hw1 & Hfr1 & E1); try done; try lia.
  destruct (IH (drop (Z.to_nat k) src) (off + k) (tot + k) (ip_set ip (set_addrs addrs1 (ip_at ip m)) m) t1 (Z.max z (off + k)))
    as (addrs2 & t2 & Hw2 & E2).
  - by rewrite length_ip_set.
  - by rewrite ip_at_set.
  - apply Hw1.
  - apply Hw1.
  - rewrite ip_at_set by done. pose proof (wr_file _ _ _ _ _ _ _ _ Hw1) as H1. by rewrite Hlt in H1.
  - lia.
  - rewrite length_drop. lia.
  - rewrite length_drop. lia.
  - rewrite length_drop. lia.
  - rewrite length_drop. cbn [sb ip_set].
    replace (Z.of_nat (length src - Z.to_nat k)) with (Z.of_nat (length src) - k) by lia.
    destruct (Z.eq_dec k (Z.of_nat (length src))) as [Ek|Nk].
    + rewrite Ek, Z.sub_diag. change (nblocks (off + Z.of_nat (length src)) 0) with 0. lia.
    + rewrite nblocks_next by lia. lia.
  - rewrite ip_at_set, ip_set_set in E2 by done. rewrite set_addrs_set in E2.
    exists addrs2, t2. split.
    + apply (written_trans ip off k z src m t addrs1 t1); try done; lia.
    + etransitivity; [exact E1|]. etransitivity; [exact E2|]. f_equal. rewrite length_drop. lia.
Qed.
