(* ===== verification/FsInode.v ===== *)
(** * Inodes on disk (system/storage/fs.c)

    [iupdate] stores the inode that [ilock] loads: the round trip of [struct
    dinode], and [writei] as a write to an array of bytes that leaves the other
    files alone and keeps the inode on disk in step with the cache. *)

From S2P Require Import Prelude Spinlock Bio BioSpec BlockProg Log FsProg Fs FsAlloc FsFile.
Import Fs.

(** ** struct dinode *)

Lemma get16_put16_ne o off z (d : list Z) : (o + 2 <= off \/ off + 2 <= o)%nat -> (off + 2 <= length d)%nat ->
  get16 o (put16 off z d) = get16 o d.
Proof. intros. unfold get16, put16. by rewrite take_drop_splice_ne by (rewrite length_le_bytes; lia). Qed.

Lemma get16_put32_ne o off z (d : list Z) : (o + 2 <= off \/ off + 4 <= o)%nat -> (off + 4 <= length d)%nat ->
  get16 o (put32 off z d) = get16 o d.
Proof. intros. unfold get16, put32. by rewrite take_drop_splice_ne by (rewrite length_le_bytes; lia). Qed.

Lemma get32_put16_ne o off z (d : list Z) : (o + 4 <= off \/ off + 2 <= o)%nat -> (off + 2 <= length d)%nat ->
  get32 o (put16 off z d) = get32 o d.
Proof. intros. unfold get32, put16. by rewrite take_drop_splice_ne by (rewrite length_le_bytes; lia). Qed.

Lemma s16_u16 z : - 2 ^ 15 <= z < 2 ^ 15 -> s16 (u16 z) = z.
Proof.
  intros Hz. unfold s16, u16. rewrite Zplus_mod_idemp_l. rewrite Z.mod_small; lia.
Qed.

Lemma length_store_addrs off k addrs d : (addr_off off (k + length addrs) <= length d)%nat ->
  length (store_addrs off k addrs d) = length d.
Proof.
  revert k d. induction addrs as [|a addrs IH]; intros k d Hl; cbn [store_addrs]; [done|].
  unfold addr_off in *. cbn [length] in Hl. rewrite IH; rewrite length_put32; lia.
Qed.

(** [store_addrs] stores each address in its place. *)
Lemma get_store_addrs off k addrs d j : (addr_off off (k + length addrs) <= length d)%nat ->
  get32 (addr_off off j) (store_addrs off k addrs d) =
  if decide (k <= j < k + length addrs)%nat then u32 (default 0 (addrs !! (j - k)%nat)) else get32 (addr_off off j) d.
Proof.
  revert k d. induction addrs as [|a addrs IH]; intros k d Hl; cbn [store_addrs length] in *.
  { by rewrite decide_False by lia. }
  assert (Hk : (addr_off off k + 4 <= length d)%nat) by (unfold addr_off in *; lia).
  rewrite IH by (rewrite length_put32; unfold addr_off in *; lia).
  destruct (decide (S k <= j < S k + length addrs)%nat) as [H1|H1].
  - rewrite decide_True by lia. replace (j - k)%nat with (S (j - S k)) by lia. done.
  - destruct (decide (j = k)) as [->|Hne].
    + rewrite decide_True, get_put32 by lia. by rewrite Nat.sub_diag.
    + rewrite decide_False by lia. apply get_put32_ne; [unfold addr_off in *; lia|lia].
Qed.

Lemma get16_store_addrs o off k addrs d : (addr_off off (k + length addrs) <= length d)%nat -> (o + 2 <= off + 12)%nat ->
  get16 o (store_addrs off k addrs d) = get16 o d.
Proof.
  revert k d. induction addrs as [|a addrs IH]; intros k d Hl Ho; cbn [store_addrs length] in *; [done|].
  unfold addr_off in *. rewrite IH by (rewrite ?length_put32; lia). apply get16_put32_ne; lia.
Qed.

Lemma get32_store_addrs o off k addrs d : (addr_off off (k + length addrs) <= length d)%nat -> (o + 4 <= off + 12)%nat ->
  get32 o (store_addrs off k addrs d) = get32 o d.
Proof.
  revert k d. induction addrs as [|a addrs IH]; intros k d Hl Ho; cbn [store_addrs length] in *; [done|].
  unfold addr_off in *. rewrite IH by (rewrite ?length_put32; lia). apply get_put32_ne; lia.
Qed.

(** The fields of an inode fit their widths on disk. *)
Record fields_ok (x : inode) : Prop := {
  fo_type : - 2 ^ 15 <= i_type x < 2 ^ 15;
  fo_major : - 2 ^ 15 <= i_major x < 2 ^ 15;
  fo_minor : - 2 ^ 15 <= i_minor x < 2 ^ 15;
  fo_nlink : - 2 ^ 15 <= i_nlink x < 2 ^ 15;
  fo_size : 0 <= i_size x < 2 ^ 32;
  fo_len : length (i_addrs x) = 13%nat;
  fo_addrs : Forall (fun a => 0 <= a < 2 ^ 32) (i_addrs x)
}.

Lemma length_store_dinode off x d : length (i_addrs x) = 13%nat -> (off + 64 <= length d)%nat ->
  length (store_dinode off x d) = length d.
Proof.
  intros Hl Ho. unfold store_dinode.
  set (d1 := put16 off (i_type x) d). assert (L1 : length d1 = length d) by (apply length_put16; lia).
  set (d2 := put16 (off + 2) (i_major x) d1). assert (L2 : length d2 = length d) by (unfold d2; rewrite length_put16; lia).
  set (d3 := put16 (off + 4) (i_minor x) d2). assert (L3 : length d3 = length d) by (unfold d3; rewrite length_put16; lia).
  set (d4 := put16 (off + 6) (i_nlink x) d3). assert (L4 : length d4 = length d) by (unfold d4; rewrite length_put16; lia).
  rewrite length_store_addrs; rewrite length_put32; rewrite ?Hl; unfold addr_off; lia.
Qed.

Lemma load_store_dinode off x y d : fields_ok x -> (off + 64 <= length d)%nat ->
  load_dinode off (store_dinode off x d) y =
  mkinode (i_dev y) (i_inum y) (i_ref y) (i_lock y) (i_valid y) (i_type x) (i_major x) (i_minor x) (i_nlink x) (i_size x) (i_addrs x).
Proof.
  intros Hx Ho. unfold store_dinode, load_dinode. pose proof (fo_len _ Hx) as Hl.
  set (d1 := put16 off (i_type x) d). assert (L1 : length d1 = length d) by (apply length_put16; lia).
  set (d2 := put16 (off + 2) (i_major x) d1). assert (L2 : length d2 = length d) by (unfold d2; rewrite length_put16; lia).
  set (d3 := put16 (off + 4) (i_minor x) d2). assert (L3 : length d3 = length d) by (unfold d3; rewrite length_put16; lia).
  set (d4 := put16 (off + 6) (i_nlink x) d3). assert (L4 : length d4 = length d) by (unfold d4; rewrite length_put16; lia).
  set (d5 := put32 (off + 8) (i_size x) d4). assert (L5 : length d5 = length d) by (unfold d5; rewrite length_put32; lia).
  assert (Hfit : (addr_off off (0 + length (i_addrs x)) <= length d5)%nat) by (rewrite Hl; unfold addr_off; lia).
  rewrite !get16_store_addrs, get32_store_addrs by (done || lia).
  assert (get16 off d5 = u16 (i_type x)) as ->.
  { unfold d5, d4, d3, d2, d1. rewrite get16_put32_ne, 3!get16_put16_ne, get_put16; fold d1 d2 d3 d4; try lia; done. }
  assert (get16 (off + 2) d5 = u16 (i_major x)) as ->.
  { unfold d5, d4, d3, d2. rewrite get16_put32_ne, 2!get16_put16_ne, get_put16; fold d1 d2 d3 d4; try lia; done. }
  assert (get16 (off + 4) d5 = u16 (i_minor x)) as ->.
  { unfold d5, d4, d3. rewrite get16_put32_ne, get16_put16_ne, get_put16; fold d1 d2 d3 d4; try lia; done. }
  assert (get16 (off + 6) d5 = u16 (i_nlink x)) as ->.
  { unfold d5, d4. rewrite get16_put32_ne, get_put16; fold d1 d2 d3 d4; try lia; done. }
  assert (get32 (off + 8) d5 = i_size x) as ->.
  { unfold d5. rewrite get_put32 by lia. apply u32_id, Hx. }
  rewrite !s16_u16 by apply Hx. f_equal. apply list_eq. intros i. rewrite list_lookup_fmap.
  destruct (decide (i < 13)%nat) as [Hi|Hi].
  - rewrite lookup_seq_lt by done. cbn [fmap option_fmap option_map Nat.add]. rewrite get_store_addrs by done.
    rewrite decide_True by (rewrite Hl; lia). rewrite Nat.sub_0_r.
    destruct (lookup_lt_is_Some_2 (i_addrs x) i) as [a Ea]; [lia|]. rewrite Ea. cbn [default id]. f_equal.
    apply u32_id. by apply (Forall_lookup_1 _ _ _ _ (fo_addrs _ Hx) Ea).
  - rewrite lookup_seq_ge by lia. symmetry. apply lookup_ge_None_2. lia.
Qed.

(** ** iupdate *)

Lemma iblock_range s v inum : disk_ok s v -> 0 <= inum < sb_ninodes s ->
  1 < IBLOCK inum s < sb_bmapstart s /\ sb_inodestart s <= IBLOCK inum s < dstart s.
Proof.
  intros H Hi. pose proof (d_inodes _ _ H) as (H1 & H2 & H3). pose proof (d_size _ _ H).
  assert (0 <= inum / IPB) by (apply Z.div_pos; unfold IPB; lia).
  assert (inum / IPB <= sb_ninodes s / IPB) by (apply Z.div_le_mono; unfold IPB; lia).
  assert (0 <= (sb_size s - 1) / BPB) by (apply Z.div_pos; unfold BPB; lia). unfold IBLOCK, dstart. lia.
Qed.

Lemma dip_off_bound inum : (dip_off inum + 64 <= BSIZE)%nat.
Proof.
  unfold dip_off, sizeof_dinode, BSIZE. pose proof (Z.mod_pos_bound inum IPB ltac:(unfold IPB; lia)). unfold IPB in *. lia.
Qed.

(** A write to an inode block changes no bit of the free map and no data. *)
Section InodeBlock.
Context (s : superblock) (v : list block) (b : Z) (d : block).
Context (Hd : disk_ok s v) (Hb : 2 <= b < sb_bmapstart s) (Hlen : length d = BSIZE).
Local Notation v' := (<[Z.to_nat b := d]> v).

Lemma ib_used b' : 0 <= b' < sb_size s -> used s v' b' = used s v b'.
Proof using Hd Hb Hlen.
  intros Hb'. pose proof (bblock_range _ _ _ Hd Hb'). unfold used. by rewrite blk_insert_ne by lia.
Qed.

Lemma ib_disk : disk_ok s v'.
Proof using Hd Hb Hlen.
  apply disk_ok_insert; [done|lia|done|]. intros b' Hb'. pose proof (d_data _ _ Hd). rewrite ib_used by lia. by apply (d_meta _ _ Hd).
Qed.

Lemma bmapstart_dstart : sb_bmapstart s <= dstart s.
Proof using Hd Hb Hlen.
  unfold dstart. pose proof (d_size _ _ Hd).
  assert (0 <= (sb_size s - 1) / BPB) by (apply Z.div_pos; unfold BPB; lia). lia.
Qed.

Lemma ib_data b' : dstart s <= b' -> blk v' b' = blk v b'.
Proof using Hd Hb Hlen. intros H. pose proof bmapstart_dstart. apply blk_insert_ne; lia. Qed.

Lemma ib_slot addrs size k : file_ok s v addrs size -> slot v' addrs k = slot v addrs k.
Proof using Hd Hb Hlen.
  intros Hf. unfold slot, baddr. destruct (k =? MAXFILE); [done|]. destruct (k <? NDIRECT); [done|].
  destruct (Z.eqb_spec (ind addrs) 0) as [|Hi]; [done|]. destruct (ind_used _ _ _ _ Hf Hi). by rewrite ib_data by lia.
Qed.

Lemma ib_baddr addrs size k : file_ok s v addrs size -> k < MAXFILE -> baddr v' addrs k = baddr v addrs k.
Proof using Hd Hb Hlen. intros Hf Hk. pose proof (ib_slot addrs size k Hf) as E. by rewrite !slot_baddr in E by lia. Qed.

Lemma ib_file addrs size : file_ok s v addrs size -> file_ok s v' addrs size.
Proof using Hd Hb Hlen.
  intros Hf. pose proof (dstart_pos _ _ Hd). split; try apply Hf.
  - intros k Hk Hs. pose proof (f_size _ _ _ _ Hf). rewrite (ib_baddr _ size) by (done || unfold BSZ in *; lia).
    by apply (f_alloc _ _ _ _ Hf).
  - intros k Hk. rewrite (ib_slot _ size) by done. intros Hne. destruct (f_data _ _ _ _ Hf k Hk Hne). split; [done|].
    by rewrite ib_used by lia.
  - intros k k' Hk Hk'. rewrite !(ib_slot _ size) by done. by apply (f_inj _ _ _ _ Hf).
Qed.

Lemma ib_fbyte addrs size i : file_ok s v addrs size -> 0 <= i < size -> fbyte v' addrs i = fbyte v addrs i.
Proof using Hd Hb Hlen.
  intros Hf Hi. pose proof (f_size _ _ _ _ Hf). destruct (block_of i size) as [Hr Hle]; [lia|lia|].
  unfold fbyte. f_equal. rewrite (ib_baddr _ size) by (done || lia).
  pose proof (f_alloc _ _ _ _ Hf (i / BSZ) ltac:(lia) ltac:(lia)) as Hne.
  pose proof (f_data _ _ _ _ Hf (i / BSZ) ltac:(lia)) as Hdat. rewrite slot_baddr in Hdat by lia.
  apply ib_data. by apply Hdat.
Qed.

Lemma ib_owns addrs size b' : file_ok s v addrs size -> owns v' addrs b' <-> owns v addrs b'.
Proof using Hd Hb Hlen.
  intros Hf. unfold owns. split; intros [H0 (k & Hk & E)]; (split; [done|]); exists k; (split; [done|]);
    by rewrite (ib_slot _ size) in * by done.
Qed.

End InodeBlock.

Lemma iupdate_run ip m t : (ip < length (icache m))%nat -> i_dev (ip_at ip m) = ROOTDEV ->
  disk_ok (sb m) (view t) -> idle t -> 0 <= i_inum (ip_at ip m) < sb_ninodes (sb m) ->
  let x := ip_at ip m in let b := IBLOCK (i_inum x) (sb m) in
  exists t', leaves t (<[Z.to_nat b := store_dinode (dip_off (i_inum x)) x (blk (view t) b)]> (view t)) t' /\ reach (eq b) t t' /\
    run_tx (iupdate ip) (m, t) = Ok tt (m, t').
Proof.
  intros Hip Hdev Hd [Hh Hs] Hi x b. pose proof (d_size _ _ Hd). pose proof (d_data _ _ Hd).
  destruct (iblock_range (sb m) (view t) (i_inum x) Hd Hi) as [Hb1 Hb2]. fold b in Hb1, Hb2.
  assert (Hr : t_in_range b t) by (apply (range_ok (sb m)); [done|]; lia).
  assert (Hnh : b ∉ theld t) by (rewrite Hh; set_solver).
  destruct (run_change_block b (store_dinode (dip_off (i_inum x)) x (blk (view t) b)) mret m t) as (t' & Hl & Hre & E);
    [done|done|rewrite Hs; set_solver|].
  exists t'. split; [done|]. split; [done|]. unfold iupdate, inode_. rewrite run_tgets, run_tgets. fold x. fold b.
  replace (i_dev x) with ROOTDEV by done. rewrite run_tread by done. rewrite run_tdata by (cbn; set_solver).
  rewrite run_tset, run_tlog in E |- * by (cbn; set_solver). rewrite run_tx_tail. exact E.
Qed.

(** The inode that the disk holds is the cached one. *)
Definition synced (s : superblock) (v : list block) (x : inode) : Prop :=
  load_dinode (dip_off (i_inum x)) (blk v (IBLOCK (i_inum x) s)) x = x.

Lemma inode_eta x : mkinode (i_dev x) (i_inum x) (i_ref x) (i_lock x) (i_valid x) (i_type x) (i_major x) (i_minor x)
  (i_nlink x) (i_size x) (i_addrs x) = x.
Proof. by destruct x. Qed.

Lemma synced_store s v x : disk_ok s v -> fields_ok x -> 0 <= i_inum x < sb_ninodes s ->
  let b := IBLOCK (i_inum x) s in
  synced s (<[Z.to_nat b := store_dinode (dip_off (i_inum x)) x (blk v b)]> v) x.
Proof.
  intros Hd Hx Hi b. destruct (iblock_range s v (i_inum x) Hd Hi) as [Hb1 Hb2]. fold b in Hb1, Hb2.
  pose proof (d_size _ _ Hd). pose proof (d_data _ _ Hd). unfold synced. fold b. rewrite blk_insert_eq by lia.
  rewrite load_store_dinode; [apply inode_eta|done|]. rewrite (blk_length s) by done. apply dip_off_bound.
Qed.

(** ** Other files *)

Definition apart (v : list block) (a a' : list Z) : Prop := forall b, owns v a b -> ~ owns v a' b.

Section Other.
Context (s : superblock) (v v' : list block) (a a' y : list Z) (size : Z).
Context (Hd : disk_ok s v) (Hw : wrote s v a v' a') (Hf : file_ok s v y size) (Hap : apart v y a).

Lemma other_data b : owns v y b -> dstart s <= b < sb_size s /\ used s v b = true /\ blk v' b = blk v b.
Proof using Hd Hw Hf Hap.
  intros Ho. pose proof (dstart_pos _ _ Hd). pose proof Ho as [H0 (k & Hk & <-)].
  destruct (f_data _ _ _ _ Hf k Hk H0) as [Hr Hu]. split; [done|]. split; [done|].
  apply (w_frame _ _ _ _ _ Hw); [lia|done|by apply Hap|lia].
Qed.

Lemma other_slot k : slot v' y k = slot v y k.
Proof using Hd Hw Hf Hap.
  unfold slot, baddr. destruct (k =? MAXFILE); [done|]. destruct (k <? NDIRECT); [done|].
  destruct (Z.eqb_spec (ind y) 0) as [|Hi]; [done|]. f_equal. apply other_data. by apply ind_owned.
Qed.

Lemma other_owns b : owns v' y b <-> owns v y b.
Proof using Hd Hw Hf Hap.
  unfold owns. split; intros [H0 (k & Hk & E)]; (split; [done|]); exists k; (split; [done|]); by rewrite other_slot in *.
Qed.

Lemma other_file : file_ok s v' y size.
Proof using Hd Hw Hf Hap.
  pose proof (dstart_pos _ _ Hd). split; try apply Hf.
  - intros k Hk Hs. pose proof (f_size _ _ _ _ Hf). rewrite <- slot_baddr, other_slot by (unfold BSZ in *; lia).
    rewrite slot_baddr by (unfold BSZ in *; lia). by apply (f_alloc _ _ _ _ Hf).
  - intros k Hk. rewrite other_slot. intros Hne. destruct (f_data _ _ _ _ Hf k Hk Hne) as [Hr Hu]. split; [done|].
    apply (w_used _ _ _ _ _ Hw); [lia|done].
  - intros k k' Hk Hk'. rewrite !other_slot. by apply (f_inj _ _ _ _ Hf).
Qed.

Lemma other_apart : apart v' y a'.
Proof using Hd Hw Hf Hap.
  intros b Hb Hb'. apply other_owns in Hb. destruct (other_data b Hb) as (Hr & Hu & _). pose proof (dstart_pos _ _ Hd).
  destruct (w_owns _ _ _ _ _ Hw b ltac:(lia) Hb') as [|]; [by apply (Hap b)|congruence].
Qed.

Lemma other_fbyte i : 0 <= i < size -> fbyte v' y i = fbyte v y i.
Proof using Hd Hw Hf Hap.
  intros Hi. pose proof (f_size _ _ _ _ Hf). destruct (block_of i size) as [Hr Hle]; [lia|lia|].
  pose proof (f_alloc _ _ _ _ Hf (i / BSZ) ltac:(lia) ltac:(lia)) as Hne. unfold fbyte. f_equal.
  rewrite <- !slot_baddr, other_slot by lia. apply other_data. rewrite <- slot_baddr in Hne by lia.
  split; [done|]. exists (i / BSZ). split; [lia|done].
Qed.

End Other.

(** The addresses of a file fit 32 bits. *)
Lemma file_addrs_range s v addrs size : disk_ok s v -> file_ok s v addrs size -> Forall (fun a => 0 <= a < 2 ^ 32) addrs.
Proof.
  intros Hd Hf. pose proof (d_max _ _ Hd). pose proof (dstart_pos _ _ Hd). pose proof (f_len _ _ _ _ Hf) as Hl.
  apply Forall_lookup_2. intros i a Ei. pose proof (lookup_lt_Some _ _ _ Ei).
  assert (Ea : aget 0 addrs (Z.of_nat i) = a) by (rewrite aget_nat, Ei; done).
  destruct (decide (a = 0)) as [->|Hne]; [lia|].
  assert (exists k, 0 <= k <= MAXFILE /\ slot v addrs k = a) as (k & Hk & <-).
  { destruct (decide (i = 12%nat)) as [->|]; [exists MAXFILE; split; [apply maxfile_slot|by rewrite slot_ind]|].
    exists (Z.of_nat i). unfold MAXFILE, NINDIRECT, NDIRECT. split; [lia|].
    rewrite slot_baddr by (unfold MAXFILE, NINDIRECT, NDIRECT; lia). unfold baddr.
    by rewrite (proj2 (Z.ltb_lt _ _)) by (unfold NDIRECT; lia). }
  destruct (f_data _ _ _ _ Hf k Hk Hne). lia.
Qed.

(** ** writei *)

Lemma contents_patched v x v' x' off src :
  0 <= off <= i_size x -> i_size x' = Z.max (i_size x) (off + Z.of_nat (length src)) ->
  (forall i, 0 <= i < i_size x' -> fbyte v' (i_addrs x') i = patched off src (fbyte v (i_addrs x)) i) ->
  contents v' x' = splice (Z.to_nat off) src (contents v x).
Proof.
  intros Ho Hs Hb. unfold contents, splice.
  rewrite (map_ext_in _ (patched off src (fbyte v (i_addrs x)))).
  2: { intros i Hi%list_elem_of_In%elem_of_seqZ. apply Hb. lia. }
  rewrite Hs. set (n := Z.of_nat (length src)).
  rewrite (seqZ_split 0 _ off) by lia. rewrite map_app. f_equal.
  { rewrite (seqZ_split 0 (i_size x) off) by lia. rewrite map_app, take_app_length' by (rewrite length_map, length_seqZ; lia).
    apply map_ext_in. intros i Hi%list_elem_of_In%elem_of_seqZ. unfold patched. by rewrite (proj2 (Z.leb_gt _ _)) by lia. }
  rewrite (seqZ_split (0 + off) _ n) by lia. rewrite map_app. f_equal.
  { apply list_eq. intros i. rewrite list_lookup_fmap. destruct (decide (i < length src)%nat) as [Hi|Hi].
    - rewrite lookup_seqZ_lt by lia. cbn. unfold patched. rewrite (proj2 (Z.leb_le _ _)), (proj2 (Z.ltb_lt _ _)) by lia. cbn.
      destruct (lookup_lt_is_Some_2 src i Hi) as [c Ec]. rewrite Ec. f_equal. apply aget_lookup; [|lia].
      rewrite <- Ec. f_equal. lia.
    - rewrite lookup_seqZ_ge by lia. symmetry. apply lookup_ge_None_2. lia. }
  destruct (Z.le_gt_cases (i_size x) (off + n)) as [Hle|Hgt].
  { rewrite drop_ge by (rewrite length_map, length_seqZ; lia). by rewrite seqZ_nil by lia. }
  rewrite (seqZ_split 0 (i_size x) (off + n)) by lia. rewrite map_app, drop_app_length' by (rewrite length_map, length_seqZ; lia).
  replace (0 + off + n) with (0 + (off + n)) by lia. replace (Z.max (i_size x) (off + n) - off - n) with (i_size x - (off + n)) by lia.
  apply map_ext_in. intros i Hi%list_elem_of_In%elem_of_seqZ. unfold patched. fold n.
  rewrite (proj2 (Z.ltb_ge i _)) by lia. by rewrite andb_false_r.
Qed.

(** Storing an inode leaves the bytes outside its place. *)
Lemma take_drop_store_addrs n o off k addrs (d : list Z) : (addr_off off (k + length addrs) <= length d)%nat ->
  (o + n <= addr_off off k \/ addr_off off (k + length addrs) <= o)%nat ->
  take n (drop o (store_addrs off k addrs d)) = take n (drop o d).
Proof.
  revert k d. induction addrs as [|a addrs IH]; intros k d Hl Ho; cbn [store_addrs length] in *; [done|].
  unfold addr_off in *. rewrite IH by (rewrite ?length_put32; lia). unfold put32.
  apply take_drop_splice_ne; rewrite length_le_bytes; lia.
Qed.

Lemma take_drop_store_dinode n o off x (d : list Z) : length (i_addrs x) = 13%nat -> (off + 64 <= length d)%nat ->
  (o + n <= off \/ off + 64 <= o)%nat -> take n (drop o (store_dinode off x d)) = take n (drop o d).
Proof.
  intros Hl Hd Ho. unfold store_dinode.
  set (d1 := put16 off (i_type x) d). assert (L1 : length d1 = length d) by (apply length_put16; lia).
  set (d2 := put16 (off + 2) (i_major x) d1). assert (L2 : length d2 = length d) by (unfold d2; rewrite length_put16; lia).
  set (d3 := put16 (off + 4) (i_minor x) d2). assert (L3 : length d3 = length d) by (unfold d3; rewrite length_put16; lia).
  set (d4 := put16 (off + 6) (i_nlink x) d3). assert (L4 : length d4 = length d) by (unfold d4; rewrite length_put16; lia).
  rewrite take_drop_store_addrs by (rewrite ?length_put32, ?Hl; unfold addr_off; lia).
  unfold put32. rewrite take_drop_splice_ne by (rewrite length_le_bytes; lia). unfold d4, put16.
  rewrite take_drop_splice_ne by (rewrite length_le_bytes; lia). unfold d3, put16.
  rewrite take_drop_splice_ne by (rewrite length_le_bytes; lia). unfold d2, put16.
  rewrite take_drop_splice_ne by (rewrite length_le_bytes; lia). unfold d1, put16.
  apply take_drop_splice_ne; rewrite length_le_bytes; lia.
Qed.

Lemma load_dinode_ext off (d d' : block) y : (forall n o, (off <= o)%nat -> (o + n <= off + 64)%nat -> take n (drop o d) = take n (drop o d')) ->
  load_dinode off d y = load_dinode off d' y.
Proof.
  intros H. unfold load_dinode, get16, get32. rewrite !H by lia. f_equal. apply map_ext_in.
  intros k Hk%in_seq. rewrite H by (unfold addr_off; lia). done.
Qed.

Lemma other_place s inum inum' : 0 <= inum -> 0 <= inum' -> inum <> inum' -> IBLOCK inum s = IBLOCK inum' s ->
  (dip_off inum + 64 <= dip_off inum' \/ dip_off inum' + 64 <= dip_off inum)%nat.
Proof.
  unfold IBLOCK, dip_off, sizeof_dinode. intros H0 H0' Hne E.
  pose proof (Z.div_mod inum IPB ltac:(unfold IPB; lia)). pose proof (Z.div_mod inum' IPB ltac:(unfold IPB; lia)).
  pose proof (Z.mod_pos_bound inum IPB ltac:(unfold IPB; lia)). pose proof (Z.mod_pos_bound inum' IPB ltac:(unfold IPB; lia)).
  assert (inum / IPB = inum' / IPB) by lia. assert (inum mod IPB <> inum' mod IPB) by congruence. lia.
Qed.

(** [iupdate] of one inode leaves the others on disk. *)
Lemma synced_other s v x y : disk_ok s v -> length (i_addrs x) = 13%nat -> 0 <= i_inum x < sb_ninodes s -> 0 <= i_inum y < sb_ninodes s ->
  i_inum y <> i_inum x -> let b := IBLOCK (i_inum x) s in
  synced s v y -> synced s (<[Z.to_nat b := store_dinode (dip_off (i_inum x)) x (blk v b)]> v) y.
Proof.
  intros Hd Hl Hx Hy Hne b. unfold synced. destruct (iblock_range s v (i_inum x) Hd Hx) as [Hb1 Hb2].
  destruct (iblock_range s v (i_inum y) Hd Hy) as [Hy1 Hy2]. fold b in Hb1, Hb2. pose proof (d_size _ _ Hd). pose proof (d_data _ _ Hd).
  destruct (decide (b = IBLOCK (i_inum y) s)) as [E|E].
  - rewrite <- E, blk_insert_eq by lia. intros Hsync. etransitivity; [|exact Hsync]. apply load_dinode_ext.
    intros n o Hn Ho. pose proof (dip_off_bound (i_inum x)).
    destruct (other_place s (i_inum x) (i_inum y)) as [Hp|Hp]; [lia|lia|done|done|..];
      apply take_drop_store_dinode; rewrite ?(blk_length s) by done; lia.
  - by rewrite blk_insert_ne by lia.
Qed.

(** What [writei] leaves. *)
Record file_written (ip : nat) (off : Z) (src : list Z) (m : fs) (t : txs) (m' : fs) (t' : txs) : Prop := {
  fw_at : file_at ip m' t';
  fw_contents : contents (view t') (ip_at ip m') = splice (Z.to_nat off) src (contents (view t) (ip_at ip m));
  fw_size : i_size (ip_at ip m') = Z.max (i_size (ip_at ip m)) (off + Z.of_nat (length src));
  fw_inode : exists addrs size, ip_at ip m' = set_size size (set_addrs addrs (ip_at ip m));
  fw_synced : synced (sb m') (view t') (ip_at ip m');
  fw_icache : sb m' = sb m /\ length (icache m') = length (icache m) /\ forall jp, jp <> ip -> ip_at jp m' = ip_at jp m;
  fw_others : forall y, file_ok (sb m) (view t) (i_addrs y) (i_size y) -> apart (view t) (i_addrs y) (i_addrs (ip_at ip m)) ->
    file_ok (sb m) (view t') (i_addrs y) (i_size y) /\ apart (view t') (i_addrs y) (i_addrs (ip_at ip m')) /\
    contents (view t') y = contents (view t) y;
  fw_inodes : forall y, 0 <= i_inum y < sb_ninodes (sb m) -> i_inum y <> i_inum (ip_at ip m) ->
    synced (sb m) (view t) y -> synced (sb m) (view t') y;
  fw_free : Z.of_nat (nfree (sb m) (view t)) <= Z.of_nat (nfree (sb m) (view t')) + 2 * nblocks off (Z.of_nat (length src))
}.

(** The blocks that a write reads: those of the part of the file it writes, the map
    of free blocks, the indirect block and the inode's block. *)
Definition write_reach (ip : nat) (off : Z) (src : list Z) (m : fs) (t : txs) (m' : fs) (t' : txs) : Prop :=
  reach (fun b => file_area (sb m) (view t') (i_addrs (ip_at ip m')) (off / BSZ) (off / BSZ + nblocks off (Z.of_nat (length src))) b \/
    b = IBLOCK (i_inum (ip_at ip m)) (sb m)) t t'.

(** The inode block of a file is not one of its data blocks. *)
Lemma wrote_iblock s v a v' a' size inum : disk_ok s v -> file_ok s v a size -> wrote s v a v' a' -> 0 <= inum < sb_ninodes s ->
  blk v' (IBLOCK inum s) = blk v (IBLOCK inum s).
Proof.
  intros Hd Hf Hw Hi. destruct (iblock_range s v inum Hd Hi) as [Hb1 Hb2]. pose proof (d_data _ _ Hd).
  apply (w_frame _ _ _ _ _ Hw); [lia|apply (d_meta _ _ Hd); lia| |lia].
  intros [H0 (k & Hk & E)]. destruct (f_data _ _ _ _ Hf k Hk); [congruence|lia].
Qed.

Lemma contents_ext v v' x : (forall i, 0 <= i < i_size x -> fbyte v' (i_addrs x) i = fbyte v (i_addrs x) i) -> contents v' x = contents v x.
Proof. intros H. apply map_ext_in. intros i Hi%list_elem_of_In%elem_of_seqZ. apply H. lia. Qed.

(** The file after the loop, the inode not yet updated. *)
Lemma loop_written ip off src m t addrs' t' :
  file_at ip m t -> 0 <= off -> off + Z.of_nat (length src) <= i_size (ip_at ip m) ->
  0 <= i_inum (ip_at ip m) < sb_ninodes (sb m) -> synced (sb m) (view t) (ip_at ip m) ->
  written ip off (i_size (ip_at ip m)) src m t addrs' t' ->
  file_written ip off src m t m t' /\ write_reach ip off src m t m t'.
Proof.
  intros Hfa Ho Hle Hin Hsy [I F W B Same Hre Hfr]. set (x := ip_at ip m) in *. rewrite (Same ltac:(lia)) in *. clear Same.
  rewrite Z.max_l in F, B by lia. pose proof (a_disk _ _ _ Hfa) as Hd. pose proof (a_file _ _ _ Hfa) as Hf. fold x in Hf.
  split; [split|unfold write_reach]; fold x.
  - split; try apply Hfa; [apply W|done|done].
  - apply (contents_patched _ x _ x); [lia|lia|done].
  - lia.
  - exists (i_addrs x), (i_size x). by destruct x.
  - unfold synced in *. by rewrite (wrote_iblock _ _ _ _ _ _ _ Hd Hf W).
  - done.
  - intros y Hy Hap. split; [by apply (other_file _ _ _ _ _ _ _ Hd W)|]. split; [by apply (other_apart _ _ _ _ _ _ _ Hd W Hy)|].
    apply contents_ext. intros i Hi. by apply (other_fbyte _ _ _ _ _ _ _ Hd W Hy).
  - intros y Hy Hne Hs. unfold synced in *. by rewrite (wrote_iblock _ _ _ _ _ _ _ Hd Hf W).
  - done.
  - eapply reach_mono; [|exact Hre]. intros b Hb. by left.
Qed.

(** The file after the loop and [iupdate]. *)
Lemma grown_written ip off src m t addrs' t' t'' :
  file_at ip m t -> fields_ok (ip_at ip m) -> 0 <= off <= i_size (ip_at ip m) -> i_size (ip_at ip m) < off + Z.of_nat (length src) ->
  0 <= i_inum (ip_at ip m) < sb_ninodes (sb m) ->
  written ip off (i_size (ip_at ip m)) src m t addrs' t' ->
  let x' := set_size (off + Z.of_nat (length src)) (set_addrs addrs' (ip_at ip m)) in
  let b := IBLOCK (i_inum x') (sb m) in
  leaves t' (<[Z.to_nat b := store_dinode (dip_off (i_inum x')) x' (blk (view t') b)]> (view t')) t'' -> reach (eq b) t' t'' ->
  file_written ip off src m t (ip_set ip x' m) t'' /\ write_reach ip off src m t (ip_set ip x' m) t''.
Proof.
  intros Hfa Hfo Ho Hlt Hin [I F W B _ Hre Hfr] x' b Hl Hre'. pose proof (a_disk _ _ _ Hfa) as Hd. pose proof (a_file _ _ _ Hfa) as Hf.
  set (x := ip_at ip m) in *. rewrite Z.max_r in F, B by lia. pose proof (w_disk _ _ _ _ _ W) as Hd'.
  pose proof (f_size _ _ _ _ F) as Hmax.
  assert (Hx' : fields_ok x').
  { destruct Hfo. split; try done; cbn; [unfold MAXFILE, NDIRECT, NINDIRECT, BSZ in *; lia|apply F|].
    by apply (file_addrs_range (sb m) (view t') addrs' (off + Z.of_nat (length src))). }
  destruct (iblock_range (sb m) (view t') (i_inum x') Hd' Hin) as [Hb1 Hb2]. fold b in Hb1, Hb2.
  set (d := store_dinode (dip_off (i_inum x')) x' (blk (view t') b)) in *.
  assert (Hdl : length d = BSIZE).
  { unfold d. pose proof (blk_length _ _ b Hd') as Hbl. pose proof (dip_off_bound (i_inum x')).
    rewrite length_store_dinode; [done|apply F|lia]. }
  pose proof Hl as (V & _). pose proof (a_ip _ _ _ Hfa) as Hip. assert (Hbr : 2 <= b < sb_bmapstart (sb m)) by lia.
  split; [split|unfold write_reach]; rewrite ?(ip_at_set ip x' m Hip); fold x; cbn [sb ip_set icache].
  - split; rewrite ?(ip_at_set ip x' m Hip); cbn [sb ip_set icache].
    + by rewrite length_insert.
    + apply Hfa.
    + rewrite V. by apply ib_disk.
    + by eapply idle_leaves.
    + rewrite V. by apply ib_file.
  - apply (contents_patched _ x _ x'); [lia|cbn; lia|]. cbn [i_size i_addrs x' set_size set_addrs]. intros i Hi. rewrite V.
    rewrite (ib_fbyte (sb m) (view t') b d Hd' Hbr Hdl addrs' (off + Z.of_nat (length src))) by done. by apply B.
  - cbn. lia.
  - by eexists _, _.
  - rewrite V. by apply synced_store.
  - split; [done|]. split; [by rewrite length_insert|]. intros jp Hj. by apply ip_at_set_ne.
  - intros y Hy Hap. pose proof (other_file _ _ _ _ _ _ _ Hd W Hy Hap) as Hy'. rewrite V. split; [by apply ib_file|]. split.
    + intros c Hc Hc'. apply (ib_owns (sb m) (view t') b d Hd' Hbr Hdl _ _ _ Hy') in Hc.
      apply (ib_owns (sb m) (view t') b d Hd' Hbr Hdl _ _ _ F) in Hc'. by apply (other_apart _ _ _ _ _ _ _ Hd W Hy Hap c).
    + apply contents_ext. intros i Hi. rewrite (ib_fbyte (sb m) (view t') b d Hd' Hbr Hdl _ (i_size y)) by done.
      by apply (other_fbyte _ _ _ _ _ _ _ Hd W Hy Hap).
  - intros y Hy Hne Hs. rewrite V. apply (synced_other (sb m) (view t') x' y Hd'); [apply F|done|done|done|].
    unfold synced in *. by rewrite (wrote_iblock _ _ _ _ _ _ _ Hd Hf W).
  - rewrite V, (nfree_same (sb m) (view t') (<[Z.to_nat b := d]> (view t'))); [exact Hfr|]. intros b' Hb'. by apply (ib_used (sb m) (view t') b d Hd' Hbr Hdl).
  - rewrite V. eapply reach_trans; [eapply reach_mono; [|exact Hre]|eapply reach_mono; [|exact Hre']].
    + intros y [Hy|[H0 (k & Hk & Hr & E)]]; left; [by left|right]. split; [done|]. exists k. split; [done|]. split; [done|].
      by rewrite (ib_slot (sb m) (view t') b d Hd' Hbr Hdl addrs' (off + Z.of_nat (length src))).
    + intros y <-. by right.
Qed.

Lemma writei_run devwrite ip off src m t : file_at ip m t -> i_type (ip_at ip m) <> T_DEV -> fields_ok (ip_at ip m) ->
  0 <= i_inum (ip_at ip m) < sb_ninodes (sb m) -> synced (sb m) (view t) (ip_at ip m) ->
  0 <= off < 2 ^ 32 -> Z.of_nat (length src) < 2 ^ 32 ->
  let n := Z.of_nat (length src) in
  if (off >? i_size (ip_at ip m)) || (off + n >? MAXFILE * BSZ)
  then run_tx (writei devwrite ip src off) (m, t) = Ok (-1) (m, t)
  else 2 * nblocks off n <= Z.of_nat (nfree (sb m) (view t)) ->
    exists m' t', run_tx (writei devwrite ip src off) (m, t) = Ok n (m', t') /\ file_written ip off src m t m' t' /\
      write_reach ip off src m t m' t'.
Proof.
  intros Hfa Hty Hfo Hin Hsy Ho Hlen n. set (x := ip_at ip m) in *. unfold writei, inode_. rewrite run_tgets. fold x. cbn zeta. fold n.
  rewrite (proj2 (Z.eqb_neq (i_type x) T_DEV)) by done. pose proof (a_file _ _ _ Hfa) as Hf. fold x in Hf.
  pose proof (f_size _ _ _ _ Hf) as Hsz. assert (Hmax : MAXFILE * BSZ = 71680) by done.
  destruct (Z.gtb_spec off (i_size x)) as [|Hle]; cbn [orb]; [done|].
  destruct (Z.le_gt_cases (2 ^ 32) (off + n)) as [Hov|Hov].
  { assert (u32 (off + n) = off + n - 2 ^ 32) as ->.
    { unfold u32. symmetry. apply (Z.mod_unique_pos _ _ 1); lia. }
    rewrite (proj2 (Z.ltb_lt _ _)) by lia. by rewrite (proj2 (Z.gtb_lt _ _)) by lia. }
  rewrite u32_id by lia. rewrite (proj2 (Z.ltb_ge (off + n) off)) by lia. destruct (Z.gtb_spec (off + n) (MAXFILE * BSZ)) as [|Hm]; [done|].
  intros Hfree. destruct (writei_loop_run (Z.to_nat n) ip src off n 0 m t (i_size x)) as (addrs' & t' & Hw & E);
    [apply Hfa|apply Hfa|apply Hfa|apply Hfa|done|lia|lia|fold n; lia|lia|done|]. fold x n in E.
  rewrite (run_tx_bind_ok _ _ _ _ _ E), run_tgets, ip_at_set by apply Hfa. cbn [i_size set_addrs].
  destruct (Z.gtb_spec n 0) as [Hn|Hn]; cbn [andb].
  2: { assert (src = []) as -> by (apply nil_length_inv; lia). exists m, t'. split.
       - rewrite (wr_same _ _ _ _ _ _ _ _ Hw) by (cbn; lia). fold x. rewrite set_addrs_id. unfold x. by rewrite ip_set_id by apply Hfa.
       - eapply loop_written; try done; [lia|fold x; change (Z.of_nat (length (@nil Z))) with 0; lia]. }
  destruct (Z.gtb_spec (off + n) (i_size x)) as [Hg|Hg].
  - unfold upd. rewrite run_tx_assoc, run_tmod, ip_at_set, ip_set_set by apply Hfa.
    set (x' := set_size (off + n) (set_addrs addrs' x)). set (m' := ip_set ip x' m).
    assert (Hx' : ip_at ip m' = x') by (apply ip_at_set, Hfa).
    destruct (iupdate_run ip m' t') as (t'' & Hl & Hre & E'); rewrite ?Hx'.
    + unfold m'. rewrite length_ip_set. apply Hfa.
    + apply Hfa.
    + apply Hw.
    + apply Hw.
    + done.
    + rewrite (run_tx_bind_ok _ _ _ _ _ E'). exists m', t''. split; [done|]. rewrite Hx' in Hl, Hre.
      eapply grown_written; try done; fold x n; lia.
  - exists m, t'. split.
    + rewrite (wr_same _ _ _ _ _ _ _ _ Hw) by (fold n; lia). fold x. rewrite set_addrs_id. unfold x. by rewrite ip_set_id by apply Hfa.
    + eapply loop_written; try done; fold x n; lia.
Qed.
