(* ===== verification/FsDir.v ===== *)
(** * Directories and paths (system/storage/fs.c)

    A directory is a file of entries of 16 bytes.  [dirlookup] finds the first
    entry in use with a name, [dirlink] adds one; together they implement a
    finite map from names to inode numbers.  [skipelem] cuts a path into its
    elements. *)

From S2P Require Import Prelude Spinlock Bio BioSpec BlockProg Log FsProg Fs FsAlloc FsFile FsInode.
Import Fs.

(** ** Names *)

(** The name that DIRSIZ bytes hold. *)
Fixpoint cut (n : nat) (s : list Z) : list Z :=
  match n, s with
  | S n', c :: s' => if c =? 0 then [] else c :: cut n' s'
  | _, _ => []
  end.

Lemma strncmp_cut n p q : strncmp n p q = 0 <-> cut n p = cut n q.
Proof.
  revert p q. induction n as [|n IH]; intros p q; cbn [strncmp cut]; [done|].
  destruct p as [|c p], q as [|d q]; cbn [head default id drop].
  - done.
  - destruct (Z.eqb_spec d 0) as [->|]; cbn; split; try done; lia.
  - destruct (Z.eqb_spec c 0) as [->|]; cbn [negb andb]; [split; done|].
    destruct (Z.eqb_spec c 0); [done|]. split; [lia|done].
  - destruct (Z.eqb_spec c 0) as [->|Hc0]; cbn [negb andb].
    + destruct (Z.eqb_spec d 0) as [->|]; [done|]. split; [lia|done].
    + destruct (Z.eqb_spec c d) as [->|Hcd].
      * destruct (Z.eqb_spec d 0); [done|]. rewrite !skipn_O. rewrite IH. split; [by intros ->|by intros [= ->]].
      * split; [lia|]. destruct (Z.eqb_spec d 0); [done|]. intros [= ->]. done.
Qed.

(** A name as [dirlink] takes it: at most DIRSIZ bytes and no NUL. *)
Definition name_ok (s : list Z) : Prop := (length s <= DIRSIZ)%nat /\ Forall (fun c => 0 < c < 256) s.

Lemma cut_name n s : Forall (fun c => 0 < c < 256) s -> (length s <= n)%nat -> cut n s = s.
Proof.
  revert s. induction n as [|n IH]; intros s Hs Hl; destruct s as [|c s]; cbn in *; try done; try lia.
  apply Forall_cons in Hs as [Hc Hs]. rewrite (proj2 (Z.eqb_neq c 0)) by lia. by rewrite IH by (done || lia).
Qed.

Lemma cut_pad n s k : Forall (fun c => 0 < c < 256) s -> (length s <= n)%nat -> cut n (take n (s ++ replicate k 0)) = s.
Proof.
  revert n. induction s as [|c s IH]; intros n Hs Hl; cbn [app].
  - destruct n as [|n], k as [|k]; done.
  - destruct n as [|n]; cbn in Hl; [lia|]. apply Forall_cons in Hs as [Hc Hs]. cbn [firstn take cut].
    rewrite (proj2 (Z.eqb_neq c 0)) by lia. by rewrite IH by (done || lia).
Qed.

(** ** Entries *)

Definition de (k : Z) (c : list Z) : list Z := take 16 (drop (Z.to_nat (16 * k)) c).

(** The entry names [name]. *)
Definition names (name e : list Z) : bool := negb (de_inum e =? 0) && (namecmp name (de_name e) =? 0).

(** The first entry from [k] on, among [n], that satisfies [P]. *)
Fixpoint find_entry (P : list Z -> bool) (n : nat) (k : Z) (c : list Z) : option Z :=
  match n with
  | O => None
  | S n' => if P (de k c) then Some k else find_entry P n' (k + 1) c
  end.

Lemma find_entry_spec P n k c :
  match find_entry P n k c with
  | Some j => k <= j < k + Z.of_nat n /\ P (de j c) = true /\ forall i, k <= i < j -> P (de i c) = false
  | None => forall i, k <= i < k + Z.of_nat n -> P (de i c) = false
  end.
Proof.
  revert k. induction n as [|n IH]; intros k; cbn [find_entry]; [lia|].
  destruct (P (de k c)) eqn:E; [split; [lia|]; split; [done|lia]|].
  specialize (IH (k + 1)). destruct (find_entry P n (k + 1) c) as [j|].
  - destruct IH as (H1 & H2 & H3). split; [lia|]. split; [done|]. intros i Hi.
    destruct (decide (i = k)) as [->|]; [done|]. apply H3. lia.
  - intros i Hi. destruct (decide (i = k)) as [->|]; [done|]. apply IH. lia.
Qed.

(** ** The inode cache *)

(** [iget] returns an entry for the inode and counts the reference. *)
Definition iget_ok (dev inum : Z) (m : fs) (ip : nat) (m' : fs) : Prop :=
  exists x, m' = ip_set ip x m /\ (ip < length (icache m))%nat /\ i_dev x = dev /\ i_inum x = inum /\
    ((i_ref (ip_at ip m) > 0 /\ x = set_ref (i_ref (ip_at ip m) + 1) (ip_at ip m)) \/
     (i_ref (ip_at ip m) = 0 /\ i_ref x = 1 /\ i_valid x = false /\ i_lock x = i_lock (ip_at ip m) /\
      forall jp y, icache m !! jp = Some y -> ~ (i_ref y > 0 /\ i_dev y = dev /\ i_inum y = inum))).

Lemma find_inode_spec dev inum i l e :
  match find_inode dev inum i l e with
  | (Some j, _) => exists k x, j = (i + k)%nat /\ l !! k = Some x /\ i_ref x > 0 /\ i_dev x = dev /\ i_inum x = inum
  | (None, r) => Forall (fun x => ~ (i_ref x > 0 /\ i_dev x = dev /\ i_inum x = inum)) l /\
      (r = e /\ (e = None -> Forall (fun x => i_ref x <> 0) l) \/
       e = None /\ exists k x, r = Some (i + k)%nat /\ l !! k = Some x /\ i_ref x = 0)
  end.
Proof.
  revert i e. induction l as [|x l IH]; intros i e; cbn [find_inode]; [split; [done|by left]|].
  destruct ((i_ref x >? 0) && (i_dev x =? dev) && (i_inum x =? inum)) eqn:E.
  { apply andb_true_iff in E as [[E1 E2]%andb_true_iff E3]. exists 0%nat, x. rewrite Nat.add_0_r.
    apply Z.gtb_lt in E1. zbool. split; [done|]. split; [done|]. split; [lia|done]. }
  assert (Hx : ~ (i_ref x > 0 /\ i_dev x = dev /\ i_inum x = inum)).
  { intros (H1 & H2 & H3). rewrite H2, H3, !Z.eqb_refl, (proj2 (Z.gtb_lt _ _)) in E by lia. done. }
  set (e' := match e with Some _ => e | None => if i_ref x =? 0 then Some i else None end).
  specialize (IH (S i) e'). destruct (find_inode dev inum (S i) l e') as [[j|] r].
  - destruct IH as (k & y & -> & Hk & Hy). exists (S k), y. split; [lia|done].
  - destruct IH as [Hall Hr]. split; [by constructor|]. unfold e' in *. destruct e as [e0|].
    + destruct Hr as [[-> _]|[? _]]; [by left|done].
    + destruct (Z.eqb_spec (i_ref x) 0) as [E0|E0].
      * destruct Hr as [[-> _]|[? _]]; [|done]. right. split; [done|]. exists 0%nat, x. rewrite Nat.add_0_r. done.
      * destruct Hr as [[-> Hn]|[_ (k & y & -> & Hk & Hy)]].
        -- left. split; [done|]. intros _. constructor; [done|by apply Hn].
        -- right. split; [done|]. exists (S k), y. split; [f_equal; lia|done].
Qed.

Lemma iget_run dev inum m t :
  (exists ip m', iget_ok dev inum m ip m' /\ run_tx (iget dev inum) (m, t) = Ok ip (m', t)) \/
  (run_tx (iget dev inum) (m, t) = Panic "iget: no inodes" /\ Forall (fun x => i_ref x <> 0) (icache m)).
Proof.
  unfold iget. rewrite run_tget. pose proof (find_inode_spec dev inum 0 (icache m) None) as H.
  destruct (find_inode dev inum 0 (icache m) None) as [[ip|] r].
  - destruct H as (k & x & -> & Hk & Hr & Hd & Hi). cbn [Nat.add]. left. exists k. unfold upd. rewrite run_tmod.
    assert (Ex : ip_at k m = x) by (unfold ip_at; by rewrite Hk). eexists. split; [|done].
    eexists. split; [done|]. rewrite Ex. split; [by eapply lookup_lt_Some|]. split; [done|]. split; [done|]. left. split; [done|]. by rewrite ?Ex.
  - destruct H as [Hall [[-> Hn]|[_ (k & x & -> & Hk & Hr)]]]; [right; split; [done|by apply Hn]|].
    cbn [Nat.add]. left. exists k. unfold upd. rewrite run_tmod. assert (Ex : ip_at k m = x) by (unfold ip_at; by rewrite Hk).
    eexists. split; [|done]. eexists. split; [done|]. split; [by eapply lookup_lt_Some|]. split; [done|]. split; [done|].
    right. rewrite Ex. split; [done|]. split; [done|]. split; [done|]. split; [done|]. intros jp y Hy.
    by apply (Forall_lookup_1 _ _ _ _ Hall Hy).
Qed.

(** ** dirlookup *)

Section Dir.
Variable pid : Z.
Variable devread : Z -> option (Z -> Z * list Z).
Variable devwrite : Z -> option (list Z -> Z).

(** A directory: whole entries, of a size that the file system can hold. *)
Record dir_at (dp : nat) (m : fs) (t : txs) : Prop := {
  dr_file : file_at dp m t;
  dr_type : i_type (ip_at dp m) = T_DIR;
  dr_size : i_size (ip_at dp m) mod 16 = 0
}.

Definition nentries (x : inode) : Z := i_size x / 16.

Lemma nentries_size dp m t : dir_at dp m t -> i_size (ip_at dp m) = 16 * nentries (ip_at dp m) /\ 0 <= nentries (ip_at dp m) <= 4480.
Proof.
  intros [Hfa _ Hsz]. unfold nentries. pose proof (f_size _ _ _ _ (a_file _ _ _ Hfa)) as Hmax.
  assert (MAXFILE * BSZ = 71680) by done. pose proof (Z.div_mod (i_size (ip_at dp m)) 16). lia.
Qed.

Lemma read_entry dp k m t : dir_at dp m t -> 0 <= k < nentries (ip_at dp m) ->
  exists t', reads t t' /\ dir_at dp m t' /\
    run_tx (readi devread dp (16 * k) sizeof_dirent) (m, t) = Ok (16, de k (contents (view t) (ip_at dp m))) (m, t').
Proof using.
  intros Hdir Hk. destruct (nentries_size _ _ _ Hdir) as [Hs Hn]. destruct Hdir as [Hfa Hty Hsz].
  unshelve epose proof (readi_run devread dp (16 * k) sizeof_dirent m t Hfa _ _ _) as H;
    [by rewrite Hty|lia|unfold sizeof_dirent; lia|]. cbv zeta in H. unfold sizeof_dirent in *.
  destruct (Z.gtb_spec (16 * k) (i_size (ip_at dp m))); [lia|]. destruct (Z.geb_spec (16 * k + 16) (2 ^ 32)); [lia|].
  cbn [orb] in H. destruct H as (t' & Hl & E). exists t'. split; [done|]. split.
  - split; [by eapply file_at_reads|done|done].
  - rewrite E. rewrite Z.min_l by lia. done.
Qed.

Lemma dirlookup_loop_run f dp name k m t : dir_at dp m t -> 0 <= k <= nentries (ip_at dp m) ->
  (Z.to_nat (nentries (ip_at dp m) - k) <= f)%nat ->
  let x := ip_at dp m in
  let c := contents (view t) x in
  exists t', reads t t' /\ dir_at dp m t' /\
    run_tx (dirlookup_loop devread f dp name (16 * k)) (m, t) =
    match find_entry (names name) (Z.to_nat (nentries x - k)) k c with
    | None => Ok None (m, t')
    | Some j => run_tx (ip ← iget (i_dev x) (de_inum (de j c)); mret (Some (ip, 16 * j))) (m, t')
    end.
Proof using.
  revert k t. induction f as [|f IH]; intros k t Hdir Hk Hf x c; cbn [dirlookup_loop]; unfold inode_; rewrite run_tgets; fold x;
    destruct (nentries_size _ _ _ Hdir) as [Hs Hn]; fold x in Hs, Hn, Hk, Hf.
  { assert (nentries x = k) as E by lia. rewrite Hs, E, Z.sub_diag. rewrite Z.ltb_irrefl. cbn [negb].
    exists t. split; [apply reads_refl|done]. }
  destruct (Z.ltb_spec (16 * k) (i_size x)) as [Hlt|Hge]; cbn [negb].
  2: { assert (nentries x = k) as -> by lia. rewrite Z.sub_diag. exists t. split; [apply reads_refl|done]. }
  destruct (read_entry dp k m t Hdir) as (t1 & Hl1 & Hd1 & E1); [fold x; lia|].
  rewrite (run_tx_bind_ok _ _ _ _ _ E1). fold x c. cbn beta iota. change (16 =? sizeof_dirent) with true. cbn [negb].
  replace (Z.to_nat (nentries x - k)) with (S (Z.to_nat (nentries x - (k + 1)))) by lia.
  cbn [find_entry]. unfold names at 1.
  assert (Hgo : exists t', reads t t' /\ dir_at dp m t' /\
    run_tx (dirlookup_loop devread f dp name (16 * k + sizeof_dirent)) (m, t1) =
    match find_entry (names name) (Z.to_nat (nentries x - (k + 1))) (k + 1) c with
    | None => Ok None (m, t')
    | Some j => run_tx (ip ← iget (i_dev x) (de_inum (de j c)); mret (Some (ip, 16 * j))) (m, t')
    end).
  { assert (V : view t1 = view t) by apply Hl1. destruct (IH (k + 1) t1 Hd1) as (t2 & Hl2 & Hd2 & E2); fold x; [lia|lia|].
    exists t2. split; [by eapply reads_trans|]. split; [done|].
    replace (16 * k + sizeof_dirent) with (16 * (k + 1)) by (unfold sizeof_dirent; lia). rewrite E2. by rewrite V. }
  destruct (de_inum (de k c) =? 0); cbn [negb andb]; [done|].
  destruct (namecmp name (de_name (de k c)) =? 0); [|done]. by exists t1.
Qed.

(** [dirlookup]: the inode that the first entry with the name refers to. *)
Lemma dirlookup_run dp name m t : dir_at dp m t ->
  let x := ip_at dp m in
  let c := contents (view t) x in
  exists t', reads t t' /\ dir_at dp m t' /\
    run_tx (dirlookup devread dp name) (m, t) =
    match find_entry (names name) (Z.to_nat (nentries x)) 0 c with
    | None => Ok None (m, t')
    | Some j => run_tx (ip ← iget (i_dev x) (de_inum (de j c)); mret (Some (ip, 16 * j))) (m, t')
    end.
Proof using.
  intros Hdir x c. destruct (nentries_size _ _ _ Hdir) as [Hs Hn]. unfold dirlookup, inode_. rewrite run_tgets. fold x.
  replace (i_type x) with T_DIR by (symmetry; exact (dr_type _ _ _ Hdir)). change (T_DIR =? T_DIR) with true. cbn [negb].
  destruct (dirlookup_loop_run (dir_fuel x) dp name 0 m t Hdir) as (t' & H); fold x; fold x in Hs, Hn.
  - lia.
  - unfold dir_fuel, sizeof_dirent. fold (nentries x). lia.
  - exists t'. by rewrite Z.sub_0_r in H.
Qed.

(** ** dirlink *)

(** An entry not in use. *)
Definition free_entry (e : list Z) : bool := de_inum e =? 0.

(** Where the new entry goes: the first one not in use, or the end. *)
Definition link_at (n : Z) (c : list Z) : Z := default n (find_entry free_entry (Z.to_nat n) 0 c).

Lemma empty_loop_run f dp k m t : dir_at dp m t -> 0 <= k <= nentries (ip_at dp m) ->
  (Z.to_nat (nentries (ip_at dp m) - k) <= f)%nat ->
  let x := ip_at dp m in
  let c := contents (view t) x in
  exists t', reads t t' /\ dir_at dp m t' /\
    run_tx (empty_loop devread f dp (16 * k)) (m, t) =
    Ok (16 * default (nentries x) (find_entry free_entry (Z.to_nat (nentries x - k)) k c)) (m, t').
Proof using.
  revert k t. induction f as [|f IH]; intros k t Hdir Hk Hf x c; cbn [empty_loop]; unfold inode_; rewrite run_tgets; fold x;
    destruct (nentries_size _ _ _ Hdir) as [Hs Hn]; fold x in Hs, Hn, Hk, Hf.
  { assert (nentries x = k) as E by lia. rewrite Hs, E, Z.sub_diag. rewrite Z.ltb_irrefl. cbn [negb].
    exists t. split; [apply reads_refl|done]. }
  destruct (Z.ltb_spec (16 * k) (i_size x)) as [Hlt|Hge]; cbn [negb].
  2: { assert (nentries x = k) as E by lia. rewrite E, Z.sub_diag. exists t. split; [apply reads_refl|done]. }
  destruct (read_entry dp k m t Hdir) as (t1 & Hl1 & Hd1 & E1); [fold x; lia|].
  rewrite (run_tx_bind_ok _ _ _ _ _ E1). fold x c. cbn beta iota. change (16 =? sizeof_dirent) with true. cbn [negb].
  replace (Z.to_nat (nentries x - k)) with (S (Z.to_nat (nentries x - (k + 1)))) by lia.
  cbn [find_entry]. unfold free_entry at 1. destruct (de_inum (de k c) =? 0); [by exists t1|].
  assert (V : view t1 = view t) by apply Hl1. destruct (IH (k + 1) t1 Hd1) as (t2 & Hl2 & Hd2 & E2); fold x; [lia|lia|].
  exists t2. split; [by eapply reads_trans|]. split; [done|].
  replace (16 * k + sizeof_dirent) with (16 * (k + 1)) by (unfold sizeof_dirent; lia). rewrite E2. by rewrite V.
Qed.

(** The directory has the entry and no other change. *)
Record linked (dp : nat) (name : list Z) (inum : Z) (m : fs) (t : txs) (m' : fs) (t' : txs) : Prop := {
  ln_written : file_written dp (16 * link_at (nentries (ip_at dp m)) (contents (view t) (ip_at dp m))) (dirent inum name) m t m' t';
  ln_dir : dir_at dp m' t'
}.

Lemma link_at_range n c : 0 <= n -> 0 <= link_at n c <= n.
Proof.
  intros Hn. unfold link_at. pose proof (find_entry_spec free_entry (Z.to_nat n) 0 c) as H.
  destruct (find_entry free_entry (Z.to_nat n) 0 c); cbn; lia.
Qed.

Lemma length_dirent inum name : length (dirent inum name) = 16%nat.
Proof. unfold dirent. rewrite length_app, length_le_bytes, length_take, length_app, length_replicate. unfold DIRSIZ. lia. Qed.

Lemma nblocks_entry k : 0 <= k -> nblocks (16 * k) 16 = 1.
Proof.
  intros Hk. unfold nblocks, BSZ. cbn [Z.leb]. change (16 <=? 0) with false. cbn iota.
  pose proof (Z.div_mod (16 * k) 512 ltac:(lia)). pose proof (Z.mod_pos_bound (16 * k) 512 ltac:(lia)).
  assert ((16 * k) mod 512 = 16 * (k mod 32)) by (rewrite <- Z.mul_mod_distr_l by lia; done).
  assert ((16 * k + 16 + (512 - 1)) / 512 = 16 * k / 512 + 1); [|lia].
  symmetry. apply (Z.div_unique_pos _ _ _ ((16 * k) mod 512 + 15)); lia.
Qed.

(** [dirlink] of a name that the directory does not have. *)
Lemma dirlink_run dp name inum m t : dir_at dp m t -> fields_ok (ip_at dp m) ->
  0 <= i_inum (ip_at dp m) < sb_ninodes (sb m) -> synced (sb m) (view t) (ip_at dp m) -> (2 <= nfree (sb m) (view t))%nat ->
  let x := ip_at dp m in
  let c := contents (view t) x in
  find_entry (names name) (Z.to_nat (nentries x)) 0 c = None ->
  if link_at (nentries x) c =? 4480 then run_tx (dirlink pid devread devwrite dp name inum) (m, t) = Panic "dirlink"
  else exists m' t', run_tx (dirlink pid devread devwrite dp name inum) (m, t) = Ok 0 (m', t') /\ linked dp name inum m t m' t'.
Proof using.
  intros Hdir Hfo Hin Hsy Hfree x c Hnone. unfold dirlink.
  destruct (dirlookup_run dp name m t Hdir) as (t1 & Hl1 & Hd1 & E1). fold x c in E1. rewrite Hnone in E1.
  rewrite (run_tx_bind_ok _ _ _ _ _ E1). cbn beta iota. unfold inode_. rewrite run_tgets. fold x.
  assert (V1 : view t1 = view t) by apply Hl1. destruct (nentries_size _ _ _ Hdir) as [Hs Hn]. fold x in Hs, Hn.
  destruct (empty_loop_run (dir_fuel x) dp 0 m t1 Hd1) as (t2 & Hl2 & Hd2 & E2); fold x;
    [lia|unfold dir_fuel, sizeof_dirent; fold (nentries x); lia|].
  fold x in E2. rewrite V1 in E2. fold c in E2. rewrite Z.sub_0_r in E2. fold (link_at (nentries x) c) in E2.
  rewrite (run_tx_bind_ok _ _ _ _ _ E2). assert (V2 : view t2 = view t) by (rewrite <- V1; apply Hl2).
  pose proof (link_at_range (nentries x) c ltac:(lia)) as Hk. set (k := link_at (nentries x) c) in *.
  unshelve epose proof (writei_run devwrite dp (16 * k) (dirent inum name) m t2 (dr_file _ _ _ Hd2) _ Hfo Hin _ _ _) as Hw.
  { by rewrite (dr_type _ _ _ Hd2). }
  { by rewrite V2. }
  { lia. }
  { rewrite length_dirent. lia. }
  cbv zeta in Hw. rewrite length_dirent in Hw. change (Z.of_nat 16) with 16 in Hw. fold x in Hw. rewrite V2, nblocks_entry in Hw by lia.
  assert (MAXFILE * BSZ = 71680) as Hmax by done. rewrite Hmax in Hw.
  destruct (Z.gtb_spec (16 * k) (i_size x)); [lia|]. cbn [orb] in Hw.
  destruct (Z.eqb_spec k 4480) as [E|E], (Z.gtb_spec (16 * k + 16) 71680); try lia.
  - by rewrite (run_tx_bind_ok _ _ _ _ _ Hw).
  - destruct Hw as (m' & t' & E3 & W & _); [lia|]. rewrite (run_tx_bind_ok _ _ _ _ _ E3). exists m', t'. split; [done|].
    destruct W as [W1 W2 W3 W4 W5 W6 W7 W8 W9]. rewrite V2 in *. split; [by split|]. split; [done| |].
    + destruct W4 as (a & z & ->). exact (dr_type _ _ _ Hdir).
    + rewrite W3, length_dirent. fold x. rewrite Hs. change (Z.of_nat 16) with 16.
      replace (Z.max _ _) with (Z.max (nentries x) (k + 1) * 16) by lia. apply Z.mod_mul. lia.
Qed.
End Dir.

(** ** A directory as a map *)

(** The number that a directory's bytes give a name. *)
Definition dir_get (n : Z) (c : list Z) (name : list Z) : option Z :=
  (fun j => de_inum (de j c)) <$> find_entry (names name) (Z.to_nat n) 0 c.

Lemma de_splice k j e c n : length e = 16%nat -> Z.of_nat (length c) = 16 * n -> 0 <= k <= n -> 0 <= j ->
  de j (splice (Z.to_nat (16 * k)) e c) = if j =? k then e else de j c.
Proof.
  intros He Hc Hk Hj. unfold de, splice. set (o := Z.to_nat (16 * k)). set (i := Z.to_nat (16 * j)).
  destruct (Z.eqb_spec j k) as [->|Hne].
  - unfold i. fold o. rewrite drop_app_length' by (rewrite length_take; lia). by rewrite <- He, take_app_length.
  - apply list_eq. intros q. destruct (decide (q < 16)%nat) as [Hq|]; [|by rewrite !lookup_take_ge by lia].
    rewrite !lookup_take_lt, !lookup_drop by done. destruct (Z.lt_ge_cases j k).
    + rewrite lookup_app_l by (rewrite length_take; lia). by rewrite lookup_take_lt by lia.
    + rewrite lookup_app_r by (rewrite length_take; lia). rewrite lookup_app_r, lookup_drop by (rewrite length_take; lia).
      rewrite length_take. f_equal. lia.
Qed.

Lemma find_entry_some P n k c j : k <= j < k + Z.of_nat n -> P (de j c) = true -> (forall i, k <= i < j -> P (de i c) = false) ->
  find_entry P n k c = Some j.
Proof.
  intros Hj Hp Hb. pose proof (find_entry_spec P n k c) as H. destruct (find_entry P n k c) as [j'|].
  - destruct H as (H1 & H2 & H3). destruct (Z.lt_trichotomy j j') as [Hl|[->|Hl]]; [|done|].
    + rewrite H3 in Hp; [done|lia].
    + rewrite Hb in H2; [done|lia].
  - by rewrite H in Hp.
Qed.

Lemma find_entry_none P n k c : (forall i, k <= i < k + Z.of_nat n -> P (de i c) = false) -> find_entry P n k c = None.
Proof.
  intros Hn. pose proof (find_entry_spec P n k c) as H. destruct (find_entry P n k c) as [j'|]; [|done].
  destruct H as (H1 & H2 & _). by rewrite Hn in H2.
Qed.

Lemma de_inum_dirent inum name : de_inum (dirent inum name) = u16 inum.
Proof.
  unfold de_inum, get16, dirent. rewrite drop_0, take_app_length' by (by rewrite length_le_bytes).
  rewrite le_value_bytes. unfold u16. apply Z.mod_mod. lia.
Qed.

Lemma names_dirent inum name name' : name_ok name -> name_ok name' -> u16 inum <> 0 ->
  names name' (dirent inum name) = bool_decide (name' = name).
Proof.
  intros [Hl Hf] [Hl' Hf'] Hi. unfold names. rewrite de_inum_dirent, (proj2 (Z.eqb_neq _ _)) by done. cbn [negb andb].
  unfold namecmp. assert (E : cut DIRSIZ (de_name (dirent inum name)) = name).
  { unfold de_name, dirent. rewrite drop_app_length' by (by rewrite length_le_bytes). by apply cut_pad. }
  apply eq_true_iff_eq. rewrite Z.eqb_eq, strncmp_cut, E, cut_name, bool_decide_eq_true by done. done.
Qed.

Lemma link_at_free n c j : 0 <= n -> link_at n c = j -> j < n -> de_inum (de j c) = 0.
Proof.
  intros Hn E Hj. unfold link_at in E. pose proof (find_entry_spec free_entry (Z.to_nat n) 0 c) as H.
  destruct (find_entry free_entry (Z.to_nat n) 0 c) as [j'|]; cbn in E; [|lia]. subst j'.
  destruct H as (_ & H & _). by apply Z.eqb_eq in H.
Qed.

(** The new entry binds its name; every other name keeps its binding. *)
Lemma dir_get_linked n c name inum name' : Z.of_nat (length c) = 16 * n -> name_ok name -> name_ok name' -> u16 inum <> 0 ->
  dir_get n c name = None -> let k := link_at n c in
  dir_get (Z.max n (k + 1)) (splice (Z.to_nat (16 * k)) (dirent inum name) c) name' =
  if bool_decide (name' = name) then Some (u16 inum) else dir_get n c name'.
Proof.
  intros Hc Hn Hn' Hi Hnone k. assert (Hn0 : 0 <= n) by lia. pose proof (link_at_range n c Hn0) as Hk. fold k in Hk.
  set (c' := splice _ _ _). assert (Hde : forall j, 0 <= j -> de j c' = if j =? k then dirent inum name else de j c).
  { intros j Hj. apply (de_splice k j _ c n); [apply length_dirent|done|done|done]. }
  assert (Hkold : k < n -> forall nm, names nm (de k c) = false).
  { intros Hlt nm. unfold names. by rewrite (link_at_free n c k) by done. }
  unfold dir_get in *. apply fmap_None in Hnone. pose proof (find_entry_spec (names name) (Z.to_nat n) 0 c) as Hold. rewrite Hnone in Hold.
  case_bool_decide as Hd.
  - subst name'. rewrite (find_entry_some _ _ _ _ k); [|lia| |].
    + cbn. by rewrite Hde, Z.eqb_refl, de_inum_dirent by lia.
    + rewrite Hde, Z.eqb_refl, names_dirent by (done || lia). by apply bool_decide_eq_true.
    + intros i Hi'. rewrite Hde, (proj2 (Z.eqb_neq _ _)) by lia. apply Hold. lia.
  - assert (Hnm : forall j, 0 <= j -> names name' (de j c') = if j =? k then false else names name' (de j c)).
    { intros j Hj. rewrite Hde by done. destruct (Z.eqb_spec j k); [|done]. rewrite names_dirent by done. by apply bool_decide_eq_false. }
    pose proof (find_entry_spec (names name') (Z.to_nat n) 0 c) as H.
    destruct (find_entry (names name') (Z.to_nat n) 0 c) as [j|].
    + destruct H as (H1 & H2 & H3). assert (j <> k) by (intros ->; rewrite Hkold in H2; [done|lia]).
      rewrite (find_entry_some _ _ _ _ j); [|lia| |].
      * cbn. by rewrite Hde, (proj2 (Z.eqb_neq _ _)) by lia.
      * by rewrite Hnm, (proj2 (Z.eqb_neq _ _)) by lia.
      * intros i Hi'. rewrite Hnm by lia. destruct (i =? k); [done|]. apply H3. lia.
    + rewrite find_entry_none; [done|]. intros i Hi'. rewrite Hnm by lia. destruct (Z.eqb_spec i k); [done|]. apply H. lia.
Qed.

Section Linked.
Variables (dp : nat) (m m' : fs) (t t' : txs).

Lemma length_file_contents v x : 0 <= i_size x -> Z.of_nat (length (contents v x)) = i_size x.
Proof. intros H. unfold contents. rewrite length_map, length_seqZ. lia. Qed.

(** The binding of a name in the directory. *)
Definition binding (dp : nat) (m : fs) (t : txs) (name : list Z) : option Z :=
  dir_get (nentries (ip_at dp m)) (contents (view t) (ip_at dp m)) name.

Lemma linked_binding name inum name' : dir_at dp m t -> linked dp name inum m t m' t' -> name_ok name -> name_ok name' ->
  u16 inum <> 0 -> binding dp m t name = None ->
  binding dp m' t' name' = if bool_decide (name' = name) then Some (u16 inum) else binding dp m t name'.
Proof.
  intros Hdir [W _] Hn Hn' Hi Hnone. unfold binding in *. destruct (nentries_size _ _ _ Hdir) as [Hs Hr].
  rewrite (fw_contents _ _ _ _ _ _ _ W).
  assert (nentries (ip_at dp m') = Z.max (nentries (ip_at dp m))
    (link_at (nentries (ip_at dp m)) (contents (view t) (ip_at dp m)) + 1)) as ->.
  { unfold nentries at 1. rewrite (fw_size _ _ _ _ _ _ _ W), length_dirent, Hs. change (Z.of_nat 16) with 16.
    set (k := link_at _ _). replace (Z.max _ _) with (Z.max (nentries (ip_at dp m)) (k + 1) * 16) by lia. apply Z.div_mul. lia. }
  apply dir_get_linked; try done. rewrite length_file_contents; [done|lia].
Qed.
End Linked.

(** [dirlookup] in terms of the bindings. *)
Lemma dirlookup_binding devread dp name m t : dir_at dp m t ->
  exists t', reads t t' /\ dir_at dp m t' /\
    match binding dp m t name with
    | None => run_tx (dirlookup devread dp name) (m, t) = Ok None (m, t')
    | Some i =>
        (exists ip m' off, iget_ok (i_dev (ip_at dp m)) i m ip m' /\
           run_tx (dirlookup devread dp name) (m, t) = Ok (Some (ip, off)) (m', t')) \/
        (run_tx (dirlookup devread dp name) (m, t) = Panic "iget: no inodes" /\ Forall (fun x => i_ref x <> 0) (icache m))
    end.
Proof.
  intros Hdir. destruct (dirlookup_run devread dp name m t Hdir) as (t' & Hl & Hd & E). exists t'. split; [done|]. split; [done|].
  revert E. unfold binding, dir_get. destruct (find_entry _ _ _ _) as [j|]; intros E; [|exact E].
  cbn [fmap option_fmap option_map]. rewrite E. set (i := de_inum _).
  destruct (iget_run (i_dev (ip_at dp m)) i m t') as [(ip & m' & Hg & Er)|[Er Hall]]; [left|right].
  - exists ip, m', (16 * j). split; [done|]. by rewrite (run_tx_bind_ok _ _ _ _ _ Er).
  - split; [|done]. rewrite run_tx_bind, bind_unfold, Er. done.
Qed.

(** ** Paths *)

(** The elements of a path: what lies between slashes, without the empty ones. *)
Fixpoint split_path (path : list Z) : list (list Z) :=
  match path with
  | [] => [[]]
  | c :: path' =>
      if c =? chr "/" then [] :: split_path path'
      else match split_path path' with e :: es => (c :: e) :: es | [] => [[c]] end
  end.

Definition elements (path : list Z) : list (list Z) := filter (fun e => e <> []) (split_path path).

Lemma elements_slashes path : elements (skip_slashes path) = elements path.
Proof.
  induction path as [|c p IH]; [done|]. cbn [skip_slashes]. destruct (c =? chr "/") eqn:E; [|done].
  rewrite IH. unfold elements at 2. cbn [split_path]. rewrite E. by rewrite filter_cons_False by tauto.
Qed.

Lemma split_elem path : split_path path = (elem path).1 :: match (elem path).2 with [] => [] | _ :: r => split_path r end.
Proof.
  induction path as [|c p IH]; [done|]. cbn [split_path elem]. destruct (c =? chr "/"); [done|].
  rewrite IH. by destruct (elem p).
Qed.

Lemma elem_rest path : (length (elem path).2 <= length path)%nat.
Proof. induction path as [|c p IH]; [done|]. cbn [elem]. destruct (c =? chr "/"); [done|]. destruct (elem p). cbn in *. lia. Qed.

Lemma slashes_length path : (length (skip_slashes path) <= length path)%nat.
Proof. induction path as [|c p IH]; [done|]. cbn [skip_slashes]. destruct (c =? chr "/"); cbn [length]; lia. Qed.

Lemma skip_slashes_head path c p : skip_slashes path = c :: p -> (c =? chr "/") = false.
Proof. induction path as [|d q IH]; cbn [skip_slashes]; [done|]. destruct (d =? chr "/") eqn:E; [done|]. by intros [= <- <-]. Qed.

Lemma elem_slash path c r : (elem path).2 = c :: r -> (c =? chr "/") = true.
Proof.
  induction path as [|d q IH]; cbn [elem]; [done|]. destruct (d =? chr "/") eqn:E; [by intros [= <- <-]|].
  destruct (elem q). exact IH.
Qed.

(** The first element and what follows it. *)
Lemma elements_elem c p : (c =? chr "/") = false ->
  elements (c :: p) = (elem (c :: p)).1 :: elements (elem (c :: p)).2 /\ (length (elem (c :: p)).2 < length (c :: p))%nat.
Proof.
  intros Hc. pose proof (split_elem (c :: p)) as Hs. pose proof (elem_slash (c :: p)) as Hsl. pose proof (elem_rest p) as Hr.
  cbn [elem] in *. rewrite Hc in *. destruct (elem p) as [e r]. cbn [fst snd] in *. split; [|cbn; lia].
  unfold elements at 1. rewrite Hs, filter_cons_True by done. f_equal. destruct r as [|d r]; [done|].
  unfold elements. cbn [split_path]. rewrite (Hsl d r eq_refl). by rewrite filter_cons_False by tauto.
Qed.
