(* ===== verification/FsPath.v ===== *)
(** * Path resolution (system/storage/fs.c)

    The inodes on disk are a graph: [live] inodes, of which the directories bind
    names.  [follow] walks it.  [namex], with its locking and its reference counts
    over the inode cache, is shown to compute it. *)

From S2P Require Import Prelude Spinlock Bio BioSpec BlockProg Log FsProg Fs FsAlloc FsFile FsInode FsDir.
Import Fs SleepLock.

(** ** The graph on disk *)

Definition dnode (s : superblock) (v : list block) (inum : Z) : inode :=
  load_dinode (dip_off inum) (blk v (IBLOCK inum s)) (mkinode ROOTDEV inum 0 initsleeplock true 0 0 0 0 0 []).

Definition live (s : superblock) (v : list block) (inum : Z) : Prop :=
  0 < inum < sb_ninodes s /\ i_type (dnode s v inum) <> 0.

Definition node_get (s : superblock) (v : list block) (inum : Z) (name : list Z) : option Z :=
  let d := dnode s v inum in dir_get (nentries d) (contents v d) name.

Definition is_dir (s : superblock) (v : list block) (inum : Z) : bool := i_type (dnode s v inum) =? T_DIR.

(** Following names from an inode. *)
Fixpoint follow (s : superblock) (v : list block) (inum : Z) (names : list (list Z)) : option Z :=
  match names with
  | [] => Some inum
  | n :: ns => if is_dir s v inum then node_get s v inum n ≫= fun i => follow s v i ns else None
  end.

Record tree_ok (s : superblock) (v : list block) : Prop := {
  tr_file : forall i, live s v i -> file_ok s v (i_addrs (dnode s v i)) (i_size (dnode s v i));
  tr_nlink : forall i, live s v i -> i_nlink (dnode s v i) <> 0;
  tr_size : forall i, live s v i -> is_dir s v i = true -> i_size (dnode s v i) mod 16 = 0;
  tr_entry : forall i name j, live s v i -> is_dir s v i = true -> node_get s v i name = Some j -> live s v j
}.

(** ** The inode cache *)

(** An entry in use is of a live inode and has the fields of the disk if valid; no
    inode is locked. *)
Definition slot_ok (s : superblock) (v : list block) (x : inode) : Prop :=
  0 <= i_ref x /\ sl_locked (i_lock x) = 0 /\
  (0 < i_ref x -> i_dev x = ROOTDEV /\ live s v (i_inum x) /\ (i_valid x = true -> synced s v x)).

Definition cache_ok (m : fs) (t : txs) : Prop := forall j, (j < length (icache m))%nat -> slot_ok (sb m) (view t) (ip_at j m).

(** The references of [m'] are those of [m] and [d]; an entry in use keeps its inode. *)
Definition refs (d : nat -> Z) (m m' : fs) : Prop :=
  sb m' = sb m /\ length (icache m') = length (icache m) /\
  forall j, (j < length (icache m))%nat ->
    i_ref (ip_at j m') = i_ref (ip_at j m) + d j /\
    (0 < i_ref (ip_at j m) -> i_dev (ip_at j m') = i_dev (ip_at j m) /\ i_inum (ip_at j m') = i_inum (ip_at j m)).

Definition one (ip : nat) (j : nat) : Z := if (ip =? j)%nat then 1 else 0.

Lemma refs_trans d1 d2 m m1 m2 : (forall j, 0 <= d1 j) -> refs d1 m m1 -> refs d2 m1 m2 -> refs (fun j => d1 j + d2 j) m m2.
Proof.
  intros Hd (S1 & L1 & H1) (S2 & L2 & H2). split; [congruence|]. split; [congruence|]. intros j Hj.
  destruct (H1 j Hj) as [R1 I1]. destruct (H2 j) as [R2 I2]; [congruence|]. specialize (Hd j). split; [lia|]. intros Hr.
  destruct I1 as [-> ->] in I2; [done|]. apply I2. lia.
Qed.

Lemma refs_ext d d' m m' : (forall j, d j = d' j) -> refs d m m' -> refs d' m m'.
Proof. intros E (H1 & H2 & H3). split; [done|]. split; [done|]. intros j Hj. rewrite <- E. by apply H3. Qed.

(** The inode as [ilock] reads it. *)
Definition loaded (s : superblock) (v : list block) (x : inode) : inode :=
  set_valid true (load_dinode (dip_off (i_inum x)) (blk v (IBLOCK (i_inum x) s)) x).

Lemma loaded_dnode s v x : let d := dnode s v (i_inum x) in let y := loaded s v x in
  i_type y = i_type d /\ i_nlink y = i_nlink d /\ i_size y = i_size d /\ i_addrs y = i_addrs d.
Proof. done. Qed.

Lemma synced_ref s v x r : synced s v x -> synced s v (set_ref r x).
Proof. unfold synced. intros H. exact (f_equal (set_ref r) H). Qed.

Lemma loaded_valid s v x : i_valid x = true -> synced s v x -> loaded s v x = x.
Proof. intros Hv Hs. unfold loaded. rewrite Hs. destruct x; cbn in *. by subst. Qed.

Lemma refs_set ip x m : (ip < length (icache m))%nat ->
  (0 < i_ref (ip_at ip m) -> i_dev x = i_dev (ip_at ip m) /\ i_inum x = i_inum (ip_at ip m)) ->
  refs (fun j => (i_ref x - i_ref (ip_at ip m)) * one ip j) m (ip_set ip x m).
Proof.
  intros Hip Hx. split; [done|]. split; [apply length_ip_set|]. intros j Hj. unfold one.
  destruct (Nat.eqb_spec ip j) as [<-|Hne]; [rewrite ip_at_set by done; split; [lia|done]|].
  rewrite ip_at_set_ne by done. split; [lia|done].
Qed.

Lemma cache_set ip x m t : cache_ok m t -> (ip < length (icache m))%nat -> slot_ok (sb m) (view t) x -> cache_ok (ip_set ip x m) t.
Proof.
  intros Hc Hip Hx j Hj. rewrite length_ip_set in Hj. destruct (decide (ip = j)) as [<-|Hne].
  - by rewrite ip_at_set.
  - rewrite ip_at_set_ne by done. by apply Hc.
Qed.

Lemma cache_view m t t' : cache_ok m t -> view t' = view t -> cache_ok m t'.
Proof. intros H V j Hj. rewrite V. by apply H. Qed.

(** An unlocked entry with the fields of the disk. *)
Lemma slot_loaded s v x r : slot_ok s v x -> 0 < i_ref x -> 0 <= r ->
  slot_ok s v (set_ref r (set_lock (mksl 0 0) (loaded s v x))).
Proof. intros (_ & _ & Hx) Hr H0. destruct (Hx Hr) as (Hd & Hl & _). split; [done|]. split; [done|]. done. Qed.

Section Walk.
Variable pid : Z.

Lemma run_tret {A B} (a : A) (f : A -> tprog fs B) st : run_tx (mret a ≫= f) st = run_tx (f a) st.
Proof. done. Qed.

Lemma run_upd {A} ip g (f : unit -> tprog fs A) m t : run_tx (upd ip g ≫= f) (m, t) = run_tx (f tt) (ip_set ip (g (ip_at ip m)) m, t).
Proof. unfold upd. by rewrite run_tmod. Qed.

(** [ilock] of an entry that is not valid. *)
Lemma ilock_reads ip m t bp : (ip < length (icache m))%nat -> idle t -> 0 < i_ref (ip_at ip m) -> i_valid (ip_at ip m) = false ->
  sl_locked (i_lock (ip_at ip m)) = 0 -> i_dev (ip_at ip m) = ROOTDEV -> bp = IBLOCK (i_inum (ip_at ip m)) (sb m) -> t_in_range bp t ->
  let y := load_dinode (dip_off (i_inum (ip_at ip m))) (blk (view t) bp) (set_lock (mksl 1 pid) (ip_at ip m)) in
  i_type y <> 0 ->
  exists t', reads t t' /\ run_tx (ilock pid ip) (m, t) = Ok tt (ip_set ip (set_valid true y) m, t').
Proof.
  intros Hip [Hh Hs] Hr Hv Hlk Hdev -> Hrg y Hty. set (x := ip_at ip m) in *. set (bp := IBLOCK (i_inum x) (sb m)) in *.
  unfold ilock, inode_. rewrite !run_tgets. fold x. rewrite (proj2 (Z.ltb_ge _ _)) by lia. unfold acquiresleep. rewrite Hlk. cbn [Z.eqb negb].
  rewrite run_upd. fold x. rewrite Hv. fold bp.
  assert (Hnh : bp ∉ theld t) by (rewrite Hh; set_solver). assert (Hns : bp ∉ stale t) by (rewrite Hs; set_solver).
  rewrite Hdev, run_tread, run_tdata by (done || cbn; set_solver).
  rewrite tview_hold, run_upd, ip_at_set, ip_set_set, run_trelse, run_upd, ip_at_set, ip_set_set, run_tgets, ip_at_set
    by (done || cbn; set_solver).
  exists (release bp (hold bp t)). split; [by apply reads_hold|].
  change (tview bp t) with (blk (view t) bp). fold y. change (i_type (set_valid true y)) with (i_type y).
  by rewrite (proj2 (Z.eqb_neq _ _)).
Qed.

Lemma ilock_run ip m t : (ip < length (icache m))%nat -> disk_ok (sb m) (view t) -> idle t -> slot_ok (sb m) (view t) (ip_at ip m) ->
  0 < i_ref (ip_at ip m) ->
  exists t', reads t t' /\
    run_tx (ilock pid ip) (m, t) = Ok tt (ip_set ip (set_lock (mksl 1 pid) (loaded (sb m) (view t) (ip_at ip m))) m, t').
Proof.
  intros Hip Hd [Hh Hs] (_ & Hlk & Hx) Hr. destruct (Hx Hr) as (Hdev & [Hi Hty] & Hsy). set (x := ip_at ip m) in *.
  pose proof (d_size _ _ Hd). pose proof (d_data _ _ Hd).
  destruct (iblock_range (sb m) (view t) (i_inum x) Hd ltac:(lia)) as [Hb1 Hb2]. destruct (i_valid x) eqn:Ev.
  - exists t. split; [apply reads_refl|]. rewrite loaded_valid by auto. unfold ilock, inode_. rewrite !run_tgets. fold x.
    rewrite (proj2 (Z.ltb_ge _ _)) by lia. unfold acquiresleep. rewrite Hlk. cbn [Z.eqb negb]. rewrite run_upd. fold x. by rewrite Ev.
  - destruct (ilock_reads ip m t (IBLOCK (i_inum x) (sb m)) Hip (conj Hh Hs) Hr Ev Hlk Hdev eq_refl) as (t' & Hl & E);
      [apply (range_ok (sb m)); [done|lia]|done|]. by exists t'.
Qed.

Lemma iput_run ip m t : (ip < length (icache m))%nat -> sl_locked (i_lock (ip_at ip m)) = 0 ->
  (i_valid (ip_at ip m) = true -> i_nlink (ip_at ip m) <> 0) ->
  run_tx (iput pid ip) (m, t) = Ok tt (ip_set ip (set_ref (i_ref (ip_at ip m) - 1) (set_lock (mksl 0 0) (ip_at ip m))) m, t).
Proof.
  intros Hip Hlk Hn. set (x := ip_at ip m) in *. unfold iput, inode_. rewrite run_tgets. fold x. unfold acquiresleep. rewrite Hlk. cbn [Z.eqb negb].
  rewrite run_upd. fold x.
  assert (i_valid x && (i_nlink x =? 0) && (i_ref x =? 1) = false) as ->.
  { destruct (i_valid x); [|done]. by rewrite (proj2 (Z.eqb_neq _ _)) by auto. }
  rewrite run_tret, run_upd, ip_at_set, ip_set_set by done. rewrite run_tx_tail, run_upd, ip_at_set, ip_set_set by done. done.
Qed.

Lemma iunlockput_run ip m t : (ip < length (icache m))%nat -> i_lock (ip_at ip m) = mksl 1 pid -> 0 < i_ref (ip_at ip m) ->
  i_nlink (ip_at ip m) <> 0 ->
  run_tx (iunlockput pid ip) (m, t) = Ok tt (ip_set ip (set_ref (i_ref (ip_at ip m) - 1) (set_lock (mksl 0 0) (ip_at ip m))) m, t).
Proof.
  intros Hip Hlk Hr Hn. set (x := ip_at ip m) in *. unfold iunlockput, iunlock, inode_. rewrite run_tx_assoc, run_tgets. fold x.
  rewrite Hlk. unfold holdingsleep. cbn [sl_locked sl_pid]. rewrite Z.eqb_refl, (proj2 (Z.ltb_ge _ _)) by lia. cbn [Z.eqb negb andb orb].
  rewrite run_upd. fold x. rewrite iput_run; rewrite ?length_ip_set, ?ip_at_set by done; [|done|done|done].
  by rewrite ip_set_set.
Qed.

(** The states that the walk passes through. *)
Record walking (m : fs) (t : txs) : Prop := {
  k_disk : disk_ok (sb m) (view t);
  k_idle : idle t;
  k_tree : tree_ok (sb m) (view t);
  k_cache : cache_ok m t
}.

Definition locked (ip : nat) (m : fs) (t : txs) : fs := ip_set ip (set_lock (mksl 1 pid) (loaded (sb m) (view t) (ip_at ip m))) m.

Section Turn.
Context (ip : nat) (m : fs) (t : txs).
Context (Hw : walking m t) (Hip : (ip < length (icache m))%nat) (Hr : 0 < i_ref (ip_at ip m)).

Lemma entry_live : i_dev (ip_at ip m) = ROOTDEV /\ live (sb m) (view t) (i_inum (ip_at ip m)).
Proof using Hw Hip Hr. destruct (k_cache _ _ Hw ip Hip) as (_ & _ & H). destruct (H Hr) as (? & ? & _). done. Qed.

Lemma locked_at : ip_at ip (locked ip m t) = set_lock (mksl 1 pid) (loaded (sb m) (view t) (ip_at ip m)).
Proof using Hip. by apply ip_at_set. Qed.

Lemma locked_dir t1 : reads t t1 -> is_dir (sb m) (view t) (i_inum (ip_at ip m)) = true -> dir_at ip (locked ip m t) t1.
Proof using Hw Hip Hr.
  intros Hl Hdir. destruct entry_live as [Hd Hli]. pose proof (idle_reads _ _ (k_idle _ _ Hw) Hl) as Hid. pose proof (rd_view _ _ Hl) as V.
  split; rewrite ?locked_at.
  - split; rewrite ?locked_at, ?V; [unfold locked; by rewrite length_ip_set|done|apply Hw|done|]. by apply (tr_file _ _ (k_tree _ _ Hw)).
  - by apply Z.eqb_eq in Hdir.
  - by apply (tr_size _ _ (k_tree _ _ Hw)).
Qed.

Lemma locked_binding t1 name : view t1 = view t -> binding ip (locked ip m t) t1 name = node_get (sb m) (view t) (i_inum (ip_at ip m)) name.
Proof using Hip. intros V. unfold binding. rewrite locked_at, V. done. Qed.

(** Letting the inode go. *)
Lemma let_go t1 : view t1 = view t -> exists m', cache_ok m' t1 /\ refs (fun j => - one ip j) m m' /\
  run_tx (iunlockput pid ip) (locked ip m t, t1) = Ok tt (m', t1).
Proof using Hw Hip Hr.
  intros V. destruct entry_live as [Hd Hli]. eexists. split; [|split].
  3: { rewrite iunlockput_run; rewrite ?locked_at; [reflexivity|unfold locked; by rewrite length_ip_set|done|done|].
       by apply (tr_nlink _ _ (k_tree _ _ Hw)). }
  - unfold locked. rewrite ip_set_set. apply cache_set; [by eapply cache_view, V; apply Hw|done|].
    rewrite V. cbn [i_ref set_lock]. apply slot_loaded; [by apply (k_cache _ _ Hw)|done|cbn; lia].
  - unfold locked. rewrite ip_set_set. eapply refs_ext; [|apply refs_set; [done|by cbn]]. intros j. cbn. lia.
Qed.

(** Letting it go with a reference to the next one. *)
Lemma let_go_self t1 i m2 : view t1 = view t -> iget_ok ROOTDEV i (locked ip m t) ip m2 ->
  exists m', cache_ok m' t1 /\ refs (fun j => one ip j - one ip j) m m' /\
    i_dev (ip_at ip m') = ROOTDEV /\ i_inum (ip_at ip m') = i /\
    run_tx (iunlockput pid ip) (m2, t1) = Ok tt (m', t1).
Proof using Hw Hip Hr.
  intros V (y & -> & _ & Hyd & Hyi & Hy). destruct entry_live as [Hd Hli].
  pose proof (tr_nlink _ _ (k_tree _ _ Hw) _ Hli) as Hnl. rewrite locked_at in Hy. cbn [i_ref set_lock] in Hy.
  destruct Hy as [[_ ->]|[H0 _]]; [|cbn in H0; lia]. unfold locked. rewrite ip_set_set.
  rewrite iunlockput_run; rewrite ?ip_at_set, ?length_ip_set by done; [|done|done|cbn; lia|done]. rewrite ip_set_set.
  eexists. split; [|split; [|split; [|split; [|reflexivity]]]]; rewrite ?ip_at_set by done; try done.
  - apply cache_set; [by eapply cache_view, V; apply Hw|done|]. rewrite V.
    apply (slot_loaded (sb m) (view t) (ip_at ip m)); [by apply (k_cache _ _ Hw)|done|cbn; lia].
  - eapply refs_ext; [|apply refs_set; [done|by cbn]]. intros j. cbn. lia.
Qed.

Lemma let_go_other t1 i next m2 : view t1 = view t -> live (sb m) (view t) i -> iget_ok ROOTDEV i (locked ip m t) next m2 ->
  next <> ip ->
  exists m', cache_ok m' t1 /\ refs (fun j => one next j - one ip j) m m' /\
    i_dev (ip_at next m') = ROOTDEV /\ i_inum (ip_at next m') = i /\
    run_tx (iunlockput pid ip) (m2, t1) = Ok tt (m', t1).
Proof using Hw Hip Hr.
  intros V Hi (y & -> & Hnx & Hyd & Hyi & Hy) Hne. destruct entry_live as [Hd Hli].
  unfold locked in Hnx. rewrite length_ip_set in Hnx. pose proof (tr_nlink _ _ (k_tree _ _ Hw) _ Hli) as Hnl.
  pose proof (k_cache _ _ Hw ip Hip) as Hsl. set (x := ip_at ip m) in *.
  assert (Hnm : ip_at next (locked ip m t) = ip_at next m) by (by apply ip_at_set_ne). rewrite Hnm in Hy.
  assert (Hys : slot_ok (sb m) (view t) y /\ i_ref y = i_ref (ip_at next m) + 1 /\
    (0 < i_ref (ip_at next m) -> i_dev y = i_dev (ip_at next m) /\ i_inum y = i_inum (ip_at next m))).
  { pose proof (k_cache _ _ Hw next Hnx) as (Hn0 & Hn1 & Hn2). destruct Hy as [[Hg ->]|(H0 & H1 & H2 & H3 & _)].
    - split; [|done]. split; [cbn; lia|]. split; [done|]. intros _. destruct (Hn2 ltac:(lia)) as (Hn3 & Hn4 & Hn5).
      split; [done|]. split; [done|]. intros Hv. by apply synced_ref, Hn5.
    - split; [|split; lia]. split; [lia|]. split; [congruence|]. intros _. rewrite Hyd, Hyi, H2. done. }
  destruct Hys as (Hys & Hyr & Hyk).
  assert (Hat : ip_at ip (ip_set next y (locked ip m t)) = set_lock (mksl 1 pid) (loaded (sb m) (view t) x)).
  { rewrite ip_at_set_ne by done. apply locked_at. }
  rewrite iunlockput_run; rewrite ?Hat; unfold locked; rewrite ?length_ip_set; [|done|done|done|done].
  set (z := set_ref _ _). fold x. set (m1 := ip_set ip _ m).
  assert (Ez : ip_set ip z (ip_set next y m1) = ip_set next y (ip_set ip z m)).
  { unfold m1, ip_set. cbn. f_equal. rewrite (list_insert_insert_ne _ ip next) by done. by rewrite list_insert_insert_eq. }
  rewrite Ez. assert (Hzm : ip_at next (ip_set ip z m) = ip_at next m) by (by apply ip_at_set_ne).
  eexists. split; [|split; [|split; [|split; [|reflexivity]]]]; rewrite ?ip_at_set by (by rewrite length_ip_set); try done.
  - apply cache_set; [|by rewrite length_ip_set|by rewrite V]. apply cache_set; [by eapply cache_view, V; apply Hw|done|].
    rewrite V. apply slot_loaded; [done|done|cbn; lia].
  - split; [done|]. split; [by rewrite !length_ip_set|]. intros j Hj. unfold one.
    destruct (Nat.eqb_spec next j) as [E1|Hn], (Nat.eqb_spec ip j) as [E|Hn']; [congruence| | |].
    + subst j. rewrite ip_at_set by (by rewrite length_ip_set). split; [lia|done].
    + subst j. rewrite ip_at_set_ne, ip_at_set by done. fold x. cbn. split; [lia|done].
    + rewrite !ip_at_set_ne by done. split; [lia|done].
Qed.

Lemma let_go_next t1 i next m2 : view t1 = view t -> live (sb m) (view t) i -> iget_ok ROOTDEV i (locked ip m t) next m2 ->
  exists m', cache_ok m' t1 /\ refs (fun j => one next j - one ip j) m m' /\
    i_dev (ip_at next m') = ROOTDEV /\ i_inum (ip_at next m') = i /\
    run_tx (iunlockput pid ip) (m2, t1) = Ok tt (m', t1).
Proof using Hw Hip Hr.
  intros V Hi Hg. destruct (decide (next = ip)) as [->|Hne]; [by eapply let_go_self|by eapply let_go_other].
Qed.
End Turn.

(** ** The loop *)

(** What the loop computes from the elements of the path. *)
Fixpoint resolve (s : superblock) (v : list block) (parent : bool) (inum : Z) (es : list (list Z)) (last : list Z) :
    option (Z * list Z) :=
  match es with
  | [] => if parent then None else Some (inum, last)
  | e :: es =>
      let name := take DIRSIZ e in
      if is_dir s v inum then
        if parent && bool_decide (es = []) then Some (inum, name)
        else node_get s v inum name ≫= fun i => resolve s v parent i es name
      else None
  end.

(** The result of a walk that started with the references of [m0]. *)
Definition arrives (m0 : fs) (t : txs) (r : option (Z * list Z)) (o : outcome (fs * txs) (option (nat * list Z))) : Prop :=
  match r with
  | Some (i, name) => exists ip m' t', o = Ok (Some (ip, name)) (m', t') /\ reads t t' /\ cache_ok m' t' /\
      (ip < length (icache m'))%nat /\ i_dev (ip_at ip m') = ROOTDEV /\ i_inum (ip_at ip m') = i /\ refs (one ip) m0 m'
  | None => exists m' t', o = Ok None (m', t') /\ reads t t' /\ cache_ok m' t' /\ refs (fun _ => 0) m0 m'
  end.

(** Only unlocking it. *)
Lemma unlock_only ip m t t1 : walking m t -> (ip < length (icache m))%nat -> 0 < i_ref (ip_at ip m) -> view t1 = view t ->
  exists m', cache_ok m' t1 /\ refs (fun _ => 0) m m' /\ i_dev (ip_at ip m') = ROOTDEV /\ i_inum (ip_at ip m') = i_inum (ip_at ip m) /\
    run_tx (iunlock pid ip) (locked ip m t, t1) = Ok tt (m', t1).
Proof using.
  intros Hw Hip Hr V. destruct (entry_live ip m t Hw Hip Hr) as [Hd Hli].
  assert (E : run_tx (iunlock pid ip) (locked ip m t, t1) =
    Ok tt (ip_set ip (set_lock (mksl 0 0) (loaded (sb m) (view t) (ip_at ip m))) m, t1)).
  { unfold iunlock, inode_. rewrite run_tgets, locked_at by done. cbn [i_lock set_lock i_ref]. unfold holdingsleep. cbn [sl_locked sl_pid].
    rewrite Z.eqb_refl, (proj2 (Z.ltb_ge _ _)) by (cbn; lia). cbn [Z.eqb negb andb orb].
    rewrite run_tx_tail, run_upd, locked_at by done. unfold locked. by rewrite ip_set_set. }
  eexists. split; [|split; [|split; [|split; [|exact E]]]]; rewrite ?ip_at_set by done; try done.
  - apply cache_set; [by eapply cache_view, V; apply Hw|done|]. rewrite V.
    apply (slot_loaded (sb m) (view t) (ip_at ip m) (i_ref (ip_at ip m))); [by apply (k_cache _ _ Hw)|done|lia].
  - eapply refs_ext; [|apply refs_set; [done|by cbn]]. intros j. cbn. lia.
Qed.

(** Giving an unlocked inode back. *)
Lemma put_back ip m t : walking m t -> (ip < length (icache m))%nat -> 0 < i_ref (ip_at ip m) ->
  exists m', cache_ok m' t /\ refs (fun j => - one ip j) m m' /\ run_tx (iput pid ip) (m, t) = Ok tt (m', t).
Proof using.
  intros Hw Hip Hr. destruct (entry_live ip m t Hw Hip Hr) as [Hd Hli]. pose proof (k_cache _ _ Hw ip Hip) as (_ & Hlk & Hx).
  destruct (Hx Hr) as (_ & _ & Hsy). eexists. split; [|split; [|apply iput_run; [done|done|]]].
  - apply cache_set; [apply Hw|done|]. split; [cbn; lia|]. split; [done|]. intros _. split; [done|]. split; [done|].
    intros Hv. apply synced_ref. exact (f_equal (set_lock (mksl 0 0)) (Hsy Hv)).
  - eapply refs_ext; [|apply refs_set; [done|by cbn]]. intros j. cbn. lia.
  - intros Hv. rewrite <- (Hsy Hv). by apply (tr_nlink _ _ (k_tree _ _ Hw)).
Qed.

Lemma skipelem_elements path :
  match skipelem path with
  | None => elements path = []
  | Some (path', name) => exists e, name = take DIRSIZ e /\ elements path = e :: elements path' /\
      (length path' < length path)%nat /\ (path' = [] <-> elements path' = [])
  end.
Proof using.
  unfold skipelem. rewrite <- (elements_slashes path). pose proof (slashes_length path) as Hl.
  destruct (skip_slashes path) as [|c p] eqn:E; [done|]. pose proof (elements_elem c p (skip_slashes_head _ _ _ E)) as He.
  pose proof (elem_rest (c :: p)) as Hr. destruct (elem (c :: p)) as [e r]. cbn [fst snd] in *. exists e.
  split; [done|]. destruct He as (-> & Hlt). split; [by rewrite elements_slashes|].
  split; [pose proof (slashes_length r); cbn in *; lia|]. split; [by intros ->|]. intros Hn.
  destruct (skip_slashes r) as [|d q] eqn:E'; [done|]. destruct (elements_elem d q (skip_slashes_head _ _ _ E')) as [Hc _]. congruence.
Qed.

Lemma walking_step m t m' t' d : walking m t -> reads t t' -> refs d m m' -> cache_ok m' t' -> walking m' t'.
Proof using.
  intros Hw Hl (Hs & _) Hc. split; [| | |done].
  - rewrite Hs, (rd_view _ _ Hl). apply Hw.
  - eapply idle_reads; [apply Hw|done].
  - rewrite Hs, (rd_view _ _ Hl). apply Hw.
Qed.

Lemma refs_back ip m0 m m' : refs (one ip) m0 m -> refs (fun j => - one ip j) m m' -> refs (fun _ => 0) m0 m'.
Proof using.
  intros H1 H2. eapply refs_ext; [|eapply refs_trans; [|exact H1|exact H2]]; [intros j; cbn; lia|]. intros j. unfold one. destruct (_ =? _)%nat; lia.
Qed.

Lemma refs_move ip next m0 m m' : refs (one ip) m0 m -> refs (fun j => one next j - one ip j) m m' -> refs (one next) m0 m'.
Proof using.
  intros H1 H2. eapply refs_ext; [|eapply refs_trans; [|exact H1|exact H2]]; [intros j; cbn; lia|]. intros j. unfold one. destruct (_ =? _)%nat; lia.
Qed.

(** The last turn: nothing further is found. *)
Lemma arrives_none ip m0 m t t1 m' : refs (one ip) m0 m -> reads t t1 -> cache_ok m' t1 -> refs (fun j => - one ip j) m m' ->
  arrives m0 t None (Ok None (m', t1)).
Proof using. intros H1 H2 H3 H4. exists m', t1. split; [done|]. split; [done|]. split; [done|]. by eapply refs_back. Qed.

Lemma arrives_reads m0 t t' r o : reads t t' -> arrives m0 t' r o -> arrives m0 t r o.
Proof using.
  intros Hl. destruct r as [[i name]|]; cbn.
  - intros (ip & m' & t'' & H1 & H2 & H3). exists ip, m', t''. split; [done|]. split; [by eapply reads_trans|done].
  - intros (m' & t'' & H1 & H2 & H3). exists m', t''. split; [done|]. split; [by eapply reads_trans|done].
Qed.

Definition roomy (m : fs) : Prop := forall j, exists k, k <> j /\ (k < length (icache m))%nat /\ i_ref (ip_at k m) = 0.

Variable devread : Z -> option (Z -> Z * list Z).

(** A free entry is left for the next inode. *)
Lemma roomy_locked ip m0 m t : roomy m0 -> refs (one ip) m0 m -> ~ Forall (fun x => i_ref x <> 0) (icache (locked ip m t)).
Proof using.
  intros Hroom (_ & Hl & Hr) Hall. destruct (Hroom ip) as (k & Hk & Hlt & H0). destruct (Hr k Hlt) as [E _].
  unfold one in E. rewrite (proj2 (Nat.eqb_neq ip k)) in E by done.
  assert (Hin : (k < length (icache (locked ip m t)))%nat) by (unfold locked; rewrite length_ip_set; lia).
  destruct (lookup_lt_is_Some_2 _ _ Hin) as [x Hx]. pose proof (Forall_lookup_1 _ _ _ _ Hall Hx) as Hne.
  assert (ip_at k (locked ip m t) = x) as Ex by (unfold ip_at; by rewrite Hx).
  unfold locked in Ex. rewrite ip_at_set_ne in Ex by done. rewrite Ex in E. cbn in Hne. lia.
Qed.

Lemma namex_loop_run f ip path parent name m0 m t :
  (length path < f)%nat -> walking m t -> refs (one ip) m0 m -> (ip < length (icache m))%nat -> 0 < i_ref (ip_at ip m) -> roomy m0 ->
  arrives m0 t (resolve (sb m) (view t) parent (i_inum (ip_at ip m)) (elements path) name)
    (run_tx (namex_loop pid devread f ip path parent name) (m, t)).
Proof using.
  revert ip path name m t. induction f as [|f IH]; intros ip path name m t Hf Hw Hrf Hip Hr Hroom; [lia|]. cbn [namex_loop].
  destruct (entry_live ip m t Hw Hip Hr) as [Hd Hli]. pose proof (skipelem_elements path) as Hsk.
  destruct (skipelem path) as [[path' nm]|].
  2: { rewrite Hsk. cbn [resolve]. destruct parent.
       - destruct (put_back ip m t Hw Hip Hr) as (m' & Hc & Hrf' & E). rewrite (run_tx_bind_ok _ _ _ _ _ E).
         by eapply arrives_none; [|apply reads_refl|..].
       - exists ip, m, t. split; [done|]. split; [apply reads_refl|]. split; [apply Hw|]. done. }
  destruct Hsk as (e & -> & -> & Hlen & Hnil). cbn [resolve].
  destruct (ilock_run ip m t Hip (k_disk _ _ Hw) (k_idle _ _ Hw) (k_cache _ _ Hw ip Hip) Hr) as (t1 & Hl1 & E1).
  fold (locked ip m t) in E1. rewrite (run_tx_bind_ok _ _ _ _ _ E1). pose proof (rd_view _ _ Hl1) as V1.
  unfold inode_. rewrite run_tgets, locked_at by done. change (i_type _) with (i_type (dnode (sb m) (view t) (i_inum (ip_at ip m)))).
  fold (is_dir (sb m) (view t) (i_inum (ip_at ip m))). destruct (is_dir _ _ _) eqn:Edir; cbn [negb].
  2: { destruct (let_go ip m t Hw Hip Hr t1 V1) as (m' & Hc & Hrf' & E). rewrite (run_tx_bind_ok _ _ _ _ _ E). by eapply arrives_none. }
  rewrite (bool_decide_ext (path' = []) (elements path' = []) Hnil). destruct (parent && bool_decide (elements path' = [])).
  { destruct (unlock_only ip m t t1 Hw Hip Hr V1) as (m' & Hc & Hrf' & Hd' & Hi' & E). rewrite (run_tx_bind_ok _ _ _ _ _ E).
    exists ip, m', t1. split; [done|]. split; [done|]. split; [done|]. split; [by rewrite (proj1 (proj2 Hrf'))|].
    split; [done|]. split; [done|]. eapply refs_ext; [|eapply refs_trans; [|exact Hrf|exact Hrf']]; intros j; unfold one; cbn; destruct (_ =? _)%nat; lia. }
  destruct (dirlookup_binding devread ip (take DIRSIZ e) (locked ip m t) t1 (locked_dir ip m t Hw Hip Hr t1 Hl1 Edir)) as (t2 & Hl2 & _ & E2).
  rewrite locked_binding in E2 by done. pose proof (rd_view _ _ Hl2) as V2. rewrite V1 in V2.
  assert (Hl : reads t t2) by (by eapply reads_trans).
  destruct (node_get _ _ _ (take DIRSIZ e)) as [i|] eqn:Eg; cbn [mbind option_bind].
  2: { rewrite (run_tx_bind_ok _ _ _ _ _ E2). destruct (let_go ip m t Hw Hip Hr t2 V2) as (m' & Hc & Hrf' & E).
       rewrite (run_tx_bind_ok _ _ _ _ _ E). by eapply arrives_none. }
  destruct E2 as [(next & m2 & off & Hg & E2)|[_ Hall]]; [|by destruct (roomy_locked ip m0 m t Hroom Hrf)].
  rewrite (run_tx_bind_ok _ _ _ _ _ E2). rewrite locked_at in Hg by done. change (i_dev _) with (i_dev (ip_at ip m)) in Hg. rewrite Hd in Hg.
  assert (Hlive : live (sb m) (view t) i) by (by eapply (tr_entry _ _ (k_tree _ _ Hw))).
  destruct (let_go_next ip m t Hw Hip Hr t2 i next m2 V2 Hlive Hg) as (m3 & Hc3 & Hrf3 & Hd3 & Hi3 & E3).
  rewrite (run_tx_bind_ok _ _ _ _ _ E3). pose proof (walking_step _ _ _ _ _ Hw Hl Hrf3 Hc3) as Hw3.
  pose proof Hrf3 as (Hsb3 & Hlen3 & Href3). rewrite <- Hsb3, <- V2, <- Hi3.
  assert (Hnx : (next < length (icache m))%nat).
  { destruct Hg as (y & _ & Hn & _). unfold locked in Hn. by rewrite length_ip_set in Hn. }
  apply (arrives_reads _ _ t2); [done|]. apply IH; [lia|done|by eapply refs_move|by rewrite Hlen3| |done].
  destruct (Href3 next Hnx) as [-> _]. destruct (k_cache _ _ Hw next Hnx) as [H0 _]. unfold one. rewrite Nat.eqb_refl.
  destruct (Nat.eqb_spec ip next) as [<-|]; lia.
Qed.

(** ** Whole paths *)

(** Where a path starts. *)
Definition origin (cwd : nat) (m : fs) (path : list Z) : Z :=
  if bool_decide (head path = Some (chr "/")) then ROOTINO else i_inum (ip_at cwd m).

(** The reference that [namex] starts from. *)
Lemma start_run cwd path m t : walking m t -> live (sb m) (view t) ROOTINO -> (cwd < length (icache m))%nat -> 0 < i_ref (ip_at cwd m) -> roomy m ->
  exists ip m1, run_tx (if bool_decide (head path = Some (chr "/")) then iget ROOTDEV ROOTINO else idup cwd) (m, t) = Ok ip (m1, t) /\
    cache_ok m1 t /\ refs (one ip) m m1 /\ (ip < length (icache m))%nat /\ i_inum (ip_at ip m1) = origin cwd m path.
Proof using.
  intros Hw Hroot Hcwd Hr Hroom. unfold origin. case_bool_decide as Hp.
  - destruct (iget_run ROOTDEV ROOTINO m t) as [(ip & m1 & (x & -> & Hip & Hxd & Hxi & Hx) & E)|[_ Hall]].
    + exists ip, (ip_set ip x m). split; [done|]. pose proof (k_cache _ _ Hw ip Hip) as (H0 & H1 & H2).
      assert (Hxs : slot_ok (sb m) (view t) x /\ i_ref x = i_ref (ip_at ip m) + 1 /\
        (0 < i_ref (ip_at ip m) -> i_dev x = i_dev (ip_at ip m) /\ i_inum x = i_inum (ip_at ip m))).
      { destruct Hx as [[Hg ->]|(G0 & G1 & G2 & G3 & _)].
        - split; [|done]. split; [cbn; lia|]. split; [done|]. intros _. destruct (H2 ltac:(lia)) as (Hn3 & Hn4 & Hn5).
          split; [done|]. split; [done|]. intros Hv. by apply synced_ref, Hn5.
        - split; [|split; lia]. split; [lia|]. split; [congruence|]. intros _. rewrite Hxd, Hxi, G2. done. }
      destruct Hxs as (Hxs & Hxr & Hxk). split; [by apply cache_set; [apply Hw|..]|]. split; [|split; [done|by rewrite ip_at_set]].
      eapply refs_ext; [|by apply refs_set]. intros j. cbn. rewrite Hxr. lia.
    + exfalso. destruct (Hroom 0%nat) as (k & _ & Hk & H0). destruct (lookup_lt_is_Some_2 _ _ Hk) as [x Hx].
      apply (Forall_lookup_1 _ _ _ _ Hall Hx). unfold ip_at in H0. by rewrite Hx in H0.
  - exists cwd. unfold idup. eexists. rewrite run_upd. split; [done|]. pose proof (k_cache _ _ Hw cwd Hcwd) as (H0 & H1 & H2).
    destruct (H2 Hr) as (Hn3 & Hn4 & Hn5). split; [|split; [|split; [done|by rewrite ip_at_set]]].
    + apply cache_set; [apply Hw|done|]. split; [cbn; lia|]. split; [done|]. intros _. split; [done|]. split; [done|].
      intros Hv. by apply synced_ref, Hn5.
    + eapply refs_ext; [|apply refs_set; [done|by cbn]]. intros j. cbn. lia.
Qed.

Lemma namex_run cwd path parent m t : walking m t -> live (sb m) (view t) ROOTINO -> (cwd < length (icache m))%nat ->
  0 < i_ref (ip_at cwd m) -> roomy m ->
  arrives m t (resolve (sb m) (view t) parent (origin cwd m path) (elements path) [])
    (run_tx (namex pid devread cwd path parent) (m, t)).
Proof using.
  intros Hw Hroot Hcwd Hr Hroom. destruct (start_run cwd path m t Hw Hroot Hcwd Hr Hroom) as (ip & m1 & E & Hc & Hrf & Hip & Hi).
  unfold namex. rewrite (run_tx_bind_ok _ _ _ _ _ E). pose proof Hrf as (Hsb & Hlen & Href). rewrite <- Hi, <- Hsb.
  apply namex_loop_run; [lia| |done|by rewrite Hlen| |done].
  - eapply walking_step; [exact Hw|apply reads_refl|done|done].
  - destruct (Href ip Hip) as [-> _]. destruct (k_cache _ _ Hw ip Hip) as [H0 _]. unfold one. rewrite Nat.eqb_refl. lia.
Qed.
End Walk.

(** The walk in terms of [follow]. *)
Lemma resolve_namei s v i es last : fst <$> resolve s v false i es last = follow s v i (map (take DIRSIZ) es).
Proof.
  revert i last. induction es as [|e es IH]; intros i last; cbn [resolve follow map]; [done|]. cbn [andb].
  destruct (is_dir s v i); [|done]. destruct (node_get _ _ _ _); cbn; [apply IH|done].
Qed.

Lemma resolve_parent s v i es e last : resolve s v true i (es ++ [e]) last =
  follow s v i (map (take DIRSIZ) es) ≫= fun d => if is_dir s v d then Some (d, take DIRSIZ e) else None.
Proof.
  revert i last. induction es as [|e' es IH]; intros i last; cbn [resolve follow map app andb].
  - rewrite bool_decide_eq_true_2 by done. done.
  - rewrite bool_decide_eq_false_2 by (by destruct es). destruct (is_dir s v i); [|done]. destruct (node_get _ _ _ _); cbn; [apply IH|done].
Qed.
