(* ===== verification/FsExample.v ===== *)
(** * A small file system

    A disk of 48 blocks with a root directory and a file, on which the theorems
    about fs.c are instantiated.  The conditions that range over blocks are
    decided by [disk_okb] and [file_okb]. *)

From S2P Require Import Prelude Spinlock Bio BioSpec BlockProg Log LogCrash FsProg Fs FsAlloc FsFile FsInode FsDir FsPath.
Import Fs.

(** ** Deciding the invariants *)

#[global] Instance superblock_eq_dec : EqDecision superblock.
Proof. solve_decision. Defined.

Definition disk_okb (s : superblock) (v : list block) : bool :=
  bool_decide (super v = s) && (sb_logstart s + sb_nlog s <=? sb_inodestart s) &&
  (0 <? sb_size s) && (sb_size s <=? Z.of_nat (length v)) && (sb_size s <? 2 ^ 31) &&
  forallb (fun d => (length d =? BSIZE)%nat) v &&
  (1 <? sb_inodestart s) && (0 <=? sb_ninodes s) && (sb_inodestart s + sb_ninodes s / IPB + 1 <=? sb_bmapstart s) &&
  (dstart s <=? sb_size s) && forallb (used s v) (seqZ 0 (dstart s)).

Lemma forallb_seqZ (P : Z -> bool) m n : forallb P (seqZ m n) = true -> forall i, m <= i < m + n -> P i = true.
Proof. intros H i Hi. eapply forallb_forall in H; [exact H|]. apply list_elem_of_In, elem_of_seqZ. lia. Qed.

Lemma disk_okb_ok s v : disk_okb s v = true -> FsAlloc.disk_ok s v.
Proof.
  unfold disk_okb. intros H. repeat (apply andb_true_iff in H as [H ?]). zbool. split; try lia.
  - by apply bool_decide_eq_true in H.
  - apply Forall_forall. intros d Hd%list_elem_of_In. apply Nat.eqb_eq. by eapply forallb_forall in Hd; [|done].
  - intros b Hb. by apply (forallb_seqZ (used s v) 0 (dstart s)); [|lia].
Qed.

Definition file_okb (s : superblock) (v : list block) (addrs : list Z) (size : Z) : bool :=
  (length addrs =? 13)%nat && (0 <=? size) && (size <=? MAXFILE * BSZ) &&
  forallb (fun bn => negb (bn * BSZ <? size) || negb (baddr v addrs bn =? 0)) (seqZ 0 MAXFILE) &&
  forallb (fun k => let a := slot v addrs k in
    if a =? 0 then true else
    (dstart s <=? a) && (a <? sb_size s) && used s v a &&
    forallb (fun k' => if slot v addrs k' =? a then k =? k' else true) (seqZ 0 (MAXFILE + 1))) (seqZ 0 (MAXFILE + 1)).

Lemma file_okb_ok s v addrs size : file_okb s v addrs size = true -> file_ok s v addrs size.
Proof.
  unfold file_okb. intros H. repeat (apply andb_true_iff in H as [H ?]).
  match goal with Hs : forallb _ (seqZ 0 (MAXFILE + 1)) = true |- _ => rename Hs into Hslot end.
  match goal with Hs : forallb _ (seqZ 0 MAXFILE) = true |- _ => rename Hs into Hbn end.
  assert (Hk : forall k, 0 <= k <= MAXFILE -> slot v addrs k <> 0 ->
    dstart s <= slot v addrs k < sb_size s /\ used s v (slot v addrs k) = true /\
    forall k', 0 <= k' <= MAXFILE -> slot v addrs k' = slot v addrs k -> k = k').
  { intros k Hk Hne. pose proof (forallb_seqZ _ _ _ Hslot k ltac:(lia)) as Hp. cbv zeta beta in Hp.
    rewrite (proj2 (Z.eqb_neq _ _)) in Hp by done. repeat (apply andb_true_iff in Hp as [Hp ?]). zbool.
    split; [lia|]. split; [done|]. intros k' Hk' E.
    match goal with Hi : forallb _ _ = true |- _ => pose proof (forallb_seqZ _ _ _ Hi k' ltac:(lia)) as Hi' end.
    cbv beta in Hi'. rewrite E, Z.eqb_refl in Hi'. by apply Z.eqb_eq in Hi'. }
  zbool. split.
  - by apply Nat.eqb_eq.
  - lia.
  - intros bn H0 Hlt. assert (bn < MAXFILE) by (unfold BSZ in *; lia).
    pose proof (forallb_seqZ _ _ _ Hbn bn ltac:(lia)) as Hp. cbv beta in Hp.
    rewrite (proj2 (Z.ltb_lt _ _)) in Hp by done. cbn [negb orb] in Hp. by apply negb_true_iff, Z.eqb_neq in Hp.
  - intros k Hk' Hne. destruct (Hk k Hk' Hne) as (Hr & Hu & _). done.
  - intros k k' Hk1 Hk2 Hne E. destruct (Hk k Hk1 Hne) as (_ & _ & Hinj). by apply Hinj.
Qed.

Definition liveb (s : superblock) (v : list block) (i : Z) : bool :=
  (0 <? i) && (i <? sb_ninodes s) && negb (i_type (dnode s v i) =? 0).

Lemma liveb_live s v i : liveb s v i = true <-> live s v i.
Proof.
  unfold liveb, live. rewrite !andb_true_iff, Z.ltb_lt, Z.ltb_lt, negb_true_iff, Z.eqb_neq. done.
Qed.

Definition tree_okb (s : superblock) (v : list block) : bool :=
  forallb (fun i => if liveb s v i then
      let d := dnode s v i in
      file_okb s v (i_addrs d) (i_size d) && negb (i_nlink d =? 0) &&
      (if is_dir s v i then (i_size d mod 16 =? 0) &&
         forallb (fun j => let e := de_inum (de j (contents v d)) in (e =? 0) || liveb s v e) (seqZ 0 (nentries d))
       else true)
    else true) (seqZ 0 (sb_ninodes s)).

Lemma tree_okb_ok s v : tree_okb s v = true -> tree_ok s v.
Proof.
  intros H. assert (Hi : forall i, live s v i -> let d := dnode s v i in
    file_ok s v (i_addrs d) (i_size d) /\ i_nlink d <> 0 /\ (is_dir s v i = true -> i_size d mod 16 = 0 /\
      forall j, 0 <= j < nentries d -> de_inum (de j (contents v d)) = 0 \/ live s v (de_inum (de j (contents v d))))).
  { intros i Hl d. pose proof (forallb_seqZ _ _ _ H i ltac:(destruct Hl; lia)) as Hp. cbv beta zeta in Hp.
    rewrite (proj2 (liveb_live s v i) Hl) in Hp. fold d in Hp. apply andb_true_iff in Hp as [[Hf Hn]%andb_true_iff Hdd].
    split; [by apply file_okb_ok|]. split; [by apply Z.eqb_neq, negb_true_iff|]. intros Ed.
    rewrite Ed in Hdd. apply andb_true_iff in Hdd as [Hm He].
    split; [by apply Z.eqb_eq|]. intros j Hj. pose proof (forallb_seqZ _ _ _ He j ltac:(lia)) as Hq. cbv beta zeta in Hq.
    apply orb_true_iff in Hq as [Hq|Hq]; [left; by apply Z.eqb_eq|right; by apply liveb_live]. }
  split.
  - intros i Hl. apply (Hi i Hl).
  - intros i Hl. apply (Hi i Hl).
  - intros i Hl Hd. by apply (Hi i Hl).
  - intros i name j Hl Hd. unfold node_get, dir_get.
    pose proof (find_entry_spec (names name) (Z.to_nat (nentries (dnode s v i))) 0 (contents v (dnode s v i))) as Hf.
    destruct (find_entry _ _ _ _) as [k|]; cbn; [|done]. intros [= <-]. destruct Hf as (Hk & Hn & _).
    destruct (Hi i Hl) as (_ & _ & Hdir). destruct (Hdir Hd) as [_ He]. destruct (He k ltac:(lia)) as [E|]; [|done].
    unfold names in Hn. by rewrite E in Hn.
Qed.

(** ** The disk *)

Module Small.

Definition sblock : superblock := mksb 48 12 8 31 2 33 35.
Definition zeros : block := replicate BSIZE 0.
Definition sbdata : block :=
  put32 0 48 (put32 4 12 (put32 8 8 (put32 12 31 (put32 16 2 (put32 20 33 (put32 24 35 zeros)))))).

Definition unlocked := SleepLock.initsleeplock.

(** The root directory, and a file with a link to it. *)
Definition root : inode := mkinode ROOTDEV 1 1 unlocked true T_DIR 0 0 1 32 (36 :: replicate 12 0).
Definition note : inode := mkinode ROOTDEV 2 1 unlocked true T_FILE 0 0 1 3 (37 :: replicate 12 0).

Definition inodes : block := store_dinode (dip_off 1) root (store_dinode (dip_off 2) note zeros).
Definition bitmap : block := splice 0 [255; 255; 255; 255; 63] zeros.
Definition rootdata : block := splice 0 (dirent 1 (cs ".") ++ dirent 2 (cs "note")) zeros.
Definition notedata : block := splice 0 (cs "abc") zeros.

Definition disk : list block :=
  [zeros; sbdata] ++ replicate 31 zeros ++ [inodes; zeros; bitmap; rootdata; notedata] ++ replicate 10 zeros.

Definition unused : inode := mkinode 0 0 0 unlocked false 0 0 0 0 0 (replicate 13 0).
Definition mem : fs := mkfs sblock [root; note; unused; unused].
Definition start : txs := mktx disk ∅ ∅ ∅ 0 ∅.

Lemma disk_good : FsAlloc.disk_ok sblock disk.
Proof. apply disk_okb_ok. by vm_compute. Qed.

Lemma root_good : file_ok sblock disk (i_addrs root) (i_size root).
Proof. apply file_okb_ok. by vm_compute. Qed.

Lemma note_good : file_ok sblock disk (i_addrs note) (i_size note).
Proof. apply file_okb_ok. by vm_compute. Qed.

Lemma note_at : file_at 1 mem start.
Proof. split; [cbn; lia|done|exact disk_good|done|exact note_good]. Qed.

Lemma root_dir : dir_at 0 mem start.
Proof. split; [|done|done]. split; [cbn; lia|done|exact disk_good|done|exact root_good]. Qed.

Lemma fields_small x : x = root \/ x = note -> fields_ok x.
Proof. intros [->| ->]; split; try done; apply (bool_decide_unpack _); by vm_compute. Qed.

Lemma synced_small x : x = root \/ x = note -> synced sblock disk x.
Proof. intros [->| ->]; by vm_compute. Qed.

Lemma free_small : nfree sblock disk = 10%nat.
Proof. by vm_compute. Qed.

Lemma tree_small : tree_ok sblock disk.
Proof. apply tree_okb_ok. by vm_compute. Qed.

Lemma live_small i : i = 1 \/ i = 2 -> live sblock disk i.
Proof. intros [->| ->]; apply liveb_live; by vm_compute. Qed.

Lemma walking_small : walking mem start.
Proof.
  split; [exact disk_good|done|exact tree_small|]. intros j Hj. cbn in Hj.
  destruct j as [|[|[|[|j]]]]; [| | | |lia]; (split; [done|]; split; [done|]; intros Hr); [| |done|done];
    (split; [done|]; split; [apply live_small; cbn; tauto|]; intros _; apply synced_small; tauto).
Qed.

Lemma roomy_small : roomy mem.
Proof. intros j. destruct (decide (j = 2%nat)) as [->|]; [exists 3%nat|exists 2%nat]; cbn; (split; [done|]; split; [lia|done]). Qed.

End Small.
