(* ===== verification/FsSpec.v ===== *)
(** * The theorems about the file system

    Block allocation, reading and writing files, inodes, directories and paths,
    and the atomicity of the calls, each with an instance on the small disk of
    FsExample.v. *)

From S2P Require Import Prelude Spinlock Bio BioSpec BlockProg Log LogCrash Recovery LogOps FsProg Fs FsCall.
From S2P Require Import FsAlloc FsFile FsInode FsDir FsPath FsExample.
Import Log Fs.

(** ** Calls *)

(** C1.  File-system calls are atomic.  Take a program of transactions of fs.c, whose
    run on the blocks of the file system returns [a].  On the concrete cache of bio.c
    and log of log.c, each transaction between [begin_op] and [end_op], it returns [a]
    and leaves the same blocks, with the log empty again.  A crash after any number
    of its block writes, followed by any number of interrupted recoveries and one that
    completes, leaves the file system as it was between two of the transactions. *)
Theorem fs_calls_atomic {Mem A} (p : sprog Mem A) m v a m' v' l c e s :
  at_rest v l c -> RR e s c -> run_s p (m, v) = Ok a (m', v') -> fits_s p l m v ->
  exists l' c' e' s' ws,
    run_bio (compile_s p) ((m, l), e, s) = Ok a ((m', l'), e', s') /\ RR e' s' c' /\ at_rest v' l' c' /\
    Bio.trace (Bio.dsk s') = Bio.trace (Bio.dsk s) ++ ws /\
    (forall b, 0 <= b -> ~ log_area v' b -> img_at (Bio.memdisk (Bio.dsk s')) b = tview b (tx0 v')) /\
    prefixes_recover (Bio.memdisk (Bio.dsk s)) ws (views_s p m v).
Proof.
  intros Hr HRR Hrun Hfit. destruct (run_s_sim p m v l c a m' v' Hr Hrun Hfit) as (l' & c' & ws & E & Hr' & Htr & Himg & Hp).
  pose proof (run_refines (compile_s p) (m, l) c e s HRR) as H. rewrite E in H. destruct H as (e' & s' & E' & HRR').
  destruct HRR as [HR _]. pose proof (proj1 HRR') as HR'. exists l', c', e', s', ws.
  split; [exact E'|]. split; [exact HRR'|]. split; [exact Hr'|]. split; [by rewrite (R_tr _ _ HR'), (R_tr _ _ HR)|].
  rewrite (R_img _ _ HR'), (R_img _ _ HR). split; [|exact Hp]. intros b Hb Hn. rewrite <- (r_view _ _ _ Hr' b Hb Hn).
  exact (eq_sym (rest_clean _ _ _ b Hr' Hb)).
Qed.

(** Two calls that append to the file of the small disk. *)
Definition append_twice : sprog fs Z :=
  n ← stx (writei (fun _ => None) 1 (cs "hello") 3);
  n' ← stx (writei (fun _ => None) 1 (cs "world") 8);
  mret (n + n').
Definition append_state : fs * list block :=
  match run_s append_twice (Small.mem, Small.disk) with Ok _ st => st | _ => (Small.mem, []) end.

Lemma append_run : run_s append_twice (Small.mem, Small.disk) = Ok 10 (append_state.1, append_state.2).
Proof. vm_compute. reflexivity. Qed.

Lemma small_at_rest : at_rest Small.disk LogExample.idle_log (Spec.fresh Small.disk).
Proof. split; try done. split; try done; try (by vm_compute). apply NoDup_nil_2. Qed.

Lemma fs_calls_atomic_witness : exists s, RR ∅ s (Spec.fresh Small.disk) /\
  exists l' c' e' s' ws,
    run_bio (compile_s append_twice) ((Small.mem, LogExample.idle_log), ∅, s) = Ok 10 ((append_state.1, l'), e', s') /\
    RR e' s' c' /\ at_rest append_state.2 l' c' /\
    Bio.trace (Bio.dsk s') = Bio.trace (Bio.dsk s) ++ ws /\
    (forall b, 0 <= b -> ~ log_area append_state.2 b -> img_at (Bio.memdisk (Bio.dsk s')) b = tview b (tx0 append_state.2)) /\
    prefixes_recover (Bio.memdisk (Bio.dsk s)) ws (views_s append_twice Small.mem Small.disk).
Proof.
  destruct (binit_sim Small.disk 1) as (s0 & _ & HR & _). exists s0. split; [exact (fresh_RR _ _ HR)|].
  refine (fs_calls_atomic append_twice Small.mem Small.disk 10 append_state.1 append_state.2 LogExample.idle_log (Spec.fresh Small.disk) ∅ s0
    small_at_rest (fresh_RR _ _ HR) append_run _).
  apply fits_sb_ok. vm_compute. reflexivity.
Defined.

(** ** Blocks *)

(** The bit of [b] is now [now]; no other bit and no other block outside the free
    map has changed. *)
Definition map_changed (s : superblock) (b : Z) (now : bool) (v v' : list block) : Prop :=
  FsAlloc.disk_ok s v' /\
  (forall b', 0 <= b' < sb_size s -> used s v' b' = if b =? b' then now else used s v b') /\
  (forall b', 0 <= b' -> b' <> b -> ~ sb_bmapstart s <= b' < dstart s -> FsAlloc.blk v' b' = FsAlloc.blk v b').

Lemma allocated_changed s b v : FsAlloc.disk_ok s v -> dstart s <= b < sb_size s -> used s v b = false ->
  map_changed s b true v (allocated s b v).
Proof.
  intros Hd Hb Hu. pose proof (dstart_pos _ _ Hd). split; [apply disk_ok_allocated; [done|lia|done]|]. split.
  - intros b' Hb'. apply used_allocated; [done|lia|done|done].
  - intros b' Hb' Hne Hm. rewrite blk_allocated by (done || lia). by rewrite (proj2 (Z.eqb_neq b b')) by done.
Qed.

Lemma unmark_changed s b v : FsAlloc.disk_ok s v -> dstart s <= b < sb_size s -> map_changed s b false v (unmark s b v).
Proof.
  intros Hd Hb. pose proof (dstart_pos _ _ Hd). split; [by apply disk_ok_unmark|]. split.
  - intros b' Hb'. apply used_unmark; [done|lia|done].
  - intros b' Hb' Hne Hm. pose proof (bblock_range s v b Hd ltac:(lia)). unfold unmark. by rewrite blk_insert_ne by lia.
Qed.

(** C10.  Block allocation.  [balloc] returns the first free block, marks it in the
    free map and fills it with zeros, or panics if there is none; [bfree] clears the
    mark of a block in use and panics on a free one.  Neither changes another mark or
    another block, and neither leaves a buffer held or a change that is not
    logged. *)
Theorem balloc_correct m t : FsAlloc.disk_ok (sb m) (view t) -> busy_ok (sb m) t ->
  let s := sb m in let v := view t in
  ((exists b t', run_tx (balloc ROOTDEV) (m, t) = Ok b (m, t') /\ dstart s <= b < sb_size s /\
      used s v b = false /\ (forall b', 0 <= b' < b -> used s v b' = true) /\
      map_changed s b true v (view t') /\ FsAlloc.blk (view t') b = Bio.zero_block /\
      theld t' = theld t /\ stale t' = ∅) \/
   (run_tx (balloc ROOTDEV) (m, t) = Panic "balloc: out of blocks" /\ forall b, 0 <= b < sb_size s -> used s v b = true)) /\
  (forall b, dstart s <= b < sb_size s ->
     if used s v b
     then exists t', run_tx (bfree ROOTDEV b) (m, t) = Ok tt (m, t') /\ map_changed s b false v (view t') /\
            FsAlloc.blk (view t') b = FsAlloc.blk v b /\ theld t' = theld t /\ stale t' = ∅
     else run_tx (bfree ROOTDEV b) (m, t) = Panic "freeing free block").
Proof.
  intros Hd Hb s v. pose proof (dstart_pos _ _ Hd) as Hpos. fold s in Hpos. split.
  - destruct (balloc_run m t Hd Hb) as [(b & t' & E & (V & Hh & Hs) & _ & Hr & Hu & Hf)|H]; [left|by right].
    fold s v in V, Hr, Hu, Hf. exists b, t'. split; [done|]. split; [done|]. split; [done|]. split; [done|].
    rewrite V. split; [by apply allocated_changed|]. pose proof (d_size _ _ Hd). fold s v in H. split.
    + unfold allocated. apply blk_insert_eq. unfold mark. rewrite length_insert. lia.
    + split; [done|]. rewrite Hs. apply Hb.
  - intros b Hr. pose proof (bfree_run b m t Hd Hb Hr) as H. fold s v in H. destruct (used s v b); [|done].
    destruct H as (t' & (V & Hh & Hs) & E). exists t'. split; [done|]. rewrite V. split; [by apply unmark_changed|]. split.
    + pose proof (bblock_range s v b Hd ltac:(lia)). unfold unmark. by rewrite blk_insert_ne by lia.
    + split; [done|]. rewrite Hs. apply Hb.
Qed.

Lemma balloc_correct_witness :
  (exists b t', run_tx (balloc ROOTDEV) (Small.mem, Small.start) = Ok b (Small.mem, t') /\
     map_changed Small.sblock b true Small.disk (view t') /\ FsAlloc.blk (view t') b = Bio.zero_block) /\
  (exists t', run_tx (bfree ROOTDEV 37) (Small.mem, Small.start) = Ok tt (Small.mem, t') /\
     map_changed Small.sblock 37 false Small.disk (view t')) /\
  run_tx (bfree ROOTDEV 40) (Small.mem, Small.start) = Panic "freeing free block".
Proof.
  destruct (balloc_correct Small.mem Small.start Small.disk_good (idle_busy_ok _ _ (a_idle _ _ _ Small.note_at))) as [Ha Hf]. split_and!.
  - destruct Ha as [(b & t' & E & _ & _ & _ & Hm & Hz & _)|[_ Hall]]; [by exists b, t'|].
    exfalso. assert (used Small.sblock Small.disk 40 = false) as E by (vm_compute; reflexivity).
    pose proof (Hall 40 ltac:(cbn; lia)) as E'. cbn [sb Small.mem view Small.start] in E'. congruence.
  - specialize (Hf 37 ltac:(vm_compute; split; congruence)).
    change (used (sb Small.mem) (view Small.start) 37) with (used Small.sblock Small.disk 37) in Hf.
    assert (used Small.sblock Small.disk 37 = true) as E by (vm_compute; reflexivity). rewrite E in Hf.
    destruct Hf as (t' & E' & Hm & _). by exists t'.
  - specialize (Hf 40 ltac:(vm_compute; split; congruence)).
    change (used (sb Small.mem) (view Small.start) 40) with (used Small.sblock Small.disk 40) in Hf.
    assert (used Small.sblock Small.disk 40 = false) as E by (vm_compute; reflexivity). by rewrite E in Hf.
Defined.

(** ** Files *)

(** [readi] of a file returns the bytes of the file from the offset, cut at
    its end; an offset past the end or one that wraps around is an error.  Nothing
    changes. *)
Theorem readi_correct devread ip off n m t : file_at ip m t -> i_type (ip_at ip m) <> T_DEV ->
  0 <= off < 2 ^ 32 -> 0 <= n < 2 ^ 32 ->
  let x := ip_at ip m in
  if (off >? i_size x) || (off + n >=? 2 ^ 32) then run_tx (readi devread ip off n) (m, t) = Ok (-1, []) (m, t)
  else exists t', reads t t' /\
    let k := Z.min n (i_size x - off) in
    run_tx (readi devread ip off n) (m, t) = Ok (k, take (Z.to_nat k) (drop (Z.to_nat off) (contents (view t) x))) (m, t').
Proof. apply readi_run. Qed.

Lemma readi_correct_witness : exists t',
  run_tx (readi (fun _ => None) 1 1 100) (Small.mem, Small.start) = Ok (2, cs "bc") (Small.mem, t').
Proof.
  unshelve epose proof (readi_correct (fun _ => None) 1 1 100 Small.mem Small.start Small.note_at _ _ _) as H;
    [vm_compute; congruence|lia|lia|]. destruct H as (t' & _ & E). exists t'. exact E.
Defined.

(** C6.  [writei] of a file writes the bytes at the offset, extending the file,
    with its new size and blocks stored in the inode on disk; no other file and no
    other inode changes.  It returns -1 and changes nothing if the offset is past the
    end or the file would be too large, and it succeeds whenever enough blocks are
    free. *)
Theorem writei_correct devwrite ip off src m t : file_at ip m t -> i_type (ip_at ip m) <> T_DEV -> fields_ok (ip_at ip m) ->
  0 <= i_inum (ip_at ip m) < sb_ninodes (sb m) -> synced (sb m) (view t) (ip_at ip m) ->
  0 <= off < 2 ^ 32 -> Z.of_nat (length src) < 2 ^ 32 ->
  let n := Z.of_nat (length src) in
  if (off >? i_size (ip_at ip m)) || (off + n >? MAXFILE * BSZ)
  then run_tx (writei devwrite ip src off) (m, t) = Ok (-1) (m, t)
  else 2 * nblocks off n <= Z.of_nat (nfree (sb m) (view t)) ->
    exists m' t', run_tx (writei devwrite ip src off) (m, t) = Ok n (m', t') /\ file_written ip off src m t m' t'.
Proof.
  intros Hfa Hty Hfo Hin Hsy Ho Hl n. pose proof (writei_run devwrite ip off src m t Hfa Hty Hfo Hin Hsy Ho Hl) as H. cbv zeta in H. fold n in H.
  destruct (_ || _); [exact H|]. intros Hn. destruct (H Hn) as (m' & t' & E & Hw & _). exists m', t'. exact (conj E Hw).
Qed.

Lemma writei_correct_witness : exists m' t',
  run_tx (writei (fun _ => None) 1 (cs "hello") 3) (Small.mem, Small.start) = Ok 5 (m', t') /\
  contents (view t') (ip_at 1 m') = cs "abchello" /\ i_size (ip_at 1 m') = 8.
Proof.
  unshelve epose proof (writei_correct (fun _ => None) 1 3 (cs "hello") Small.mem Small.start Small.note_at _
    (Small.fields_small _ (or_intror eq_refl)) _ (Small.synced_small _ (or_intror eq_refl)) _ _) as H;
    [vm_compute; congruence|vm_compute; split; congruence|lia|vm_compute; reflexivity|].
  cbv zeta in H. destruct H as (m' & t' & E & W).
  { change (sb Small.mem) with Small.sblock. change (view Small.start) with Small.disk. rewrite Small.free_small. vm_compute. congruence. }
  exists m', t'. split; [exact E|]. rewrite (fw_contents _ _ _ _ _ _ _ W), (fw_size _ _ _ _ _ _ _ W).
  split; vm_compute; reflexivity.
Defined.

(** ** Inodes *)

(** C11.  An inode survives a trip to the disk: after [iupdate], [ilock] of an entry
    of the same inode that is not yet valid reads back every field, locks the entry
    and does not change the disk. *)
Theorem iupdate_ilock_roundtrip pid ip jp m t : (ip < length (icache m))%nat -> (jp < length (icache m))%nat ->
  i_dev (ip_at ip m) = ROOTDEV -> i_dev (ip_at jp m) = ROOTDEV -> FsAlloc.disk_ok (sb m) (view t) -> idle t ->
  0 <= i_inum (ip_at ip m) < sb_ninodes (sb m) -> i_inum (ip_at jp m) = i_inum (ip_at ip m) -> fields_ok (ip_at ip m) ->
  i_type (ip_at ip m) <> 0 -> 0 < i_ref (ip_at jp m) -> i_valid (ip_at jp m) = false -> SleepLock.sl_locked (i_lock (ip_at jp m)) = 0 ->
  let x := ip_at ip m in let y := ip_at jp m in
  exists t' t'', run_tx (iupdate ip) (m, t) = Ok tt (m, t') /\
    run_tx (ilock pid jp) (m, t') =
      Ok tt (ip_set jp (mkinode ROOTDEV (i_inum x) (i_ref y) (SleepLock.mksl 1 pid) true
        (i_type x) (i_major x) (i_minor x) (i_nlink x) (i_size x) (i_addrs x)) m, t'') /\
    view t'' = view t' /\ (forall b, 0 <= b -> b <> IBLOCK (i_inum x) (sb m) -> FsAlloc.blk (view t'') b = FsAlloc.blk (view t) b).
Proof.
  intros Hip Hjp Hd Hd' Hdk Hid Hin Hji Hfo Hty Hr Hv Hlk x y.
  destruct (iupdate_run ip m t Hip Hd Hdk Hid Hin) as (t' & Hl & _ & E). fold x in Hl. set (b := IBLOCK (i_inum x) (sb m)) in *.
  destruct (iblock_range (sb m) (view t) (i_inum x) Hdk Hin) as [Hb1 Hb2]. fold b in Hb1, Hb2.
  pose proof (d_size _ _ Hdk) as Hsz. pose proof (d_data _ _ Hdk) as Hdd. pose proof (proj1 Hl) as V.
  assert (Hrg : t_in_range b t').
  { apply (range_ok (sb m)); [|lia]. rewrite V. apply ib_disk; [done|lia|].
    rewrite length_store_dinode; [by apply (blk_length (sb m))|apply Hfo|]. rewrite (blk_length (sb m)) by done. apply dip_off_bound. }
  assert (Hblk : FsAlloc.blk (view t') b = store_dinode (dip_off (i_inum x)) x (FsAlloc.blk (view t) b)) by (rewrite V; apply blk_insert_eq; lia).
  pose proof (load_store_dinode (dip_off (i_inum x)) x (Fs.set_lock (SleepLock.mksl 1 pid) y) (FsAlloc.blk (view t) b) Hfo) as Hload.
  rewrite <- Hblk in Hload. specialize (Hload ltac:(rewrite (blk_length (sb m)) by done; apply dip_off_bound)).
  destruct (ilock_reads pid jp m t' b) as (t'' & Hl' & E'); try done.
  { destruct (idle_leaves _ _ _ Hid Hl). done. }
  { by rewrite Hji. }
  { change (Fs.i_type (load_dinode (dip_off (i_inum y)) (FsAlloc.blk (view t') b) (Fs.set_lock (SleepLock.mksl 1 pid) y)) <> 0).
    unfold y. rewrite Hji. fold x y. by rewrite Hload. }
  exists t', t''. split; [done|]. split; [|split].
  - rewrite E', Hji. fold x y. rewrite Hload. cbn. unfold y at 1 2. by rewrite Hd', Hji.
  - apply Hl'.
  - intros b' Hb' Hne. rewrite (rd_view _ _ Hl'), V. apply blk_insert_ne; [lia|done|done].
Qed.

(** The root directory in an entry that has not been read. *)
Definition cold_root : fs :=
  mkfs Small.sblock [Small.root; mkinode ROOTDEV 1 1 Small.unlocked false 0 0 0 0 0 (replicate 13 0)].

Lemma iupdate_ilock_roundtrip_witness : exists t' t'',
  run_tx (iupdate 0) (cold_root, Small.start) = Ok tt (cold_root, t') /\
  run_tx (ilock 7 1) (cold_root, t') = Ok tt (ip_set 1 (Fs.set_lock (SleepLock.mksl 1 7) Small.root) cold_root, t'') /\ view t'' = view t'.
Proof.
  destruct (iupdate_ilock_roundtrip 7 0 1 cold_root Small.start) as (t' & t'' & E & E' & V & _);
    [cbn; lia|cbn; lia|done|done|exact Small.disk_good|done|vm_compute; split; congruence|done|
     exact (Small.fields_small _ (or_introl eq_refl))|done|done|done|done|].
  exists t', t''. split; [exact E|]. split; [exact E'|exact V].
Defined.

(** ** Directories *)

(** C8.  A directory is a map from names to inode numbers.  [dirlookup] looks a
    name up and returns the inode with a reference; it panics only when no entry of
    the inode cache is free.  [dirlink] of a name that is not bound binds it to the
    number, of 16 bits, keeps every other binding, every other file and every other
    inode; in a directory of the largest size it panics. *)
Theorem directory_map pid devread devwrite dp name inum m t : dir_at dp m t -> fields_ok (ip_at dp m) ->
  0 <= i_inum (ip_at dp m) < sb_ninodes (sb m) -> synced (sb m) (view t) (ip_at dp m) -> (2 <= nfree (sb m) (view t))%nat ->
  name_ok name -> u16 inum <> 0 ->
  (exists t', reads t t' /\
    match binding dp m t name with
    | None => run_tx (dirlookup devread dp name) (m, t) = Ok None (m, t')
    | Some i =>
        (exists ip m' off, iget_ok (i_dev (ip_at dp m)) i m ip m' /\
           run_tx (dirlookup devread dp name) (m, t) = Ok (Some (ip, off)) (m', t')) \/
        (run_tx (dirlookup devread dp name) (m, t) = Panic "iget: no inodes" /\ Forall (fun x => i_ref x <> 0) (icache m))
    end) /\
  (binding dp m t name = None ->
   if link_at (nentries (ip_at dp m)) (contents (view t) (ip_at dp m)) =? 4480
   then run_tx (dirlink pid devread devwrite dp name inum) (m, t) = Panic "dirlink"
   else exists m' t', run_tx (dirlink pid devread devwrite dp name inum) (m, t) = Ok 0 (m', t') /\ dir_at dp m' t' /\
     (forall name', name_ok name' ->
        binding dp m' t' name' = if bool_decide (name' = name) then Some (u16 inum) else binding dp m t name') /\
     (forall y, file_ok (sb m) (view t) (i_addrs y) (i_size y) -> apart (view t) (i_addrs y) (i_addrs (ip_at dp m)) ->
        contents (view t') y = contents (view t) y) /\
     (forall y, 0 <= i_inum y < sb_ninodes (sb m) -> i_inum y <> i_inum (ip_at dp m) ->
        synced (sb m) (view t) y -> synced (sb m) (view t') y)).
Proof.
  intros Hdir Hfo Hin Hsy Hfree Hn Hi. split.
  - destruct (dirlookup_binding devread dp name m t Hdir) as (t' & Hl & _ & H). by exists t'.
  - intros Hb. pose proof (dirlink_run pid devread devwrite dp name inum m t Hdir Hfo Hin Hsy Hfree) as H. cbv zeta in H.
    specialize (H ltac:(by apply fmap_None in Hb)). destruct (_ =? 4480); [done|]. destruct H as (m' & t' & E & HL).
    exists m', t'. split; [done|]. split; [apply HL|]. split; [intros name' Hn'; by apply linked_binding|].
    pose proof (ln_written _ _ _ _ _ _ _ HL) as W. split.
    + intros y Hy Hap. by apply (fw_others _ _ _ _ _ _ _ W).
    + intros y Hy Hne. by apply (fw_inodes _ _ _ _ _ _ _ W).
Qed.

Lemma name_ok_cs s : forallb (fun c => (0 <? c) && (c <? 256)) (cs s) && (length (cs s) <=? DIRSIZ)%nat = true -> name_ok (cs s).
Proof.
  intros [H1 H2]%andb_true_iff. split; [by apply Nat.leb_le|]. apply Forall_forall. intros c Hc%list_elem_of_In.
  eapply forallb_forall in H1; [|exact Hc]. apply andb_true_iff in H1 as [H1 H3]. zbool. lia.
Qed.

(** Linking a second name to the file. *)
Lemma directory_map_witness : exists m' t',
  run_tx (dirlink 7 (fun _ => None) (fun _ => None) 0 (cs "copy") 2) (Small.mem, Small.start) = Ok 0 (m', t') /\
  binding 0 m' t' (cs "copy") = Some 2 /\ binding 0 m' t' (cs "note") = Some 2 /\ binding 0 m' t' (cs "none") = None.
Proof.
  destruct (directory_map 7 (fun _ => None) (fun _ => None) 0 (cs "copy") 2 Small.mem Small.start Small.root_dir
    (Small.fields_small _ (or_introl eq_refl))) as [_ H];
    [vm_compute; split; congruence|exact (Small.synced_small _ (or_introl eq_refl))|
     change (2 <= nfree Small.sblock Small.disk)%nat; rewrite Small.free_small; lia|by apply name_ok_cs|by vm_compute|].
  specialize (H ltac:(vm_compute; reflexivity)).
  assert (E : link_at (nentries (ip_at 0 Small.mem)) (contents (view Small.start) (ip_at 0 Small.mem)) =? 4480 = false) by (vm_compute; reflexivity).
  rewrite E in H. destruct H as (m' & t' & Er & _ & Hb & _). exists m', t'. split; [exact Er|].
  rewrite !Hb by (by apply name_ok_cs). split_and!; vm_compute; reflexivity.
Defined.

(** ** Paths *)

(** C5.  Path resolution.  [namei] follows the elements of the path, cut to DIRSIZ
    characters, from the root or the current directory through the directories on
    disk, and returns the inode reached with one more reference, or nothing if a name
    is not bound or an element before the last is not a directory.  [nameiparent]
    does so for all elements but the last, which it returns.  Every other reference
    is given back, no inode stays locked and nothing is written; neither panics
    while two entries of the inode cache are free. *)
Theorem namei_correct pid devread cwd path m t : walking m t -> live (sb m) (view t) ROOTINO -> (cwd < length (icache m))%nat ->
  0 < i_ref (ip_at cwd m) -> roomy m ->
  let names := map (take DIRSIZ) (elements path) in
  let i0 := origin cwd m path in
  match follow (sb m) (view t) i0 names with
  | Some i => exists ip m' t', run_tx (namei pid devread cwd path) (m, t) = Ok (Some ip) (m', t') /\
      reads t t' /\ cache_ok m' t' /\ i_inum (ip_at ip m') = i /\ refs (one ip) m m'
  | None => exists m' t', run_tx (namei pid devread cwd path) (m, t) = Ok None (m', t') /\
      reads t t' /\ cache_ok m' t' /\ refs (fun _ => 0) m m'
  end /\
  forall es e, elements path = es ++ [e] ->
  match follow (sb m) (view t) i0 (map (take DIRSIZ) es) ≫= (fun d => if is_dir (sb m) (view t) d then Some d else None) with
  | Some d => exists ip m' t', run_tx (nameiparent pid devread cwd path) (m, t) = Ok (Some (ip, take DIRSIZ e)) (m', t') /\
      reads t t' /\ cache_ok m' t' /\ i_inum (ip_at ip m') = d /\ refs (one ip) m m'
  | None => exists m' t', run_tx (nameiparent pid devread cwd path) (m, t) = Ok None (m', t') /\
      reads t t' /\ cache_ok m' t' /\ refs (fun _ => 0) m m'
  end.
Proof.
  intros Hw Hroot Hcwd Hr Hroom names i0. split.
  - pose proof (namex_run pid devread cwd path false m t Hw Hroot Hcwd Hr Hroom) as H. fold i0 in H. unfold names.
    rewrite <- (resolve_namei (sb m) (view t) i0 (elements path) []). unfold namei.
    destruct (resolve _ _ false _ _ _) as [[i nm]|]; cbn [fmap option_fmap option_map fst].
    + destruct H as (ip & m' & t' & E & Hl & Hc & _ & _ & Hi & Hrf). exists ip, m', t'. by rewrite (run_tx_bind_ok _ _ _ _ _ E).
    + destruct H as (m' & t' & E & H). exists m', t'. by rewrite (run_tx_bind_ok _ _ _ _ _ E).
  - intros es e Hes. pose proof (namex_run pid devread cwd path true m t Hw Hroot Hcwd Hr Hroom) as H. fold i0 in H.
    rewrite Hes, resolve_parent in H. unfold nameiparent. destruct (follow _ _ _ _) as [d|]; cbn [mbind option_bind] in *.
    + destruct (is_dir _ _ d).
      * destruct H as (ip & m' & t' & E & Hl & Hc & _ & _ & Hi & Hrf). by exists ip, m', t'.
      * destruct H as (m' & t' & E & H). by exists m', t'.
    + destruct H as (m' & t' & E & H). by exists m', t'.
Qed.

Lemma namei_correct_witness :
  (exists ip m' t', run_tx (namei 7 (fun _ => None) 0 (cs "/.//note")) (Small.mem, Small.start) = Ok (Some ip) (m', t') /\
     i_inum (ip_at ip m') = 2 /\ refs (one ip) Small.mem m') /\
  (exists ip m' t', run_tx (nameiparent 7 (fun _ => None) 0 (cs "./new")) (Small.mem, Small.start) = Ok (Some (ip, cs "new")) (m', t') /\
     i_inum (ip_at ip m') = 1 /\ refs (one ip) Small.mem m') /\
  (exists m' t', run_tx (namei 7 (fun _ => None) 0 (cs "note/x")) (Small.mem, Small.start) = Ok None (m', t') /\
     refs (fun _ => 0) Small.mem m').
Proof.
  assert (Hc : (0 < length (icache Small.mem))%nat) by (cbn; lia). assert (Hr : 0 < i_ref (ip_at 0 Small.mem)) by done.
  assert (E1 : follow Small.sblock Small.disk 1 (map (take DIRSIZ) (elements (cs "/.//note"))) = Some 2) by (vm_compute; reflexivity).
  assert (E2 : follow Small.sblock Small.disk 1 (map (take DIRSIZ) [cs "."]) ≫=
    (fun d => if is_dir Small.sblock Small.disk d then Some d else None) = Some 1) by (vm_compute; reflexivity).
  assert (E3 : follow Small.sblock Small.disk 1 (map (take DIRSIZ) (elements (cs "note/x"))) = None) by (vm_compute; reflexivity).
  assert (Es : elements (cs "./new") = [cs "."] ++ [cs "new"]) by (vm_compute; reflexivity).
  pose proof (fun path => namei_correct 7 (fun _ => None) 0 path Small.mem Small.start Small.walking_small
    (Small.live_small 1 (or_introl eq_refl)) Hc Hr Small.roomy_small) as H. cbv zeta in H.
  change (sb Small.mem) with Small.sblock in H. change (view Small.start) with Small.disk in H.
  split_and!.
  - destruct (H (cs "/.//note")) as [H1 _]. change (origin 0 Small.mem (cs "/.//note")) with 1 in H1. rewrite E1 in H1.
    destruct H1 as (ip & m' & t' & E & _ & _ & Hi & Hrf). exists ip, m', t'. exact (conj E (conj Hi Hrf)).
  - destruct (H (cs "./new")) as [_ H1]. specialize (H1 _ _ Es). change (origin 0 Small.mem (cs "./new")) with 1 in H1. rewrite E2 in H1.
    destruct H1 as (ip & m' & t' & E & _ & _ & Hi & Hrf). exists ip, m', t'. exact (conj E (conj Hi Hrf)).
  - destruct (H (cs "note/x")) as [H1 _]. change (origin 0 Small.mem (cs "note/x")) with 1 in H1. rewrite E3 in H1.
    destruct H1 as (m' & t' & E & _ & _ & Hrf). exists m', t'. exact (conj E Hrf).
Defined.
