(* ===== verification/CString.v ===== *)
(** * Byte and string functions (system/runtime/string.c, include/x86.h)

    The functions work on an address space that is an array of bytes, which the
    user library of [ULib] shares.  Loops bounded by a count recurse on it; loops that
    stop at a NUL recurse on the size of the address space and return [None]
    if they would run past its end. *)

From S2P Require Import Prelude.

Definition load (m : list Z) (a : Z) : Z := aget 0 m a.
Definition store (m : list Z) (a v : Z) : list Z := aset m a (u8 v).

(** [rep stosb] and [rep stosl] (include/x86.h). *)
Fixpoint stosb (cnt : nat) (addr data : Z) (m : list Z) : list Z :=
  match cnt with
  | O => m
  | S k => stosb k (addr + 1) data (store m addr data)
  end.

Definition store_long (m : list Z) (a v : Z) : list Z :=
  store (store (store (store m a v) (a + 1) (Z.shiftr v 8)) (a + 2) (Z.shiftr v 16))
    (a + 3) (Z.shiftr v 24).

Fixpoint stosl (cnt : nat) (addr data : Z) (m : list Z) : list Z :=
  match cnt with
  | O => m
  | S k => stosl k (addr + 4) data (store_long m addr data)
  end.

(** [while(n-- > 0) *d++ = *s++;] *)
Fixpoint copy_up (n : nat) (d s : Z) (m : list Z) : list Z :=
  match n with
  | O => m
  | S k => copy_up k (d + 1) (s + 1) (store m d (load m s))
  end.

(** [while(n-- > 0) *--d = *--s;] *)
Fixpoint copy_down (n : nat) (d s : Z) (m : list Z) : list Z :=
  match n with
  | O => m
  | S k => copy_down k (d - 1) (s - 1) (store m (d - 1) (load m (s - 1)))
  end.

Module KString.

Definition memset (dst c n : Z) (m : list Z) : list Z :=
  if (Z.rem (s32 dst) 4 =? 0) && (n mod 4 =? 0)
  then
    let c := Z.land c 255 in
    stosl (Z.to_nat (n / 4)) dst
      (Z.lor (Z.lor (Z.lor (Z.shiftl c 24) (Z.shiftl c 16)) (Z.shiftl c 8)) c) m
  else stosb (Z.to_nat n) dst c m.

Fixpoint memcmp (n : nat) (s1 s2 : Z) (m : list Z) : Z :=
  match n with
  | O => 0
  | S k =>
      if negb (load m s1 =? load m s2) then load m s1 - load m s2
      else memcmp k (s1 + 1) (s2 + 1) m
  end.

Definition memmove (dst src n : Z) (m : list Z) : list Z :=
  if (src <? dst) && (src + n >? dst)
  then copy_down (Z.to_nat n) (dst + n) (src + n) m
  else copy_up (Z.to_nat n) dst src m.

Definition memcpy (dst src n : Z) (m : list Z) : list Z := memmove dst src n m.

Fixpoint strncmp (n : nat) (p q : Z) (m : list Z) : Z :=
  match n with
  | O => 0
  | S k =>
      if negb (load m p =? 0) && (load m p =? load m q)
      then strncmp k (p + 1) (q + 1) m
      else load m p - load m q
  end.

(** [while(n-- > 0) *s++ = 0;] *)
Fixpoint zero_fill (n : nat) (s : Z) (m : list Z) : list Z :=
  match n with
  | O => m
  | S k => zero_fill k (s + 1) (store m s 0)
  end.

(** The copying loop of [strncpy] goes on with the zero-filling loop; the test
    of the copying loop that fails by [n-- > 0] leaves a negative [n]. *)
Fixpoint strncpy_loop (n : nat) (s t : Z) (m : list Z) : list Z :=
  match n with
  | O => m
  | S k =>
      let c := load m t in
      let m := store m s c in
      if c =? 0 then zero_fill k (s + 1) m else strncpy_loop k (s + 1) (t + 1) m
  end.

Definition strncpy (s t n : Z) (m : list Z) : list Z := strncpy_loop (Z.to_nat n) s t m.

(** [while(--n > 0 && ( *s++ = *t++ ) != 0);]: the final [s]. *)
Fixpoint safestrcpy_loop (k : nat) (s t : Z) (m : list Z) : Z * list Z :=
  match k with
  | O => (s, m)
  | S k' =>
      let c := load m t in
      let m := store m s c in
      if c =? 0 then (s + 1, m) else safestrcpy_loop k' (s + 1) (t + 1) m
  end.

Definition safestrcpy (s t n : Z) (m : list Z) : list Z :=
  if n <=? 0 then m
  else let '(s', m') := safestrcpy_loop (Z.to_nat (n - 1)) s t m in store m' s' 0.

Fixpoint strlen_loop (fuel : nat) (s n : Z) (m : list Z) : option Z :=
  match fuel with
  | O => None
  | S f => if load m (s + n) =? 0 then Some n else strlen_loop f s (n + 1) m
  end.

Definition strlen (s : Z) (m : list Z) : option Z := strlen_loop (length m) s 0 m.

End KString.


(** [l] lies at [a], followed by a NUL. *)
Definition bytes_at (m : list Z) (a : Z) (l : list Z) : Prop :=
  forall i x, l !! i = Some x -> load m (a + Z.of_nat i) = x.

Definition cstr (m : list Z) (a : Z) (l : list Z) : Prop :=
  0 <= a /\ a + Z.of_nat (length l) < Z.of_nat (length m) /\
  Forall (fun c => 0 < c < 256) l /\ bytes_at m a (l ++ [0]).

(** The value of a string of decimal digits. *)
Definition digits_value (l : list Z) : Z := foldl (fun n c => n * 10 + (c - 48)) 0 l.

(** ** Memory lemmas *)

Lemma length_store m a v : length (store m a v) = length m.
Proof. apply length_aset. Qed.

Lemma load_store m a v b : 0 <= a < Z.of_nat (length m) ->
  load (store m a v) b = if decide (b = a) then u8 v else load m b.
Proof.
  intros Ha. unfold load, store. case_decide as E.
  - subst b. by apply aget_aset_eq.
  - by apply aget_aset_ne.
Qed.

Lemma store_out m a v : ~ (0 <= a < Z.of_nat (length m)) -> store m a v = m.
Proof.
  intros H. unfold store, aset. destruct (Z.ltb_spec a 0); [done|].
  apply list_insert_ge. lia.
Qed.

Definition mem_ok (m : list Z) : Prop := Forall byte_ok m.

Lemma load_byte m a : mem_ok m -> byte_ok (load m a).
Proof.
  intros H. unfold load, aget. destruct (a <? 0); [unfold byte_ok; lia|].
  destruct (m !! Z.to_nat a) as [x|] eqn:E; simpl; [|unfold byte_ok; lia].
  by apply (Forall_lookup_1 _ _ _ _ H E).
Qed.

Lemma u8_id z : byte_ok z -> u8 z = z.
Proof. unfold byte_ok, u8. intros. apply Z.mod_small. lia. Qed.

Lemma u8_byte z : byte_ok (u8 z).
Proof. unfold byte_ok, u8. pose proof (Z.mod_pos_bound z (2 ^ 8)). lia. Qed.

Lemma store_mem_ok m a v : mem_ok m -> mem_ok (store m a v).
Proof.
  intros H. unfold store, aset. destruct (a <? 0); [done|].
  apply Forall_insert; [done|]. apply u8_byte.
Qed.

#[export] Hint Resolve store_mem_ok load_byte u8_byte : dave.
#[export] Hint Rewrite length_store : len.

Lemma length_copy_up n d s m : length (copy_up n d s m) = length m.
Proof. revert d s m. induction n as [|n IH]; intros; simpl; [done|]. by rewrite IH, length_store. Qed.

Lemma load_copy_up n d s m a : mem_ok m -> 0 <= d -> d + Z.of_nat n <= Z.of_nat (length m) ->
  d <= s \/ s + Z.of_nat n <= d ->
  load (copy_up n d s m) a =
    if decide (d <= a < d + Z.of_nat n) then load m (s + (a - d)) else load m a.
Proof.
  revert d s m. induction n as [|n IH]; intros d s m Hm Hd Hl Hov; simpl.
  { rewrite decide_False by lia. done. }
  rewrite IH; [|auto with dave|lia|rewrite length_store; lia|lia].
  assert (0 <= d < Z.of_nat (length m)) as Hdr by lia.
  rewrite !(load_store m d) by done. rewrite (u8_id (load m s)) by auto with dave.
  repeat case_decide; try lia; try done; f_equal; lia.
Qed.

Lemma length_copy_down n d s m : length (copy_down n d s m) = length m.
Proof. revert d s m. induction n as [|n IH]; intros; simpl; [done|]. by rewrite IH, length_store. Qed.

Lemma load_copy_down n d s m a : mem_ok m -> 0 <= d - Z.of_nat n -> d <= Z.of_nat (length m) ->
  s <= d ->
  load (copy_down n d s m) a =
    if decide (d - Z.of_nat n <= a < d) then load m (s + (a - d)) else load m a.
Proof.
  revert d s m. induction n as [|n IH]; intros d s m Hm Hd Hl Hov; simpl.
  { rewrite decide_False by lia. done. }
  rewrite IH; [|auto with dave|lia|rewrite length_store; lia|lia].
  assert (0 <= d - 1 < Z.of_nat (length m)) as Hdr by lia.
  rewrite !(load_store m (d - 1)) by done. rewrite (u8_id (load m (s - 1))) by auto with dave.
  repeat case_decide; try lia; try done; f_equal; lia.
Qed.

Lemma length_stosb n a c m : length (stosb n a c m) = length m.
Proof. revert a m. induction n as [|n IH]; intros; simpl; [done|]. by rewrite IH, length_store. Qed.

Lemma load_stosb n a c m b : 0 <= a -> a + Z.of_nat n <= Z.of_nat (length m) ->
  load (stosb n a c m) b = if decide (a <= b < a + Z.of_nat n) then u8 c else load m b.
Proof.
  revert a m. induction n as [|n IH]; intros a m Ha Hl; simpl.
  { rewrite decide_False by lia. done. }
  rewrite IH by (rewrite ?length_store; lia). rewrite load_store by lia.
  repeat case_decide; lia || done.
Qed.

(** The word that [memset] stores has the byte in each of its places. *)
Lemma memset_word_bytes c : byte_ok c ->
  let w := Z.lor (Z.lor (Z.lor (Z.shiftl c 24) (Z.shiftl c 16)) (Z.shiftl c 8)) c in
  u8 w = c /\ u8 (Z.shiftr w 8) = c /\ u8 (Z.shiftr w 16) = c /\ u8 (Z.shiftr w 24) = c.
Proof.
  intros Hc. cbv zeta.
  assert (forallb (fun c => let w := Z.lor (Z.lor (Z.lor (Z.shiftl c 24) (Z.shiftl c 16)) (Z.shiftl c 8)) c in
    (u8 w =? c) && (u8 (Z.shiftr w 8) =? c) && (u8 (Z.shiftr w 16) =? c) && (u8 (Z.shiftr w 24) =? c))
    (map Z.of_nat (seq 0 256)) = true) as H by (vm_compute; reflexivity).
  rewrite forallb_forall in H. specialize (H c). cbv zeta in H.
  assert (In c (map Z.of_nat (seq 0 256))) as Hin.
  { apply in_map_iff. exists (Z.to_nat c). unfold byte_ok in Hc. rewrite in_seq. split; lia. }
  specialize (H Hin). rewrite !andb_true_iff, !Z.eqb_eq in H. tauto.
Qed.

Lemma load_store_long m a c b : byte_ok c -> 0 <= a -> a + 4 <= Z.of_nat (length m) ->
  let w := Z.lor (Z.lor (Z.lor (Z.shiftl c 24) (Z.shiftl c 16)) (Z.shiftl c 8)) c in
  load (store_long m a w) b = if decide (a <= b < a + 4) then c else load m b.
Proof.
  intros Hc Ha Hl w. unfold store_long. destruct (memset_word_bytes c Hc) as (H0 & H1 & H2 & H3).
  fold w in H0, H1, H2, H3. rewrite !load_store by (rewrite ?length_store; lia).
  rewrite H0, H1, H2, H3. repeat case_decide; lia || done.
Qed.

Lemma load_stosl n a c m b : byte_ok c -> 0 <= a -> a + 4 * Z.of_nat n <= Z.of_nat (length m) ->
  let w := Z.lor (Z.lor (Z.lor (Z.shiftl c 24) (Z.shiftl c 16)) (Z.shiftl c 8)) c in
  load (stosl n a w m) b = if decide (a <= b < a + 4 * Z.of_nat n) then c else load m b.
Proof.
  intros Hc. revert a m. induction n as [|n IH]; intros a m Ha Hl w; simpl.
  { rewrite decide_False by lia. done. }
  unfold w. rewrite IH by (unfold store_long; rewrite ?length_store; lia).
  rewrite load_store_long by (done || lia). repeat case_decide; lia || done.
Qed.

(** ** Strings in memory *)

Lemma bytes_at_cons m a x l : bytes_at m a (x :: l) <-> load m a = x /\ bytes_at m (a + 1) l.
Proof.
  unfold bytes_at. split.
  - intros H. split; [specialize (H O x eq_refl); by rewrite Z.add_0_r in H|].
    intros i y Hi. rewrite <- (H (S i) y Hi). f_equal. lia.
  - intros [H0 H] [|i] y Hi; simpl in Hi; simplify_eq; [by rewrite Z.add_0_r|].
    rewrite <- (H i y Hi). f_equal. lia.
Qed.

Lemma bytes_at_whole m : bytes_at m 0 m.
Proof. intros i x Hi. unfold load. rewrite Z.add_0_l, aget_nat, Hi. done. Qed.

Lemma bytes_at_app m a l l' :
  bytes_at m a (l ++ l') <-> bytes_at m a l /\ bytes_at m (a + Z.of_nat (length l)) l'.
Proof.
  revert a. induction l as [|x l IH]; intros a; simpl.
  - rewrite Z.add_0_r. split; [|tauto]. intros H. split; [|done]. intros i y Hi. done.
  - rewrite !bytes_at_cons, IH.
    replace (a + 1 + Z.of_nat (length l)) with (a + Z.of_nat (S (length l))) by lia. tauto.
Qed.

Lemma bytes_at_ext m m' a l :
  (forall i, a <= i < a + Z.of_nat (length l) -> load m' i = load m i) ->
  bytes_at m a l -> bytes_at m' a l.
Proof.
  intros H Hb i x Hi. pose proof (lookup_lt_Some _ _ _ Hi). rewrite H by lia. by apply Hb.
Qed.

Lemma cstr_nil m a : cstr m a [] <-> 0 <= a < Z.of_nat (length m) /\ load m a = 0.
Proof.
  unfold cstr. simpl. rewrite bytes_at_cons. split.
  - intros (? & ? & _ & ? & _). split; [lia|done].
  - intros [? ?]. split_and!; [lia|lia|constructor|done|]. intros i x Hi. done.
Qed.

Lemma cstr_cons m a c l : cstr m a (c :: l) <->
  0 <= a /\ load m a = c /\ 0 < c < 256 /\ cstr m (a + 1) l.
Proof.
  unfold cstr. cbn [app length]. rewrite bytes_at_cons, Forall_cons. split.
  - intros (? & ? & [? ?] & ? & ?). split_and!; try done; lia.
  - intros (? & ? & ? & ? & ? & ? & ?). split_and!; try done; lia.
Qed.

Lemma cstr_ext m m' a l : length m' = length m ->
  (forall i, a <= i <= a + Z.of_nat (length l) -> load m' i = load m i) -> cstr m a l -> cstr m' a l.
Proof.
  intros Hlen H (H1 & H2 & H3 & H4). split_and!; [done|lia|done|].
  eapply bytes_at_ext; [|done]. intros i Hi. apply H. rewrite length_app in Hi. simpl in Hi. lia.
Qed.

Lemma cstr_store m a l b v : (b < a \/ a + Z.of_nat (length l) < b) ->
  cstr m a l -> cstr (store m b v) a l.
Proof.
  intros Hb H. destruct (decide (0 <= b < Z.of_nat (length m))) as [Hr|Hr].
  - eapply cstr_ext; [apply length_store| |done]. intros i Hi. rewrite load_store by done.
    by rewrite decide_False by lia.
  - by rewrite store_out by done.
Qed.

(** ** [safestrcpy] and [strncpy] *)

Lemma safestrcpy_loop_spec k s t l m :
  cstr m t l -> 0 <= s -> s + Z.of_nat k < Z.of_nat (length m) ->
  (s + Z.of_nat k < t \/ t + Z.of_nat (length l) < s) ->
  let '(s', m') := KString.safestrcpy_loop k s t m in
  length m' = length m /\ bytes_at m' s (take k (l ++ [0])) /\
  s' = s + Z.of_nat (length (take k (l ++ [0]))) /\
  (forall a, a < s \/ s + Z.of_nat k <= a -> load m' a = load m a).
Proof.
  revert s t l m. induction k as [|k IH]; intros s t l m Hc Hs Hl Hd; simpl.
  { split_and!; [done| |simpl; lia|done]. rewrite take_0. intros i x Hi. done. }
  destruct l as [|c l].
  - apply cstr_nil in Hc as [Ht ->]. simpl. rewrite take_nil. simpl.
    split_and!; [apply length_store| |lia|].
    + apply bytes_at_cons. split; [|intros i x Hi; done].
      by rewrite load_store, decide_True by lia.
    + intros a Ha. by rewrite load_store, decide_False by lia.
  - apply cstr_cons in Hc as (Ht & Hload & Hcb & Hc). rewrite Hload.
    destruct (Z.eqb_spec c 0); [lia|]. simpl in Hd.
    specialize (IH (s + 1) (t + 1) l (store m s c)).
    destruct (KString.safestrcpy_loop k (s + 1) (t + 1) (store m s c)) as [s' m'].
    destruct IH as (I1 & I2 & I3 & I4).
    + apply cstr_store; [lia|done].
    + lia.
    + rewrite length_store. lia.
    + lia.
    + rewrite length_store in I1. split_and!; [done| |simpl; lia|].
      * apply bytes_at_cons. split; [|done].
        rewrite I4 by lia. rewrite load_store, decide_True by lia. apply u8_id. unfold byte_ok. lia.
      * intros a Ha. rewrite I4 by lia. by rewrite load_store, decide_False by lia.
Qed.

Lemma bytes_at_take m a k l : bytes_at m a l -> bytes_at m a (take k l).
Proof. intros H i x Hi. apply lookup_take_Some in Hi as [Hi _]. by apply H. Qed.

(** [safestrcpy] leaves in its destination the source string cut to
    [n - 1] bytes, always NUL-terminated, and writes nothing outside the [n]
    bytes of the destination. *)
Theorem safestrcpy_correct s t n l m :
  0 < n -> cstr m t l -> 0 <= s -> s + n <= Z.of_nat (length m) ->
  (s + n <= t \/ t + Z.of_nat (length l) < s) ->
  let m' := KString.safestrcpy s t n m in
  cstr m' s (take (Z.to_nat (n - 1)) l) /\
  (forall a, a < s \/ s + n <= a -> load m' a = load m a).
Proof.
  intros Hn Hc Hs Hl Hd. unfold KString.safestrcpy. destruct (Z.leb_spec n 0); [lia|].
  pose proof (safestrcpy_loop_spec (Z.to_nat (n - 1)) s t l m Hc Hs ltac:(lia) ltac:(lia)) as H1.
  destruct (KString.safestrcpy_loop _ s t m) as [s' m']. destruct H1 as (I1 & I2 & I3 & I4).
  set (k := Z.to_nat (n - 1)) in *. destruct Hc as (_ & _ & Hf & _).
  split.
  - destruct (decide (length l < k)%nat) as [Hk|Hk].
    + rewrite take_ge in I2, I3 by (rewrite length_app; simpl; lia). rewrite take_ge by lia.
      rewrite length_app in I3. simpl in I3.
      apply cstr_store; [lia|]. split_and!; [done|lia|done|done].
    + rewrite take_app_le in I2, I3 by lia. rewrite length_take in I3.
      split_and!; [done|rewrite length_store, length_take; lia|by apply Forall_take|].
      apply bytes_at_app. rewrite length_take, <- I3. split.
      * eapply bytes_at_ext; [|done]. intros i Hi. rewrite length_take in Hi.
        by rewrite load_store, decide_False by lia.
      * apply bytes_at_cons. split; [|intros i x Hi; done].
        by rewrite load_store, decide_True by lia.
  - intros a Ha. assert (length (take k (l ++ [0%Z])) <= k)%nat by (rewrite length_take; lia).
    rewrite load_store by lia. rewrite decide_False by lia. apply I4. lia.
Qed.

Lemma safestrcpy_correct_witness :
  let m := [104; 101; 108; 108; 111; 0; 9; 9; 9; 9] in
  let m' := KString.safestrcpy 6 0 4 m in
  cstr m' 6 (take 3 [104; 101; 108; 108; 111]) /\
  (forall a, a < 6 \/ 6 + 4 <= a -> load m' a = load m a).
Proof.
  apply (safestrcpy_correct 6 0 4 [104; 101; 108; 108; 111]); simpl; try lia.
  split_and!; simpl; [lia|lia| |].
  - repeat constructor; lia.
  - repeat (apply bytes_at_cons; split; [reflexivity|]). intros i x Hi. done.
Defined.

Lemma zero_fill_spec n s m : 0 <= s -> s + Z.of_nat n <= Z.of_nat (length m) ->
  length (KString.zero_fill n s m) = length m /\
  forall a, load (KString.zero_fill n s m) a =
    if decide (s <= a < s + Z.of_nat n) then 0 else load m a.
Proof.
  revert s m. induction n as [|n IH]; intros s m Hs Hl; simpl.
  { split; [done|]. intros a. by rewrite decide_False by lia. }
  destruct (IH (s + 1) (store m s 0)) as [H1 H2]; [lia|rewrite length_store; lia|].
  rewrite length_store in H1. split; [done|]. intros a. rewrite H2, load_store by lia.
  repeat case_decide; lia || done.
Qed.

Lemma strncpy_loop_spec n s t l m :
  cstr m t l -> 0 <= s -> s + Z.of_nat n <= Z.of_nat (length m) ->
  (s + Z.of_nat n <= t \/ t + Z.of_nat (length l) < s) ->
  let m' := KString.strncpy_loop n s t m in
  length m' = length m /\ bytes_at m' s (take n (l ++ replicate n 0)) /\
  (forall a, a < s \/ s + Z.of_nat n <= a -> load m' a = load m a).
Proof.
  revert s t l m. induction n as [|n IH]; intros s t l m Hc Hs Hl Hd; simpl.
  { rewrite take_0. split_and!; [done| |done]. intros i x Hi. done. }
  destruct l as [|c l].
  - apply cstr_nil in Hc as [Ht ->]. simpl.
    destruct (zero_fill_spec n (s + 1) (store m s 0)) as [H1 H2]; [lia|rewrite length_store; lia|].
    rewrite length_store in H1. split_and!; [done| |].
    + rewrite take_ge by (rewrite length_replicate; lia). apply bytes_at_cons. split.
      * rewrite H2, decide_False by lia. by rewrite load_store, decide_True by lia.
      * intros i x Hi. apply lookup_replicate in Hi as [-> Hi]. rewrite H2. by rewrite decide_True by lia.
    + intros a Ha. rewrite H2, decide_False by lia. by rewrite load_store, decide_False by lia.
  - apply cstr_cons in Hc as (Ht & Hload & Hcb & Hc). rewrite Hload.
    destruct (Z.eqb_spec c 0); [lia|]. simpl in Hd.
    destruct (IH (s + 1) (t + 1) l (store m s c)) as (I1 & I2 & I3).
    + apply cstr_store; [lia|done].
    + lia.
    + rewrite length_store. lia.
    + lia.
    + rewrite length_store in I1. split_and!; [done| |].
      * cbn [app]. rewrite firstn_cons. apply bytes_at_cons. split.
        -- rewrite I3 by lia. rewrite load_store, decide_True by lia. apply u8_id. unfold byte_ok. lia.
        -- change (0 :: replicate n 0) with (replicate (S n) 0). rewrite replicate_S_end, app_assoc. rewrite take_app_le; [done|].
           rewrite length_app, length_replicate. lia.
      * intros a Ha. rewrite I3 by lia. by rewrite load_store, decide_False by lia.
Qed.

(** [memset] stores the low byte of [c] at the [n] addresses from [dst]
    and nowhere else, whether it works by words or by bytes. *)
Theorem memset_correct dst c n m a :
  0 <= n -> 0 <= dst -> dst + n <= Z.of_nat (length m) ->
  load (KString.memset dst c n m) a = if decide (dst <= a < dst + n) then u8 c else load m a.
Proof.
  intros Hn Hd Hl. unfold KString.memset.
  assert (Z.land c 255 = u8 c) as Ec by (unfold u8; change 255 with (Z.ones 8); by rewrite Z.land_ones).
  destruct (_ && (n mod 4 =? 0)) eqn:E.
  - rewrite andb_true_iff, (Z.eqb_eq (n mod 4)) in E. destruct E as [_ E].
    assert (n = 4 * (n / 4)) as En by (pose proof (Z.div_mod n 4); lia).
    cbv zeta. rewrite Ec, load_stosl by (auto with dave || lia).
    rewrite Z2Nat.id by lia. rewrite <- En. done.
  - rewrite load_stosb by lia. by rewrite Z2Nat.id by lia.
Qed.

Lemma memset_correct_witness :
  load (KString.memset 4 (-1) 8 (replicate 16 0)) 5 = 255.
Proof. rewrite (memset_correct 4 (-1) 8 (replicate 16 0) 5) by (simpl; lia). reflexivity. Defined.
