(* ===== verification/ULib.v ===== *)
(** * The user library's string functions (user/lib/ulib.c)

    The same memory as [CString]; functions of the same name as the kernel's
    differ from them (the user library's [memmove] copies forwards only). *)

From S2P Require Import Prelude CString.

Module ULib.

Fixpoint strcpy_loop (fuel : nat) (s t : Z) (m : list Z) : option (list Z) :=
  match fuel with
  | O => None
  | S f =>
      let c := load m t in
      let m := store m s c in
      if c =? 0 then Some m else strcpy_loop f (s + 1) (t + 1) m
  end.

Definition strcpy (s t : Z) (m : list Z) : option (list Z) := strcpy_loop (length m) s t m.

Fixpoint strcmp_loop (fuel : nat) (p q : Z) (m : list Z) : option Z :=
  match fuel with
  | O => None
  | S f =>
      if negb (load m p =? 0) && (load m p =? load m q)
      then strcmp_loop f (p + 1) (q + 1) m
      else Some (load m p - load m q)
  end.

Definition strcmp (p q : Z) (m : list Z) : option Z := strcmp_loop (length m) p q m.

Fixpoint strlen_loop (fuel : nat) (s n : Z) (m : list Z) : option Z :=
  match fuel with
  | O => None
  | S f => if load m (s + n) =? 0 then Some n else strlen_loop f s (n + 1) m
  end.

Definition strlen (s : Z) (m : list Z) : option Z := u32 <$> strlen_loop (length m) s 0 m.

Definition memset (dst c n : Z) (m : list Z) : list Z := stosb (Z.to_nat n) dst c m.

(** [Some 0] is the null pointer. *)
Fixpoint strchr_loop (fuel : nat) (s c : Z) (m : list Z) : option Z :=
  match fuel with
  | O => None
  | S f =>
      if load m s =? 0 then Some 0
      else if load m s =? c then Some s
      else strchr_loop f (s + 1) c m
  end.

Definition strchr (s c : Z) (m : list Z) : option Z := strchr_loop (length m) s c m.

(** [gets] on the bytes that [read(0, &c, 1)] will deliver; an exhausted input
    is a read that returns less than one.  [k] counts the room [max - 1 - i]. *)
Fixpoint gets_loop (k : nat) (i buf : Z) (input : list Z) (m : list Z) : Z * list Z * list Z :=
  match k, input with
  | O, _ => (i, input, m)
  | S _, [] => (i, [], m)
  | S k', c :: input' =>
      let m := store m (buf + i) c in
      if (c =? 10) || (c =? 13) then (i + 1, input', m) else gets_loop k' (i + 1) buf input' m
  end.

Definition gets (buf max : Z) (input : list Z) (m : list Z) : list Z * list Z :=
  let '(i, input', m') := gets_loop (Z.to_nat (max - 1)) 0 buf input m in
  (input', store m' (buf + i) 0).

(** The multiplication and addition of [int]s wrap. *)
Fixpoint atoi_loop (fuel : nat) (s n : Z) (m : list Z) : option Z :=
  match fuel with
  | O => None
  | S f =>
      let c := s8 (load m s) in
      if (48 <=? c) && (c <=? 57)
      then atoi_loop f (s + 1) (s32 (n * 10 + c - 48)) m
      else Some n
  end.

Definition atoi (s : Z) (m : list Z) : option Z := atoi_loop (length m) s 0 m.

Definition memmove (vdst vsrc n : Z) (m : list Z) : list Z := copy_up (Z.to_nat n) vdst vsrc m.

End ULib.

(** [memmove] copies [n] bytes whatever the overlap of source and
    destination, and changes no other byte; the user library's copies them
    correctly only when the destination does not start inside the source. *)
Theorem memmove_correct dst src n m :
  mem_ok m -> 0 <= n -> 0 <= dst -> dst + n <= Z.of_nat (length m) ->
  0 <= src -> src + n <= Z.of_nat (length m) ->
  length (KString.memmove dst src n m) = length m /\
  (forall a, load (KString.memmove dst src n m) a =
     if decide (dst <= a < dst + n) then load m (src + (a - dst)) else load m a) /\
  (~ (src < dst < src + n) -> ULib.memmove dst src n m = KString.memmove dst src n m).
Proof.
  intros Hm Hn Hd Hdl Hs Hsl. unfold KString.memmove, ULib.memmove.
  destruct ((src <? dst) && (src + n >? dst)) eqn:E.
  - rewrite andb_true_iff, Z.ltb_lt, Z.gtb_lt in E. split_and!.
    + apply length_copy_down.
    + intros a. rewrite load_copy_down by (done || lia). rewrite Z2Nat.id by lia.
      repeat case_decide; try lia; try done; f_equal; lia.
    + intros H. lia.
  - rewrite andb_false_iff, Z.ltb_ge, Z.gtb_ltb, Z.ltb_ge in E. split_and!.
    + apply length_copy_up.
    + intros a. rewrite load_copy_up by (done || lia). by rewrite Z2Nat.id by lia.
    + done.
Qed.

Lemma memmove_correct_witness :
  let m := [1; 2; 3; 4; 5; 6] in
  length (KString.memmove 2 0 4 m) = length m /\
  (forall a, load (KString.memmove 2 0 4 m) a =
     if decide (2 <= a < 2 + 4) then load m (0 + (a - 2)) else load m a) /\
  (~ (0 < 2 < 0 + 4) -> ULib.memmove 2 0 4 m = KString.memmove 2 0 4 m).
Proof.
  apply memmove_correct; simpl; try lia. repeat constructor; unfold byte_ok; lia.
Defined.

(** The user library's [memmove] is not a [memmove]: on an overlapping
    forward move it repeats the bytes it has just written. *)
Theorem user_memmove_overlap :
  KString.memmove 1 0 3 [1; 2; 3; 4] = [1; 1; 2; 3] /\
  ULib.memmove 1 0 3 [1; 2; 3; 4] = [1; 1; 1; 1].
Proof. split; reflexivity. Qed.

(** ** Comparisons and numbers *)

(** Lexicographic order of byte strings, as the difference of the first
    bytes that differ, a missing byte counting as 0. *)
Fixpoint lex_diff (p q : list Z) : Z :=
  match p, q with
  | x :: p', y :: q' => if x =? y then lex_diff p' q' else x - y
  | x :: _, [] => x
  | [], y :: _ => - y
  | [], [] => 0
  end.

Lemma lex_diff_zero p q :
  Forall (fun c => 0 < c < 256) p -> Forall (fun c => 0 < c < 256) q ->
  lex_diff p q = 0 <-> p = q.
Proof.
  intros Hp. revert q. induction Hp as [|x p Hx _ IH]; intros [|y q] Hq; simpl; try done.
  - apply Forall_cons in Hq as [? _]. split; [lia|done].
  - split; [lia|done].
  - apply Forall_cons in Hq as [? ?]. destruct (Z.eqb_spec x y) as [->|Hne].
    + rewrite IH by done. split; [by intros ->|by intros [= ->]].
    + split; [lia|]. intros [= -> _]. done.
Qed.

Lemma strcmp_loop_spec f p q lp lq m : cstr m p lp -> cstr m q lq -> (length lp < f)%nat ->
  ULib.strcmp_loop f p q m = Some (lex_diff lp lq).
Proof.
  revert p q lp lq. induction f as [|f IH]; intros p q lp lq Hp Hq Hf; [lia|]. simpl.
  destruct lp as [|x lp].
  - apply cstr_nil in Hp as [_ ->]. simpl. destruct lq as [|y lq].
    + apply cstr_nil in Hq as [_ ->]. done.
    + apply cstr_cons in Hq as (_ & -> & _). f_equal.
  - apply cstr_cons in Hp as (_ & -> & Hx & Hp). destruct (Z.eqb_spec x 0); [lia|]. simpl.
    destruct lq as [|y lq].
    + apply cstr_nil in Hq as [_ ->]. destruct (Z.eqb_spec x 0); [lia|]. f_equal. lia.
    + apply cstr_cons in Hq as (_ & -> & Hy & Hq). destruct (Z.eqb_spec x y); [|done].
      apply IH; [done|done|simpl in Hf; lia].
Qed.

Lemma strncmp_spec n p q lp lq m : cstr m p lp -> cstr m q lq ->
  KString.strncmp n p q m = lex_diff (take n lp) (take n lq).
Proof.
  revert p q lp lq. induction n as [|n IH]; intros p q lp lq Hp Hq; [by rewrite !take_0|]. simpl.
  destruct lp as [|x lp].
  - apply cstr_nil in Hp as [_ ->]. simpl. destruct lq as [|y lq].
    + apply cstr_nil in Hq as [_ ->]. done.
    + apply cstr_cons in Hq as (_ & -> & _). done.
  - apply cstr_cons in Hp as (_ & -> & Hx & Hp). destruct (Z.eqb_spec x 0); [lia|].
    destruct lq as [|y lq]; simpl.
    + apply cstr_nil in Hq as [_ ->]. destruct (Z.eqb_spec x 0); [lia|]. lia.
    + apply cstr_cons in Hq as (_ & -> & Hy & Hq). destruct (Z.eqb_spec x y); [|done].
      by apply IH.
Qed.

(** [strcmp] of two NUL-terminated strings, and [strncmp] of their first
    [n] bytes, is 0 exactly when they are equal; otherwise it has the sign of
    the lexicographic comparison. *)
Theorem strcmp_correct p q lp lq n m : cstr m p lp -> cstr m q lq ->
  ULib.strcmp p q m = Some (lex_diff lp lq) /\
  (ULib.strcmp p q m = Some 0 <-> lp = lq) /\
  KString.strncmp n p q m = lex_diff (take n lp) (take n lq) /\
  (KString.strncmp n p q m = 0 <-> take n lp = take n lq).
Proof.
  intros Hp Hq. assert (ULib.strcmp p q m = Some (lex_diff lp lq)) as E.
  { apply strcmp_loop_spec; [done|done|]. destruct Hp as (? & ? & _). lia. }
  rewrite E, (strncmp_spec n p q lp lq m Hp Hq).
  destruct Hp as (_ & _ & Hp & _), Hq as (_ & _ & Hq & _).
  split_and!; [done| |done|].
  - rewrite <- lex_diff_zero by done. split; [by intros [= ->]|by intros ->].
  - apply lex_diff_zero; by apply Forall_take.
Qed.

Lemma strcmp_correct_witness :
  let m := [97; 98; 0; 97; 99; 0] in
  ULib.strcmp 0 3 m = Some (lex_diff [97; 98] [97; 99]) /\
  (ULib.strcmp 0 3 m = Some 0 <-> [97; 98] = [97; 99]) /\
  KString.strncmp 1 0 3 m = lex_diff (take 1 [97; 98]) (take 1 [97; 99]) /\
  (KString.strncmp 1 0 3 m = 0 <-> take 1 [97; 98] = take 1 [97; 99]).
Proof.
  apply strcmp_correct; (split_and!; simpl; [lia|lia|repeat constructor; lia|]);
    repeat (apply bytes_at_cons; split; [reflexivity|]); intros i x Hi; done.
Defined.

Lemma foldl_digits l n : foldl (fun n c => n * 10 + (c - 48)) n l =
  n * 10 ^ Z.of_nat (length l) + digits_value l.
Proof.
  unfold digits_value. revert n. induction l as [|c l IH]; intros n; [simpl; lia|].
  cbn [foldl length]. rewrite (IH (n * 10 + (c - 48))), (IH (0 * 10 + (c - 48))).
  rewrite Nat2Z.inj_succ, Z.pow_succ_r by lia. lia.
Qed.

Definition is_digit (c : Z) : Prop := 48 <= c <= 57.

Lemma digits_value_nonneg l : Forall is_digit l -> 0 <= digits_value l.
Proof.
  intros H. induction H as [|c l Hc _ IH]; [done|]. unfold digits_value in *. cbn [foldl].
  rewrite foldl_digits. unfold digits_value, is_digit in *.
  pose proof (Z.pow_nonneg 10 (Z.of_nat (length l))). nia.
Qed.

Lemma atoi_loop_spec f s n l r m : Forall is_digit l -> bytes_at m s (l ++ [r]) ->
  0 <= r < 256 -> ~ is_digit r -> (length l < f)%nat ->
  0 <= n -> n * 10 ^ Z.of_nat (length l) + digits_value l < 2 ^ 31 ->
  ULib.atoi_loop f s n m = Some (n * 10 ^ Z.of_nat (length l) + digits_value l).
Proof.
  intros Hl. revert f s n. induction Hl as [|c l Hc Hl IH]; intros f s n Hb Hr0 Hr Hf Hn Hlt.
  - destruct f as [|f]; [simpl in Hf; lia|]. cbn [ULib.atoi_loop].
    simpl in Hb. apply bytes_at_cons in Hb as [-> _].
    assert ((48 <=? s8 r) && (s8 r <=? 57) = false) as ->.
    { apply andb_false_iff. rewrite Z.leb_gt, Z.leb_gt. unfold is_digit in Hr.
      destruct (decide (r < 128)).
      - rewrite s8_id by lia. lia.
      - left. unfold s8. replace (r + 2 ^ 7) with (r - 128 + 1 * 2 ^ 8) by lia.
        rewrite Z.mod_add, Z.mod_small by lia. lia. }
    f_equal. unfold digits_value. simpl. lia.
  - destruct f as [|f]; [simpl in Hf; lia|]. cbn [ULib.atoi_loop].
    cbn [app] in Hb. apply bytes_at_cons in Hb as [-> Hb]. unfold is_digit in Hc.
    rewrite s8_id by lia. rewrite (proj2 (Z.leb_le 48 c)), (proj2 (Z.leb_le c 57)) by lia. cbn [andb].
    assert (n * 10 ^ Z.of_nat (length (c :: l)) + digits_value (c :: l)
      = (n * 10 + c - 48) * 10 ^ Z.of_nat (length l) + digits_value l) as E.
    { unfold digits_value at 1. cbn [foldl length]. rewrite foldl_digits.
      rewrite Nat2Z.inj_succ, Z.pow_succ_r by lia. lia. }
    rewrite E in *. pose proof (digits_value_nonneg l Hl).
    assert (1 <= 10 ^ Z.of_nat (length l)) by (apply (Z.pow_le_mono_r 10 0); lia).
    rewrite s32_id by nia. apply IH; [done|done|done|simpl in Hf; lia|lia|done].
Qed.

(** [atoi] of a run of decimal digits that fits an [int] is its value,
    whatever the byte that ends it. *)
Theorem atoi_correct s l r m : Forall is_digit l -> bytes_at m s (l ++ [r]) ->
  0 <= r < 256 -> ~ is_digit r -> (length l < length m)%nat -> digits_value l < 2 ^ 31 ->
  ULib.atoi s m = Some (digits_value l).
Proof.
  intros Hl Hb Hr0 Hr Hlen Hv. unfold ULib.atoi.
  rewrite (atoi_loop_spec (length m) s 0 l r m) by (done || lia). done.
Qed.

Lemma atoi_correct_witness : ULib.atoi 0 [52; 50; 10; 0] = Some (digits_value [52; 50]).
Proof.
  apply (atoi_correct 0 [52; 50] 10); try (unfold is_digit; simpl; lia).
  - repeat constructor; unfold is_digit; lia.
  - repeat (apply bytes_at_cons; split; [reflexivity|]). intros i x Hi. done.
  - reflexivity.
Defined.
