(* ===== verification/Pipe.v ===== *)
(** * Pipes (system/core/pipe.c)

    [struct pipe] is a ring of PIPESIZE bytes with two 32-bit counters that
    wrap.  [p->lock] is held from one sleep to the next, so the code between
    two sleeps is one step: [pipewrite] and [piperead] either finish or return
    what is left to do when the thread is woken.  The abstract pipe is a queue
    of bytes. *)

From S2P Require Import Prelude.

Definition PIPESIZE : Z := 512.

Module Pipe.

Record pipe := mkpipe {
  data : list Z;
  nread : Z;
  nwrite : Z;
  readopen : bool;
  writeopen : bool
}.

(** The fields that [pipealloc] sets; the page's contents are arbitrary. *)
Definition pipeinit (page : list Z) : pipe := mkpipe page 0 0 true true.

(** The new pipe, and whether its page is freed. *)
Definition pipeclose (p : pipe) (writable : bool) : pipe * bool :=
  let p := if writable
           then mkpipe (data p) (nread p) (nwrite p) (readopen p) false
           else mkpipe (data p) (nread p) (nwrite p) false (writeopen p) in
  (p, negb (readopen p) && negb (writeopen p)).

Inductive wresult :=
| WDone (p : pipe)                   (** returns [n] *)
| WErr (rest : list Z) (p : pipe)    (** returns -1, [rest] not written *)
| WSleep (rest : list Z) (p : pipe). (** sleeps with [rest] still to write *)

(** [p->data[p->nwrite++ % PIPESIZE] = c] *)
Definition push (c : Z) (p : pipe) : pipe :=
  mkpipe (aset (data p) (nwrite p mod PIPESIZE) c) (nread p) (u32 (nwrite p + 1))
    (readopen p) (writeopen p).

Fixpoint pipewrite (killed : bool) (addr : list Z) (p : pipe) : wresult :=
  match addr with
  | [] => WDone p
  | c :: addr' =>
      if nwrite p =? u32 (nread p + PIPESIZE)
      then if negb (readopen p) || killed then WErr addr p else WSleep addr p
      else pipewrite killed addr' (push c p)
  end.

Inductive rresult :=
| RDone (bs : list Z) (p : pipe)
| RErr (p : pipe)
| RSleep (p : pipe).

(** The copying loop. *)
Fixpoint read_loop (n : nat) (p : pipe) : list Z * pipe :=
  match n with
  | O => ([], p)
  | S k =>
      if nread p =? nwrite p then ([], p)
      else
        let c := aget 0 (data p) (nread p mod PIPESIZE) in
        let '(bs, p') := read_loop k
          (mkpipe (data p) (u32 (nread p + 1)) (nwrite p) (readopen p) (writeopen p)) in
        (c :: bs, p')
  end.

Definition piperead (killed : bool) (n : Z) (p : pipe) : rresult :=
  if (nread p =? nwrite p) && writeopen p
  then if killed then RErr p else RSleep p
  else let '(bs, p') := read_loop (Z.to_nat n) p in RDone bs p'.

(** The bytes in the ring, oldest first. *)
Definition contents (p : pipe) : list Z :=
  map (fun i => aget 0 (data p) (u32 (nread p + Z.of_nat i) mod PIPESIZE))
      (seq 0 (Z.to_nat (u32 (nwrite p - nread p)))).

Definition pipe_ok (p : pipe) : Prop :=
  length (data p) = Z.to_nat PIPESIZE /\ 0 <= nread p < 2 ^ 32 /\ 0 <= nwrite p < 2 ^ 32 /\
  u32 (nwrite p - nread p) <= PIPESIZE.

(** ** The pipe shared by its users *)

(** One step of some thread between two sleeps. *)
Inductive event :=
| EWrite (killed : bool) (addr : list Z)
| ERead (killed : bool) (n : Z)
| EClose (writable : bool).

(** The pipe with all the bytes written and read so far. *)
Record history := mkh { pip : pipe; written : list Z; received : list Z }.

Definition run_event (h : history) (e : event) : history :=
  match e with
  | EWrite killed addr =>
      match pipewrite killed addr (pip h) with
      | WDone p => mkh p (written h ++ addr) (received h)
      | WErr rest p | WSleep rest p => mkh p (written h ++ take (length addr - length rest) addr) (received h)
      end
  | ERead killed n =>
      match piperead killed n (pip h) with
      | RDone bs p => mkh p (written h) (received h ++ bs)
      | RErr p | RSleep p => mkh p (written h) (received h)
      end
  | EClose w => mkh (pipeclose (pip h) w).1 (written h) (received h)
  end.

(** ** Counter arithmetic *)

Lemma u32_mod_size z : u32 z mod PIPESIZE = z mod PIPESIZE.
Proof. unfold u32, PIPESIZE. symmetry. apply Znumtheory.Zmod_div_mod; [lia|lia|]. by exists (2 ^ 23). Qed.

Lemma nwrite_eq p : pipe_ok p -> nwrite p = u32 (nread p + u32 (nwrite p - nread p)).
Proof.
  intros (_ & Hr & Hw & _). rewrite u32_add_r. symmetry.
  replace (nread p + (nwrite p - nread p)) with (nwrite p) by lia. by apply u32_id.
Qed.

Lemma full_test p : pipe_ok p ->
  (nwrite p =? u32 (nread p + PIPESIZE)) = (u32 (nwrite p - nread p) =? PIPESIZE).
Proof.
  intros Hok. pose proof (nwrite_eq p Hok) as E. destruct Hok as (_ & Hr & Hw & Hd).
  apply eq_true_iff_eq. rewrite !Z.eqb_eq. split.
  - intros ->. rewrite u32_sub_l. replace (nread p + PIPESIZE - nread p) with PIPESIZE by lia. done.
  - intros Ed. by rewrite Ed in E.
Qed.

Lemma empty_test p : pipe_ok p -> (nread p =? nwrite p) = (u32 (nwrite p - nread p) =? 0).
Proof.
  intros Hok. pose proof (nwrite_eq p Hok) as E. destruct Hok as (_ & Hr & Hw & _).
  apply eq_true_iff_eq. rewrite !Z.eqb_eq. split.
  - intros ->. rewrite Z.sub_diag. done.
  - intros Ed. rewrite Ed, Z.add_0_r, u32_id in E by lia. done.
Qed.

Lemma length_contents p : length (contents p) = Z.to_nat (u32 (nwrite p - nread p)).
Proof. unfold contents. by rewrite length_map, length_seq. Qed.

Lemma contents_le p : pipe_ok p -> Z.of_nat (length (contents p)) <= PIPESIZE.
Proof.
  intros (_ & _ & _ & H). rewrite length_contents. pose proof (u32_range (nwrite p - nread p)). lia.
Qed.

Lemma push_spec c p : pipe_ok p -> Z.of_nat (length (contents p)) < PIPESIZE ->
  pipe_ok (push c p) /\ contents (push c p) = contents p ++ [c].
Proof.
  intros Hok Hlt. pose proof (nwrite_eq p Hok) as Ew. rewrite length_contents in Hlt.
  destruct Hok as (Hl & Hr & Hw & Hd). set (d := u32 (nwrite p - nread p)) in *.
  pose proof (u32_range (nwrite p - nread p)) as Hdr. fold d in Hdr.
  assert (u32 (u32 (nwrite p + 1) - nread p) = d + 1) as Ed.
  { rewrite u32_sub_l. replace (nwrite p + 1 - nread p) with (nwrite p - nread p + 1) by lia.
    rewrite <- u32_add_l. fold d. apply u32_id. unfold PIPESIZE in *. lia. }
  split.
  - pose proof (u32_range (nwrite p + 1)). unfold pipe_ok. cbn [data nread nwrite push].
    rewrite length_aset, Ed. split_and!; done || lia.
  - unfold contents. cbn [nread nwrite data push]. rewrite Ed. fold d.
    replace (Z.to_nat (d + 1)) with (S (Z.to_nat d)) by lia. rewrite seq_S, map_app. cbn [map].
    assert (0 <= nwrite p mod PIPESIZE < PIPESIZE) as Hm by (apply Z.mod_pos_bound; done).
    f_equal.
    + apply map_ext_in. intros i Hi. apply in_seq in Hi. apply aget_aset_ne.
      rewrite u32_mod_size. rewrite Ew, u32_mod_size. intros E.
      assert ((nread p + d - (nread p + Z.of_nat i)) mod PIPESIZE = 0) as E'
        by (rewrite Zminus_mod, E, Z.sub_diag; done).
      rewrite Z.mod_small in E' by (unfold PIPESIZE in *; lia). lia.
    + f_equal. simpl. rewrite Z2Nat.id by lia. rewrite <- Ew. apply aget_aset_eq.
      rewrite Hl. unfold PIPESIZE in *. lia.
Qed.

Lemma write_spec killed addr p : pipe_ok p ->
  let k := Nat.min (length addr) (Z.to_nat PIPESIZE - length (contents p)) in
  exists p', pipe_ok p' /\ contents p' = contents p ++ take k addr /\
    readopen p' = readopen p /\ writeopen p' = writeopen p /\
    pipewrite killed addr p =
      if decide (k = length addr) then WDone p'
      else if negb (readopen p) || killed then WErr (drop k addr) p' else WSleep (drop k addr) p'.
Proof.
  revert p. induction addr as [|c addr IH]; intros p Hok k.
  { exists p. split_and!; try done. simpl. by rewrite app_nil_r. }
  pose proof (contents_le p Hok) as Hle. pose proof (length_contents p) as Hlc.
  pose proof (u32_range (nwrite p - nread p)). cbn [pipewrite]. rewrite full_test by done.
  destruct (Z.eqb_spec (u32 (nwrite p - nread p)) PIPESIZE) as [E|E].
  - assert (k = O) as -> by (unfold k; lia).
    exists p. split_and!; try done. rewrite take_0. by rewrite app_nil_r.
  - destruct (push_spec c p Hok ltac:(lia)) as [Hok' Hc].
    destruct (IH (push c p) Hok') as (p' & H1 & H2 & H3 & H4 & H5). exists p'.
    rewrite Hc, length_app in H2, H5. cbn [length] in H2, H5.
    assert (k = S (Nat.min (length addr) (Z.to_nat PIPESIZE - (length (contents p) + 1)))) as ->
      by (unfold k; cbn [length]; lia).
    split_and!; [done| |done|done|].
    + rewrite H2, <- app_assoc. done.
    + rewrite H5. cbn [length drop]. repeat case_decide; try done; lia.
Qed.

Lemma read_loop_spec n p : pipe_ok p ->
  let '(bs, p') := read_loop n p in
  pipe_ok p' /\ bs = take n (contents p) /\ contents p' = drop n (contents p) /\
  readopen p' = readopen p /\ writeopen p' = writeopen p.
Proof.
  revert p. induction n as [|n IH]; intros p Hok; cbn [read_loop].
  { rewrite take_0, drop_0. done. }
  rewrite empty_test by done. pose proof (length_contents p) as Hlc.
  pose proof (u32_range (nwrite p - nread p)) as Hdr.
  destruct (Z.eqb_spec (u32 (nwrite p - nread p)) 0) as [E|E].
  - rewrite E in Hlc. destruct (contents p); [|done]. rewrite take_nil, drop_nil. done.
  - set (p1 := mkpipe _ _ _ _ _). destruct Hok as (Hl & Hr & Hw & Hd).
    assert (u32 (nwrite p - u32 (nread p + 1)) = u32 (nwrite p - nread p) - 1) as Ed.
    { rewrite u32_sub_r. replace (nwrite p - (nread p + 1)) with (nwrite p - nread p - 1) by lia.
      rewrite <- u32_sub_l. apply u32_id. lia. }
    assert (pipe_ok p1) as Hok1 
      by (pose proof (u32_range (nread p + 1)); unfold pipe_ok, p1; cbn [data nread nwrite];
          rewrite Ed; split_and!; done || lia).
    assert (contents p = aget 0 (data p) (nread p mod PIPESIZE) :: contents p1) as Ec.
    { unfold contents. cbn [nread nwrite data p1]. rewrite Ed.
      replace (Z.to_nat (u32 (nwrite p - nread p))) with (S (Z.to_nat (u32 (nwrite p - nread p) - 1))) by lia.
      cbn [seq map]. rewrite Z.add_0_r, u32_id by lia. f_equal.
      rewrite <- seq_shift, map_map. apply map_ext. intros i. rewrite u32_add_l. do 3 f_equal. lia. }
    specialize (IH p1 Hok1). destruct (read_loop n p1) as [bs p'].
    destruct IH as (I1 & I2 & I3 & I4 & I5). rewrite Ec. cbn [take drop].
    split_and!; [done|by rewrite I2|done|done|done].
Qed.

(** Nothing is lost, duplicated or reordered. *)
Definition hist_ok (h : history) : Prop :=
  pipe_ok (pip h) /\ written h = received h ++ contents (pip h).

Lemma run_event_ok h e : hist_ok h -> hist_ok (run_event h e).
Proof.
  intros [Hok Hw]. destruct e as [killed addr|killed n|w]; cbn [run_event].
  - destruct (write_spec killed addr (pip h) Hok) as (p' & H1 & H2 & _ & _ & ->).
    set (k := Nat.min _ _) in *. assert (k <= length addr)%nat by (unfold k; lia).
    case_decide as E.
    + split; [done|]. cbn. by rewrite Hw, H2, E, firstn_all, app_assoc.
    + assert (take (length addr - length (drop k addr)) addr = take k addr) as Et
        by (f_equal; rewrite length_drop; lia).
      destruct (negb _ || killed); (split; [done|]); cbn; by rewrite Hw, H2, Et, app_assoc.
  - unfold piperead. destruct (_ && _).
    + destruct killed; by split.
    + pose proof (read_loop_spec (Z.to_nat n) (pip h) Hok) as H.
      destruct (read_loop (Z.to_nat n) (pip h)) as [bs p']. destruct H as (H1 & -> & H3 & _).
      split; [done|]. cbn. by rewrite Hw, H3, <- app_assoc, take_drop.
  - destruct w; by split.
Qed.

End Pipe.
Import Pipe.

(** C24.  A pipe is a FIFO: after any sequence of steps of its readers and
    writers, with sleeps, kills and closes in any order and with the counters
    wrapping around, the bytes read are a prefix of the bytes written and the
    rest, at most PIPESIZE bytes, is in the ring. *)
Theorem pipe_fifo page es : length page = Z.to_nat PIPESIZE ->
  let h := foldl run_event (mkh (pipeinit page) [] []) es in
  written h = received h ++ contents (pip h) /\ Z.of_nat (length (contents (pip h))) <= PIPESIZE.
Proof.
  intros Hp h. assert (hist_ok h) as [Hok Hw].
  { assert (hist_ok (mkh (pipeinit page) [] [])) as H0 by (split; [split_and!; done|done]).
    unfold h. clear h. revert H0. generalize (mkh (pipeinit page) [] []).
    induction es as [|e es IH]; intros h0 H0; [done|]. simpl. apply IH. by apply run_event_ok. }
  split; [done|]. by apply contents_le.
Qed.

Lemma pipe_fifo_witness :
  let h := foldl run_event (mkh (pipeinit (replicate 512 0)) [] [])
    [EWrite false (replicate 600 7); ERead false 100; EWrite false (replicate 88 7); ERead true 10] in
  written h = received h ++ contents (pip h) /\ Z.of_nat (length (contents (pip h))) <= PIPESIZE.
Proof. apply (pipe_fifo (replicate 512 0)). reflexivity. Defined.

(** The calls of a pipe on every branch: a write stores as much as fits
    and returns, sleeps or fails according to what is left; a read returns the
    oldest bytes, sleeps or fails on an empty pipe that has a writer, and
    returns none (end of file) on an empty one that has no writer. *)
Theorem pipe_calls killed addr n p : pipe_ok p ->
  let room := (Z.to_nat PIPESIZE - length (contents p))%nat in
  (exists p', pipe_ok p' /\ contents p' = contents p ++ take room addr /\
    pipewrite killed addr p =
      if decide (length addr <= room)%nat then WDone p'
      else if negb (readopen p) || killed then WErr (drop room addr) p'
      else WSleep (drop room addr) p') /\
  piperead killed n p =
    (if bool_decide (contents p = []) && writeopen p
     then if killed then RErr p else RSleep p
     else RDone (take (Z.to_nat n) (contents p)) (read_loop (Z.to_nat n) p).2) /\
  contents (read_loop (Z.to_nat n) p).2 = drop (Z.to_nat n) (contents p).
Proof.
  intros Hok room. split_and!.
  - destruct (write_spec killed addr p Hok) as (p' & H1 & H2 & _ & _ & H5). fold room in H2, H5.
    exists p'. destruct (decide (length addr <= room)%nat) as [H|H].
    + rewrite Nat.min_l in H2, H5 by lia. rewrite decide_True in H5 by done.
      rewrite firstn_all in H2. rewrite (take_ge addr) by lia. done.
    + rewrite Nat.min_r in H2, H5 by lia. rewrite decide_False in H5 by lia. done.
  - unfold piperead. rewrite empty_test by done. pose proof (read_loop_spec (Z.to_nat n) p Hok) as H.
    destruct (read_loop (Z.to_nat n) p) as [bs p']. destruct H as (_ & -> & _).
    pose proof (length_contents p). pose proof (u32_range (nwrite p - nread p)).
    destruct (Z.eqb_spec (u32 (nwrite p - nread p)) 0) as [E|E].
    + rewrite bool_decide_eq_true_2; [done|]. apply nil_length_inv. lia.
    + rewrite bool_decide_eq_false_2; [done|]. intros Hn. rewrite Hn in *. simpl in *. lia.
  - pose proof (read_loop_spec (Z.to_nat n) p Hok) as H.
    destruct (read_loop (Z.to_nat n) p) as [bs p']. destruct H as (_ & _ & H & _). exact H.
Qed.

(** At a pipe whose counters are about to wrap. *)
Lemma pipe_calls_witness :
  let p := mkpipe (replicate 512 3) (2 ^ 32 - 2) 508 true true in
  (exists p', pipe_ok p' /\ contents p' = contents p ++ take 2 [1; 2; 3] /\
     pipewrite false [1; 2; 3] p = WSleep [3] p') /\
  piperead false 4 p = RDone (take 4 (contents p)) (read_loop 4 p).2 /\
  contents (read_loop 4 p).2 = drop 4 (contents p).
Proof.
  set (p := mkpipe (replicate 512 3) (2 ^ 32 - 2) 508 true true).
  assert (pipe_ok p) as Hok by (split_and!; vm_compute; congruence).
  exact (pipe_calls false [1; 2; 3] 4 p Hok).
Defined.
