(* ===== verification/Kalloc.v ===== *)
(** * The physical page allocator (system/memory/kalloc.c)

    Memory is a map from the kernel virtual address of a page to its 4096
    bytes.  The free list is threaded through the free pages themselves, as
    [struct run] has it: the first word of a free page is the address of the
    next.  [kmem.lock] makes each operation one step.  [kend], the first
    address after the kernel image, comes from the linker. *)

From S2P Require Import Prelude.

Definition PGSIZE : Z := 4096.
Definition KERNBASE : Z := 2147483648.      (** 0x80000000 *)
Definition EXTMEM : Z := 1048576.           (** 0x100000 *)
Definition PHYSTOP : Z := 234881024.        (** 0xE000000 *)
Definition DEVSPACE : Z := 4261412864.      (** 0xFE000000 *)
Definition V2P (a : Z) : Z := u32 (a - KERNBASE).
Definition P2V (a : Z) : Z := u32 (a + KERNBASE).
(** [~(PGSIZE-1)] on a [uint]. *)
Definition PGMASK : Z := 4294963200.
Definition PGROUNDUP (sz : Z) : Z := Z.land (u32 (sz + PGSIZE - 1)) PGMASK.
Definition PGROUNDDOWN (a : Z) : Z := Z.land a PGMASK.

Record kmem := mkkmem {
  use_lock : bool;
  freelist : Z;
  pages : gmap Z (list Z)
}.

(** The page that contains an address, and the word at it. *)
Definition page_base (a : Z) : Z := a - a mod PGSIZE.
Definition page_off (a : Z) : nat := Z.to_nat (a mod PGSIZE).
Definition page_at (a : Z) (s : kmem) : list Z := default [] (pages s !! page_base a).
Definition ld32 (a : Z) (s : kmem) : Z := get32 (page_off a) (page_at a s).
Definition set_page (a : Z) (d : list Z) (s : kmem) : kmem :=
  mkkmem (use_lock s) (freelist s) (<[page_base a := d]> (pages s)).
Definition st32 (a v : Z) (s : kmem) : kmem := set_page a (put32 (page_off a) v (page_at a s)) s.
Definition set_freelist (a : Z) (s : kmem) : kmem := mkkmem (use_lock s) a (pages s).

(** [memset(v, c, PGSIZE)] of a page. *)
Definition memset_page (v c : Z) (s : kmem) : kmem :=
  set_page v (replicate (Z.to_nat PGSIZE) (u8 c)) s.

Section Allocator.
Context (kend : Z).

Definition kfree (v : Z) : M kmem unit :=
  if negb (v mod PGSIZE =? 0) || (v <? kend) || (V2P v >=? PHYSTOP)
  then panic "kfree" else
  modify (memset_page v 1) ;;
  s ← get;
  modify (st32 v (freelist s)) ;;
  modify (set_freelist v).

Definition kalloc : M kmem Z :=
  s ← get;
  let r := freelist s in
  when (negb (r =? 0)) (put (set_freelist (ld32 r s) s)) ;;
  mret r.

Fixpoint freerange_loop (fuel : nat) (p vend : Z) : M kmem unit :=
  if p + PGSIZE <=? vend
  then match fuel with
       | O => nofuel
       | S f => kfree p ;; freerange_loop f (p + PGSIZE) vend
       end
  else mret tt.

Definition freerange (vstart vend : Z) : M kmem unit :=
  freerange_loop (Z.to_nat (vend / PGSIZE)) (PGROUNDUP vstart) vend.

Definition kinit1 (vstart vend : Z) : M kmem unit :=
  modify (fun s => mkkmem false (freelist s) (pages s)) ;;
  freerange vstart vend.

Definition kinit2 (vstart vend : Z) : M kmem unit :=
  freerange vstart vend ;;
  modify (fun s => mkkmem true (freelist s) (pages s)).

(** A page that [kfree] accepts. *)
Definition valid_page (v : Z) : Prop :=
  v mod PGSIZE = 0 /\ KERNBASE <= v /\ kend <= v /\ v < KERNBASE + PHYSTOP.

(** The pages on the free list, from the address [a]. *)
Fixpoint chain (s : kmem) (a : Z) (l : list Z) : Prop :=
  match l with
  | [] => a = 0
  | p :: l' => a = p /\ chain s (ld32 p s) l'
  end.

(** The free list is [l]: distinct valid pages that exist. *)
Definition free_list (s : kmem) (l : list Z) : Prop :=
  chain s (freelist s) l /\ NoDup l /\ Forall valid_page l /\
  forall p, valid_page p -> length (page_at p s) = Z.to_nat PGSIZE.

End Allocator.

(** ** Lemmas *)

Lemma page_base_id v : v mod PGSIZE = 0 -> page_base v = v.
Proof. unfold page_base. lia. Qed.

Lemma page_base_mod a : page_base a mod PGSIZE = 0.
Proof.
  unfold page_base. rewrite Zminus_mod, Z.mod_mod, Z.sub_diag by done. done.
Qed.

Lemma page_off_aligned v : v mod PGSIZE = 0 -> page_off v = O.
Proof. unfold page_off. by intros ->. Qed.

Lemma page_at_set a b d s : page_at b (set_page a d s) =
  if decide (page_base b = page_base a) then d else page_at b s.
Proof.
  unfold page_at, set_page. cbn [pages]. case_decide as E.
  - by rewrite E, lookup_insert_eq.
  - by rewrite lookup_insert_ne.
Qed.

Lemma ld32_set_ne a b d s : page_base b <> page_base a -> ld32 b (set_page a d s) = ld32 b s.
Proof. intros H. unfold ld32. by rewrite page_at_set, decide_False. Qed.

Lemma ld32_set_freelist a b s : ld32 b (set_freelist a s) = ld32 b s.
Proof. done. Qed.

Lemma free_chain_ext s s' a l :
  (forall p, p ∈ l -> ld32 p s' = ld32 p s) -> chain s a l -> chain s' a l.
Proof.
  revert a. induction l as [|p l IH]; intros a H; simpl; [done|].
  intros [-> Hc]. split; [done|]. rewrite H by set_solver. apply IH; [|done].
  intros q Hq. apply H. set_solver.
Qed.

Lemma valid_page_ne kend p q : valid_page kend p -> valid_page kend q -> p <> q ->
  page_base p <> page_base q.
Proof. intros (H1 & _) (H2 & _) Hne. by rewrite !page_base_id. Qed.

Lemma valid_page_pos kend p : valid_page kend p -> 0 < p.
Proof. intros (_ & H & _). unfold KERNBASE in H. lia. Qed.

Lemma kfree_test kend v : valid_page kend v ->
  negb (v mod PGSIZE =? 0) || (v <? kend) || (V2P v >=? PHYSTOP) = false.
Proof.
  intros (H1 & H2 & H3 & H4). rewrite H1. cbn. rewrite (proj2 (Z.ltb_ge _ _)) by lia. cbn.
  rewrite Z.geb_leb. apply Z.leb_gt. unfold V2P. rewrite u32_id; [lia|].
  unfold KERNBASE, PHYSTOP in *. lia.
Qed.

(** What a freed page holds. *)
Definition freed_page (next : Z) : list Z := put32 0 next (replicate (Z.to_nat PGSIZE) 1).

Lemma kfree_run kend v s : valid_page kend v ->
  kfree kend v s = Ok tt (set_freelist v (set_page v (freed_page (freelist s)) s)).
Proof.
  intros Hv. unfold kfree. rewrite kfree_test by done. msimpl. f_equal.
  unfold set_freelist, st32, memset_page, freed_page. destruct Hv as (Hm & _).
  rewrite page_at_set, decide_True, page_off_aligned by done.
  unfold set_page. cbn. by rewrite insert_insert_eq.
Qed.

Lemma kfree_spec kend v s l : valid_page kend v -> free_list kend s l -> v ∉ l ->
  exists s', kfree kend v s = Ok tt s' /\ free_list kend s' (v :: l) /\
    (forall p, page_base p <> v -> page_at p s' = page_at p s).
Proof.
  intros Hv (Hc & Hnd & Hf & Hl) Hn. rewrite kfree_run by done. eexists. split; [done|].
  pose proof (page_base_id v (proj1 Hv)) as Hb.
  assert (length (freed_page (freelist s)) = Z.to_nat PGSIZE) as Hlen.
  { unfold freed_page. rewrite length_put32, length_replicate; [done|]. vm_compute. lia. }
  split; [split; [split; [done|]|split; [by constructor|split; [by constructor|]]]|].
  - rewrite ld32_set_freelist.
    assert (ld32 v (set_page v (freed_page (freelist s)) s) = u32 (freelist s)) as ->.
    { unfold ld32. rewrite page_at_set, decide_True, page_off_aligned by (done || apply Hv).
      unfold freed_page. apply get_put32. rewrite length_replicate. vm_compute. lia. }
    assert (0 <= freelist s < 2 ^ 32) as Hr.
    { destruct l as [|p l]; simpl in Hc; [lia|]. destruct Hc as [-> _].
      apply Forall_cons in Hf as [(_ & ? & _ & ?) _]. unfold KERNBASE, PHYSTOP in *. lia. }
    rewrite u32_id by done. eapply free_chain_ext; [|exact Hc]. intros p Hp.
    rewrite ld32_set_freelist, ld32_set_ne; [done|]. rewrite Forall_forall in Hf.
    apply (valid_page_ne kend); [by apply Hf|done|]. set_solver.
  - intros p Hp. change (page_at p (set_freelist v ?x)) with (page_at p x).
    rewrite page_at_set. case_decide; [done|by apply Hl].
  - intros p Hp. change (page_at p (set_freelist v ?x)) with (page_at p x).
    rewrite page_at_set, Hb. by rewrite decide_False.
Qed.

Lemma kalloc_spec kend s l : free_list kend s l ->
  match l with
  | [] => kalloc s = Ok 0 s
  | p :: l' => exists s', kalloc s = Ok p s' /\ free_list kend s' l' /\ pages s' = pages s
  end.
Proof.
  intros (Hc & Hnd & Hf & Hl). unfold kalloc. msimpl. destruct l as [|p l].
  - simpl in Hc. by rewrite Hc.
  - destruct Hc as [-> Hc]. apply NoDup_cons in Hnd as [Hn Hnd]. apply Forall_cons in Hf as [Hp Hf].
    pose proof (valid_page_pos kend p Hp). destruct (Z.eqb_spec p 0); [lia|]. cbn.
    eexists. split; [done|]. split; [|done]. split_and!; [|done|done|done].
    eapply free_chain_ext; [|exact Hc]. done.
Qed.

(** ** The allocator and its clients *)

Inductive event := EAlloc | EFree (p : Z).

(** One call by a client that only frees pages it owns; [held] are the pages
    handed out. *)
Definition run_event (kend : Z) (e : event) (st : kmem * list Z) : option (kmem * list Z) :=
  let '(s, held) := st in
  match e with
  | EAlloc =>
      match kalloc s with
      | Ok p s' => Some (s', if p =? 0 then held else p :: held)
      | _ => None
      end
  | EFree p =>
      if decide (p ∈ held)
      then match kfree kend p s with
           | Ok _ s' => Some (s', filter (fun q => q <> p) held)
           | _ => None
           end
      else Some st
  end.

Fixpoint run_events (kend : Z) (es : list event) (st : kmem * list Z) : option (kmem * list Z) :=
  match es with
  | [] => Some st
  | e :: es' => st' ← run_event kend e st; run_events kend es' st'
  end.

Lemma filter_ne_perm (p : Z) l : NoDup l -> p ∈ l -> p :: filter (fun q => q <> p) l ≡ₚ l.
Proof.
  intros Hnd Hp. apply list_elem_of_split in Hp as (l1 & l2 & ->).
  apply NoDup_app in Hnd as (_ & Hd & Hnd). apply NoDup_cons in Hnd as [Hn _].
  rewrite filter_app, filter_cons_False by tauto.
  rewrite !list_filter_all; [apply Permutation_middle| |].
  - intros q Hq ->. done.
  - intros q Hq ->. apply (Hd p Hq). set_solver.
Qed.

Lemma alloc_event_ok kend e s held l : free_list kend s l -> NoDup (l ++ held) ->
  Forall (valid_page kend) held ->
  exists s' held' l', run_event kend e (s, held) = Some (s', held') /\
    free_list kend s' l' /\ l' ++ held' ≡ₚ l ++ held /\ Forall (valid_page kend) held'.
Proof.
  intros Hf Hnd Hh. destruct e as [|p]; cbn [run_event].
  - pose proof (kalloc_spec kend s l Hf) as H. destruct l as [|q l].
    + rewrite H. by exists s, held, [].
    + destruct H as (s' & -> & Hf' & _). destruct Hf as (_ & _ & Hv & _).
      apply Forall_cons in Hv as [Hq Hv]. pose proof (valid_page_pos kend q Hq).
      destruct (Z.eqb_spec q 0); [lia|]. exists s', (q :: held), l.
      split_and!; [done|done|by rewrite <- Permutation_middle|by constructor].
  - case_decide as Hp; [|by exists s, held, l].
    pose proof Hnd as Hnd'. apply NoDup_app in Hnd as (Hl & Hdis & Hnh).
    rewrite Forall_forall in Hh.
    destruct (kfree_spec kend p s l (Hh p Hp) Hf) as (s' & -> & Hf' & _).
    { intros H. by apply (Hdis p H). }
    exists s', (filter (fun q => q <> p) held), (p :: l). split_and!; [done|done| |].
    + rewrite <- (filter_ne_perm p held Hnh Hp) at 2. cbn. apply Permutation_middle.
    + apply Forall_forall. intros q Hq. apply list_elem_of_filter in Hq as [_ Hq]. by apply Hh.
Qed.

Lemma run_events_ok kend es s held l : free_list kend s l -> NoDup (l ++ held) ->
  Forall (valid_page kend) held ->
  exists s' held' l', run_events kend es (s, held) = Some (s', held') /\
    free_list kend s' l' /\ l' ++ held' ≡ₚ l ++ held /\ Forall (valid_page kend) held'.
Proof.
  revert s held l. induction es as [|e es IH]; intros s held l Hf Hnd Hh.
  { by exists s, held, l. }
  destruct (alloc_event_ok kend e s held l Hf Hnd Hh) as (s1 & h1 & l1 & E & Hf1 & Hp1 & Hh1).
  cbn [run_events]. rewrite E. cbn.
  destruct (IH s1 h1 l1 Hf1) as (s2 & h2 & l2 & E2 & Hf2 & Hp2 & Hh2).
  - by rewrite Hp1.
  - done.
  - exists s2, h2, l2. split_and!; [done|done|by rewrite Hp2|done].
Qed.

Lemma freerange_loop_spec kend k f p vend s l :
  p mod PGSIZE = 0 -> vend - p < PGSIZE * (Z.of_nat k + 1) -> PGSIZE * Z.of_nat k <= vend - p ->
  (k <= f)%nat -> free_list kend s l ->
  (forall i, (i < k)%nat -> valid_page kend (p + PGSIZE * Z.of_nat i) /\
     p + PGSIZE * Z.of_nat i ∉ l) ->
  exists s', freerange_loop kend f p vend s = Ok tt s' /\
    free_list kend s' (reverse (map (fun i => p + PGSIZE * Z.of_nat i) (seq 0 k)) ++ l).
Proof.
  revert f p s l. induction k as [|k IH]; intros f p s l Hp Hv Hv' Hf Hfl Hall.
  - exists s. destruct f; simpl; destruct (Z.leb_spec (p + PGSIZE) vend); try lia; by split.
  - destruct f as [|f]; [lia|]. cbn [freerange_loop].
    destruct (Z.leb_spec (p + PGSIZE) vend); [|unfold PGSIZE in *; lia].
    destruct (Hall O ltac:(lia)) as [H0 Hn0]. rewrite Z.mul_0_r, Z.add_0_r in H0, Hn0.
    destruct (kfree_spec kend p s l H0 Hfl Hn0) as (s1 & E & Hf1 & _).
    rewrite (bind_ok _ _ _ _ _ E).
    destruct (IH f (p + PGSIZE) s1 (p :: l)) as (s' & E' & Hf').
    + rewrite Zplus_mod, Hp, Z_mod_same_full. done.
    + lia.
    + lia.
    + lia.
    + done.
    + intros i Hi. destruct (Hall (S i) ltac:(lia)) as [Hvi Hni].
      replace (p + PGSIZE + PGSIZE * Z.of_nat i) with (p + PGSIZE * Z.of_nat (S i)) by lia.
      split; [done|]. apply not_elem_of_cons. split; [unfold PGSIZE; lia|done].
    + exists s'. split; [done|]. cbn [seq map].
      rewrite reverse_cons, <- app_assoc. cbn [app].
      rewrite Z.mul_0_r, Z.add_0_r, <- seq_shift, map_map.
      erewrite map_ext; [exact Hf'|]. intros i. lia.
Qed.

(** A machine with two free pages at the top of its memory. *)
Definition ex_kend : Z := KERNBASE + PHYSTOP - 2 * PGSIZE.
Definition ex_kmem : kmem :=
  mkkmem false 0 (<[ex_kend := replicate (Z.to_nat PGSIZE) 0]>
    {[ex_kend + PGSIZE := replicate (Z.to_nat PGSIZE) 0]}).

Lemma ex_valid p : valid_page ex_kend p <-> p = ex_kend \/ p = ex_kend + PGSIZE.
Proof.
  unfold valid_page, ex_kend, KERNBASE, PHYSTOP, PGSIZE. split.
  - intros (H1 & H2 & H3 & H4). pose proof (Z.div_mod p 4096 ltac:(lia)). lia.
  - intros [->| ->]; (split; [reflexivity|lia]).
Qed.

Lemma ex_free : free_list ex_kend ex_kmem [].
Proof.
  split; [done|split; [constructor|split; [constructor|]]]. intros p Hp.
  apply ex_valid in Hp as [->| ->]; vm_compute; reflexivity.
Qed.

Lemma ex_range i : (i < 2)%nat ->
  valid_page ex_kend (ex_kend + PGSIZE * Z.of_nat i) /\ ex_kend + PGSIZE * Z.of_nat i ∉ @nil Z.
Proof.
  intros Hi. split; [|apply not_elem_of_nil]. apply ex_valid. unfold PGSIZE. lia.
Qed.

(** C27.  The page allocator never hands out a page twice and never loses one:
    whatever sequence of [kalloc] and [kfree] its clients perform, freeing only
    what they own, no call panics and the free pages together with the pages
    handed out remain the initial free pages, each exactly once. *)
Theorem kalloc_partition kend es s l : free_list kend s l ->
  exists s' held l', run_events kend es (s, []) = Some (s', held) /\
    free_list kend s' l' /\ l' ++ held ≡ₚ l /\ NoDup (l' ++ held).
Proof.
  intros Hf. pose proof Hf as (_ & Hnd & _).
  destruct (run_events_ok kend es s [] l Hf) as (s' & h & l' & E & Hf' & Hp & _).
  - by rewrite app_nil_r.
  - constructor.
  - rewrite app_nil_r in Hp. exists s', h, l'. split_and!; [done|done|done|by rewrite Hp].
Qed.

Lemma kalloc_partition_witness : exists s s' held l',
  free_list ex_kend s [ex_kend + PGSIZE; ex_kend] /\
  run_events ex_kend [EAlloc; EAlloc; EFree ex_kend; EAlloc; EAlloc] (s, []) = Some (s', held) /\
  free_list ex_kend s' l' /\ l' ++ held ≡ₚ [ex_kend + PGSIZE; ex_kend] /\ NoDup (l' ++ held).
Proof.
  destruct (freerange_loop_spec ex_kend 2 2 ex_kend (ex_kend + 2 * PGSIZE) ex_kmem [])
    as (s & _ & Hf); try (done || (unfold PGSIZE; lia)); [apply ex_free|apply ex_range|].
  change (reverse _ ++ []) with [ex_kend + PGSIZE * 1; ex_kend + PGSIZE * 0] in Hf.
  rewrite Z.mul_1_r, Z.mul_0_r, Z.add_0_r in Hf.
  destruct (kalloc_partition ex_kend [EAlloc; EAlloc; EFree ex_kend; EAlloc; EAlloc] s _ Hf)
    as (s' & h & l' & H). exists s, s', h, l'. split; [exact Hf|exact H].
Defined.

(** [freerange] (and so [kinit1], [kinit2]) puts every whole page of its
    range on the free list, the last one first; it does not panic when they
    are valid pages that are not free already. *)
Theorem freerange_correct kend vstart vend s l :
  let p := PGROUNDUP vstart in let k := Z.to_nat ((vend - p) / PGSIZE) in
  0 <= p <= vend -> p mod PGSIZE = 0 -> free_list kend s l ->
  (forall i, (i < k)%nat -> valid_page kend (p + PGSIZE * Z.of_nat i) /\
     p + PGSIZE * Z.of_nat i ∉ l) ->
  exists s', freerange kend vstart vend s = Ok tt s' /\
    free_list kend s' (reverse (map (fun i => p + PGSIZE * Z.of_nat i) (seq 0 k)) ++ l).
Proof.
  intros p k Hp Hm Hf Hall.
  assert (0 <= (vend - p) / PGSIZE) by (apply Z.div_pos; unfold PGSIZE; lia).
  pose proof (Z.div_mod (vend - p) PGSIZE ltac:(done)).
  pose proof (Z.mod_pos_bound (vend - p) PGSIZE ltac:(done)).
  apply (freerange_loop_spec kend k); try done.
  - unfold k. rewrite Z2Nat.id by lia. lia.
  - unfold k. rewrite Z2Nat.id by lia. lia.
  - unfold k. apply Z2Nat.inj_le; [lia|apply Z.div_pos; unfold PGSIZE; lia|].
    apply Z.div_le_mono; [done|lia].
Qed.

Lemma freerange_correct_witness : exists s',
  freerange ex_kend (ex_kend - 5) (ex_kend + 2 * PGSIZE + 17) ex_kmem = Ok tt s' /\
  free_list ex_kend s' (reverse (map (fun i => ex_kend + PGSIZE * Z.of_nat i) (seq 0 2)) ++ []).
Proof.
  apply (freerange_correct ex_kend (ex_kend - 5) (ex_kend + 2 * PGSIZE + 17) ex_kmem []).
  - vm_compute. split; congruence.
  - reflexivity.
  - apply ex_free.
  - apply ex_range.
Defined.
