(* ===== verification/Kern.v ===== *)
(** * The state of the file layer

    file.c, the allocation part of pipe.c and sysfile.c share the table of open
    files, the inode cache of fs.c, the pages of kalloc.c and the descriptor
    tables of the processes.  [kern] holds them.  [tzoom] runs code of fs.c on
    its part of the state, [tlift] a step on memory alone. *)

From S2P Require Import Prelude Spinlock Bio BioSpec BlockProg Log LogCrash Recovery LogOps FsProg Fs FsCall Pipe Kalloc.
Import Fs.

Definition NFILE : nat := 100.
Definition NOFILE : nat := 16.

Inductive ftype := FD_NONE | FD_PIPE | FD_INODE.
#[global] Instance ftype_eq_dec : EqDecision ftype.
Proof. solve_decision. Defined.

(** [struct file]; the inode and the file are indices of their tables, the pipe
    is the address of its page. *)
Record file := mkfile {
  f_type : ftype;
  f_ref : Z;
  f_readable : bool;
  f_writable : bool;
  f_pipe : Z;
  f_ip : nat;
  f_off : Z
}.

Definition file0 : file := mkfile FD_NONE 0 false false 0 0 0.

Definition set_fref v f := mkfile (f_type f) v (f_readable f) (f_writable f) (f_pipe f) (f_ip f) (f_off f).
Definition set_ftype v f := mkfile v (f_ref f) (f_readable f) (f_writable f) (f_pipe f) (f_ip f) (f_off f).
Definition set_foff v f := mkfile (f_type f) (f_ref f) (f_readable f) (f_writable f) (f_pipe f) (f_ip f) v.

(** The fields of [struct proc] that system calls on files use: the descriptors,
    the current directory, the user memory ([sz] bytes from address 0) and the
    stack pointer in the trap frame. *)
Record fproc := mkfproc {
  p_pid : Z;
  p_killed : bool;
  ofile : list (option nat);
  cwd : option nat;
  umem : list Z;
  tf_esp : Z
}.

Definition fproc0 : fproc := mkfproc 0 false [] None [] 0.

Definition set_ofile v p := mkfproc (p_pid p) (p_killed p) v (cwd p) (umem p) (tf_esp p).
Definition set_cwd v p := mkfproc (p_pid p) (p_killed p) (ofile p) v (umem p) (tf_esp p).
Definition set_umem v p := mkfproc (p_pid p) (p_killed p) (ofile p) (cwd p) v (tf_esp p).

Record kern := mkkern {
  kfs : fs;
  ftable : list file;
  kpages : kmem;
  kpipes : gmap Z Pipe.pipe;   (** the pipes, by the address of their page *)
  procs : list fproc
}.

Definition set_kfs v k := mkkern v (ftable k) (kpages k) (kpipes k) (procs k).
Definition set_ftable v k := mkkern (kfs k) v (kpages k) (kpipes k) (procs k).
Definition set_kpages v k := mkkern (kfs k) (ftable k) v (kpipes k) (procs k).
Definition set_kpipes v k := mkkern (kfs k) (ftable k) (kpages k) v (procs k).
Definition set_procs v k := mkkern (kfs k) (ftable k) (kpages k) (kpipes k) v.

Definition ft_at (f : nat) (k : kern) : file := default file0 (ftable k !! f).
Definition ft_set (f : nat) (x : file) (k : kern) : kern := set_ftable (<[f := x]> (ftable k)) k.
Definition proc_at (i : nat) (k : kern) : fproc := default fproc0 (procs k !! i).
Definition proc_set (i : nat) (x : fproc) (k : kern) : kern := set_procs (<[i := x]> (procs k)) k.

(** ** Programs on parts of the state *)

(** A step on memory. *)
Definition tlift {Mem A} (m : M Mem A) : tprog Mem A :=
  TGet (fun s =>
    match m s with
    | Ok a s' => TPut s' (TRet a)
    | Panic msg => TPanic msg
    | Asleep s' => TPut s' TSleep
    | NoFuel => TNoFuel
    end).

Section Zoom.
Context {K F : Type} (view_of : K -> F) (update : F -> K -> K).

Fixpoint tzoom {A} (p : tprog F A) : tprog K A :=
  match p with
  | TRet a => TRet a
  | TPanic msg => TPanic msg
  | TSleep => TSleep
  | TNoFuel => TNoFuel
  | TBread d b k => TBread d b (tzoom k)
  | TData b k => TData b (fun x => tzoom (k x))
  | TSet b d k => TSet b d (tzoom k)
  | TLogWrite b k => TLogWrite b (tzoom k)
  | TBrelse b k => TBrelse b (tzoom k)
  | TGet k => TGet (fun m => tzoom (k (view_of m)))
  | TPut m k => TGet (fun s => TPut (update m s) (tzoom k))
  end.

(** The outcome of the part, in the whole. *)
Definition zoomed {A} (k : K) (o : outcome (F * txs) A) : outcome (K * txs) A :=
  match o with
  | Ok a (m, t) => Ok a (update m k, t)
  | Panic msg => Panic msg
  | Asleep (m, t) => Asleep (update m k, t)
  | NoFuel => NoFuel
  end.

Context (get_put : forall m k, view_of (update m k) = m) (put_put : forall m m' k, update m' (update m k) = update m' k)
  (put_get : forall k, update (view_of k) k = k).

Lemma run_tzoom {A} (p : tprog F A) k t : run_tx (tzoom p) (k, t) = zoomed k (run_tx p (view_of k, t)).
Proof using get_put put_put put_get.
  revert k t. induction p as [a|msg| | |d b p IH|b p IH|b d p IH|b p IH|b p IH|p IH|m p IH]; intros k t; cbn [run_tx tzoom];
    rewrite ?bind_unfold.
  all: try (cbn; by rewrite ?put_get).
  all: try match goal with
    | |- context [lift_tx ?x _] => unfold lift_tx; destruct (x t) as [a1 t1|msg|t1|]; cbn; rewrite ?put_get; done || apply IH
    end.
  - cbn. rewrite bind_unfold. cbn. rewrite IH, get_put. unfold zoomed. destruct (run_tx p (m, t)) as [? []|?|[]|]; by rewrite ?put_put.
Qed.
End Zoom.
