(* ===== verification/File.v ===== *)
(** * Open files (system/core/file.c, the allocation part of system/core/pipe.c)

    [filealloc] and its companions work on the table of open files, under
    [ftable.lock].  [fileread] and [filewrite] of an inode lock it for each piece
    of work; [filewrite] runs one transaction per piece.  A call is an [sprog]: code
    outside of transactions, and transactions.

    [me] is the running process, [kend] the end of the kernel image; [devread] and
    [devwrite] are the device functions, as in Fs.v. *)

From S2P Require Import Prelude Spinlock Bio BioSpec BlockProg Log LogCrash Recovery LogOps FsProg Fs FsCall Pipe Kalloc Kern.
Import Fs.

Notation K := (tprog kern).
Notation KS := (sprog kern).

(** A program of fs.c, and a step of kalloc.c. *)
Definition fsop {A} (p : tprog fs A) : K A := tzoom kfs set_kfs p.
Definition kop {A} (m : M kmem A) : K A := tzoom kpages set_kpages (tlift m).

Definition snofuel {A} : KS A := srun tnofuel.
Definition spanic {A} (msg : string) : KS A := SPanic msg.

Section File.
Context (kend : Z) (me : nat) (devread : Z -> option (Z -> Z * list Z)) (devwrite : Z -> option (list Z -> Z)).

Definition curproc : K fproc := tgets (proc_at me).
Definition file_ (f : nat) : K file := tgets (ft_at f).
Definition fupd (f : nat) (g : file -> file) : K unit := tmod (fun k => ft_set f (g (ft_at f k)) k).

(** ** The table *)

Fixpoint find_file (i : nat) (l : list file) : option nat :=
  match l with
  | [] => None
  | x :: l' => if f_ref x =? 0 then Some i else find_file (S i) l'
  end.

Definition filealloc : K (option nat) :=
  fs ← tgets ftable;
  match find_file 0 fs with
  | None => mret None
  | Some f => fupd f (set_fref 1) ;; mret (Some f)
  end.

Definition filedup (f : nat) : K nat :=
  x ← file_ f;
  if f_ref x <? 1 then tpanic "filedup" else
  fupd f (set_fref (f_ref x + 1)) ;;
  mret f.

(** [fileclose] up to the release of [ftable.lock]: the copy [ff] of the file when
    this was the last reference. *)
Definition fileclose_ref (f : nat) : K (option file) :=
  x ← file_ f;
  if f_ref x <? 1 then tpanic "fileclose" else
  fupd f (set_fref (f_ref x - 1)) ;;
  if f_ref x - 1 >? 0 then mret None else
  ff ← file_ f;
  fupd f (fun x => set_ftype FD_NONE (set_fref 0 x)) ;;
  mret (Some ff).

(** [pipeclose] with the page it frees; [wakeup] is left to Proc.v. *)
Definition pipe_close (p : Z) (writable : bool) : K unit :=
  ps ← tgets kpipes;
  match ps !! p with
  | None => tnofuel
  | Some x =>
      let '(x', free) := Pipe.pipeclose x writable in
      if free then tmod (fun k => set_kpipes (delete p (kpipes k)) k) ;; kop (kfree kend p)
      else tmod (fun k => set_kpipes (<[p := x']> (kpipes k)) k)
  end.

Definition fileclose (f : nat) : KS unit :=
  r ← srun (fileclose_ref f);
  match r with
  | None => mret tt
  | Some ff =>
      match f_type ff with
      | FD_PIPE => srun (pipe_close (f_pipe ff) (f_writable ff))
      | FD_INODE => p ← srun curproc; stx (fsop (iput (p_pid p) (f_ip ff)))
      | FD_NONE => mret tt
      end
  end.

(** [fileclose] inside a transaction; the file of an inode would begin another. *)
Definition fileclose_tx (f : nat) : K unit :=
  r ← fileclose_ref f;
  match r with
  | None => mret tt
  | Some ff =>
      match f_type ff with
      | FD_PIPE => pipe_close (f_pipe ff) (f_writable ff)
      | FD_INODE => tnofuel
      | FD_NONE => mret tt
      end
  end.

(** ** Pipes *)

(** [data] comes after the 52 bytes of the lock; its bytes are what the page held. *)
Definition pipe_data (page : list Z) : list Z := take (Z.to_nat PIPESIZE) (drop 52 page).

Definition pipealloc : KS (option (nat * nat)) :=
  r0 ← srun filealloc;
  match r0 with
  | None => mret None
  | Some f0 =>
      r1 ← srun filealloc;
      match r1 with
      | None => fileclose f0 ;; mret None
      | Some f1 =>
          p ← srun (kop kalloc);
          if p =? 0 then fileclose f0 ;; fileclose f1 ;; mret None else
          srun (tmod (fun k => set_kpipes (<[p := Pipe.pipeinit (pipe_data (page_at p (kpages k)))]> (kpipes k)) k) ;;
                fupd f0 (fun x => mkfile FD_PIPE (f_ref x) true false p (f_ip x) (f_off x)) ;;
                fupd f1 (fun x => mkfile FD_PIPE (f_ref x) false true p (f_ip x) (f_off x))) ;;
          mret (Some (f0, f1))
      end
  end.

(** [piperead] and [pipewrite] (Pipe.v) of the running process. *)
Definition pipe_read (p n : Z) : K (Z * list Z) :=
  c ← curproc;
  ps ← tgets kpipes;
  match ps !! p with
  | None => tnofuel
  | Some x =>
      match Pipe.piperead (p_killed c) n x with
      | Pipe.RDone bs x' => tmod (fun k => set_kpipes (<[p := x']> (kpipes k)) k) ;; mret (Z.of_nat (length bs), bs)
      | Pipe.RErr _ => mret (-1, [])
      | Pipe.RSleep _ => tsleep
      end
  end.

Definition pipe_write (p : Z) (src : list Z) : K Z :=
  c ← curproc;
  ps ← tgets kpipes;
  match ps !! p with
  | None => tnofuel
  | Some x =>
      match Pipe.pipewrite (p_killed c) src x with
      | Pipe.WDone x' => tmod (fun k => set_kpipes (<[p := x']> (kpipes k)) k) ;; mret (Z.of_nat (length src))
      | Pipe.WErr _ x' => tmod (fun k => set_kpipes (<[p := x']> (kpipes k)) k) ;; mret (-1)
      | Pipe.WSleep _ x' => tmod (fun k => set_kpipes (<[p := x']> (kpipes k)) k) ;; tsleep
      end
  end.

(** ** Reading and writing *)

Definition filestat (f : nat) : KS (option stat) :=
  x ← srun (file_ f);
  match f_type x with
  | FD_INODE =>
      srun (p ← curproc;
            fsop (ilock (p_pid p) (f_ip x)) ;;
            st ← fsop (stati (f_ip x));
            fsop (iunlock (p_pid p) (f_ip x)) ;;
            mret (Some st))
  | _ => mret None
  end.

(** The value returned, and the bytes stored at [addr]. *)
Definition fileread (f : nat) (n : Z) : KS (Z * list Z) :=
  x ← srun (file_ f);
  if negb (f_readable x) then mret (-1, []) else
  match f_type x with
  | FD_PIPE => srun (pipe_read (f_pipe x) n)
  | FD_INODE =>
      srun (p ← curproc;
            fsop (ilock (p_pid p) (f_ip x)) ;;
            off ← tgets (fun k => f_off (ft_at f k));
            r ← fsop (readi devread (f_ip x) off n);
            when (r.1 >? 0) (fupd f (fun x => set_foff (u32 (f_off x + r.1)) x)) ;;
            fsop (iunlock (p_pid p) (f_ip x)) ;;
            mret r)
  | FD_NONE => spanic "fileread"
  end.

Definition max : Z := ((MAXOPBLOCKS - 1 - 1 - 2) / 2) * 512.

(** One transaction of [filewrite]. *)
Definition write_chunk (f : nat) (src : list Z) : K Z :=
  p ← curproc;
  x ← file_ f;
  fsop (ilock (p_pid p) (f_ip x)) ;;
  off ← tgets (fun k => f_off (ft_at f k));
  r ← fsop (writei devwrite (f_ip x) src off);
  when (r >? 0) (fupd f (fun x => set_foff (u32 (f_off x + r)) x)) ;;
  fsop (iunlock (p_pid p) (f_ip x)) ;;
  mret r.

Fixpoint filewrite_loop (fuel : nat) (f : nat) (src : list Z) (i : Z) : KS Z :=
  let n := Z.of_nat (length src) in
  if negb (i <? n) then mret i else
  match fuel with
  | O => snofuel
  | S fuel' =>
      let n1 := if n - i >? max then max else n - i in
      r ← stx (write_chunk f (take (Z.to_nat n1) (drop (Z.to_nat i) src)));
      if r <? 0 then mret i else
      if negb (r =? n1) then spanic "short filewrite" else
      filewrite_loop fuel' f src (i + r)
  end.

Definition filewrite (f : nat) (src : list Z) : KS Z :=
  let n := Z.of_nat (length src) in
  x ← srun (file_ f);
  if negb (f_writable x) then mret (-1) else
  match f_type x with
  | FD_PIPE => srun (pipe_write (f_pipe x) src)
  | FD_INODE => i ← filewrite_loop (length src) f src 0; mret (if i =? n then n else -1)
  | FD_NONE => spanic "filewrite"
  end.
End File.
