(* ===== verification/FileSpec.v ===== *)
(** * Reading and writing open files (system/core/file.c)

    [filewrite] splits a write into transactions that the log can hold.  The first
    part bounds the blocks that one of them uses, from the blocks that [writei] may
    read; the second proves that the pieces make up the whole write. *)

From S2P Require Import Prelude Spinlock Bio BioSpec BlockProg Log LogCrash Recovery LogOps FsProg Fs FsCall FsAlloc FsFile FsInode FsDir FsPath FsExample.
From S2P Require Import Pipe Kalloc Kern File.
Import Fs SleepLock.

(** ** The blocks of a transaction *)

(** The buffers in use and the blocks in the log are among those read. *)
Definition within (t : txs) : Prop :=
  tlogged t ⊆ touched t /\ theld t ⊆ touched t /\ (peak t <= base.size (touched t))%nat.

Lemma run_tx_within {Mem A} (p : tprog Mem A) m t a m' t' : within t -> run_tx p (m, t) = Ok a (m', t') -> within t'.
Proof.
  revert m t. induction p as [a0|msg| | |d b p IH|b p IH|b d p IH|b p IH|b p IH|p IH|m0 p IH]; intros m t Hw; cbn [run_tx]; try done.
  - intros H. by injection H as _ _ <-.
  - intros (u & [m1 t1] & E1 & E2)%bind_ok_inv. eapply IH, E2. revert E1. unfold lift_tx, t_bread. rewrite bind_unfold. cbn -[base.size]. case_bool_decide; [done|]. case_bool_decide; [done|].
    intros H'. injection H' as _ <- <-. destruct Hw as (W1 & W2 & W3). split; [cbn; set_solver|]. split; [cbn; set_solver|]. cbn [peak touched].
    pose proof (subseteq_size (touched t) ({[b]} ∪ touched t) ltac:(set_solver)).
    pose proof (subseteq_size ({[b]} ∪ (tlogged t ∪ theld t)) ({[b]} ∪ touched t) ltac:(set_solver)). lia.
  - intros (u & [m1 t1] & E1 & E2)%bind_ok_inv. eapply IH, E2. revert E1. unfold lift_tx, t_data. rewrite bind_unfold. cbn. case_bool_decide; [|done].
    intros H'. by injection H' as _ <- <-.
  - intros (u & [m1 t1] & E1 & E2)%bind_ok_inv. eapply IH, E2. revert E1. unfold lift_tx, t_set. rewrite bind_unfold. cbn. case_bool_decide; [|done].
    intros H'. by injection H' as _ <- <-.
  - intros (u & [m1 t1] & E1 & E2)%bind_ok_inv. eapply IH, E2. revert E1. unfold lift_tx, t_log. rewrite bind_unfold. cbn. case_bool_decide; [|done].
    intros H'. injection H' as _ <- <-. destruct Hw as (W1 & W2 & W3). split; [cbn; set_solver|]. split; done.
  - intros (u & [m1 t1] & E1 & E2)%bind_ok_inv. eapply IH, E2. revert E1. unfold lift_tx, t_brelse. rewrite bind_unfold. cbn. case_bool_decide; [|done].
    intros H'. injection H' as _ <- <-. destruct Hw as (W1 & W2 & W3). split; [done|]. split; [cbn; set_solver|done].
  - cbn. rewrite bind_unfold. cbn. apply IH. done.
  - cbn. rewrite bind_unfold. cbn. apply IH. done.
Qed.

Lemma within_tx0 v : within (tx0 v).
Proof. done. Qed.

(** What touches no more blocks than an operation may fits. *)
Lemma touched_fits t l : within t -> Z.of_nat (base.size (touched t)) <= MAXOPBLOCKS -> MAXOPBLOCKS < Log.size l - 1 -> fits t l.
Proof.
  intros (H1 & H2 & H3) Hn Hl. pose proof (subseteq_size _ _ H1). unfold fits, LOGSIZE, MAXOPBLOCKS, NBUF in *. lia.
Qed.

(** A piece of a write spans at most four blocks. *)
Lemma nblocks_max off n : 0 <= off -> 0 <= n <= max -> nblocks off n <= 4.
Proof.
  intros Ho Hn. change max with 1536 in Hn. unfold nblocks. destruct (Z.leb_spec n 0); [lia|]. unfold BSZ.
  pose proof (Z.div_mod off 512 ltac:(lia)). pose proof (Z.mod_pos_bound off 512 ltac:(lia)).
  assert ((off + n + (512 - 1)) / 512 < off / 512 + 5); [|lia]. apply Z.div_lt_upper_bound; lia.
Qed.

Lemma size_list_le (l : list Z) : (base.size (list_to_set l : gset Z) <= length l)%nat.
Proof.
  induction l as [|x l IH]; [done|]. cbn [list_to_set length foldr]. rewrite size_union_alt, size_singleton.
  pose proof (subseteq_size (list_to_set l ∖ {[x]}) (list_to_set l : gset Z) ltac:(set_solver)). lia.
Qed.

Lemma write_touches ip off src m v m' t' : 0 <= off -> Z.of_nat (length src) <= max -> disk_ok (sb m) v -> sb_size (sb m) <= BPB ->
  write_reach ip off src m (tx0 v) m' t' -> Z.of_nat (base.size (touched t')) <= 7.
Proof.
  intros Ho Hn Hd Hs Hr. set (n := Z.of_nat (length src)) in *. pose proof (nblocks_max off n Ho ltac:(lia)) as Hnb.
  set (f := slot (view t') (i_addrs (ip_at ip m'))).
  set (l := [sb_bmapstart (sb m); IBLOCK (i_inum (ip_at ip m)) (sb m); f MAXFILE] ++ map f (seqZ (off / BSZ) (nblocks off n))).
  assert (Hsub : touched t' ⊆ list_to_set l).
  { intros b Hb. apply elem_of_list_to_set. destruct (Hr b Hb) as [Hb0|[[Hb1|[_ (k & Hk & Hor & <-)]]| ->]]; [done| | |unfold l; set_solver].
    - unfold in_bitmap, dstart in Hb1. pose proof (d_size _ _ Hd). rewrite Z.div_small in Hb1 by lia.
      assert (b = sb_bmapstart (sb m)) as -> by lia. unfold l. set_solver.
    - fold f. destruct Hor as [->|Hlo]; [unfold l; set_solver|]. unfold l. apply elem_of_app. right. apply list_elem_of_fmap. exists k.
      split; [done|]. apply elem_of_seqZ. fold n in Hlo. lia. }
  pose proof (subseteq_size _ _ Hsub) as Hsz. pose proof (size_list_le l) as Hl.
  unfold l in Hl at 2. rewrite length_app, length_map, length_seqZ in Hl. cbn [length] in Hl. lia.
Qed.

(** ** One piece *)

(** An inode of an open file, between calls: in the cache, unlocked, and as the
    disk has it. *)
Record opened (ip : nat) (m : fs) (v : list block) : Prop := {
  o_file : file_at ip m (tx0 v);
  o_type : i_type (ip_at ip m) <> T_DEV;
  o_fields : fields_ok (ip_at ip m);
  o_inum : 0 <= i_inum (ip_at ip m) < sb_ninodes (sb m);
  o_synced : synced (sb m) v (ip_at ip m);
  o_valid : i_valid (ip_at ip m) = true;
  o_ref : 0 < i_ref (ip_at ip m);
  o_unlocked : i_lock (ip_at ip m) = initsleeplock
}.

Lemma run_fsop_ok {A B} (p : tprog fs A) (g : A -> tprog kern B) k t a m' t' : run_tx p (kfs k, t) = Ok a (m', t') ->
  run_tx (fsop p ≫= g) (k, t) = run_tx (g a) (set_kfs m' k, t').
Proof. intros E. apply run_tx_bind_ok. unfold fsop. rewrite run_tzoom; [|done|done|by intros []]. by rewrite E. Qed.

(** The inode with its lock taken. *)
Definition lock_ip (pid : Z) (ip : nat) (m : fs) : fs := ip_set ip (set_lock (mksl 1 pid) (ip_at ip m)) m.
Definition unlock_ip (ip : nat) (m : fs) : fs := ip_set ip (set_lock (mksl 0 0) (ip_at ip m)) m.

Lemma ilock_valid pid ip m t : (ip < length (icache m))%nat -> i_valid (ip_at ip m) = true -> 0 < i_ref (ip_at ip m) ->
  i_lock (ip_at ip m) = initsleeplock -> run_tx (ilock pid ip) (m, t) = Ok tt (lock_ip pid ip m, t).
Proof.
  intros Hip Hv Hr Hl. unfold ilock, inode_. rewrite !run_tgets, (proj2 (Z.ltb_ge _ _)) by lia. unfold acquiresleep. rewrite Hl. cbn [sl_locked initsleeplock Z.eqb negb].
  rewrite run_upd. by rewrite Hv.
Qed.

Lemma iunlock_held pid ip m t : i_lock (ip_at ip m) = mksl 1 pid -> 0 < i_ref (ip_at ip m) ->
  run_tx (iunlock pid ip) (m, t) = Ok tt (unlock_ip ip m, t).
Proof.
  intros Hl Hr. unfold iunlock, inode_. rewrite run_tgets, Hl. unfold holdingsleep. cbn [sl_locked sl_pid Z.eqb negb andb].
  rewrite Z.eqb_refl, (proj2 (Z.ltb_ge _ _)) by lia. cbn. done.
Qed.

Lemma fields_lock lk x : fields_ok x -> fields_ok (set_lock lk x).
Proof. by intros []. Qed.

Lemma synced_lock s v lk x : synced s v x -> synced s v (set_lock lk x).
Proof. unfold synced. intros H. exact (f_equal (set_lock lk) H). Qed.

Lemma opened_lock pid ip m v : opened ip m v -> file_at ip (lock_ip pid ip m) (tx0 v) /\
  ip_at ip (lock_ip pid ip m) = set_lock (mksl 1 pid) (ip_at ip m).
Proof.
  intros [[A1 A2 A3 A4 A5] _ _ _ _ _ _ _]. unfold lock_ip. rewrite ip_at_set by done. split; [|done]. split; rewrite ?ip_at_set by done; try done.
  by rewrite length_ip_set.
Qed.

(** Locking and unlocking changes nothing. *)
Lemma relock pid ip m : i_lock (ip_at ip m) = initsleeplock -> (ip < length (icache m))%nat -> unlock_ip ip (lock_ip pid ip m) = m.
Proof.
  intros Hl Hip. unfold unlock_ip, lock_ip. rewrite ip_at_set, ip_set_set by done.
  replace (set_lock _ (set_lock _ (ip_at ip m))) with (ip_at ip m); [by apply ip_set_id|]. rewrite <- (inode_eta (ip_at ip m)), Hl at 1. done.
Qed.

Lemma ft_set_id f k : (f < length (ftable k))%nat -> ft_set f (ft_at f k) k = k.
Proof.
  intros Hf. unfold ft_set, set_ftable, ft_at. destruct (lookup_lt_is_Some_2 _ _ Hf) as [y Hy]. rewrite Hy. cbn. rewrite list_insert_id by done. by destruct k.
Qed.

(** The fields of an inode whose file has grown. *)
Lemma fields_kept ip m m2 t2 addrs size pid : fields_ok (ip_at ip m) -> file_at ip m2 t2 ->
  ip_at ip m2 = set_size size (set_addrs addrs (set_lock (mksl 1 pid) (ip_at ip m))) -> fields_ok (ip_at ip m2).
Proof.
  intros [F1 F2 F3 F4 F5 F6 F7] [_ _ A3 _ A5] E. pose proof (file_addrs_range _ _ _ _ A3 A5) as Ha.
  pose proof (f_size _ _ _ _ A5). pose proof (f_len _ _ _ _ A5). rewrite E in *. split; try done. cbn in *. unfold MAXFILE, NDIRECT, NINDIRECT, BSZ in *. lia.
Qed.

(** The part of the state that a write of [src] at [off] determines. *)
Record chunk_done (ip : nat) (off : Z) (src : list Z) (m : fs) (v : list block) (m' : fs) (v' : list block) : Prop := {
  cd_opened : opened ip m' v';
  cd_contents : contents v' (ip_at ip m') = splice (Z.to_nat off) src (contents v (ip_at ip m));
  cd_size : i_size (ip_at ip m') = Z.max (i_size (ip_at ip m)) (off + Z.of_nat (length src));
  cd_sb : sb m' = sb m
}.

Section Write.
Context (me : nat) (devwrite : Z -> option (list Z -> Z)).

Lemma write_chunk_run f k v src :
  let x := ft_at f k in let ip := f_ip x in let m := kfs k in let n := Z.of_nat (length src) in
  (f < length (ftable k))%nat -> opened ip m v -> 0 <= f_off x <= i_size (ip_at ip m) -> 0 < n <= max -> sb_size (sb m) <= BPB ->
  2 * nblocks (f_off x) n <= Z.of_nat (nfree (sb m) v) ->
  if f_off x + n >? MAXFILE * BSZ
  then exists t', run_tx (write_chunk me devwrite f src) (k, tx0 v) = Ok (-1) (k, t') /\ view t' = v /\ idle t' /\ touched t' = ∅
  else exists m' t', run_tx (write_chunk me devwrite f src) (k, tx0 v) =
      Ok n (ft_set f (set_foff (f_off x + n) x) (set_kfs m' k), t') /\
    chunk_done ip (f_off x) src m v m' (view t') /\ idle t' /\ Z.of_nat (base.size (touched t')) <= 7 /\
    Z.of_nat (nfree (sb m) v) <= Z.of_nat (nfree (sb m) (view t')) + 8.
Proof.
  intros x ip m n Hf Ho Hoff Hn Hs Hfree. pose proof Ho as [Hfa Hty Hfo Hin Hsy Hv Hr Hl]. pose proof (a_ip _ _ _ Hfa) as Hip.
  pose proof (f_size _ _ _ _ (a_file _ _ _ Hfa)) as Hsz. assert (Hmax : MAXFILE * BSZ = 71680) by done. change max with 1536 in Hn.
  unfold write_chunk, curproc, file_. rewrite !run_tgets. fold x. set (pid := p_pid (proc_at me k)). fold ip.
  rewrite (run_fsop_ok _ _ _ _ _ _ _ (ilock_valid pid ip m (tx0 v) Hip Hv Hr Hl)). set (m1 := lock_ip pid ip m).
  rewrite run_tgets. change (ft_at f (set_kfs m1 k)) with x. destruct (opened_lock pid ip m v Ho) as [Hfa1 E1]. fold m1 in Hfa1, E1.
  assert (Hw : let n := Z.of_nat (length src) in
    if (f_off x >? i_size (ip_at ip m1)) || (f_off x + n >? MAXFILE * BSZ) then run_tx (writei devwrite ip src (f_off x)) (m1, tx0 v) = Ok (-1) (m1, tx0 v)
    else 2 * nblocks (f_off x) n <= Z.of_nat (nfree (sb m1) v) -> exists m' t', run_tx (writei devwrite ip src (f_off x)) (m1, tx0 v) = Ok n (m', t') /\
      file_written ip (f_off x) src m1 (tx0 v) m' t' /\ write_reach ip (f_off x) src m1 (tx0 v) m' t').
  { apply writei_run; rewrite ?E1; [done|done|by apply fields_lock|done|by apply synced_lock|lia|fold n; lia]. }
  cbv zeta in Hw. rewrite E1 in Hw. fold n in Hw. change (i_size (set_lock _ ?y)) with (i_size y) in Hw.
  change (sb m1) with (sb m) in Hw. destruct (Z.gtb_spec (f_off x) (i_size (ip_at ip m))) as [|_]; [lia|]. cbn [orb] in Hw.
  destruct (Z.gtb_spec (f_off x + n) (MAXFILE * BSZ)) as [Hg|Hg].
  - rewrite (run_fsop_ok _ _ (set_kfs m1 k) _ _ _ _ Hw). change (when (-1 >? 0) ?p ≫= ?q) with (q tt). cbn beta.
    rewrite (run_fsop_ok _ _ (set_kfs m1 (set_kfs m1 k)) _ _ _ _ (iunlock_held pid ip m1 (tx0 v) ltac:(by rewrite E1) ltac:(by rewrite E1))).
    exists (tx0 v). split; [|done].
    unfold m1. rewrite relock by done. by destruct k.
  - destruct (Hw Hfree) as (m2 & t2 & E & Hfw & Hre). rewrite (run_fsop_ok _ _ (set_kfs m1 k) _ _ _ _ E).
    rewrite (proj2 (Z.gtb_lt n 0)) by lia. cbn [when]. unfold fupd. rewrite run_tmod.
    change (ft_at f (set_kfs m2 (set_kfs m1 k))) with x. rewrite u32_id by lia.
    destruct Hfw as [W1 W2 W3 (addrs & size & W4) W5 (W6 & W6' & _) _ _ W9]. rewrite E1 in W2, W3, W4.
    change (contents (view (tx0 v)) (set_lock _ ?y)) with (contents v y) in W2.
    assert (Hlk : i_lock (ip_at ip m2) = mksl 1 pid) by (by rewrite W4). assert (Hrf : 0 < i_ref (ip_at ip m2)) by (by rewrite W4).
    rewrite (run_fsop_ok _ _ (ft_set f (set_foff (f_off x + n) x) (set_kfs m2 (set_kfs m1 k))) _ _ _ _ (iunlock_held pid ip m2 t2 Hlk Hrf)).
    exists (unlock_ip ip m2), t2. split; [done|]. pose proof (a_ip _ _ _ W1) as Hip2.
    assert (E3 : ip_at ip (unlock_ip ip m2) = set_lock (mksl 0 0) (ip_at ip m2)) by (by apply ip_at_set).
    split; [|split; [apply W1|split]].
    + split; rewrite ?E3; [|exact W2|exact W3|exact W6]. split; rewrite ?E3; try done.
      * destruct W1 as [_ A2 A3 _ A5]. split; rewrite ?E3; try done. unfold unlock_ip. by rewrite length_ip_set.
      * by rewrite W4.
      * apply fields_lock. by apply (fields_kept ip m m2 t2 addrs size pid).
      * rewrite W4. cbn. change (sb (unlock_ip ip m2)) with (sb m2). rewrite W6. exact Hin.
      * by apply synced_lock.
      * by rewrite W4.
    + apply (write_touches ip (f_off x) src m1 v m2 t2); [lia|change max with 1536; fold n; lia|apply Hfa|done|exact Hre].
    + pose proof (nblocks_max (f_off x) n ltac:(lia) ltac:(change max with 1536; lia)). fold n in W9. change (sb m1) with (sb m) in W9.
      change (view (tx0 v)) with v in W9. lia.
Qed.

(** ** All the pieces *)

(** The bytes that a write of [n] at [off] stores: all, or the pieces before the one
    that would make the file too large. *)
Definition accepted (off n : Z) : Z := if off + n <=? MAXFILE * BSZ then n else max * ((MAXFILE * BSZ - off) / max).

Lemma splice_app {X} o (a b c : list X) : (o <= length c)%nat -> splice o (a ++ b) c = splice (o + length a) b (splice o a c).
Proof.
  intros Ho. unfold splice. rewrite (app_assoc (take o c) a (drop (o + length a) c)).
  assert (Hl : length (take o c ++ a) = (o + length a)%nat) by (rewrite length_app, length_take; lia).
  rewrite take_app_length' by done. rewrite drop_app_ge, Hl, drop_drop, length_app by lia. rewrite <- !app_assoc. do 4 f_equal. lia.
Qed.

Lemma chunk_nil ip off m v : opened ip m v -> 0 <= off <= i_size (ip_at ip m) -> chunk_done ip off [] m v m v.
Proof.
  intros H Ho. split; [done| |cbn; lia|done]. unfold splice. cbn. by rewrite Nat.add_0_r, take_drop.
Qed.

Lemma chunk_app ip off a b m v m1 v1 m2 v2 : 0 <= off <= i_size (ip_at ip m) -> chunk_done ip off a m v m1 v1 ->
  chunk_done ip (off + Z.of_nat (length a)) b m1 v1 m2 v2 -> chunk_done ip off (a ++ b) m v m2 v2.
Proof.
  intros Ho [_ C1 S1 B1] [O2 C2 S2 B2]. split; [done| |rewrite length_app; lia|congruence].
  rewrite C2, C1, splice_app; [do 2 f_equal; lia|]. unfold contents. rewrite length_map, length_seqZ. lia.
Qed.

Lemma run_s_stx {A B} (p : tprog kern A) (g : A -> sprog kern B) k v a k1 t1 : run_tx p (k, tx0 v) = Ok a (k1, t1) ->
  run_s (stx p ≫= g) (k, v) = run_s (g a) (k1, view t1).
Proof. intros E. cbn. by rewrite E. Qed.

Lemma fits_stx {A B} (p : tprog kern A) (g : A -> sprog kern B) l k v a k1 t1 : run_tx p (k, tx0 v) = Ok a (k1, t1) -> fits t1 l -> idle t1 ->
  fits_s (g a) l k1 (view t1) -> fits_s (stx p ≫= g) l k v.
Proof. intros E Hf [Hh Hs] Hg. cbn. rewrite E. done. Qed.

(** What the loop leaves: the file with the bytes, and the offset after them. *)
Definition written_by (f : nat) (src : list Z) (k : kern) (v : list block) (k' : kern) (v' : list block) : Prop :=
  let x := ft_at f k in
  chunk_done (f_ip x) (f_off x) src (kfs k) v (kfs k') v' /\
  k' = ft_set f (set_foff (f_off x + Z.of_nat (length src)) x) (set_kfs (kfs k') k).

Lemma accepted_zero off n : 0 < n -> off <= MAXFILE * BSZ -> off + Z.min n max > MAXFILE * BSZ -> accepted off n = 0.
Proof.
  intros Hn Ho Hm. unfold accepted. rewrite (proj2 (Z.leb_gt _ _)) by lia. rewrite Z.div_small; [lia|]. change max with 1536 in *. lia.
Qed.

Lemma accepted_step off n : 0 < n -> off + Z.min n max <= MAXFILE * BSZ ->
  accepted off n = Z.min n max + accepted (off + Z.min n max) (n - Z.min n max).
Proof.
  intros Hn Hm. unfold accepted. replace (off + Z.min n max + (n - Z.min n max)) with (off + n) by lia.
  destruct (Z.leb_spec (off + n) (MAXFILE * BSZ)); [lia|]. change max with 1536 in *. rewrite Z.min_r in * by lia.
  replace (MAXFILE * BSZ - (off + 1536)) with (MAXFILE * BSZ - off + (-1) * 1536) by lia. rewrite Z.div_add by lia. lia.
Qed.

Lemma accepted_range off n : 0 <= n -> off <= MAXFILE * BSZ -> 0 <= accepted off n <= n.
Proof.
  intros Hn Ho. unfold accepted. destruct (Z.leb_spec (off + n) (MAXFILE * BSZ)); [lia|]. change max with 1536.
  pose proof (Z.mul_div_le (MAXFILE * BSZ - off) 1536 ltac:(lia)). pose proof (Z.div_pos (MAXFILE * BSZ - off) 1536). lia.
Qed.

Lemma written_nil_by f k v : (f < length (ftable k))%nat -> opened (f_ip (ft_at f k)) (kfs k) v ->
  0 <= f_off (ft_at f k) <= i_size (ip_at (f_ip (ft_at f k)) (kfs k)) -> written_by f [] k v k v.
Proof.
  intros Hf Ho Hoff. split; [by apply chunk_nil|]. cbn [length]. rewrite Z.add_0_r.
  replace (set_foff (f_off (ft_at f k)) (ft_at f k)) with (ft_at f k) by (by destruct (ft_at f k)).
  replace (set_kfs (kfs k) k) with k by (by destruct k). by rewrite ft_set_id.
Qed.

Lemma ft_at_same f x k : (f < length (ftable k))%nat -> ft_at f (ft_set f x k) = x.
Proof. intros Hf. unfold ft_at, ft_set. cbn. by rewrite list_lookup_insert_eq. Qed.

(** The number of pieces. *)
Definition pieces (n : Z) : Z := (n + (max - 1)) / max.

Lemma pieces_step n : 0 < n -> 1 <= pieces n /\ pieces (n - Z.min n max) = pieces n - 1.
Proof.
  intros Hn. unfold pieces. change max with 1536. assert (1 <= (n + (1536 - 1)) / 1536).
  { apply Z.div_le_lower_bound; lia. }
  split; [done|]. destruct (Z.le_gt_cases n 1536).
  - rewrite Z.min_l, Z.sub_diag by lia. change ((0 + (1536 - 1)) / 1536) with 0.
    assert ((n + (1536 - 1)) / 1536 < 2) by (apply Z.div_lt_upper_bound; lia). lia.
  - rewrite Z.min_r by lia. replace (n - 1536 + (1536 - 1)) with (n + (1536 - 1) + (-1) * 1536) by lia. rewrite Z.div_add by lia. lia.
Qed.

Lemma filewrite_loop_run fuel f src : forall i k v,
  let x := ft_at f k in let ip := f_ip x in let m := kfs k in let n := Z.of_nat (length src) in let w := accepted (f_off x) (n - i) in
  (f < length (ftable k))%nat -> opened ip m v -> 0 <= f_off x <= i_size (ip_at ip m) -> 0 <= i <= n -> (Z.to_nat (n - i) <= fuel)%nat ->
  sb_size (sb m) <= BPB -> 8 * pieces (n - i) <= Z.of_nat (nfree (sb m) v) ->
  exists k' v', run_s (filewrite_loop me devwrite fuel f src i) (k, v) = Ok (i + w) (k', v') /\
    written_by f (take (Z.to_nat w) (drop (Z.to_nat i) src)) k v k' v' /\
    forall l, MAXOPBLOCKS < Log.size l - 1 -> fits_s (filewrite_loop me devwrite fuel f src i) l k v.
Proof.
  induction fuel as [|fuel IH]; intros i k v x ip m n w Hf Ho Hoff Hi Hfu Hs Hfree; cbn [filewrite_loop]; fold n.
  all: pose proof (f_size _ _ _ _ (a_file _ _ _ (o_file _ _ _ Ho))) as Hsz; change (0 <= i_size (ip_at ip m) <= MAXFILE * BSZ) in Hsz.
  - assert (Ew : w = 0). { unfold w, accepted. replace (n - i) with 0 by lia. by rewrite (proj2 (Z.leb_le _ _)) by lia. }
    rewrite (proj2 (Z.ltb_ge i n)) by lia. cbn [negb]. rewrite Ew, Z.add_0_r. exists k, v. split; [done|]. split; [by apply written_nil_by|done].
  - destruct (Z.ltb_spec i n) as [Hlt|Hge]; cbn [negb].
    2: { assert (Ew : w = 0). { unfold w, accepted. replace (n - i) with 0 by lia. by rewrite (proj2 (Z.leb_le _ _)) by lia. }
         rewrite Ew, Z.add_0_r. exists k, v. split; [done|]. split; [by apply written_nil_by|done]. }
    assert (En1 : (if n - i >? max then max else n - i) = Z.min (n - i) max) by (destruct (Z.gtb_spec (n - i) max); lia). rewrite En1.
    set (n1 := Z.min (n - i) max) in *. assert (Hmx : max = 1536) by done. assert (Hn1 : 0 < n1 <= max) by lia.
    set (piece := take (Z.to_nat n1) (drop (Z.to_nat i) src)).
    assert (Hlp : Z.of_nat (length piece) = n1) by (unfold piece; rewrite length_take, length_drop; lia).
    destruct (pieces_step (n - i) ltac:(lia)) as [Hp1 Hp2]. fold n1 in Hp2.
    pose proof (nblocks_max (f_off x) n1 ltac:(lia) ltac:(lia)) as Hnb.
    pose proof (write_chunk_run f k v piece) as Hc. cbv zeta in Hc. rewrite Hlp in Hc. fold x ip m in Hc.
    specialize (Hc Hf Ho Hoff Hn1 Hs ltac:(lia)). destruct (Z.gtb_spec (f_off x + n1) (MAXFILE * BSZ)) as [Hg|Hg].
    + destruct Hc as (t' & E & V & Hid & Ht). assert (Ew : w = 0) by (apply accepted_zero; lia).
      rewrite Ew, Z.add_0_r. exists k, v. split; [|split; [by apply written_nil_by|]].
      * rewrite (run_s_stx _ _ _ _ _ _ _ E), V. done.
      * intros l Hl. eapply fits_stx; [exact E| |done|done]. apply touched_fits; [|rewrite Ht, size_empty; unfold MAXOPBLOCKS; lia|done].
        by eapply run_tx_within; [apply within_tx0|exact E].
    + destruct Hc as (m' & t' & E & Hcd & Hid & Ht & Hfr). set (k1 := ft_set f (set_foff (f_off x + n1) x) (set_kfs m' k)) in *.
      assert (Ex : ft_at f k1 = set_foff (f_off x + n1) x) by (by apply ft_at_same).
      set (w1 := accepted (f_off x + n1) (n - (i + n1))).
      assert (Hw : w = n1 + w1) by (unfold w, w1; rewrite accepted_step by lia; fold n1; do 2 f_equal; lia).
      pose proof (accepted_range (f_off x + n1) (n - (i + n1)) ltac:(lia) ltac:(lia)) as Hw1. fold w1 in Hw1.
      specialize (IH (i + n1) k1 (view t')). cbv zeta in IH. rewrite Ex in IH. fold n in IH.
      change (f_ip (set_foff _ x)) with ip in IH. change (f_off (set_foff ?o x)) with o in IH. change (kfs k1) with m' in IH.
      pose proof (cd_sb _ _ _ _ _ _ _ Hcd) as Hsb. pose proof (cd_size _ _ _ _ _ _ _ Hcd) as Hsize. rewrite Hlp in Hsize. rewrite Hsb in IH. fold w1 in IH.
      destruct IH as (k' & v' & Er & [Wc Wk] & Hfit); try lia.
      * unfold k1. cbn. by rewrite length_insert.
      * apply Hcd.
      * replace (n - (i + n1)) with (n - i - n1) by lia. lia.
      * exists k', v'. split; [|split; [|]].
        -- rewrite (run_s_stx _ _ _ _ _ _ _ E). rewrite (proj2 (Z.ltb_ge n1 0)), Z.eqb_refl by lia. cbn [negb]. rewrite Er. f_equal. lia.
        -- rewrite Ex in Wc, Wk.
           assert (Et : take (Z.to_nat w) (drop (Z.to_nat i) src) = piece ++ take (Z.to_nat w1) (drop (Z.to_nat (i + n1)) src)).
           { rewrite Hw, Z2Nat.inj_add, Z2Nat.inj_add by lia. unfold piece. rewrite <- drop_drop. by rewrite take_take_drop. }
           rewrite Et. split.
           ++ fold x ip m. apply (chunk_app _ _ _ _ _ _ m' (view t')); [done|done|]. rewrite Hlp. exact Wc.
           ++ fold x. rewrite Wk at 1. unfold k1, ft_set, set_ftable, set_kfs. cbn. rewrite list_insert_insert_eq.
              do 2 f_equal. unfold set_foff. cbn. f_equal. rewrite length_app. lia.
        -- intros l Hl. eapply fits_stx; [exact E| |done|].
           ++ apply touched_fits; [|unfold MAXOPBLOCKS; lia|done]. by eapply run_tx_within; [apply within_tx0|exact E].
           ++ rewrite (proj2 (Z.ltb_ge n1 0)), Z.eqb_refl by lia. cbn [negb]. by apply Hfit.
Qed.
End Write.

(** ** Calls as programs *)

Lemma run_s_bind_ok {Mem A B} (p : sprog Mem A) (g : A -> sprog Mem B) st a st' : run_s p st = Ok a st' -> run_s (p ≫= g) st = run_s (g a) st'.
Proof.
  unfold mbind, sprog_bind. revert st. induction p as [b|msg| |C p k IH|C p k IH]; intros st; cbn; try done.
  - by intros [= -> ->].
  - destruct (run_tx p _) as [c [m t]|?|[]|]; try done. apply IH.
  - destruct (run_tx p _) as [c [m t]|?|[]|]; try done. apply IH.
Qed.

Lemma fits_s_bind {Mem A B} (p : sprog Mem A) (g : A -> sprog Mem B) l m v a m' v' : run_s p (m, v) = Ok a (m', v') -> fits_s p l m v ->
  fits_s (g a) l m' v' -> fits_s (p ≫= g) l m v.
Proof.
  unfold mbind, sprog_bind. revert m v. induction p as [b|msg| |C p k IH|C p k IH]; intros m v; cbn; try done.
  - by intros [= -> -> ->].
  - destruct (run_tx p _) as [c [m1 t]|?|[]|]; try done. cbn. intros Hr (H1 & H2 & H3 & H4) Hg. split; [done|]. split; [done|]. split; [done|]. by apply IH.
  - destruct (run_tx p _) as [c [m1 t]|?|[]|]; try done. cbn. intros Hr (H1 & H2 & H3 & H5 & H4) Hg.
    split; [done|]. split; [done|]. split; [done|]. split; [done|]. by apply IH.
Qed.

Lemma run_s_gets {A B} (h : kern -> A) (g : A -> sprog kern B) k v : run_s (srun (tgets h) ≫= g) (k, v) = run_s (g (h k)) (k, v).
Proof. done. Qed.

Lemma fits_s_gets {A B} (h : kern -> A) (g : A -> sprog kern B) l k v : MAXOPBLOCKS < Log.size l - 1 -> fits_s (g (h k)) l k v ->
  fits_s (srun (tgets h) ≫= g) l k v.
Proof.
  intros Hl Hg. cbn. split; [|done]. apply touched_fits; [apply within_tx0|cbn; rewrite size_empty; unfold MAXOPBLOCKS; lia|done].
Qed.

(** A process with a file open and the root as its directory, and a vacant slot. *)
Module SmallKern.

Definition args (fd : Z) : list Z := [0; 0; 0; 0] ++ le_bytes 4 fd.
Definition proc1 : fproc := mkfproc 1 false (Some 0%nat :: replicate 15 None) (Some 0%nat) (args 0) 0.
Definition proc2 : fproc := mkfproc 0 false (replicate 16 None) None [] 0.
Definition open0 : file := mkfile FD_INODE 1 true true 0 1 3.
Definition k0 : kern := mkkern Small.mem [open0; file0; file0] ex_kmem ∅ [proc1; proc2].

Lemma note_opened : opened 1 (kfs k0) Small.disk.
Proof.
  split; [apply Small.note_at|done|apply Small.fields_small; by right|done|apply Small.synced_small; by right|done|done|done].
Qed.
End SmallKern.

(** ** The theorems *)

(** C4. One transaction of [filewrite] fits the log and the cache: on a disk whose
    free map is one block, as mkfs makes it, and which has eight free blocks, a piece of
    at most [max] bytes, at any offset, whether it succeeds or makes the file too large,
    reads at most seven distinct blocks - four of the file, the indirect block, the free
    map and the inode - so that it writes at most seven blocks to the log and never uses
    more buffers; an operation may use [MAXOPBLOCKS] = 10. *)
Theorem write_chunk_bounded me devwrite f k v src :
  let x := ft_at f k in let m := kfs k in
  (f < length (ftable k))%nat -> opened (f_ip x) m v -> 0 <= f_off x <= i_size (ip_at (f_ip x) m) -> 0 < Z.of_nat (length src) <= max ->
  sb_size (sb m) <= BPB -> (8 <= nfree (sb m) v)%nat ->
  exists r k' t', run_tx (write_chunk me devwrite f src) (k, tx0 v) = Ok r (k', t') /\
    (base.size (touched t') <= 7)%nat /\ (base.size (tlogged t') <= 7)%nat /\ (peak t' <= 7)%nat /\
    theld t' = ∅ /\ stale t' = ∅ /\ 7 < MAXOPBLOCKS.
Proof.
  intros x m Hf Ho Hoff Hn Hs Hfree. pose proof (nblocks_max (f_off x) (Z.of_nat (length src)) ltac:(lia) ltac:(lia)).
  pose proof (write_chunk_run me devwrite f k v src Hf Ho Hoff Hn Hs ltac:(fold x m; lia)) as Hc. cbv zeta in Hc.
  assert (Hb : forall t' r k', run_tx (write_chunk me devwrite f src) (k, tx0 v) = Ok r (k', t') -> Z.of_nat (base.size (touched t')) <= 7 ->
    (base.size (touched t') <= 7)%nat /\ (base.size (tlogged t') <= 7)%nat /\ (peak t' <= 7)%nat).
  { intros t' r k' E Ht. destruct (run_tx_within _ _ _ _ _ _ (within_tx0 v) E) as (H1 & _ & H3). pose proof (subseteq_size _ _ H1). lia. }
  destruct (_ >? _).
  - destruct Hc as (t' & E & _ & [Hh Hst] & Ht). exists (-1), k, t'. split; [done|]. destruct (Hb t' _ _ E) as (? & ? & ?); [rewrite Ht, size_empty; lia|done].
  - destruct Hc as (m' & t' & E & _ & [Hh Hst] & Ht & _). eexists _, _, t'. split; [exact E|]. by destruct (Hb t' _ _ E Ht) as (? & ? & ?).
Qed.

Lemma write_chunk_bounded_witness : exists r k' t', run_tx (write_chunk 0 (fun _ => None) 0 (cs "hello")) (SmallKern.k0, tx0 Small.disk) = Ok r (k', t') /\
  (base.size (touched t') <= 7)%nat /\ (base.size (tlogged t') <= 7)%nat /\ (peak t' <= 7)%nat.
Proof.
  destruct (write_chunk_bounded 0 (fun _ => None) 0 SmallKern.k0 Small.disk (cs "hello")) as (r & k' & t' & E & H0 & H1 & H2 & _).
  - cbn. lia.
  - exact SmallKern.note_opened.
  - cbn. lia.
  - vm_compute. split; [reflexivity|discriminate].
  - vm_compute. discriminate.
  - change (8 <= nfree Small.sblock Small.disk)%nat. rewrite Small.free_small. lia.
  - exists r, k', t'. exact (conj E (conj H0 (conj H1 H2))).
Defined.

(** C3. [filewrite] of an open file, split into transactions, is one write: it puts
    the bytes at the file's offset, moves the offset past them and returns their
    number.  When they would make the file larger than a file can be it returns -1,
    having stored the pieces before the one that does not fit.  Every transaction
    fits the log and the cache, so that after a crash the file holds the bytes of a
    number of whole pieces. *)
Theorem filewrite_correct me devwrite f k v src :
  let x := ft_at f k in let ip := f_ip x in let m := kfs k in let n := Z.of_nat (length src) in
  let w := if f_off x + n <=? MAXFILE * BSZ then n else max * ((MAXFILE * BSZ - f_off x) / max) in
  (f < length (ftable k))%nat -> f_type x = FD_INODE -> f_writable x = true -> opened ip m v -> 0 <= f_off x <= i_size (ip_at ip m) ->
  sb_size (sb m) <= BPB -> 8 * pieces n <= Z.of_nat (nfree (sb m) v) ->
  exists k' v', run_s (filewrite me devwrite f src) (k, v) = Ok (if f_off x + n <=? MAXFILE * BSZ then n else -1) (k', v') /\
    contents v' (ip_at ip (kfs k')) = splice (Z.to_nat (f_off x)) (take (Z.to_nat w) src) (contents v (ip_at ip m)) /\
    ft_at f k' = set_foff (f_off x + w) x /\ opened ip (kfs k') v' /\
    forall l, MAXOPBLOCKS < Log.size l - 1 -> fits_s (filewrite me devwrite f src) l k v.
Proof.
  intros x ip m n w Hf Hty Hwr Ho Hoff Hs Hfree. pose proof (f_size _ _ _ _ (a_file _ _ _ (o_file _ _ _ Ho))) as Hsz. fold (accepted (f_off x) n) in w.
  pose proof (filewrite_loop_run me devwrite (length src) f src 0 k v) as H. cbv zeta in H. fold x ip m n in H. rewrite Z.sub_0_r in H. fold w in H.
  destruct H as (k' & v' & Er & [Wc Wk] & Hfit); try done; [lia|lia|].
  change (drop (Z.to_nat 0) src) with src in Wc, Wk. pose proof (accepted_range (f_off x) n ltac:(lia) ltac:(lia)) as Hw. fold w in Hw.
  exists k', v'. unfold filewrite, file_. split; [|split; [apply Wc|split; [|split; [apply Wc|]]]].
  - rewrite run_s_gets. fold x. rewrite Hwr, Hty. cbn [negb]. rewrite (run_s_bind_ok _ _ _ _ _ Er). cbn. rewrite Z.add_0_l. f_equal.
    unfold w, accepted. destruct (Z.leb_spec (f_off x + n) (MAXFILE * BSZ)); [by rewrite Z.eqb_refl|]. rewrite (proj2 (Z.eqb_neq _ _)); [done|].
    pose proof (Z.mul_div_le (MAXFILE * BSZ - f_off x) max ltac:(done)). lia.
  - rewrite Wk, ft_at_same by done. do 2 f_equal. rewrite length_take. unfold n in Hw. lia.
  - intros l Hl. apply fits_s_gets; [done|]. fold x. rewrite Hwr, Hty. cbn [negb]. by eapply fits_s_bind; [exact Er|apply Hfit|].
Qed.

Lemma filewrite_correct_witness : exists k' v', run_s (filewrite 0 (fun _ => None) 0 (cs "hello")) (SmallKern.k0, Small.disk) = Ok 5 (k', v') /\
  contents v' (ip_at 1 (kfs k')) = cs "abchello" /\ f_off (ft_at 0 k') = 8.
Proof.
  destruct (filewrite_correct 0 (fun _ => None) 0 SmallKern.k0 Small.disk (cs "hello")) as (k' & v' & E & Hc & Ho & _).
  - cbn. lia.
  - reflexivity.
  - reflexivity.
  - exact SmallKern.note_opened.
  - cbn. lia.
  - vm_compute. discriminate.
  - change (nfree (sb (kfs SmallKern.k0)) Small.disk) with (nfree Small.sblock Small.disk). rewrite Small.free_small. vm_compute. discriminate.
  - exists k', v'. split; [exact E|]. split; [etransitivity; [exact Hc|vm_compute; reflexivity]|rewrite Ho; reflexivity].
Defined.

(** C9. [fileread] of an open file returns the bytes from the file's offset on, at
    most [n] and up to its end, and moves the offset past them; it changes nothing
    else. *)
Theorem fileread_correct me devread f k v n :
  let x := ft_at f k in let ip := f_ip x in let m := kfs k in
  let r := Z.min n (i_size (ip_at ip m) - f_off x) in
  (f < length (ftable k))%nat -> f_type x = FD_INODE -> f_readable x = true -> opened ip m v -> 0 <= f_off x <= i_size (ip_at ip m) ->
  0 <= n < 2 ^ 31 ->
  run_s (fileread me devread f n) (k, v) =
    Ok (r, take (Z.to_nat r) (drop (Z.to_nat (f_off x)) (contents v (ip_at ip m)))) (ft_set f (set_foff (f_off x + r) x) k, v).
Proof.
  intros x ip m r Hf Hty Hrd Ho Hoff Hn. pose proof Ho as [Hfa Hdev Hfo Hin Hsy Hv Hr Hl]. pose proof (a_ip _ _ _ Hfa) as Hip.
  pose proof (f_size _ _ _ _ (a_file _ _ _ Hfa)) as Hsz. assert (Hmax : MAXFILE * BSZ = 71680) by done.
  unfold fileread, file_. rewrite run_s_gets. fold x. rewrite Hrd, Hty. cbn [negb].
  assert (E : exists t', view t' = v /\ run_tx (p ← curproc me; fsop (ilock (p_pid p) (f_ip x)) ;; off ← tgets (fun k => f_off (ft_at f k));
    r ← fsop (readi devread (f_ip x) off n); when (r.1 >? 0) (fupd f (fun x => set_foff (u32 (f_off x + r.1)) x)) ;;
    fsop (iunlock (p_pid p) (f_ip x)) ;; mret r) (k, tx0 v) =
    Ok (r, take (Z.to_nat r) (drop (Z.to_nat (f_off x)) (contents v (ip_at ip m)))) (ft_set f (set_foff (f_off x + r) x) k, t')).
  2: { destruct E as (t' & V & E). cbn [run_s srun fst snd]. rewrite E. by rewrite V. }
  unfold curproc. rewrite run_tgets. set (pid := p_pid (proc_at me k)). fold ip.
  rewrite (run_fsop_ok _ _ _ _ _ _ _ (ilock_valid pid ip m (tx0 v) Hip Hv Hr Hl)). set (m1 := lock_ip pid ip m).
  rewrite run_tgets. change (ft_at f (set_kfs m1 k)) with x. destruct (opened_lock pid ip m v Ho) as [Hfa1 E1]. fold m1 in Hfa1, E1.
  pose proof (readi_run devread ip (f_off x) n m1 (tx0 v) Hfa1) as Hrun. cbv zeta in Hrun. rewrite E1 in Hrun.
  specialize (Hrun Hdev ltac:(lia) ltac:(lia)). change (i_size (set_lock _ ?y)) with (i_size y) in Hrun.
  destruct (Z.gtb_spec (f_off x) (i_size (ip_at ip m))); [lia|]. destruct (Z.geb_spec (f_off x + n) (2 ^ 32)); [lia|]. cbn [orb] in Hrun.
  destruct Hrun as (t' & Hrd' & Er). change (contents (view (tx0 v)) (set_lock _ ?y)) with (contents v y) in Er. fold r in Er.
  rewrite (run_fsop_ok _ _ (set_kfs m1 k) _ _ _ _ Er). exists t'. split; [by rewrite (rd_view _ _ Hrd')|]. cbn [fst].
  assert (Hun : unlock_ip ip m1 = m) by (by apply relock).
  destruct (Z.gtb_spec r 0) as [Hpos|Hz]; cbn [when].
  - unfold fupd. rewrite run_tmod. change (ft_at f (set_kfs m1 (set_kfs m1 k))) with x. rewrite u32_id by lia.
    rewrite (run_fsop_ok _ _ (ft_set f (set_foff (f_off x + r) x) (set_kfs m1 (set_kfs m1 k))) _ _ _ _
      (iunlock_held pid ip m1 t' ltac:(by rewrite E1) ltac:(by rewrite E1))). rewrite Hun. by destruct k.
  - change (mret tt ≫= ?q) with (q tt). cbn beta.
    rewrite (run_fsop_ok _ _ (set_kfs m1 (set_kfs m1 k)) _ _ _ _ (iunlock_held pid ip m1 t' ltac:(by rewrite E1) ltac:(by rewrite E1))). rewrite Hun.
    assert (r = 0) as -> by lia. rewrite Z.add_0_r. rewrite <- (ft_set_id f k Hf) at 1. fold x.
    replace (set_foff (f_off x) x) with x by (by destruct x). by destruct k.
Qed.

Lemma fileread_correct_witness :
  run_s (fileread 0 (fun _ => None) 0 10) (ft_set 0 (set_foff 1 SmallKern.open0) SmallKern.k0, Small.disk) = Ok (2, cs "bc") (SmallKern.k0, Small.disk).
Proof.
  refine (fileread_correct 0 (fun _ => None) 0 (ft_set 0 (set_foff 1 SmallKern.open0) SmallKern.k0) Small.disk 10 _ _ _ SmallKern.note_opened _ _).
  - cbn. lia.
  - reflexivity.
  - reflexivity.
  - cbn. lia.
  - lia.
Defined.
