(* ===== verification/Syscall.v ===== *)
(** * Arguments of system calls (system/core/syscall.c, include/syscall.h)

    The user memory of a process is the [sz] bytes from address 0.  [fetchint],
    [fetchstr] and the functions on top of them check an address that comes from
    the user; addresses are 32-bit and their sums wrap.  The theorems say what a
    check that succeeds guarantees, and that none refuses an argument it should
    take. *)

From S2P Require Import Prelude FsProg Fs Kalloc Kern.

Definition sz (p : fproc) : Z := Z.of_nat (length (umem p)).

Definition fetchint (p : fproc) (addr : Z) : option Z :=
  if (addr >=? sz p) || (u32 (addr + 4) >? sz p) then None
  else Some (s32 (get32 (Z.to_nat addr) (umem p))).

(** The loop of [fetchstr]: the number of bytes before the first nul. *)
Fixpoint scan (s : list Z) : option Z :=
  match s with
  | [] => None
  | c :: s' => if c =? 0 then Some 0 else Z.succ <$> scan s'
  end.

(** The pointer and the length. *)
Definition fetchstr (p : fproc) (addr : Z) : option (Z * Z) :=
  if addr >=? sz p then None else pair addr <$> scan (drop (Z.to_nat addr) (umem p)).

Definition argint (p : fproc) (n : Z) : option Z := fetchint p (u32 (tf_esp p + 4 + 4 * n)).

Definition argptr (p : fproc) (n size : Z) : option Z :=
  i ← argint p n;
  if (size <? 0) || (u32 i >=? sz p) || (u32 (u32 i + size) >? sz p) then None else Some (u32 i).

Definition argstr (p : fproc) (n : Z) : option (Z * Z) := addr ← argint p n; fetchstr p (u32 addr).

(** The bytes of user memory at an address. *)
Definition ubytes (p : fproc) (a n : Z) : list Z := take (Z.to_nat n) (drop (Z.to_nat a) (umem p)).

(** The string that [argstr] finds. *)
Definition argpath (p : fproc) (n : Z) : option (list Z) := '(a, len) ← argstr p n; Some (ubytes p a len).

(** ** What the checks guarantee *)

(** No sum that the checks form wraps, as user memory ends below the kernel. *)
Lemma check_exact s a k : 0 <= s <= KERNBASE -> 0 <= a < 2 ^ 32 -> 0 <= k < 2 ^ 31 ->
  (a >=? s) || (u32 (a + k) >? s) = negb ((a <? s) && (a + k <=? s)).
Proof.
  intros Hs Ha Hk. unfold KERNBASE in *. destruct (Z.ltb_spec a s).
  - rewrite u32_id by lia. lia.
  - rewrite (proj2 (Z.geb_le a s)) by lia. done.
Qed.

Lemma fetchint_exact p addr : sz p <= KERNBASE -> 0 <= addr < 2 ^ 32 ->
  fetchint p addr = if addr + 4 <=? sz p then Some (s32 (get32 (Z.to_nat addr) (umem p))) else None.
Proof.
  intros Hs Ha. unfold fetchint. rewrite check_exact by (unfold sz in *; lia).
  destruct (Z.ltb_spec addr (sz p)), (Z.leb_spec (addr + 4) (sz p)); cbn; try lia; done.
Qed.

Lemma scan_spec s : match scan s with
  | Some n => 0 <= n < Z.of_nat (length s) /\ aget 0 s n = 0 /\ forall i, 0 <= i < n -> aget 0 s i <> 0
  | None => forall i, 0 <= i < Z.of_nat (length s) -> aget 0 s i <> 0
  end.
Proof.
  assert (Hc : forall c s' i, 0 <= i -> aget 0 (c :: s') i = if i =? 0 then c else aget 0 s' (i - 1)).
  { intros c s' i Hi. unfold aget. rewrite (proj2 (Z.ltb_ge i 0)) by lia. destruct (Z.eqb_spec i 0) as [->|]; [done|].
    rewrite (proj2 (Z.ltb_ge (i - 1) 0)) by lia. by replace (Z.to_nat i) with (S (Z.to_nat (i - 1))) by lia. }
  induction s as [|c s IH]; cbn [scan]; [cbn; lia|]. destruct (Z.eqb_spec c 0) as [->|Hne].
  - cbn. split; [lia|]. split; [done|lia].
  - destruct (scan s) as [n|]; cbn [fmap option_fmap option_map length].
    + destruct IH as (H1 & H2 & H3). split; [lia|]. rewrite Hc, (proj2 (Z.eqb_neq _ _)) by lia.
      replace (Z.succ n - 1) with n by lia. split; [done|]. intros i Hi. rewrite Hc by lia. destruct (Z.eqb_spec i 0); [done|]. apply H3. lia.
    + intros i Hi. rewrite Hc by lia. destruct (Z.eqb_spec i 0); [done|]. apply IH. lia.
Qed.

Lemma aget_umem_drop (s : list Z) a i : 0 <= a -> 0 <= i -> aget 0 (drop (Z.to_nat a) s) i = aget 0 s (a + i).
Proof.
  intros Ha Hi. unfold aget. rewrite !(proj2 (Z.ltb_ge _ _)) by lia. rewrite lookup_drop. do 2 f_equal. lia.
Qed.

Lemma fetchstr_exact p addr : 0 <= addr ->
  match fetchstr p addr with
  | Some (a, len) => a = addr /\ 0 <= len /\ addr + len < sz p /\ aget 0 (umem p) (addr + len) = 0 /\
      forall i, addr <= i < addr + len -> aget 0 (umem p) i <> 0
  | None => forall i, addr <= i < sz p -> aget 0 (umem p) i <> 0
  end.
Proof.
  intros Ha. unfold fetchstr. destruct (Z.geb_spec addr (sz p)) as [|Hlt]; [intros i Hi; lia|].
  pose proof (scan_spec (drop (Z.to_nat addr) (umem p))) as H. unfold sz in *. rewrite length_drop in H.
  destruct (scan _) as [n|]; cbn.
  - destruct H as (H1 & H2 & H3). rewrite aget_umem_drop in H2 by lia. split; [done|]. split; [lia|]. split; [lia|]. split; [done|].
    intros i Hi. specialize (H3 (i - addr)). rewrite aget_umem_drop in H3 by lia. replace (addr + (i - addr)) with i in H3 by lia. apply H3. lia.
  - intros i Hi. specialize (H (i - addr)). rewrite aget_umem_drop in H by lia. replace (addr + (i - addr)) with i in H by lia. apply H. lia.
Qed.

(** C7. The checks of system-call arguments are exact, for a process whose memory
    ends below the kernel.  [argint] reads the word of the stack when all of it is
    user memory, and fails otherwise; [argptr] takes a pointer exactly when it is in
    user memory and the [size] bytes from it are, whatever the user passes, with no
    wrap-around; [argstr] finds the first nul at or after the pointer, inside user
    memory, and fails when there is none. *)
Theorem args_exact p n : sz p <= KERNBASE ->
  let a := u32 (tf_esp p + 4 + 4 * n) in
  argint p n = (if a + 4 <=? sz p then Some (s32 (get32 (Z.to_nat a) (umem p))) else None) /\
  (forall size, - 2 ^ 31 <= size < 2 ^ 31 ->
     argptr p n size =
       i ← argint p n; if (0 <=? size) && (u32 i <? sz p) && (u32 i + size <=? sz p) then Some (u32 i) else None) /\
  (forall i, argint p n = Some i ->
     match argstr p n with
     | Some (s, len) => s = u32 i /\ 0 <= s /\ 0 <= len /\ s + len < sz p /\ aget 0 (umem p) (s + len) = 0 /\
         forall j, s <= j < s + len -> aget 0 (umem p) j <> 0
     | None => forall j, u32 i <= j < sz p -> aget 0 (umem p) j <> 0
     end).
Proof.
  intros Hs a. split; [apply fetchint_exact; [done|apply u32_range]|]. split.
  - intros size Hsz. unfold argptr. destruct (argint p n) as [i|]; [|done]. cbn. pose proof (u32_range i).
    destruct (Z.ltb_spec size 0), (Z.leb_spec 0 size); try lia; [done|]. cbn [orb andb].
    rewrite check_exact by (unfold sz in *; lia). by destruct (_ && _).
  - intros i Hi. unfold argstr. rewrite Hi. cbn. pose proof (u32_range i).
    pose proof (fetchstr_exact p (u32 i) ltac:(lia)) as H'. destruct (fetchstr p (u32 i)) as [[s len]|]; [|done].
    destruct H' as (-> & H'). split; [done|]. split; [lia|done].
Qed.

(** A process of 24 bytes: its stack holds a return address, a string's address and
    a number, its string is [ab]. *)
Definition ex_proc : fproc :=
  mkfproc 1 false [] None ([97; 98; 0; 0] ++ [0; 0; 0; 0] ++ le_bytes 4 0 ++ le_bytes 4 0 ++ le_bytes 4 4294967290 ++ [1; 2; 3; 4]) 8.

Lemma args_exact_witness :
  argint ex_proc 2 = Some 67305985 /\ argint ex_proc 3 = None /\ argptr ex_proc 1 10 = None /\ argptr ex_proc 0 24 = Some 0 /\
  argstr ex_proc 0 = Some (0, 2) /\ 0 + 2 < sz ex_proc.
Proof.
  assert (Hs : sz ex_proc <= KERNBASE) by (vm_compute; discriminate).
  pose proof (args_exact ex_proc 2 Hs) as [H2 _]. pose proof (args_exact ex_proc 3 Hs) as [H3 _].
  destruct (args_exact ex_proc 1 Hs) as (_ & H1 & _). destruct (args_exact ex_proc 0 Hs) as (_ & H0 & Hstr).
  split; [rewrite H2; reflexivity|]. split; [rewrite H3; reflexivity|]. split; [rewrite H1 by lia; reflexivity|].
  split; [rewrite H0 by lia; reflexivity|]. specialize (Hstr 0 ltac:(reflexivity)). split; [reflexivity|].
  change (argstr ex_proc 0) with (Some (0, 2)) in Hstr. apply Hstr.
Defined.
