(* ===== verification/Sysfile.v ===== *)
(** * System calls on files (system/core/sysfile.c)

    The calls, over the arguments of Syscall.v, the open files of File.v and fs.c.
    What a call does between [begin_op] and [end_op] is one transaction.  The
    transactions of [link] and [unlink], and [create], use the memory of fs.c only
    and are programs of it. *)

From S2P Require Import Prelude Spinlock Bio BioSpec BlockProg Log LogCrash Recovery LogOps FsProg Fs FsCall Pipe Kalloc Kern File Syscall.
Import Fs.

Definition O_RDONLY : Z := 0.
Definition O_WRONLY : Z := 1.
Definition O_RDWR : Z := 2.
Definition O_CREATE : Z := 512.
Definition MAXARG : nat := 32.

(** ** Transactions of fs.c's state *)

Section Trees.
Context (pid : Z) (devread : Z -> option (Z -> Z * list Z)) (devwrite : Z -> option (list Z -> Z)) (cwd : nat).

(** [ip->nlink++] and [ip->nlink--], with [iupdate]. *)
Definition add_nlink (ip : nat) (d : Z) : T unit := upd ip (fun x => set_nlink (s16 (i_nlink x + d)) x) ;; iupdate ip.

(** [bad:] of [sys_link] *)
Definition link_bad (ip : nat) : T Z := ilock pid ip ;; add_nlink ip (-1) ;; iunlockput pid ip ;; mret (-1).

Definition link (old new : list Z) : T Z :=
  r ← namei pid devread cwd old;
  match r with
  | None => mret (-1)
  | Some ip =>
      ilock pid ip ;;
      x ← inode_ ip;
      if i_type x =? T_DIR then iunlockput pid ip ;; mret (-1) else
      add_nlink ip 1 ;;
      iunlock pid ip ;;
      r ← nameiparent pid devread cwd new;
      match r with
      | None => link_bad ip
      | Some (dp, name) =>
          ilock pid dp ;;
          d ← inode_ dp;
          x ← inode_ ip;
          bad ← (if negb (i_dev d =? i_dev x) then mret true
                 else r ← dirlink pid devread devwrite dp name (i_inum x); mret (r <? 0));
          iunlockput pid dp ;;
          if (bad : bool) then link_bad ip else
          iput pid ip ;;
          mret 0
      end
  end.

(** The loop of [isdirempty], from the entry at [off]. *)
Fixpoint isdirempty_loop (fuel : nat) (dp : nat) (off : Z) : T bool :=
  x ← inode_ dp;
  if negb (off <? i_size x) then mret true else
  match fuel with
  | O => tnofuel
  | S fuel' =>
      r ← readi devread dp off sizeof_dirent;
      if negb (r.1 =? sizeof_dirent) then tpanic "isdirempty: readi" else
      if negb (de_inum r.2 =? 0) then mret false else
      isdirempty_loop fuel' dp (off + sizeof_dirent)
  end.

Definition isdirempty (dp : nat) : T bool :=
  x ← inode_ dp;
  isdirempty_loop (dir_fuel x) dp (2 * sizeof_dirent).

(** [bad:] of [sys_unlink] *)
Definition unlink_bad (dp : nat) : T Z := iunlockput pid dp ;; mret (-1).

Definition unlink (path : list Z) : T Z :=
  r ← nameiparent pid devread cwd path;
  match r with
  | None => mret (-1)
  | Some (dp, name) =>
      ilock pid dp ;;
      if (namecmp name (cs ".") =? 0) || (namecmp name (cs "..") =? 0) then unlink_bad dp else
      r ← dirlookup devread dp name;
      match r with
      | None => unlink_bad dp
      | Some (ip, off) =>
          ilock pid ip ;;
          x ← inode_ ip;
          if i_nlink x <? 1 then tpanic "unlink: nlink < 1" else
          empty ← (if i_type x =? T_DIR then isdirempty ip else mret true);
          if negb empty then iunlockput pid ip ;; unlink_bad dp else
          n ← writei devwrite dp (replicate (Z.to_nat sizeof_dirent) 0) off;
          if negb (n =? sizeof_dirent) then tpanic "unlink: writei" else
          x ← inode_ ip;
          when (i_type x =? T_DIR) (add_nlink dp (-1)) ;;
          iunlockput pid dp ;;
          add_nlink ip (-1) ;;
          iunlockput pid ip ;;
          mret 0
      end
  end.

Definition create (path : list Z) (type major minor : Z) : T (option nat) :=
  r ← nameiparent pid devread cwd path;
  match r with
  | None => mret None
  | Some (dp, name) =>
      ilock pid dp ;;
      r ← dirlookup devread dp name;
      match r with
      | Some (ip, _) =>
          iunlockput pid dp ;;
          ilock pid ip ;;
          x ← inode_ ip;
          if (type =? T_FILE) && (i_type x =? T_FILE) then mret (Some ip) else
          iunlockput pid ip ;;
          mret None
      | None =>
          d ← inode_ dp;
          ip ← ialloc (i_dev d) type;
          ilock pid ip ;;
          upd ip (fun x => set_nlink 1 (set_minor minor (set_major major x))) ;;
          iupdate ip ;;
          when (type =? T_DIR)
            (add_nlink dp 1 ;;
             x ← inode_ ip;
             d ← inode_ dp;
             r ← dirlink pid devread devwrite ip (cs ".") (i_inum x);
             if r <? 0 then tpanic "create dots" else
             r ← dirlink pid devread devwrite ip (cs "..") (i_inum d);
             if r <? 0 then tpanic "create dots" else mret tt) ;;
          x ← inode_ ip;
          r ← dirlink pid devread devwrite dp name (i_inum x);
          if r <? 0 then tpanic "create: dirlink" else
          iunlockput pid dp ;;
          mret (Some ip)
      end
  end.
End Trees.

(** ** The calls *)

Section Calls.
Context (kend : Z) (me : nat) (devread : Z -> option (Z -> Z * list Z)) (devwrite : Z -> option (list Z -> Z)).

Definition pupd (g : fproc -> fproc) : K unit := tmod (fun k => proc_set me (g (proc_at me k)) k).

(** Bytes stored at an address of the running process. *)
Definition ustore (a : Z) (bs : list Z) : K unit := pupd (fun p => set_umem (splice (Z.to_nat a) bs (umem p)) p).

(** A program of fs.c, with the process's identifier and directory. *)
Definition with_proc {A} (p : Z -> nat -> tprog fs A) : K A :=
  c ← curproc me;
  match cwd c with
  | None => tnofuel
  | Some d => fsop (p (p_pid c) d)
  end.

(** The descriptor and the file. *)
Definition argfd (p : fproc) (n : Z) : option (Z * nat) :=
  fd ← argint p n;
  if (fd <? 0) || (fd >=? Z.of_nat NOFILE) then None else
  pair fd <$> mjoin (ofile p !! Z.to_nat fd).

Fixpoint find_fd (i : nat) (l : list (option nat)) : option nat :=
  match l with
  | [] => None
  | None :: _ => Some i
  | Some _ :: l' => find_fd (S i) l'
  end.

Definition fdalloc (f : nat) : K Z :=
  p ← curproc me;
  match find_fd 0 (take NOFILE (ofile p)) with
  | None => mret (-1)
  | Some fd => pupd (fun p => set_ofile (<[fd := Some f]> (ofile p)) p) ;; mret (Z.of_nat fd)
  end.

Definition sys_dup : KS Z :=
  p ← srun (curproc me);
  match argfd p 0 with
  | None => mret (-1)
  | Some (_, f) =>
      fd ← srun (fdalloc f);
      if fd <? 0 then mret (-1) else
      srun (filedup f) ;;
      mret fd
  end.

(** The file, the pointer and the count of [read] and [write]. *)
Definition rw_args (p : fproc) : option (nat * Z * Z) :=
  '(_, f) ← argfd p 0;
  n ← argint p 2;
  a ← argptr p 1 n;
  Some (f, a, n).

Definition sys_read : KS Z :=
  p ← srun (curproc me);
  match rw_args p with
  | None => mret (-1)
  | Some (f, a, n) =>
      r ← fileread me devread f n;
      srun (ustore a r.2) ;;
      mret r.1
  end.

Definition sys_write : KS Z :=
  p ← srun (curproc me);
  match rw_args p with
  | None => mret (-1)
  | Some (f, a, n) => filewrite me devwrite f (ubytes p a n)
  end.

Definition sys_close : KS Z :=
  p ← srun (curproc me);
  match argfd p 0 with
  | None => mret (-1)
  | Some (fd, f) =>
      srun (pupd (fun p => set_ofile (<[Z.to_nat fd := None]> (ofile p)) p)) ;;
      fileclose kend me f ;;
      mret 0
  end.

(** The fields of [struct stat], stored at [a]; the padding keeps its bytes. *)
Definition put_stat (a : nat) (st : stat) (d : list Z) : list Z :=
  put32 (a + 16) (st_size st) (put16 (a + 12) (st_nlink st) (put32 (a + 8) (st_ino st)
    (put32 (a + 4) (st_dev st) (put16 a (st_type st) d)))).

Definition sizeof_stat : Z := 20.

Definition sys_fstat : KS Z :=
  p ← srun (curproc me);
  match argfd p 0, argptr p 1 sizeof_stat with
  | Some (_, f), Some a =>
      r ← filestat me f;
      match r with
      | None => mret (-1)
      | Some st => srun (pupd (fun p => set_umem (put_stat (Z.to_nat a) st (umem p)) p)) ;; mret 0
      end
  | _, _ => mret (-1)
  end.

Definition sys_link : KS Z :=
  p ← srun (curproc me);
  match argpath p 0, argpath p 1 with
  | Some old, Some new => stx (with_proc (fun pid cwd => link pid devread devwrite cwd old new))
  | _, _ => mret (-1)
  end.

Definition sys_unlink : KS Z :=
  p ← srun (curproc me);
  match argpath p 0 with
  | None => mret (-1)
  | Some path => stx (with_proc (fun pid cwd => unlink pid devread devwrite cwd path))
  end.

(** The inode of [sys_open], locked. *)
Definition open_inode (path : list Z) (omode : Z) : K (option nat) :=
  with_proc (fun pid cwd =>
    if negb (Z.land omode O_CREATE =? 0) then create pid devread devwrite cwd path T_FILE 0 0
    else
      r ← namei pid devread cwd path;
      match r with
      | None => mret None
      | Some ip =>
          ilock pid ip ;;
          x ← inode_ ip;
          if (i_type x =? T_DIR) && negb (omode =? O_RDONLY) then iunlockput pid ip ;; mret None
          else mret (Some ip)
      end).

(** The transaction of [sys_open]: the inode, the file and its descriptor. *)
Definition open_tx (path : list Z) (omode : Z) : K (option (nat * nat * Z)) :=
  r ← open_inode path omode;
  match r with
  | None => mret None
  | Some ip =>
      c ← curproc me;
      r ← filealloc;
      match r with
      | None => fsop (iunlockput (p_pid c) ip) ;; mret None
      | Some f =>
          fd ← fdalloc f;
          if fd <? 0 then
            fileclose_tx kend f ;;
            fsop (iunlockput (p_pid c) ip) ;;
            mret None
          else
            fsop (iunlock (p_pid c) ip) ;;
            mret (Some (ip, f, fd))
      end
  end.

Definition sys_open : KS Z :=
  p ← srun (curproc me);
  match argpath p 0, argint p 1 with
  | Some path, Some omode =>
      r ← stx (open_tx path omode);
      match r with
      | None => mret (-1)
      | Some (ip, f, fd) =>
          srun (fupd f (fun x => mkfile FD_INODE (f_ref x) (Z.land omode O_WRONLY =? 0)
                  (negb (Z.land omode O_WRONLY =? 0) || negb (Z.land omode O_RDWR =? 0)) (f_pipe x) ip 0)) ;;
          mret fd
      end
  | _, _ => mret (-1)
  end.

(** [create] and the release of what it returns. *)
Definition make (args : fproc -> option (list Z * Z * Z)) (type : Z) : K Z :=
  p ← curproc me;
  match args p with
  | None => mret (-1)
  | Some (path, major, minor) =>
      with_proc (fun pid cwd =>
        r ← create pid devread devwrite cwd path type major minor;
        match r with
        | None => mret (-1)
        | Some ip => iunlockput pid ip ;; mret 0
        end)
  end.

Definition sys_mkdir : KS Z := stx (make (fun p => path ← argpath p 0; Some (path, 0, 0)) T_DIR).

(** [major] and [minor] are passed as [short]. *)
Definition sys_mknod : KS Z :=
  stx (make (fun p => path ← argpath p 0; major ← argint p 1; minor ← argint p 2; Some (path, s16 major, s16 minor)) T_DEV).

(** The transaction of [sys_chdir]: the new directory. *)
Definition chdir_tx : K (option nat) :=
  p ← curproc me;
  match argpath p 0 with
  | None => mret None
  | Some path =>
      with_proc (fun pid cwd =>
        r ← namei pid devread cwd path;
        match r with
        | None => mret None
        | Some ip =>
            ilock pid ip ;;
            x ← inode_ ip;
            if negb (i_type x =? T_DIR) then iunlockput pid ip ;; mret None else
            iunlock pid ip ;;
            iput pid cwd ;;
            mret (Some ip)
        end)
  end.

Definition sys_chdir : KS Z :=
  r ← stx chdir_tx;
  match r with
  | None => mret (-1)
  | Some ip => srun (pupd (set_cwd (Some ip))) ;; mret 0
  end.

Definition sys_pipe : KS Z :=
  p ← srun (curproc me);
  match argptr p 0 8 with
  | None => mret (-1)
  | Some a =>
      r ← pipealloc kend me;
      match r with
      | None => mret (-1)
      | Some (rf, wf) =>
          fd0 ← srun (fdalloc rf);
          fd1 ← (if fd0 <? 0 then mret (-1) else srun (fdalloc wf));
          if fd1 <? 0 then
            (if fd0 >=? 0 then srun (pupd (fun p => set_ofile (<[Z.to_nat fd0 := None]> (ofile p)) p)) else mret tt) ;;
            fileclose kend me rf ;;
            fileclose kend me wf ;;
            mret (-1)
          else
            srun (ustore a (le_bytes 4 (u32 fd0) ++ le_bytes 4 (u32 fd1))) ;;
            mret 0
      end
  end.

(** The arguments that [sys_exec] passes to [exec]. *)
Fixpoint exec_args (fuel : nat) (p : fproc) (uargv : Z) : option (list (list Z)) :=
  match fuel with
  | O => None
  | S fuel' =>
      uarg ← fetchint p (u32 uargv);
      if u32 uarg =? 0 then Some [] else
      '(a, len) ← fetchstr p (u32 uarg);
      cons (ubytes p a len) <$> exec_args fuel' p (uargv + 4)
  end.

Definition sys_exec_args (p : fproc) : option (list Z * list (list Z)) :=
  path ← argpath p 0;
  uargv ← argint p 1;
  pair path <$> exec_args MAXARG p uargv.
End Calls.

(** ** Files of processes (system/core/proc.c) *)

Section Processes.
Context (kend : Z) (me : nat).

Definition qupd (i : nat) (g : fproc -> fproc) : K unit := tmod (fun k => proc_set i (g (proc_at i k)) k).

(** The loop of [fork] over the descriptors, for the new process [np]. *)
Fixpoint fork_files (n fd np : nat) : K unit :=
  match n with
  | O => mret tt
  | S n' =>
      p ← curproc me;
      match mjoin (ofile p !! fd) with
      | None => mret tt
      | Some f => filedup f ;; qupd np (fun q => set_ofile (<[fd := Some f]> (ofile q)) q)
      end ;;
      fork_files n' (S fd) np
  end.

(** The files and the directory that [fork] gives to [np]. *)
Definition fork_dup (np : nat) : KS unit :=
  srun (fork_files NOFILE 0 np ;;
        p ← curproc me;
        match cwd p with
        | None => tnofuel
        | Some d => fsop (idup d) ;; qupd np (set_cwd (Some d))
        end).

(** The loop of [exit] over the descriptors. *)
Fixpoint exit_files (n fd : nat) : KS unit :=
  match n with
  | O => mret tt
  | S n' =>
      p ← srun (curproc me);
      match mjoin (ofile p !! fd) with
      | None => mret tt
      | Some f => fileclose kend me f ;; srun (qupd me (fun q => set_ofile (<[fd := None]> (ofile q)) q))
      end ;;
      exit_files n' (S fd)
  end.

(** The files and the directory that [exit] gives back. *)
Definition exit_close : KS unit :=
  exit_files NOFILE 0 ;;
  p ← srun (curproc me);
  match cwd p with
  | None => snofuel
  | Some d => stx (fsop (iput (p_pid p) d)) ;; srun (qupd me (set_cwd None))
  end.
End Processes.
