(* ===== verification/FsRefs.v ===== *)
(** * Reference counts and locks of inodes

    [eff P p dr dl] says what a program that starts in memory satisfying [P] and
    returns has done to the inode cache: with its result [a], the reference count
    of the entry [j] has changed by [dr a j] and its lock by [dl a j] (1 when it
    was taken, -1 when it was given back).  The rules follow the program; nothing
    is assumed about the blocks of the disk. *)

From S2P Require Import Prelude Spinlock Bio BioSpec BlockProg Log FsProg Fs FsAlloc FsFile FsInode FsDir FsPath FsCall Kalloc Pipe Kern File Syscall Sysfile.
Import Fs SleepLock.

Definition locked_ (x : inode) : Z := if sl_locked (i_lock x) =? 0 then 0 else 1.

(** The counts of [m'], relative to [m]. *)
Record shift (dr dl : nat -> Z) (m m' : fs) : Prop := {
  sh_len : length (icache m') = length (icache m);
  sh_ref : forall j, (j < length (icache m))%nat -> i_ref (ip_at j m') = i_ref (ip_at j m) + dr j;
  sh_lock : forall j, (j < length (icache m))%nat -> locked_ (ip_at j m') = locked_ (ip_at j m) + dl j
}.

Definition eff {A} (P : fs -> Prop) (p : tprog fs A) (dr dl : A -> nat -> Z) : Prop :=
  forall m t a m' t', P m -> run_tx p (m, t) = Ok a (m', t') -> shift (dr a) (dl a) m m'.

Notation any := (fun _ : fs => True).
Notation none := (fun _ _ => 0).

(** ** Rules *)

Lemma shift_refl dr dl m : (forall j, dr j = 0) -> (forall j, dl j = 0) -> shift dr dl m m.
Proof. intros Hr Hl. split; [done| |]; intros j _; rewrite ?Hr, ?Hl; lia. Qed.

Lemma shift_trans dr dl er el m m1 m2 : shift er el m m1 ->
  shift (fun j => dr j - er j) (fun j => dl j - el j) m1 m2 -> shift dr dl m m2.
Proof.
  intros [L1 R1 K1] [L2 R2 K2]. split; [congruence| |]; intros j Hj.
  - rewrite R2, R1 by (rewrite ?L1; done). lia.
  - rewrite K2, K1 by (rewrite ?L1; done). lia.
Qed.

Lemma shift_ext dr dl er el m m' : (forall j, dr j = er j) -> (forall j, dl j = el j) -> shift dr dl m m' -> shift er el m m'.
Proof. intros Hr Hl [L R K]. split; [done| |]; intros j Hj; [rewrite <- Hr|rewrite <- Hl]; auto. Qed.

Lemma run_bind_inv {Mem A B} (p : tprog Mem A) (f : A -> tprog Mem B) st b st'' : run_tx (p ≫= f) st = Ok b st'' ->
  exists a st', run_tx p st = Ok a st' /\ run_tx (f a) st' = Ok b st''.
Proof. rewrite run_tx_bind. apply bind_ok_inv. Qed.

Lemma eff_bind {A B} P (p : tprog fs A) (f : A -> tprog fs B) er el dr dl : eff P p er el ->
  (forall a, eff any (f a) (fun b j => dr b j - er a j) (fun b j => dl b j - el a j)) -> eff P (p ≫= f) dr dl.
Proof.
  intros H1 H2 m t b m' t' HP Hr. destruct (run_bind_inv _ _ _ _ _ Hr) as (a & [m1 t1] & E1 & E2).
  eapply shift_trans; [by eapply H1|]. by eapply H2.
Qed.

Lemma eff_ret {A} P (a : A) dr dl : (forall j, dr a j = 0) -> (forall j, dl a j = 0) -> eff P (mret a) dr dl.
Proof. intros Hr Hl m t b m' t' _ [= <- <- <-]. by apply shift_refl. Qed.

Lemma eff_tail {A} P (p : tprog fs A) er el dr dl : eff any p er el -> (forall a j, er a j = dr a j) -> (forall a j, el a j = dl a j) ->
  eff P p dr dl.
Proof. intros H Hr Hl m t a m' t' _ E. eapply shift_ext; [apply Hr|apply Hl|]. by eapply H. Qed.

Lemma eff_panic {A} P msg dr dl : eff P (tpanic msg : tprog fs A) dr dl.
Proof. by intros m t a m' t' _. Qed.
Lemma eff_sleep {A} P dr dl : eff P (tsleep : tprog fs A) dr dl.
Proof. by intros m t a m' t' _. Qed.
Lemma eff_nofuel {A} P dr dl : eff P (tnofuel : tprog fs A) dr dl.
Proof. by intros m t a m' t' _. Qed.

Lemma eff_gets {A B} P (g : fs -> A) (f : A -> tprog fs B) dr dl :
  (forall x, eff (fun m => P m /\ g m = x) (f x) dr dl) -> eff P (tgets g ≫= f) dr dl.
Proof. intros H m t b m' t' HP. rewrite run_tgets. intros E. by eapply (H (g m)). Qed.

Lemma eff_upd P ip (g : inode -> inode) dr dl :
  (forall m, P m -> i_ref (g (ip_at ip m)) = i_ref (ip_at ip m) + dr ip) ->
  (forall m, P m -> locked_ (g (ip_at ip m)) = locked_ (ip_at ip m) + dl ip) ->
  (forall j, j <> ip -> dr j = 0) -> (forall j, j <> ip -> dl j = 0) ->
  eff P (upd ip g) (fun _ => dr) (fun _ => dl).
Proof.
  intros Hr Hl Hr0 Hl0 m t a m' t' HP. unfold upd, tmod. cbn. intros [= <- <- <-].
  split; [by rewrite length_ip_set| |]; intros j Hj; destruct (decide (j = ip)) as [->|Hne].
  - rewrite ip_at_set by done. by apply Hr.
  - rewrite ip_at_set_ne by done. rewrite Hr0 by done. lia.
  - rewrite ip_at_set by done. by apply Hl.
  - rewrite ip_at_set_ne by done. rewrite Hl0 by done. lia.
Qed.

(** A change of fields other than the count and the lock. *)
Definition plain (g : inode -> inode) : Prop := forall x, i_ref (g x) = i_ref x /\ i_lock (g x) = i_lock x.

Lemma eff_plain P ip g : plain g -> eff P (upd ip g) none none.
Proof.
  intros Hg. apply eff_upd; try done; intros m _; destruct (Hg (ip_at ip m)) as [E1 E2]; [lia|]. unfold locked_. rewrite E2. lia.
Qed.

Lemma lift_mem {A} (x : M txs A) (m : fs) t a m' t' : lift_tx x (m, t) = Ok a (m', t') -> m' = m.
Proof. unfold lift_tx. destruct (x t); naive_solver. Qed.

Ltac lifted := intros m t a m' t' _ H; apply bind_ok_inv in H as (? & [m1 t1] & ->%lift_mem & [= <- <- <-]); by apply shift_refl.
Lemma eff_tread P d b : eff P (tread d b) none none.
Proof. lifted. Qed.
Lemma eff_tdata P b : eff P (tdata b) none none.
Proof. lifted. Qed.
Lemma eff_tset P b d : eff P (tset b d) none none.
Proof. lifted. Qed.
Lemma eff_tlog P b : eff P (tlog b) none none.
Proof. lifted. Qed.
Lemma eff_trelse P b : eff P (trelse b) none none.
Proof. lifted. Qed.

Create HintDb eff.
#[local] Hint Resolve eff_tread eff_tdata eff_tset eff_tlog eff_trelse eff_panic eff_sleep eff_nofuel : eff.

Ltac eff_close := intros; cbv beta; cbn; lia.

(** One rule, by the form of the program. *)
Ltac eff_step :=
  lazymatch goal with
  | |- forall _, _ => intros
  | |- eff _ (let _ := _ in _) _ _ => cbv zeta
  | |- eff _ (mret _) _ _ => apply eff_ret; eff_close
  | |- eff _ (tpanic _) _ _ => apply eff_panic
  | |- eff _ tsleep _ _ => apply eff_sleep
  | |- eff _ tnofuel _ _ => apply eff_nofuel
  | |- eff _ (tgets _ ≫= _) _ _ => apply eff_gets
  | |- eff _ (inode_ _ ≫= _) _ _ => apply eff_gets
  | |- eff _ (when ?b _) _ _ => destruct b; cbn [when]
  | |- eff _ (match ?x with _ => _ end) _ _ => destruct x
  | |- eff _ (?p ≫= _) _ _ => first [eapply eff_bind; [solve [eauto with eff]|]
                                     |eapply (eff_bind _ _ _ none none)]
  | |- eff _ (upd _ _) _ _ => eapply eff_tail; [apply eff_plain; solve [split; reflexivity]|eff_close..]
  | |- eff _ _ _ _ => eapply eff_tail; [solve [eauto with eff]|eff_close..]
  end.
Ltac eff_go := repeat eff_step.

(** ** Code that counts nothing *)

Lemma eff_bzero P dev b : eff P (bzero dev b) none none.
Proof. unfold bzero. eff_go. Qed.
#[local] Hint Resolve eff_bzero : eff.

Lemma eff_balloc_loop P f dev b : eff P (balloc_loop f dev b) none none.
Proof. revert P b. induction f as [|f IH]; intros P b; cbn [balloc_loop]; eff_go. Qed.
#[local] Hint Resolve eff_balloc_loop : eff.

Lemma eff_balloc P dev : eff P (balloc dev) none none.
Proof. unfold balloc. eff_go. Qed.

Lemma eff_bfree P dev b : eff P (bfree dev b) none none.
Proof. unfold bfree. eff_go. Qed.

Lemma eff_iupdate P ip : eff P (iupdate ip) none none.
Proof. unfold iupdate. eff_go. Qed.
#[local] Hint Resolve eff_balloc eff_bfree eff_iupdate : eff.

Lemma eff_bmap P ip bn : eff P (bmap ip bn) none none.
Proof. unfold bmap. eff_go. Qed.

Lemma eff_itrunc_direct P k i ip : eff P (itrunc_direct k i ip) none none.
Proof. revert P i. induction k as [|k IH]; intros P i; cbn [itrunc_direct]; eff_go. Qed.

Lemma eff_itrunc_indirect P k j dev bp : eff P (itrunc_indirect k j dev bp) none none.
Proof. revert P j. induction k as [|k IH]; intros P j; cbn [itrunc_indirect]; eff_go. Qed.
#[local] Hint Resolve eff_bmap eff_itrunc_direct eff_itrunc_indirect : eff.

Lemma eff_itrunc P ip : eff P (itrunc ip) none none.
Proof. unfold itrunc. eff_go. Qed.
#[local] Hint Resolve eff_itrunc : eff.

Lemma eff_readi_loop P f ip off n tot dst : eff P (readi_loop f ip off n tot dst) none none.
Proof. revert P off tot dst. induction f as [|f IH]; intros P off tot dst; cbn [readi_loop]; eff_go. Qed.

Lemma eff_writei_loop P f ip src off n tot : eff P (writei_loop f ip src off n tot) none none.
Proof. revert P src off tot. induction f as [|f IH]; intros P src off tot; cbn [writei_loop]; eff_go. Qed.
#[local] Hint Resolve eff_readi_loop eff_writei_loop : eff.

Lemma eff_readi P devread ip off n : eff P (readi devread ip off n) none none.
Proof. unfold readi. eff_go. Qed.

Lemma eff_writei P devwrite ip src off : eff P (writei devwrite ip src off) none none.
Proof. unfold writei. eff_go. Qed.
#[local] Hint Resolve eff_readi eff_writei : eff.

(** ** Code that counts *)

(** The entry of a result. *)
Definition ones (r : option nat) (j : nat) : Z := match r with Some ip => one ip j | None => 0 end.

Lemma one_eq ip : one ip ip = 1.
Proof. unfold one. by rewrite Nat.eqb_refl. Qed.

Lemma one_ne ip j : j <> ip -> one ip j = 0.
Proof. intros H. unfold one. by rewrite (proj2 (Nat.eqb_neq ip j)). Qed.

Lemma eff_ref P ip : eff P (upd ip (fun x => set_ref (i_ref x + 1) x)) (fun _ => one ip) none.
Proof.
  apply (eff_upd _ _ _ (one ip) (fun _ => 0)); intros; rewrite ?one_eq, ?one_ne by done; done || (unfold locked_; cbn; lia).
Qed.

Lemma eff_idup P ip : eff P (idup ip) one none.
Proof. unfold idup. eapply eff_bind; [apply eff_ref|]. intros []. apply eff_ret; intros j; lia. Qed.

Lemma eff_idup_at P ip : eff P (idup ip) (fun _ => one ip) none.
Proof. unfold idup. eapply eff_bind; [apply eff_ref|]. intros []. apply eff_ret; intros j; lia. Qed.

Lemma find_inode_empty dev inum l i e r e' : find_inode dev inum i l e = (r, e') ->
  match r with
  | Some _ => True
  | None => e' = e \/ exists k x, e' = Some (i + k)%nat /\ l !! k = Some x /\ i_ref x = 0
  end.
Proof.
  revert i e. induction l as [|x l IH]; intros i e; cbn [find_inode].
  - intros [= <- <-]. by left.
  - destruct (_ && _); [by intros [= <- <-]|]. intros H. specialize (IH _ _ H). destruct r as [|]; [done|].
    destruct IH as [->|(k & y & -> & Hk & Hy)].
    + destruct e; [by left|]. destruct (Z.eqb_spec (i_ref x) 0); [|by left]. right. exists 0%nat, x. by rewrite Nat.add_0_r.
    + right. exists (S k), y. by rewrite Nat.add_succ_r.
Qed.

Lemma eff_iget P dev inum : eff P (iget dev inum) one none.
Proof.
  intros m t a m' t' _. unfold iget. change (tget ≫= ?f) with (tgets (fun m : fs => m) ≫= f). rewrite run_tgets.
  destruct (find_inode dev inum 0 (icache m) None) as [[ip|] [e|]] eqn:E; cbn; try done.
  1, 2: intros [= <- <- <-]; apply (eff_idup any ip m t ip _ t); done.
  intros [= <- <- <-]. destruct (find_inode_empty _ _ _ _ _ _ _ E) as [|(k & x & [= ->] & Hk & Hx)]; [done|]. cbn [Nat.add] in *.
  assert (Ex : ip_at k m = x) by (unfold ip_at; by rewrite Hk). split; [by rewrite length_ip_set| |]; intros j Hj.
  all: destruct (decide (j = k)) as [->|Hne]; [rewrite ip_at_set by done|rewrite ip_at_set_ne by done].
  - rewrite Ex, Hx, one_eq. done.
  - rewrite one_ne by done. lia.
  - unfold locked_. cbn. lia.
  - lia.
Qed.
#[local] Hint Resolve eff_idup eff_iget : eff.

Lemma eff_ialloc_loop P f dev type inum : eff P (ialloc_loop f dev type inum) one none.
Proof. revert P inum. induction f as [|f IH]; intros P inum; cbn [ialloc_loop]; eff_go. Qed.
#[local] Hint Resolve eff_ialloc_loop : eff.

Lemma eff_ialloc P dev type : eff P (ialloc dev type) one none.
Proof. unfold ialloc. eff_go. Qed.
#[local] Hint Resolve eff_ialloc : eff.

Lemma eff_ilock P pid ip : eff P (ilock pid ip) none (fun _ => one ip).
Proof.
  unfold ilock. eff_step. intros s. apply eff_gets. intros x. destruct (i_ref x <? 1); [apply eff_panic|].
  unfold acquiresleep. destruct (Z.eqb_spec (sl_locked (i_lock x)) 0) as [E|]; cbn [negb]; [|apply eff_sleep].
  apply (eff_bind _ _ _ none (fun _ => one ip)); [|eff_go].
  apply (eff_upd _ _ _ (fun _ => 0) (one ip)); try done; intros; rewrite ?one_eq, ?one_ne by done; [cbn; lia| |done].
  destruct H as [_ <-]. unfold locked_. cbn. by rewrite E.
Qed.

Lemma eff_iunlock P pid ip : eff P (iunlock pid ip) none (fun _ j => - one ip j).
Proof.
  unfold iunlock. apply eff_gets. intros x. unfold holdingsleep. destruct (Z.eqb_spec (sl_locked (i_lock x)) 0) as [E|E]; [apply eff_panic|].
  destruct (_ || _); [apply eff_panic|].
  apply (eff_upd _ _ _ (fun _ => 0) (fun j => - one ip j)); try done; intros; rewrite ?one_eq, ?one_ne by done; [cbn; lia| |done].
  destruct H as [_ <-]. unfold locked_. cbn. by rewrite (proj2 (Z.eqb_neq _ _)).
Qed.
#[local] Hint Resolve eff_ilock eff_iunlock : eff.

Lemma eff_iput P pid ip : eff P (iput pid ip) (fun _ j => - one ip j) none.
Proof.
  intros m t [] m3 t3 _ H. unfold iput, inode_ in H. rewrite run_tgets in H. unfold acquiresleep in H.
  destruct (Z.eqb_spec (sl_locked (i_lock (ip_at ip m))) 0) as [E|]; cbn [negb] in H; [|done].
  set (x := ip_at ip m) in *. rewrite run_upd in H. fold x in H.
  destruct (run_bind_inv _ _ _ _ _ H) as (u & [m2 t2] & E2 & E3). clear H. unfold upd, tmod in E3. cbn in E3. injection E3 as <- <-.
  assert (Hs : shift (fun _ => 0) (fun _ => 0) (ip_set ip (set_lock (mksl 1 pid) x) m) m2).
  { revert E2. generalize (ip_set ip (set_lock (mksl 1 pid) x) m). intros m1 E2. refine ((_ : eff any _ none none) m1 t u m2 t2 I E2). eff_go. }
  destruct Hs as [L R K]. rewrite length_ip_set in *. split; [rewrite !length_ip_set; congruence| |]; intros j Hj.
  all: specialize (R j Hj); specialize (K j Hj); destruct (decide (j = ip)) as [->|Hne].
  - rewrite !ip_at_set by (rewrite ?length_ip_set, ?L; done). rewrite ip_at_set in R by done. rewrite one_eq. fold x. cbn in *. lia.
  - rewrite !ip_at_set_ne by done. rewrite ip_at_set_ne in R by done. rewrite one_ne by done. lia.
  - rewrite !ip_at_set by (rewrite ?length_ip_set, ?L; done). fold x. unfold locked_ at 2. rewrite E. done.
  - rewrite !ip_at_set_ne by done. rewrite ip_at_set_ne in K by done. lia.
Qed.
#[local] Hint Resolve eff_iput : eff.

Lemma eff_iunlockput P pid ip : eff P (iunlockput pid ip) (fun _ j => - one ip j) (fun _ j => - one ip j).
Proof. unfold iunlockput. eff_go. Qed.
#[local] Hint Resolve eff_iunlockput : eff.

Lemma eff_dirlookup_loop P devread f dp name off : eff P (dirlookup_loop devread f dp name off) (fun r => ones (fst <$> r)) none.
Proof. revert P off. induction f as [|f IH]; intros P off; cbn [dirlookup_loop]; eff_go. Qed.
#[local] Hint Resolve eff_dirlookup_loop : eff.

Lemma eff_dirlookup P devread dp name : eff P (dirlookup devread dp name) (fun r => ones (fst <$> r)) none.
Proof. unfold dirlookup. eff_go. Qed.

Lemma eff_empty_loop P devread f dp off : eff P (empty_loop devread f dp off) none none.
Proof. revert P off. induction f as [|f IH]; intros P off; cbn [empty_loop]; eff_go. Qed.
#[local] Hint Resolve eff_dirlookup eff_empty_loop : eff.

Lemma eff_dirlink P pid devread devwrite dp name inum : eff P (dirlink pid devread devwrite dp name inum) none none.
Proof. unfold dirlink. eff_go. Qed.
#[local] Hint Resolve eff_dirlink : eff.

Lemma eff_namex_loop P pid devread f ip path parent name :
  eff P (namex_loop pid devread f ip path parent name) (fun r j => ones (fst <$> r) j - one ip j) none.
Proof. revert P ip path name. induction f as [|f IH]; intros P ip path name; cbn [namex_loop]; eff_go. Qed.
#[local] Hint Resolve eff_namex_loop : eff.

Lemma eff_namex P pid devread cwd path parent : eff P (namex pid devread cwd path parent) (fun r => ones (fst <$> r)) none.
Proof. unfold namex. apply (eff_bind _ _ _ one none); eff_go. Qed.
#[local] Hint Resolve eff_namex : eff.

Lemma eff_namei P pid devread cwd path : eff P (namei pid devread cwd path) ones none.
Proof. unfold namei. eapply eff_bind; [apply eff_namex|]. intros [[]|]; eff_go. Qed.

Lemma eff_nameiparent P pid devread cwd path : eff P (nameiparent pid devread cwd path) (fun r => ones (fst <$> r)) none.
Proof. apply eff_namex. Qed.
#[local] Hint Resolve eff_namei eff_nameiparent : eff.

Lemma eff_stati P ip : eff P (stati ip) none none.
Proof. unfold stati. eff_go. Qed.

(** ** The transactions of sysfile.c *)

Lemma eff_add_nlink P ip d : eff P (add_nlink ip d) none none.
Proof. unfold add_nlink. eff_go. Qed.
#[local] Hint Resolve eff_add_nlink : eff.

Lemma eff_link_bad P pid ip : eff P (link_bad pid ip) (fun _ j => - one ip j) none.
Proof. unfold link_bad. eff_go. Qed.
#[local] Hint Resolve eff_link_bad : eff.

Lemma eff_link P pid devread devwrite cwd old new : eff P (link pid devread devwrite cwd old new) none none.
Proof. unfold link. eff_go. Qed.

Lemma eff_isdirempty_loop P devread f dp off : eff P (isdirempty_loop devread f dp off) none none.
Proof. revert P off. induction f as [|f IH]; intros P off; cbn [isdirempty_loop]; eff_go. Qed.
#[local] Hint Resolve eff_isdirempty_loop : eff.

Lemma eff_isdirempty P devread dp : eff P (isdirempty devread dp) none none.
Proof. unfold isdirempty. eff_go. Qed.

Lemma eff_unlink_bad P pid dp : eff P (unlink_bad pid dp) (fun _ j => - one dp j) (fun _ j => - one dp j).
Proof. unfold unlink_bad. eff_go. Qed.
#[local] Hint Resolve eff_isdirempty eff_unlink_bad : eff.

Lemma eff_unlink P pid devread devwrite cwd path : eff P (unlink pid devread devwrite cwd path) none none.
Proof. unfold unlink. eff_go. Qed.

Lemma eff_create P pid devread devwrite cwd path type major minor :
  eff P (create pid devread devwrite cwd path type major minor) ones ones.
Proof. unfold create. eff_go. Qed.
