(* ===== verification/SysRefs.v ===== *)
(** * Reference counts across system calls

    The counts of file.c and of the inode cache say how many pointers there are:
    [f_ref] counts the descriptors of a file, [i_ref] the open files of an inode and
    the processes whose directory it is.  While calls run, they hold references of
    their own; [surplus] is the difference.  [keff P p d Q] says what a program that
    starts in a state satisfying [P] does to the surpluses, [d], and what holds
    after it, [Q]; [seff] is the same for system calls.  Every call leaves every
    surplus and every lock as it found them. *)

From S2P Require Import Prelude Spinlock Bio BioSpec BlockProg Log FsProg Fs FsAlloc FsFile FsInode FsDir FsPath FsCall Pipe Kalloc Kern File Syscall Sysfile FsRefs.
Import Fs.

(** ** Counting pointers *)

Fixpoint total {X} (g : X -> Z) (l : list X) : Z := match l with [] => 0 | x :: l' => g x + total g l' end.

Lemma total_insert {X} (g : X -> Z) l i x y : l !! i = Some x -> total g (<[i := y]> l) = total g l - g x + g y.
Proof.
  revert i. induction l as [|z l IH]; intros [|i]; cbn; try done.
  - intros [= ->]. lia.
  - intros H. rewrite IH by done. lia.
Qed.

Lemma total_nonneg {X} (g : X -> Z) l : (forall x, 0 <= g x) -> 0 <= total g l.
Proof. intros H. induction l as [|x l IH]; cbn; [lia|]. specialize (H x). lia. Qed.

Definition opens (j : nat) (x : file) : Z := if bool_decide (f_type x = FD_INODE /\ f_ip x = j) then 1 else 0.
Definition works_in (j : nat) (p : fproc) : Z := ones (cwd p) j.
Definition fds (f : nat) (p : fproc) : Z := total (fun o => ones o f) (ofile p).

(** The count of references to an entry that no pointer accounts for. *)
Inductive counter := CInode (j : nat) | CLock (j : nat) | CFile (f : nat).

Definition surplus (c : counter) (k : kern) : Z :=
  match c with
  | CInode j => i_ref (ip_at j (kfs k)) - total (opens j) (ftable k) - total (works_in j) (procs k)
  | CLock j => locked_ (ip_at j (kfs k))
  | CFile f => f_ref (ft_at f k) - total (fds f) (procs k)
  end.

Definition counted (c : counter) (k : kern) : Prop :=
  match c with CInode j | CLock j => (j < length (icache (kfs k)))%nat | CFile _ => True end.

(** ** Pipes *)

(** An end of the pipe [p]. *)
Definition is_end (p : Z) (w : bool) (x : file) : Z := if bool_decide (f_type x = FD_PIPE /\ f_pipe x = p /\ f_writable x = w) then 1 else 0.
Definition end_open (w : bool) (x : Pipe.pipe) : bool := if w then Pipe.writeopen x else Pipe.readopen x.
Definition flag (p : Z) (w : bool) (k : kern) : Z :=
  match kpipes k !! p with Some x => if end_open w x then 1 else 0 | None => 0 end.

Section Kernel.
Context (kend : Z).

(** What holds between the steps of calls: a free file is of no type, each end of a
    pipe that is open has one file, and the pages of pipes are allocated. *)
Record files_ok (k : kern) : Prop := {
  fo_free : forall f, f_ref (ft_at f k) <= 0 -> f_type (ft_at f k) = FD_NONE;
  fo_ends : forall p w, total (is_end p w) (ftable k) = flag p w k;
  fo_open : forall p x, kpipes k !! p = Some x -> Pipe.readopen x || Pipe.writeopen x = true;
  fo_pages : exists l, free_list kend (kpages k) l /\ forall p x, kpipes k !! p = Some x -> valid_page kend p /\ p ∉ l
}.

Record moved (d : counter -> Z) (k k' : kern) : Prop := {
  mv_len : length (icache (kfs k')) = length (icache (kfs k));
  mv_sum : forall c, counted c k -> surplus c k' = surplus c k + d c
}.

Definition keff {A} (P : kern -> Prop) (p : tprog kern A) (d : A -> counter -> Z) (Q : A -> kern -> Prop) : Prop :=
  forall k t a k' t', files_ok k -> P k -> run_tx p (k, t) = Ok a (k', t') -> files_ok k' /\ moved (d a) k k' /\ Q a k'.

Definition seff {A} (P : kern -> Prop) (p : sprog kern A) (d : A -> counter -> Z) (Q : A -> kern -> Prop) : Prop :=
  forall k v a k' v', files_ok k -> P k -> run_s p (k, v) = Ok a (k', v') -> files_ok k' /\ moved (d a) k k' /\ Q a k'.

(** ** Rules *)

Lemma moved_refl d k : (forall c, d c = 0) -> moved d k k.
Proof. intros H. split; [done|]. intros c _. rewrite H. lia. Qed.

Lemma moved_trans d e k k1 k2 : moved e k k1 -> moved (fun c => d c - e c) k1 k2 -> moved d k k2.
Proof.
  intros [L1 S1] [L2 S2]. split; [congruence|]. intros c Hc. rewrite S2, S1; [lia|done|]. destruct c; cbn in *; by rewrite ?L1.
Qed.

Lemma moved_ext d e k k' : (forall c, e c = d c) -> moved e k k' -> moved d k k'.
Proof. intros H [L E]. split; [done|]. intros c Hc. rewrite <- H. by apply E. Qed.

Lemma keff_bind {A B} P Q R (p : tprog kern A) (f : A -> tprog kern B) e d : keff P p e Q ->
  (forall a, keff (Q a) (f a) (fun b c => d b c - e a c) R) -> keff P (p ≫= f) d R.
Proof.
  intros H1 H2 k t b k' t' Hk HP Hr. destruct (run_bind_inv _ _ _ _ _ Hr) as (a & [k1 t1] & E1 & E2).
  destruct (H1 _ _ _ _ _ Hk HP E1) as (Hk1 & M1 & HQ). destruct (H2 _ _ _ _ _ _ Hk1 HQ E2) as (Hk2 & M2 & HR).
  split; [done|]. split; [by eapply moved_trans|done].
Qed.

Lemma keff_ret {A} (P : kern -> Prop) (Q : A -> kern -> Prop) (a : A) d : (forall c, d a c = 0) -> (forall k, P k -> Q a k) -> keff P (mret a) d Q.
Proof. intros H HQ k t b k' t' Hk HP [= <- <- <-]. split; [done|]. split; [by apply moved_refl|auto]. Qed.

Lemma keff_stop {A} P msg d Q : keff P (tpanic msg : tprog kern A) d Q.
Proof. by intros k t a k' t' _ _. Qed.
Lemma keff_nofuel {A} P d Q : keff P (tnofuel : tprog kern A) d Q.
Proof. by intros k t a k' t' _ _. Qed.
Lemma keff_sleep {A} P d Q : keff P (tsleep : tprog kern A) d Q.
Proof. by intros k t a k' t' _ _. Qed.

Lemma keff_gets {A B} P Q (g : kern -> A) (f : A -> tprog kern B) d :
  (forall x, keff (fun k => P k /\ g k = x) (f x) d Q) -> keff P (tgets g ≫= f) d Q.
Proof. intros H k t b k' t' Hk HP. rewrite run_tgets. intros E. by eapply (H (g k)). Qed.

Lemma keff_conseq {A} (P P' : kern -> Prop) (Q Q' : A -> kern -> Prop) (p : tprog kern A) e d : keff P' p e Q' ->
  (forall k, P k -> P' k) -> (forall a k, Q' a k -> Q a k) -> (forall a c, e a c = d a c) -> keff P p d Q.
Proof.
  intros H HP HQ He k t a k' t' Hk Hp E. destruct (H _ _ _ _ _ Hk (HP _ Hp) E) as (Hk' & M & Hq).
  split; [done|]. split; [eapply moved_ext; [apply He|exact M]|auto].
Qed.

Lemma keff_pure {A} (phi : Prop) (P : kern -> Prop) (Q : A -> kern -> Prop) (p : tprog kern A) d : (forall k, P k -> phi) ->
  (phi -> keff P p d Q) -> keff P p d Q.
Proof. intros H1 H2 k t a k' t' Hk HP. apply (H2 (H1 k HP)); done. Qed.

Lemma keff_mod P Q g d : (forall k, files_ok k -> P k -> files_ok (g k) /\ moved d k (g k) /\ Q (g k)) ->
  keff P (tmod g) (fun _ => d) (fun _ => Q).
Proof. intros H k t a k' t' Hk HP. unfold tmod. cbn. intros [= <- <- <-]. by apply H. Qed.

(** A step that changes no count, and one that is the last. *)
Lemma keff_then {A B} P P' Q R (p : tprog kern A) (f : A -> tprog kern B) d : keff P' p (fun _ _ => 0) Q -> (forall k, P k -> P' k) ->
  (forall a, keff (Q a) (f a) d R) -> keff P (p ≫= f) d R.
Proof.
  intros H1 H0 H2. eapply keff_bind; [eapply keff_conseq; [exact H1|exact H0|intros a k H; exact H|reflexivity]|].
  intros a. eapply keff_conseq; [apply H2|done|done|intros b c; cbn; lia].
Qed.

(** ** Programs of fs.c *)

Definition of_inodes (dr dl : nat -> Z) (c : counter) : Z :=
  match c with CInode j => dr j | CLock j => dl j | CFile _ => 0 end.

Lemma keff_fsop {A} P (p : tprog fs A) dr dl : eff (fun _ => True) p dr dl -> (forall m k, P k -> P (set_kfs m k)) ->
  keff P (fsop p) (fun a => of_inodes (dr a) (dl a)) (fun _ => P).
Proof.
  intros He HP k t a k' t' Hk Hp. unfold fsop. rewrite run_tzoom; [|done|done|by intros []].
  unfold zoomed. destruct (run_tx p (kfs k, t)) as [b [m' t1]|?|[]|] eqn:E; try done. intros [= <- <- <-].
  destruct (He _ _ _ _ _ I E) as [L R K]. split; [by destruct Hk|]. split; [|auto]. split; [done|].
  intros [j|j|f] Hc; cbn [surplus of_inodes kfs ftable procs set_kfs]; cbn in Hc; rewrite ?R, ?K by done; try lia.
  change (ft_at f (set_kfs m' k)) with (ft_at f k). lia.
Qed.

(** ** Changes of a file and of a process *)

Lemma ft_at_set f g x k : (g < length (ftable k))%nat -> ft_at f (ft_set g x k) = if decide (f = g) then x else ft_at f k.
Proof.
  intros Hg. unfold ft_at, ft_set. cbn. destruct (decide (f = g)) as [->|]; [by rewrite list_lookup_insert_eq by done|].
  by rewrite list_lookup_insert_ne by done.
Qed.

Lemma ft_lookup f k : (f < length (ftable k))%nat -> ftable k !! f = Some (ft_at f k).
Proof. intros H. unfold ft_at. by destruct (lookup_lt_is_Some_2 _ _ H) as [x ->]. Qed.

Lemma ft_range f k : f_ref (ft_at f k) <> 0 -> (f < length (ftable k))%nat.
Proof. intros H. destruct (decide (f < length (ftable k))%nat) as [|Hn]; [done|]. unfold ft_at in H. by rewrite lookup_ge_None_2 in H by lia. Qed.

Definition file_change (f : nat) (x y : file) (c : counter) : Z :=
  match c with
  | CInode j => opens j x - opens j y
  | CLock _ => 0
  | CFile f' => one f f' * (f_ref y - f_ref x)
  end.

Lemma ft_set_moved f y k : (f < length (ftable k))%nat -> moved (file_change f (ft_at f k) y) k (ft_set f y k).
Proof.
  intros Hf. split; [done|]. intros [j|j|f'] Hc; cbn -[ft_at]; [|lia|].
  - rewrite (total_insert _ _ _ _ _ (ft_lookup _ _ Hf)). lia.
  - rewrite ft_at_set by done. destruct (decide (f' = f)) as [->|]; [rewrite one_eq|rewrite one_ne by done]; lia.
Qed.

(** A change of a file that leaves its ends of pipes keeps the table in order. *)
Lemma ft_set_ok f y k : (f < length (ftable k))%nat -> files_ok k -> (forall p w, is_end p w y = is_end p w (ft_at f k)) ->
  (f_ref y <= 0 -> f_type y = FD_NONE) -> files_ok (ft_set f y k).
Proof.
  intros Hf [H1 H2 H3 H4] He Hn. split; [| |done|done].
  - intros f'. rewrite ft_at_set by done. destruct (decide (f' = f)); auto.
  - intros p w. cbn [ftable ft_set set_ftable]. rewrite (total_insert _ _ _ _ _ (ft_lookup _ _ Hf)), He.
    specialize (H2 p w). unfold flag in *. cbn in *. lia.
Qed.

Definition proc_change (p q : fproc) (c : counter) : Z :=
  match c with
  | CInode j => works_in j p - works_in j q
  | CLock _ => 0
  | CFile f => fds f p - fds f q
  end.

Lemma proc_set_moved i q k : (i < length (procs k))%nat -> moved (proc_change (proc_at i k) q) k (proc_set i q k).
Proof.
  intros Hi. assert (E : procs k !! i = Some (proc_at i k)).
  { unfold proc_at. by destruct (lookup_lt_is_Some_2 _ _ Hi) as [x ->]. }
  split; [done|]. intros [j|j|f] Hc; cbn -[proc_at]; [|lia|]; rewrite (total_insert _ _ _ _ _ E).
  - lia.
  - change (ft_at f (proc_set i q k)) with (ft_at f k). lia.
Qed.

Lemma proc_set_ok i q k : files_ok k -> files_ok (proc_set i q k).
Proof. by intros []. Qed.

(** ** Files that a call has just allocated *)

Definition fresh (f : nat) (k : kern) : Prop := (f < length (ftable k))%nat /\ f_type (ft_at f k) = FD_NONE /\ f_ref (ft_at f k) = 1.

(** The processes, and the files that the running call has allocated. *)
Definition at_ (ps : list fproc) (fl : list nat) (k : kern) : Prop :=
  procs k = ps /\ NoDup fl /\ Forall (fun f => fresh f k) fl.

Definition of_file (o : option nat) (c : counter) : Z := match c with CFile f => ones o f | _ => 0 end.

Lemma at_kfs ps fl m k : at_ ps fl k -> at_ ps fl (set_kfs m k).
Proof. done. Qed.

Lemma at_nil ps fl k : at_ ps fl k -> at_ ps [] k.
Proof. intros (H & _). split; [done|]. split; constructor. Qed.

Lemma at_procs ps k : procs k = ps -> at_ ps [] k.
Proof. intros H. split; [done|]. split; constructor. Qed.

Lemma find_file_spec i l f : find_file i l = Some f -> exists x, (i <= f)%nat /\ l !! (f - i)%nat = Some x /\ f_ref x = 0.
Proof.
  revert i. induction l as [|x l IH]; intros i; cbn [find_file]; [done|]. destruct (Z.eqb_spec (f_ref x) 0).
  - intros [= <-]. exists x. by rewrite Nat.sub_diag.
  - intros H. destruct (IH _ H) as (y & Hle & Hl & Hy). exists y. split; [lia|]. by replace (f - i)%nat with (S (f - S i)) by lia.
Qed.

Lemma opens_ref j v x : opens j (set_fref v x) = opens j x.
Proof. done. Qed.

Lemma filealloc_eff ps fl : keff (at_ ps fl) filealloc of_file (fun r => at_ ps (match r with Some f => f :: fl | None => fl end)).
Proof.
  apply keff_gets. intros l. destruct (find_file 0 l) as [f|] eqn:E; [|apply keff_ret; [by intros []|by intros k []]].
  destruct (find_file_spec _ _ _ E) as (x & _ & Hl & Hx). rewrite Nat.sub_0_r in Hl.
  eapply keff_bind; [apply (keff_mod _ (at_ ps (f :: fl)) _ (of_file (Some f)))|].
  2: { intros []. apply keff_ret; [intros c; lia|done]. }
  intros k Hk [(Hps & Hnd & Hfr) <-]. pose proof (lookup_lt_Some _ _ _ Hl) as Hf.
  assert (Ex : ft_at f k = x) by (unfold ft_at; by rewrite Hl). rewrite Ex.
  pose proof (fo_free _ Hk f ltac:(rewrite Ex; lia)) as Ht. rewrite Ex in Ht. split; [apply ft_set_ok; rewrite ?Ex; done|].
  split; [|split; [done|]].
  - eapply moved_ext; [|by apply ft_set_moved]. rewrite Ex. intros [j|j|f']; cbn; [|done|lia]. rewrite opens_ref. lia.
  - assert (Hnf : f ∉ fl).
    { intros Hin. rewrite Forall_forall in Hfr. destruct (Hfr f Hin) as (_ & _ & Hr). rewrite Ex in Hr. lia. }
    split; [by constructor|]. constructor.
    + split; [cbn; by rewrite length_insert|]. rewrite ft_at_set by done. by rewrite decide_True.
    + rewrite Forall_forall in Hfr |- *. intros g Hg. destruct (Hfr g Hg) as (H1 & H2 & H3). split; [cbn; by rewrite length_insert|].
      rewrite ft_at_set, decide_False by (done || by intros ->). done.
Qed.

Lemma filedup_eff ps fl f : keff (at_ ps fl) (filedup f) (fun _ => of_file (Some f)) (fun _ => at_ ps []).
Proof.
  unfold filedup. apply keff_gets. intros x. destruct (Z.ltb_spec (f_ref x) 1) as [|Hr]; [apply keff_stop|].
  eapply keff_bind; [apply (keff_mod _ (at_ ps []) _ (of_file (Some f)))|].
  2: { intros []. apply keff_ret; [intros c; lia|done]. }
  intros k Hk [Hp <-]. pose proof (ft_range f k ltac:(lia)) as Hf. split; [apply ft_set_ok; try done; cbn; lia|]. split.
  - eapply moved_ext; [|by apply ft_set_moved]. intros [j|j|f']; cbn; [|done|lia]. rewrite opens_ref. lia.
  - split; [apply Hp|]. split; constructor.
Qed.

(** ** Descriptors *)

Definition slot_of (ps : list fproc) (i fd : nat) : option (option nat) := p ← ps !! i; ofile p !! fd.

Definition slot_set (i fd : nat) (o : option nat) (ps : list fproc) : list fproc :=
  match ps !! i with
  | Some p => <[i := set_ofile (<[fd := o]> (ofile p)) p]> ps
  | None => ps
  end.

Lemma slot_set_eff ps fl i fd o o' : slot_of ps i fd = Some o ->
  keff (at_ ps fl) (qupd i (fun p => set_ofile (<[fd := o']> (ofile p)) p))
    (fun _ c => of_file o c - of_file o' c) (fun _ => at_ (slot_set i fd o' ps) fl).
Proof.
  intros Hs. unfold slot_of in Hs. destruct (ps !! i) as [p|] eqn:Ep; [cbn in Hs|done]. apply keff_mod.
  intros k Hk (Hps & Hnd & Hfr). subst ps. pose proof (lookup_lt_Some _ _ _ Ep) as Hi.
  assert (E : proc_at i k = p) by (unfold proc_at; by rewrite Ep). rewrite E.
  split; [by apply proc_set_ok|]. split.
  - eapply moved_ext; [|by apply proc_set_moved]. rewrite E. intros [j|j|f]; cbn; [unfold works_in; cbn; lia|lia|].
    unfold fds. cbn. rewrite (total_insert _ _ _ _ _ Hs). lia.
  - split; [|done]. unfold slot_set. by rewrite Ep.
Qed.

Lemma find_fd_spec i l fd : find_fd i l = Some fd -> (i <= fd)%nat /\ l !! (fd - i)%nat = Some None.
Proof.
  revert i. induction l as [|[f|] l IH]; intros i; cbn [find_fd]; [done| |].
  - intros H. destruct (IH _ H) as (Hle & Hl). split; [lia|]. by replace (fd - i)%nat with (S (fd - S i)) by lia.
  - intros [= <-]. by rewrite Nat.sub_diag.
Qed.

(** [fdalloc]: the lowest free descriptor, or none. *)
Lemma fdalloc_eff ps fl me f : keff (at_ ps fl) (fdalloc me f)
  (fun fd c => if fd <? 0 then 0 else - of_file (Some f) c)
  (fun fd k => if fd <? 0 then at_ ps fl k
               else slot_of ps me (Z.to_nat fd) = Some None /\ at_ (slot_set me (Z.to_nat fd) (Some f) ps) fl k).
Proof.
  apply keff_gets. intros p. destruct (find_fd 0 (take NOFILE (ofile p))) as [fd|] eqn:E.
  2: { apply keff_ret; [done|]. cbn. by intros k []. }
  destruct (find_fd_spec _ _ _ E) as [_ Hl]. rewrite Nat.sub_0_r in Hl.
  assert (Hlt : (fd < NOFILE)%nat) by (apply lookup_lt_Some in Hl; rewrite length_take in Hl; lia).
  rewrite lookup_take_lt in Hl by done.
  apply (keff_pure (slot_of ps me fd = Some None)).
  { intros k [(<- & _) Hp]. unfold slot_of, proc_at in *. destruct (procs k !! me) as [q|]; cbn in *; [by rewrite Hp|by subst p]. }
  intros Hs. eapply (keff_conseq _ (at_ ps fl)); [|by intros k []|intros a k H; exact H|reflexivity].
  eapply keff_bind; [by apply (slot_set_eff ps fl me fd None (Some f))|]. intros []. apply keff_ret.
  - intros c. rewrite (proj2 (Z.ltb_ge _ _)) by lia. destruct c; cbn; lia.
  - intros k Hk. rewrite (proj2 (Z.ltb_ge _ _)), Nat2Z.id by lia. done.
Qed.

(** ** Closing *)

Lemma fileclose_ref_run f k t : run_tx (fileclose_ref f) (k, t) =
  let x := ft_at f k in
  if f_ref x <? 1 then Panic "fileclose" else
  if f_ref x - 1 >? 0 then Ok None (ft_set f (set_fref (f_ref x - 1) x) k, t) else
  Ok (Some (set_fref (f_ref x - 1) x)) (ft_set f (set_ftype FD_NONE (set_fref 0 x)) k, t).
Proof.
  unfold fileclose_ref, file_. rewrite run_tgets. cbv zeta. destruct (Z.ltb_spec (f_ref (ft_at f k)) 1); [done|].
  pose proof (ft_range f k ltac:(lia)) as Hf. unfold fupd. rewrite run_tmod. destruct (_ >? 0); [done|].
  rewrite run_tgets, run_tmod, ft_at_set, decide_True by done. f_equal. f_equal. unfold ft_set, set_ftable. cbn. f_equal.
  by rewrite list_insert_insert_eq.
Qed.

Lemma total_member {X} (g : X -> Z) l i x : (forall x, 0 <= g x) -> l !! i = Some x -> g x <= total g l.
Proof.
  intros Hg. revert i. induction l as [|y l IH]; intros [|i]; cbn; try done; [intros [= ->]|intros H].
  - pose proof (total_nonneg g l Hg). lia.
  - specialize (IH _ H). specialize (Hg y). lia.
Qed.

Lemma is_end_nonneg p w x : 0 <= is_end p w x.
Proof. unfold is_end. case_bool_decide; lia. Qed.

Lemma is_end_iff p w x : f_type x = FD_PIPE -> is_end p w x = if bool_decide (p = f_pipe x /\ w = f_writable x) then 1 else 0.
Proof. intros H. unfold is_end. repeat case_bool_decide; naive_solver. Qed.

(** The last file of an end of a pipe: the file is free again, and [pipe_close] has
    closed the end. *)
Section ClosePipe.
Context (k : kern) (f : nat) (Hk : files_ok k).
Let x := ft_at f k.
Context (Hf : (f < length (ftable k))%nat) (Ht : f_type x = FD_PIPE).
Let y := set_ftype FD_NONE (set_fref 0 x).
Let p := f_pipe x.
Let w := f_writable x.

Lemma pipe_is_open : exists z, kpipes k !! p = Some z /\ end_open w z = true.
Proof using Hk Hf Ht.
  pose proof (fo_ends _ Hk p w) as E. pose proof (total_member (is_end p w) _ _ _ (is_end_nonneg p w) (ft_lookup f k Hf)) as H.
  fold x in H. rewrite is_end_iff, bool_decide_true in H by done. unfold flag in E. destruct (kpipes k !! p) as [z|]; [|lia].
  exists z. split; [done|]. destruct (end_open w z); [done|lia].
Qed.

Lemma ends_closed p' w' : total (is_end p' w') (<[f := y]> (ftable k)) =
  if bool_decide (p' = p /\ w' = w) then 0 else flag p' w' k.
Proof using Hk Hf Ht.
  rewrite (total_insert _ _ _ _ _ (ft_lookup f k Hf)). fold x. rewrite (is_end_iff p' w' x), (fo_ends _ Hk) by done.
  assert (is_end p' w' y = 0) as -> by (unfold is_end; by rewrite bool_decide_false by (intros (? & _); done)). fold p w.
  case_bool_decide as Hb; [|lia]. destruct Hb as [-> ->]. unfold flag. destruct pipe_is_open as (z & -> & ->). lia.
Qed.

(** The table and the pipes after it, whatever became of the pages. *)
Lemma closed_ok ps pages z free : kpipes k !! p = Some z -> Pipe.pipeclose z w = (ps, free) ->
  (exists l, free_list kend pages l /\ forall q r, kpipes k !! q = Some r -> (q = p -> free = false) -> valid_page kend q /\ q ∉ l) ->
  files_ok (set_kpages pages (set_kpipes (if free then delete p (kpipes k) else <[p := ps]> (kpipes k)) (ft_set f y k))).
Proof using Hk Hf Ht.
  intros Hz Hc (l & Hl & Hp). destruct pipe_is_open as (z' & E & Ho). rewrite Hz in E. injection E as <-.
  assert (Hfl : forall w', end_open w' ps = negb (bool_decide (w' = w)) && end_open w' z).
  { intros w'. unfold Pipe.pipeclose in Hc. revert Ho Hc. destruct w, w'; intros _ [= <- _]; done. }
  assert (Hfr : free = negb (end_open (negb w) z)).
  { unfold Pipe.pipeclose in Hc. revert Ho Hc. destruct w; cbn; intros Ho [= _ <-]; [by rewrite andb_true_r|done]. }
  split; cbn [ftable kpipes kpages set_kpages set_kpipes].
  - intros g. pose proof (ft_at_set g f y k Hf) as E. change (ft_at g (set_kpages _ (set_kpipes _ (ft_set f y k)))) with (ft_at g (ft_set f y k)).
    rewrite E. destruct (decide (g = f)); [done|apply Hk].
  - intros p' w'. change (ftable (ft_set f y k)) with (<[f := y]> (ftable k)). rewrite ends_closed. unfold flag. cbn [kpipes set_kpages set_kpipes].
    destruct (decide (p' = p)) as [->|Hne].
    + rewrite Hz. destruct free; rewrite ?lookup_delete_eq, ?lookup_insert_eq.
      * case_bool_decide as Hb; [done|]. assert (w' = negb w) as -> by (destruct w, w'; naive_solver).
        by destruct (end_open (negb w) z).
      * rewrite Hfl. repeat case_bool_decide; cbn; try naive_solver.
    + rewrite bool_decide_false by naive_solver. destruct free; by rewrite ?lookup_delete_ne, ?lookup_insert_ne by done.
  - intros p' r. destruct free.
    + intros [_ H]%lookup_delete_Some. by apply (fo_open _ Hk p').
    + intros [[<- <-]|[_ H]]%lookup_insert_Some; [|by apply (fo_open _ Hk p')].
      assert (end_open (negb w) ps = true) as E. { rewrite Hfl. destruct (end_open (negb w) z); [|done]. by destruct w. }
      destruct w; cbn in E; rewrite E; [done|apply orb_true_r].
  - exists l. split; [done|]. intros p' r. destruct free.
    + intros [Hne H]%lookup_delete_Some. by eapply Hp.
    + intros [[<- <-]|[_ H]]%lookup_insert_Some; by eapply Hp.
Qed.

Lemma pipe_close_run t u k' t' : run_tx (pipe_close kend p w) (ft_set f y k, t) = Ok u (k', t') ->
  files_ok k' /\ kfs k' = kfs k /\ ftable k' = ftable (ft_set f y k) /\ procs k' = procs k.
Proof using Hk Hf Ht.
  unfold pipe_close. rewrite run_tgets. change (kpipes (ft_set f y k)) with (kpipes k). destruct pipe_is_open as (z & Hz & _). rewrite Hz.
  destruct (Pipe.pipeclose z w) as [z' free] eqn:Ec. destruct (fo_pages _ Hk) as (l & Hl & Hp). destruct free.
  - rewrite run_tmod. unfold kop. rewrite run_tzoom; [|done|done|by intros []]. destruct (Hp p z Hz) as [Hv Hn].
    destruct (kfree_spec kend p (kpages k) l Hv Hl Hn) as (s' & E & Hl' & _). unfold tlift. cbn [run_tx]. rewrite bind_unfold. cbn -[kfree].
    change (kpages (ft_set f y k)) with (kpages k). rewrite E. cbn. intros [= <- <- <-]. split; [|done].
    apply (closed_ok z' s' z true Hz Ec). exists (p :: l). split; [done|]. intros q r Hq Hne. destruct (Hp q r Hq).
    split; [done|]. intros [->|]%elem_of_cons; [by specialize (Hne eq_refl)|done].
  - unfold tmod. cbn. intros [= <- <- <-]. split; [|done].
    apply (closed_ok z' (kpages k) z false Hz Ec). exists l. split; [done|]. intros q r Hq _. by eapply Hp.
Qed.
End ClosePipe.

Lemma surplus_ext c k k' : kfs k' = kfs k -> ftable k' = ftable k -> procs k' = procs k -> surplus c k' = surplus c k.
Proof. intros E1 E2 E3. destruct c; cbn; unfold ft_at; by rewrite ?E1, ?E2, ?E3. Qed.

Lemma file_change_moved f y k k' : (f < length (ftable k))%nat -> kfs k' = kfs k -> ftable k' = ftable (ft_set f y k) ->
  procs k' = procs k -> moved (file_change f (ft_at f k) y) k k'.
Proof.
  intros Hf E1 E2 E3. destruct (ft_set_moved f y k Hf) as [L M]. split; [by rewrite E1|]. intros c Hc. rewrite <- M by done. by apply surplus_ext.
Qed.

(** ** Rules for system calls *)

Lemma run_sbind_inv {Mem A B} (p : sprog Mem A) (f : A -> sprog Mem B) st b st'' : run_s (p ≫= f) st = Ok b st'' ->
  exists a st', run_s p st = Ok a st' /\ run_s (f a) st' = Ok b st''.
Proof.
  unfold mbind, sprog_bind. revert st. induction p as [a|msg| |C p k IH|C p k IH]; intros st; cbn; try done.
  - intros H. by exists a, st.
  - destruct (run_tx p _) as [c [m t]|?|[]|]; try done. apply IH.
  - destruct (run_tx p _) as [c [m t]|?|[]|]; try done. apply IH.
Qed.

Lemma seff_bind {A B} P Q R (p : sprog kern A) (f : A -> sprog kern B) e d : seff P p e Q ->
  (forall a, seff (Q a) (f a) (fun b c => d b c - e a c) R) -> seff P (p ≫= f) d R.
Proof.
  intros H1 H2 k v b k' v' Hk HP Hr. destruct (run_sbind_inv _ _ _ _ _ Hr) as (a & [k1 v1] & E1 & E2).
  destruct (H1 _ _ _ _ _ Hk HP E1) as (Hk1 & M1 & HQ). destruct (H2 _ _ _ _ _ _ Hk1 HQ E2) as (Hk2 & M2 & HR).
  split; [done|]. split; [by eapply moved_trans|done].
Qed.

Lemma seff_run {A} P Q (p : tprog kern A) d : keff P p d Q -> seff P (srun p) d Q.
Proof. intros H k v a k' v' Hk HP. cbn. destruct (run_tx p (k, tx0 v)) as [b [k1 t1]|?|[]|] eqn:E; try done. intros [= <- <- <-]. by eapply H. Qed.

Lemma seff_tx {A} P Q (p : tprog kern A) d : keff P p d Q -> seff P (stx p) d Q.
Proof. apply seff_run. Qed.

Lemma seff_ret {A} (P : kern -> Prop) (Q : A -> kern -> Prop) (a : A) d : (forall c, d a c = 0) -> (forall k, P k -> Q a k) -> seff P (mret a) d Q.
Proof. intros H HQ k v b k' v' Hk HP [= <- <- <-]. split; [done|]. split; [by apply moved_refl|auto]. Qed.

Lemma seff_stop {A} P msg d Q : seff P (spanic msg : sprog kern A) d Q.
Proof. by intros k v a k' v' _ _. Qed.

Lemma seff_pure {A} (phi : Prop) (P : kern -> Prop) (Q : A -> kern -> Prop) (p : sprog kern A) d : (forall k, P k -> phi) ->
  (phi -> seff P p d Q) -> seff P p d Q.
Proof. intros H1 H2 k v a k' v' Hk HP. apply (H2 (H1 k HP)); done. Qed.

Lemma seff_conseq {A} (P P' : kern -> Prop) (Q Q' : A -> kern -> Prop) (p : sprog kern A) e d : seff P' p e Q' ->
  (forall k, P k -> P' k) -> (forall a k, Q' a k -> Q a k) -> (forall a c, e a c = d a c) -> seff P p d Q.
Proof.
  intros H HP HQ He k v a k' v' Hk Hp E. destruct (H _ _ _ _ _ Hk (HP _ Hp) E) as (Hk' & M & Hq).
  split; [done|]. split; [eapply moved_ext; [apply He|exact M]|auto].
Qed.

(** What freeing the file changes. *)
Lemma close_change f x : f_ref x = 1 -> forall c, file_change f x (set_ftype FD_NONE (set_fref 0 x)) c =
  (if bool_decide (f_type x = FD_INODE) then of_inodes (one (f_ip x)) (fun _ => 0) c else 0) - of_file (Some f) c.
Proof.
  intros Hx [j|j|f']; cbn; [|by case_bool_decide|rewrite Hx; case_bool_decide; lia].
  unfold opens, one. cbn. rewrite (bool_decide_false (FD_NONE = _ /\ _)) by (intros [? _]; done).
  destruct (f_type x); cbn; try done. destruct (Nat.eqb_spec (f_ip x) j) as [->|Hne].
  - by rewrite bool_decide_true.
  - by rewrite bool_decide_false by (intros [_ ?]; done).
Qed.

(** [fileclose] gives one reference back. *)
Lemma fileclose_eff ps fl me f : seff (at_ ps fl) (fileclose kend me f) (fun _ c => - of_file (Some f) c) (fun _ => at_ ps []).
Proof.
  intros k v [] k' v' Hk Hat. pose proof (proj1 Hat) as Hps. unfold fileclose. intros H.
  apply run_sbind_inv in H as (r & [k1 v1] & E1 & E2). cbn [run_s srun] in E1. rewrite fileclose_ref_run in E1. cbv zeta in E1. cbn [fst snd] in E1.
  set (x := ft_at f k) in *. destruct (Z.ltb_spec (f_ref x) 1) as [|Hr]; [done|]. pose proof (ft_range f k ltac:(fold x; lia)) as Hf.
  destruct (Z.gtb_spec (f_ref x - 1) 0) as [Hg|Hg]; injection E1 as <- <- <-.
  { injection E2 as <- <-. split; [apply ft_set_ok; [done|done|done|cbn; lia]|]. split; [|by apply at_procs].
    eapply moved_ext; [|by apply ft_set_moved]. fold x. intros [j|j|f']; cbn; [rewrite opens_ref; lia|done|lia]. }
  set (y := set_ftype FD_NONE (set_fref 0 x)) in *. change (f_type (set_fref _ x)) with (f_type x) in E2.
  change (f_pipe (set_fref _ x)) with (f_pipe x) in E2. change (f_writable (set_fref _ x)) with (f_writable x) in E2.
  change (f_ip (set_fref _ x)) with (f_ip x) in E2. assert (Hx : f_ref x = 1) by lia.
  pose proof (close_change f x Hx) as Hm. fold y in Hm.
  destruct (f_type x) eqn:Ht.
  - injection E2 as <- <-. split; [apply ft_set_ok; try done; intros p w; unfold is_end; fold x; rewrite Ht; done|]. split; [|by apply at_procs].
    eapply moved_ext; [|by apply ft_set_moved]. fold x. intros c. rewrite Hm. done.
  - cbn [run_s srun] in E2. destruct (run_tx _ _) as [u [k2 t2]|?|[]|] eqn:E3 in E2; try done. injection E2 as _ <- <-.
    destruct (pipe_close_run k f Hk Hf Ht _ _ _ _ E3) as (Hk' & F1 & F2 & F3). split; [done|].
    split; [|apply at_procs; by rewrite F3].
    eapply moved_ext; [|by apply (file_change_moved f y k k2)]. fold x. intros c. rewrite Hm. done.
  - assert (Hk1 : files_ok (ft_set f y k)).
    { apply ft_set_ok; try done. intros p w. unfold is_end. fold x. rewrite Ht. done. }
    apply run_sbind_inv in E2 as (q & [k2 v2] & E2 & E3). cbn in E2. injection E2 as <- <- <-.
    destruct (seff_tx (at_ ps []) _ _ _ (keff_fsop _ _ _ _ (eff_iput _ (p_pid (proc_at me (ft_set f y k))) (f_ip x)) (at_kfs ps [])) _ _ _ _ _ Hk1 (at_procs ps (ft_set f y k) Hps) E3)
      as (Hk' & M & Hq). split; [done|]. split; [|done].
    eapply moved_trans; [by apply ft_set_moved|]. eapply moved_ext; [|exact M]. fold x. intros c. rewrite Hm. rewrite bool_decide_true by done.
    destruct c; cbn; lia.
Qed.

(** The same inside a transaction, for a file that is not in use yet. *)
Lemma fileclose_tx_eff ps fl f : keff (at_ ps (f :: fl)) (fileclose_tx kend f) (fun _ c => - of_file (Some f) c) (fun _ => at_ ps []).
Proof.
  intros k t [] k' t' Hk (Hps & _ & [(Hf & Ht & Hr) _]%Forall_cons). unfold fileclose_tx. intros H.
  apply run_bind_inv in H as (r & [k1 t1] & E1 & E2). rewrite fileclose_ref_run in E1. cbv zeta in E1. rewrite Hr in E1. cbn in E1.
  injection E1 as <- <- <-. cbn in E2. rewrite Ht in E2. injection E2 as <- <-. split.
  - apply ft_set_ok; try done. intros p w. unfold is_end. by rewrite Ht.
  - split; [|by apply at_procs]. eapply moved_ext; [|by apply ft_set_moved]. intros c. rewrite close_change by done. by rewrite Ht.
Qed.

(** ** Pipes *)

(** A pipe whose ends stay as they are. *)
Lemma pipe_put_eff ps fl p x : keff (fun k => at_ ps fl k /\ exists z, kpipes k !! p = Some z /\ Pipe.readopen x = Pipe.readopen z /\ Pipe.writeopen x = Pipe.writeopen z)
  (tmod (fun k => set_kpipes (<[p := x]> (kpipes k)) k)) (fun _ _ => 0) (fun _ => at_ ps fl).
Proof.
  apply keff_mod. intros k [H1 H2 H3 H4] [Hat (z & Hz & Er & Ew)]. split; [|split; [|done]].
  - split; [done| | |].
    + intros p' w. cbn [ftable set_kpipes]. rewrite H2. unfold flag. cbn. destruct (decide (p' = p)) as [->|]; [|by rewrite lookup_insert_ne].
      rewrite lookup_insert_eq, Hz. unfold end_open. by rewrite Er, Ew.
    + intros p' r. cbn. intros [[<- <-]|[_ H]]%lookup_insert_Some; [rewrite Er, Ew|]; by eapply H3.
    + destruct H4 as (l & Hl & Hp). exists l. split; [done|]. cbn. intros p' r [[<- _]|[_ H]]%lookup_insert_Some; by eapply Hp.
  - split; [done|]. intros c _. rewrite (surplus_ext c k) by done. lia.
Qed.

Lemma read_loop_open n x bs x' : Pipe.read_loop n x = (bs, x') -> Pipe.readopen x' = Pipe.readopen x /\ Pipe.writeopen x' = Pipe.writeopen x.
Proof.
  revert x bs x'. induction n as [|n IH]; intros x bs x'; cbn [Pipe.read_loop]; [by intros [= _ <-]|]. destruct (_ =? _); [by intros [= _ <-]|].
  destruct (Pipe.read_loop n _) as [bs1 x1] eqn:E. intros [= _ <-]. by apply IH in E.
Qed.

Lemma pipewrite_open killed src x : match Pipe.pipewrite killed src x with
  | Pipe.WDone x' | Pipe.WErr _ x' | Pipe.WSleep _ x' => Pipe.readopen x' = Pipe.readopen x /\ Pipe.writeopen x' = Pipe.writeopen x
  end.
Proof.
  revert x. induction src as [|c src IH]; intros x; cbn [Pipe.pipewrite]; [done|]. destruct (_ =? _); [by destruct (_ || _)|].
  apply (IH (Pipe.push c x)).
Qed.

Lemma pipe_read_eff ps fl me p n : keff (at_ ps fl) (pipe_read me p n) (fun _ _ => 0) (fun _ => at_ ps fl).
Proof.
  apply keff_gets. intros c. apply keff_gets. intros m. destruct (m !! p) as [x|] eqn:Em; [|apply keff_nofuel].
  destruct (Pipe.piperead _ _ _) as [bs x'|x'|x'] eqn:E; [|apply keff_ret; [done|by intros k [[]]]|apply keff_sleep].
  eapply keff_then; [apply (pipe_put_eff ps fl p x')| |intros u; by apply keff_ret].
  intros k [[Hat _] <-]. split; [done|]. exists x. split; [done|]. unfold Pipe.piperead in E. destruct (_ && _); [by destruct (p_killed c)|].
  destruct (Pipe.read_loop _ x) as [bs1 x1] eqn:Er. injection E as <- <-. by eapply read_loop_open.
Qed.

Lemma pipe_write_eff ps fl me p src : keff (at_ ps fl) (pipe_write me p src) (fun _ _ => 0) (fun _ => at_ ps fl).
Proof.
  apply keff_gets. intros c. apply keff_gets. intros m. destruct (m !! p) as [x|] eqn:Em; [|apply keff_nofuel].
  pose proof (pipewrite_open (p_killed c) src x) as Ho. destruct (Pipe.pipewrite _ _ _) as [x'|? x'|? x'].
  all: eapply keff_then; [apply (pipe_put_eff ps fl p x')| |intros u; apply keff_sleep || by apply keff_ret].
  all: intros k [[Hat _] <-]; split; [done|]; by exists x.
Qed.

(** A page that no pipe uses. *)
Definition spare (p : Z) (k : kern) : Prop := valid_page kend p /\ kpipes k !! p = None /\
  exists l, free_list kend (kpages k) l /\ p ∉ l /\ forall q x, kpipes k !! q = Some x -> valid_page kend q /\ q ∉ l.

Lemma kalloc_eff ps fl : keff (at_ ps fl) (kop kalloc) (fun _ _ => 0) (fun p k => at_ ps fl k /\ (p <> 0 -> spare p k)).
Proof.
  intros k t p k' t' Hk Hat. unfold kop. rewrite run_tzoom; [|done|done|by intros []]. unfold tlift. cbn [run_tx]. rewrite bind_unfold. cbn -[kalloc].
  destruct (fo_pages _ Hk) as (l & Hl & Hp). pose proof (kalloc_spec kend (kpages k) l Hl) as H. destruct l as [|q l].
  - rewrite H. cbn. intros [= <- <- <-]. destruct k. split; [done|]. split; [by apply moved_refl|]. split; done.
  - destruct H as (s' & -> & Hl' & _). cbn. intros [= <- <- <-]. destruct Hl as (_ & [Hq Hnd]%NoDup_cons & [Hv _]%Forall_cons & _).
    assert (Hs : forall p' x, kpipes k !! p' = Some x -> valid_page kend p' /\ p' ∉ l).
    { intros p' x Hx. destruct (Hp p' x Hx). set_solver. }
    split; [destruct Hk; split; try done; by exists l|]. split; [|split; [done|]].
    + split; [done|]. intros c _. rewrite (surplus_ext c k) by done. lia.
    + intros _. split; [done|]. split; [|by exists l]. cbn. destruct (kpipes k !! q) as [x|] eqn:E; [|done]. destruct (Hp _ _ E). set_solver.
Qed.

Lemma end_none p w x : f_type x = FD_NONE -> is_end p w x = 0.
Proof. intros H. unfold is_end. by rewrite bool_decide_false by (rewrite H; intros [? _]; done). Qed.

Lemma opens_not j x : f_type x <> FD_INODE -> opens j x = 0.
Proof. intros H. unfold opens. by rewrite bool_decide_false by (intros [? _]; done). Qed.

(** The two files of a new pipe. *)
Lemma new_pipe_ok k f0 f1 p z y0 y1 : files_ok k -> fresh f0 k -> fresh f1 k -> f0 <> f1 -> spare p k ->
  Pipe.readopen z = true -> Pipe.writeopen z = true -> f_type y0 = FD_PIPE -> f_pipe y0 = p -> f_writable y0 = false -> f_ref y0 = 1 ->
  f_type y1 = FD_PIPE -> f_pipe y1 = p -> f_writable y1 = true -> f_ref y1 = 1 ->
  let k' := ft_set f1 y1 (ft_set f0 y0 (set_kpipes (<[p := z]> (kpipes k)) k)) in files_ok k' /\ moved (fun _ => 0) k k'.
Proof.
  intros Hk (Hf0 & Ht0 & Hr0) (Hf1 & Ht1 & Hr1) Hne (Hv & Hn & l & Hl & Hpl & Hq) Zr Zw T0 P0 W0 R0 T1 P1 W1 R1 k'.
  assert (L1 : <[f0 := y0]> (ftable k) !! f1 = Some (ft_at f1 k)) by (rewrite list_lookup_insert_ne by done; by apply ft_lookup).
  assert (Ft : forall f, ft_at f k' = if decide (f = f1) then y1 else if decide (f = f0) then y0 else ft_at f k).
  { intros f. unfold k'. rewrite ft_at_set by (cbn; by rewrite length_insert). by rewrite ft_at_set by done. }
  assert (Tot : forall g, total g (ftable k') = total g (ftable k) - g (ft_at f0 k) - g (ft_at f1 k) + g y0 + g y1).
  { intros g. unfold k'. cbn -[ft_at]. rewrite (total_insert _ _ _ _ _ L1), (total_insert _ _ _ _ _ (ft_lookup f0 k Hf0)). lia. }
  split; split.
  - intros f. rewrite Ft. destruct (decide (f = f1)); [lia|]. destruct (decide (f = f0)); [lia|apply Hk].
  - intros p' w. rewrite Tot, (end_none p' w _ Ht0), (end_none p' w _ Ht1), (fo_ends _ Hk), !is_end_iff by done. rewrite P0, W0, P1, W1.
    unfold flag. cbn. destruct (decide (p' = p)) as [->|Hp].
    + rewrite Hn, lookup_insert_eq. unfold end_open. rewrite Zr, Zw. destruct w; repeat case_bool_decide; naive_solver.
    + rewrite lookup_insert_ne by done. rewrite !bool_decide_false by (intros [? _]; done). lia.
  - intros p' x. cbn. intros [[<- <-]|[_ H]]%lookup_insert_Some; [by rewrite Zr|]. by eapply (fo_open _ Hk).
  - exists l. split; [done|]. cbn. intros p' x [[<- _]|[_ H]]%lookup_insert_Some; [done|]. by eapply Hq.
  - done.
  - intros [j|j|f] _; cbn -[ft_at ftable k']; [|unfold k'; cbn; lia|].
    + rewrite Tot, !opens_not by congruence. unfold k'. cbn. lia.
    + rewrite Ft. unfold k'. cbn -[ft_at]. destruct (decide (f = f1)) as [->|]; [lia|]. destruct (decide (f = f0)) as [->|]; lia.
Qed.

Definition pair_of (r : option (nat * nat)) (c : counter) : Z :=
  match r with Some (f0, f1) => of_file (Some f0) c + of_file (Some f1) c | None => 0 end.

Lemma pipealloc_eff ps me : seff (at_ ps []) (pipealloc kend me) pair_of (fun _ => at_ ps []).
Proof.
  eapply seff_bind; [apply seff_run, filealloc_eff|]. intros [f0|]; [|apply seff_ret; [intros []; done|done]].
  eapply seff_bind; [apply seff_run, filealloc_eff|]. intros [f1|].
  2: { eapply seff_bind; [apply fileclose_eff|]. intros u. apply seff_ret; [intros []; cbn; lia|done]. }
  eapply seff_bind; [apply seff_run, kalloc_eff|]. intros p. destruct (Z.eqb_spec p 0) as [->|Hp].
  - eapply seff_bind; [eapply seff_conseq; [apply fileclose_eff|by intros k []|intros a k H; exact H|reflexivity]|]. intros u.
    eapply seff_bind; [apply fileclose_eff|]. intros u'. apply seff_ret; [intros []; cbn; lia|done].
  - apply (seff_bind _ (fun _ => at_ ps []) _ _ _ (fun _ _ => 0)); [|intros u; apply seff_ret; [|done]].
    + apply seff_run. intros k t u k' t' Hk [Hat Hs]. specialize (Hs Hp). destruct Hat as (Hps & [Hin _]%NoDup_cons & [F1 [F0 _]%Forall_cons]%Forall_cons).
      unfold fupd. rewrite !run_tmod. unfold tmod. cbn -[ft_at ft_set]. intros [= <- <- <-].
      assert (Hne : f0 <> f1) by set_solver.
      match goal with |- files_ok (ft_set f1 ?y1 (ft_set f0 ?y0 (set_kpipes (<[p := ?z]> _) _))) /\ _ =>
        destruct (new_pipe_ok k f0 f1 p z y0 y1) as [H1 H2]; try done end.
      * apply F0.
      * cbn -[ft_at ft_set]. rewrite ft_at_set by apply F0. rewrite decide_False by done. apply F1.
      * split; [done|]. split; [exact H2|by apply at_procs].
    + intros []; cbn; lia.
Qed.

(** ** Reading and writing *)

Lemma keff_read {A B} P Q (g : kern -> A) (f : A -> tprog kern B) d : (forall x, keff P (f x) d Q) -> keff P (tgets g ≫= f) d Q.
Proof. intros H. apply keff_gets. intros x. eapply keff_conseq; [apply (H x)|by intros k []|done|done]. Qed.

Lemma seff_gets {A B} P Q (g : kern -> A) (f : A -> sprog kern B) d :
  (forall x, seff (fun k => P k /\ g k = x) (f x) d Q) -> seff P (srun (tgets g) ≫= f) d Q.
Proof. intros H k v b k' v' Hk HP E. apply (H (g k) k v b k' v'); done. Qed.

Lemma seff_read {A B} P Q (g : kern -> A) (f : A -> sprog kern B) d : (forall x, seff P (f x) d Q) -> seff P (srun (tgets g) ≫= f) d Q.
Proof. intros H. apply seff_gets. intros x. eapply seff_conseq; [apply (H x)|by intros k []|done|done]. Qed.

(** A program of fs.c that keeps the counts. *)
Lemma keff_fs0 {A} ps fl (p : tprog fs A) : eff (fun _ => True) p (fun _ _ => 0) (fun _ _ => 0) ->
  keff (at_ ps fl) (fsop p) (fun _ _ => 0) (fun _ => at_ ps fl).
Proof.
  intros H. eapply keff_conseq; [by apply (keff_fsop (at_ ps fl) p _ _ H)|done|intros a k Hk; exact Hk|]. by intros a [].
Qed.

(** The offset of a file. *)
Lemma keff_off ps f g : keff (at_ ps []) (fupd f (fun x => set_foff (g x) x)) (fun _ _ => 0) (fun _ => at_ ps []).
Proof.
  apply keff_mod. intros k Hk (Hps & _). destruct (decide (f < length (ftable k))%nat) as [Hf|Hf].
  - split; [apply ft_set_ok; try done; cbn; apply Hk|]. split; [|by apply at_procs].
    eapply moved_ext; [|by apply ft_set_moved]. intros [j|j|f']; cbn; unfold opens; cbn; lia.
  - assert (ft_set f (set_foff (g (ft_at f k)) (ft_at f k)) k = k) as ->.
    { destruct k. unfold ft_set, set_ftable. cbn in *. by rewrite list_insert_ge by lia. }
    split; [done|]. split; [by apply moved_refl|by apply at_procs].
Qed.

(** The first and the last step of work on a locked inode. *)
Ltac lock_first := eapply keff_bind; [apply keff_fsop; [apply eff_ilock|apply at_kfs]|intros u].
Ltac unlock_last := eapply keff_bind; [apply keff_fsop; [apply eff_iunlock|apply at_kfs]|intros u']; apply keff_ret; [intros []; cbn; lia|done].

Lemma when_off ps b f g : keff (at_ ps []) (when b (fupd f (fun x => set_foff (g x) x))) (fun _ _ => 0) (fun _ => at_ ps []).
Proof. destruct b; [apply keff_off|by apply keff_ret]. Qed.

Lemma filestat_eff ps me f : seff (at_ ps []) (filestat me f) (fun _ _ => 0) (fun _ => at_ ps []).
Proof.
  apply seff_read. intros x. destruct (f_type x); try (by apply seff_ret). apply seff_run, keff_read. intros p. lock_first.
  eapply keff_then; [apply keff_fs0, eff_stati|done|]. intros st. unlock_last.
Qed.

Lemma fileread_eff ps me devread f n : seff (at_ ps []) (fileread me devread f n) (fun _ _ => 0) (fun _ => at_ ps []).
Proof.
  apply seff_read. intros x. destruct (f_readable x); cbn [negb]; [|by apply seff_ret].
  destruct (f_type x); [apply seff_stop|apply seff_run, pipe_read_eff|]. apply seff_run, keff_read. intros p. lock_first.
  apply keff_read. intros y. eapply keff_then; [apply keff_fs0, eff_readi|done|]. intros r.
  eapply keff_then; [apply (when_off ps _ f (fun x => u32 (f_off x + r.1)))|done|]. intros u1. unlock_last.
Qed.

Lemma write_chunk_eff ps me devwrite f src : keff (at_ ps []) (write_chunk me devwrite f src) (fun _ _ => 0) (fun _ => at_ ps []).
Proof.
  apply keff_read. intros p. apply keff_read. intros x. lock_first. apply keff_read. intros y.
  eapply keff_then; [apply keff_fs0, eff_writei|done|]. intros r.
  eapply keff_then; [apply (when_off ps _ f (fun x => u32 (f_off x + r)))|done|]. intros u1. unlock_last.
Qed.

Lemma seff_then {A B} P Q R (p : sprog kern A) (f : A -> sprog kern B) d : seff P p (fun _ _ => 0) Q ->
  (forall a, seff (Q a) (f a) d R) -> seff P (p ≫= f) d R.
Proof.
  intros H1 H2. eapply seff_bind; [exact H1|]. intros a. eapply seff_conseq; [apply H2|done|done|intros b c; cbn; lia].
Qed.

Lemma filewrite_loop_eff ps me devwrite fuel f src i : seff (at_ ps []) (filewrite_loop me devwrite fuel f src i) (fun _ _ => 0) (fun _ => at_ ps []).
Proof.
  revert i. induction fuel as [|fuel IH]; intros i; cbn [filewrite_loop].
  - destruct (negb _); [by apply seff_ret|]. apply seff_run, keff_nofuel.
  - destruct (negb _); [by apply seff_ret|]. eapply seff_then; [apply seff_tx, write_chunk_eff|]. intros r.
    destruct (r <? 0); [by apply seff_ret|]. destruct (negb _); [apply seff_stop|apply IH].
Qed.

Lemma filewrite_eff ps me devwrite f src : seff (at_ ps []) (filewrite me devwrite f src) (fun _ _ => 0) (fun _ => at_ ps []).
Proof.
  apply seff_read. intros x. destruct (f_writable x); cbn [negb]; [|by apply seff_ret].
  destruct (f_type x); [apply seff_stop|apply seff_run, pipe_write_eff|].
  eapply seff_then; [apply filewrite_loop_eff|]. intros i. by apply seff_ret.
Qed.

(** ** The calls *)

(** Memory of the process: no count sees it. *)
Lemma umem_eff ps fl me g : keff (at_ ps fl) (pupd me (fun p => set_umem (g p) p)) (fun _ _ => 0) (fun _ k => exists ps', at_ ps' fl k).
Proof.
  apply keff_mod. intros k Hk (Hps & Hat). split; [by apply proc_set_ok|]. split; [|by eexists].
  destruct (decide (me < length (procs k))%nat) as [Hi|Hi].
  - eapply moved_ext; [|by apply proc_set_moved]. intros [j|j|f]; cbn; unfold works_in, fds; cbn; lia.
  - split; [done|]. intros c _. rewrite (surplus_ext c k); [lia|done|done|]. unfold proc_set. cbn. by rewrite list_insert_ge by lia.
Qed.

Notation done_ := (fun _ (_ : kern) => True).

Lemma seff_done {A} P (p : sprog kern A) d Q : seff P p d Q -> seff P p d done_.
Proof. intros H. eapply seff_conseq; [exact H|done|done|done]. Qed.

Lemma argfd_slot p n fd f ps me k : at_ ps [] k -> proc_at me k = p -> argfd p n = Some (fd, f) -> slot_of ps me (Z.to_nat fd) = Some (Some f).
Proof.
  intros (<- & _) <- H. unfold argfd in H. destruct (argint _ n) as [i|]; cbn in H; [|done].
  destruct (_ || _); [done|]. unfold slot_of, proc_at in *. destruct (procs k !! me) as [q|]; cbn in *; [|by rewrite lookup_nil in H].
  destruct (ofile q !! Z.to_nat i) as [[g|]|] eqn:E; cbn in H; try done. injection H as <- <-. done.
Qed.

Lemma sys_dup_eff ps me : seff (at_ ps []) (sys_dup me) (fun _ _ => 0) done_.
Proof.
  apply seff_read. intros p. destruct (argfd p 0) as [[fd f]|]; [|by apply seff_ret].
  eapply seff_bind; [apply seff_run, fdalloc_eff|]. intros fd'. cbv beta. destruct (Z.ltb_spec fd' 0) as [|Hge]; [apply seff_ret; [intros []; cbn; lia|done]|].
  eapply seff_bind; [apply seff_run|intros g; apply seff_ret; [|done]].
  - eapply keff_conseq; [apply (filedup_eff (slot_set me (Z.to_nat fd') (Some f) ps) [])|by intros k []|intros a k H; exact H|reflexivity].
  - intros []; cbn; lia.
Qed.

Lemma sys_read_eff ps me devread : seff (at_ ps []) (sys_read me devread) (fun _ _ => 0) done_.
Proof.
  apply seff_read. intros p. destruct (rw_args p) as [[[f a] n]|]; [|by apply seff_ret].
  eapply seff_then; [apply fileread_eff|]. intros r. eapply seff_then; [apply seff_run, umem_eff|]. intros u. by apply seff_ret.
Qed.

Lemma sys_write_eff ps me devwrite : seff (at_ ps []) (sys_write me devwrite) (fun _ _ => 0) done_.
Proof.
  apply seff_read. intros p. destruct (rw_args p) as [[[f a] n]|]; [|by apply seff_ret]. eapply seff_done, filewrite_eff.
Qed.

Lemma sys_close_eff ps me : seff (at_ ps []) (sys_close kend me) (fun _ _ => 0) done_.
Proof.
  apply seff_gets. intros p. destruct (argfd p 0) as [[fd f]|] eqn:E; [|by apply seff_ret].
  apply (seff_pure (slot_of ps me (Z.to_nat fd) = Some (Some f))); [intros k [Hat Hp]; by eapply argfd_slot|]. intros Hs.
  eapply seff_bind; [apply seff_run; eapply keff_conseq; [by apply (slot_set_eff ps [] me (Z.to_nat fd) (Some f) None)|by intros k []|intros a k H; exact H|reflexivity]|].
  intros u. eapply seff_bind; [apply fileclose_eff|]. intros u'. apply seff_ret; [|done]. intros []; cbn; lia.
Qed.

Lemma sys_fstat_eff ps me : seff (at_ ps []) (sys_fstat me) (fun _ _ => 0) done_.
Proof.
  apply seff_read. intros p. destruct (argfd p 0) as [[fd f]|]; [|by apply seff_ret]. destruct (argptr _ _ _) as [a|]; [|by apply seff_ret].
  eapply seff_then; [apply filestat_eff|]. intros [st|]; [|by apply seff_ret].
  eapply seff_then; [apply seff_run, umem_eff|]. intros u. by apply seff_ret.
Qed.

Definition cwd_of (ps : list fproc) (i : nat) : option nat := p ← ps !! i; cwd p.

Lemma with_proc_eff {A} ps fl me (p : Z -> nat -> tprog fs A) dr dl :
  (forall pid c, cwd_of ps me = Some c -> eff (fun _ => True) (p pid c) dr dl) ->
  keff (at_ ps fl) (with_proc me p) (fun a => of_inodes (dr a) (dl a)) (fun _ => at_ ps fl).
Proof.
  intros H. apply keff_gets. intros q. destruct (cwd q) as [c|] eqn:E; [|apply keff_nofuel].
  apply (keff_pure (cwd_of ps me = Some c)).
  { intros k [(<- & _) Hq]. unfold cwd_of, proc_at in *. destruct (procs k !! me); cbn in *; by subst. }
  intros Hc. eapply keff_conseq; [apply (keff_fsop (at_ ps fl) _ _ _ (H (p_pid q) c Hc)); apply at_kfs|by intros k []|intros a k Hk; exact Hk|done].
Qed.

(** A transaction that keeps the counts of fs.c. *)
Lemma seff_with_proc ps me (p : Z -> nat -> tprog fs Z) : (forall pid c, eff (fun _ => True) (p pid c) (fun _ _ => 0) (fun _ _ => 0)) ->
  seff (at_ ps []) (stx (with_proc me p)) (fun _ _ => 0) done_.
Proof.
  intros H. apply seff_tx. eapply keff_conseq; [apply (with_proc_eff ps [] me p); intros pid c _; apply H|done|done|by intros a []].
Qed.

Lemma sys_link_eff ps me devread devwrite : seff (at_ ps []) (sys_link me devread devwrite) (fun _ _ => 0) done_.
Proof.
  apply seff_read. intros p. destruct (argpath p 0) as [old|]; [|by apply seff_ret]. destruct (argpath p 1) as [new|]; [|by apply seff_ret].
  apply seff_with_proc. intros. apply eff_link.
Qed.

Lemma sys_unlink_eff ps me devread devwrite : seff (at_ ps []) (sys_unlink me devread devwrite) (fun _ _ => 0) done_.
Proof.
  apply seff_read. intros p. destruct (argpath p 0) as [path|]; [|by apply seff_ret]. apply seff_with_proc. intros. apply eff_unlink.
Qed.

Lemma make_eff ps me devread devwrite args type : seff (at_ ps []) (stx (make me devread devwrite args type)) (fun _ _ => 0) done_.
Proof.
  apply seff_tx, keff_read. intros p. destruct (args p) as [[[path major] minor]|]; [|by apply keff_ret].
  eapply keff_conseq; [apply (with_proc_eff ps [] me _ (fun _ _ => 0) (fun _ _ => 0))|done|done|by intros a []].
  intros pid c _. eapply eff_bind; [apply eff_create|]. intros [ip|]; [|apply eff_ret; intros j; cbn; lia].
  eapply eff_bind; [apply eff_iunlockput|]. intros u. apply eff_ret; intros j; cbn; lia.
Qed.

(** The inode that [sys_open] holds locked. *)
Lemma open_inode_eff ps fl me devread devwrite path omode : keff (at_ ps fl) (open_inode me devread devwrite path omode)
  (fun r => of_inodes (ones r) (ones r)) (fun _ => at_ ps fl).
Proof.
  apply with_proc_eff. intros pid c _. destruct (negb _); [apply eff_create|].
  eapply eff_bind; [apply eff_namei|]. intros [ip|]; [|apply eff_ret; intros j; cbn; lia].
  eapply eff_bind; [apply eff_ilock|]. intros u. apply eff_gets. intros x. destruct (_ && _); [|apply eff_ret; intros j; cbn; lia].
  eapply eff_bind; [apply eff_iunlockput|]. intros u'. apply eff_ret; intros j; cbn; lia.
Qed.

(** What the transaction of [sys_open] leaves to its end: the reference to the inode. *)
Lemma open_tx_eff ps me devread devwrite path omode : keff (at_ ps []) (open_tx kend me devread devwrite path omode)
  (fun r => of_inodes (ones (fst <$> (fst <$> r))) (fun _ => 0))
  (fun r k => match r with Some (_, f, _) => exists ps', at_ ps' [f] k | None => True end).
Proof.
  eapply keff_bind; [apply open_inode_eff|]. intros [ip|]; [|apply keff_ret; [by intros []|done]].
  apply keff_read. intros c. eapply keff_bind; [apply filealloc_eff|]. intros [f|].
  2: { eapply keff_bind; [apply keff_fsop; [apply eff_iunlockput|apply at_kfs]|]. intros u. apply keff_ret; [intros []; cbn; lia|done]. }
  eapply keff_bind; [apply fdalloc_eff|]. intros fd. cbv beta. destruct (Z.ltb_spec fd 0) as [|Hfd].
  - eapply keff_bind; [apply fileclose_tx_eff|]. intros u.
    eapply keff_bind; [apply keff_fsop; [apply eff_iunlockput|apply at_kfs]|]. intros u'. apply keff_ret; [intros []; cbn; lia|done].
  - eapply keff_bind; [apply keff_fsop; [apply eff_iunlock|by intros m k []]|]. intros u. apply keff_ret; [intros []; cbn; lia|].
    intros k [_ Hat]. by eexists.
Qed.

Lemma sys_open_eff ps me devread devwrite : seff (at_ ps []) (sys_open kend me devread devwrite) (fun _ _ => 0) done_.
Proof.
  apply seff_read. intros p. destruct (argpath p 0) as [path|]; [|by apply seff_ret]. destruct (argint p 1) as [omode|]; [|by apply seff_ret].
  eapply seff_bind; [apply seff_tx, open_tx_eff|]. intros [[[ip f] fd]|]; [|apply seff_ret; [intros []; cbn; lia|done]].
  eapply (seff_bind _ done_ _ _ _ (fun _ c => - of_inodes (one ip) (fun _ => 0) c)); [apply seff_run, keff_mod|intros u; apply seff_ret; [intros []; cbn; lia|done]].
  intros k Hk (ps' & _ & _ & [(Hf & Ht & Hr) _]%Forall_cons). split; [|split; [|done]].
  - apply ft_set_ok; [done|done| |cbn; lia]. intros q w. unfold is_end. rewrite Ht. done.
  - eapply moved_ext; [|by apply ft_set_moved]. intros [j|j|f']; cbn; [|done|lia]. rewrite opens_not by (rewrite Ht; done).
    unfold opens, one. cbn. destruct (Nat.eqb_spec ip j); [rewrite bool_decide_true by done|rewrite bool_decide_false by naive_solver]; done.
Qed.

(** The directory of a process. *)
Lemma cwd_set_eff ps fl i o : (i < length ps)%nat -> keff (at_ ps fl) (qupd i (set_cwd o))
  (fun _ => of_inodes (fun j => ones (cwd_of ps i) j - ones o j) (fun _ => 0)) done_.
Proof.
  intros Hi. apply keff_mod. intros k Hk (<- & _). destruct (lookup_lt_is_Some_2 _ _ Hi) as [p Ep].
  assert (E : proc_at i k = p) by (unfold proc_at; by rewrite Ep). split; [by apply proc_set_ok|]. split; [|done].
  eapply moved_ext; [|by apply proc_set_moved]. rewrite E. unfold cwd_of. rewrite Ep.
  intros [j|j|f]; cbn; [unfold works_in; cbn; lia|done|unfold fds; cbn; lia].
Qed.

Lemma sys_chdir_eff ps me devread : (me < length ps)%nat -> seff (at_ ps []) (sys_chdir me devread) (fun _ _ => 0) done_.
Proof.
  intros Hme. set (dr := fun (r : option nat) j => match r with Some ip => one ip j - ones (cwd_of ps me) j | None => 0 end).
  apply (seff_bind _ (fun _ => at_ ps []) _ _ _ (fun r => of_inodes (dr r) (fun _ => 0))).
  - apply seff_tx, keff_read. intros p. destruct (argpath p 0) as [path|]; [|apply keff_ret; [by intros []|done]].
    apply (with_proc_eff ps [] me _ dr (fun _ _ => 0)). intros pid c Hc. unfold dr. rewrite Hc.
    eapply eff_bind; [apply eff_namei|]. intros [ip|]; [|apply eff_ret; intros j; cbn; lia].
    eapply eff_bind; [apply eff_ilock|]. intros u. apply eff_gets. intros x. destruct (negb _).
    + eapply eff_bind; [apply eff_iunlockput|]. intros u'. apply eff_ret; intros j; cbn; lia.
    + eapply eff_bind; [apply eff_iunlock|]. intros u'. eapply eff_bind; [apply eff_iput|]. intros u''. apply eff_ret; intros j; cbn; lia.
  - intros [ip|]; [|apply seff_ret; [intros []; cbn; lia|done]].
    eapply seff_bind; [apply seff_run, (cwd_set_eff ps [] me (Some ip) Hme)|]. intros u. apply seff_ret; [intros []; cbn; lia|done].
Qed.

Lemma slot_of_set ps i fd o : is_Some (slot_of ps i fd) -> slot_of (slot_set i fd o ps) i fd = Some o.
Proof.
  unfold slot_of, slot_set. destruct (ps !! i) as [p|] eqn:E; cbn; intros [z Hz]; [|done].
  rewrite list_lookup_insert_eq by (by eapply lookup_lt_Some). cbn. apply list_lookup_insert_eq. by eapply lookup_lt_Some.
Qed.

Lemma sys_pipe_eff ps me : seff (at_ ps []) (sys_pipe kend me) (fun _ _ => 0) done_.
Proof.
  apply seff_read. intros p. destruct (argptr _ _ _) as [a|]; [|by apply seff_ret].
  eapply seff_bind; [apply pipealloc_eff|]. intros [[rf wf]|]; [|apply seff_ret; [intros []; cbn; lia|done]].
  eapply seff_bind; [apply seff_run, fdalloc_eff|]. intros fd0. cbv beta. destruct (Z.ltb_spec fd0 0) as [H0|H0].
  - eapply seff_then; [apply (seff_ret _ (fun fd1 k => fd1 = -1 /\ at_ ps [] k)); done|]. intros fd1.
    apply (seff_pure (fd1 = -1)); [by intros k []|]. intros ->. cbn [Z.ltb Z.compare]. destruct (Z.geb_spec fd0 0); [lia|].
    eapply seff_then; [apply (seff_ret _ (fun _ => at_ ps [])); [done|by intros k []]|]. intros u.
    eapply seff_bind; [apply fileclose_eff|]. intros u'. eapply seff_bind; [apply fileclose_eff|]. intros u''. apply seff_ret; [intros []; cbn; lia|done].
  - apply (seff_pure (slot_of ps me (Z.to_nat fd0) = Some None)); [by intros k []|]. intros Hs.
    eapply seff_bind; [apply seff_run; eapply keff_conseq; [apply fdalloc_eff|by intros k []|intros b k H; exact H|reflexivity]|].
    intros fd1. cbv beta. destruct (Z.ltb_spec fd1 0) as [H1|H1].
    + destruct (Z.geb_spec fd0 0); [|lia].
      eapply seff_bind; [apply seff_run; apply (slot_set_eff _ [] me (Z.to_nat fd0) (Some rf) None); apply slot_of_set; by eexists|]. intros u.
      eapply seff_bind; [apply fileclose_eff|]. intros u'. eapply seff_bind; [apply fileclose_eff|]. intros u''. apply seff_ret; [intros []; cbn; lia|done].
    + eapply seff_bind; [apply seff_run; eapply keff_conseq; [apply umem_eff|by intros k []|intros b k H; exact H|reflexivity]|].
      intros u. apply seff_ret; [intros []; cbn; lia|done].
Qed.
End Kernel.
