(* ===== verification/SysSpec.v ===== *)
(** * System calls on files: counts

    [kstep] is one step of the system as its file layer sees it: a process makes a
    system call, forks, exits, or runs user code.  The theorem says that along every
    execution the reference counts are the numbers of pointers. *)

From S2P Require Import Prelude Spinlock Bio BioSpec BlockProg Log FsProg Fs FsAlloc FsFile FsInode FsDir FsPath FsExample FsCall Pipe Kalloc Kern File Syscall Sysfile FileSpec FsRefs SysRefs.
Import Fs.

Notation done_ := (fun _ (_ : kern) => True).

Section Steps.
Context (kend : Z) (devread : Z -> option (Z -> Z * list Z)) (devwrite : Z -> option (list Z -> Z)).

(** ** fork and exit *)

Lemma slot_of_set_ne ps i fd o j e : (i, fd) <> (j, e) -> slot_of (slot_set i fd o ps) j e = slot_of ps j e.
Proof.
  intros Hne. unfold slot_of, slot_set. destruct (ps !! i) as [p|] eqn:E; [|done]. destruct (decide (i = j)) as [<-|].
  - rewrite list_lookup_insert_eq by (by eapply lookup_lt_Some). rewrite E. cbn. apply list_lookup_insert_ne. congruence.
  - by rewrite list_lookup_insert_ne.
Qed.

Lemma cwd_slot_set i fd o ps j : cwd_of (slot_set i fd o ps) j = cwd_of ps j.
Proof.
  unfold cwd_of, slot_set. destruct (ps !! i) as [p|] eqn:E; [|done]. destruct (decide (i = j)) as [<-|].
  - rewrite list_lookup_insert_eq by (by eapply lookup_lt_Some). by rewrite E.
  - by rewrite list_lookup_insert_ne.
Qed.

Lemma length_slot_set i fd o ps : length (slot_set i fd o ps) = length ps.
Proof. unfold slot_set. destruct (ps !! i); [apply length_insert|done]. Qed.

(** Processes that differ in descriptors only. *)
Definition like (ps ps' : list fproc) : Prop := length ps' = length ps /\ forall j, cwd_of ps' j = cwd_of ps j.

Lemma fork_files_eff n : forall fd me np ps, (forall e, (fd <= e < fd + n)%nat -> slot_of ps np e = Some None) ->
  keff kend (at_ ps []) (fork_files me n fd np) (fun _ _ => 0) (fun _ k => exists ps', like ps ps' /\ at_ ps' [] k).
Proof.
  induction n as [|n IH]; intros fd me np ps Hs; cbn [fork_files]; [apply keff_ret; [done|]; intros k Hk; by exists ps|].
  apply keff_read. intros p. destruct (mjoin (ofile p !! fd)) as [f|].
  - eapply (keff_bind _ _ (fun _ => at_ (slot_set np fd (Some f) ps) []) _ _ _ (fun _ _ => 0)).
    + eapply keff_bind; [apply filedup_eff|]. intros g.
      eapply keff_conseq; [apply (slot_set_eff kend ps [] np fd None (Some f)); apply Hs; lia|done|intros a k Hk; exact Hk|]. intros a []; cbn; lia.
    + intros u. eapply keff_conseq; [apply (IH (S fd) me np (slot_set np fd (Some f) ps))|done| |done].
      * intros e He. rewrite slot_of_set_ne; [apply Hs; lia|]. intros [= ?]. lia.
      * intros a k (ps' & [L C] & Hk). exists ps'. split; [|done]. split; [by rewrite L, length_slot_set|]. intros j. by rewrite C, cwd_slot_set.
  - eapply keff_then; [by apply (keff_ret _ (at_ ps []) (fun _ => at_ ps []))|done|]. intros u. apply (IH (S fd) me np ps). intros e He. apply Hs. lia.
Qed.

Lemma fork_dup_eff ps me np : (np < length ps)%nat -> cwd_of ps np = None -> (forall e, (e < NOFILE)%nat -> slot_of ps np e = Some None) ->
  seff kend (at_ ps []) (fork_dup me np) (fun _ _ => 0) done_.
Proof.
  intros Hn Hc Hs. apply seff_run. eapply keff_then; [apply (fork_files_eff NOFILE 0 me np ps); intros e He; apply Hs; lia|done|].
  intros u. apply keff_read. intros p. destruct (cwd p) as [d|]; [|apply keff_nofuel].
  intros k t a k' t' Hk (ps' & [L C] & Hat). revert k t a k' t' Hk Hat.
  change (keff kend (at_ ps' []) (fsop (idup d) ;; qupd np (set_cwd (Some d))) (fun _ _ => 0) done_).
  eapply keff_bind; [apply keff_fsop; [apply eff_idup_at|apply at_kfs]|]. intros e. eapply keff_conseq; [apply (cwd_set_eff kend ps' [] np (Some d)); by rewrite L|done|done|].
  intros a [j|j|f]; cbn; rewrite ?C, ?Hc; cbn; lia.
Qed.

(** The loop of [exit] leaves the directory of the process. *)
Lemma exit_files_eff n : forall fd me ps, seff kend (at_ ps []) (exit_files kend me n fd) (fun _ _ => 0) (fun _ k => exists ps', like ps ps' /\ at_ ps' [] k).
Proof.
  induction n as [|n IH]; intros fd me ps; cbn [exit_files]; [apply seff_ret; [done|]; intros k Hk; by exists ps|].
  apply seff_gets. intros p. destruct (mjoin (ofile p !! fd)) as [f|] eqn:E.
  - apply (seff_pure _ (slot_of ps me fd = Some (Some f))).
    { intros k [(<- & _) Hp]. unfold slot_of, proc_at in *. destruct (procs k !! me) as [q|]; cbn in *; subst p; cbn in E; [|done].
      by destruct (ofile q !! fd) as [[]|]; cbn in E; try done; injection E as ->. }
    intros Hs. eapply (seff_bind _ _ (fun _ => at_ (slot_set me fd None ps) []) _ _ _ (fun _ _ => 0)).
    + eapply seff_bind; [eapply seff_conseq; [apply (fileclose_eff kend ps [] me f)|by intros k []|intros a k Hk; exact Hk|reflexivity]|]. intros u.
      apply seff_run. eapply keff_conseq; [by apply (slot_set_eff kend ps [] me fd (Some f) None)|done|intros a k Hk; exact Hk|]. intros a []; cbn; lia.
    + intros u. eapply seff_conseq; [apply (IH (S fd) me (slot_set me fd None ps))|done| |done].
      intros a k (ps' & [L C] & Hk). exists ps'. split; [|done]. split; [by rewrite L, length_slot_set|]. intros j. by rewrite C, cwd_slot_set.
  - eapply seff_then; [by apply (seff_ret _ (fun k => at_ ps [] k /\ proc_at me k = p) (fun _ => at_ ps [])); [|intros k []]|].
    intros u. apply (IH (S fd) me ps).
Qed.

Lemma exit_close_eff ps me : (me < length ps)%nat -> seff kend (at_ ps []) (exit_close kend me) (fun _ _ => 0) done_.
Proof.
  intros Hme. eapply seff_then; [apply exit_files_eff|]. intros u k v a k' v' Hk (ps' & [L C] & Hat). revert k v a k' v' Hk Hat.
  match goal with |- forall k v a k' v', _ -> _ -> run_s ?p _ = _ -> _ => change (seff kend (at_ ps' []) p (fun _ _ => 0) done_) end.
  apply seff_gets. intros p. destruct (cwd p) as [d|] eqn:Ed; [|apply seff_run, keff_nofuel].
  apply (seff_pure _ (cwd_of ps' me = Some d)).
  { intros k [(<- & _) Hp]. unfold cwd_of, proc_at in *. destruct (procs k !! me); cbn in *; by subst. }
  intros Hc. eapply seff_bind.
  { apply seff_tx. eapply keff_conseq; [apply (keff_fsop kend (at_ ps' [])); [apply eff_iput|apply at_kfs]|by intros q []|intros b q Hq; exact Hq|reflexivity]. }
  intros u'. eapply seff_conseq; [apply seff_run, (cwd_set_eff kend ps' [] me None); by rewrite L|done|done|].
  intros b [j|j|f]; cbn; rewrite ?Hc; cbn; lia.
Qed.

(** ** Executions *)

Inductive call := CDup | CRead | CWrite | CClose | CFstat | CLink | CUnlink | COpen | CMkdir | CMknod | CChdir | CPipe.

Definition sys (me : nat) (c : call) : KS Z :=
  match c with
  | CDup => sys_dup me
  | CRead => sys_read me devread
  | CWrite => sys_write me devwrite
  | CClose => sys_close kend me
  | CFstat => sys_fstat me
  | CLink => sys_link me devread devwrite
  | CUnlink => sys_unlink me devread devwrite
  | COpen => sys_open kend me devread devwrite
  | CMkdir => sys_mkdir me devread devwrite
  | CMknod => sys_mknod me devread devwrite
  | CChdir => sys_chdir me devread
  | CPipe => sys_pipe kend me
  end.

(** A process without files, as a slot that [fork] takes. *)
Definition vacant (p : fproc) : Prop := cwd p = None /\ forall e, (e < NOFILE)%nat -> ofile p !! e = Some None.

Inductive kstep : kern * list block -> kern * list block -> Prop :=
| step_call k v i c r k' v' : (i < length (procs k))%nat -> run_s (sys i c) (k, v) = Ok r (k', v') -> kstep (k, v) (k', v')
| step_fork k v i np k' v' : (np < length (procs k))%nat -> vacant (proc_at np k) -> run_s (fork_dup i np) (k, v) = Ok tt (k', v') ->
    kstep (k, v) (k', v')
| step_exit k v i k' v' : (i < length (procs k))%nat -> run_s (exit_close kend i) (k, v) = Ok tt (k', v') -> kstep (k, v) (k', v')
| step_user k v i p : cwd p = cwd (proc_at i k) -> ofile p = ofile (proc_at i k) -> kstep (k, v) (proc_set i p k, v).

Lemma sys_eff me c ps : (me < length ps)%nat -> seff kend (at_ ps []) (sys me c) (fun _ _ => 0) done_.
Proof.
  intros Hme. destruct c; cbn [sys].
  - apply sys_dup_eff.
  - apply sys_read_eff.
  - apply sys_write_eff.
  - apply sys_close_eff.
  - apply sys_fstat_eff.
  - apply sys_link_eff.
  - apply sys_unlink_eff.
  - apply sys_open_eff.
  - apply make_eff.
  - apply make_eff.
  - by apply sys_chdir_eff.
  - apply sys_pipe_eff.
Qed.

Lemma step_moved st st' : kstep st st' -> files_ok kend st.1 -> files_ok kend st'.1 /\ moved (fun _ => 0) st.1 st'.1.
Proof.
  intros Hst Hk. destruct Hst as [k v i c r k' v' Hi E|k v i np k' v' Hn [Hc Hs] E|k v i k' v' Hi E|k v i p Hc Ho]; cbn [fst] in *.
  - destruct (sys_eff i c (procs k) Hi k v r k' v' Hk (at_procs _ _ eq_refl) E) as (H1 & H2 & _). done.
  - assert (En : procs k !! np = Some (proc_at np k)) by (unfold proc_at; by destruct (lookup_lt_is_Some_2 _ _ Hn) as [x ->]).
    destruct (fork_dup_eff (procs k) i np Hn) with (k := k) (v := v) (a := tt) (k' := k') (v' := v') as (H1 & H2 & _); try done.
    + unfold cwd_of. by rewrite En.
    + intros e He. unfold slot_of. rewrite En. by apply Hs.
    + by apply at_procs.
  - destruct (exit_close_eff (procs k) i Hi k v tt k' v' Hk (at_procs _ _ eq_refl) E) as (H1 & H2 & _). done.
  - split; [by apply proc_set_ok|]. destruct (decide (i < length (procs k))%nat) as [Hi|Hi].
    + eapply moved_ext; [|by apply proc_set_moved]. intros [j|j|f]; cbn; unfold works_in, fds; rewrite ?Hc, ?Ho; lia.
    + split; [done|]. intros c _. rewrite (surplus_ext c k); [lia|done|done|]. unfold proc_set. cbn. by rewrite list_insert_ge by lia.
Qed.

(** Every count is the number of pointers. *)
Definition exact (k : kern) : Prop := forall c, counted c k -> surplus c k = 0.

Lemma steps_exact st st' : rtc kstep st st' -> files_ok kend st.1 /\ exact st.1 -> files_ok kend st'.1 /\ exact st'.1.
Proof.
  induction 1 as [|st st1 st2 Hs _ IH]; [done|]. intros [Hk He]. apply IH. destruct (step_moved _ _ Hs Hk) as [Hk1 [L M]].
  split; [done|]. intros c Hc. rewrite M, He; [done| |]; destruct c; cbn in *; by rewrite ?L in *.
Qed.
End Steps.

(** C2. Along every execution of calls on files, forks, exits and user code, from a
    state in which this holds: the reference count of an open file is the number of
    descriptors that name it, over all processes; the reference count of an inode
    in the cache is the number of open files and of current directories that are it,
    so that none leaks and none is recycled while in use; no inode is locked between
    two calls; a file with no reference has no type; each end of a pipe is open
    exactly when one open file is that end. *)
Theorem file_counts_exact kend devread devwrite st st' : files_ok kend st.1 -> exact st.1 -> rtc (kstep kend devread devwrite) st st' ->
  let k := st'.1 in
  (forall f, f_ref (ft_at f k) = total (fds f) (procs k)) /\
  (forall j, (j < length (icache (kfs k)))%nat ->
     i_ref (ip_at j (kfs k)) = total (opens j) (ftable k) + total (works_in j) (procs k) /\
     SleepLock.sl_locked (i_lock (ip_at j (kfs k))) = 0) /\
  (forall f, f_ref (ft_at f k) <= 0 -> f_type (ft_at f k) = FD_NONE) /\
  (forall p w, total (is_end p w) (ftable k) =
     match kpipes k !! p with Some x => if end_open w x then 1 else 0 | None => 0 end).
Proof.
  intros Hk He Hr k. destruct (steps_exact _ _ _ _ _ Hr (conj Hk He)) as [Hk' He']. fold k in Hk', He'. split; [|split; [|split]].
  - intros f. specialize (He' (CFile f) I). cbn -[ft_at] in He'. lia.
  - intros j Hj. pose proof (He' (CInode j) Hj) as H1. pose proof (He' (CLock j) Hj) as H2. cbn in H1, H2. split; [lia|].
    unfold locked_ in H2. by destruct (Z.eqb_spec (SleepLock.sl_locked (i_lock (ip_at j (kfs k)))) 0).
  - apply Hk'.
  - apply Hk'.
Qed.

Lemma small_files_ok : files_ok ex_kend SmallKern.k0.
Proof.
  split.
  - intros [|[|[|f]]]; cbn; done || lia.
  - done.
  - done.
  - exists []. split; [apply ex_free|done].
Qed.

Lemma small_exact : exact SmallKern.k0.
Proof.
  intros [j|j|f] Hc; cbn in Hc.
  - destruct j as [|[|[|[|j]]]]; [reflexivity..|lia].
  - destruct j as [|[|[|[|j]]]]; [reflexivity..|lia].
  - destruct f as [|[|[|f]]]; reflexivity.
Qed.

Lemma file_counts_exact_witness : exists st', rtc (kstep ex_kend (fun _ => None) (fun _ => None)) (SmallKern.k0, Small.disk) st' /\
  map f_ref (ftable st'.1) = [2; 0; 0] /\ total (fds 0) (procs st'.1) = 2.
Proof.
  eassert (H : rtc (kstep ex_kend (fun _ => None) (fun _ => None)) (SmallKern.k0, Small.disk) _).
  { eapply rtc_l; [apply (step_call _ _ _ _ _ 0%nat CDup 1); [cbn; lia|vm_compute; reflexivity]|].
    eapply rtc_l; [apply (step_fork _ _ _ _ _ 0%nat 1%nat); [cbn; lia| |vm_compute; reflexivity]|].
    { split; [reflexivity|]. intros e He. change (replicate 16 (@None nat) !! e = Some None). apply lookup_replicate_2. exact He. }
    eapply rtc_l; [apply (step_exit _ _ _ _ _ 0%nat); [cbn; lia|vm_compute; reflexivity]|]. apply rtc_refl. }
  eexists. split; [exact H|]. destruct (file_counts_exact _ _ _ (SmallKern.k0, Small.disk) _ small_files_ok small_exact H) as (Hf & _).
  split; [reflexivity|]. rewrite <- Hf. reflexivity.
Defined.
