(* ===== verification/Vm.v ===== *)
(** * Page tables (system/memory/vm.c, include/mmu.h)

    Page directories and page tables are pages of the allocator's memory;
    their entries are words of those pages.  The functions are those of vm.c
    over the allocator's state.  [pte_at] is the translation that the MMU will
    perform: theorems about the functions are stated on it.

    [kend] and [kdata] are the linker's [end] and [data]. *)

From S2P Require Import Prelude Kalloc.

Definition PTE_P : Z := 1.
Definition PTE_W : Z := 2.
Definition PTE_U : Z := 4.
Definition NPDENTRIES : nat := 1024.
Definition KERNLINK : Z := KERNBASE + EXTMEM.
Definition PDX (va : Z) : Z := Z.land (Z.shiftr va 22) 1023.
Definition PTX (va : Z) : Z := Z.land (Z.shiftr va 12) 1023.
Definition PTE_ADDR (pte : Z) : Z := Z.land pte PGMASK.
Definition PTE_FLAGS (pte : Z) : Z := Z.land pte 4095.
Definition PGADDR (d t o : Z) : Z := u32 (Z.lor (Z.lor (Z.shiftl d 22) (Z.shiftl t 12)) o).

(** [e & PTE_P] as a condition. *)
Definition has (f e : Z) : bool := negb (Z.land e f =? 0).

(** ** The translation *)

Definition pde_at (s : kmem) (pgdir i : Z) : Z := ld32 (pgdir + 4 * i) s.
Definition tab_at (s : kmem) (pgdir i : Z) : Z := P2V (PTE_ADDR (pde_at s pgdir i)).

(** The page table entry of [va]; 0 where there is no page table. *)
Definition pte_at (s : kmem) (pgdir va : Z) : Z :=
  if has PTE_P (pde_at s pgdir (PDX va))
  then ld32 (tab_at s pgdir (PDX va) + 4 * PTX va) s
  else 0.

(** The page that [va] is mapped to. *)
Definition upage (s : kmem) (pgdir va : Z) : Z := P2V (PTE_ADDR (pte_at s pgdir va)).

(** [memmove] of bytes into a page of the allocator's memory. *)
Definition store_bytes (a : Z) (bs : list Z) (s : kmem) : kmem :=
  set_page a (splice (page_off a) bs (page_at a s)) s.

Section Vm.
Context (kend kdata : Z).

Definition walkpgdir (pgdir va : Z) (alloc : bool) : M kmem Z :=
  let pde := pgdir + 4 * PDX va in
  e ← gets (ld32 pde);
  if has PTE_P e
  then mret (P2V (PTE_ADDR e) + 4 * PTX va)
  else
    if negb alloc then mret 0 else
    pgtab ← kalloc;
    if pgtab =? 0 then mret 0 else
    modify (memset_page pgtab 0) ;;
    modify (st32 pde (Z.lor (Z.lor (Z.lor (V2P pgtab) PTE_P) PTE_W) PTE_U)) ;;
    mret (pgtab + 4 * PTX va).

Fixpoint mappages_loop (fuel : nat) (pgdir a last pa perm : Z) : M kmem Z :=
  match fuel with
  | O => nofuel
  | S f =>
      pte ← walkpgdir pgdir a true;
      if pte =? 0 then mret (-1) else
      e ← gets (ld32 pte);
      if has PTE_P e then panic "remap" else
      modify (st32 pte (Z.lor (Z.lor pa perm) PTE_P)) ;;
      if a =? last then mret 0
      else mappages_loop f pgdir (u32 (a + PGSIZE)) last (u32 (pa + PGSIZE)) perm
  end.

(** The loop visits the pages from [a] to [last] once, modulo 2^32. *)
Definition mappages (pgdir va size pa perm : Z) : M kmem Z :=
  let a := PGROUNDDOWN va in
  let last := PGROUNDDOWN (u32 (va + size - 1)) in
  mappages_loop (S (Z.to_nat (u32 (last - a) / PGSIZE))) pgdir a last pa perm.

Fixpoint deallocuvm_loop (fuel : nat) (pgdir a oldsz : Z) : M kmem unit :=
  if a <? oldsz
  then
    match fuel with
    | O => nofuel
    | S f =>
        pte ← walkpgdir pgdir a false;
        if pte =? 0
        then deallocuvm_loop f pgdir (u32 (u32 (PGADDR (PDX a + 1) 0 0 - PGSIZE) + PGSIZE)) oldsz
        else
          e ← gets (ld32 pte);
          when (has PTE_P e) (
            let pa := PTE_ADDR e in
            if pa =? 0 then panic "kfree" else
            kfree kend (P2V pa) ;;
            modify (st32 pte 0)) ;;
          deallocuvm_loop f pgdir (u32 (a + PGSIZE)) oldsz
    end
  else mret tt.

Definition deallocuvm (pgdir oldsz newsz : Z) : M kmem Z :=
  if newsz >=? oldsz then mret oldsz else
  deallocuvm_loop (S (Z.to_nat (oldsz / PGSIZE))) pgdir (PGROUNDUP newsz) oldsz ;;
  mret newsz.

Definition freevm (pgdir : Z) : M kmem unit :=
  if pgdir =? 0 then panic "freevm: no pgdir" else
  deallocuvm pgdir KERNBASE 0 ;;
  for_each NPDENTRIES 0 (fun i =>
    e ← gets (ld32 (pgdir + 4 * i));
    when (has PTE_P e) (kfree kend (P2V (PTE_ADDR e)))) ;;
  kfree kend pgdir.

(** [struct kmap kmap[]]: virtual start, physical start and end, permissions. *)
Definition kmap : list (Z * Z * Z * Z) :=
  [ (KERNBASE, 0, EXTMEM, PTE_W);
    (KERNLINK, V2P KERNLINK, V2P kdata, 0);
    (kdata, V2P kdata, PHYSTOP, PTE_W);
    (DEVSPACE, DEVSPACE, 0, PTE_W) ].

Fixpoint setupkvm_loop (km : list (Z * Z * Z * Z)) (pgdir : Z) : M kmem Z :=
  match km with
  | [] => mret pgdir
  | (virt, phys_start, phys_end, perm) :: km' =>
      r ← mappages pgdir virt (u32 (phys_end - phys_start)) phys_start perm;
      if r <? 0 then freevm pgdir ;; mret 0 else setupkvm_loop km' pgdir
  end.

Definition setupkvm : M kmem Z :=
  pgdir ← kalloc;
  if pgdir =? 0 then mret 0 else
  modify (memset_page pgdir 0) ;;
  if P2V PHYSTOP >? DEVSPACE then panic "PHYSTOP too high" else
  setupkvm_loop kmap pgdir.

Definition inituvm (pgdir : Z) (init : list Z) : M kmem unit :=
  if Z.of_nat (length init) >=? PGSIZE then panic "inituvm: more than a page" else
  mem ← kalloc;
  modify (memset_page mem 0) ;;
  mappages pgdir 0 PGSIZE (V2P mem) (Z.lor PTE_W PTE_U) ;;
  modify (store_bytes mem init).

(** [readi off n] are the bytes that [readi(ip, _, off, n)] delivers. *)
Fixpoint loaduvm_loop (fuel : nat) (readi : Z -> Z -> list Z) (pgdir addr i offset sz : Z) : M kmem Z :=
  if i <? sz
  then
    match fuel with
    | O => nofuel
    | S f =>
        pte ← walkpgdir pgdir (u32 (addr + i)) false;
        if pte =? 0 then panic "loaduvm: address should exist" else
        e ← gets (ld32 pte);
        let pa := PTE_ADDR e in
        let n := if sz - i <? PGSIZE then sz - i else PGSIZE in
        let bs := readi (u32 (offset + i)) n in
        modify (store_bytes (P2V pa) bs) ;;
        if negb (Z.of_nat (length bs) =? n) then mret (-1)
        else loaduvm_loop f readi pgdir addr (u32 (i + PGSIZE)) offset sz
    end
  else mret 0.

Definition loaduvm (readi : Z -> Z -> list Z) (pgdir addr offset sz : Z) : M kmem Z :=
  if negb (addr mod PGSIZE =? 0) then panic "loaduvm: addr must be page aligned" else
  loaduvm_loop (S (Z.to_nat (sz / PGSIZE))) readi pgdir addr 0 offset sz.

Fixpoint allocuvm_loop (fuel : nat) (pgdir a oldsz newsz : Z) : M kmem Z :=
  if a <? newsz
  then
    match fuel with
    | O => nofuel
    | S f =>
        mem ← kalloc;
        if mem =? 0 then deallocuvm pgdir newsz oldsz ;; mret 0 else
        modify (memset_page mem 0) ;;
        r ← mappages pgdir a PGSIZE (V2P mem) (Z.lor PTE_W PTE_U);
        if r <? 0 then deallocuvm pgdir newsz oldsz ;; kfree kend mem ;; mret 0 else
        allocuvm_loop f pgdir (u32 (a + PGSIZE)) oldsz newsz
    end
  else mret newsz.

Definition allocuvm (pgdir oldsz newsz : Z) : M kmem Z :=
  if newsz >=? KERNBASE then mret 0 else
  if newsz <? oldsz then mret oldsz else
  allocuvm_loop (S (Z.to_nat (newsz / PGSIZE))) pgdir (PGROUNDUP oldsz) oldsz newsz.

Definition clearpteu (pgdir uva : Z) : M kmem unit :=
  pte ← walkpgdir pgdir uva false;
  if pte =? 0 then panic "clearpteu" else
  modify (fun s => st32 pte (Z.land (ld32 pte s) (u32 (Z.lnot PTE_U))) s).

Fixpoint copyuvm_loop (fuel : nat) (pgdir d i sz : Z) : M kmem Z :=
  if i <? sz
  then
    match fuel with
    | O => nofuel
    | S f =>
        pte ← walkpgdir pgdir i false;
        if pte =? 0 then panic "copyuvm: pte should exist" else
        e ← gets (ld32 pte);
        if negb (has PTE_P e) then panic "copyuvm: page not present" else
        let pa := PTE_ADDR e in
        let flags := PTE_FLAGS e in
        mem ← kalloc;
        if mem =? 0 then freevm d ;; mret 0 else
        modify (fun s => set_page mem (page_at (P2V pa) s) s) ;;
        r ← mappages d i PGSIZE (V2P mem) flags;
        if r <? 0 then kfree kend mem ;; freevm d ;; mret 0 else
        copyuvm_loop f pgdir d (u32 (i + PGSIZE)) sz
    end
  else mret d.

Definition copyuvm (pgdir sz : Z) : M kmem Z :=
  d ← setupkvm;
  if d =? 0 then mret 0 else copyuvm_loop (S (Z.to_nat (sz / PGSIZE))) pgdir d 0 sz.

(** A word read by the kernel at the address [a] while the page directory [cur] is
    loaded, and the page that a store of the kernel at [a] goes to; the kernel
    panics in [trap] where the access faults. *)
Definition kload (cur a : Z) : M kmem Z :=
  s ← get;
  if has PTE_P (pte_at s cur a) then mret (ld32 (upage s cur a + a mod PGSIZE) s) else panic "trap".

Definition kpage (cur a : Z) : M kmem Z :=
  s ← get;
  if has PTE_P (pte_at s cur a) && has PTE_W (pte_at s cur a) then mret (upage s cur a) else panic "trap".

(** The code dereferences the pointer without a test.  Where [pgdir] has no page
    table for [uva] it reads the word at address 0, in the first page of the
    process that runs, and takes it for the entry: [cur] is the page directory
    of that process.  The address that it makes of such an entry can be any, and
    the model gives the page that the store of the caller reaches. *)
Definition uva2ka (cur pgdir uva : Z) : M kmem Z :=
  pte ← walkpgdir pgdir uva false;
  e ← (if pte =? 0 then kload cur 0 else gets (ld32 pte));
  if negb (has PTE_P e) then mret 0 else
  if negb (has PTE_U e) then mret 0 else
  let ka := P2V (PTE_ADDR e) in
  if (pte =? 0) && negb (ka =? 0) then kpage cur ka else mret ka.

Fixpoint copyout_loop (fuel : nat) (cur pgdir va : Z) (buf : list Z) : M kmem Z :=
  match buf with
  | [] => mret 0
  | _ =>
      match fuel with
      | O => nofuel
      | S f =>
          let va0 := PGROUNDDOWN va in
          pa0 ← uva2ka cur pgdir va0;
          if pa0 =? 0 then mret (-1) else
          let n := PGSIZE - (va - va0) in
          let n := if n >? Z.of_nat (length buf) then Z.of_nat (length buf) else n in
          modify (store_bytes (pa0 + (va - va0)) (take (Z.to_nat n) buf)) ;;
          copyout_loop f cur pgdir (u32 (va0 + PGSIZE)) (drop (Z.to_nat n) buf)
      end
  end.

Definition copyout (cur pgdir va : Z) (p : list Z) : M kmem Z :=
  copyout_loop (S (length p)) cur pgdir va p.

End Vm.

(** ** Address spaces *)

(** The page directory and the page tables are distinct pages in use. *)
Record pt_ok (kend : Z) (s : kmem) (pgdir : Z) (l : list Z) : Prop := {
  pt_free : free_list kend s l;
  pt_dir : valid_page kend pgdir /\ pgdir ∉ l;
  pt_tab : forall i, 0 <= i < 1024 -> has PTE_P (pde_at s pgdir i) = true ->
    valid_page kend (tab_at s pgdir i) /\ tab_at s pgdir i ∉ l /\ tab_at s pgdir i <> pgdir;
  pt_inj : forall i j, 0 <= i < 1024 -> 0 <= j < 1024 -> i <> j ->
    has PTE_P (pde_at s pgdir i) = true -> has PTE_P (pde_at s pgdir j) = true ->
    tab_at s pgdir i <> tab_at s pgdir j
}.

(** The page tables of a directory. *)
Definition table (s : kmem) (pgdir q : Z) : Prop :=
  exists i, 0 <= i < 1024 /\ has PTE_P (pde_at s pgdir i) = true /\ q = tab_at s pgdir i.

Lemma table_ext s s' pgdir q : (forall i, 0 <= i < 1024 -> pde_at s' pgdir i = pde_at s pgdir i) ->
  table s' pgdir q <-> table s pgdir q.
Proof.
  intros H. split; intros (i & Hi & Hp & ->); exists i; unfold tab_at in *;
    rewrite H in * by done; done.
Qed.

(** The free pages and the page tables are together the same as before. *)
Definition tabled (s s' : kmem) (pgdir : Z) (l l' : list Z) : Prop :=
  forall q, q ∈ l' \/ table s' pgdir q <-> q ∈ l \/ table s pgdir q.

(** A page that belongs neither to the free list nor to the page tables. *)
Definition outside (s : kmem) (pgdir : Z) (l : list Z) (q : Z) : Prop :=
  q ∉ l /\ q <> pgdir /\
  forall i, 0 <= i < 1024 -> has PTE_P (pde_at s pgdir i) = true -> q <> tab_at s pgdir i.

(** Such pages are not touched. *)
Definition frame (kend : Z) (s s' : kmem) (pgdir : Z) (l l' : list Z) : Prop :=
  forall q, valid_page kend q -> outside s pgdir l q ->
    outside s' pgdir l' q /\ page_at q s' = page_at q s.

Lemma frame_trans kend s1 s2 s3 pgdir l1 l2 l3 :
  frame kend s1 s2 pgdir l1 l2 -> frame kend s2 s3 pgdir l2 l3 -> frame kend s1 s3 pgdir l1 l3.
Proof.
  intros H1 H2 q Hv Ho. destruct (H1 q Hv Ho) as [Ho1 E1]. destruct (H2 q Hv Ho1) as [Ho2 E2].
  split; [done|congruence].
Qed.

(** ** Bits of addresses and entries *)

Lemma land_mask a : 0 <= a < 2 ^ 32 -> Z.land a PGMASK = a - a mod PGSIZE.
Proof. exact (land_align 12 a ltac:(lia)). Qed.

Lemma lor_aligned x f : x mod PGSIZE = 0 -> 0 <= f < PGSIZE -> Z.lor x f = x + f.
Proof.
  intros Hx Hf. rewrite <- Z.lxor_lor, <- Z.add_nocarry_lxor; [done|..];
  (apply Z.bits_inj'; intros n Hn; rewrite Z.land_spec, Z.bits_0;
   destruct (decide (n < 12));
   [ rewrite (Z.div_mod x PGSIZE), Hx, Z.add_0_r by done; rewrite Z.mul_comm;
     change PGSIZE with (2 ^ 12); by rewrite Z.mul_pow2_bits_low
   | rewrite <- (Z.mod_small f (2 ^ 12)) by (unfold PGSIZE in Hf; lia);
     rewrite Z.mod_pow2_bits_high by lia; apply andb_false_r ]).
Qed.

Lemma PDX_eq va : PDX va = va / 2 ^ 22 mod 1024.
Proof. unfold PDX. change 1023 with (Z.ones 10). by rewrite Z.land_ones, Z.shiftr_div_pow2. Qed.

Lemma PTX_eq va : PTX va = va / 2 ^ 12 mod 1024.
Proof. unfold PTX. change 1023 with (Z.ones 10). by rewrite Z.land_ones, Z.shiftr_div_pow2. Qed.

Lemma PDX_range va : 0 <= PDX va < 1024.
Proof. rewrite PDX_eq. apply Z.mod_pos_bound. done. Qed.

Lemma PTX_range va : 0 <= PTX va < 1024.
Proof. rewrite PTX_eq. apply Z.mod_pos_bound. done. Qed.

(** The two indices determine the page. *)
Lemma indices_inj va va' : 0 <= va < 2 ^ 32 -> 0 <= va' < 2 ^ 32 ->
  PDX va = PDX va' -> PTX va = PTX va' -> va / PGSIZE = va' / PGSIZE.
Proof.
  intros H H'. rewrite !PDX_eq, !PTX_eq. change (2 ^ 12) with PGSIZE.
  assert (forall v, v / 2 ^ 22 = v / PGSIZE / 1024) as E
    by (intros; rewrite Z.div_div by done; done).
  rewrite !E.
  assert (forall v, 0 <= v < 2 ^ 32 -> 0 <= v / PGSIZE / 1024 < 1024) as Hb.
  { intros v Hv. split; [repeat apply Z.div_pos; done || lia|].
    rewrite Z.div_div by done. apply Z.div_lt_upper_bound; [done|]. unfold PGSIZE. lia. }
  rewrite !Z.mod_small by auto. intros E1 E2.
  rewrite (Z.div_mod (va / PGSIZE) 1024), (Z.div_mod (va' / PGSIZE) 1024) by done. congruence.
Qed.

Lemma indices_page va va' : va / PGSIZE = va' / PGSIZE -> PDX va = PDX va' /\ PTX va = PTX va'.
Proof.
  intros E. rewrite !PDX_eq, !PTX_eq. change (2 ^ 12) with PGSIZE. split; [|by rewrite E].
  assert (forall v, v / 2 ^ 22 = v / PGSIZE / 1024) as E'
    by (intros; rewrite Z.div_div by done; done).
  by rewrite !E', E.
Qed.

Lemma has_lor_P x f : x mod PGSIZE = 0 -> 0 <= f < PGSIZE -> Z.odd f = true -> has PTE_P (Z.lor x f) = true.
Proof.
  intros Hx Hf Ho. unfold has. rewrite lor_aligned by done.
  change PTE_P with (Z.ones 1). rewrite Z.land_ones by done. change (2 ^ 1) with 2.
  rewrite Zmod_odd, Z.odd_add, Ho.
  rewrite (Z.div_mod x PGSIZE), Hx, Z.add_0_r, Z.odd_mul by done. done.
Qed.

Lemma PTE_ADDR_lor x f : 0 <= x < 2 ^ 32 -> x mod PGSIZE = 0 -> 0 <= f < PGSIZE ->
  PTE_ADDR (Z.lor x f) = x.
Proof.
  intros Hr Hx Hf. unfold PTE_ADDR. rewrite lor_aligned by done.
  assert (x + f < 2 ^ 32).
  { rewrite (Z.div_mod x PGSIZE), Hx in Hr by done. rewrite (Z.div_mod x PGSIZE), Hx by done.
    unfold PGSIZE in *. lia. }
  rewrite land_mask by lia. rewrite Zplus_mod, Hx, Z.add_0_l, Z.mod_mod by done.
  rewrite Z.mod_small by done. lia.
Qed.

Lemma P2V_V2P kend p : valid_page kend p ->
  P2V (V2P p) = p /\ 0 <= V2P p < 2 ^ 32 /\ V2P p mod PGSIZE = 0.
Proof.
  intros (H1 & H2 & _ & H4). unfold P2V, V2P, KERNBASE, PHYSTOP in *.
  rewrite (u32_id (p - 2147483648)) by lia. split_and!; try lia.
  - rewrite u32_id by lia. lia.
  - rewrite Zminus_mod, H1. done.
Qed.

(** ** Words of pages *)

Lemma word_addr p i : p mod PGSIZE = 0 -> 0 <= i < 1024 ->
  page_base (p + 4 * i) = p /\ page_off (p + 4 * i) = Z.to_nat (4 * i).
Proof.
  intros Hp Hi. unfold page_base, page_off.
  assert ((p + 4 * i) mod PGSIZE = 4 * i) as E.
  { rewrite Zplus_mod, Hp, Z.add_0_l, Z.mod_mod by done. apply Z.mod_small. unfold PGSIZE. lia. }
  rewrite E. split; lia.
Qed.

Section Words.
Context (kend : Z).

Lemma ld_st_same s p i v : valid_page kend p -> length (page_at p s) = Z.to_nat PGSIZE ->
  0 <= i < 1024 -> ld32 (p + 4 * i) (st32 (p + 4 * i) v s) = u32 v.
Proof.
  intros Hp Hl Hi. destruct (word_addr p i (proj1 Hp) Hi) as [Hb Ho].
  unfold ld32, st32. rewrite page_at_set, decide_True by done.
  apply get_put32. rewrite Ho. unfold page_at in *. rewrite Hb.
  rewrite (page_base_id p (proj1 Hp)) in Hl. rewrite Hl. unfold PGSIZE. lia.
Qed.

Lemma ld_st_other s p q i j v : valid_page kend p -> valid_page kend q ->
  length (page_at p s) = Z.to_nat PGSIZE -> 0 <= i < 1024 -> 0 <= j < 1024 ->
  (p, i) <> (q, j) -> ld32 (q + 4 * j) (st32 (p + 4 * i) v s) = ld32 (q + 4 * j) s.
Proof.
  intros Hp Hq Hl Hi Hj Hne. destruct (word_addr p i (proj1 Hp) Hi) as [Hb Ho].
  destruct (word_addr q j (proj1 Hq) Hj) as [Hb' Ho'].
  destruct (decide (p = q)) as [->|Hpq].
  - assert (i <> j) by congruence. unfold ld32, st32. rewrite page_at_set, decide_True by congruence.
    assert (page_at (q + 4 * j) s = page_at (q + 4 * i) s) as -> by (unfold page_at; by rewrite Hb, Hb').
    rewrite Ho, Ho'. apply get_put32_ne; [lia|]. unfold page_at in *. rewrite Hb.
    rewrite (page_base_id q (proj1 Hq)) in Hl. rewrite Hl. unfold PGSIZE. lia.
  - unfold st32. apply ld32_set_ne. by rewrite Hb, Hb'.
Qed.

Lemma page_at_st s p i v q : valid_page kend p -> 0 <= i < 1024 -> page_base q <> p ->
  page_at q (st32 (p + 4 * i) v s) = page_at q s.
Proof.
  intros Hp Hi Hq. destruct (word_addr p i (proj1 Hp) Hi) as [Hb _].
  unfold st32. rewrite page_at_set, decide_False; [done|]. by rewrite Hb.
Qed.

Lemma length_page_st s p i v q : valid_page kend p -> 0 <= i < 1024 ->
  length (page_at p s) = Z.to_nat PGSIZE ->
  length (page_at q (st32 (p + 4 * i) v s)) = length (page_at q s).
Proof.
  intros Hp Hi Hl. destruct (word_addr p i (proj1 Hp) Hi) as [Hb Ho].
  unfold st32. rewrite page_at_set. case_decide as E; [|done]. unfold page_at in *.
  rewrite E, Hb. rewrite (page_base_id p (proj1 Hp)) in Hl.
  rewrite length_put32; [done|]. rewrite Ho, Hl. unfold PGSIZE. lia.
Qed.

(** The free list survives a store to a page in use. *)
Lemma free_list_st s p i v l : valid_page kend p -> 0 <= i < 1024 -> p ∉ l ->
  free_list kend s l -> free_list kend (st32 (p + 4 * i) v s) l.
Proof.
  intros Hp Hi Hn (Hc & Hnd & Hf & Hl). split; [|split; [done|split; [done|]]].
  - eapply free_chain_ext; [|exact Hc]. intros q Hq. unfold st32. apply ld32_set_ne.
    destruct (word_addr p i (proj1 Hp) Hi) as [-> _]. rewrite Forall_forall in Hf.
    rewrite (page_base_id q (proj1 (Hf q Hq))). set_solver.
  - intros q Hq. rewrite length_page_st; auto.
Qed.

End Words.

(** ** Walking and setting entries *)

Section Walk.
Context (kend : Z).

Lemma walk_present s pgdir va alloc : has PTE_P (pde_at s pgdir (PDX va)) = true ->
  walkpgdir pgdir va alloc s = Ok (tab_at s pgdir (PDX va) + 4 * PTX va) s.
Proof. intros H. unfold walkpgdir. msimpl. unfold pde_at in H. by rewrite H. Qed.

Lemma walk_absent s pgdir va : has PTE_P (pde_at s pgdir (PDX va)) = false ->
  walkpgdir pgdir va false s = Ok 0 s.
Proof. intros H. unfold walkpgdir. msimpl. unfold pde_at in H. by rewrite H. Qed.

Lemma get32_zeros n off : (off + 4 <= n)%nat -> get32 off (replicate n 0) = 0.
Proof.
  intros H. unfold get32. rewrite drop_replicate, take_replicate.
  rewrite Nat.min_l by lia. reflexivity.
Qed.

Lemma ld32_zero_page s t i : t mod PGSIZE = 0 -> 0 <= i < 1024 ->
  ld32 (t + 4 * i) (memset_page t 0 s) = 0.
Proof.
  intros Ht Hi. destruct (word_addr t i Ht Hi) as [Hb Ho]. unfold ld32, memset_page.
  rewrite page_at_set, decide_True by (rewrite Hb; symmetry; by apply page_base_id).
  rewrite Ho. apply get32_zeros. unfold PGSIZE. lia.
Qed.

Lemma free_list_memset s t c l : valid_page kend t -> t ∉ l -> free_list kend s l ->
  free_list kend (memset_page t c s) l.
Proof.
  intros Ht Hn (Hc & Hnd & Hf & Hl). split; [|split; [done|split; [done|]]].
  - eapply free_chain_ext; [|exact Hc]. intros q Hq. apply ld32_set_ne. rewrite Forall_forall in Hf.
    rewrite !page_base_id by (apply Ht || apply (Hf q Hq)). set_solver.
  - intros q Hq. unfold memset_page. rewrite page_at_set. case_decide; [|auto].
    by rewrite length_replicate.
Qed.

(** The state after [walkpgdir] has put the page table [t] in place. *)
Definition with_table (s0 : kmem) (pgdir va t : Z) : kmem :=
  st32 (pgdir + 4 * PDX va) (Z.lor (Z.lor (Z.lor (V2P t) PTE_P) PTE_W) PTE_U) (memset_page t 0 s0).

Lemma new_pde t : valid_page kend t ->
  let e := u32 (Z.lor (Z.lor (Z.lor (V2P t) PTE_P) PTE_W) PTE_U) in
  has PTE_P e = true /\ P2V (PTE_ADDR e) = t.
Proof.
  intros Ht. destruct (P2V_V2P kend t Ht) as (E & Hr & Hm). cbv zeta.
  rewrite <- !Z.lor_assoc. change (Z.lor PTE_P (Z.lor PTE_W PTE_U)) with 7.
  assert (V2P t + 7 < 2 ^ 32).
  { rewrite (Z.div_mod (V2P t) PGSIZE), Hm in Hr by done.
    rewrite (Z.div_mod (V2P t) PGSIZE), Hm by done. unfold PGSIZE in *. lia. }
  rewrite u32_id by (rewrite lor_aligned by (done || (unfold PGSIZE; lia)); lia).
  split; [apply has_lor_P; (done || (unfold PGSIZE; lia))|].
  rewrite PTE_ADDR_lor by (done || (unfold PGSIZE; lia)). done.
Qed.

Section WithTable.
Context (s s0 : kmem) (pgdir va t : Z) (l : list Z).
Context (Hok : pt_ok kend s pgdir (t :: l)) (Hp : pages s0 = pages s) (Hfl : free_list kend s0 l).
Context (Habs : has PTE_P (pde_at s pgdir (PDX va)) = false).

Lemma table_facts : valid_page kend t /\ t ∉ l /\ t <> pgdir /\ valid_page kend pgdir /\ pgdir ∉ l.
Proof using Hok.
  destruct Hok as [(_ & Hnd & Hf & _) [Hd Hdn] _ _].
  apply Forall_cons in Hf as [Ht _]. apply NoDup_cons in Hnd as [Hn _].
  apply not_elem_of_cons in Hdn as [? ?]. split_and!; done || congruence.
Qed.

Lemma page_len q : valid_page kend q -> length (page_at q (memset_page t 0 s0)) = Z.to_nat PGSIZE.
Proof using Hok Hfl.
  intros Hq. destruct table_facts as (Ht & Hn & _).
  destruct (free_list_memset s0 t 0 l Ht Hn Hfl) as (_ & _ & _ & H). by apply H.
Qed.

Lemma wt_other q j : valid_page kend q -> q <> t -> 0 <= j < 1024 -> (pgdir, PDX va) <> (q, j) ->
  ld32 (q + 4 * j) (with_table s0 pgdir va t) = ld32 (q + 4 * j) s.
Proof using Hok Hfl Hp.
  intros Hq Hqt Hj Hne. destruct table_facts as (Ht & _ & _ & Hd & _). unfold with_table.
  rewrite (ld_st_other kend) by (done || apply PDX_range || by apply page_len).
  unfold memset_page. rewrite ld32_set_ne.
  - unfold ld32, page_at. by rewrite Hp.
  - destruct (word_addr q j (proj1 Hq) Hj) as [-> _]. by rewrite page_base_id by apply Ht.
Qed.

Lemma wt_pde i : 0 <= i < 1024 ->
  pde_at (with_table s0 pgdir va t) pgdir i =
    if decide (i = PDX va) then u32 (Z.lor (Z.lor (Z.lor (V2P t) PTE_P) PTE_W) PTE_U)
    else pde_at s pgdir i.
Proof using Hok Hfl Hp.
  intros Hi. destruct table_facts as (Ht & _ & Hne & Hd & _). unfold pde_at. case_decide as E.
  - subst i. unfold with_table. apply (ld_st_same kend); [done|by apply page_len|apply PDX_range].
  - apply wt_other; [done|congruence|done|congruence].
Qed.

Lemma wt_tab i : 0 <= i < 1024 ->
  tab_at (with_table s0 pgdir va t) pgdir i = if decide (i = PDX va) then t else tab_at s pgdir i.
Proof using Hok Hfl Hp.
  intros Hi. unfold tab_at. rewrite wt_pde by done. case_decide; [|done].
  destruct table_facts as (Ht & _). by destruct (new_pde t Ht).
Qed.

Lemma wt_present i : 0 <= i < 1024 ->
  has PTE_P (pde_at (with_table s0 pgdir va t) pgdir i) =
    if decide (i = PDX va) then true else has PTE_P (pde_at s pgdir i).
Proof using Hok Hfl Hp.
  intros Hi. rewrite wt_pde by done. case_decide; [|done].
  destruct table_facts as (Ht & _). by destruct (new_pde t Ht).
Qed.

Lemma wt_ok : pt_ok kend (with_table s0 pgdir va t) pgdir l.
Proof using Hok Hfl Hp.
  destruct table_facts as (Ht & Hn & Hne & Hd & Hdn). pose proof (PDX_range va).
  assert (forall i, 0 <= i < 1024 -> has PTE_P (pde_at s pgdir i) = true ->
    valid_page kend (tab_at s pgdir i) /\ tab_at s pgdir i <> t /\ tab_at s pgdir i ∉ l /\
    tab_at s pgdir i <> pgdir) as Htab.
  { intros i Hi Hpr. destruct (pt_tab _ _ _ _ Hok i Hi Hpr) as (? & Hnl & ?).
    apply not_elem_of_cons in Hnl as [? ?]. done. }
  split.
  - apply free_list_st; [done|done|done|by apply free_list_memset].
  - done.
  - intros i Hi. rewrite wt_present, wt_tab by done. case_decide; [done|].
    intros Hpr. destruct (Htab i Hi Hpr) as (? & ? & ? & ?). done.
  - intros i j Hi Hj Hij. rewrite !wt_present, !wt_tab by done.
    repeat case_decide; try congruence.
    + intros _ Hpr. destruct (Htab j Hj Hpr) as (? & ? & ?). congruence.
    + intros Hpr _. destruct (Htab i Hi Hpr) as (? & ? & ?). congruence.
    + by apply (pt_inj _ _ _ _ Hok).
Qed.

(** The new table maps nothing. *)
Lemma wt_pte va' : pte_at (with_table s0 pgdir va t) pgdir va' = pte_at s pgdir va'.
Proof using Hok Hfl Hp Habs.
  destruct table_facts as (Ht & Hn & Hne & Hd & Hdn). unfold pte_at.
  rewrite wt_present, wt_tab by apply PDX_range. case_decide as E.
  - rewrite E, Habs. unfold with_table.
    rewrite (ld_st_other kend (memset_page t 0 s0) pgdir t (PDX va) (PTX va'));
      [|exact Hd|exact Ht|exact (page_len pgdir Hd)|apply PDX_range|apply PTX_range|congruence].
    apply ld32_zero_page; [apply Ht|apply PTX_range].
  - destruct (has PTE_P (pde_at s pgdir (PDX va'))) eqn:Hpr; [|done].
    destruct (pt_tab _ _ _ _ Hok (PDX va') (PDX_range va') Hpr) as (Hv & Hnl & Hnd).
    apply not_elem_of_cons in Hnl as [? ?].
    apply wt_other; [done|done|apply PTX_range|congruence].
Qed.

Lemma wt_frame : frame kend s (with_table s0 pgdir va t) pgdir (t :: l) l.
Proof using Hok Hfl Hp.
  destruct table_facts as (Ht & Hn & Hne & Hd & Hdn). intros q Hq (Hnl & Hnd & Hnt).
  apply not_elem_of_cons in Hnl as [Hqt Hnl].
  pose proof (page_base_id q (proj1 Hq)) as Eq. split.
  - split_and!; [done|done|]. intros i Hi. rewrite wt_present, wt_tab by done.
    case_decide; [done|]. by apply Hnt.
  - unfold with_table. rewrite (page_at_st kend) by (done || apply PDX_range || congruence).
    unfold memset_page. rewrite page_at_set, (page_base_id t (proj1 Ht)), decide_False by congruence.
    unfold page_at. by rewrite Hp.
Qed.

Lemma wt_tabled : tabled s (with_table s0 pgdir va t) pgdir (t :: l) l.
Proof using Hok Hfl Hp Habs.
  assert (table (with_table s0 pgdir va t) pgdir t) as Ht.
  { pose proof (PDX_range va). exists (PDX va). rewrite wt_present, wt_tab by done. by rewrite !decide_True. }
  intros q. rewrite elem_of_cons. split.
  - intros [Hq|(i & Hi & Hpr & ->)]; [tauto|]. rewrite wt_present in Hpr by done. rewrite wt_tab by done.
    case_decide; [tauto|]. right. by exists i.
  - intros [[->|Hq]|(i & Hi & Hpr & ->)]; [tauto|tauto|]. right. exists i.
    rewrite wt_present, wt_tab by done. case_decide as E; [|done]. subst i. by rewrite Habs in Hpr.
Qed.

End WithTable.

(** [walkpgdir] with allocation: out of memory, or an entry for [va] in a
    table that is there or has just been added; no translation changes. *)
Lemma walk_alloc s pgdir va l : pt_ok kend s pgdir l ->
  (l = [] /\ walkpgdir pgdir va true s = Ok 0 s) \/
  exists s' l', walkpgdir pgdir va true s = Ok (tab_at s' pgdir (PDX va) + 4 * PTX va) s' /\
    pt_ok kend s' pgdir l' /\ has PTE_P (pde_at s' pgdir (PDX va)) = true /\
    (forall va', pte_at s' pgdir va' = pte_at s pgdir va') /\ l' ⊆ l /\ frame kend s s' pgdir l l' /\
    tabled s s' pgdir l l'.
Proof.
  intros Hok. destruct (has PTE_P (pde_at s pgdir (PDX va))) eqn:Hpr.
  { right. exists s, l. rewrite walk_present by done. split_and!; done. }
  pose proof (kalloc_spec kend s l (pt_free _ _ _ _ Hok)) as Hk.
  unfold walkpgdir. rewrite (bind_ok _ _ _ (pde_at s pgdir (PDX va)) s) by done. rewrite Hpr. cbn [negb].
  destruct l as [|t l].
  - left. split; [done|]. by rewrite (bind_ok _ _ _ _ _ Hk).
  - right. destruct Hk as (s0 & E & Hfl & Hpg). rewrite (bind_ok _ _ _ _ _ E).
    destruct (table_facts s pgdir t l Hok) as (Ht & _).
    pose proof (valid_page_pos kend t Ht). destruct (Z.eqb_spec t 0); [lia|].
    exists (with_table s0 pgdir va t), l. split_and!.
    + msimpl. rewrite (wt_tab s) with (l := l); [|done|done|done|apply PDX_range].
      by rewrite decide_True.
    + by apply wt_ok with (s := s).
    + rewrite (wt_present s) with (l := l); [|done|done|done|apply PDX_range]. by rewrite decide_True.
    + intros va'. by apply wt_pte with (l := l).
    + set_solver.
    + by apply wt_frame.
    + by apply wt_tabled.
Qed.

End Walk.

(** ** Mapping ranges *)

Section Map.
Context (kend : Z).

Lemma set_pte s pgdir va v l : pt_ok kend s pgdir l ->
  has PTE_P (pde_at s pgdir (PDX va)) = true -> 0 <= va < 2 ^ 32 ->
  let s' := st32 (tab_at s pgdir (PDX va) + 4 * PTX va) v s in
  pt_ok kend s' pgdir l /\
  (forall i, 0 <= i < 1024 -> pde_at s' pgdir i = pde_at s pgdir i) /\
  (forall va', 0 <= va' < 2 ^ 32 -> pte_at s' pgdir va' =
    if decide (va' / PGSIZE = va / PGSIZE) then u32 v else pte_at s pgdir va') /\
  frame kend s s' pgdir l l.
Proof.
  intros Hok Hpr Hva s'. pose proof (PDX_range va) as Hx. pose proof (PTX_range va) as Hy.
  destruct (pt_tab _ _ _ _ Hok _ Hx Hpr) as (Hv & Hnl & Hnd).
  destruct (pt_dir _ _ _ _ Hok) as [Hd Hdn].
  pose proof (pt_free _ _ _ _ Hok) as (_ & _ & _ & Hlen).
  assert (forall i, 0 <= i < 1024 -> pde_at s' pgdir i = pde_at s pgdir i) as Hpde.
  { intros i Hi. unfold pde_at, s'. apply (ld_st_other kend); auto. congruence. }
  assert (forall i, 0 <= i < 1024 -> tab_at s' pgdir i = tab_at s pgdir i) as Htab.
  { intros i Hi. unfold tab_at. by rewrite Hpde. }
  split_and!; [|done| |].
  - split; [by apply free_list_st, (pt_free _ _ _ _ Hok)|done| |].
    + intros i Hi. rewrite Hpde, Htab by done. by apply (pt_tab _ _ _ _ Hok).
    + intros i j Hi Hj Hij. rewrite !Hpde, !Htab by done. by apply (pt_inj _ _ _ _ Hok).
  - intros va' Hva'. pose proof (PDX_range va') as Hx'. pose proof (PTX_range va') as Hy'.
    unfold pte_at. rewrite Hpde, Htab by done. case_decide as E.
    + destruct (indices_page va' va E) as [-> ->]. rewrite Hpr. unfold s'.
      apply (ld_st_same kend); auto.
    + destruct (has PTE_P (pde_at s pgdir (PDX va'))) eqn:Hpr'; [|done].
      destruct (pt_tab _ _ _ _ Hok _ Hx' Hpr') as (Hv' & _).
      unfold s'. apply (ld_st_other kend); auto. intros [= Et Ep].
      apply E. apply indices_inj; [done|done| |congruence].
      destruct (decide (PDX va' = PDX va)); [done|].
      exfalso. by apply (pt_inj _ _ _ _ Hok (PDX va') (PDX va)).
  - intros q Hq (Hql & Hqd & Hqt). split.
    + split_and!; [done|done|]. intros i Hi. rewrite Hpde, Htab by done. by apply Hqt.
    + unfold s'. apply (page_at_st kend); [done|done|]. rewrite (page_base_id q (proj1 Hq)). by apply Hqt.
Qed.

(** The entry that [mappages] writes for the page [i] of its range. *)
Definition new_pte (pa perm i : Z) : Z :=
  u32 (Z.lor (Z.lor (u32 (pa + PGSIZE * i)) perm) PTE_P).

(** The first [j] pages of the range at [a] are mapped, the rest is as in [s]. *)
Definition mapped (s s' : kmem) (pgdir a pa perm : Z) (j : nat) : Prop :=
  forall va, 0 <= va < 2 ^ 32 -> pte_at s' pgdir va =
    if decide (a / PGSIZE <= va / PGSIZE < a / PGSIZE + Z.of_nat j)
    then new_pte pa perm (va / PGSIZE - a / PGSIZE)
    else pte_at s pgdir va.

Lemma page_index a i : a mod PGSIZE = 0 -> (a + PGSIZE * i) / PGSIZE = a / PGSIZE + i.
Proof. intros _. rewrite Z.mul_comm, Z.div_add by done. done. Qed.

Lemma mappages_loop_spec k pgdir a pa perm s l :
  pt_ok kend s pgdir l -> a mod PGSIZE = 0 -> 0 <= a -> a + PGSIZE * Z.of_nat (S k) <= 2 ^ 32 ->
  0 <= pa < 2 ^ 32 ->
  (forall i, (i <= k)%nat -> has PTE_P (pte_at s pgdir (a + PGSIZE * Z.of_nat i)) = false) ->
  exists j s' l', (j <= S k)%nat /\
    mappages_loop (S k) pgdir a (a + PGSIZE * Z.of_nat k) pa perm s =
      Ok (if decide (j = S k) then 0 else -1) s' /\
    pt_ok kend s' pgdir l' /\ l' ⊆ l /\ (j <> S k -> l' = []) /\ mapped s s' pgdir a pa perm j /\
    frame kend s s' pgdir l l' /\ tabled s s' pgdir l l'.
Proof.
  revert a pa s l. induction k as [|k IH]; intros a pa s l Hok Ha Ha0 Hb Hpa Hfree.
  all: assert (0 <= a < 2 ^ 32) as Hva by (unfold PGSIZE in *; lia).
  all: destruct (walk_alloc kend s pgdir a l Hok) as [[-> E]|(s1 & l1 & E & Hok1 & Hpr & Hsame & Hl1 & Hfr1 & Ht1)];
    cbn [mappages_loop]; rewrite (bind_ok _ _ _ _ _ E).
  1, 3: exists O, s, []; split_and!; try done; [lia|]; intros va Hv; by rewrite decide_False by lia.
  all: destruct (set_pte s1 pgdir a (Z.lor (Z.lor pa perm) PTE_P) l1 Hok1 Hpr Hva) as (Hok2 & Hpde & Hpte & Hfr2).
  all: set (s2 := st32 _ _ _) in *.
  all: assert (tabled s s2 pgdir l l1) as Ht2 by (intros q; rewrite (table_ext s1 s2) by done; apply Ht1).
  all: destruct (pt_tab _ _ _ _ Hok1 _ (PDX_range a) Hpr) as (Hvt & _).
  all: pose proof (valid_page_pos kend _ Hvt); pose proof (PTX_range a).
  all: destruct (Z.eqb_spec (tab_at s1 pgdir (PDX a) + 4 * PTX a) 0); [lia|].
  all: assert (ld32 (tab_at s1 pgdir (PDX a) + 4 * PTX a) s1 = pte_at s pgdir a) as Ee
    by (rewrite <- Hsame; unfold pte_at; by rewrite Hpr).
  all: pose proof (Hfree O ltac:(lia)) as Hf0; rewrite Z.mul_0_r, Z.add_0_r in Hf0.
  all: rewrite (bind_ok _ _ _ (pte_at s pgdir a) s1) by (unfold gets; by rewrite Ee).
  all: rewrite Hf0, (bind_ok _ _ _ tt s2) by done.
  - rewrite Z.mul_0_r, Z.add_0_r, Z.eqb_refl. exists 1%nat, s2, l1.
    split_and!; try done; [|by eapply frame_trans]. intros va Hv. rewrite Hpte by done. rewrite Hsame.
    repeat case_decide; try lia; try done. unfold new_pte.
    replace (va / PGSIZE - a / PGSIZE) with 0 by lia. by rewrite Z.mul_0_r, Z.add_0_r, (u32_id pa) by done.
  - destruct (Z.eqb_spec a (a + PGSIZE * Z.of_nat (S k))) as [Ea|_]; [unfold PGSIZE in Ea; lia|].
    assert (u32 (a + PGSIZE) = a + PGSIZE) as -> by (apply u32_id; unfold PGSIZE in *; lia).
    replace (a + PGSIZE * Z.of_nat (S k)) with (a + PGSIZE + PGSIZE * Z.of_nat k) by lia.
    assert (a / PGSIZE + 1 = (a + PGSIZE) / PGSIZE) as Eidx
      by (rewrite <- (page_index a 1) by done; f_equal; lia).
    assert (forall i, (i <= k)%nat -> (a + PGSIZE + PGSIZE * Z.of_nat i) / PGSIZE <> a / PGSIZE) as Hidx.
    { intros i Hi. replace (a + PGSIZE + PGSIZE * Z.of_nat i) with (a + PGSIZE * (Z.of_nat i + 1)) by lia.
      rewrite page_index by done. lia. }
    destruct (IH (a + PGSIZE) (u32 (pa + PGSIZE)) s2 l1) as (j & s' & l' & Hj & E' & Hok' & Hl' & Hend & Hmap & Hfr3 & Ht3).
    + done.
    + rewrite Zplus_mod, Ha, Z_mod_same_full. done.
    + unfold PGSIZE. lia.
    + lia.
    + apply u32_range.
    + intros i Hi. rewrite Hpte by (unfold PGSIZE in *; lia). rewrite decide_False by auto.
      rewrite Hsame. replace (a + PGSIZE + PGSIZE * Z.of_nat i) with (a + PGSIZE * Z.of_nat (S i)) by lia.
      apply Hfree. lia.
    + exists (S j), s', l'. split_and!; [lia| |done|set_solver|intros; apply Hend; lia| |by repeat (eapply frame_trans; [done|])
        |intros q; rewrite (Ht3 q); apply Ht2].
      * etransitivity; [exact E'|]. f_equal. repeat case_decide; lia.
      * intros va Hv. rewrite Hmap, Hpte, Hsame by done. rewrite <- Eidx.
        assert (new_pte (u32 (pa + PGSIZE)) perm (va / PGSIZE - (a / PGSIZE + 1)) =
          new_pte pa perm (va / PGSIZE - a / PGSIZE)) as ->
          by (unfold new_pte; rewrite u32_add_l; do 4 f_equal; lia).
        repeat case_decide; try lia; try done;
          (unfold new_pte; replace (va / PGSIZE - a / PGSIZE) with 0 by lia;
           by rewrite Z.mul_0_r, Z.add_0_r, (u32_id pa) by done).
Qed.

Lemma aligned_down va : 0 <= va < 2 ^ 32 ->
  PGROUNDDOWN va mod PGSIZE = 0 /\ PGROUNDDOWN va / PGSIZE = va / PGSIZE /\
  0 <= PGROUNDDOWN va <= va /\ PGROUNDDOWN va = PGSIZE * (va / PGSIZE).
Proof.
  intros H. unfold PGROUNDDOWN. rewrite land_mask by done.
  pose proof (Z.div_mod va PGSIZE ltac:(done)). pose proof (Z.mod_pos_bound va PGSIZE ltac:(done)).
  assert (va - va mod PGSIZE = PGSIZE * (va / PGSIZE)) as E by lia.
  split_and!; try lia.
  - rewrite E, Z.mul_comm. apply Z.mod_mul. done.
  - rewrite E, Z.mul_comm. apply Z.div_mul. done.
  - rewrite E. pose proof (Z.div_pos va PGSIZE). unfold PGSIZE in *. lia.
Qed.

Lemma mappages_spec pgdir va size pa perm s l :
  pt_ok kend s pgdir l -> 0 <= va -> 0 < size -> va + size <= 2 ^ 32 -> 0 <= pa < 2 ^ 32 ->
  let k := Z.to_nat ((va + size - 1) / PGSIZE - va / PGSIZE + 1) in
  (forall va', va / PGSIZE <= va' / PGSIZE <= (va + size - 1) / PGSIZE ->
     0 <= va' < 2 ^ 32 -> has PTE_P (pte_at s pgdir va') = false) ->
  exists j s' l', (j <= k)%nat /\
    mappages pgdir va size pa perm s = Ok (if decide (j = k) then 0 else -1) s' /\
    pt_ok kend s' pgdir l' /\ l' ⊆ l /\ (j <> k -> l' = []) /\ mapped s s' pgdir va pa perm j /\
    frame kend s s' pgdir l l' /\ tabled s s' pgdir l l'.
Proof.
  intros Hok Hva Hs Hb Hpa k Hfree. unfold mappages. rewrite (u32_id (va + size - 1)) by lia.
  destruct (aligned_down va ltac:(lia)) as (Hm & Hd & Hr & Ha).
  destruct (aligned_down (va + size - 1) ltac:(lia)) as (Hm' & Hd' & Hr' & Ha').
  assert (va / PGSIZE <= (va + size - 1) / PGSIZE) as Hle by (apply Z.div_le_mono; [done|lia]).
  assert (0 <= PGROUNDDOWN (va + size - 1) - PGROUNDDOWN va < 2 ^ 32) as Hdiff
    by (unfold PGSIZE in *; lia).
  rewrite (u32_id _ Hdiff).
  assert ((PGROUNDDOWN (va + size - 1) - PGROUNDDOWN va) / PGSIZE =
    (va + size - 1) / PGSIZE - va / PGSIZE) as ->.
  { rewrite Ha, Ha', <- Z.mul_sub_distr_l, Z.mul_comm. by apply Z.div_mul. }
  set (k' := Z.to_nat ((va + size - 1) / PGSIZE - va / PGSIZE)) in *.
  assert (k = S k') as -> by (unfold k, k'; lia).
  assert (PGROUNDDOWN (va + size - 1) = PGROUNDDOWN va + PGSIZE * Z.of_nat k') as ->
    by (rewrite Ha, Ha'; unfold k'; rewrite Z2Nat.id by lia; lia).
  destruct (mappages_loop_spec k' pgdir (PGROUNDDOWN va) pa perm s l) as (j & s' & l' & H1 & H2 & H3 & H4 & H5 & H6 & H7 & H8);
    [done|done|lia| |done| |].
  - rewrite Ha. unfold k'. rewrite Nat2Z.inj_succ, Z2Nat.id by lia.
    assert ((va + size - 1) / PGSIZE < 2 ^ 20) by (apply Z.div_lt_upper_bound; [done|]; unfold PGSIZE; lia).
    unfold PGSIZE in *. lia.
  - intros i Hi. apply Hfree.
    + rewrite page_index, Hd by done. unfold k' in Hi. lia.
    + rewrite Ha in *. unfold k' in Hi. unfold PGSIZE in *. lia.
  - exists j, s', l'. split_and!; try done. intros v Hv. rewrite (H6 v Hv), Hd. done.
Qed.

End Map.

(** ** User memory *)

(** An address space: page tables, and distinct pages in use behind the
    present user entries. *)
Record as_ok (kend : Z) (s : kmem) (pgdir : Z) (l : list Z) : Prop := {
  as_pt : pt_ok kend s pgdir l;
  as_user : forall va, 0 <= va < KERNBASE -> has PTE_P (pte_at s pgdir va) = true ->
    valid_page kend (upage s pgdir va) /\ upage s pgdir va ∉ l /\ upage s pgdir va <> pgdir /\
    (forall i, 0 <= i < 1024 -> has PTE_P (pde_at s pgdir i) = true ->
       upage s pgdir va <> tab_at s pgdir i);
  as_inj : forall va va', 0 <= va < KERNBASE -> 0 <= va' < KERNBASE ->
    has PTE_P (pte_at s pgdir va) = true -> has PTE_P (pte_at s pgdir va') = true ->
    va / PGSIZE <> va' / PGSIZE -> upage s pgdir va <> upage s pgdir va'
}.

(** The pages of an address space: its directory, its tables and its user pages. *)
Definition user (s : kmem) (pgdir q : Z) : Prop :=
  exists va, 0 <= va < KERNBASE /\ has PTE_P (pte_at s pgdir va) = true /\ q = upage s pgdir va.

Definition held (s : kmem) (pgdir q : Z) : Prop := q = pgdir \/ table s pgdir q \/ user s pgdir q.

(** No page is lost and none appears: the free pages and those of the address
    space are together the same as before. *)
Definition account (s s' : kmem) (pgdir : Z) (l l' : list Z) : Prop :=
  forall q, q ∈ l' \/ held s' pgdir q <-> q ∈ l \/ held s pgdir q.

Lemma account_refl s pgdir l : account s s pgdir l l.
Proof. done. Qed.

Lemma account_trans s1 s2 s3 pgdir l1 l2 l3 :
  account s1 s2 pgdir l1 l2 -> account s2 s3 pgdir l2 l3 -> account s1 s3 pgdir l1 l3.
Proof. intros H1 H2 q. rewrite (H2 q). apply H1. Qed.

Lemma user_ext s s' pgdir q : (forall va, 0 <= va < KERNBASE -> pte_at s' pgdir va = pte_at s pgdir va) ->
  user s' pgdir q <-> user s pgdir q.
Proof.
  intros H. split; intros (va & Hva & Hp & ->); exists va; unfold upage in *; rewrite H in * by done; done.
Qed.

Lemma held_ext s s' pgdir q : (forall i, 0 <= i < 1024 -> pde_at s' pgdir i = pde_at s pgdir i) ->
  (forall va, 0 <= va < KERNBASE -> pte_at s' pgdir va = pte_at s pgdir va) -> held s' pgdir q <-> held s pgdir q.
Proof. intros H1 H2. unfold held. by rewrite (table_ext s s'), (user_ext s s'). Qed.

(** Pages that back no user address are not touched either. *)
Definition uframe (kend : Z) (s s' : kmem) (pgdir : Z) (l l' : list Z) : Prop :=
  forall q, valid_page kend q -> outside s pgdir l q ->
    (forall va, 0 <= va < KERNBASE -> has PTE_P (pte_at s pgdir va) = true -> upage s pgdir va <> q) ->
    outside s' pgdir l' q /\ page_at q s' = page_at q s.

Section User.
Context (kend : Z) (Hkend : KERNBASE < kend).

Lemma user_range va : 0 <= va < KERNBASE -> 0 <= va < 2 ^ 32.
Proof. unfold KERNBASE. lia. Qed.

(** Changing a page that is neither the directory nor a table. *)
Lemma tables_frame s s1 pgdir l q :
  pt_ok kend s pgdir l -> valid_page kend q ->
  (forall p, page_base p <> q -> page_at p s1 = page_at p s) -> q <> pgdir ->
  (forall i, 0 <= i < 1024 -> has PTE_P (pde_at s pgdir i) = true -> q <> tab_at s pgdir i) ->
  (forall i, 0 <= i < 1024 -> pde_at s1 pgdir i = pde_at s pgdir i) /\
  (forall va, pte_at s1 pgdir va = pte_at s pgdir va).
Proof.
  intros Hok Hq Hfr Hd Ht. destruct (pt_dir _ _ _ _ Hok) as [Hvd _].
  assert (forall i, 0 <= i < 1024 -> pde_at s1 pgdir i = pde_at s pgdir i) as Hpde.
  { intros i Hi. unfold pde_at, ld32. rewrite Hfr; [done|].
    destruct (word_addr pgdir i (proj1 Hvd) Hi) as [-> _]. congruence. }
  split; [done|]. intros va. unfold pte_at, tab_at. rewrite Hpde by apply PDX_range.
  destruct (has PTE_P (pde_at s pgdir (PDX va))) eqn:Hpr; [|done].
  destruct (pt_tab _ _ _ _ Hok _ (PDX_range va) Hpr) as (Hvt & _).
  unfold ld32. rewrite Hfr; [done|].
  destruct (word_addr _ (PTX va) (proj1 Hvt) (PTX_range va)) as [E _]. unfold tab_at in E. rewrite E.
  intros E'. by apply (Ht (PDX va) (PDX_range va) Hpr).
Qed.

Lemma pt_ok_frame s s1 pgdir l l1 :
  pt_ok kend s pgdir l -> free_list kend s1 l1 ->
  (forall i, 0 <= i < 1024 -> pde_at s1 pgdir i = pde_at s pgdir i) ->
  pgdir ∉ l1 -> (forall i, 0 <= i < 1024 -> has PTE_P (pde_at s pgdir i) = true -> tab_at s pgdir i ∉ l1) ->
  pt_ok kend s1 pgdir l1.
Proof.
  intros Hok Hfl Hpde Hd Ht.
  assert (forall i, 0 <= i < 1024 -> tab_at s1 pgdir i = tab_at s pgdir i) as Htab
    by (intros i Hi; unfold tab_at; by rewrite Hpde).
  split; [done|split; [apply (pt_dir _ _ _ _ Hok)|done]| |].
  - intros i Hi. rewrite Hpde, Htab by done. intros Hpr.
    destruct (pt_tab _ _ _ _ Hok i Hi Hpr) as (? & _ & ?). split_and!; auto.
  - intros i j Hi Hj Hij. rewrite !Hpde, !Htab by done. by apply (pt_inj _ _ _ _ Hok).
Qed.

(** Freeing the page behind [va] and clearing its entry. *)
Lemma free_user s pgdir l va : as_ok kend s pgdir l -> 0 <= va < KERNBASE ->
  has PTE_P (pte_at s pgdir va) = true ->
  exists s1, kfree kend (upage s pgdir va) s = Ok tt s1 /\
    let s2 := st32 (tab_at s pgdir (PDX va) + 4 * PTX va) 0 s1 in
    as_ok kend s2 pgdir (upage s pgdir va :: l) /\
    (forall va', 0 <= va' < 2 ^ 32 -> pte_at s2 pgdir va' =
      if decide (va' / PGSIZE = va / PGSIZE) then 0 else pte_at s pgdir va') /\
    (forall x, valid_page kend x -> outside s pgdir l x -> x <> upage s pgdir va ->
       outside s2 pgdir (upage s pgdir va :: l) x /\ page_at x s2 = page_at x s) /\
    account s s2 pgdir l (upage s pgdir va :: l).
Proof.
  intros [Hpt Hu Hinj] Hva Hpr. destruct (Hu va Hva Hpr) as (Hq & Hnl & Hnd & Hnt).
  set (q := upage s pgdir va) in *.
  destruct (kfree_spec kend q s l Hq (pt_free _ _ _ _ Hpt) Hnl) as (s1 & E & Hf1 & Hfr).
  exists s1. split; [done|].
  destruct (tables_frame s s1 pgdir l q Hpt Hq Hfr Hnd Hnt) as [Hpde Hpte].
  assert (has PTE_P (pde_at s pgdir (PDX va)) = true) as Hd.
  { unfold pte_at in Hpr. by destruct (has PTE_P (pde_at s pgdir (PDX va))). }
  assert (pt_ok kend s1 pgdir (q :: l)) as Hpt1.
  { eapply pt_ok_frame; [done|done|done| |].
    - apply not_elem_of_cons. split; [congruence|]. apply (pt_dir _ _ _ _ Hpt).
    - intros i Hi Hpi. apply not_elem_of_cons. split; [intros Eq; by apply (Hnt i Hi Hpi)|].
      by destruct (pt_tab _ _ _ _ Hpt i Hi Hpi) as (_ & ? & _). }
  assert (tab_at s1 pgdir (PDX va) = tab_at s pgdir (PDX va)) as Et
    by (unfold tab_at; rewrite Hpde by apply PDX_range; done).
  destruct (set_pte kend s1 pgdir va 0 (q :: l) Hpt1) as (Hpt2 & Hpde2 & Hpte2 & Hfr2);
    [rewrite Hpde by apply PDX_range; done|by apply user_range|].
  rewrite Et in *. intros s2. fold s2 in Hpt2, Hpde2, Hpte2, Hfr2.
  assert (forall va', 0 <= va' < 2 ^ 32 -> pte_at s2 pgdir va' =
      if decide (va' / PGSIZE = va / PGSIZE) then 0 else pte_at s pgdir va') as Hfin.
  { intros va' Hva'. rewrite Hpte2, Hpte by done. done. }
  assert (forall va', 0 <= va' < KERNBASE -> has PTE_P (pte_at s2 pgdir va') = true ->
    va' / PGSIZE <> va / PGSIZE /\ has PTE_P (pte_at s pgdir va') = true /\
    upage s2 pgdir va' = upage s pgdir va') as Hkeep.
  { intros va' Hva'. unfold upage. rewrite Hfin by (by apply user_range). case_decide; [done|]. done. }
  split; [|split; [done|split]].
  2:{ intros x Hx (Hxl & Hxd & Hxt) Hxq.
      destruct (Hfr2 x Hx) as [Ho Ep].
      - split_and!; [by apply not_elem_of_cons|done|]. intros i Hi. unfold tab_at.
        rewrite Hpde by done. by apply Hxt.
      - split; [done|]. rewrite Ep. apply Hfr. by rewrite (page_base_id x (proj1 Hx)). }
  2:{ intros x. unfold held.
      rewrite (table_ext s s2) by (intros i Hi; by rewrite Hpde2, Hpde). rewrite elem_of_cons. split.
      - intros [[->|H]|[H|[H|(v & Hv & Hpv & ->)]]]; [|tauto..|].
        + right. right. right. by exists va.
        + destruct (Hkeep v Hv Hpv) as (_ & Hp' & ->). right. right. right. by exists v.
      - intros [H|[H|[H|(v & Hv & Hpv & ->)]]]; [tauto..|].
        destruct (decide (v / PGSIZE = va / PGSIZE)) as [E'|E'].
        + left. left. unfold q, upage, pte_at. by destruct (indices_page v va E') as [-> ->].
        + right. right. right. exists v. unfold upage. rewrite Hfin by (by apply user_range).
          by rewrite decide_False. }
  split; [done| |].
  - intros va' Hva' Hp'. destruct (Hkeep va' Hva' Hp') as (Hne & Hp & ->).
    destruct (Hu va' Hva' Hp) as (H1 & H2 & H3 & H4). split_and!; [done| |done|].
    + apply not_elem_of_cons. split; [|done]. by apply Hinj.
    + intros i Hi. unfold tab_at. rewrite Hpde2, Hpde by done. by apply H4.
  - intros v1 v2 H1 H2 Hp1 Hp2 Hne. destruct (Hkeep v1 H1 Hp1) as (_ & ? & ->).
    destruct (Hkeep v2 H2 Hp2) as (_ & ? & ->). by apply Hinj.
Qed.

(** The first address of the next page table's range. *)
Lemma next_table a : 0 <= a < KERNBASE ->
  u32 (u32 (PGADDR (PDX a + 1) 0 0 - PGSIZE) + PGSIZE) = (a / 2 ^ 22 + 1) * 2 ^ 22.
Proof.
  intros Ha. assert (0 <= a / 2 ^ 22 < 512) as Hq.
  { split; [apply Z.div_pos; lia|]. apply Z.div_lt_upper_bound; [lia|]. unfold KERNBASE in Ha. lia. }
  rewrite u32_add_l. rewrite PDX_eq, Z.mod_small by lia.
  unfold PGADDR. rewrite !Z.lor_0_r, Z.shiftl_mul_pow2 by lia.
  assert (0 <= (a / 2 ^ 22 + 1) * 2 ^ 22 < 2 ^ 32) by lia.
  rewrite (u32_id ((a / 2 ^ 22 + 1) * 2 ^ 22)) by lia.
  replace ((a / 2 ^ 22 + 1) * 2 ^ 22 - PGSIZE + PGSIZE) with ((a / 2 ^ 22 + 1) * 2 ^ 22) by lia.
  by apply u32_id.
Qed.

(** The pages of [a, oldsz) are unmapped, the rest of the space and its contents
    are the same. *)
Definition unmapped (s s' : kmem) (pgdir a oldsz : Z) : Prop :=
  forall va, 0 <= va < 2 ^ 32 ->
    (a <= PGSIZE * (va / PGSIZE) < oldsz -> has PTE_P (pte_at s' pgdir va) = false) /\
    (~ (a <= PGSIZE * (va / PGSIZE) < oldsz) ->
       pte_at s' pgdir va = pte_at s pgdir va /\
       (va < KERNBASE -> has PTE_P (pte_at s pgdir va) = true ->
        page_at (upage s pgdir va) s' = page_at (upage s pgdir va) s)).

Lemma unmapped_refl s pgdir a oldsz : oldsz <= a -> unmapped s s pgdir a oldsz.
Proof. intros H va Hva. split; [lia|done]. Qed.

Lemma unmapped_trans s s1 s2 pgdir a a1 oldsz :
  a <= a1 -> unmapped s s1 pgdir a (Z.min a1 oldsz) -> unmapped s1 s2 pgdir a1 oldsz ->
  unmapped s s2 pgdir a oldsz.
Proof.
  intros Ha H1 H2 va Hva. destruct (H1 va Hva) as [H1a H1b], (H2 va Hva) as [H2a H2b]. split.
  - intros Hr. destruct (decide (a1 <= PGSIZE * (va / PGSIZE))).
    + apply H2a. lia.
    + destruct (H2b ltac:(lia)) as [-> _]. apply H1a. lia.
  - intros Hr. destruct (H2b ltac:(lia)) as [E2 Hc2], (H1b ltac:(lia)) as [E1 Hc1]. split; [congruence|].
    intros Hk Hp. unfold upage in *. rewrite E1 in Hc2. rewrite Hc2, Hc1 by done. done.
Qed.

Lemma uframe_trans s s1 s2 pgdir a b l l1 l2 :
  unmapped s s1 pgdir a b -> uframe kend s s1 pgdir l l1 -> uframe kend s1 s2 pgdir l1 l2 ->
  uframe kend s s2 pgdir l l2.
Proof.
  intros Hu H1 H2 q Hv Ho Hn. destruct (H1 q Hv Ho Hn) as [Ho1 E1].
  destruct (H2 q Hv Ho1) as [Ho2 E2]; [|split; [done|congruence]].
  intros va Hva Hp. destruct (Hu va (user_range va Hva)) as [Ha Hb].
  destruct (decide (a <= PGSIZE * (va / PGSIZE) < b)) as [Hr|Hr].
  - rewrite (Ha Hr) in Hp. done.
  - unfold upage in *. rewrite (proj1 (Hb Hr)) in *. by apply Hn.
Qed.

Lemma mod_page a : a mod PGSIZE = 0 -> PGSIZE * (a / PGSIZE) = a.
Proof. intros H. pose proof (Z.div_mod a PGSIZE ltac:(done)). lia. Qed.

Lemma page_lt (x y : Z) : PGSIZE * x < PGSIZE * y -> PGSIZE * x + PGSIZE <= PGSIZE * y.
Proof. unfold PGSIZE. lia. Qed.

(** A user page is outside the free list and the tables. *)
Lemma user_outside s pgdir l va : as_ok kend s pgdir l -> 0 <= va < KERNBASE ->
  has PTE_P (pte_at s pgdir va) = true ->
  valid_page kend (upage s pgdir va) /\ outside s pgdir l (upage s pgdir va).
Proof. intros Has Hva Hp. destruct (as_user _ _ _ _ Has va Hva Hp) as (? & ? & ? & ?). done. Qed.

(** One page: freed if it is present. *)
Lemma dealloc_page s pgdir l a : as_ok kend s pgdir l -> 0 <= a < KERNBASE -> a mod PGSIZE = 0 ->
  has PTE_P (pde_at s pgdir (PDX a)) = true ->
  let pte := tab_at s pgdir (PDX a) + 4 * PTX a in
  exists s' l',
    when (has PTE_P (ld32 pte s)) (
      let pa := PTE_ADDR (ld32 pte s) in
      if pa =? 0 then panic "kfree" else kfree kend (P2V pa) ;; modify (st32 pte 0)) s = Ok tt s' /\
    as_ok kend s' pgdir l' /\ l ⊆ l' /\ unmapped s s' pgdir a (a + PGSIZE) /\
    uframe kend s s' pgdir l l' /\ account s s' pgdir l l'.
Proof using Hkend.
  intros Has Ha Hm Hpd pte. assert (ld32 pte s = pte_at s pgdir a) as E by (unfold pte_at; by rewrite Hpd).
  pose proof (mod_page a Hm) as Hpa.
  assert (forall va, a <= PGSIZE * (va / PGSIZE) < a + PGSIZE <-> va / PGSIZE = a / PGSIZE) as Hpg.
  { intros va. unfold PGSIZE in *. lia. }
  rewrite E. destruct (has PTE_P (pte_at s pgdir a)) eqn:Hp; cbn [when].
  - destruct (free_user s pgdir l a Has Ha Hp) as (s1 & Ek & Has2 & Hpte & Huf & Hacc).
    destruct (as_user _ _ _ _ Has a Ha Hp) as ((_ & _ & Hv & _) & _). fold pte in Has2, Hpte, Huf, Hacc.
    destruct (Z.eqb_spec (PTE_ADDR (pte_at s pgdir a)) 0) as [Ez|_].
    { exfalso. unfold upage in Hv. rewrite Ez in Hv. change (P2V 0) with KERNBASE in Hv. lia. }
    cbv zeta. rewrite (bind_ok _ _ _ _ _ Ek). eexists _, _. split; [done|].
    split; [exact Has2|]. split; [set_solver|]. split; [|split; [|exact Hacc]].
    + intros va Hva. rewrite Hpg, Hpte by done.
      split; intros Hx; [by rewrite decide_True|rewrite decide_False by done].
      split; [done|]. intros Hk Hpv. destruct (user_outside s pgdir l va Has ltac:(lia) Hpv) as [Hvx Hox].
      apply Huf; [done|done|]. apply (as_inj _ _ _ _ Has); [lia|lia|done..].
    + intros x Hx Hox Hxu. apply Huf; [done|done|]. intros ->. by apply (Hxu a Ha Hp).
  - exists s, l. split; [done|split; [done|split; [done|split; [|split; [by split|apply account_refl]]]]].
    intros va Hva. rewrite Hpg. split; [|done].
    intros Ev. unfold pte_at. destruct (indices_page va a Ev) as [-> ->]. rewrite Hpd. fold pte. by rewrite E.
Qed.

Lemma deallocuvm_loop_spec f pgdir a oldsz s l :
  as_ok kend s pgdir l -> a mod PGSIZE = 0 -> 0 <= a -> oldsz <= KERNBASE ->
  oldsz - a <= PGSIZE * Z.of_nat f ->
  exists s' l', deallocuvm_loop kend f pgdir a oldsz s = Ok tt s' /\ as_ok kend s' pgdir l' /\
    l ⊆ l' /\ unmapped s s' pgdir a oldsz /\ uframe kend s s' pgdir l l' /\ account s s' pgdir l l'.
Proof using Hkend.
  revert a s l. induction f as [|f IH]; intros a s l Has Hm Ha Ho Hf; cbn [deallocuvm_loop].
  all: destruct (Z.ltb_spec a oldsz) as [Hlt|Hge];
    [|exists s, l; split; [done|split; [done|split; [done|split; [by apply unmapped_refl|split; [by split|done]]]]]].
  { unfold PGSIZE in Hf. lia. }
  pose proof (mod_page a Hm) as Hpa.
  destruct (has PTE_P (pde_at s pgdir (PDX a))) eqn:Hpd.
  - rewrite (bind_ok _ _ _ _ _ (walk_present s pgdir a false Hpd)).
    destruct (pt_tab _ _ _ _ (as_pt _ _ _ _ Has) _ (PDX_range a) Hpd) as (Hvt & _).
    pose proof (valid_page_pos kend _ Hvt). pose proof (PTX_range a).
    destruct (Z.eqb_spec (tab_at s pgdir (PDX a) + 4 * PTX a) 0); [lia|].
    set (pte := tab_at s pgdir (PDX a) + 4 * PTX a) in *.
    rewrite (bind_ok _ _ _ (ld32 pte s) s) by done.
    destruct (dealloc_page s pgdir l a Has ltac:(lia) Hm Hpd) as (s1 & l1 & E & Has1 & Hl1 & Hu & Hf1 & Hc1).
    fold pte in E. rewrite (bind_ok _ _ _ _ _ E).
    rewrite u32_id by (unfold PGSIZE, KERNBASE in *; lia).
    destruct (IH (a + PGSIZE) s1 l1) as (s' & l' & E' & Has' & Hl' & Hu' & Hf' & Hc').
    + done.
    + rewrite Zplus_mod, Hm, Z_mod_same_full. done.
    + unfold PGSIZE. lia.
    + done.
    + lia.
    + exists s', l'. split_and!; [exact E'|exact Has'|set_solver +Hl1 Hl'| |exact (uframe_trans s s1 s' pgdir a (a + PGSIZE) l l1 l' Hu Hf1 Hf')
        |exact (account_trans _ _ _ _ _ _ _ Hc1 Hc')].
      apply (unmapped_trans s s1 s' pgdir a (a + PGSIZE)); [unfold PGSIZE; lia| |exact Hu'].
      intros va Hva. split.
      * intros Hr. apply (Hu va Hva). lia.
      * intros Hr. apply (Hu va Hva). intros Hr'. apply Hr. split; [lia|].
        apply Z.min_glb_lt; [lia|].
        destruct (decide (oldsz <= PGSIZE * (va / PGSIZE))); [|lia]. exfalso.
        rewrite <- Hpa in Hr'. unfold PGSIZE in *. lia.
  - rewrite (bind_ok _ _ _ _ _ (walk_absent s pgdir a Hpd)). cbn [Z.eqb]. rewrite next_table by lia.
    pose proof (Z.div_mod a (2 ^ 22) ltac:(lia)). pose proof (Z.mod_pos_bound a (2 ^ 22) ltac:(lia)).
    set (a1 := (a / 2 ^ 22 + 1) * 2 ^ 22) in *.
    assert (a1 mod PGSIZE = 0) as Hm1.
    { unfold a1. change (2 ^ 22) with (1024 * PGSIZE). rewrite Z.mul_assoc. apply Z.mod_mul. done. }
    pose proof (mod_page a1 Hm1) as Hpa1.
    assert (a + PGSIZE <= a1) by (rewrite <- Hpa, <- Hpa1; apply page_lt; unfold a1 in *; lia).
    destruct (IH a1 s l) as (s' & l' & E' & Has' & Hl' & Hu' & Hf' & Hc'); [done|done|unfold PGSIZE in *; lia|done|lia|].
    exists s', l'. split_and!; [done|done|done| |done|done].
    apply (unmapped_trans s s s' pgdir a a1); [unfold PGSIZE in *; lia| |exact Hu'].
    intros va Hva. split; [|done].
    + intros Hr. unfold pte_at. assert (PDX va = PDX a) as ->; [|by rewrite Hpd].
      rewrite !PDX_eq. f_equal. pose proof (Z.mul_div_le va PGSIZE ltac:(done)).
      pose proof (Z.mul_succ_div_gt va PGSIZE ltac:(done)).
      assert (va < a1) by (rewrite <- Hpa1 in *; unfold PGSIZE in *; lia).
      symmetry. apply (Z.div_unique va (2 ^ 22) (a / 2 ^ 22) (va - a / 2 ^ 22 * 2 ^ 22)); unfold a1 in *; lia.
Qed.

Lemma pground_up sz : 0 <= sz -> sz + PGSIZE <= 2 ^ 32 ->
  PGROUNDUP sz = PGSIZE * ((sz + PGSIZE - 1) / PGSIZE) /\ sz <= PGROUNDUP sz < sz + PGSIZE /\
  PGROUNDUP sz mod PGSIZE = 0.
Proof.
  intros H1 H2. unfold PGROUNDUP.
  assert (0 <= sz + PGSIZE - 1 < 2 ^ 32) as Hr by (unfold PGSIZE in *; lia).
  rewrite (u32_id _ Hr). destruct (aligned_down _ Hr) as (Hm & _ & _ & He).
  unfold PGROUNDDOWN in *. rewrite He in *. split_and!; try done.
  - pose proof (Z.mul_succ_div_gt (sz + PGSIZE - 1) PGSIZE ltac:(done)). unfold PGSIZE in *. lia.
  - pose proof (Z.mul_div_le (sz + PGSIZE - 1) PGSIZE ltac:(done)). unfold PGSIZE in *. lia.
Qed.

Lemma deallocuvm_spec pgdir oldsz newsz s l :
  as_ok kend s pgdir l -> 0 <= newsz < oldsz -> oldsz <= KERNBASE ->
  exists s' l', deallocuvm kend pgdir oldsz newsz s = Ok newsz s' /\ as_ok kend s' pgdir l' /\
    l ⊆ l' /\ unmapped s s' pgdir (PGROUNDUP newsz) oldsz /\ uframe kend s s' pgdir l l' /\
    account s s' pgdir l l'.
Proof using Hkend.
  intros Has Hn Ho. unfold deallocuvm. rewrite Z.geb_leb, (proj2 (Z.leb_gt _ _)) by lia.
  destruct (pground_up newsz) as (_ & Hb & Hm); [lia|unfold PGSIZE, KERNBASE in *; lia|].
  destruct (deallocuvm_loop_spec (S (Z.to_nat (oldsz / PGSIZE))) pgdir (PGROUNDUP newsz) oldsz s l)
    as (s' & l' & E & H1 & H2 & H3 & H4 & H5); [done|done|lia|done| |].
  - pose proof (Z.mul_succ_div_gt oldsz PGSIZE ltac:(done)).
    pose proof (Z.div_pos oldsz PGSIZE ltac:(lia) ltac:(done)).
    rewrite Nat2Z.inj_succ, Z2Nat.id by done. lia.
  - exists s', l'. by rewrite (bind_ok _ _ _ _ _ E).
Qed.

(** The address space when a fresh page [mem] has been mapped at [a], or not
    mapped for want of a page table. *)
Lemma as_ok_map s s' pgdir l l' a mem j :
  as_ok kend s pgdir l -> pt_ok kend s' pgdir l' -> frame kend s s' pgdir l l' ->
  valid_page kend mem -> outside s pgdir l mem ->
  (forall va, 0 <= va < KERNBASE -> has PTE_P (pte_at s pgdir va) = true -> upage s pgdir va <> mem) ->
  mapped s s' pgdir a (V2P mem) 6 j -> (j <= 1)%nat ->
  as_ok kend s' pgdir l' /\
  (forall va, 0 <= va < 2 ^ 32 -> va / PGSIZE = a / PGSIZE -> j = 1%nat ->
     has PTE_P (pte_at s' pgdir va) = true /\ upage s' pgdir va = mem /\
     PTE_FLAGS (pte_at s' pgdir va) = 7).
Proof using Hkend.
  intros Has Hpt Hfr Hmem Hout Hfresh Hmap Hj.
  destruct (P2V_V2P kend mem Hmem) as (Epv & Hr & Hm).
  assert (new_pte (V2P mem) 6 0 = V2P mem + 7) as Enew.
  { unfold new_pte. rewrite Z.mul_0_r, Z.add_0_r, (u32_id (V2P mem)) by done.
    rewrite <- Z.lor_assoc. change (Z.lor 6 PTE_P) with 7. rewrite lor_aligned by (done || (unfold PGSIZE; lia)).
    apply u32_id. rewrite (Z.div_mod (V2P mem) PGSIZE), Hm in Hr |- * by done. unfold PGSIZE in *. lia. }
  assert (forall va, 0 <= va < 2 ^ 32 -> va / PGSIZE = a / PGSIZE -> j = 1%nat ->
     has PTE_P (pte_at s' pgdir va) = true /\ upage s' pgdir va = mem /\
     PTE_FLAGS (pte_at s' pgdir va) = 7) as Hnew.
  { intros va Hva E ->. unfold upage. rewrite Hmap by done. rewrite decide_True by lia.
    replace (va / PGSIZE - a / PGSIZE) with 0 by lia. rewrite Enew.
    rewrite <- (lor_aligned (V2P mem) 7) by (done || (unfold PGSIZE; lia)). split_and!.
    - apply has_lor_P; done || (unfold PGSIZE; lia).
    - rewrite PTE_ADDR_lor by (done || (unfold PGSIZE; lia)). done.
    - unfold PTE_FLAGS. change 4095 with (Z.ones 12). rewrite Z.land_ones by done.
      rewrite lor_aligned by (done || (unfold PGSIZE; lia)). change (2 ^ 12) with PGSIZE.
      rewrite Zplus_mod, Hm. done. }
  assert (forall va, 0 <= va < 2 ^ 32 -> ~ (va / PGSIZE = a / PGSIZE /\ j = 1%nat) ->
    pte_at s' pgdir va = pte_at s pgdir va) as Hold.
  { intros va Hva Hne. rewrite Hmap by done. rewrite decide_False; [done|]. lia. }
  split; [|done]. split; [done| |].
  - intros va Hva Hp. destruct (decide (va / PGSIZE = a / PGSIZE /\ j = 1%nat)) as [[E Ej]|Hne].
    + destruct (Hnew va (user_range va Hva) E Ej) as (_ & -> & _).
      destruct (Hfr mem Hmem Hout) as [(? & ? & ?) _]. done.
    + unfold upage in *. rewrite (Hold va (user_range va Hva) Hne) in *.
      destruct (user_outside s pgdir l va Has Hva Hp) as [Hv Ho].
      destruct (Hfr _ Hv Ho) as [(? & ? & ?) _]. done.
  - intros v1 v2 H1 H2 Hp1 Hp2 Hne.
    destruct (decide (v1 / PGSIZE = a / PGSIZE /\ j = 1%nat)) as [[E1 Ej]|N1];
    destruct (decide (v2 / PGSIZE = a / PGSIZE /\ j = 1%nat)) as [[E2 Ej']|N2]; try lia.
    + destruct (Hnew v1 (user_range v1 H1) E1 Ej) as (_ & -> & _).
      unfold upage. rewrite (Hold v2 (user_range v2 H2) N2) in *. symmetry. by apply Hfresh.
    + destruct (Hnew v2 (user_range v2 H2) E2 Ej') as (_ & -> & _).
      unfold upage. rewrite (Hold v1 (user_range v1 H1) N1) in *. by apply Hfresh.
    + unfold upage. rewrite (Hold v1 (user_range v1 H1) N1), (Hold v2 (user_range v2 H2) N2) in *.
      by apply (as_inj _ _ _ _ Has).
Qed.

(** [kalloc] and [memset] of a new user page. *)
Lemma fresh_page s pgdir mem l : as_ok kend s pgdir (mem :: l) ->
  exists s0, kalloc s = Ok mem s0 /\ let s1 := memset_page mem 0 s0 in
    as_ok kend s1 pgdir l /\ valid_page kend mem /\ outside s1 pgdir l mem /\
    (forall va, pte_at s1 pgdir va = pte_at s pgdir va) /\
    (forall va, 0 <= va < KERNBASE -> has PTE_P (pte_at s pgdir va) = true -> upage s pgdir va <> mem) /\
    page_at mem s1 = replicate (Z.to_nat PGSIZE) 0 /\
    (forall q, valid_page kend q -> q <> mem -> page_at q s1 = page_at q s) /\
    (forall q, outside s pgdir (mem :: l) q -> outside s1 pgdir l q) /\
    (forall i, 0 <= i < 1024 -> pde_at s1 pgdir i = pde_at s pgdir i).
Proof using Hkend.
  intros Has. pose proof (as_pt _ _ _ _ Has) as Hpt. pose proof (pt_free _ _ _ _ Hpt) as Hfl.
  destruct (kalloc_spec kend s (mem :: l) Hfl) as (s0 & E & Hfl0 & Hpg).
  destruct Hfl as (_ & Hnd & Hv & _). apply Forall_cons in Hv as [Hmem _]. apply NoDup_cons in Hnd as [Hml _].
  destruct (pt_dir _ _ _ _ Hpt) as [Hvd Hdl]. apply not_elem_of_cons in Hdl as [Hdm Hdl].
  pose proof (page_base_id mem (proj1 Hmem)) as Eb.
  assert (forall i, 0 <= i < 1024 -> has PTE_P (pde_at s pgdir i) = true -> mem <> tab_at s pgdir i) as Hmt.
  { intros i Hi Hp ->. destruct (pt_tab _ _ _ _ Hpt i Hi Hp) as (_ & Hn & _). set_solver. }
  assert (forall va, 0 <= va < KERNBASE -> has PTE_P (pte_at s pgdir va) = true -> upage s pgdir va <> mem) as Hfresh.
  { intros va Hva Hp Eu. destruct (user_outside s pgdir _ va Has Hva Hp) as [_ (Hn & _)].
    rewrite Eu in Hn. set_solver. }
  set (s1 := memset_page mem 0 s0).
  assert (forall p, page_base p <> mem -> page_at p s1 = page_at p s) as Hfr.
  { intros p Hp. unfold s1, memset_page. rewrite page_at_set, Eb, decide_False by done.
    unfold page_at. by rewrite Hpg. }
  destruct (tables_frame s s1 pgdir _ mem Hpt Hmem Hfr ltac:(congruence) Hmt) as [Hpde Hpte].
  assert (pt_ok kend s1 pgdir l) as Hpt1.
  { eapply pt_ok_frame; [done|by apply free_list_memset|done|done|].
    intros i Hi Hp. destruct (pt_tab _ _ _ _ Hpt i Hi Hp) as (_ & Hn & _). set_solver. }
  assert (forall q, outside s pgdir (mem :: l) q -> outside s1 pgdir l q) as Hout.
  { intros q (H1 & H2 & H3). split_and!; [set_solver|done|]. intros i Hi. unfold tab_at.
    rewrite Hpde by done. by apply H3. }
  exists s0. split; [done|]. fold s1. split_and!.
  - split; [done| |].
    + intros va Hva. unfold upage. rewrite !Hpte. intros Hp.
      destruct (user_outside s pgdir _ va Has Hva Hp) as [Hv Ho].
      destruct (Hout _ Ho) as (? & ? & ?). done.
    + intros v1 v2 H1 H2. unfold upage. rewrite !Hpte. by apply (as_inj _ _ _ _ Has).
  - done.
  - split_and!; [done|congruence|]. intros i Hi. unfold tab_at. rewrite Hpde by done. by apply Hmt.
  - done.
  - done.
  - unfold s1, memset_page. rewrite page_at_set, decide_True by done. done.
  - intros q Hq Hne. apply Hfr. by rewrite (page_base_id q (proj1 Hq)).
  - done.
  - done.
Qed.

(** Freeing a page that is not part of the address space. *)
Lemma kfree_page s pgdir l mem : as_ok kend s pgdir l -> valid_page kend mem -> outside s pgdir l mem ->
  (forall va, 0 <= va < KERNBASE -> has PTE_P (pte_at s pgdir va) = true -> upage s pgdir va <> mem) ->
  exists s', kfree kend mem s = Ok tt s' /\ as_ok kend s' pgdir (mem :: l) /\
    (forall va, pte_at s' pgdir va = pte_at s pgdir va) /\
    (forall i, 0 <= i < 1024 -> pde_at s' pgdir i = pde_at s pgdir i) /\
    (forall q, page_base q <> mem -> page_at q s' = page_at q s).
Proof.
  intros [Hpt Hu Hinj] Hmem (Hnl & Hnd & Hnt) Hfresh.
  destruct (kfree_spec kend mem s l Hmem (pt_free _ _ _ _ Hpt) Hnl) as (s' & E & Hf & Hfr).
  destruct (tables_frame s s' pgdir l mem Hpt Hmem Hfr Hnd Hnt) as [Hpde Hpte].
  exists s'. split_and!; [done| |done..]. split.
  - eapply pt_ok_frame; [done|done|done| |].
    + apply not_elem_of_cons. split; [congruence|]. apply (pt_dir _ _ _ _ Hpt).
    + intros i Hi Hp. destruct (pt_tab _ _ _ _ Hpt i Hi Hp) as (_ & ? & _).
      apply not_elem_of_cons. split; [|done]. intros Eq. by apply (Hnt i Hi Hp).
  - intros va Hva. unfold upage. rewrite !Hpte. intros Hp.
    destruct (Hu va Hva Hp) as (H1 & H2 & H3 & H4). split_and!; [done| |done|].
    + apply not_elem_of_cons. split; [by apply Hfresh|done].
    + intros i Hi. unfold tab_at. rewrite Hpde by done. by apply H4.
  - intros v1 v2 H1 H2. unfold upage. rewrite !Hpte. by apply Hinj.
Qed.

(** The pages of [a, newsz) are mapped to zeroed pages, the rest of the space
    and its contents are the same. *)
Definition grown (s s' : kmem) (pgdir a newsz : Z) : Prop :=
  forall va, 0 <= va < 2 ^ 32 ->
    (a <= PGSIZE * (va / PGSIZE) < newsz ->
       PTE_FLAGS (pte_at s' pgdir va) = 7 /\ has PTE_P (pte_at s' pgdir va) = true /\
       page_at (upage s' pgdir va) s' = replicate (Z.to_nat PGSIZE) 0) /\
    (~ (a <= PGSIZE * (va / PGSIZE) < newsz) ->
       pte_at s' pgdir va = pte_at s pgdir va /\
       (va < KERNBASE -> has PTE_P (pte_at s pgdir va) = true ->
        page_at (upage s pgdir va) s' = page_at (upage s pgdir va) s)).

Lemma grown_refl s pgdir a newsz : newsz <= a -> grown s s pgdir a newsz.
Proof. intros H va Hva. split; [lia|done]. Qed.

(** One more page at [a], then the rest. *)
Lemma grown_step s s1 s2 s' pgdir a newsz l mem :
  a mod PGSIZE = 0 -> 0 <= a < newsz -> newsz < KERNBASE -> as_ok kend s pgdir (mem :: l) ->
  (forall va, pte_at s1 pgdir va = pte_at s pgdir va) ->
  (forall q, valid_page kend q -> q <> mem -> page_at q s1 = page_at q s) ->
  page_at mem s1 = replicate (Z.to_nat PGSIZE) 0 -> valid_page kend mem -> outside s1 pgdir l mem ->
  (forall q, outside s pgdir (mem :: l) q -> outside s1 pgdir l q) ->
  (exists l2, frame kend s1 s2 pgdir l l2) -> mapped s1 s2 pgdir a (V2P mem) 6 1 ->
  (forall va, 0 <= va < 2 ^ 32 -> va / PGSIZE = a / PGSIZE -> 
     has PTE_P (pte_at s2 pgdir va) = true /\ upage s2 pgdir va = mem /\
     PTE_FLAGS (pte_at s2 pgdir va) = 7) ->
  grown s2 s' pgdir (a + PGSIZE) newsz -> grown s s' pgdir a newsz.
Proof using Hkend.
  intros Hm Ha Hn Has Hsame Hpages Hzero Hmem Hout Houts [l2 Hfr] Hmap Hnew Hg va Hva.
  pose proof (mod_page a Hm) as Hpa. destruct (Hg va Hva) as [Hin Hno].
  assert (va / PGSIZE <> a / PGSIZE -> pte_at s2 pgdir va = pte_at s pgdir va) as Hold.
  { intros Hne. rewrite Hmap, Hsame by done. rewrite decide_False; [done|]. lia. }
  split.
  - intros Hr. destruct (decide (va / PGSIZE = a / PGSIZE)) as [E|E].
    + destruct (Hnew va Hva E) as (H1 & H2 & H3). destruct Hno as [Ep Hc]; [unfold PGSIZE in *; lia|].
      unfold upage in *. rewrite Ep. split_and!; [done|done|].
      assert (va < KERNBASE) as Hk.
      { pose proof (Z.mul_succ_div_gt va PGSIZE ltac:(done)). rewrite E in *.
        unfold PGSIZE, KERNBASE in *. lia. }
      rewrite Hc, H2 by done. destruct (Hfr mem Hmem Hout) as [_ ->]. done.
    + apply Hin. unfold PGSIZE in *. lia.
  - intros Hr. assert (va / PGSIZE <> a / PGSIZE) as E by (intros E; rewrite E in Hr; lia).
    destruct Hno as [Ep Hc]; [unfold PGSIZE in *; lia|]. rewrite Hold in * by done.
    split; [done|]. intros Hk Hp. unfold upage in *. rewrite Hold in Hc by done. rewrite Hc by done.
    fold (upage s pgdir va).
    destruct (user_outside s pgdir _ va Has ltac:(lia) Hp) as [Hv Ho].
    destruct (Hfr _ Hv (Houts _ Ho)) as [_ ->]. apply Hpages; [done|].
    destruct Ho as [Hnin _]. by apply not_elem_of_cons in Hnin as [? _].
Qed.

(** The user pages when [mem] has been mapped at [a], or not. *)
Lemma map_user s1 s2 pgdir a mem j q : 0 <= a < KERNBASE -> (j <= 1)%nat ->
  (forall va, 0 <= va < 2 ^ 32 -> va / PGSIZE = a / PGSIZE -> has PTE_P (pte_at s1 pgdir va) = false) ->
  mapped s1 s2 pgdir a (V2P mem) 6 j ->
  (forall va, 0 <= va < 2 ^ 32 -> va / PGSIZE = a / PGSIZE -> j = 1%nat ->
     has PTE_P (pte_at s2 pgdir va) = true /\ upage s2 pgdir va = mem /\ PTE_FLAGS (pte_at s2 pgdir va) = 7) ->
  user s2 pgdir q <-> user s1 pgdir q \/ (j = 1%nat /\ q = mem).
Proof.
  intros Ha Hj Hfree Hmap Hnew.
  assert (forall va, 0 <= va < KERNBASE -> ~ (va / PGSIZE = a / PGSIZE /\ j = 1%nat) ->
    pte_at s2 pgdir va = pte_at s1 pgdir va) as Hold.
  { intros va Hva Hne. rewrite Hmap by (by apply user_range). rewrite decide_False; [done|lia]. }
  split.
  - intros (va & Hva & Hp & ->). destruct (decide (va / PGSIZE = a / PGSIZE /\ j = 1%nat)) as [[E Ej]|Hne].
    + right. split; [done|]. by apply Hnew; [apply user_range|..].
    + left. exists va. unfold upage. rewrite Hold in * by done. done.
  - intros [(va & Hva & Hp & ->)|[-> ->]].
    + exists va. unfold upage. rewrite Hold; [done|done|]. intros [E _].
      rewrite Hfree in Hp by (done || by apply user_range). done.
    + exists a. destruct (Hnew a (user_range a Ha) eq_refl eq_refl) as (? & ? & _). done.
Qed.

(** The pages that were mapped keep their contents while a page is taken and mapped. *)
Lemma map_keeps s s1 s2 pgdir l l2 mem va : as_ok kend s pgdir (mem :: l) ->
  (forall q, valid_page kend q -> q <> mem -> page_at q s1 = page_at q s) ->
  (forall q, outside s pgdir (mem :: l) q -> outside s1 pgdir l q) -> frame kend s1 s2 pgdir l l2 ->
  0 <= va < KERNBASE -> has PTE_P (pte_at s pgdir va) = true ->
  page_at (upage s pgdir va) s2 = page_at (upage s pgdir va) s.
Proof.
  intros Has Hpages Houts Hfr Hva Hp. destruct (user_outside s pgdir _ va Has Hva Hp) as [Hv Ho].
  destruct (Hfr _ Hv (Houts _ Ho)) as [_ ->]. apply Hpages; [done|].
  destruct Ho as [Hnin _]. by apply not_elem_of_cons in Hnin as [? _].
Qed.

Lemma allocuvm_loop_spec f pgdir a oldsz newsz s l :
  as_ok kend s pgdir l -> a mod PGSIZE = 0 -> PGROUNDUP oldsz <= a -> 0 <= oldsz <= newsz ->
  newsz < KERNBASE -> newsz - a <= PGSIZE * Z.of_nat f ->
  (forall va, 0 <= va < 2 ^ 32 -> a <= PGSIZE * (va / PGSIZE) < newsz ->
     has PTE_P (pte_at s pgdir va) = false) ->
  exists r s' l', allocuvm_loop kend f pgdir a oldsz newsz s = Ok r s' /\ as_ok kend s' pgdir l' /\
    account s s' pgdir l l' /\ uframe kend s s' pgdir l l' /\
    (r = newsz /\ grown s s' pgdir a newsz \/ r = 0 /\ unmapped s s' pgdir (PGROUNDUP oldsz) newsz).
Proof using Hkend.
  revert a s l. induction f as [|f IH]; intros a s l Has Hm Hua Ho Hn Hf Hfree; cbn [allocuvm_loop].
  all: destruct (pground_up oldsz) as (_ & Hub & _); [lia|unfold PGSIZE, KERNBASE in *; lia|].
  all: destruct (Z.ltb_spec a newsz) as [Hlt|Hge];
    [|exists newsz, s, l; split_and!; [done|done|done|by split|left; split; [done|by apply grown_refl]]].
  { unfold PGSIZE in Hf. lia. }
  destruct l as [|mem l].
  { pose proof (kalloc_spec kend s [] (pt_free _ _ _ _ (as_pt _ _ _ _ Has))) as E.
    rewrite (bind_ok _ _ _ _ _ E). cbn [Z.eqb].
    destruct (deallocuvm_spec pgdir newsz oldsz s [] Has) as (s' & l' & E' & Has' & _ & Hu & Huf & Hc); [lia|lia|].
    rewrite (bind_ok _ _ _ _ _ E'). exists 0, s', l'. split_and!; [done|done|done|done|by right]. }
  destruct (fresh_page s pgdir mem l Has) as (s0 & E & Has1 & Hmem & Hout & Hsame & Hfresh & Hzero & Hpg & Houts & Hpde).
  rewrite (bind_ok _ _ _ _ _ E). set (s1 := memset_page mem 0 s0) in *.
  pose proof (valid_page_pos kend mem Hmem). destruct (Z.eqb_spec mem 0); [lia|].
  rewrite (bind_ok _ _ _ tt s1) by done. change (Z.lor PTE_W PTE_U) with 6.
  pose proof (mod_page a Hm) as Hpa.
  assert ((a + PGSIZE - 1) / PGSIZE = a / PGSIZE) as Elast.
  { symmetry. apply (Z.div_unique _ _ _ (PGSIZE - 1)); [unfold PGSIZE; lia|lia]. }
  assert (forall va, 0 <= va < 2 ^ 32 -> va / PGSIZE = a / PGSIZE -> has PTE_P (pte_at s1 pgdir va) = false) as Hfree1.
  { intros va Hva Ev. rewrite Hsame. apply Hfree; [done|]. rewrite Ev. lia. }
  destruct (mappages_spec kend pgdir a PGSIZE (V2P mem) 6 s1 l) as (j & s2 & l2 & Hj & Em & Hpt2 & Hl2 & _ & Hmap & Hfr & Htb);
    [apply Has1|lia|done|unfold PGSIZE, KERNBASE in *; lia|by apply (P2V_V2P kend)| |].
  { intros va Hva Hr. rewrite Elast in Hva. apply Hfree1; [done|lia]. }
  rewrite Elast, Z.sub_diag in Hj, Em. change (Z.to_nat (0 + 1)) with 1%nat in *.
  rewrite (bind_ok _ _ _ _ _ Em).
  assert (forall va, 0 <= va < KERNBASE -> has PTE_P (pte_at s1 pgdir va) = true -> upage s1 pgdir va <> mem) as Hfresh1.
  { intros va Hva. unfold upage. rewrite Hsame. by apply Hfresh. }
  destruct (as_ok_map s1 s2 pgdir l l2 a mem j Has1 Hpt2 Hfr Hmem Hout Hfresh1 Hmap Hj) as [Has2 Hnew].
  assert (forall q, q ∈ l2 \/ held s2 pgdir q <-> q ∈ l \/ held s pgdir q \/ (j = 1%nat /\ q = mem)) as Hacc2.
  { intros q. rewrite <- (held_ext s s1) by (intros; first [by apply Hpde|by apply Hsame]). unfold held.
    rewrite (map_user s1 s2 pgdir a mem j q) by (done || lia). pose proof (Htb q). tauto. }
  assert (forall va, 0 <= va < 2 ^ 32 -> ~ (va / PGSIZE = a / PGSIZE /\ j = 1%nat) -> pte_at s2 pgdir va = pte_at s pgdir va) as Hsame2.
  { intros va Hva Hne. rewrite Hmap, Hsame by done. rewrite decide_False; [done|lia]. }
  assert (forall va, 0 <= va < KERNBASE -> has PTE_P (pte_at s pgdir va) = true ->
    page_at (upage s pgdir va) s2 = page_at (upage s pgdir va) s) as Hkeep2.
  { intros va Hva Hp. by apply (map_keeps s s1 s2 pgdir l l2 mem). }
  assert (forall q, valid_page kend q -> outside s pgdir (mem :: l) q -> outside s2 pgdir l2 q /\ page_at q s2 = page_at q s) as Hfr2.
  { intros q Hq Ho'. destruct (Hfr q Hq (Houts q Ho')) as [? ->]. split; [done|]. apply Hpg; [done|].
    destruct Ho' as [Hnin _]. by apply not_elem_of_cons in Hnin as [? _]. }
  destruct (decide (j = 1%nat)) as [->|Hj0]; cbn [Z.ltb Z.compare].
  - rewrite u32_id by (unfold PGSIZE, KERNBASE in *; lia).
    assert (forall va, 0 <= va < 2 ^ 32 -> PGROUNDUP oldsz <= PGSIZE * (va / PGSIZE) < newsz \/ va / PGSIZE <> a / PGSIZE) as Hcov.
    { intros va Hva. destruct (decide (va / PGSIZE = a / PGSIZE)) as [->|]; [left; lia|by right]. }
    destruct (IH (a + PGSIZE) s2 l2) as (r & s' & l' & Er & Has' & Hacc & Huf & Hcase).
    + done.
    + rewrite Zplus_mod, Hm, Z_mod_same_full. done.
    + unfold PGSIZE. lia.
    + done.
    + done.
    + lia.
    + intros va Hva Hr. rewrite Hsame2; [|done|unfold PGSIZE in *; lia].
      apply Hfree; [done|]. unfold PGSIZE in *. lia.
    + exists r, s', l'. split_and!; [done|done| | |].
      * intros q. rewrite (Hacc q), (Hacc2 q), elem_of_cons. tauto.
      * intros q Hq Hoq Hxu. destruct (Hfr2 q Hq Hoq) as [Ho2 E2]. destruct (Huf q Hq Ho2) as [? E3]; [|split; [done|congruence]].
        intros va Hva Hp. destruct (decide (va / PGSIZE = a / PGSIZE)) as [Ev|Ev].
        -- destruct (Hnew va (user_range va Hva) Ev eq_refl) as (_ & -> & _). destruct Hoq as [Hnin _]. set_solver +Hnin.
        -- unfold upage in *. rewrite Hsame2 in * by (tauto || by apply user_range). by apply Hxu.
      * destruct Hcase as [[-> Hg]|[-> Hu]].
        -- left. split; [done|]. eapply (grown_step s s1 s2 s' pgdir a newsz l mem); try done; [lia|eauto|].
           intros va Hva Ev. by apply Hnew.
        -- right. split; [done|]. intros va Hva. destruct (Hu va Hva) as [H1 H2]. split; [done|].
           intros Hr. destruct (H2 Hr) as [E1 Hc1], (Hcov va Hva) as [Hx|Hx]; [done|].
           rewrite Hsame2 in E1 by (done || tauto). split; [done|]. intros Hk Hp.
           unfold upage in *. rewrite Hsame2 in Hc1 by (done || tauto). rewrite Hc1 by done. apply Hkeep2; [lia|done].
  - destruct (deallocuvm_spec pgdir newsz oldsz s2 l2 Has2) as (s3 & l3 & E3 & Has3 & _ & Hu & Huf & Hacc); [lia|lia|].
    rewrite (bind_ok _ _ _ _ _ E3). assert (j = O) as -> by lia.
    assert (forall va, 0 <= va < 2 ^ 32 -> pte_at s2 pgdir va = pte_at s pgdir va) as Hsame3 by (intros; apply Hsame2; [done|lia]).
    destruct (Hfr mem Hmem Hout) as [Hout2 _].
    destruct (Huf mem Hmem Hout2) as [Hout3 _].
    { intros va Hva. unfold upage. rewrite Hsame3 by (by apply user_range). by apply Hfresh. }
    assert (forall va, 0 <= va < KERNBASE -> has PTE_P (pte_at s3 pgdir va) = true ->
      has PTE_P (pte_at s pgdir va) = true /\ upage s3 pgdir va = upage s pgdir va) as Hback.
    { intros va Hva Hp. destruct (Hu va (user_range va Hva)) as [Hu1 Hu2].
      destruct (decide (PGROUNDUP oldsz <= PGSIZE * (va / PGSIZE) < newsz)) as [Hr|Hr].
      - rewrite (Hu1 Hr) in Hp. done.
      - destruct (Hu2 Hr) as [E2 _]. unfold upage. rewrite Hsame3 in E2 by (by apply user_range). by rewrite E2 in *. }
    destruct (kfree_page s3 pgdir l3 mem Has3 Hmem Hout3) as (s4 & E4 & Has4 & Hpte4 & Hpde4 & Hpg4).
    { intros va Hva Hp. destruct (Hback va Hva Hp) as [Hp' ->]. by apply Hfresh. }
    rewrite (bind_ok _ _ _ _ _ E4). exists 0, s4, (mem :: l3). split_and!; [done|done| | |right].
    + intros q. rewrite (held_ext s3 s4) by (intros; first [by apply Hpde4|by apply Hpte4]). rewrite !elem_of_cons.
      pose proof (Hacc q). pose proof (Hacc2 q). assert (~ (0 = 1)%nat) by lia. tauto.
    + intros q Hq Hoq Hxu. destruct (Hfr2 q Hq Hoq) as [Ho2 E2]. destruct (Huf q Hq Ho2) as [(Ho3 & Hd3 & Ht3) E3q].
      { intros va Hva Hp. unfold upage. rewrite Hsame3 in * by (by apply user_range). by apply Hxu. }
      assert (q <> mem) as Hne by (destruct Hoq as [Hnin _]; set_solver +Hnin). split.
      * split_and!; [by apply not_elem_of_cons|done|]. intros i Hi. unfold tab_at. rewrite Hpde4 by done. by apply Ht3.
      * rewrite Hpg4; [congruence|]. by rewrite (page_base_id q (proj1 Hq)).
    + split; [done|]. intros va Hva. rewrite Hpte4. destruct (Hu va Hva) as [Hu1 Hu2].
      split; [done|]. intros Hr. destruct (Hu2 Hr) as [E2 Hc2]. rewrite Hsame3 in E2 by done. split; [done|].
      intros Hk Hp. unfold upage in *. rewrite Hsame3 in Hc2 by done. rewrite Hpg4; [rewrite Hc2 by done; apply Hkeep2; [lia|done]|].
      destruct (user_outside s pgdir _ va Has ltac:(lia) Hp) as [Hv _].
      unfold upage in Hv. rewrite (page_base_id _ (proj1 Hv)). apply Hfresh; [lia|done].
Qed.

End User.

(** ** Copying to user memory *)

(** The byte that user code reads at [va]. *)
Definition user_byte (s : kmem) (pgdir va : Z) : Z :=
  aget 0 (page_at (upage s pgdir va) s) (va mod PGSIZE).

(** [va] is mapped for user code. *)
Definition user_ok (s : kmem) (pgdir va : Z) : Prop :=
  has PTE_P (pde_at s pgdir (PDX va)) = true /\ has PTE_P (pte_at s pgdir va) = true /\
  has PTE_U (pte_at s pgdir va) = true.

Section Copyout.
Context (kend : Z) (Hkend : KERNBASE < kend).

Lemma uva2ka_ok cur s pgdir l va : as_ok kend s pgdir l -> 0 <= va < KERNBASE -> user_ok s pgdir va ->
  uva2ka cur pgdir va s = Ok (upage s pgdir va) s.
Proof.
  intros Has Hva (Hd & Hp & Hu). unfold uva2ka.
  rewrite (bind_ok _ _ _ _ _ (walk_present s pgdir va false Hd)).
  destruct (pt_tab _ _ _ _ (as_pt _ _ _ _ Has) _ (PDX_range va) Hd) as (Hvt & _).
  pose proof (valid_page_pos kend _ Hvt). pose proof (PTX_range va).
  destruct (Z.eqb_spec (tab_at s pgdir (PDX va) + 4 * PTX va) 0); [lia|].
  assert (ld32 (tab_at s pgdir (PDX va) + 4 * PTX va) s = pte_at s pgdir va) as E
    by (unfold pte_at; by rewrite Hd).
  rewrite (bind_ok _ _ _ (pte_at s pgdir va) s) by (unfold gets; by rewrite E).
  by rewrite Hp, Hu.
Qed.

(** Storing into a user page. *)
Lemma store_user s pgdir l va bs : as_ok kend s pgdir l -> 0 <= va < KERNBASE ->
  has PTE_P (pte_at s pgdir va) = true ->
  va mod PGSIZE + Z.of_nat (length bs) <= PGSIZE ->
  let s' := store_bytes (upage s pgdir va + va mod PGSIZE) bs s in
  as_ok kend s' pgdir l /\
  (forall i, 0 <= i < 1024 -> pde_at s' pgdir i = pde_at s pgdir i) /\
  (forall va', pte_at s' pgdir va' = pte_at s pgdir va') /\
  page_at (upage s pgdir va) s' =
    splice (Z.to_nat (va mod PGSIZE)) bs (page_at (upage s pgdir va) s) /\
  (forall q, valid_page kend q -> q <> upage s pgdir va -> page_at q s' = page_at q s).
Proof.
  intros Has Hva Hp Hb s'. destruct (user_outside kend s pgdir l va Has Hva Hp) as [Hq (Hql & Hqd & Hqt)].
  destruct Has as [Hpt Hu Hinj]. pose proof (pt_free _ _ _ _ Hpt) as (Hc & Hnd & Hf & Hlen).
  set (q := upage s pgdir va) in *. pose proof (Z.mod_pos_bound va PGSIZE ltac:(done)) as Hmod.
  assert ((q + va mod PGSIZE) mod PGSIZE = va mod PGSIZE) as Eoff.
  { rewrite Zplus_mod, (proj1 Hq), Z.add_0_l, !Z.mod_mod by done. done. }
  assert (page_base (q + va mod PGSIZE) = q) as Eb by (unfold page_base; rewrite Eoff; lia).
  pose proof (page_base_id q (proj1 Hq)) as Eq.
  assert (page_at q s' = splice (Z.to_nat (va mod PGSIZE)) bs (page_at q s)) as Epage.
  { unfold s', store_bytes. rewrite page_at_set, decide_True by congruence.
    unfold page_off, page_at. by rewrite Eoff, Eb, Eq. }
  assert (forall p, page_base p <> q -> page_at p s' = page_at p s) as Hfr.
  { intros p Hpq. unfold s', store_bytes. by rewrite page_at_set, Eb, decide_False. }
  destruct (tables_frame kend s s' pgdir l q Hpt Hq Hfr Hqd Hqt) as [Hpde Hpte].
  split_and!; [|done|done|done|].
  2:{ intros p Hvp Hne. apply Hfr. by rewrite (page_base_id p (proj1 Hvp)). }
  assert (free_list kend s' l) as Hfl.
  { split; [|split; [done|split; [done|]]].
    - eapply free_chain_ext; [|exact Hc]. intros p Hpl. unfold ld32. rewrite Hfr; [done|].
      rewrite Forall_forall in Hf. rewrite (page_base_id p (proj1 (Hf p Hpl))). intros ->. done.
    - intros p Hvp. destruct (decide (p = q)) as [->|Hne].
      + rewrite Epage, length_splice; [by apply Hlen|]. rewrite Hlen by done. unfold PGSIZE in *. lia.
      + rewrite Hfr by (by rewrite (page_base_id p (proj1 Hvp))). by apply Hlen. }
  split.
  - eapply pt_ok_frame; [done|done|done|apply (pt_dir _ _ _ _ Hpt)|].
    intros i Hi Hpi. by destruct (pt_tab _ _ _ _ Hpt i Hi Hpi) as (_ & ? & _).
  - intros v Hv. unfold upage. rewrite !Hpte. intros Hpv.
    destruct (Hu v Hv Hpv) as (H1 & H2 & H3 & H4). split_and!; [done|done|done|].
    intros i Hi. unfold tab_at. rewrite Hpde by done. by apply H4.
  - intros v1 v2 H1 H2. unfold upage. rewrite !Hpte. by apply Hinj.
Qed.

Lemma aget_splice off (bs d : list Z) i : (off + length bs <= length d)%nat -> 0 <= i ->
  aget 0 (splice off bs d) i =
    if decide (Z.of_nat off <= i < Z.of_nat off + Z.of_nat (length bs))
    then aget 0 bs (i - Z.of_nat off) else aget 0 d i.
Proof.
  intros Hl Hi. unfold aget. destruct (Z.ltb_spec i 0); [lia|]. case_decide as E.
  - destruct (Z.ltb_spec (i - Z.of_nat off) 0); [lia|].
    rewrite lookup_splice_in by lia. do 2 f_equal. lia.
  - by rewrite lookup_splice_out by lia.
Qed.

(** The bytes of a store into the page of [va], as user code sees them. *)
Lemma store_user_bytes s pgdir l va bs : as_ok kend s pgdir l -> 0 <= va < KERNBASE ->
  has PTE_P (pte_at s pgdir va) = true ->
  va mod PGSIZE + Z.of_nat (length bs) <= PGSIZE ->
  let s' := store_bytes (upage s pgdir va + va mod PGSIZE) bs s in
  forall v, 0 <= v < KERNBASE -> has PTE_P (pte_at s pgdir v) = true ->
    user_byte s' pgdir v =
      if decide (va <= v < va + Z.of_nat (length bs)) then aget 0 bs (v - va) else user_byte s pgdir v.
Proof.
  intros Has Hva Hp Hb s' v Hv Hpv.
  destruct (store_user s pgdir l va bs Has Hva Hp Hb) as (_ & _ & Hpte & Epage & Hother). fold s' in Hpte, Epage, Hother.
  pose proof (pt_free _ _ _ _ (as_pt _ _ _ _ Has)) as (_ & _ & _ & Hlen).
  destruct (user_outside kend s pgdir l va Has Hva Hp) as [Hq _].
  destruct (user_outside kend s pgdir l v Has Hv Hpv) as [Hqv _].
  pose proof (Z.div_mod v PGSIZE ltac:(done)). pose proof (Z.div_mod va PGSIZE ltac:(done)).
  pose proof (Z.mod_pos_bound v PGSIZE ltac:(done)). pose proof (Z.mod_pos_bound va PGSIZE ltac:(done)).
  assert (upage s' pgdir v = upage s pgdir v) as Eu by (unfold upage; by rewrite Hpte).
  unfold user_byte. rewrite Eu. destruct (decide (v / PGSIZE = va / PGSIZE)) as [E|E].
  - assert (upage s pgdir v = upage s pgdir va) as ->.
    { unfold upage, pte_at. destruct (indices_page v va E) as [-> ->]. done. }
    rewrite Epage, aget_splice; [|rewrite Hlen by done; unfold PGSIZE in *; lia|lia].
    rewrite !Z2Nat.id by lia. rewrite E in *. repeat case_decide; try lia; try done. f_equal. lia.
  - rewrite Hother; [|done|by apply (as_inj _ _ _ _ Has)].
    rewrite decide_False; [done|]. intros Hr. apply E.
    symmetry. apply (Z.div_unique _ _ _ (v - PGSIZE * (va / PGSIZE))); [left|]; lia.
Qed.

Lemma user_ok_page s pgdir va va' : va / PGSIZE = va' / PGSIZE ->
  user_ok s pgdir va -> user_ok s pgdir va'.
Proof.
  intros E. unfold user_ok, pte_at. destruct (indices_page va va' E) as [-> ->]. done.
Qed.

Lemma aget_app_r (a b : list Z) i : Z.of_nat (length a) <= i ->
  aget 0 (a ++ b) i = aget 0 b (i - Z.of_nat (length a)).
Proof.
  intros H. unfold aget. destruct (Z.ltb_spec i 0); [lia|].
  destruct (Z.ltb_spec (i - Z.of_nat (length a)) 0); [lia|].
  rewrite lookup_app_r by lia. do 2 f_equal. lia.
Qed.

Lemma aget_app_l (a b : list Z) i : 0 <= i < Z.of_nat (length a) -> aget 0 (a ++ b) i = aget 0 a i.
Proof.
  intros H. unfold aget. destruct (Z.ltb_spec i 0); [lia|]. by rewrite lookup_app_l by lia.
Qed.

Lemma copyout_loop_spec f cur pgdir va buf s l :
  as_ok kend s pgdir l -> 0 <= va -> va + Z.of_nat (length buf) <= KERNBASE ->
  (length buf < f)%nat ->
  (forall v, va <= v < va + Z.of_nat (length buf) -> user_ok s pgdir v) ->
  exists s', copyout_loop f cur pgdir va buf s = Ok 0 s' /\ as_ok kend s' pgdir l /\
    (forall v, pte_at s' pgdir v = pte_at s pgdir v) /\
    (forall v, 0 <= v < KERNBASE -> has PTE_P (pte_at s pgdir v) = true ->
       user_byte s' pgdir v =
         if decide (va <= v < va + Z.of_nat (length buf)) then aget 0 buf (v - va)
         else user_byte s pgdir v).
Proof using Hkend.
  revert va buf s. induction f as [|f IH]; intros va buf s Has Hva Hb Hf Hu; [lia|].
  destruct buf as [|x buf]; cbn [copyout_loop].
  { exists s. split_and!; try done. intros v Hv _. by rewrite decide_False by (simpl; lia). }
  set (b := x :: buf) in *. assert (0 < Z.of_nat (length b)) as Hpos by (simpl; lia).
  destruct (aligned_down va ltac:(unfold KERNBASE in *; lia)) as (Hm0 & Hd0 & Hr0 & E0).
  set (va0 := PGROUNDDOWN va) in *.
  pose proof (Z.div_mod va PGSIZE ltac:(done)). pose proof (Z.mod_pos_bound va PGSIZE ltac:(done)).
  pose proof (Hu va ltac:(lia)) as Hua.
  assert (user_ok s pgdir va0) as Hu0 by (apply (user_ok_page s pgdir va); done).
  rewrite (bind_ok _ _ _ _ _ (uva2ka_ok cur s pgdir l va0 Has ltac:(lia) Hu0)).
  assert (upage s pgdir va0 = upage s pgdir va) as ->.
  { unfold upage, pte_at. destruct (indices_page va0 va Hd0) as [-> ->]. done. }
  destruct (user_outside kend s pgdir l va Has ltac:(lia) (proj1 (proj2 Hua))) as [Hq _].
  pose proof (valid_page_pos kend _ Hq). destruct (Z.eqb_spec (upage s pgdir va) 0) as [|_]; [lia|].
  replace (va - va0) with (va mod PGSIZE) by lia.
  set (n := if PGSIZE - va mod PGSIZE >? Z.of_nat (length b) then Z.of_nat (length b) else PGSIZE - va mod PGSIZE).
  assert (0 < n <= Z.of_nat (length b) /\ n <= PGSIZE - va mod PGSIZE /\
    (n = PGSIZE - va mod PGSIZE \/ n = Z.of_nat (length b))) as (Hn1 & Hn2 & Hn3).
  { unfold n. rewrite Z.gtb_ltb. destruct (Z.ltb_spec (Z.of_nat (length b)) (PGSIZE - va mod PGSIZE)); lia. }
  assert (length (take (Z.to_nat n) b) = Z.to_nat n) as Hlt by (rewrite length_take; lia).
  destruct (store_user s pgdir l va (take (Z.to_nat n) b) Has ltac:(lia) (proj1 (proj2 Hua)) ltac:(lia))
    as (Has1 & Hpde1 & Hpte1 & _).
  pose proof (store_user_bytes s pgdir l va (take (Z.to_nat n) b) Has ltac:(lia) (proj1 (proj2 Hua)) ltac:(lia)) as Hby.
  set (s1 := store_bytes _ _ s) in *. rewrite (bind_ok _ _ _ tt s1) by done.
  rewrite (u32_id (va0 + PGSIZE)) by (unfold PGSIZE, KERNBASE in *; lia).
  set (rest := drop (Z.to_nat n) b).
  assert (length rest = (length b - Z.to_nat n)%nat) as Hlr by apply length_drop.
  assert (b = take (Z.to_nat n) b ++ rest) as Eb by (unfold rest; by rewrite take_drop).
  destruct (decide (n = Z.of_nat (length b))) as [En|En].
  - (* the last page *)
    assert (rest = []) as -> by (apply nil_length_inv; lia).
    exists s1. split; [destruct f; done|]. split_and!; [done|done|].
    intros v Hv Hp. rewrite (Hby v Hv Hp), Hlt. rewrite take_ge by lia.
    rewrite Z2Nat.id by lia. by rewrite En.
  - assert (va0 + PGSIZE = va + n) as Enext by lia. rewrite Enext.
    destruct (IH (va + n) rest s1) as (s' & E' & Has' & Hpte' & Hby').
    + done.
    + lia.
    + lia.
    + lia.
    + intros v Hv. destruct (Hu v ltac:(lia)) as (Ha1 & Ha2 & Ha3). unfold user_ok.
      rewrite Hpte1, Hpde1 by apply PDX_range. done.
    + exists s'. split_and!; [done|done|intros v; by rewrite Hpte'|].
      intros v Hv Hp. rewrite Hby' by (done || by rewrite Hpte1). rewrite (Hby v Hv Hp), Hlt, Hlr.
      rewrite Z2Nat.id by lia.
      replace (aget 0 b (v - va)) with (aget 0 (take (Z.to_nat n) b ++ rest) (v - va)) by (by rewrite <- Eb).
      repeat case_decide; try lia; try done.
      * rewrite aget_app_r by lia. f_equal. lia.
      * rewrite aget_app_l by lia. done.
Qed.

End Copyout.

Lemma allocuvm_spec kend pgdir oldsz newsz s l :
  KERNBASE < kend -> as_ok kend s pgdir l -> 0 <= oldsz <= newsz -> newsz < KERNBASE ->
  (forall va, 0 <= va < 2 ^ 32 -> PGROUNDUP oldsz <= PGSIZE * (va / PGSIZE) < newsz ->
     has PTE_P (pte_at s pgdir va) = false) ->
  exists r s' l', allocuvm kend pgdir oldsz newsz s = Ok r s' /\ as_ok kend s' pgdir l' /\
    account s s' pgdir l l' /\ uframe kend s s' pgdir l l' /\
    (r = newsz /\ grown s s' pgdir (PGROUNDUP oldsz) newsz \/
     r = 0 /\ unmapped s s' pgdir (PGROUNDUP oldsz) newsz).
Proof.
  intros Hk Has Ho Hn Hf. unfold allocuvm. rewrite Z.geb_leb, (proj2 (Z.leb_gt _ _)) by lia.
  rewrite (proj2 (Z.ltb_ge _ _)) by lia.
  destruct (pground_up oldsz) as (_ & Hb & Hm); [lia|unfold PGSIZE, KERNBASE in *; lia|].
  apply (allocuvm_loop_spec kend Hk _ pgdir (PGROUNDUP oldsz) oldsz newsz s l); try done.
  pose proof (Z.mul_succ_div_gt newsz PGSIZE ltac:(done)).
  pose proof (Z.div_pos newsz PGSIZE ltac:(lia) ltac:(done)).
  rewrite Nat2Z.inj_succ, Z2Nat.id by done. lia.
Qed.

(** [mappages] maps the pages of its range, and only them, to
    consecutive physical pages with the given permissions, when none of them
    is mapped yet; it fails only when memory for page tables runs out, and it
    does not panic, lose a page table or touch any other page in use. *)
Theorem mappages_correct kend pgdir va size pa perm s l :
  pt_ok kend s pgdir l -> 0 <= va -> 0 < size -> va + size <= 2 ^ 32 -> 0 <= pa < 2 ^ 32 ->
  let k := Z.to_nat ((va + size - 1) / PGSIZE - va / PGSIZE + 1) in
  (forall va', va / PGSIZE <= va' / PGSIZE <= (va + size - 1) / PGSIZE ->
     0 <= va' < 2 ^ 32 -> has PTE_P (pte_at s pgdir va') = false) ->
  exists j s' l', (j <= k)%nat /\
    mappages pgdir va size pa perm s = Ok (if decide (j = k) then 0 else -1) s' /\
    pt_ok kend s' pgdir l' /\ (j <> k -> l' = []) /\ mapped s s' pgdir va pa perm j /\
    frame kend s s' pgdir l l'.
Proof.
  intros Hok H1 H2 H3 H4 k Hf.
  destruct (mappages_spec kend pgdir va size pa perm s l Hok H1 H2 H3 H4 Hf)
    as (j & s' & l' & ? & ? & ? & ? & ? & ? & ? & _). exists j, s', l'. done.
Qed.

(** C28.  [allocuvm] either grows the address space to [newsz] with zeroed
    pages that user code can read and write, or returns 0 with every page of the
    growth unmapped.  In both cases the mappings and the contents of the pages it
    had are kept, every page taken from the allocator is a page of the address
    space or free again (a failure may leave new page tables behind, in the
    directory; no page is lost), and the pages of others are not touched; it
    never panics. *)
Theorem allocuvm_correct kend pgdir oldsz newsz s l :
  KERNBASE < kend -> as_ok kend s pgdir l -> 0 <= oldsz <= newsz -> newsz < KERNBASE ->
  (forall va, 0 <= va < 2 ^ 32 -> PGROUNDUP oldsz <= PGSIZE * (va / PGSIZE) < newsz ->
     has PTE_P (pte_at s pgdir va) = false) ->
  exists r s' l', allocuvm kend pgdir oldsz newsz s = Ok r s' /\ as_ok kend s' pgdir l' /\
    account s s' pgdir l l' /\ uframe kend s s' pgdir l l' /\
    (r = newsz /\ grown s s' pgdir (PGROUNDUP oldsz) newsz \/
     r = 0 /\ unmapped s s' pgdir (PGROUNDUP oldsz) newsz).
Proof. apply allocuvm_spec. Qed.

(** [deallocuvm] frees exactly the user pages between the two sizes,
    returns the new size, and leaves every other translation as it was. *)
Theorem deallocuvm_correct kend pgdir oldsz newsz s l :
  KERNBASE < kend -> as_ok kend s pgdir l -> 0 <= newsz < oldsz -> oldsz <= KERNBASE ->
  exists s' l', deallocuvm kend pgdir oldsz newsz s = Ok newsz s' /\ as_ok kend s' pgdir l' /\
    l ⊆ l' /\ unmapped s s' pgdir (PGROUNDUP newsz) oldsz.
Proof.
  intros Hk Has Hn Ho.
  destruct (deallocuvm_spec kend Hk pgdir oldsz newsz s l Has Hn Ho) as (s' & l' & ? & ? & ? & ? & _).
  exists s', l'. done.
Qed.

(** C29.  [copyout] to mapped user memory succeeds, whatever page directory [cur] is
    loaded: user code then reads the copied bytes at the destination and what it
    had everywhere else. *)
Theorem copyout_correct kend cur pgdir va buf s l :
  KERNBASE < kend -> as_ok kend s pgdir l -> 0 <= va -> va + Z.of_nat (length buf) <= KERNBASE ->
  (forall v, va <= v < va + Z.of_nat (length buf) -> user_ok s pgdir v) ->
  exists s', copyout cur pgdir va buf s = Ok 0 s' /\ as_ok kend s' pgdir l /\
    (forall v, 0 <= v < KERNBASE -> has PTE_P (pte_at s pgdir v) = true ->
       user_byte s' pgdir v =
         if decide (va <= v < va + Z.of_nat (length buf)) then aget 0 buf (v - va)
         else user_byte s pgdir v).
Proof.
  intros Hk Has Hva Hb Hu.
  destruct (copyout_loop_spec kend Hk (S (length buf)) cur pgdir va buf s l Has Hva Hb ltac:(lia) Hu)
    as (s' & ? & ? & _ & ?). exists s'. done.
Qed.

(** ** A small machine *)

Module VmExample.

(** A zeroed page directory and two free pages at the top of memory. *)
Definition kend3 : Z := KERNBASE + PHYSTOP - 3 * PGSIZE.
Definition dir : Z := kend3.
Definition page1 : Z := kend3 + PGSIZE.
Definition page2 : Z := kend3 + 2 * PGSIZE.
Definition zeros : list Z := replicate (Z.to_nat PGSIZE) 0.
Definition vm0 : kmem :=
  mkkmem true page1 (<[dir := zeros]> (<[page1 := put32 0 page2 zeros]> {[page2 := zeros]})).

Lemma valid3 p : valid_page kend3 p <-> p = dir \/ p = page1 \/ p = page2.
Proof.
  unfold valid_page, dir, page1, page2, kend3, KERNBASE, PHYSTOP, PGSIZE. split.
  - intros (H1 & H2 & H3 & H4). pose proof (Z.div_mod p 4096 ltac:(lia)). lia.
  - intros [->|[->| ->]]; (split; [reflexivity|lia]).
Qed.

Lemma vm0_free : free_list kend3 vm0 [page1; page2].
Proof.
  split; [|split; [|split]].
  - split; [done|]. split; [vm_compute; reflexivity|vm_compute; reflexivity].
  - apply (bool_decide_unpack _). vm_compute. done.
  - repeat constructor; apply valid3; tauto.
  - intros p Hp. apply valid3 in Hp as [->|[->| ->]]; vm_compute; reflexivity.
Qed.

Lemma vm0_pde i : 0 <= i < 1024 -> pde_at vm0 dir i = 0.
Proof.
  intros Hi. unfold pde_at, ld32. destruct (word_addr dir i ltac:(reflexivity) Hi) as [Hb Ho].
  rewrite Ho. unfold page_at. rewrite Hb. unfold vm0. cbn [pages]. rewrite lookup_insert_eq.
  cbn [default]. unfold zeros. apply get32_zeros. unfold PGSIZE. lia.
Qed.

Lemma vm0_pte va : pte_at vm0 dir va = 0.
Proof. unfold pte_at. rewrite vm0_pde by apply PDX_range. done. Qed.

Lemma vm0_as : as_ok kend3 vm0 dir [page1; page2].
Proof.
  split; [split| |].
  - apply vm0_free.
  - split; [apply valid3; by left|]. apply (bool_decide_unpack _). vm_compute. done.
  - intros i Hi. rewrite vm0_pde by done. done.
  - intros i j Hi Hj _. rewrite vm0_pde by done. done.
  - intros va Hva. rewrite vm0_pte. done.
  - intros va va' Hva Hva'. rewrite vm0_pte. done.
Qed.

Lemma kend3_high : KERNBASE < kend3.
Proof. unfold kend3, KERNBASE, PHYSTOP, PGSIZE. lia. Qed.

(** The address space grown to one page. *)
Lemma one_page : exists s l, allocuvm kend3 dir 0 PGSIZE vm0 = Ok PGSIZE s /\ as_ok kend3 s dir l /\
  (forall v, 0 <= v < PGSIZE -> user_ok s dir v).
Proof.
  destruct (allocuvm_loop_spec kend3 kend3_high 2 dir (PGROUNDUP 0) 0 PGSIZE vm0 [page1; page2])
    as (r & s & l & E & Has & _ & _ & Hcase);
    [apply vm0_as|reflexivity|lia|unfold PGSIZE; lia|reflexivity|change (PGROUNDUP 0) with 0; unfold PGSIZE; simpl; lia
    |intros va _ _; by rewrite vm0_pte|].
  destruct Hcase as [[-> Hg]|[-> _]]; [|exfalso; vm_compute in E; congruence].
  exists s, l. split; [exact E|]. split; [exact Has|]. intros v Hv. destruct (Hg v) as [[Hfl [Hp _]] _]; [unfold PGSIZE in *; lia| |].
  - rewrite (Z.div_small v PGSIZE) by done. vm_compute. split; congruence.
  - split_and!; [|done|].
    + unfold pte_at in Hp. by destruct (has PTE_P (pde_at s dir (PDX v))).
    + unfold has, PTE_U. unfold PTE_FLAGS in Hfl.
      assert (Z.land (pte_at s dir v) 4 = 4) as ->; [|done].
      change 4 with (Z.land 4095 4) at 1. by rewrite Z.land_assoc, Hfl.
Qed.

End VmExample.
Import VmExample.

Lemma mappages_correct_witness : exists j s' l', (j <= 1)%nat /\
  mappages dir 8192 PGSIZE (V2P page2) 6 vm0 = Ok (if decide (j = 1%nat) then 0 else -1) s' /\
  pt_ok kend3 s' dir l' /\ (j <> 1%nat -> l' = []) /\ mapped vm0 s' dir 8192 (V2P page2) 6 j /\
  frame kend3 vm0 s' dir [page1; page2] l'.
Proof.
  apply (mappages_correct kend3 dir 8192 PGSIZE (V2P page2) 6 vm0 [page1; page2]).
  - apply vm0_as.
  - lia.
  - reflexivity.
  - unfold PGSIZE. lia.
  - vm_compute. split; congruence.
  - intros va' _ _. by rewrite vm0_pte.
Defined.

Lemma allocuvm_correct_witness : exists r s' l',
  allocuvm kend3 dir 0 4000 vm0 = Ok r s' /\ as_ok kend3 s' dir l' /\
  account vm0 s' dir [page1; page2] l' /\ uframe kend3 vm0 s' dir [page1; page2] l' /\
  (r = 4000 /\ grown vm0 s' dir (PGROUNDUP 0) 4000 \/ r = 0 /\ unmapped vm0 s' dir (PGROUNDUP 0) 4000).
Proof.
  apply (allocuvm_correct kend3 dir 0 4000 vm0 [page1; page2]).
  - apply kend3_high.
  - apply vm0_as.
  - lia.
  - reflexivity.
  - intros va _ _. by rewrite vm0_pte.
Defined.

Lemma deallocuvm_correct_witness : exists s' l',
  deallocuvm kend3 dir 4000 10 vm0 = Ok 10 s' /\ as_ok kend3 s' dir l' /\
  [page1; page2] ⊆ l' /\ unmapped vm0 s' dir (PGROUNDUP 10) 4000.
Proof.
  apply (deallocuvm_correct kend3 dir 4000 10 vm0 [page1; page2]); [apply kend3_high|apply vm0_as|lia|].
  unfold KERNBASE. lia.
Defined.

(** After growing the space to one page, five bytes at address 100. *)
Lemma copyout_correct_witness : exists s l s',
  allocuvm kend3 dir 0 PGSIZE vm0 = Ok PGSIZE s /\
  copyout dir dir 100 [1; 2; 3; 4; 5] s = Ok 0 s' /\ as_ok kend3 s' dir l /\
  (forall v, 0 <= v < KERNBASE -> has PTE_P (pte_at s dir v) = true ->
     user_byte s' dir v =
       if decide (100 <= v < 100 + 5) then aget 0 [1; 2; 3; 4; 5] (v - 100) else user_byte s dir v).
Proof.
  destruct one_page as (s & l & E & Has & Hu).
  destruct (copyout_correct kend3 dir dir 100 [1; 2; 3; 4; 5] s l kend3_high Has) as (s' & E' & H1 & H2);
    [lia|simpl; unfold KERNBASE; lia|intros v Hv; apply Hu; simpl in Hv; unfold PGSIZE; lia|].
  exists s, l, s'. split; [exact E|]. split; [exact E'|]. split; [exact H1|exact H2].
Defined.

(** [copyout] to an address that has no page table reads an entry at address 0,
    where the caller expects -1.  When the process has no page there the kernel
    panics. *)
Lemma copyout_null_pte cur va buf : buf <> [] ->
  has PTE_P (pte_at vm0 cur 0) = false -> copyout cur dir va buf vm0 = Panic "trap".
Proof.
  intros Hb Hc. unfold copyout. destruct buf as [|x buf]; [done|]. cbn [copyout_loop length].
  assert (forall v, uva2ka cur dir v vm0 = Panic "trap") as E.
  { intros v. unfold uva2ka. rewrite (bind_ok _ _ _ 0 vm0); [|by apply walk_absent; rewrite vm0_pde by apply PDX_range].
    rewrite bind_unfold. unfold kload. cbn [Z.eqb]. msimpl. by rewrite Hc. }
  rewrite bind_unfold, E. done.
Qed.
