(* ===== verification/Proc.v ===== *)
(** * Processes (system/core/proc.c, include/proc.h)

    The process table, the CPUs and the allocator's memory form one state.
    [ptable.lock] is held over each stretch of code between two context
    switches that touches the table, so each operation below is one step; a
    process that sleeps is a state of the table, and the operation is run
    again when the process has been woken and scheduled.

    [fork] and [exit] are one step each, although what they do to files, memory and
    their own entry is done before [ptable.lock] is taken.

    Open files and inodes are another component's: [ProcEnv] is what proc.c
    needs of it.  A process is named by its index in the table, and a sleep
    channel is the address of a process, another address, or null. *)

From S2P Require Import Prelude Kalloc Vm.

Definition NPROC : nat := 64.
Definition NOFILE : nat := 16.

(** [filedup], [fileclose], [idup], and [begin_op(); iput(); end_op()]. *)
Class ProcEnv (F : Type) := {
  env_filedup : Z -> M F unit;
  env_fileclose : Z -> M F unit;
  env_idup : Z -> M F unit;
  env_iput : Z -> M F unit
}.

Module Proc.

Inductive procstate := UNUSED | EMBRYO | SLEEPING | RUNNABLE | RUNNING | ZOMBIE.
#[global] Instance procstate_eq_dec : EqDecision procstate.
Proof. solve_decision. Defined.

Inductive chan := NoChan | ChProc (i : nat) | ChAddr (a : Z).
#[global] Instance chan_eq_dec : EqDecision chan.
Proof. solve_decision. Defined.

(** The registers that the code names, and the others. *)
Record trapframe := mktf { tf_eax : Z; tf_regs : list Z }.

Record proc := mkproc {
  sz : Z;
  pgdir : Z;
  kstack : Z;
  state : procstate;
  pid : Z;
  parent : option nat;
  tf : trapframe;
  context_eip : Z;
  pchan : chan;
  killed : bool;
  ofile : list Z;
  cwd : Z;
  name : list Z
}.

Definition proc0 : proc :=
  mkproc 0 0 0 UNUSED 0 None (mktf 0 []) 0 NoChan false (replicate NOFILE 0) 0 [].

Definition set_sz v p := mkproc v (pgdir p) (kstack p) (state p) (pid p) (parent p) (tf p) (context_eip p) (pchan p) (killed p) (ofile p) (cwd p) (name p).
Definition set_pgdir v p := mkproc (sz p) v (kstack p) (state p) (pid p) (parent p) (tf p) (context_eip p) (pchan p) (killed p) (ofile p) (cwd p) (name p).
Definition set_kstack v p := mkproc (sz p) (pgdir p) v (state p) (pid p) (parent p) (tf p) (context_eip p) (pchan p) (killed p) (ofile p) (cwd p) (name p).
Definition set_state v p := mkproc (sz p) (pgdir p) (kstack p) v (pid p) (parent p) (tf p) (context_eip p) (pchan p) (killed p) (ofile p) (cwd p) (name p).
Definition set_pid v p := mkproc (sz p) (pgdir p) (kstack p) (state p) v (parent p) (tf p) (context_eip p) (pchan p) (killed p) (ofile p) (cwd p) (name p).
Definition set_parent v p := mkproc (sz p) (pgdir p) (kstack p) (state p) (pid p) v (tf p) (context_eip p) (pchan p) (killed p) (ofile p) (cwd p) (name p).
Definition set_tf v p := mkproc (sz p) (pgdir p) (kstack p) (state p) (pid p) (parent p) v (context_eip p) (pchan p) (killed p) (ofile p) (cwd p) (name p).
Definition set_context v p := mkproc (sz p) (pgdir p) (kstack p) (state p) (pid p) (parent p) (tf p) v (pchan p) (killed p) (ofile p) (cwd p) (name p).
Definition set_chan v p := mkproc (sz p) (pgdir p) (kstack p) (state p) (pid p) (parent p) (tf p) (context_eip p) v (killed p) (ofile p) (cwd p) (name p).
Definition set_killed v p := mkproc (sz p) (pgdir p) (kstack p) (state p) (pid p) (parent p) (tf p) (context_eip p) (pchan p) v (ofile p) (cwd p) (name p).
Definition set_ofile v p := mkproc (sz p) (pgdir p) (kstack p) (state p) (pid p) (parent p) (tf p) (context_eip p) (pchan p) (killed p) v (cwd p) (name p).
Definition set_cwd v p := mkproc (sz p) (pgdir p) (kstack p) (state p) (pid p) (parent p) (tf p) (context_eip p) (pchan p) (killed p) (ofile p) v (name p).
Definition set_name v p := mkproc (sz p) (pgdir p) (kstack p) (state p) (pid p) (parent p) (tf p) (context_eip p) (pchan p) (killed p) (ofile p) (cwd p) v.

(** What the invariant says of a process: its state, pid and parent. *)
Definition view : Type := procstate * Z * option nat.
Definition view_of (p : proc) : view := (state p, pid p, parent p).
Definition vst (v : view) : procstate := v.1.1.
Definition vpid (v : view) : Z := v.1.2.
Definition vpar (v : view) : option nat := v.2.

Definition alive (st : procstate) : Prop := st = SLEEPING \/ st = RUNNABLE \/ st = RUNNING.

(** A process runs on exactly one CPU if it is RUNNING and on none otherwise;
    the pids in use are distinct and below [nextpid]; init and every parent
    are alive. *)
Record vinv (vs : list view) (cp : list (option nat)) (np : Z) (ini : nat) : Prop := {
  v_cpu : forall c i, cp !! c = Some (Some i) -> vst <$> vs !! i = Some RUNNING;
  v_run : forall i, vst <$> vs !! i = Some RUNNING -> exists c, cp !! c = Some (Some i);
  v_one : forall c c' i, cp !! c = Some (Some i) -> cp !! c' = Some (Some i) -> c = c';
  v_pid : forall i v, vs !! i = Some v -> vst v <> UNUSED -> 0 < vpid v < np;
  v_next : 0 < np < 2 ^ 31;
  v_uniq : forall i j v w, vs !! i = Some v -> vs !! j = Some w ->
    vst v <> UNUSED -> vst w <> UNUSED -> vpid v = vpid w -> i = j;
  v_init : exists v, vs !! ini = Some v /\ alive (vst v);
  v_parent : forall i v q, vs !! i = Some v -> vpar v = Some q ->
    exists w, vs !! q = Some w /\ alive (vst w)
}.

Section Ops.
Context {F : Type} `{!ProcEnv F}.
(** [end] and [data] of the linker, and the address of [forkret]. *)
Context (kend kdata forkret : Z).

Record psys := mkpsys {
  procs : list proc;
  nextpid : Z;
  initproc : nat;
  cpus : list (option nat);   (** [c->proc] of each CPU *)
  km : kmem;
  fenv : F
}.

Definition set_procs v s := mkpsys v (nextpid s) (initproc s) (cpus s) (km s) (fenv s).
Definition set_nextpid v s := mkpsys (procs s) v (initproc s) (cpus s) (km s) (fenv s).
Definition set_cpus v s := mkpsys (procs s) (nextpid s) (initproc s) v (km s) (fenv s).

Definition on_km {A} (m : M kmem A) : M psys A := fun s =>
  match m (km s) with
  | Ok a k => Ok a (mkpsys (procs s) (nextpid s) (initproc s) (cpus s) k (fenv s))
  | Panic msg => Panic msg
  | Asleep _ => NoFuel
  | NoFuel => NoFuel
  end.

Definition on_env {A} (m : M F A) : M psys A := fun s =>
  match m (fenv s) with
  | Ok a f => Ok a (mkpsys (procs s) (nextpid s) (initproc s) (cpus s) (km s) f)
  | Panic msg => Panic msg
  | Asleep f => Asleep (mkpsys (procs s) (nextpid s) (initproc s) (cpus s) (km s) f)
  | NoFuel => NoFuel
  end.

Definition proc_at (i : nat) (s : psys) : proc := default proc0 (procs s !! i).
Definition upd (i : nat) (f : proc -> proc) : M psys unit :=
  modify (fun s => set_procs (alter f i (procs s)) s).

(** The first index that satisfies [f]: a loop over [ptable.proc]. *)
Fixpoint find_proc (f : proc -> bool) (i : nat) (l : list proc) : option nat :=
  match l with
  | [] => None
  | p :: l' => if f p then Some i else find_proc f (S i) l'
  end.

Definition allocproc : M psys (option nat) :=
  s ← get;
  match find_proc (fun p => bool_decide (state p = UNUSED)) 0 (procs s) with
  | None => mret None
  | Some i =>
      upd i (set_state EMBRYO) ;;
      upd i (set_pid (nextpid s)) ;;
      modify (set_nextpid (s32 (nextpid s + 1))) ;;
      k ← on_km kalloc;
      upd i (set_kstack k) ;;
      if k =? 0 then upd i (set_state UNUSED) ;; mret None
      else upd i (set_context forkret) ;; mret (Some i)
  end.

(** [growproc(n)] by the process [cur]. *)
Definition growproc (cur : nat) (n : Z) : M psys Z :=
  p ← gets (proc_at cur);
  let set sz' := upd cur (set_sz sz') ;; mret 0 in
  if n >? 0
  then sz' ← on_km (allocuvm kend (pgdir p) (sz p) (u32 (sz p + n)));
       if sz' =? 0 then mret (-1) else set sz'
  else if n <? 0
  then sz' ← on_km (deallocuvm kend (pgdir p) (sz p) (u32 (sz p + n)));
       if sz' =? 0 then mret (-1) else set sz'
  else set (sz p).

(** [filedup] of every open file. *)
Fixpoint dup_files (fs : list Z) : M psys unit :=
  match fs with
  | [] => mret tt
  | f :: fs' => when (negb (f =? 0)) (on_env (env_filedup f)) ;; dup_files fs'
  end.

Definition fork (cur : nat) : M psys Z :=
  np ← allocproc;
  match np with
  | None => mret (-1)
  | Some np =>
      p ← gets (proc_at cur);
      d ← on_km (copyuvm kend kdata (pgdir p) (sz p));
      upd np (set_pgdir d) ;;
      if d =? 0
      then
        c ← gets (proc_at np);
        on_km (kfree kend (kstack c)) ;;
        upd np (set_kstack 0) ;;
        upd np (set_state UNUSED) ;;
        mret (-1)
      else
        upd np (set_sz (sz p)) ;;
        upd np (set_parent (Some cur)) ;;
        upd np (set_tf (mktf 0 (tf_regs (tf p)))) ;;
        dup_files (ofile p) ;;
        upd np (fun c => set_ofile (zip_with (fun f g => if f =? 0 then g else f) (ofile p) (ofile c)) c) ;;
        on_env (env_idup (cwd p)) ;;
        upd np (set_cwd (cwd p)) ;;
        upd np (set_name (take 15 (name p))) ;;
        c ← gets (proc_at np);
        upd np (set_state RUNNABLE) ;;
        mret (pid c)
  end.

Definition wakeup1 (ch : chan) : M psys unit :=
  modify (fun s => set_procs (map (fun p =>
    if bool_decide (state p = SLEEPING) && bool_decide (pchan p = ch)
    then set_state RUNNABLE p else p) (procs s)) s).

Definition wakeup (ch : chan) : M psys unit := wakeup1 ch.

(** [swtch] to the scheduler of the CPU [c]: the CPU runs no process.  The
    locks and interrupt flag that [sched] also checks are those of the calling
    code, which holds [ptable.lock] only. *)
Definition sched (c cur : nat) : M psys unit :=
  p ← gets (proc_at cur);
  if bool_decide (state p = RUNNING) then panic "sched running" else
  modify (fun s => set_cpus (<[c := None]> (cpus s)) s).

(** [scheduler] finds the process [i] runnable. *)
Definition schedule (c i : nat) : M psys bool :=
  s ← get;
  if bool_decide (cpus s !! c = Some None) && bool_decide (state <$> procs s !! i = Some RUNNABLE)
  then
    modify (fun s => set_cpus (<[c := Some i]> (cpus s)) s) ;;
    upd i (set_state RUNNING) ;;
    mret true
  else mret false.

Definition yield (c cur : nat) : M psys unit :=
  upd cur (set_state RUNNABLE) ;;
  sched c cur.

(** [sleep] up to the context switch; [p->chan = 0] follows when it returns. *)
Definition sleep (c cur : nat) (ch : chan) : M psys unit :=
  upd cur (set_chan ch) ;;
  upd cur (set_state SLEEPING) ;;
  sched c cur.

Definition sleep_return (cur : nat) : M psys unit := upd cur (set_chan NoChan).

(** [fileclose] of every open file. *)
Fixpoint close_files (cur : nat) (fd : nat) (fs : list Z) : M psys unit :=
  match fs with
  | [] => mret tt
  | f :: fs' =>
      when (negb (f =? 0)) (
        on_env (env_fileclose f) ;;
        upd cur (fun p => set_ofile (<[fd := 0]> (ofile p)) p)) ;;
      close_files cur (S fd) fs'
  end.

(** Pass the children from the index [i] on to init. *)
Fixpoint reparent (cur i : nat) (k : nat) : M psys unit :=
  match k with
  | O => mret tt
  | S k' =>
      s ← get;
      when (bool_decide (parent (proc_at i s) = Some cur)) (
        upd i (set_parent (Some (initproc s))) ;;
        when (bool_decide (state (proc_at i s) = ZOMBIE)) (wakeup1 (ChProc (initproc s)))) ;;
      reparent cur (S i) k'
  end.

Definition exit (c cur : nat) : M psys unit :=
  s ← get;
  if bool_decide (cur = initproc s) then panic "init exiting" else
  p ← gets (proc_at cur);
  close_files cur 0 (ofile p) ;;
  on_env (env_iput (cwd p)) ;;
  upd cur (set_cwd 0) ;;
  wakeup1 (match parent p with Some q => ChProc q | None => NoChan end) ;;
  reparent cur 0 (length (procs s)) ;;
  upd cur (set_state ZOMBIE) ;;
  sched c cur.

(** The scan of [wait]: a zombie child, or whether there are children. *)
Fixpoint wait_scan (cur i : nat) (l : list proc) (havekids : bool) : option nat * bool :=
  match l with
  | [] => (None, havekids)
  | p :: l' =>
      if negb (bool_decide (parent p = Some cur)) then wait_scan cur (S i) l' havekids
      else if bool_decide (state p = ZOMBIE) then (Some i, true)
      else wait_scan cur (S i) l' true
  end.

(** One pass of [wait]'s loop; [None] when the process has gone to sleep. *)
Definition wait (c cur : nat) : M psys (option Z) :=
  s ← get;
  match wait_scan cur 0 (procs s) false with
  | (Some i, _) =>
      p ← gets (proc_at i);
      on_km (kfree kend (kstack p)) ;;
      upd i (set_kstack 0) ;;
      on_km (freevm kend (pgdir p)) ;;
      upd i (set_pid 0) ;;
      upd i (set_parent None) ;;
      upd i (set_name []) ;;
      upd i (set_killed false) ;;
      upd i (set_state UNUSED) ;;
      mret (Some (pid p))
  | (None, havekids) =>
      if negb havekids || killed (proc_at cur s) then mret (Some (-1))
      else sleep c cur (ChProc cur) ;; mret None
  end.

Definition kill (pid' : Z) : M psys Z :=
  s ← get;
  match find_proc (fun p => pid p =? pid') 0 (procs s) with
  | None => mret (-1)
  | Some i =>
      upd i (set_killed true) ;;
      when (bool_decide (state (proc_at i s) = SLEEPING)) (upd i (set_state RUNNABLE)) ;;
      mret 0
  end.

(** The part of [userinit] that concerns the table. *)
Definition userinit (initcode : list Z) (root : Z) : M psys unit :=
  np ← allocproc;
  match np with
  | None => panic "trap"   (* the null process is dereferenced *)
  | Some i =>
      modify (fun s => mkpsys (procs s) (nextpid s) i (cpus s) (km s) (fenv s)) ;;
      d ← on_km (setupkvm kend kdata);
      upd i (set_pgdir d) ;;
      if d =? 0 then panic "userinit: out of memory?" else
      on_km (inituvm d initcode) ;;
      upd i (set_sz PGSIZE) ;;
      upd i (set_tf (mktf 0 [27; 35; 35; 35; 512; PGSIZE; 0])) ;;
      upd i (set_name (cs "initcode")) ;;
      upd i (set_cwd root) ;;
      upd i (set_state RUNNABLE)
  end.

(** ** Steps and invariant *)

(** The process [cur] runs on the CPU [c].  Only [wait] sleeps on the address of
    a process; the other callers of [sleep] use other addresses. *)
Definition runs (c cur : nat) (s : psys) : Prop := cpus s !! c = Some (Some cur).

Inductive step : psys -> psys -> Prop :=
| step_schedule c i b s s' : schedule c i s = Ok b s' -> step s s'
| step_yield c cur s s' : runs c cur s -> yield c cur s = Ok tt s' -> step s s'
| step_sleep c cur a s s' : runs c cur s -> sleep c cur (ChAddr a) s = Ok tt s' -> step s s'
| step_sleep_return c cur s s' : runs c cur s -> sleep_return cur s = Ok tt s' -> step s s'
| step_wakeup ch s s' : wakeup ch s = Ok tt s' -> step s s'
| step_kill pid' r s s' : kill pid' s = Ok r s' -> step s s'
| step_fork c cur r s s' : runs c cur s -> nextpid s < 2 ^ 31 - 1 -> fork cur s = Ok r s' -> step s s'
| step_grow c cur n r s s' : runs c cur s -> growproc cur n s = Ok r s' -> step s s'
| step_exit c cur s s' : runs c cur s -> exit c cur s = Ok tt s' -> step s s'
| step_wait c cur r s s' : runs c cur s -> wait c cur s = Ok r s' -> step s s'.

Definition views (s : psys) : list view := map view_of (procs s).

Definition pinv (s : psys) : Prop := vinv (views s) (cpus s) (nextpid s) (initproc s).

End Ops.

(** ** Changes of the views *)

(** A process may have been woken. *)
Definition ben (v v' : view) : Prop :=
  vpid v' = vpid v /\ vpar v' = vpar v /\ (vst v' = vst v \/ vst v = SLEEPING /\ vst v' = RUNNABLE).

Lemma ben_lookup vs vs' i v' : Forall2 ben vs vs' -> vs' !! i = Some v' ->
  exists v, vs !! i = Some v /\ ben v v'.
Proof. intros H Hi. destruct (Forall2_lookup_r _ _ _ _ _ H Hi) as (v & ? & ?). eauto. Qed.

Lemma ben_lookup_l vs vs' i v : Forall2 ben vs vs' -> vs !! i = Some v ->
  exists v', vs' !! i = Some v' /\ ben v v'.
Proof. intros H Hi. destruct (Forall2_lookup_l _ _ _ _ _ H Hi) as (v' & ? & ?). eauto. Qed.

Lemma ben_alive v v' : ben v v' -> alive (vst v) -> alive (vst v').
Proof. unfold ben, alive. intros (_ & _ & [->|[? ->]]); tauto. Qed.

Lemma ben_running vs vs' i : Forall2 ben vs vs' ->
  vst <$> vs' !! i = Some RUNNING <-> vst <$> vs !! i = Some RUNNING.
Proof.
  intros H. split.
  - intros Hr. destruct (vs' !! i) as [v'|] eqn:E; [|done]. simplify_eq/=.
    destruct (ben_lookup _ _ _ _ H E) as (v & -> & _ & _ & [Hs|[_ Hs]]); simpl; congruence.
  - intros Hr. destruct (vs !! i) as [v|] eqn:E; [|done]. simplify_eq/=.
    destruct (ben_lookup_l _ _ _ _ H E) as (v' & -> & _ & _ & [Hs|[Hs _]]); simpl; congruence.
Qed.

Lemma vinv_ben vs vs' cp np ini : Forall2 ben vs vs' -> vinv vs cp np ini -> vinv vs' cp np ini.
Proof.
  intros H [V1 V2 V3 V4 V5 V6 V7 V8].
  assert (forall i v', vs' !! i = Some v' -> vst v' <> UNUSED ->
    exists v, vs !! i = Some v /\ vst v <> UNUSED /\ vpid v' = vpid v) as Hback.
  { intros i v' Hi Hu. destruct (ben_lookup _ _ _ _ H Hi) as (v & Hv & Hp & _ & Hs).
    exists v. split_and!; [done| |done]. destruct Hs as [Hs|[Hs _]]; congruence. }
  split.
  - intros c i Hc. rewrite ben_running by done. eauto.
  - intros i. rewrite ben_running by done. eauto.
  - done.
  - intros i v' Hi Hu. destruct (Hback i v' Hi Hu) as (v & ? & ? & ->). eauto.
  - done.
  - intros i j v w Hi Hj Hu Hw. destruct (Hback i v Hi Hu) as (v0 & ? & ? & ->).
    destruct (Hback j w Hj Hw) as (w0 & ? & ? & ->). eauto.
  - destruct V7 as (v & Hv & Ha). destruct (ben_lookup_l _ _ _ _ H Hv) as (v' & ? & ?).
    eauto using ben_alive.
  - intros i v q Hi Hq. destruct (ben_lookup _ _ _ _ H Hi) as (v0 & Hv0 & _ & Hpar & _).
    destruct (V8 i v0 q Hv0 ltac:(congruence)) as (w & Hw & Ha).
    destruct (ben_lookup_l _ _ _ _ H Hw) as (w' & ? & ?). eauto using ben_alive.
Qed.

(** A new state for the process [i], alive before and after. *)
Definition vset_st (st : procstate) (v : view) : view := (st, v.1.2, v.2).

Lemma lookup_alter_vst (vs : list view) i j f :
  alter f i vs !! j = if decide (i = j) then f <$> vs !! j else vs !! j.
Proof.
  case_decide as E.
  - subst. apply list_lookup_alter_eq.
  - by apply list_lookup_alter_ne.
Qed.

(** Changing the state between alive states keeps everything but the CPUs. *)
Lemma vinv_set_alive vs i st v np ini (cp cp' : list (option nat)) :
  vs !! i = Some v -> alive (vst v) -> alive st -> vinv vs cp np ini ->
  (forall c j, cp' !! c = Some (Some j) -> vst <$> alter (vset_st st) i vs !! j = Some RUNNING) ->
  (forall j, vst <$> alter (vset_st st) i vs !! j = Some RUNNING -> exists c, cp' !! c = Some (Some j)) ->
  (forall c c' j, cp' !! c = Some (Some j) -> cp' !! c' = Some (Some j) -> c = c') ->
  vinv (alter (vset_st st) i vs) cp' np ini.
Proof.
  intros Hv Ha Ha' [V1 V2 V3 V4 V5 V6 V7 V8] H1 H2 H3.
  assert (forall j w, alter (vset_st st) i vs !! j = Some w ->
    exists w0, vs !! j = Some w0 /\ vpid w = vpid w0 /\ vpar w = vpar w0 /\
      (vst w <> UNUSED -> vst w0 <> UNUSED)) as Hback.
  { intros j w. rewrite lookup_alter_vst. case_decide as E; [subst j|].
    - rewrite Hv. simpl. intros [= <-]. exists v. split_and!; try done.
      intros _ Hu. unfold alive in Ha. rewrite Hu in Ha. naive_solver.
    - intros Hw. exists w. done. }
  assert (forall j w, vs !! j = Some w -> alive (vst w) ->
    exists w', alter (vset_st st) i vs !! j = Some w' /\ alive (vst w')) as Hfwd.
  { intros j w Hj Hal. rewrite lookup_alter_vst. case_decide; [subst j|eauto].
    rewrite Hj. simpl. eauto. }
  split; [done|done|done| |done| | |].
  - intros j w Hj Hu. destruct (Hback j w Hj) as (w0 & Hw0 & -> & _ & Hn). eauto.
  - intros j k w x Hj Hk Hu Hu'. destruct (Hback j w Hj) as (w0 & Hw0 & -> & _ & Hn).
    destruct (Hback k x Hk) as (x0 & Hx0 & -> & _ & Hn'). eauto.
  - destruct V7 as (w & Hw & Hal). eauto.
  - intros j w q Hj Hq. destruct (Hback j w Hj) as (w0 & Hw0 & _ & Hpar & _).
    destruct (V8 j w0 q Hw0 ltac:(congruence)) as (x & Hx & Hal). eauto.
Qed.

Lemma vinv_schedule vs cp np ini c i v :
  cp !! c = Some None -> vs !! i = Some v -> vst v = RUNNABLE -> vinv vs cp np ini ->
  vinv (alter (vset_st RUNNING) i vs) (<[c := Some i]> cp) np ini.
Proof.
  intros Hc Hv Hr Hinv. pose proof Hinv as [V1 V2 V3 _ _ _ _ _].
  assert (forall c', cp !! c' <> Some (Some i)) as Hfree.
  { intros c' H. apply V1 in H. rewrite Hv in H. simpl in H. congruence. }
  eapply vinv_set_alive; [done|unfold alive; tauto|unfold alive; tauto|done| | |].
  - intros c' j. rewrite lookup_alter_vst. destruct (decide (c' = c)) as [->|Hne].
    + rewrite list_lookup_insert_eq by (by eapply lookup_lt_Some). intros [= <-].
      rewrite decide_True by done. rewrite Hv. done.
    + rewrite list_lookup_insert_ne by done. intros Hj. case_decide as E; [subst; by apply Hfree in Hj|eauto].
  - intros j. rewrite lookup_alter_vst. case_decide as E.
    + subst. intros _. exists c. apply list_lookup_insert_eq. by eapply lookup_lt_Some.
    + intros Hj. destruct (V2 j Hj) as [c' Hc']. exists c'.
      rewrite list_lookup_insert_ne; [done|]. intros ->. congruence.
  - intros c1 c2 j. destruct (decide (c1 = c)) as [->|N1], (decide (c2 = c)) as [->|N2]; try done.
    + rewrite list_lookup_insert_eq, list_lookup_insert_ne by (done || by eapply lookup_lt_Some).
      intros [= <-] H. by apply Hfree in H.
    + rewrite list_lookup_insert_ne, list_lookup_insert_eq by (done || by eapply lookup_lt_Some).
      intros H [= <-]. by apply Hfree in H.
    + rewrite !list_lookup_insert_ne by done. apply V3.
Qed.

(** The process [i] leaves the CPU [c]; if it is then dead it is not init and
    has no children. *)
Lemma vinv_desched vs cp np ini c i st :
  cp !! c = Some (Some i) -> st <> RUNNING -> st <> UNUSED ->
  (alive st \/ i <> ini /\ forall j w, vs !! j = Some w -> vpar w <> Some i) ->
  vinv vs cp np ini -> vinv (alter (vset_st st) i vs) (<[c := None]> cp) np ini.
Proof.
  intros Hc Hst Hun Hal [V1 V2 V3 V4 V5 V6 V7 V8].
  pose proof (V1 c i Hc) as Hr. destruct (vs !! i) as [v|] eqn:Hv; [|done]. simpl in Hr.
  assert (vst v = RUNNING) as Hvr by congruence. clear Hr.
  pose proof (lookup_lt_Some _ _ _ Hc) as Hlt.
  assert (forall j w, alter (vset_st st) i vs !! j = Some w ->
    exists w0, vs !! j = Some w0 /\ vpid w = vpid w0 /\ vpar w = vpar w0 /\
      (vst w <> UNUSED -> vst w0 <> UNUSED)) as Hback.
  { intros j w. rewrite lookup_alter_vst. case_decide as E; [subst j|].
    - rewrite Hv. simpl. intros [= <-]. exists v. split_and!; try done. congruence.
    - intros Hw. exists w. done. }
  assert (forall j w, vs !! j = Some w -> alive (vst w) -> (j <> i \/ alive st) ->
    exists w', alter (vset_st st) i vs !! j = Some w' /\ alive (vst w')) as Hfwd.
  { intros j w Hj Ha Hne. rewrite lookup_alter_vst. case_decide; [subst j|eauto].
    rewrite Hj. simpl. exists (vset_st st w). split; [done|]. destruct Hne; done. }
  split.
  - intros c' j. destruct (decide (c' = c)) as [->|Hne];
      [by rewrite list_lookup_insert_eq|rewrite list_lookup_insert_ne by done].
    intros Hj. rewrite lookup_alter_vst. case_decide as E; [|eauto].
    subst j. exfalso. by apply Hne, (V3 _ _ i).
  - intros j. rewrite lookup_alter_vst. case_decide as E.
    + subst j. rewrite Hv. intros [= Es]. exfalso. by apply Hst.
    + intros Hj. destruct (V2 j Hj) as [c' Hc']. exists c'. rewrite list_lookup_insert_ne; [done|congruence].
  - intros c1 c2 j. destruct (decide (c1 = c)) as [->|N1]; [by rewrite list_lookup_insert_eq|].
    destruct (decide (c2 = c)) as [->|N2]; [by rewrite (list_lookup_insert_eq _ c)|].
    rewrite !list_lookup_insert_ne by done. apply V3.
  - intros j w Hj Hu. destruct (Hback j w Hj) as (w0 & Hw0 & -> & _ & Hn). eauto.
  - done.
  - intros j k w x Hj Hk Hu Hu'. destruct (Hback j w Hj) as (w0 & Hw0 & -> & _ & Hn).
    destruct (Hback k x Hk) as (x0 & Hx0 & -> & _ & Hn'). eauto.
  - destruct V7 as (w & Hw & Ha). apply (Hfwd ini w Hw Ha). destruct Hal as [|[? _]]; [by right|left; congruence].
  - intros j w q Hj Hq. destruct (Hback j w Hj) as (w0 & Hw0 & _ & Hpar & _).
    destruct (V8 j w0 q Hw0 ltac:(congruence)) as (x & Hx & Ha).
    apply (Hfwd q x Hx Ha). destruct Hal as [|[_ Hno]]; [by right|left]. intros ->.
    apply (Hno j w0 Hw0). congruence.
Qed.

(** An unused or zombie slot [i] gets a new view. *)
Lemma vinv_slot vs cp np np' ini i v v' :
  vs !! i = Some v -> ~ alive (vst v) -> vst v' <> RUNNING -> vst v = UNUSED \/ vst v' = UNUSED ->
  (vst v' <> UNUSED -> np <= vpid v' < np') -> np <= np' < 2 ^ 31 ->
  (forall q, vpar v' = Some q -> vpar v = Some q \/ vst <$> vs !! q = Some RUNNING) ->
  vinv vs cp np ini -> vinv (<[i := v']> vs) cp np' ini.
Proof.
  intros Hv Hdead Hnr Hun Hpid Hnp Hpar [V1 V2 V3 V4 V5 V6 V7 V8].
  pose proof (lookup_lt_Some _ _ _ Hv) as Hlt.
  assert (forall j w, vs !! j = Some w -> alive (vst w) -> <[i := v']> vs !! j = Some w) as Hfwd.
  { intros j w Hj Ha. rewrite list_lookup_insert_ne; [done|]. intros ->. apply Hdead. congruence. }
  assert (vst v <> RUNNING) as Hvr by (intros E; apply Hdead; unfold alive; tauto).
  assert (forall j, vst <$> <[i := v']> vs !! j = Some RUNNING <-> vst <$> vs !! j = Some RUNNING) as Hrun.
  { intros j. destruct (decide (i = j)) as [<-|Hne].
    - rewrite list_lookup_insert_eq, Hv by done. simpl. split; congruence.
    - by rewrite list_lookup_insert_ne. }
  assert (forall j w, <[i := v']> vs !! j = Some w -> vst w <> UNUSED ->
    (j = i /\ w = v') \/ (j <> i /\ vs !! j = Some w /\ vpid w < np)) as Hcase.
  { intros j w. destruct (decide (i = j)) as [<-|Hne].
    - rewrite list_lookup_insert_eq by done. intros [= <-]. auto.
    - rewrite list_lookup_insert_ne by done. intros Hj Hu. right. split_and!; [done|done|].
      eapply V4; eauto. }
  split.
  - intros c j Hc. apply Hrun. eauto.
  - intros j Hj. apply V2. by apply Hrun.
  - done.
  - intros j w Hj Hu. destruct (Hcase j w Hj Hu) as [[-> ->]|(Hne & Hw & Hlt')].
    + specialize (Hpid Hu). lia.
    + specialize (V4 j w Hw Hu). lia.
  - lia.
  - intros j k w x Hj Hk Hu Hu' E.
    destruct (Hcase j w Hj Hu) as [[-> ->]|(Hne & Hw & Hl1)], (Hcase k x Hk Hu') as [[-> ->]|(Hne' & Hx & Hl2)].
    + done.
    + specialize (Hpid Hu). lia.
    + specialize (Hpid Hu'). lia.
    + eauto.
  - destruct V7 as (w & Hw & Ha). exists w. split; [by apply Hfwd|done].
  - intros j w q Hj Hq. destruct (decide (i = j)) as [<-|Hne].
    + rewrite list_lookup_insert_eq in Hj by done. simplify_eq.
      destruct (Hpar q Hq) as [Hq'|Hrq].
      * destruct (V8 i v q Hv Hq') as (x & Hx & Ha). exists x. split; [by apply Hfwd|done].
      * destruct (vs !! q) as [x|] eqn:Hx; [|done]. simpl in Hrq.
        assert (alive (vst x)) as Ha by (unfold alive; right; right; congruence).
        exists x. split; [by apply Hfwd|done].
    + rewrite list_lookup_insert_ne in Hj by done.
      destruct (V8 j w q Hj Hq) as (x & Hx & Ha). exists x. split; [by apply Hfwd|done].
Qed.

(** Some processes have become children of init. *)
Definition adopted (ini : nat) (v v' : view) : Prop :=
  v'.1 = v.1 /\ (v'.2 = v.2 \/ v'.2 = Some ini).

Lemma vinv_adopt vs vs' cp np ini :
  Forall2 (adopted ini) vs vs' -> vinv vs cp np ini -> vinv vs' cp np ini.
Proof.
  intros H [V1 V2 V3 V4 V5 V6 V7 V8].
  assert (forall j w, vs' !! j = Some w -> exists v, vs !! j = Some v /\ adopted ini v w) as Hb.
  { intros j w Hj. destruct (Forall2_lookup_r _ _ _ _ _ H Hj) as (v & ? & ?). eauto. }
  assert (forall j, vst <$> vs' !! j = vst <$> vs !! j) as Hs.
  { intros j. destruct (vs' !! j) as [w|] eqn:Hw.
    - destruct (Hb j w Hw) as (v & -> & E & _). unfold vst. simpl. by rewrite E.
    - apply lookup_ge_None in Hw. rewrite <- (Forall2_length _ _ _ H) in Hw.
      by rewrite (proj2 (lookup_ge_None vs j) Hw). }
  assert (forall j v, vs !! j = Some v -> alive (vst v) -> exists w, vs' !! j = Some w /\ alive (vst w)) as Hf.
  { intros j v Hj Hal. specialize (Hs j). rewrite Hj in Hs. destruct (vs' !! j) as [w|]; [|done].
    simpl in Hs. exists w. split; [done|]. injection Hs as ->. done. }
  split.
  - intros c j Hc. rewrite Hs. eauto.
  - intros j. rewrite Hs. eauto.
  - done.
  - intros j w Hj. destruct (Hb j w Hj) as (v & Hv & E & _). unfold vst, vpid. rewrite E. apply (V4 j v Hv).
  - done.
  - intros j k w x Hj Hk. destruct (Hb j w Hj) as (v & Hv & E & _), (Hb k x Hk) as (v' & Hv' & E' & _).
    unfold vst, vpid. rewrite E, E'. apply (V6 j k v v' Hv Hv').
  - destruct V7 as (v & Hv & Hal). eauto.
  - intros j w q Hj Hq. destruct (Hb j w Hj) as (v & Hv & _ & [E|E]); unfold vpar in Hq; rewrite E in Hq.
    + destruct (V8 j v q Hv Hq) as (x & Hx & Hal). eauto.
    + injection Hq as <-. destruct V7 as (x & Hx & Hal). eauto.
Qed.

(** ** The operations on the views *)

Section Preserve.
Context {F : Type} `{!ProcEnv F}.
Context (kend kdata forkret : Z).
Implicit Types s : psys (F := F).

(** The table and the CPUs, without memory and files. *)
Definition core s : list proc * Z * nat * list (option nat) :=
  (procs s, nextpid s, initproc s, cpus s).

Lemma pinv_core s s' : core s' = core s -> pinv s -> pinv s'.
Proof. unfold core, pinv, views. intros [= -> -> -> ->]. done. Qed.

Lemma on_km_core {A} (m : M kmem A) s a s' : on_km m s = Ok a s' -> core s' = core s.
Proof. unfold on_km. destruct (m (km s)); intros; simplify_eq; done. Qed.

Lemma on_env_core {A} (m : M F A) s a s' : on_env m s = Ok a s' -> core s' = core s.
Proof. unfold on_env. destruct (m (fenv s)); intros; simplify_eq; done. Qed.

Lemma upd_core i f s u s' : upd i f s = Ok u s' ->
  core s' = (alter f i (procs s), nextpid s, initproc s, cpus s).
Proof. unfold upd. msimpl. intros [= <- <-]. done. Qed.

Lemma map_alter_view (l : list proc) i f g :
  (forall p, view_of (f p) = g (view_of p)) -> map view_of (alter f i l) = alter g i (map view_of l).
Proof.
  intros H. apply list_eq. intros j. rewrite list_lookup_fmap.
  destruct (decide (i = j)) as [->|Hne].
  - rewrite !list_lookup_alter_eq, list_lookup_fmap. destruct (l !! j); simpl; [by rewrite H|done].
  - rewrite !list_lookup_alter_ne, list_lookup_fmap by done. done.
Qed.

Lemma map_alter_same (l : list proc) i f :
  (forall p, view_of (f p) = view_of p) -> map view_of (alter f i l) = map view_of l.
Proof.
  intros H. apply list_eq. intros j. rewrite !list_lookup_fmap.
  destruct (decide (i = j)) as [->|Hne].
  - rewrite list_lookup_alter_eq. destruct (l !! j); simpl; [by rewrite H|done].
  - by rewrite list_lookup_alter_ne.
Qed.

(** An update that the invariant does not see. *)
Lemma upd_same i f s u s' : (forall p, view_of (f p) = view_of p) ->
  upd i f s = Ok u s' -> pinv s -> pinv s'.
Proof.
  intros Hf H. apply upd_core in H. unfold core in H. injection H as E1 E2 E3 E4.
  unfold pinv, views. rewrite E1, E2, E3, E4, map_alter_same by done. done.
Qed.

Lemma upd_state i st s u s' : upd i (set_state st) s = Ok u s' ->
  views s' = alter (vset_st st) i (views s) /\
  nextpid s' = nextpid s /\ initproc s' = initproc s /\ cpus s' = cpus s.
Proof.
  intros H. apply upd_core in H. unfold core in H. injection H as E1 E2 E3 E4.
  unfold views. rewrite E1. split_and!; [|done|done|done]. by apply map_alter_view.
Qed.

Lemma view_lookup s i p : procs s !! i = Some p -> views s !! i = Some (view_of p).
Proof. intros H. unfold views. by rewrite list_lookup_fmap, H. Qed.

Lemma schedule_inv c i b s s' : schedule c i s = Ok b s' -> pinv s -> pinv s'.
Proof.
  unfold schedule, upd. msimpl.
  destruct (bool_decide (cpus s !! c = Some None)) eqn:Hc; simpl; [|intros [= _ <-]; done].
  destruct (bool_decide (state <$> procs s !! i = Some RUNNABLE)) eqn:Hi; [|intros [= _ <-]; done].
  apply bool_decide_eq_true in Hc, Hi. intros [= _ <-] Hinv.
  destruct (procs s !! i) as [p|] eqn:Hp; [|done]. simpl in Hi. simplify_eq.
  unfold pinv, views. cbn. rewrite (map_alter_view _ _ _ (vset_st RUNNING)) by done.
  eapply vinv_schedule; [done|by apply view_lookup|done|done].
Qed.

(** Giving up the CPU in a new state. *)
Lemma desched_inv c cur st s u s1 u' s' :
  runs c cur s -> upd cur (set_state st) s = Ok u s1 -> sched c cur s1 = Ok u' s' ->
  st <> RUNNING -> st <> UNUSED ->
  (alive st \/ cur <> initproc s /\ forall j w, views s !! j = Some w -> vpar w <> Some cur) ->
  pinv s -> pinv s'.
Proof.
  intros Hr H1 H2 Hst Hun Hal Hinv. destruct (upd_state _ _ _ _ _ H1) as (E1 & E2 & E3 & E4).
  unfold sched in H2. apply bind_ok_inv in H2 as (p & s2 & Hg & H2). unfold gets in Hg.
  injection Hg as <- <-. destruct (bool_decide _); [done|]. unfold modify in H2. injection H2 as _ <-.
  unfold pinv, views. cbn. fold (views s1). rewrite E1, E2, E3, E4. by apply vinv_desched.
Qed.

Lemma yield_inv c cur s u s' : runs c cur s -> yield c cur s = Ok u s' -> pinv s -> pinv s'.
Proof.
  intros Hr H. unfold yield in H. apply bind_ok_inv in H as (u1 & s1 & H1 & H2).
  eapply desched_inv; try done. left. unfold alive. tauto.
Qed.

Lemma sleep_inv c cur ch s u s' : runs c cur s -> sleep c cur ch s = Ok u s' -> pinv s -> pinv s'.
Proof.
  intros Hr H Hinv. unfold sleep in H. apply bind_ok_inv in H as (u1 & s1 & H1 & H).
  apply bind_ok_inv in H as (u2 & s2 & H2 & H3).
  assert (pinv s1) as Hinv1 by (eapply upd_same; [|done|done]; done).
  assert (runs c cur s1) as Hr1.
  { apply upd_core in H1. unfold core in H1. injection H1 as _ _ _ E. unfold runs. by rewrite E. }
  eapply desched_inv; try done. left. unfold alive. tauto.
Qed.

Lemma wakeup1_inv ch s u s' : wakeup1 ch s = Ok u s' -> pinv s -> pinv s'.
Proof.
  unfold wakeup1. msimpl. intros [= _ <-] Hinv. unfold pinv, views. cbn. eapply vinv_ben; [|exact Hinv].
  unfold views. rewrite Forall2_fmap_l, Forall2_fmap_r, Forall2_fmap_r. apply Forall_Forall2_diag, Forall_true.
  intros p. unfold compose. case_bool_decide as Hs; cbn [andb]; [case_bool_decide|]; (split_and!; [done|done|]);
    [by right|by left..].
Qed.

Lemma find_proc_spec f i l j : find_proc f i l = Some j ->
  exists p, (i <= j)%nat /\ l !! (j - i)%nat = Some p /\ f p = true.
Proof.
  revert i. induction l as [|p l IH]; intros i; simpl; [done|].
  destruct (f p) eqn:E.
  - intros [= <-]. exists p. by rewrite Nat.sub_diag.
  - intros H. apply IH in H as (q & Hle & Hq & Hf). exists q.
    replace (j - i)%nat with (S (j - S i)) by lia. split_and!; [lia|done|done].
Qed.

Lemma find_proc_0 f l j : find_proc f 0 l = Some j -> exists p, l !! j = Some p /\ f p = true.
Proof. intros H. apply find_proc_spec in H as (p & _ & H & ?). rewrite Nat.sub_0_r in H. eauto. Qed.

Lemma kill_inv pid' r s s' : kill pid' s = Ok r s' -> pinv s -> pinv s'.
Proof.
  unfold kill. msimpl. destruct (find_proc _ 0 (procs s)) as [i|] eqn:Hf; [|intros [= _ <-]; done].
  apply find_proc_0 in Hf as (p & Hp & _). intros H Hinv.
  assert (pinv (set_procs (alter (set_killed true) i (procs s)) s)) as Hinv1.
  { apply (upd_same i (set_killed true) s tt); [done|done|done]. }
  unfold upd in H. cbv beta iota zeta in H. unfold modify in H.
  case_bool_decide as Hs; injection H as _ <-; [|done].
  unfold pinv, views in *. cbn in *. rewrite (map_alter_view _ _ (set_state RUNNABLE) (vset_st RUNNABLE)) by done.
  eapply vinv_ben; [|exact Hinv1]. apply Forall2_same_length_lookup. split; [by rewrite length_alter|].
  intros j v v' Hv Hv'. rewrite lookup_alter_vst in Hv'. case_decide as E; [subst j|simplify_eq; split_and!; auto].
  rewrite Hv in Hv'. simplify_eq/=. split_and!; [done|done|right]. split; [|done].
  rewrite map_alter_same, list_lookup_fmap, Hp in Hv by done. simplify_eq/=.
  unfold proc_at in Hs. by rewrite Hp in Hs.
Qed.

Lemma growproc_inv cur n r s s' : growproc kend cur n s = Ok r s' -> pinv s -> pinv s'.
Proof.
  intros H Hinv. unfold growproc in H. apply bind_ok_inv in H as (p & s0 & Hg & H).
  unfold gets in Hg. injection Hg as <- <-.
  assert (forall sz' s1 u, pinv s1 -> (upd cur (set_sz sz') ;; mret 0) s1 = Ok u s' -> pinv s') as Hset.
  { intros sz' s1 u Hi Hu. apply bind_ok_inv in Hu as (u1 & s2 & H1 & H2).
    unfold mret, M_ret in H2. injection H2 as _ <-. eapply upd_same; [|done|done]. done. }
  destruct (n >? 0); [|destruct (n <? 0)].
  1, 2: apply bind_ok_inv in H as (sz' & s1 & H1 & H2); apply on_km_core in H1;
    destruct (sz' =? 0); [injection H2 as _ <-; by eapply pinv_core|];
    eapply Hset; [by eapply pinv_core|done].
  by eapply Hset.
Qed.

(** Only the slot [i] has changed since [s], and one pid has been used. *)
Definition at_slot (i : nat) s s' (v : view) : Prop :=
  exists p', procs s' = <[i := p']> (procs s) /\ view_of p' = v /\
    nextpid s' = s32 (nextpid s + 1) /\ initproc s' = initproc s /\ cpus s' = cpus s.

Lemma at_slot_core i s s1 s2 v : at_slot i s s1 v -> core s2 = core s1 -> at_slot i s s2 v.
Proof. unfold at_slot, core. intros (p & E1 & Ev & E2 & E3 & E4) [= -> -> -> ->]. eauto 10. Qed.

Lemma at_slot_upd i f s s1 u s2 v v' : (i < length (procs s))%nat -> at_slot i s s1 v ->
  upd i f s1 = Ok u s2 -> (forall p, view_of p = v -> view_of (f p) = v') -> at_slot i s s2 v'.
Proof.
  intros Hlt (p & E1 & Ev & E2 & E3 & E4) H Hf. apply upd_core in H. unfold core in H.
  injection H as F1 F2 F3 F4. exists (f p). rewrite F1, F2, F3, F4, E1. split_and!; auto.
  apply list_eq. intros j. destruct (decide (i = j)) as [->|Hne].
  - rewrite list_lookup_alter_eq, !list_lookup_insert_eq by done. done.
  - rewrite list_lookup_alter_ne, !list_lookup_insert_ne by done. done.
Qed.

Lemma dup_files_core fs s u s' : dup_files fs s = Ok u s' -> core s' = core s.
Proof.
  revert s. induction fs as [|f fs IH]; intros s H; simpl in H; [by injection H as _ <-|].
  apply bind_ok_inv in H as (u1 & s1 & H1 & H2). apply IH in H2. rewrite H2.
  destruct (negb (f =? 0)); simpl in H1; [by apply on_env_core in H1|by injection H1 as _ <-].
Qed.

(** [allocproc] uses a pid and a slot that was unused; the slot is EMBRYO when
    it succeeds and stays UNUSED when there is no memory. *)
Lemma allocproc_views s r s' : allocproc forkret s = Ok r s' ->
  (r = None /\ s' = s) \/
  exists i p, procs s !! i = Some p /\ state p = UNUSED /\
    at_slot i s s' (if r then EMBRYO else UNUSED, nextpid s, parent p) /\ (r = None \/ r = Some i).
Proof.
  unfold allocproc. intros H. apply bind_ok_inv in H as (s0 & s0' & Hg & H).
  unfold get in Hg. injection Hg as <- <-.
  destruct (find_proc _ 0 (procs s)) as [i|] eqn:Hf; [|left; by injection H as <- <-].
  apply find_proc_0 in Hf as (p & Hp & Hs). apply bool_decide_eq_true in Hs. right. exists i, p.
  split; [done|]. split; [done|]. pose proof (lookup_lt_Some _ _ _ Hp) as Hlt.
  apply bind_ok_inv in H as (u1 & s1 & H1 & H). apply bind_ok_inv in H as (u2 & s2 & H2 & H).
  apply bind_ok_inv in H as (u3 & s3 & H3 & H). apply bind_ok_inv in H as (k & s4 & H4 & H).
  apply bind_ok_inv in H as (u5 & s5 & H5 & H).
  assert (at_slot i s s3 (EMBRYO, nextpid s, parent p)) as A3.
  { apply upd_core in H1, H2. unfold core in H1, H2. injection H1 as F1 F2 F3 F4.
    injection H2 as G1 G2 G3 G4. unfold modify in H3. injection H3 as _ <-.
    exists (set_pid (nextpid s) (set_state EMBRYO p)). cbn. rewrite G1, G3, G4, F1, F3, F4.
    split_and!; try done. apply list_eq. intros j. destruct (decide (i = j)) as [->|Hne].
    - rewrite !list_lookup_alter_eq, Hp, list_lookup_insert_eq by done. done.
    - rewrite !list_lookup_alter_ne, list_lookup_insert_ne by done. done. }
  assert (at_slot i s s5 (EMBRYO, nextpid s, parent p)) as A5.
  { eapply at_slot_upd; [done|eapply at_slot_core; [exact A3|by apply on_km_core in H4]|exact H5|].
    by intros q. }
  destruct (k =? 0).
  - apply bind_ok_inv in H as (u6 & s6 & H6 & H). injection H as <- <-. split; [|by left].
    eapply at_slot_upd; [done|exact A5|exact H6|]. intros q Hq. unfold view_of in Hq. injection Hq as _ Ep Eq. unfold view_of. cbn. by rewrite Ep, Eq.
  - apply bind_ok_inv in H as (u6 & s6 & H6 & H). injection H as <- <-. split; [|by right].
    eapply at_slot_upd; [done|exact A5|exact H6|]. by intros q.
Qed.

Lemma at_slot_inv i s s' v p : procs s !! i = Some p -> state p = UNUSED ->
  nextpid s < 2 ^ 31 - 1 -> at_slot i s s' v -> vst v <> RUNNING ->
  (vst v <> UNUSED -> vpid v = nextpid s) ->
  (forall q, vpar v = Some q -> parent p = Some q \/ state <$> procs s !! q = Some RUNNING) ->
  pinv s -> pinv s'.
Proof.
  intros Hp Hu Hn (p' & E1 & Ev & E2 & E3 & E4) Hr Hpid Hpar Hinv. pose proof (v_next _ _ _ _ Hinv).
  unfold pinv, views. rewrite E1, E2, E3, E4, s32_id by lia.
  change (map view_of (<[i:=p']> (procs s))) with (view_of <$> <[i:=p']> (procs s)).
  rewrite list_fmap_insert, Ev.
  eapply (vinv_slot _ _ (nextpid s)); [by apply view_lookup| |done| | |lia| |exact Hinv].
  - unfold vst, view_of. cbn. rewrite Hu. unfold alive. naive_solver.
  - left. done.
  - intros Hnu. rewrite Hpid by done. lia.
  - intros q Hq. destruct (Hpar q Hq) as [|Hst]; [by left|right].
    change (map view_of (procs s)) with (view_of <$> procs s). rewrite list_lookup_fmap.
    destruct (procs s !! q) as [x|]; [|done]. simpl in *. injection Hst as Hst.
    unfold vst, view_of. cbn. by rewrite Hst.
Qed.

(** [fork] changes one slot that was unused, if any: it is RUNNABLE when the call
    succeeds and UNUSED when it fails. *)
Lemma fork_views cur r s s' : fork kend kdata forkret cur s = Ok r s' ->
  s' = s \/
  exists i p v, procs s !! i = Some p /\ state p = UNUSED /\ at_slot i s s' v /\
    (v = (UNUSED, nextpid s, parent p) \/ v = (RUNNABLE, nextpid s, Some cur)).
Proof.
  intros H. unfold fork in H. apply bind_ok_inv in H as (np & s1 & Ha & H).
  apply allocproc_views in Ha as [[-> ->]|(i & p & Hp & Hu & A1 & Hnp)].
  { left. by injection H as _ <-. }
  right.
  pose proof (lookup_lt_Some _ _ _ Hp) as Hlt.
  exists i, p.
  destruct Hnp as [->| ->]; [injection H as _ <-; eexists; split_and!; [done|done|exact A1|by left]|].
  apply bind_ok_inv in H as (pc & s2 & Hg & H). unfold gets in Hg. injection Hg as <- <-.
  apply bind_ok_inv in H as (d & s3 & H3 & H). apply on_km_core in H3.
  apply bind_ok_inv in H as (u4 & s4 & H4 & H).
  assert (at_slot i s s4 (EMBRYO, nextpid s, parent p)) as A4.
  { eapply at_slot_upd; [exact Hlt|eapply at_slot_core; [exact A1|exact H3]|exact H4|]. by intros q. }
  destruct (d =? 0).
  - apply bind_ok_inv in H as (pn & s5 & Hg & H). unfold gets in Hg. injection Hg as <- <-.
    apply bind_ok_inv in H as (u5 & s5 & H5 & H). apply on_km_core in H5.
    apply bind_ok_inv in H as (u6 & s6 & H6 & H). apply bind_ok_inv in H as (u7 & s7 & H7 & H).
    injection H as _ <-. eexists. split_and!; [done|done| |left; reflexivity].
    eapply at_slot_upd; [exact Hlt| |exact H7|].
    + eapply at_slot_upd; [exact Hlt|eapply at_slot_core; [exact A4|exact H5]|exact H6|]. by intros q.
    + intros q Hq. unfold view_of in Hq. injection Hq as _ E1 E2. unfold view_of. cbn. by rewrite E1, E2.
  - apply bind_ok_inv in H as (u5 & s5 & H5 & H). apply bind_ok_inv in H as (u6 & s6 & H6 & H).
    apply bind_ok_inv in H as (u7 & s7 & H7 & H). apply bind_ok_inv in H as (u8 & s8 & H8 & H).
    apply dup_files_core in H8. apply bind_ok_inv in H as (u9 & s9 & H9 & H).
    apply bind_ok_inv in H as (u10 & s10 & H10 & H). apply on_env_core in H10.
    apply bind_ok_inv in H as (u11 & s11 & H11 & H). apply bind_ok_inv in H as (u12 & s12 & H12 & H).
    apply bind_ok_inv in H as (pn & s13 & Hg & H). unfold gets in Hg. injection Hg as <- <-.
    apply bind_ok_inv in H as (u14 & s14 & H14 & H). injection H as _ <-.
    assert (at_slot i s s7 (EMBRYO, nextpid s, Some cur)) as A7.
    { eapply at_slot_upd; [exact Hlt| |exact H7|by intros q].
      eapply at_slot_upd; [exact Hlt| |exact H6|].
      - eapply at_slot_upd; [exact Hlt|exact A4|exact H5|by intros q].
      - intros q Hq. unfold view_of in Hq. injection Hq as E1 E2 E3. unfold view_of. cbn. by rewrite E1, E2. }
    assert (at_slot i s s12 (EMBRYO, nextpid s, Some cur)) as A12.
    { eapply at_slot_upd; [exact Hlt| |exact H12|by intros q].
      eapply at_slot_upd; [exact Hlt| |exact H11|by intros q].
      eapply at_slot_core; [|exact H10].
      eapply at_slot_upd; [exact Hlt| |exact H9|by intros q].
      eapply at_slot_core; [exact A7|exact H8]. }
    assert (at_slot i s s14 (RUNNABLE, nextpid s, Some cur)) as A14.
    { eapply at_slot_upd; [exact Hlt|exact A12|exact H14|].
      intros q Hq. unfold view_of in Hq. injection Hq as E1 E2 E3. unfold view_of. cbn. by rewrite E2, E3. }
    eexists. split_and!; [done|done|exact A14|by right].
Qed.

Lemma cur_running c cur s : pinv s -> runs c cur s -> state <$> procs s !! cur = Some RUNNING.
Proof.
  intros Hinv Hr. pose proof (v_cpu _ _ _ _ Hinv c cur Hr) as Hv. unfold views in Hv.
  rewrite list_lookup_fmap in Hv. by destruct (procs s !! cur).
Qed.

Lemma fork_inv c cur r s s' : runs c cur s -> nextpid s < 2 ^ 31 - 1 ->
  fork kend kdata forkret cur s = Ok r s' -> pinv s -> pinv s'.
Proof.
  intros Hr Hn H Hinv. apply fork_views in H as [->|(i & p & v & Hp & Hu & A & Hv)]; [done|].
  pose proof (cur_running _ _ _ Hinv Hr).
  destruct Hv as [->| ->]; (eapply at_slot_inv; [exact Hp|exact Hu|exact Hn|exact A|done|done| |exact Hinv]);
    [by left|intros q [= <-]; by right].
Qed.

(** Changes to the process [cur] itself that the invariant does not see. *)
Lemma close_files_inv cur fd fs s u s' : close_files cur fd fs s = Ok u s' ->
  views s' = views s /\ cpus s' = cpus s /\ nextpid s' = nextpid s /\ initproc s' = initproc s.
Proof.
  revert fd s. induction fs as [|f fs IH]; intros fd s H; cbn [close_files] in H; [by injection H as _ <-|].
  apply bind_ok_inv in H as (u1 & s1 & H1 & H2). apply IH in H2 as (-> & -> & -> & ->).
  destruct (negb (f =? 0)); simpl in H1; [|by injection H1 as _ <-].
  apply bind_ok_inv in H1 as (u2 & s2 & H1 & H2). apply on_env_core in H1. apply upd_core in H2.
  unfold core in *. injection H1 as E1 E2 E3 E4. injection H2 as F1 F2 F3 F4.
  unfold views. rewrite F1, F2, F3, F4, E1, E2, E3, E4. split_and!; try done. by apply map_alter_same.
Qed.

(** What [exit] must keep while it gives its children away: the slots below
    [i] hold no child of [cur]. *)
Definition giving (cur i : nat) s0 s : Prop :=
  pinv s /\ cpus s = cpus s0 /\ initproc s = initproc s0 /\ length (procs s) = length (procs s0) /\
  forall j w, (j < i)%nat -> views s !! j = Some w -> vpar w <> Some cur.

Lemma giving_wakeup cur i s0 ch s u s' : wakeup1 ch s = Ok u s' -> giving cur i s0 s -> giving cur i s0 s'.
Proof.
  intros H (Hi & Hc & Hp & Hl & Hn). split; [by eapply wakeup1_inv|].
  unfold wakeup1 in H. unfold modify in H. injection H as _ <-. cbn. split; [done|]. split; [done|].
  split; [by rewrite length_map|]. intros j w Hj. unfold views. cbn. rewrite !list_lookup_fmap.
  destruct (procs s !! j) as [p|] eqn:E; [|done]. simpl. intros [= <-].
  specialize (Hn j _ Hj (view_lookup s j p E)).
  case_match; done.
Qed.

Lemma giving_adopt cur i s0 s u s' : cur <> initproc s0 ->
  upd i (set_parent (Some (initproc s))) s = Ok u s' -> giving cur i s0 s -> giving cur (S i) s0 s'.
Proof.
  intros Hne H (Hi & Hc & Hp & Hl & Hn). apply upd_core in H. unfold core in H. injection H as E1 E2 E3 E4.
  assert (views s' = alter (fun v => (v.1, Some (initproc s))) i (views s)) as Ev.
  { unfold views. rewrite E1. by apply map_alter_view. }
  split; [|split; [congruence|split; [congruence|split; [by rewrite E1, length_alter|]]]].
  - unfold pinv. rewrite E2, E3, E4, Ev. eapply vinv_adopt; [|exact Hi].
    apply Forall2_same_length_lookup. split; [by rewrite length_alter|].
    intros j v v' Hv. rewrite lookup_alter_vst, Hv. case_decide; intros [= <-]; split; auto.
  - intros j w Hj. rewrite Ev, lookup_alter_vst. case_decide as E.
    + destruct (views s !! j); [|done]. intros [= <-]. unfold vpar. simpl. congruence.
    + apply Hn. lia.
Qed.

Lemma reparent_inv cur s0 k i s u s' : cur <> initproc s0 -> (i + k = length (procs s0))%nat ->
  reparent cur i k s = Ok u s' -> giving cur i s0 s -> giving cur (length (procs s0)) s0 s'.
Proof.
  intros Hne. revert i s. induction k as [|k IH]; intros i s Hk H Hg.
  - cbn in H. injection H as _ <-. by replace (length (procs s0)) with i by lia.
  - cbn [reparent] in H. apply bind_ok_inv in H as (sx & s1 & Hget & H). unfold get in Hget. injection Hget as <- <-.
    apply bind_ok_inv in H as (u1 & s1 & H1 & H). apply (IH (S i) s1); [lia|exact H|]. clear H IH.
    case_bool_decide as Hpar; unfold when in H1.
    + apply bind_ok_inv in H1 as (u2 & s2 & H2 & H3).
      assert (giving cur (S i) s0 s2) as G2 by (by eapply giving_adopt).
      destruct (bool_decide _); [by eapply giving_wakeup|by injection H3 as _ <-].
    + injection H1 as _ <-. destruct Hg as (Hi & Hc & Hp & Hl & Hn). split_and!; try done.
      intros j w Hj Hw. destruct (decide (j = i)) as [->|Hji]; [|apply (Hn j w); [lia|done]].
      unfold views in Hw. rewrite list_lookup_fmap in Hw. destruct (procs s !! i) as [p|] eqn:E; [|done].
      injection Hw as <-. unfold proc_at in Hpar. by rewrite E in Hpar.
Qed.

Lemma exit_inv c cur s u s' : runs c cur s -> exit c cur s = Ok u s' -> pinv s -> pinv s'.
Proof.
  intros Hr H Hinv. unfold exit in H. apply bind_ok_inv in H as (sx & s1 & Hg & H). unfold get in Hg.
  injection Hg as <- <-. case_bool_decide as Hini; [done|].
  apply bind_ok_inv in H as (p & s1 & Hg & H). unfold gets in Hg. injection Hg as <- <-.
  apply bind_ok_inv in H as (u1 & s1 & H1 & H). apply close_files_inv in H1 as (E1 & E2 & E3 & E4).
  apply bind_ok_inv in H as (u2 & s2 & H2 & H). apply on_env_core in H2.
  apply bind_ok_inv in H as (u3 & s3 & H3 & H). apply bind_ok_inv in H as (u4 & s4 & H4 & H).
  apply bind_ok_inv in H as (u5 & s5 & H5 & H). apply bind_ok_inv in H as (u6 & s6 & H6 & H).
  assert (pinv s2) as I2.
  { eapply pinv_core; [exact H2|]. unfold pinv. by rewrite E1, E2, E3, E4. }
  unfold core in H2. injection H2 as F1 F2 F3 F4.
  pose proof (upd_core _ _ _ _ _ H3) as C3. unfold core in C3. injection C3 as G1 G2 G3 G4.
  assert (giving cur 0 s s3) as G.
  { split; [by eapply upd_same; [|exact H3|exact I2]|].
    split_and!; [congruence|congruence| |intros j w Hj; lia].
    apply (f_equal length) in E1. unfold views in E1. rewrite !length_map in E1.
    by rewrite G1, length_alter, F1. }
  destruct (reparent_inv cur s _ 0 s4 u5 s5 Hini eq_refl H5 (giving_wakeup _ _ _ _ _ _ _ H4 G))
    as (I5 & C5 & P5 & L5 & N5).
  eapply (desched_inv c cur ZOMBIE s5); [unfold runs; by rewrite C5|exact H6|exact H|done|done| |exact I5].
  right. split; [congruence|]. intros j w Hw. apply (N5 j w); [|done].
  apply lookup_lt_Some in Hw. unfold views in Hw. rewrite length_map in Hw. lia.
Qed.

Lemma wait_scan_zombie cur i l b j b' : wait_scan cur i l b = (Some j, b') ->
  exists p, (i <= j)%nat /\ l !! (j - i)%nat = Some p /\ parent p = Some cur /\ state p = ZOMBIE.
Proof.
  revert i b. induction l as [|p l IH]; intros i b; simpl; [done|].
  assert (forall b0, wait_scan cur (S i) l b0 = (Some j, b') ->
    exists q, (i <= j)%nat /\ (p :: l) !! (j - i)%nat = Some q /\ parent q = Some cur /\ state q = ZOMBIE) as Hnext.
  { intros b0 H. apply IH in H as (q & Hle & Hq & ?). exists q.
    replace (j - i)%nat with (S (j - S i)) by lia. split; [lia|done]. }
  case_bool_decide as Hp; simpl; [|apply Hnext]. case_bool_decide as Hz; [|apply Hnext].
  intros [= <- <-]. exists p. by rewrite Nat.sub_diag.
Qed.

Lemma wait_inv c cur r s s' : runs c cur s -> wait kend c cur s = Ok r s' -> pinv s -> pinv s'.
Proof.
  intros Hr H Hinv. unfold wait in H. apply bind_ok_inv in H as (sx & s1 & Hg & H). unfold get in Hg.
  injection Hg as <- <-. destruct (wait_scan cur 0 (procs s) false) as [[i|] hk] eqn:Hscan.
  - apply wait_scan_zombie in Hscan as (p & _ & Hp & Hpar & Hz). rewrite Nat.sub_0_r in Hp.
    apply bind_ok_inv in H as (p0 & s0 & Hg & H). unfold gets in Hg. injection Hg as <- <-.
    apply bind_ok_inv in H as (u1 & s1 & H1 & H). apply on_km_core in H1.
    apply bind_ok_inv in H as (u2 & s2 & H2 & H). apply bind_ok_inv in H as (u3 & s3 & H3 & H).
    apply on_km_core in H3. apply bind_ok_inv in H as (u4 & s4 & H4 & H).
    apply bind_ok_inv in H as (u5 & s5 & H5 & H). apply bind_ok_inv in H as (u6 & s6 & H6 & H).
    apply bind_ok_inv in H as (u7 & s7 & H7 & H). apply bind_ok_inv in H as (u8 & s8 & H8 & H).
    injection H as _ <-. apply upd_core in H2, H4, H5, H6, H7, H8.
    assert (core s8 = (alter (set_state UNUSED ∘ set_killed false ∘ set_name [] ∘ set_parent None ∘ set_pid 0
      ∘ set_kstack 0) i (procs s), nextpid s, initproc s, cpus s)) as C8.
    { unfold core in *. injection H1 as A1 A2 A3 A4. injection H2 as B1 B2 B3 B4. injection H3 as C1 C2 C3 C4.
      injection H4 as D1 D2 D3 D4. injection H5 as E1 E2 E3 E4. injection H6 as F1 F2 F3 F4.
      injection H7 as G1 G2 G3 G4. injection H8 as I1 I2 I3 I4.
      rewrite I1, G1, F1, E1, D1, C1, B1, A1. f_equal; [f_equal; [f_equal|]|]; [|congruence..]. apply list_eq. intros j. destruct (decide (i = j)) as [<-|Hne].
      - rewrite !list_lookup_alter_eq. by destruct (procs s !! i).
      - by rewrite !list_lookup_alter_ne. }
    unfold core in C8. injection C8 as E1 E2 E3 E4. unfold pinv, views. rewrite E1, E2, E3, E4.
    rewrite (map_alter_view _ _ _ (fun _ => (UNUSED, 0, None))) by done.
    pose proof (view_lookup _ _ _ Hp) as Hv. fold (views s).
    match goal with |- vinv ?l _ _ _ => replace l with (<[i := (UNUSED, 0, None) : view]> (views s)) end; cycle 1.
    { symmetry. apply list_eq. intros j. destruct (decide (i = j)) as [<-|Hne].
      - rewrite list_lookup_alter_eq, Hv, list_lookup_insert_eq; [done|by eapply lookup_lt_Some].
      - by rewrite list_lookup_alter_ne, list_lookup_insert_ne. }
    pose proof (v_next _ _ _ _ Hinv).
    eapply (vinv_slot _ _ (nextpid s)); [exact Hv| |done|by right|done|lia|done|exact Hinv].
    unfold vst, view_of, alive. simpl. rewrite Hz. naive_solver.
  - destruct (negb hk || killed (proc_at cur s)); [by injection H as _ <-|].
    apply bind_ok_inv in H as (u1 & s1 & H1 & H). injection H as _ <-. by eapply sleep_inv.
Qed.

Lemma proc_step_inv s s' : step kend kdata forkret s s' -> pinv s -> pinv s'.
Proof.
  destruct 1; eauto using schedule_inv, yield_inv, sleep_inv, wakeup1_inv, kill_inv, fork_inv, growproc_inv,
    exit_inv, wait_inv.
  intros Hinv. by eapply (upd_same cur (set_chan NoChan)).
Qed.

(** The table at boot. *)
Definition boot_table s : Prop :=
  procs s = replicate NPROC proc0 /\ nextpid s = 1 /\ Forall (eq None) (cpus s).

(** Only the slot [i] is used, by init. *)
Lemma single_inv i v vs cp np : (forall j w, vs !! j = Some w -> j = i \/ vst w = UNUSED /\ vpar w = None) ->
  vs !! i = Some v -> vst v = RUNNABLE -> vpar v = None -> 0 < vpid v < np -> np < 2 ^ 31 ->
  Forall (eq None) cp -> vinv vs cp np i.
Proof.
  intros Ho Hi Hs Hp Hpid Hnp Hcp.
  assert (forall c j, cp !! c <> Some (Some j)) as Hno.
  { intros c j Hc. by apply (Forall_lookup_1 _ _ _ _ Hcp) in Hc. }
  split.
  - intros c j Hc. by apply Hno in Hc.
  - intros j Hj. destruct (vs !! j) as [w|] eqn:E; [|done]. simpl in Hj. injection Hj as Hj.
    destruct (Ho j w E) as [->|[Hu _]]; congruence.
  - intros c c' j Hc. by apply Hno in Hc.
  - intros j w Hw Hu. destruct (Ho j w Hw) as [->|[? _]]; [|done]. by simplify_eq.
  - lia.
  - intros j k w x Hj Hk Hu Hu' _. destruct (Ho j w Hj) as [->|[? _]]; [|done].
    destruct (Ho k x Hk) as [->|[? _]]; done.
  - exists v. split; [done|]. unfold alive. tauto.
  - intros j w q Hw Hq. destruct (Ho j w Hw) as [->|[_ ?]]; [|congruence]. by simplify_eq.
Qed.

Lemma userinit_slot initcode root s u s' : boot_table s ->
  userinit kend kdata forkret initcode root s = Ok u s' ->
  exists q, (initproc s' < NPROC)%nat /\ procs s' = <[initproc s' := q]> (replicate NPROC proc0) /\
    view_of q = (RUNNABLE, 1, None) /\ nextpid s' = 2 /\ Forall (eq None) (cpus s').
Proof.
  intros (Hp & Hn & Hc) H. unfold userinit in H. apply bind_ok_inv in H as (np & s1 & Ha & H).
  apply allocproc_views in Ha as [[-> ->]|(i & p & Hpi & Hu & A1 & Hnp)]; [done|].
  destruct Hnp as [->| ->]; [done|]. pose proof (lookup_lt_Some _ _ _ Hpi) as Hlt.
  assert (p = proc0) as -> by (rewrite Hp in Hpi; by apply lookup_replicate_1 in Hpi as [-> _]).
  apply bind_ok_inv in H as (u2 & s2 & H2 & H). unfold modify in H2. injection H2 as _ <-.
  destruct A1 as (q1 & E1 & Ev & E2 & E3 & E4). rewrite Hn in E2, Ev.
  set (sx := mkpsys (procs s1) (nextpid s1) i (cpus s1) (km s1) (fenv s1)) in H.
  set (slot v s := exists q, procs s = <[i := q]> (replicate NPROC proc0) /\ view_of q = v /\
    nextpid s = 2 /\ initproc s = i /\ Forall (eq None) (cpus s)).
  assert (slot (EMBRYO, 1, None) sx) as Ax.
  { exists q1. rewrite Hp in E1. subst sx. cbn. split_and!; [done|done|by rewrite E2|done|by rewrite E4]. }
  rewrite Hp in Hlt.
  assert (forall v v' f a s u s', slot v a -> upd i f a = Ok u s' -> s = s' ->
    (forall p, view_of p = v -> view_of (f p) = v') -> slot v' s) as Hup.
  { intros v v' f a s2 u3 s3 (q & F1 & Fv & F2 & F3 & F4) Hf -> Hv. apply upd_core in Hf. unfold core in Hf.
    injection Hf as G1 G2 G3 G4. exists (f q). rewrite G1, G2, G3, G4, F1. split_and!; auto.
    apply list_eq. intros j. destruct (decide (i = j)) as [->|Hne].
    - rewrite list_lookup_alter_eq, !list_lookup_insert_eq by done. done.
    - rewrite list_lookup_alter_ne, !list_lookup_insert_ne by done. done. }
  assert (forall v a b, slot v a -> core b = core a -> slot v b) as Hcore.
  { intros v a b (q & Fq) E. exists q. unfold core in E. by injection E as -> -> -> ->. }
  apply bind_ok_inv in H as (d & s3 & H3 & H). apply on_km_core in H3.
  apply bind_ok_inv in H as (u4 & s4 & H4 & H). destruct (d =? 0); [done|].
  apply bind_ok_inv in H as (u5 & s5 & H5 & H). apply on_km_core in H5.
  apply bind_ok_inv in H as (u6 & s6 & H6 & H). apply bind_ok_inv in H as (u7 & s7 & H7 & H).
  apply bind_ok_inv in H as (u8 & s8 & H8 & H). apply bind_ok_inv in H as (u9 & s9 & H9 & H).
  assert (slot (EMBRYO, 1, None) s9) as A9.
  { eapply Hup; [|exact H9|done|by intros ?]. eapply Hup; [|exact H8|done|by intros ?].
    eapply Hup; [|exact H7|done|by intros ?]. eapply Hup; [|exact H6|done|by intros ?].
    eapply Hcore; [|exact H5]. eapply Hup; [|exact H4|done|by intros ?]. by eapply Hcore. }
  assert (slot (RUNNABLE, 1, None) s') as (q & F1 & Fv & F2 & F3 & F4).
  { eapply Hup; [exact A9|exact H|done|]. intros q Hq. unfold view_of in *. cbn. by injection Hq as _ -> ->. }
  exists q. rewrite F3. rewrite length_replicate in Hlt. done.
Qed.

Lemma userinit_inv initcode root s u s' : boot_table s ->
  userinit kend kdata forkret initcode root s = Ok u s' -> pinv s'.
Proof.
  intros Hb H. destruct (userinit_slot _ _ _ _ _ Hb H) as (q & Hlt & F1 & Fv & F2 & F4).
  unfold pinv, views. rewrite F1, F2. change (map view_of ?l) with (view_of <$> l).
  rewrite list_fmap_insert, Fv. rewrite fmap_replicate.
  apply (single_inv (initproc s') (RUNNABLE, 1, None)); [|rewrite list_lookup_insert_eq; [done|by rewrite length_replicate]
    |done|done|cbn; lia|lia|done].
  intros j w Hw. destruct (decide (initproc s' = j)) as [<-|Hne]; [by left|right].
  rewrite list_lookup_insert_ne in Hw by done. apply lookup_replicate_1 in Hw as [-> _]. done.
Qed.

End Preserve.

End Proc.
