(* ===== verification/ProcWait.v ===== *)
(** * Waiting for children (system/core/proc.c)

    The theorems on the process table: the table's invariant, that [wait] and
    [exit] never leave a parent asleep with a zombie child, and what [kill] and
    [growproc] do in two cases that the callers do not expect. *)

From S2P Require Import Prelude Kalloc Vm Proc.
Import Proc.

Section Wait.
Context {F : Type} `{!ProcEnv F}.
Context (kend kdata forkret : Z).
Implicit Types s : psys (F := F).

(** The process [i] sleeps in [wait]; [j] is a zombie child of [k]. *)
Definition waiting (i : nat) (p : proc) : Prop := state p = SLEEPING /\ pchan p = ChProc i.
Definition dead_child (k : nat) (p : proc) : Prop := state p = ZOMBIE /\ parent p = Some k.

Record winv s : Prop := {
  w_wait : forall i p j q, procs s !! i = Some p -> waiting i p -> procs s !! j = Some q -> ~ dead_child i q;
  w_self : forall i p, procs s !! i = Some p -> parent p <> Some i;
  w_init : forall p, procs s !! initproc s = Some p -> parent p = None
}.

(** No new sleeper in [wait], no new zombie, no new parent. *)
Definition tamer (i : nat) (p p' : proc) : Prop :=
  (waiting i p' -> waiting i p) /\ (forall k, dead_child k p' -> dead_child k p) /\
  (parent p' = parent p \/ parent p' = None).

Lemma winv_tamer s s' : initproc s' = initproc s ->
  (forall i p', procs s' !! i = Some p' -> exists p, procs s !! i = Some p /\ tamer i p p') ->
  winv s -> winv s'.
Proof.
  intros Hini Ht [W1 W2 W3]. split.
  - intros i p' j q' Hp Hw Hq Hd. destruct (Ht i p' Hp) as (p & Hp0 & Hw0 & _), (Ht j q' Hq) as (q & Hq0 & _ & Hd0 & _).
    exact (W1 i p j q Hp0 (Hw0 Hw) Hq0 (Hd0 i Hd)).
  - intros i p' Hp. destruct (Ht i p' Hp) as (p & Hp0 & _ & _ & [->| ->]); [by eapply W2|done].
  - rewrite Hini. intros p' Hp. destruct (Ht _ p' Hp) as (p & Hp0 & _ & _ & [->| ->]); [by apply W3|done].
Qed.

Lemma tamer_refl i p : tamer i p p.
Proof. split_and!; auto. Qed.

Lemma winv_core s s' : core s' = core s -> winv s -> winv s'.
Proof.
  unfold core. intros [= E1 E2 E3 E4]. apply winv_tamer; [done|]. rewrite E1.
  intros i p Hp. exists p. split; [done|apply tamer_refl].
Qed.

Lemma winv_alter s s' i f : procs s' = alter f i (procs s) -> initproc s' = initproc s ->
  (forall p, procs s !! i = Some p -> tamer i p (f p)) -> winv s -> winv s'.
Proof.
  intros E Hini Hf. apply winv_tamer; [done|]. intros j p'. rewrite E. destruct (decide (i = j)) as [<-|Hne].
  - rewrite list_lookup_alter_eq. destruct (procs s !! i) as [p|] eqn:Hp; [|done]. intros [= <-]. eauto.
  - rewrite list_lookup_alter_ne by done. intros Hp. exists p'. split; [done|apply tamer_refl].
Qed.

Lemma upd_winv i f s u s' : (forall p, procs s !! i = Some p -> tamer i p (f p)) ->
  upd i f s = Ok u s' -> winv s -> winv s'.
Proof. intros Hf H. apply upd_core in H. unfold core in H. injection H as E1 E2 E3 E4. by eapply winv_alter. Qed.

Lemma upd_initproc i f s u s' : upd i f s = Ok u s' -> initproc s' = initproc s.
Proof. intros H. apply upd_core in H. unfold core in H. by injection H. Qed.

Lemma sched_winv c cur s u s' : sched c cur s = Ok u s' -> procs s' = procs s /\ initproc s' = initproc s.
Proof.
  unfold sched. intros H. apply bind_ok_inv in H as (p & s1 & Hg & H). unfold gets in Hg. injection Hg as <- <-.
  destruct (bool_decide _); [done|]. unfold modify in H. by injection H as _ <-.
Qed.

Lemma winv_procs s s' : procs s' = procs s -> initproc s' = initproc s -> winv s -> winv s'.
Proof.
  intros E1 E3. apply winv_tamer; [done|]. rewrite E1. intros i p Hp. exists p. split; [done|apply tamer_refl].
Qed.

(** Awake states are harmless. *)
Lemma tamer_state i p st : st <> SLEEPING -> st <> ZOMBIE -> tamer i p (set_state st p).
Proof. intros H1 H2. split_and!; [by intros [? _]|by intros k [? _]|by left]. Qed.

Lemma schedule_winv c i b s s' : schedule c i s = Ok b s' -> winv s -> winv s'.
Proof.
  unfold schedule. intros H. apply bind_ok_inv in H as (s0 & s1 & Hg & H). unfold get in Hg. injection Hg as <- <-.
  destruct (_ && _); [|by injection H as _ <-]. apply bind_ok_inv in H as (u1 & s1 & H1 & H).
  unfold modify in H1. injection H1 as _ <-. apply bind_ok_inv in H as (u2 & s2 & H2 & H). injection H as _ <-.
  intros Hw. eapply upd_winv; [|exact H2|eapply (winv_procs s); [reflexivity|reflexivity|exact Hw]]. intros p _. by apply tamer_state.
Qed.

Lemma yield_winv c cur s u s' : yield c cur s = Ok u s' -> winv s -> winv s'.
Proof.
  unfold yield. intros H Hw. apply bind_ok_inv in H as (u1 & s1 & H1 & H). apply sched_winv in H as [E1 E2].
  eapply winv_procs; [exact E1|exact E2|]. eapply upd_winv; [|exact H1|done]. intros p _. by apply tamer_state.
Qed.

Lemma sleep_addr_winv c cur a s u s' : sleep c cur (ChAddr a) s = Ok u s' -> winv s -> winv s'.
Proof.
  unfold sleep. intros H Hw. apply bind_ok_inv in H as (u1 & s1 & H1 & H).
  apply bind_ok_inv in H as (u2 & s2 & H2 & H). apply sched_winv in H as [E1 E2].
  eapply winv_procs; [exact E1|exact E2|]. apply upd_core in H1, H2. unfold core in *.
  injection H1 as A1 _ A2 _. injection H2 as B1 _ B2 _.
  eapply (winv_alter s _ cur (set_state SLEEPING ∘ set_chan (ChAddr a))); [|congruence| |done].
  - rewrite B1, A1. apply list_eq. intros j. destruct (decide (cur = j)) as [<-|Hne].
    + rewrite !list_lookup_alter_eq. by destruct (procs s !! cur).
    + by rewrite !list_lookup_alter_ne.
  - intros p _. split_and!; [by intros [_ ?]|by intros k [? _]|by left].
Qed.

Lemma wakeup1_winv ch s u s' : wakeup1 ch s = Ok u s' -> winv s -> winv s'.
Proof.
  unfold wakeup1, modify. intros [= _ <-]. apply winv_tamer; [done|]. cbn. intros i p'. rewrite list_lookup_fmap.
  destruct (procs s !! i) as [p|]; [|done]. intros [= <-]. exists p. split; [done|].
  destruct (_ && _); [by apply tamer_state|apply tamer_refl].
Qed.

Lemma kill_winv pid' r s s' : kill pid' s = Ok r s' -> winv s -> winv s'.
Proof.
  unfold kill. intros H Hw. apply bind_ok_inv in H as (s0 & s1 & Hg & H). unfold get in Hg. injection Hg as <- <-.
  destruct (find_proc _ 0 (procs s)) as [i|]; [|by injection H as _ <-].
  apply bind_ok_inv in H as (u1 & s1 & H1 & H). apply bind_ok_inv in H as (u2 & s2 & H2 & H). injection H as _ <-.
  assert (winv s1) as Hw1.
  { eapply upd_winv; [|exact H1|done]. intros p _. split_and!; [by intros [? ?]|by intros k [? ?]|by left]. }
  destruct (bool_decide _); cbn [when] in H2; [|by injection H2 as _ <-].
  eapply upd_winv; [|exact H2|done]. intros p _. by apply tamer_state.
Qed.

Lemma growproc_winv cur n r s s' : growproc kend cur n s = Ok r s' -> winv s -> winv s'.
Proof.
  intros H Hw. unfold growproc in H. apply bind_ok_inv in H as (p & s0 & Hg & H).
  unfold gets in Hg. injection Hg as <- <-.
  assert (forall sz' s1 u, winv s1 -> (upd cur (set_sz sz') ;; mret 0) s1 = Ok u s' -> winv s') as Hset.
  { intros sz' s1 u Hi Hu. apply bind_ok_inv in Hu as (u1 & s2 & H1 & H2). injection H2 as _ <-.
    eapply upd_winv; [|exact H1|done]. intros q _. split_and!; [by intros [? ?]|by intros k [? ?]|by left]. }
  destruct (n >? 0); [|destruct (n <? 0)].
  1, 2: apply bind_ok_inv in H as (sz' & s1 & H1 & H2); apply on_km_core in H1;
    destruct (sz' =? 0); [injection H2 as _ <-; by eapply winv_core|];
    eapply Hset; [by eapply winv_core|done].
  by eapply Hset.
Qed.

Lemma init_alive s p : pinv s -> procs s !! initproc s = Some p -> alive (state p).
Proof.
  intros Hinv Hp. destruct (v_init _ _ _ _ Hinv) as (v & Hv & Ha). rewrite (view_lookup _ _ _ Hp) in Hv.
  by injection Hv as <-.
Qed.

Lemma fork_winv c cur r s s' : runs c cur s -> fork kend kdata forkret cur s = Ok r s' -> pinv s -> winv s -> winv s'.
Proof.
  intros Hr H Hinv [W1 W2 W3].
  apply fork_views in H as [->|(i & p & v & Hp & Hu & (p' & E1 & Ev & E2 & E3 & E4) & Hv)]; [by split|].
  pose proof (lookup_lt_Some _ _ _ Hp) as Hlt. pose proof (cur_running _ _ _ Hinv Hr) as Hcur.
  assert (state p' = UNUSED \/ state p' = RUNNABLE) as Hst.
  { destruct Hv as [->| ->]; unfold view_of in Ev; injection Ev; auto. }
  assert (forall j q, procs s' !! j = Some q -> (j = i /\ q = p') \/ (j <> i /\ procs s !! j = Some q)) as Hcase.
  { intros j q. rewrite E1. destruct (decide (i = j)) as [<-|Hne].
    - rewrite list_lookup_insert_eq by done. intros [= <-]. auto.
    - rewrite list_lookup_insert_ne by done. auto. }
  split.
  - intros j q k x Hq [Hs Hc] Hx [Hz Hpar].
    destruct (Hcase j q Hq) as [[-> ->]|[_ Hq']]; [destruct Hst; congruence|].
    destruct (Hcase k x Hx) as [[-> ->]|[_ Hx']]; [destruct Hst; congruence|].
    by apply (W1 j q k x Hq' (conj Hs Hc) Hx').
  - intros j q Hq. destruct (Hcase j q Hq) as [[-> ->]|[_ Hq']]; [|by eapply W2].
    destruct Hv as [->| ->]; unfold view_of in Ev; injection Ev as _ _ Epar; rewrite Epar.
    + by eapply W2.
    + intros [= ->]. rewrite Hp in Hcur. simpl in Hcur. congruence.
  - rewrite E3. intros q Hq. destruct (Hcase _ q Hq) as [[Ei _]|[_ Hq']]; [|by apply W3].
    rewrite <- Ei in Hp. pose proof (init_alive _ _ Hinv Hp) as Ha. rewrite Hu in Ha. unfold alive in Ha. naive_solver.
Qed.

(** ** [exit] *)

(** The exiting process [cur] runs, and its parent does not sleep in [wait]. *)
Definition leaving (cur : nat) s : Prop :=
  winv s /\ cur <> initproc s /\
  exists pc, procs s !! cur = Some pc /\ state pc = RUNNING /\
    forall q x, parent pc = Some q -> procs s !! q = Some x -> ~ waiting q x.

(** A step that only wakes processes and gives zombie children to a parent that
    is not in [wait]. *)
Lemma leaving_step cur s s' : initproc s' = initproc s ->
  (forall j x', procs s' !! j = Some x' -> exists x, procs s !! j = Some x /\
     (waiting j x' -> waiting j x) /\ (state x' = ZOMBIE -> state x = ZOMBIE) /\
     (parent x' = parent x \/ parent x = Some cur /\ parent x' = Some (initproc s) /\
       (state x = ZOMBIE -> forall y, procs s' !! initproc s = Some y -> ~ waiting (initproc s) y))) ->
  (forall pc, procs s !! cur = Some pc -> state pc = RUNNING ->
     exists pc', procs s' !! cur = Some pc' /\ state pc' = RUNNING) ->
  leaving cur s -> leaving cur s'.
Proof.
  intros Hini Hs Hrun ([W1 W2 W3] & Hne & pc & Hpc & Hst & Hq).
  destruct (Hrun pc Hpc Hst) as (pc' & Hpc' & Hst').
  split; [split|].
  - intros i p' j q' Hp Hw Hqj [Hz Hpar]. destruct (Hs i p' Hp) as (p & Hp0 & Hw0 & _).
    destruct (Hs j q' Hqj) as (q & Hq0 & _ & Hz0 & [E|(_ & E & Hno)]).
    + apply (W1 i p j q Hp0 (Hw0 Hw) Hq0). split; [by apply Hz0|congruence].
    + assert (i = initproc s) as -> by congruence. exact (Hno (Hz0 Hz) p' Hp Hw).
  - intros i p' Hp. destruct (Hs i p' Hp) as (p & Hp0 & _ & _ & [->|(Ec & -> & _)]); [by eapply W2|].
    intros [= E]. rewrite <- E in Hp0. rewrite (W3 p Hp0) in Ec. done.
  - rewrite Hini. intros p' Hp. destruct (Hs _ p' Hp) as (p & Hp0 & _ & _ & [->|(Ec & _ & _)]); [by apply W3|].
    rewrite (W3 p Hp0) in Ec. done.
  - split; [congruence|]. exists pc'. split; [done|]. split; [done|]. intros q x Hpar Hx Hw.
    destruct (Hs cur pc' Hpc') as (pc0 & Hpc0 & _ & _ & [E|(Ec & _ & _)]).
    + destruct (Hs q x Hx) as (x0 & Hx0 & Hw0 & _). assert (pc0 = pc) as -> by congruence.
      apply (Hq q x0); [congruence|done|by apply Hw0].
    + by apply (W2 cur pc0) in Hpc0.
Qed.

Lemma leaving_wakeup cur ch s u s' : wakeup1 ch s = Ok u s' -> leaving cur s -> leaving cur s'.
Proof.
  unfold wakeup1, modify. intros [= _ <-]. apply leaving_step; [done| |].
  - cbn. intros j x'. rewrite list_lookup_fmap. destruct (procs s !! j) as [x|]; [|done]. intros [= <-].
    exists x. split; [done|]. destruct (_ && _); cbn; (split_and!; [|done|by left]); [by intros [? _]|done].
  - cbn. intros pc Hpc Hst. rewrite list_lookup_fmap, Hpc. eexists. split; [reflexivity|].
    rewrite bool_decide_eq_false_2 by congruence. done.
Qed.

(** One child given to init, with the wakeup when it is a zombie. *)
Lemma leaving_adopt cur i p s u s1 u' s' : procs s !! i = Some p -> parent p = Some cur ->
  upd i (set_parent (Some (initproc s))) s = Ok u s1 ->
  when (bool_decide (state p = ZOMBIE)) (wakeup1 (ChProc (initproc s))) s1 = Ok u' s' ->
  leaving cur s -> leaving cur s'.
Proof.
  intros Hp Hpar H1 H2. apply upd_core in H1. unfold core in H1. injection H1 as E1 _ E2 _.
  assert (forall j x', procs s1 !! j = Some x' -> exists x, procs s !! j = Some x /\ state x' = state x /\
    pchan x' = pchan x /\ (i = j /\ x = p /\ parent x' = Some (initproc s) \/ i <> j /\ parent x' = parent x)) as Hs1.
  { intros j x'. rewrite E1. destruct (decide (i = j)) as [<-|Hne].
    - rewrite list_lookup_alter_eq, Hp. intros [= <-]. exists p. split_and!; try done. left. done.
    - rewrite list_lookup_alter_ne by done. intros Hx. exists x'. split_and!; try done. by right. }
  set (wk x := if bool_decide (state p = ZOMBIE) && (bool_decide (state x = SLEEPING) &&
    bool_decide (pchan x = ChProc (initproc s))) then set_state RUNNABLE x else x).
  assert (procs s' = map wk (procs s1) /\ initproc s' = initproc s1) as [E3 E4].
  { subst wk. destruct (bool_decide (state p = ZOMBIE)); cbn [when] in H2.
    - unfold wakeup1, modify in H2. by injection H2 as _ <-.
    - injection H2 as _ <-. split; [|done]. symmetry. apply map_id. }
  assert (forall j x', procs s' !! j = Some x' -> exists x, procs s1 !! j = Some x /\ x' = wk x) as Hs2.
  { intros j x'. rewrite E3, list_lookup_fmap. destruct (procs s1 !! j) as [x|]; [|done]. intros [= <-]. eauto. }
  apply leaving_step; [congruence| |].
  - intros j x' Hx'. destruct (Hs2 j x' Hx') as (x1 & Hx1 & ->). destruct (Hs1 j x1 Hx1) as (x & Hx & Es & Ec & Epar).
    exists x. split; [done|]. assert (parent (wk x1) = parent x1) as -> by (subst wk; cbv beta; by case_match).
    split; [|split].
    + intros [Hw Hc]. subst wk. cbv beta in Hw, Hc. destruct (_ && _); [done|]. split; congruence.
    + subst wk. cbv beta. destruct (_ && _); [done|congruence].
    + destruct Epar as [(-> & -> & Ep)|[_ Ep]]; [|by left]. right. split_and!; [done|done|].
      intros Hz y Hy Hwy. destruct (Hs2 _ y Hy) as (y1 & _ & ->). subst wk. cbv beta in Hwy.
      rewrite (bool_decide_eq_true_2 (state p = ZOMBIE)) in Hwy by done. cbn [andb] in Hwy.
      destruct Hwy as [Hw Hc]. destruct (bool_decide (state y1 = SLEEPING)) eqn:B1; cbn [andb] in *.
      * destruct (bool_decide (pchan y1 = _)) eqn:B2; [done|]. by apply bool_decide_eq_false in B2.
      * by apply bool_decide_eq_false in B1.
  - intros pc Hpc Hst.
    assert (exists y, procs s1 !! cur = Some y /\ state y = RUNNING) as (y & Hy & Hys).
    { rewrite E1. destruct (decide (i = cur)) as [->|Hne].
      - rewrite list_lookup_alter_eq, Hpc. eexists. split; [reflexivity|]. done.
      - rewrite list_lookup_alter_ne by done. eauto. }
    rewrite E3, list_lookup_fmap, Hy. eexists. split; [reflexivity|]. subst wk. cbv beta.
    rewrite (bool_decide_eq_false_2 (state y = SLEEPING)) by congruence. by rewrite andb_false_r.
Qed.

Lemma leaving_reparent cur k i s u s' : reparent cur i k s = Ok u s' -> leaving cur s -> leaving cur s'.
Proof.
  revert i s. induction k as [|k IH]; intros i s H Hl; [cbn in H; by injection H as _ <-|].
  cbn [reparent] in H. apply bind_ok_inv in H as (sx & s1 & Hget & H). unfold get in Hget. injection Hget as <- <-.
  apply bind_ok_inv in H as (u1 & s1 & H1 & H). apply (IH (S i) s1); [exact H|]. clear H IH.
  case_bool_decide as Hpar; cbn [when] in H1; [|by injection H1 as _ <-].
  apply bind_ok_inv in H1 as (u2 & s2 & H2 & H3). unfold proc_at in Hpar, H3.
  destruct (procs s !! i) as [p|] eqn:Hp; [|done]. simpl in Hpar, H3. by eapply leaving_adopt.
Qed.

Lemma close_files_leaving cur fd fs s u s' : close_files cur fd fs s = Ok u s' -> winv s ->
  winv s' /\ core s' = (procs s', nextpid s, initproc s, cpus s) /\
  state <$> procs s' !! cur = state <$> procs s !! cur /\ parent <$> procs s' !! cur = parent <$> procs s !! cur.
Proof.
  revert fd s. induction fs as [|f fs IH]; intros fd s H Hw; cbn [close_files] in H; [by injection H as _ <-|].
  apply bind_ok_inv in H as (u1 & s1 & H1 & H2).
  assert (winv s1 /\ core s1 = (procs s1, nextpid s, initproc s, cpus s) /\
    state <$> procs s1 !! cur = state <$> procs s !! cur /\ parent <$> procs s1 !! cur = parent <$> procs s !! cur)
    as (Hw1 & C1 & S1 & P1).
  { destruct (negb (f =? 0)); cbn [when] in H1; [|by injection H1 as _ <-].
    apply bind_ok_inv in H1 as (u2 & s2 & H1 & H3). apply on_env_core in H1.
    pose proof (upd_core _ _ _ _ _ H3) as C. unfold core in *. injection H1 as E1 E2 E3 E4.
    injection C as F1 F2 F3 F4. split; [|rewrite F1, F2, F3, F4, E2, E3, E4; split; [done|]].
    - eapply upd_winv; [|exact H3|eapply winv_procs; [exact E1|exact E3|done]].
      intros p _. split_and!; [by intros [? ?]|by intros k [? ?]|by left].
    - rewrite E1, list_lookup_alter_eq. by destruct (procs s !! cur). }
  destruct (IH _ _ H2 Hw1) as (Hw' & C' & S' & P'). unfold core in *. injection C1 as D1 D2 D3.
  rewrite S', P', S1, P1. injection C' as D4 D5 D6. rewrite D4, D5, D6, D1, D2, D3. done.
Qed.

(** After the wakeup of its parent, [cur] can leave. *)
Lemma leaving_start cur s u s' pc : procs s !! cur = Some pc -> state pc = RUNNING -> cur <> initproc s ->
  wakeup1 (match parent pc with Some q => ChProc q | None => NoChan end) s = Ok u s' -> winv s -> leaving cur s'.
Proof.
  intros Hpc Hst Hne H Hw. split; [by eapply wakeup1_winv|]. unfold wakeup1, modify in H. injection H as _ <-. cbn.
  split; [done|]. exists pc. rewrite list_lookup_fmap, Hpc. simpl.
  rewrite (bool_decide_eq_false_2 (state pc = SLEEPING)) by congruence. cbn [andb].
  split_and!; [done|done|]. intros q x Hq. rewrite Hq, list_lookup_fmap. destruct (procs s !! q) as [y|]; [|done].
  intros [= <-] [Hw1 Hw2]. destruct (bool_decide (state y = SLEEPING)) eqn:B1; cbn [andb] in *.
  - destruct (bool_decide (pchan y = ChProc q)) eqn:B2; [done|]. by apply bool_decide_eq_false in B2.
  - by apply bool_decide_eq_false in B1.
Qed.

Lemma exit_winv c cur s u s' : runs c cur s -> exit c cur s = Ok u s' -> pinv s -> winv s -> winv s'.
Proof.
  intros Hr H Hinv Hw. pose proof (cur_running _ _ _ Hinv Hr) as Hcur.
  unfold exit in H. apply bind_ok_inv in H as (sx & s1 & Hg & H). unfold get in Hg.
  injection Hg as <- <-. case_bool_decide as Hini; [done|].
  apply bind_ok_inv in H as (p & s1 & Hg & H). unfold gets in Hg. injection Hg as <- <-.
  apply bind_ok_inv in H as (u1 & s1 & H1 & H).
  destruct (close_files_leaving _ _ _ _ _ _ H1 Hw) as (Hw1 & C1 & S1 & P1).
  apply bind_ok_inv in H as (u2 & s2 & H2 & H). apply on_env_core in H2.
  apply bind_ok_inv in H as (u3 & s3 & H3 & H). apply bind_ok_inv in H as (u4 & s4 & H4 & H).
  apply bind_ok_inv in H as (u5 & s5 & H5 & H). apply bind_ok_inv in H as (u6 & s6 & H6 & H).
  assert (winv s3) as Hw3.
  { eapply upd_winv; [|exact H3|by eapply winv_core]. intros q _. split_and!; [by intros [? ?]|by intros k [? ?]|by left]. }
  apply upd_core in H3. unfold core in C1, H2, H3. injection C1 as _ C1 _. injection H2 as F1 _ F2 _.
  injection H3 as G1 _ G2 _.
  destruct (procs s !! cur) as [p0|] eqn:Hp0; [|done]. simpl in Hcur. injection Hcur as Hst0.
  assert (exists pc, procs s3 !! cur = Some pc /\ state pc = RUNNING /\ parent pc = parent p0) as (pc & Hpc & Hst & Hpar).
  { rewrite G1, F1, list_lookup_alter_eq. destruct (procs s1 !! cur) as [p1|]; [|done]. simpl in *.
    injection S1 as S1. injection P1 as P1. exists (set_cwd 0 p1). split; [done|]. cbn. by rewrite S1, P1. }
  assert (leaving cur s5) as (Hw5 & Hne5 & pc5 & Hpc5 & Hst5 & Hq5).
  { eapply leaving_reparent; [exact H5|]. unfold proc_at in H4. rewrite Hp0 in H4. simpl in H4.
    rewrite <- Hpar in H4. eapply leaving_start; [exact Hpc|exact Hst|congruence|exact H4|exact Hw3]. }
  apply sched_winv in H as [E1 E2]. eapply winv_procs; [exact E1|exact E2|].
  apply upd_core in H6. unfold core in H6. injection H6 as I1 _ I2 _. destruct Hw5 as [W1 W2 W3].
  assert (forall j x, procs s6 !! j = Some x -> (j = cur /\ x = set_state ZOMBIE pc5) \/ (j <> cur /\ procs s5 !! j = Some x)) as Hcase.
  { intros j x. rewrite I1. destruct (decide (cur = j)) as [<-|Hne].
    - rewrite list_lookup_alter_eq, Hpc5. intros [= <-]. auto.
    - rewrite list_lookup_alter_ne by done. auto. }
  split.
  - intros i x j y Hx Hwx Hy [Hz Hy1]. destruct (Hcase i x Hx) as [[-> ->]|[_ Hx5]]; [by destruct Hwx|].
    destruct (Hcase j y Hy) as [[-> ->]|[_ Hy5]]; [by apply (Hq5 i x)|by apply (W1 i x j y)].
  - intros i x Hx. destruct (Hcase i x Hx) as [[-> ->]|[_ Hx5]]; [by apply (W2 cur pc5)|by eapply W2].
  - rewrite I2. intros x Hx. destruct (Hcase _ x Hx) as [[Ec _]|[_ Hx5]]; [congruence|by apply W3].
Qed.

(** ** [wait] *)

Lemma wait_scan_none cur i l b b' : wait_scan cur i l b = (None, b') -> Forall (fun p => ~ dead_child cur p) l.
Proof.
  revert i b. induction l as [|p l IH]; intros i b; simpl; [constructor|].
  case_bool_decide as Hp; simpl.
  - case_bool_decide as Hz; [done|]. intros H. constructor; [by intros [? _]|by eapply IH].
  - intros H. constructor; [by intros [_ ?]|by eapply IH].
Qed.

Lemma sleep_wait_winv c cur s u s' : Forall (fun p => ~ dead_child cur p) (procs s) ->
  sleep c cur (ChProc cur) s = Ok u s' -> winv s -> winv s'.
Proof.
  intros Hnone H [W1 W2 W3]. unfold sleep in H. apply bind_ok_inv in H as (u1 & s1 & H1 & H).
  apply bind_ok_inv in H as (u2 & s2 & H2 & H). apply sched_winv in H as [E1 E2].
  eapply winv_procs; [exact E1|exact E2|]. apply upd_core in H1, H2. unfold core in *.
  injection H1 as A1 _ A2 _. injection H2 as B1 _ B2 _.
  assert (forall j x, procs s2 !! j = Some x -> exists y, procs s !! j = Some y /\ parent x = parent y /\
    (j = cur /\ state x = SLEEPING \/ j <> cur /\ x = y)) as Hcase.
  { intros j x. rewrite B1, A1. destruct (decide (cur = j)) as [<-|Hne].
    - rewrite !list_lookup_alter_eq. destruct (procs s !! cur) as [y|]; [|done]. intros [= <-]. exists y. split_and!; auto.
    - rewrite !list_lookup_alter_ne by done. intros Hx. exists x. split_and!; auto. }
  split.
  - intros i x j y Hx Hwx Hy [Hz Hyp]. destruct (Hcase i x Hx) as (x0 & Hx0 & _ & Hxc).
    destruct (Hcase j y Hy) as (y0 & Hy0 & Ey & [[-> ?]|[Hjc ->]]); [congruence|].
    destruct Hxc as [[-> _]|[_ ->]].
    + by apply (Forall_lookup_1 _ _ _ _ Hnone Hy0).
    + by apply (W1 i x0 j y0).
  - intros i x Hx. destruct (Hcase i x Hx) as (y & Hy & -> & _). by eapply W2.
  - rewrite B2, A2. intros x Hx. destruct (Hcase _ x Hx) as (y & Hy & -> & _). by apply W3.
Qed.

Lemma upd_tame i f s u s' : (forall p, state (f p) = state p /\ pchan (f p) = pchan p /\
    (parent (f p) = parent p \/ parent (f p) = None)) -> upd i f s = Ok u s' -> winv s -> winv s'.
Proof.
  intros Hf. apply upd_winv. intros p _. destruct (Hf p) as (E1 & E2 & E3). split_and!.
  - unfold waiting. by rewrite E1, E2.
  - intros k [Hz Hk]. destruct E3 as [E3|E3]; [|congruence]. split; congruence.
  - done.
Qed.

Lemma wait_winv c cur r s s' : wait kend c cur s = Ok r s' -> winv s -> winv s'.
Proof.
  intros H Hw. unfold wait in H. apply bind_ok_inv in H as (sx & s1 & Hg & H). unfold get in Hg.
  injection Hg as <- <-. destruct (wait_scan cur 0 (procs s) false) as [[i|] hk] eqn:Hscan.
  - apply bind_ok_inv in H as (p0 & s0 & Hg & H). unfold gets in Hg. injection Hg as <- <-.
    apply bind_ok_inv in H as (u1 & s1 & H1 & H). apply on_km_core in H1.
    apply bind_ok_inv in H as (u2 & s2 & H2 & H). apply bind_ok_inv in H as (u3 & s3 & H3 & H).
    apply on_km_core in H3. apply bind_ok_inv in H as (u4 & s4 & H4 & H).
    apply bind_ok_inv in H as (u5 & s5 & H5 & H). apply bind_ok_inv in H as (u6 & s6 & H6 & H).
    apply bind_ok_inv in H as (u7 & s7 & H7 & H). apply bind_ok_inv in H as (u8 & s8 & H8 & H).
    injection H as _ <-. eapply upd_winv; [|exact H8|]; [intros p _; by apply tamer_state|].
    eapply upd_tame; [|exact H7|]; [by auto|]. eapply upd_tame; [|exact H6|]; [by auto|].
    eapply upd_tame; [|exact H5|]; [by auto|]. eapply upd_tame; [|exact H4|]; [by auto|].
    eapply winv_core; [exact H3|]. eapply upd_tame; [|exact H2|]; [by auto|]. by eapply winv_core.
  - destruct (negb hk || killed (proc_at cur s)); [by injection H as _ <-|].
    apply bind_ok_inv in H as (u1 & s1 & H1 & H). injection H as _ <-.
    eapply sleep_wait_winv; [by eapply wait_scan_none|exact H1|done].
Qed.

Lemma step_winv s s' : step kend kdata forkret s s' -> pinv s -> winv s -> winv s'.
Proof.
  destruct 1; intros Hinv; eauto using schedule_winv, yield_winv, sleep_addr_winv, wakeup1_winv, kill_winv, fork_winv,
    growproc_winv, exit_winv, wait_winv.
  eapply upd_winv; [|done]. intros p _. split_and!; [by intros [_ ?]|by intros k [? ?]|by left].
Qed.

Lemma userinit_winv initcode root s u s' : boot_table s ->
  userinit kend kdata forkret initcode root s = Ok u s' -> winv s'.
Proof.
  intros Hb H. destruct (userinit_slot _ _ _ _ _ _ _ _ Hb H) as (q & Hlt & F1 & Fv & _).
  unfold view_of in Fv. injection Fv as Es _ Ep.
  assert (forall j x, procs s' !! j = Some x -> x = q \/ x = proc0) as Hx.
  { intros j x. rewrite F1. destruct (decide (initproc s' = j)) as [<-|Hne].
    - rewrite list_lookup_insert_eq by (by rewrite length_replicate). intros [= <-]. by left.
    - rewrite list_lookup_insert_ne by done. intros Hl. apply lookup_replicate_1 in Hl as [-> _]. by right. }
  split.
  - intros i x j y Hi [Hs _]. destruct (Hx i x Hi) as [->| ->]; [congruence|done].
  - intros i x Hi. destruct (Hx i x Hi) as [->| ->]; [congruence|done].
  - intros x Hi. destruct (Hx _ x Hi) as [->| ->]; [congruence|done].
Qed.

(** C16. [userinit] establishes the invariant of the process table and every
    sequence of steps keeps it: each CPU runs its own RUNNING process and each
    RUNNING process is on a CPU, pids in use are distinct and positive, and
    init and every parent recorded in the table are alive.  The steps are those of
    [step], in which [fork] is called while [nextpid] is below 2^31 - 1: the counter
    of the code has no check, and distinct pids are lost once it wraps. *)
Theorem proc_invariant :
  (forall initcode root s u s', boot_table s ->
     userinit kend kdata forkret initcode root s = Ok u s' -> pinv s') /\
  (forall s s', rtc (step kend kdata forkret) s s' -> pinv s -> pinv s').
Proof.
  split; [apply userinit_inv|]. intros s s' Hr. induction Hr as [|x y z Hs _ IH]; [done|].
  intros Hx. apply IH. by eapply proc_step_inv.
Qed.

(** C17. No wakeup of a waiting parent is lost: in no state that the steps reach
    does a process sleep in [wait] while one of its children is a zombie.  [exit]
    wakes the parent before it becomes a zombie, and init when it passes a zombie
    to it. *)
Theorem wait_no_lost_child s s' : rtc (step kend kdata forkret) s s' -> pinv s -> winv s ->
  forall i p j q, procs s' !! i = Some p -> state p = SLEEPING -> pchan p = ChProc i ->
    procs s' !! j = Some q -> parent q = Some i -> state q <> ZOMBIE.
Proof.
  intros Hr Hp Hw. assert (winv s') as W.
  { induction Hr as [|x y z Hs _ IH]; [done|]. apply IH; [by eapply proc_step_inv|by eapply step_winv]. }
  intros i p j q Hi Hs Hc Hj Hpar Hz. by apply (w_wait _ W i p j q).
Qed.

(** [kill(0)] succeeds when the table has an unused slot that was freed or
    never used: it marks that slot, and the mark is still there when [allocproc]
    hands the slot out, so that the next process is killed before it runs. *)
Theorem kill_zero_poisons_slot s i p :
  procs s !! i = Some p -> pid p = 0 -> state p = UNUSED ->
  (forall j q, (j < i)%nat -> procs s !! j = Some q -> pid q <> 0 /\ state q <> UNUSED) ->
  exists s1, kill 0 s = Ok 0 s1 /\
    forall r s2, allocproc forkret s1 = Ok (Some r) s2 -> r = i /\ killed (proc_at i s2) = true.
Proof.
  intros Hp Hpid Hst Hmin.
  assert (forall l (f : proc -> bool) k i0, (forall j q, (j < i0)%nat -> l !! j = Some q -> f q = false) ->
    (exists q, l !! i0 = Some q /\ f q = true) -> find_proc f k l = Some (k + i0)%nat) as Hfind.
  { induction l as [|x l IH]; intros f k i0 H1 (q & H2 & H3); [done|]. simpl. destruct i0 as [|i0].
    - simpl in H2. simplify_eq. rewrite H3. f_equal. lia.
    - rewrite (H1 0%nat x) by (done || lia). rewrite (IH f (S k) i0); [f_equal; lia| |by exists q].
      intros j y Hj Hy. apply (H1 (S j)); [lia|done]. }
  set (s1 := set_procs (alter (set_killed true) i (procs s)) s).
  exists s1. split.
  - unfold kill. msimpl. rewrite (Hfind _ _ 0%nat i); cbn [Nat.add].
    + unfold proc_at. rewrite Hp. cbn [default]. rewrite bool_decide_eq_false_2 by (simpl; congruence). done.
    + intros j q Hj Hq. apply Z.eqb_neq. by apply (Hmin j q).
    + exists p. split; [done|]. by apply Z.eqb_eq.
  - intros r s2 H.
    assert (procs s1 !! i = Some (set_killed true p)) as Hi1.
    { subst s1. cbn. by rewrite list_lookup_alter_eq, Hp. }
    unfold allocproc in H. apply bind_ok_inv in H as (s0 & s0' & Hg & H). unfold get in Hg. injection Hg as <- <-.
    rewrite (Hfind _ _ 0%nat i) in H; cbn [Nat.add] in H.
    + apply bind_ok_inv in H as (u1 & a1 & H1 & H). apply bind_ok_inv in H as (u2 & a2 & H2 & H).
      apply bind_ok_inv in H as (u3 & a3 & H3 & H). apply bind_ok_inv in H as (k & a4 & H4 & H).
      apply bind_ok_inv in H as (u5 & a5 & H5 & H). unfold modify in H3. injection H3 as _ <-.
      apply on_km_core in H4. apply upd_core in H1, H2, H5. unfold core in *.
      injection H1 as A1 _ _ _. injection H2 as A2 _ _ _. cbn in H4. injection H4 as A4 _ _ _.
      injection H5 as A5 _ _ _. destruct (k =? 0).
      { apply bind_ok_inv in H as (u6 & a6 & H6 & H). done. }
      apply bind_ok_inv in H as (u6 & a6 & H6 & H). injection H as <- <-. split; [done|].
      apply upd_core in H6. unfold core in H6. injection H6 as A6 _ _ _. unfold proc_at.
      rewrite A6, A5, A4, A2, A1. rewrite !list_lookup_alter_eq. by rewrite Hp.
    + intros j q Hj. subst s1. cbn. rewrite list_lookup_alter_ne by lia. intros Hq.
      apply bool_decide_eq_false. by apply (Hmin j q).
    + exists (set_killed true p). split; [done|]. apply bool_decide_eq_true. done.
Qed.

(** [growproc(-sz)], which asks for an empty address space, unmaps and frees
    every user page and then reports failure, with the process's size
    unchanged: the failure test is on the size that [deallocuvm] returns, and 0
    is the size asked for. *)
Theorem growproc_to_zero s cur p l :
  KERNBASE < kend -> procs s !! cur = Some p -> as_ok kend (km s) (pgdir p) l -> 0 < sz p <= KERNBASE ->
  exists s', growproc kend cur (- sz p) s = Ok (-1) s' /\ procs s' = procs s /\
    unmapped (km s) (km s') (pgdir p) 0 (sz p).
Proof.
  intros Hk Hp Has Hsz.
  destruct (deallocuvm_spec kend Hk (pgdir p) (sz p) 0 (km s) l Has ltac:(lia) ltac:(lia)) as (k & l' & E & _ & _ & Hu & _).
  exists (mkpsys (procs s) (nextpid s) (initproc s) (cpus s) k (fenv s)).
  split; [|by split]. unfold growproc, gets, mbind, M_bind. unfold proc_at. rewrite Hp. cbn [default from_option]. unfold id.
  destruct (Z.gtb_spec (- sz p) 0); [lia|]. destruct (Z.ltb_spec (- sz p) 0); [|lia].
  replace (sz p + - sz p) with 0 by lia. change (u32 0) with 0. unfold on_km. rewrite E. done.
Qed.

End Wait.

(** ** Witnesses *)

Module ProcExample.

(** Files that are only counted. *)
#[global] Instance count_env : ProcEnv Z := {
  env_filedup := fun _ n => Ok tt (n + 1);
  env_fileclose := fun _ n => Ok tt (n - 1);
  env_idup := fun _ n => Ok tt (n + 1);
  env_iput := fun _ n => Ok tt (n - 1)
}.

Definition init_p : proc := set_pid 1 (set_state RUNNING proc0).
Definition child_p : proc := set_parent (Some 0%nat) (set_pid 2 (set_state RUNNABLE proc0)).
Definition other_p : proc := set_parent (Some 1%nat) (set_pid 3 (set_state ZOMBIE proc0)).

(** init runs on CPU 0; its child can run; the child's child is a zombie. *)
Definition ps0 : psys := mkpsys [init_p; child_p; other_p; proc0] 4 0 [Some 0%nat; None] VmExample.vm0 5.

Lemma ps0_inv : pinv ps0.
Proof.
  split; cbn [views ps0 procs cpus nextpid initproc map].
  - intros [|[|c]] i; simpl; [intros [= <-]; done|done|by destruct c].
  - intros [|[|[|[|i]]]]; simpl; try done. intros _. by exists 0%nat.
  - intros [|[|c]] [|[|c']] i; simpl; try done; try (by destruct c); by destruct c'.
  - intros [|[|[|[|i]]]] v; simpl; intros; simplify_eq; cbn; try lia; try done.
  - lia.
  - intros [|[|[|[|i]]]] [|[|[|[|j]]]] v w; simpl; intros; simplify_eq; cbn in *; congruence.
  - eexists. split; [reflexivity|]. unfold alive. cbn. tauto.
  - intros [|[|[|[|i]]]] v q; simpl; intros; simplify_eq; cbn in *; simplify_eq;
      (eexists; split; [reflexivity|unfold alive; cbn; tauto]).
Qed.

Lemma ps0_winv : winv ps0.
Proof.
  split; cbn [ps0 procs initproc].
  - intros [|[|[|[|i]]]] p j q Hp [Hs _]; simpl in Hp; simplify_eq; cbn in *; congruence.
  - intros [|[|[|[|i]]]] p Hp; simpl in Hp; simplify_eq; done.
  - intros p Hp. simpl in Hp. by simplify_eq.
Qed.

(** init waits; the child is scheduled and exits, so its zombie child and
    itself are left to init. *)
Definition ps1 : psys (F := Z) := match wait VmExample.kend3 0 0 ps0 with Ok _ s => s | _ => ps0 end.
Definition ps2 : psys (F := Z) := match schedule 1 1 ps1 with Ok _ s => s | _ => ps1 end.
Definition ps3 : psys (F := Z) := match exit 1 1 ps2 with Ok _ s => s | _ => ps2 end.

Lemma ps_run : rtc (step VmExample.kend3 0 0) ps0 ps3.
Proof.
  apply (rtc_l _ _ ps1); [apply (step_wait _ _ _ 0 0 None); reflexivity|].
  apply (rtc_l _ _ ps2); [apply (step_schedule _ _ _ 1 1 true); reflexivity|].
  apply (rtc_l _ _ ps3); [apply (step_exit _ _ _ 1 1); reflexivity|apply rtc_refl].
Qed.

End ProcExample.
Import ProcExample.

Lemma proc_invariant_witness : pinv ps3 /\ map state (procs ps3) = [RUNNABLE; ZOMBIE; ZOMBIE; UNUSED].
Proof.
  split; [|reflexivity]. apply (proc_invariant VmExample.kend3 0 0) with (s := ps0); [apply ps_run|apply ps0_inv].
Defined.

(** While the child of init runs, init sleeps in [wait]. *)
Lemma wait_no_lost_child_witness : rtc (step VmExample.kend3 0 0) ps0 ps2 /\
  map state (procs ps2) = [SLEEPING; RUNNING; ZOMBIE; UNUSED] /\
  (forall p q, procs ps2 !! 0%nat = Some p -> procs ps2 !! 1%nat = Some q -> state q <> ZOMBIE).
Proof.
  assert (rtc (step VmExample.kend3 0 0) ps0 ps2) as Hr.
  { apply (rtc_l _ _ ps1); [apply (step_wait _ _ _ 0 0 None); reflexivity|].
    apply (rtc_l _ _ ps2); [apply (step_schedule _ _ _ 1 1 true); reflexivity|apply rtc_refl]. }
  split; [exact Hr|]. split; [reflexivity|]. intros p q Hp Hq. vm_compute in Hp, Hq.
  injection Hp as <-. injection Hq as <-.
  eapply (wait_no_lost_child VmExample.kend3 0 0 ps0 ps2 Hr ps0_inv ps0_winv 0 _ 1); reflexivity.
Defined.

Lemma kill_zero_poisons_slot_witness : exists s1, kill 0 ps0 = Ok 0 s1 /\
  forall r s2, allocproc 0 s1 = Ok (Some r) s2 -> r = 3%nat /\ killed (proc_at 3 s2) = true.
Proof.
  apply (kill_zero_poisons_slot 0 ps0 3 proc0); [reflexivity|reflexivity|reflexivity|].
  intros [|[|[|j]]] q Hj Hq; cbn in Hq; simplify_eq; try lia; split; done.
Defined.

Definition ps_grow : psys (F := Z) :=
  mkpsys [set_pgdir VmExample.dir (set_sz PGSIZE init_p)] 2 0 [Some 0%nat] VmExample.vm0 0.

Lemma growproc_to_zero_witness : exists s',
  growproc VmExample.kend3 0 (- PGSIZE) ps_grow = Ok (-1) s' /\ procs s' = procs ps_grow.
Proof.
  destruct (growproc_to_zero VmExample.kend3 ps_grow 0 (set_pgdir VmExample.dir (set_sz PGSIZE init_p))
    [VmExample.page1; VmExample.page2] VmExample.kend3_high eq_refl VmExample.vm0_as) as (s' & E & Hp & _).
  - cbn. unfold PGSIZE, KERNBASE. lia.
  - exists s'. split; [exact E|exact Hp].
Defined.
