(* ===== verification/UPrintf.v ===== *)
(** * The user library's formatted output (user/lib/printf.c)

    [printint] and the format loop of [printf], as functions from the format
    string and the words on the stack to the bytes they put.  [args n] is the n-th
    word after the format and [str_at a] the C string at the address [a]. *)

From S2P Require Import Prelude.

(** [do{ buf[i++] = digits[x % base]; }while((x /= base) != 0);]: the bytes
    stored, in order.  32 rounds are enough for a [uint] in any base from 2. *)
Fixpoint put_digits (fuel : nat) (digits : list Z) (x base : Z) : list Z :=
  match fuel with
  | O => []
  | S f =>
      aget 0 digits (x mod base) ::
      (if x / base =? 0 then [] else put_digits f digits (x / base) base)
  end.

Module UPrintf.

Definition digits : list Z := cs "0123456789ABCDEF".

Definition printint (xx base sgn : Z) : list Z :=
  let neg := negb (sgn =? 0) && (xx <? 0) in
  let x := if neg then u32 (- xx) else u32 xx in
  let buf := put_digits 32 digits x base in
  rev (if neg then buf ++ [chr "-"] else buf).

Section Format.
Context (args : nat -> Z) (str_at : Z -> list Z).

(** [state] is 0 or '%'; [putc] writes one [char]. *)
Fixpoint printf_loop (fmt : list Z) (state : Z) (ap : nat) : list Z :=
  match fmt with
  | [] => []
  | c :: fmt' =>
      if c =? 0 then [] else
      if state =? 0 then
        if c =? chr "%" then printf_loop fmt' (chr "%") ap
        else c :: printf_loop fmt' state ap
      else if state =? chr "%" then
        if c =? chr "d" then printint (s32 (args ap)) 10 1 ++ printf_loop fmt' 0 (S ap)
        else if (c =? chr "x") || (c =? chr "p")
        then printint (s32 (args ap)) 16 0 ++ printf_loop fmt' 0 (S ap)
        else if c =? chr "s"
        then (if args ap =? 0 then cs "(null)" else str_at (args ap)) ++ printf_loop fmt' 0 (S ap)
        else if c =? chr "c" then u8 (args ap) :: printf_loop fmt' 0 (S ap)
        else if c =? chr "%" then c :: printf_loop fmt' 0 ap
        else chr "%" :: c :: printf_loop fmt' 0 ap
      else printf_loop fmt' state ap
  end.

End Format.

Definition printf (args : nat -> Z) (str_at : Z -> list Z) (fmt : list Z) : list Z :=
  printf_loop args str_at fmt 0 0.

End UPrintf.
