(* ===== verification/Printf.v ===== *)
(** * The kernel's formatted output and its agreement with the user library's
    (system/devices/console.c, user/lib/printf.c)

    [printint] and the format loop of [cprintf], as functions from the format
    string, which is not null, and the words on the stack to the bytes they put, as
    in UPrintf.v; [cons.lock], which [cprintf] holds meanwhile, makes a call one
    step.  The theorems are about both formatters. *)

From S2P Require Import Prelude CString ULib UPrintf.

Module Cons.

Definition digits : list Z := cs "0123456789abcdef".

(** The bytes that the last loop puts: [buf] backwards. *)
Definition printint (xx base sign : Z) : list Z :=
  let neg := negb (sign =? 0) && (xx <? 0) in
  let x := if neg then u32 (- xx) else u32 xx in
  let buf := put_digits 32 digits x base in
  rev (if neg then buf ++ [chr "-"] else buf).

Section Format.
Context (args : nat -> Z) (str_at : Z -> list Z).

Definition put_string (a : Z) : list Z := if a =? 0 then cs "(null)" else str_at a.

Fixpoint cprintf_loop (fmt : list Z) (argp : nat) : list Z :=
  match fmt with
  | [] => []
  | c :: fmt' =>
      if c =? 0 then [] else
      if negb (c =? chr "%") then c :: cprintf_loop fmt' argp else
      match fmt' with
      | [] => []
      | c :: fmt' =>
          if c =? 0 then [] else
          if c =? chr "d" then printint (s32 (args argp)) 10 1 ++ cprintf_loop fmt' (S argp)
          else if (c =? chr "x") || (c =? chr "p")
          then printint (s32 (args argp)) 16 0 ++ cprintf_loop fmt' (S argp)
          else if c =? chr "s" then put_string (args argp) ++ cprintf_loop fmt' (S argp)
          else if c =? chr "%" then chr "%" :: cprintf_loop fmt' argp
          else chr "%" :: c :: cprintf_loop fmt' argp
      end
  end.

End Format.

Definition cprintf (args : nat -> Z) (str_at : Z -> list Z) (fmt : list Z) : list Z :=
  cprintf_loop args str_at fmt 0.

End Cons.

(** ** Numerals *)

(** The value of a digit of [digits], and of a numeral in it. *)
Definition numeral (digits : list Z) (base : Z) (l : list Z) (x : Z) : Prop :=
  exists ds, l = map (aget 0 digits) ds /\ Forall (fun d => 0 <= d < base) ds /\
    foldl (fun n d => n * base + d) 0 ds = x.

Lemma foldl_base base (ds : list Z) a d :
  foldl (fun n d => n * base + d) a (ds ++ [d]) = foldl (fun n d => n * base + d) a ds * base + d.
Proof. by rewrite foldl_app. Qed.

Lemma put_digits_spec f digits x base : 2 <= base -> 0 <= x < base ^ Z.of_nat f ->
  numeral digits base (rev (put_digits f digits x base)) x.
Proof.
  intros Hb. revert x. induction f as [|f IH]; intros x Hx.
  - simpl in Hx. exists []. simpl. split_and!; [done|constructor|lia].
  - cbn [put_digits rev]. pose proof (Z.mod_pos_bound x base ltac:(lia)) as Hm.
    pose proof (Z.div_mod x base ltac:(lia)) as Hdm.
    destruct (Z.eqb_spec (x / base) 0) as [E|E].
    + exists [x mod base]. simpl. split_and!; [done|by constructor|]. rewrite E in Hdm. lia.
    + destruct (IH (x / base)) as (ds & -> & Hds & Hv).
      { rewrite Nat2Z.inj_succ, Z.pow_succ_r in Hx by lia. split; [apply Z.div_pos; lia|].
        apply Z.div_lt_upper_bound; lia. }
      exists (ds ++ [x mod base]). rewrite map_app, foldl_base, Hv. split_and!; [done| |lia].
      apply Forall_app. split; [done|by constructor].
Qed.

Lemma length_put_digits f digits x base k : 2 <= base -> 0 <= x < base ^ Z.of_nat k -> (0 < k)%nat ->
  (length (put_digits f digits x base) <= k)%nat.
Proof.
  intros Hb. revert x k. induction f as [|f IH]; intros x k Hx Hk; [simpl; lia|].
  cbn [put_digits length]. destruct (Z.eqb_spec (x / base) 0) as [E|E]; [simpl; lia|].
  destruct k as [|[|k]]; [lia| |].
  - simpl in Hx. rewrite Z.div_small in E by lia. lia.
  - rewrite Nat2Z.inj_succ, Z.pow_succ_r in Hx by lia.
    enough (length (put_digits f digits (x / base) base) <= S k)%nat by lia.
    apply IH; [|lia]. split; [apply Z.div_pos; lia|]. apply Z.div_lt_upper_bound; lia.
Qed.

Lemma put_digits_neq f digits x base : (0 < f)%nat -> put_digits f digits x base <> [].
Proof. destruct f; [lia|done]. Qed.

(** No leading zero, except for 0 itself. *)
Lemma put_digits_last f digits x base : 2 <= base -> 0 < x < base ^ Z.of_nat f ->
  exists d l, put_digits f digits x base = l ++ [aget 0 digits d] /\ 0 < d < base.
Proof.
  intros Hb. revert x. induction f as [|f IH]; intros x Hx; [simpl in Hx; lia|].
  cbn [put_digits]. pose proof (Z.mod_pos_bound x base ltac:(lia)) as Hm.
  pose proof (Z.div_mod x base ltac:(lia)) as Hdm. destruct (Z.eqb_spec (x / base) 0) as [E|E].
  - exists (x mod base), []. rewrite E in Hdm. split; [done|]. lia.
  - destruct (IH (x / base)) as (d & l & E' & Hd).
    { rewrite Nat2Z.inj_succ, Z.pow_succ_r in Hx by lia. pose proof (Z.div_pos x base ltac:(lia) ltac:(lia)).
      split; [lia|]. apply Z.div_lt_upper_bound; lia. }
    exists d, (aget 0 digits (x mod base) :: l). rewrite E'. done.
Qed.

Lemma u32_fuel (b : Z) : 2 <= b -> 2 ^ 32 <= b ^ Z.of_nat 32.
Proof. intros. apply (Z.pow_le_mono_l 2 b (Z.of_nat 32)). lia. Qed.

(** The kernel's [printint(xx, 10, 1)] prints the sign and the decimal
    numeral of [xx], INT_MIN included, and [printint(xx, 16, 0)] the hexadecimal
    numeral of [xx] as a [uint]; in both cases at most 11 bytes go through the
    16 bytes of [buf], and the first digit is not 0 unless the number is. *)
Theorem printint_correct xx : - 2 ^ 31 <= xx < 2 ^ 31 ->
  (exists l, Cons.printint xx 10 1 = (if xx <? 0 then [chr "-"] else []) ++ l /\
     numeral Cons.digits 10 l (Z.abs xx) /\ (1 <= length l <= 10)%nat /\
     (xx <> 0 -> head l <> Some (chr "0"))) /\
  numeral Cons.digits 16 (Cons.printint xx 16 0) (u32 xx) /\
  (1 <= length (Cons.printint xx 16 0) <= 8)%nat.
Proof.
  intros Hx. pose proof (u32_range xx) as Hu. split; [|split].
  - exists (rev (put_digits 32 Cons.digits (Z.abs xx) 10)).
    assert (0 <= Z.abs xx < 2 ^ 32) as Ha by lia. pose proof (u32_fuel 10 ltac:(lia)) as Hf.
    assert ((if xx <? 0 then u32 (- xx) else u32 xx) = Z.abs xx) as Habs.
    { destruct (Z.ltb_spec xx 0); rewrite u32_id by lia; lia. }
    split_and!.
    + unfold Cons.printint. cbn [Z.eqb negb andb]. rewrite Habs. destruct (xx <? 0); [by rewrite rev_app_distr|done].
    + apply put_digits_spec; lia.
    + rewrite length_rev. destruct (put_digits 32 Cons.digits (Z.abs xx) 10) eqn:E; [|simpl; lia].
      by apply put_digits_neq in E; [|lia].
    + rewrite length_rev. apply length_put_digits; [lia|simpl; lia|lia].
    + intros Hne. destruct (put_digits_last 32 Cons.digits (Z.abs xx) 10) as (d & l & -> & Hd); [lia|lia|].
      rewrite rev_app_distr. simpl.
      assert (d = 1 \/ d = 2 \/ d = 3 \/ d = 4 \/ d = 5 \/ d = 6 \/ d = 7 \/ d = 8 \/ d = 9) as Hcases by lia.
      decompose [or] Hcases; subst d; done.
  - unfold Cons.printint. cbn [Z.eqb negb andb]. apply put_digits_spec; [lia|].
    pose proof (u32_fuel 16 ltac:(lia)). lia.
  - unfold Cons.printint. cbn [Z.eqb negb andb]. rewrite length_rev. split.
    + destruct (put_digits 32 Cons.digits (u32 xx) 16) eqn:E; [|simpl; lia]. by apply put_digits_neq in E; [|lia].
    + apply length_put_digits; [lia|simpl; lia|lia].
Qed.

Lemma printint_correct_witness :
  (exists l, Cons.printint (- 2 ^ 31) 10 1 = [chr "-"] ++ l /\
     numeral Cons.digits 10 l (2 ^ 31) /\ (1 <= length l <= 10)%nat) /\
  Cons.printint (- 2 ^ 31) 10 1 = cs "-2147483648".
Proof.
  split; [|reflexivity]. destruct (printint_correct (- 2 ^ 31)) as ((l & E & H1 & H2 & _) & _); [lia|].
  exists l. split; [exact E|split; [exact H1|exact H2]].
Defined.

(** ** [printf] and [atoi] *)

Lemma decimal_digits ds : Forall (fun d => 0 <= d < 10) ds ->
  map (aget 0 UPrintf.digits) ds = map (fun d => 48 + d) ds.
Proof.
  induction 1 as [|d ds Hd _ IH]; simpl; [done|]. f_equal; [|done].
  assert (d = 0 \/ d = 1 \/ d = 2 \/ d = 3 \/ d = 4 \/ d = 5 \/ d = 6 \/ d = 7 \/ d = 8 \/ d = 9) as Hcases by lia.
  decompose [or] Hcases; subst d; done.
Qed.

Lemma digits_value_map ds : digits_value (map (fun d => 48 + d) ds) = foldl (fun n d => n * 10 + d) 0 ds.
Proof.
  unfold digits_value. generalize 0. induction ds as [|d ds IH]; intros a; simpl; [done|].
  rewrite IH. f_equal. lia.
Qed.

(** [atoi] reads back what [printf("%d")] prints: the round trip is the
    identity on the non-negative [int]s. *)
Theorem printf_atoi_roundtrip n str_at : 0 <= n < 2 ^ 31 ->
  ULib.atoi 0 (UPrintf.printf (fun _ => n) str_at (cs "%d") ++ [0]) = Some n.
Proof.
  intros Hn. pose proof (u32_fuel 10 ltac:(lia)) as Hf.
  destruct (put_digits_spec 32 UPrintf.digits n 10 ltac:(lia) ltac:(lia)) as (ds & Eds & Hds & Hv).
  assert (UPrintf.printf (fun _ => n) str_at (cs "%d") = map (fun d => 48 + d) ds) as ->.
  { rewrite <- decimal_digits, <- Eds by done.
    transitivity (UPrintf.printint (s32 n) 10 1 ++ []); [reflexivity|]. rewrite app_nil_r.
    unfold UPrintf.printint. rewrite s32_id by lia. destruct (Z.ltb_spec n 0); [lia|]. cbn [Z.eqb negb andb].
    by rewrite u32_id by lia. }
  rewrite <- Hv, <- digits_value_map.
  assert (Forall is_digit (map (fun d => 48 + d) ds)) as Hdig.
  { apply Forall_fmap. eapply Forall_impl; [exact Hds|]. intros d Hd. unfold compose, is_digit. cbv beta in Hd. lia. }
  unfold ULib.atoi. rewrite (atoi_loop_spec _ 0 0 (map (fun d => 48 + d) ds) 0); try done.
  - apply bytes_at_whole.
  - unfold is_digit. lia.
  - rewrite length_app. simpl. lia.
  - rewrite digits_value_map, Hv. lia.
Qed.

Lemma printf_atoi_roundtrip_witness :
  ULib.atoi 0 (UPrintf.printf (fun _ => 2026) (fun _ => []) (cs "%d") ++ [0]) = Some 2026.
Proof. apply (printf_atoi_roundtrip 2026 (fun _ => [])). lia. Defined.

(** ** The two format loops *)

Lemma put_digits_ext f digits digits' x base : 0 < base ->
  (forall d, 0 <= d < base -> aget 0 digits d = aget 0 digits' d) ->
  put_digits f digits x base = put_digits f digits' x base.
Proof.
  intros Hb Hd. revert x. induction f as [|f IH]; intros x; [done|]. cbn [put_digits].
  rewrite Hd by (apply Z.mod_pos_bound; lia). by rewrite IH.
Qed.

Lemma printint_decimal xx sign : Cons.printint xx 10 sign = UPrintf.printint xx 10 sign.
Proof.
  unfold Cons.printint, UPrintf.printint. rewrite (put_digits_ext 32 Cons.digits UPrintf.digits); [done|lia|].
  intros d Hd.
  assert (d = 0 \/ d = 1 \/ d = 2 \/ d = 3 \/ d = 4 \/ d = 5 \/ d = 6 \/ d = 7 \/ d = 8 \/ d = 9) as Hcases by lia.
  decompose [or] Hcases; subst d; done.
Qed.

(** The letters A to F in lower case. *)
Definition lower (c : Z) : Z := if (65 <=? c) && (c <=? 70) then c + 32 else c.

Lemma put_digits_lower f x : map lower (put_digits f UPrintf.digits x 16) = map lower (put_digits f Cons.digits x 16).
Proof.
  revert x. induction f as [|f IH]; intros x; [done|]. cbn [put_digits map]. f_equal.
  - pose proof (Z.mod_pos_bound x 16 ltac:(lia)) as Hm. revert Hm. generalize (x mod 16). intros d Hd.
    assert (d = 0 \/ d = 1 \/ d = 2 \/ d = 3 \/ d = 4 \/ d = 5 \/ d = 6 \/ d = 7 \/ d = 8 \/ d = 9 \/ d = 10 \/
      d = 11 \/ d = 12 \/ d = 13 \/ d = 14 \/ d = 15) as Hc by lia.
    decompose [or] Hc; subst d; done.
  - destruct (x / 16 =? 0); [done|apply IH].
Qed.

Lemma printint_hex xx : map lower (UPrintf.printint xx 16 0) = map lower (Cons.printint xx 16 0).
Proof. unfold UPrintf.printint, Cons.printint. cbn [Z.eqb negb andb]. by rewrite !map_rev, put_digits_lower. Qed.

#[local] Opaque Cons.printint UPrintf.printint.

(** A format without [%c], which [cprintf] does not know, and if [hexfree] without [%x] and
    [%p]; [conv] is set after a '%'. *)
Fixpoint common (hexfree : bool) (fmt : list Z) (conv : bool) : bool :=
  match fmt with
  | [] => true
  | c :: fmt' =>
      if conv then negb ((c =? chr "c") || hexfree && ((c =? chr "x") || (c =? chr "p"))) && common hexfree fmt' false
      else common hexfree fmt' (c =? chr "%")
  end.

(** The outputs under [f], which is the identity or [lower]. *)
Lemma printf_loop_eq hexfree (f : Z -> Z) args str_at k fmt ap :
  hexfree = true \/ (forall xx, map f (UPrintf.printint xx 16 0) = map f (Cons.printint xx 16 0)) ->
  (length fmt <= k)%nat -> common hexfree fmt false = true ->
  map f (UPrintf.printf_loop args str_at fmt 0 ap) = map f (Cons.cprintf_loop args str_at fmt ap).
Proof.
  intros Hhex. revert fmt ap. induction k as [|k IH]; intros fmt ap Hk Hp; [by destruct fmt; [|simpl in Hk; lia]|].
  destruct fmt as [|c fmt]; [done|]. cbn [UPrintf.printf_loop Cons.cprintf_loop common length] in *.
  destruct (c =? 0) eqn:E0; [done|]. cbn [Z.eqb]. destruct (c =? chr "%") eqn:Ep; cbn [negb].
  - destruct fmt as [|d fmt]; [done|]. cbn [UPrintf.printf_loop common length] in *.
    apply andb_true_iff in Hp as [Hd Hp]. rewrite negb_true_iff, orb_false_iff in Hd. destruct Hd as [Hc Hx].
    change (chr "%" =? 0) with false. change (chr "%" =? chr "%") with true. cbn iota.
    rewrite Hc. unfold Cons.put_string. destruct (d =? 0) eqn:Ed; [done|].
    destruct (d =? chr "d"); [|destruct ((d =? chr "x") || (d =? chr "p")) eqn:Exp; [|destruct (d =? chr "s"); [|destruct (d =? chr "%") eqn:E1]]].
    + rewrite !map_app. apply (f_equal2 app); [|apply IH; [lia|exact Hp]].
      exact (f_equal (map f) (eq_sym (printint_decimal (s32 (args ap)) 1))).
    + rewrite !map_app. apply (f_equal2 app); [|apply IH; [lia|exact Hp]].
      destruct Hhex as [->|Hhex]; [discriminate Hx|apply Hhex].
    + rewrite !map_app. apply (f_equal (app _)), IH; [lia|exact Hp].
    + apply Z.eqb_eq in E1 as ->. cbn [map]. f_equal. apply IH; [lia|exact Hp].
    + cbn [map]. do 2 f_equal. apply IH; [lia|exact Hp].
  - cbn [map]. f_equal. apply IH; [lia|exact Hp].
Qed.

(** C40. The kernel's [cprintf] and the user library's [printf] put the same
    bytes, but for the case of the letters of hexadecimal numbers, for every format
    without [%c], which [cprintf] does not know; and exactly the same bytes when the format
    has no [%x] and [%p] either.  One reads the format two characters at a time, the other
    runs a state machine over it; an unknown conversion is printed as it is by both, and
    a '%' at the end of the format prints nothing in both. *)
Theorem printf_cprintf_equiv args str_at fmt : common false fmt false = true ->
  map lower (UPrintf.printf args str_at fmt) = map lower (Cons.cprintf args str_at fmt) /\
  (common true fmt false = true -> UPrintf.printf args str_at fmt = Cons.cprintf args str_at fmt).
Proof.
  intros H. split.
  - apply (printf_loop_eq false lower args str_at (length fmt)); [right; apply printint_hex|done|done].
  - intros Hx. rewrite <- (map_id (UPrintf.printf _ _ _)), <- (map_id (Cons.cprintf _ _ _)).
    by apply (printf_loop_eq true (fun c => c) args str_at (length fmt)); [left|..].
Qed.

(** The kernel prints hexadecimal digits in lower case, the library in upper case. *)
Lemma printf_cprintf_equiv_witness :
  map lower (UPrintf.printf (fun _ => 171) (fun _ => cs "x") (cs "%d %x %s 100%% %q %"))
  = map lower (Cons.cprintf (fun _ => 171) (fun _ => cs "x") (cs "%d %x %s 100%% %q %")) /\
  UPrintf.printf (fun _ => 171) (fun _ => cs "x") (cs "%x") = cs "AB" /\
  Cons.cprintf (fun _ => 171) (fun _ => cs "x") (cs "%x") = cs "ab" /\
  UPrintf.printf (fun _ => 7) (fun _ => cs "x") (cs "%d %s 100%% %q %")
  = Cons.cprintf (fun _ => 7) (fun _ => cs "x") (cs "%d %s 100%% %q %").
Proof.
  split; [apply printf_cprintf_equiv; reflexivity|]. split; [vm_compute; reflexivity|]. split; [vm_compute; reflexivity|].
  apply printf_cprintf_equiv; reflexivity.
Defined.
