(* ===== verification/Console.v ===== *)
(** * The console (system/devices/console.c)

    Output goes to the serial port, whose bytes are collected in [uart], and to
    the screen, an array of cells with the cursor in two device registers.
    Input is a line editor over a ring of INPUT_BUF bytes with three [uint]
    counters that wrap around.  [cons.lock] makes each handler one step; a
    process that finds no input in [consoleread] goes to sleep and later goes on
    with the rest of its request. *)

From S2P Require Import Prelude Printf.

Definition BACKSPACE : Z := 256.
Definition INPUT_BUF : Z := 128.
Definition CTRL_D : Z := 4.
Definition CTRL_H : Z := 8.
Definition CTRL_P : Z := 16.
Definition CTRL_U : Z := 21.
Definition NL : Z := 10.
Definition CR : Z := 13.

Module Console.

Record cons := mkcons {
  panicked : bool;
  crt : list Z;        (** the cells of the screen, 16 bits each *)
  cursor : Z;          (** the cursor registers 14 and 15 of the CRT port *)
  uart : list Z;       (** the bytes sent to the serial port *)
  buf : list Z;        (** [input] *)
  r : Z;
  w : Z;
  e : Z;
  wakeups : nat        (** calls of [wakeup(&input.r)] *)
}.

Definition set_panicked v s := mkcons v (crt s) (cursor s) (uart s) (buf s) (r s) (w s) (e s) (wakeups s).
Definition set_crt v s := mkcons (panicked s) v (cursor s) (uart s) (buf s) (r s) (w s) (e s) (wakeups s).
Definition set_cursor v s := mkcons (panicked s) (crt s) v (uart s) (buf s) (r s) (w s) (e s) (wakeups s).
Definition set_uart v s := mkcons (panicked s) (crt s) (cursor s) v (buf s) (r s) (w s) (e s) (wakeups s).
Definition set_buf v s := mkcons (panicked s) (crt s) (cursor s) (uart s) v (r s) (w s) (e s) (wakeups s).
Definition set_r v s := mkcons (panicked s) (crt s) (cursor s) (uart s) (buf s) v (w s) (e s) (wakeups s).
Definition set_w v s := mkcons (panicked s) (crt s) (cursor s) (uart s) (buf s) (r s) v (e s) (wakeups s).
Definition set_e v s := mkcons (panicked s) (crt s) (cursor s) (uart s) (buf s) (r s) (w s) v (wakeups s).
Definition add_wakeup s := mkcons (panicked s) (crt s) (cursor s) (uart s) (buf s) (r s) (w s) (e s) (S (wakeups s)).

(** A cell: the character, black on white. *)
Definition cell (c : Z) : Z := Z.lor (Z.land c 255) 1792.

(** [memmove(crt, crt+80, ...23*80); memset(crt+pos, 0, ...)]. *)
Definition scroll_up (pos : Z) (c : list Z) : list Z :=
  let c := splice 0 (take (23 * 80) (drop 80 c)) c in
  splice (Z.to_nat pos) (replicate (Z.to_nat (24 * 80 - pos)) 0) c.

Definition cgaputc (c : Z) : M cons unit :=
  pos ← gets cursor;
  pos ← (if c =? NL then mret (pos + (80 - pos mod 80))
         else if c =? BACKSPACE then mret (if pos >? 0 then pos - 1 else pos)
         else modify (fun s => set_crt (aset (crt s) pos (cell c)) s) ;; mret (pos + 1));
  if (pos <? 0) || (pos >? 25 * 80) then panic "pos under/overflow" else
  pos ← (if pos / 80 >=? 24
         then modify (fun s => set_crt (scroll_up (pos - 80) (crt s)) s) ;; mret (pos - 80)
         else mret pos);
  modify (set_cursor (Z.lor (Z.shiftl (u8 (Z.shiftr pos 8)) 8) (u8 pos))) ;;
  modify (fun s => set_crt (aset (crt s) pos (cell (chr " "))) s).

(** After a panic every CPU stops in [consputc]. *)
Definition consputc (c : Z) : M cons unit :=
  p ← gets panicked;
  if (p : bool) then nofuel else
  modify (fun s => set_uart (uart s ++
    (if c =? BACKSPACE then [8; chr " "; 8] else [u8 c])) s) ;;
  cgaputc c.

Fixpoint consputs (l : list Z) : M cons unit :=
  match l with
  | [] => mret tt
  | c :: l' => consputc c ;; consputs l'
  end.

Definition cprintf (args : nat -> Z) (str_at : Z -> list Z) (fmt : list Z) : M cons unit :=
  consputs (Cons.cprintf args str_at fmt).

(** The loop of the kill-line key; it runs at most [e - w] times. *)
Fixpoint kill_line (fuel : nat) : M cons unit :=
  s ← get;
  if (e s =? w s) || (aget 0 (buf s) (u32 (e s - 1) mod INPUT_BUF) =? NL) then mret tt else
  match fuel with
  | O => nofuel
  | S f =>
      modify (set_e (u32 (e s - 1))) ;;
      consputc BACKSPACE ;;
      kill_line f
  end.

(** One character of [consoleintr]; the result is [doprocdump]. *)
Definition intr_char (c : Z) : M cons bool :=
  s ← get;
  if c =? CTRL_P then mret true
  else if c =? CTRL_U then kill_line (Z.to_nat (u32 (e s - w s))) ;; mret false
  else if (c =? CTRL_H) || (c =? 127) then
    when (negb (e s =? w s)) (modify (set_e (u32 (e s - 1))) ;; consputc BACKSPACE) ;;
    mret false
  else
    when (negb (c =? 0) && (u32 (e s - r s) <? INPUT_BUF)) (
      let c := if c =? CR then NL else c in
      modify (fun s => set_e (u32 (e s + 1)) (set_buf (aset (buf s) (e s mod INPUT_BUF) (u8 c)) s)) ;;
      consputc c ;;
      s ← get;
      when ((c =? NL) || (c =? CTRL_D) || (e s =? u32 (r s + INPUT_BUF)))
        (modify (fun s => add_wakeup (set_w (e s) s)))) ;;
    mret false.

(** [cs] are the results of [getc] up to the first negative one. *)
Fixpoint consoleintr (cs : list Z) (doprocdump : bool) : M cons bool :=
  match cs with
  | [] => mret doprocdump
  | c :: cs' => if c <? 0 then mret doprocdump else d ← intr_char c; consoleintr cs' (doprocdump || d)
  end.

(** The ways a pass of [consoleread] ends: it returns with the bytes it has put
    at [dst], it is killed, or it sleeps with [n] bytes still to read. *)
Inductive rresult := RDone (bs : list Z) | RKilled | RSleep (bs : list Z) (n : nat).

Fixpoint consoleread_loop (killed : bool) (n : nat) (target : Z) (dst : list Z) (s : cons) : rresult * cons :=
  match n with
  | O => (RDone dst, s)
  | S n' =>
      if r s =? w s then (if killed then (RKilled, s) else (RSleep dst n, s)) else
      let c := aget 0 (buf s) (r s mod INPUT_BUF) in
      let s1 := set_r (u32 (r s + 1)) s in
      if c =? CTRL_D then
        (RDone dst, if Z.of_nat n <? target then set_r (u32 (r s1 - 1)) s1 else s1)
      else if c =? NL then (RDone (dst ++ [c]), s1)
      else consoleread_loop killed n' target (dst ++ [c]) s1
  end.

Definition consoleread (killed : bool) (n : Z) (s : cons) : rresult * cons :=
  consoleread_loop killed (Z.to_nat n) n [] s.

Definition consolewrite (bs : list Z) : M cons Z :=
  consputs (map (fun c => Z.land c 255) bs) ;; mret (Z.of_nat (length bs)).

(** ** The screen *)

(** The cursor is on one of the first 24 rows, whose cells exist. *)
Definition screen_ok (s : cons) : Prop :=
  0 <= cursor s < 24 * 80 /\ (24 * 80 <= length (crt s))%nat.

Lemma cursor_regs pos : 0 <= pos < 2 ^ 16 -> Z.lor (Z.shiftl (u8 (Z.shiftr pos 8)) 8) (u8 pos) = pos.
Proof.
  intros Hp. unfold u8. rewrite Z.shiftr_div_pow2 by lia.
  rewrite (Z.mod_small (pos / 2 ^ 8)) by (split; [apply Z.div_pos; lia|apply Z.div_lt_upper_bound; lia]).
  rewrite Z.shiftl_mul_pow2 by lia.
  transitivity (pos / 2 ^ 8 * 2 ^ 8 + pos mod 2 ^ 8); [|pose proof (Z.div_mod pos (2 ^ 8)); lia].
  symmetry. rewrite <- Z.shiftl_mul_pow2 by lia. rewrite Z.add_nocarry_lxor, Z.lxor_lor; try done.
  all: apply Z.bits_inj'; intros i Hi; rewrite Z.land_spec, Z.bits_0; destruct (decide (i < 8)).
  all: try (rewrite Z.shiftl_spec_low by lia; done).
  all: rewrite (Z.mod_pow2_bits_high _ 8) by lia; apply andb_false_r.
Qed.

(** The cells after the scroll. *)
Lemma scroll_up_cell pos c i : 0 <= pos <= 23 * 80 -> (24 * 80 <= length c)%nat ->
  scroll_up pos c !! i =
    if decide (Z.of_nat i < pos) then c !! (i + 80)%nat
    else if decide (Z.of_nat i < 24 * 80) then Some 0 else c !! i.
Proof.
  intros Hp Hl. unfold scroll_up.
  assert (length (take (23 * 80) (drop 80 c)) = (23 * 80)%nat) as Ht by len.
  assert (length (splice 0 (take (23 * 80) (drop 80 c)) c) = length c) as Hs.
  { apply length_splice. rewrite Ht. lia. }
  repeat case_decide.
  - rewrite lookup_splice_out; [|left; lia|rewrite Hs, length_replicate; lia].
    rewrite lookup_splice_in by (rewrite ?Ht; lia). rewrite Nat.sub_0_r, lookup_take_lt by lia.
    rewrite lookup_drop. f_equal. lia.
  - rewrite lookup_splice_in; [|rewrite length_replicate; lia|rewrite Hs, length_replicate; lia].
    apply lookup_replicate_2. lia.
  - rewrite lookup_splice_out; [|right; rewrite length_replicate; lia|rewrite Hs, length_replicate; lia].
    apply lookup_splice_out; [right; rewrite Ht; lia|rewrite Ht; lia].
Qed.

(** Where the cursor goes before any scrolling, and the cell then on the screen. *)
Definition next_pos (c pos : Z) : Z :=
  if c =? NL then pos + (80 - pos mod 80)
  else if c =? BACKSPACE then (if pos >? 0 then pos - 1 else pos)
  else pos + 1.

Definition typed (c : Z) (s : cons) (i : nat) : option Z :=
  if negb (c =? NL) && negb (c =? BACKSPACE) && (Z.of_nat i =? cursor s) then Some (cell c) else crt s !! i.

(** What the screen shows after [c]. *)
Definition shown (c : Z) (s s' : cons) : Prop :=
  let pos := next_pos c (cursor s) in
  if decide (pos < 24 * 80)
  then cursor s' = pos /\
    forall i, crt s' !! i = if decide (Z.of_nat i = pos) then Some (cell (chr " ")) else typed c s i
  else cursor s' = 23 * 80 /\
    forall i, crt s' !! i =
      if decide (Z.of_nat i < 23 * 80) then typed c s (i + 80)
      else if decide (Z.of_nat i = 23 * 80) then Some (cell (chr " "))
      else if decide (Z.of_nat i < 24 * 80) then Some 0 else crt s !! i.

Lemma next_pos_range c pos : 0 <= pos < 24 * 80 -> 0 <= next_pos c pos <= 24 * 80.
Proof.
  intros Hp. unfold next_pos. destruct (c =? NL).
  - pose proof (Z.div_mod pos 80 ltac:(lia)). pose proof (Z.mod_pos_bound pos 80 ltac:(lia)). lia.
  - destruct (c =? BACKSPACE); [|lia]. destruct (Z.gtb_spec pos 0); lia.
Qed.

Lemma aset_lookup (l : list Z) (p x : Z) i : 0 <= p < Z.of_nat (length l) ->
  aset l p x !! i = if decide (Z.of_nat i = p) then Some x else l !! i.
Proof.
  intros Hp. unfold aset. destruct (Z.ltb_spec p 0); [lia|]. case_decide.
  - subst p. rewrite Nat2Z.id. apply list_lookup_insert_eq. lia.
  - apply list_lookup_insert_ne. lia.
Qed.

(** The first part of [cgaputc]. *)
Lemma cgaputc_unfold c s : screen_ok s ->
  let cr := if negb (c =? NL) && negb (c =? BACKSPACE) then aset (crt s) (cursor s) (cell c) else crt s in
  let pos := next_pos c (cursor s) in
  cgaputc c s = Ok tt
    (if pos / 80 >=? 24
     then set_crt (aset (scroll_up (pos - 80) cr) (pos - 80) (cell (chr " "))) (set_cursor (pos - 80) s)
     else set_crt (aset cr pos (cell (chr " "))) (set_cursor pos s)).
Proof.
  intros [Hc Hl] cr pos. pose proof (next_pos_range c (cursor s) Hc) as Hr. fold pos in Hr.
  unfold cgaputc. rewrite (bind_ok _ _ _ (cursor s) s) by done.
  rewrite (bind_ok _ _ _ pos (set_crt cr s)).
  2: { unfold pos, cr, next_pos. destruct (c =? NL); cbn [negb andb]; [by destruct s|].
       destruct (c =? BACKSPACE); cbn [negb andb]; [by destruct s|]. done. }
  destruct (Z.ltb_spec pos 0); [lia|]. destruct (Z.gtb_spec pos (25 * 80)); [lia|]. cbn [orb].
  destruct (pos / 80 >=? 24) eqn:E.
  - rewrite (bind_ok _ _ _ (pos - 80) (set_crt (scroll_up (pos - 80) cr) s)) by done.
    unfold mbind, M_bind, modify. rewrite cursor_regs; [done|].
    rewrite Z.geb_leb, Z.leb_le in E. pose proof (Z.div_mod pos 80 ltac:(lia)).
    pose proof (Z.mod_pos_bound pos 80 ltac:(lia)). lia.
  - rewrite (bind_ok _ _ _ pos (set_crt cr s)) by done.
    unfold mbind, M_bind, modify. rewrite cursor_regs; [done|lia].
Qed.

Lemma cgaputc_spec c s : screen_ok s ->
  exists s', cgaputc c s = Ok tt s' /\ screen_ok s' /\ shown c s s' /\
    s' = set_crt (crt s') (set_cursor (cursor s') s).
Proof.
  intros Hok. rewrite (cgaputc_unfold c s Hok). destruct Hok as [Hc Hl].
  pose proof (next_pos_range c (cursor s) Hc) as Hr. set (pos := next_pos c (cursor s)) in *.
  set (cr := if _ && _ then _ else _).
  assert (length cr = length (crt s)) as Hcl.
  { subst cr. destruct (_ && _); [apply length_aset|done]. }
  assert (forall i, cr !! i = typed c s i) as Hty.
  { intros i. subst cr. unfold typed. destruct (negb (c =? NL) && negb (c =? BACKSPACE)); [|done].
    rewrite aset_lookup by lia. cbn [andb]. destruct (Z.eqb_spec (Z.of_nat i) (cursor s)); by case_decide. }
  eexists. split; [reflexivity|]. unfold shown. fold pos. rewrite Z.geb_leb.
  pose proof (Z.div_mod pos 80 ltac:(lia)). pose proof (Z.mod_pos_bound pos 80 ltac:(lia)).
  destruct (Z.leb_spec 24 (pos / 80)) as [Hs|Hs]; case_decide; try lia.
  - assert (pos = 24 * 80) as -> by lia. change (24 * 80 - 80) with (23 * 80).
    assert (length (scroll_up (23 * 80) cr) = length cr) as Hsl.
    { unfold scroll_up. rewrite length_splice; rewrite length_splice; len. }
    unfold screen_ok. cbn [crt cursor set_crt set_cursor]. rewrite length_aset, Hsl. split; [split; [lia|lia]|]. split; [|done]. split; [done|]. intros i.
    rewrite aset_lookup by (rewrite Hsl; lia). rewrite scroll_up_cell by lia.
    repeat case_decide; try lia; try done. rewrite Hty. unfold typed.
    destruct (Z.eqb_spec (Z.of_nat i) (cursor s)); [lia|]. by rewrite andb_false_r.
  - unfold screen_ok. cbn [crt cursor set_crt set_cursor]. rewrite length_aset, Hcl. split; [split; [lia|lia]|]. split; [|done]. split; [done|]. intros i.
    rewrite aset_lookup by lia. case_decide; [done|]. apply Hty.
Qed.

(** What output leaves alone. *)
Definition same_input (s s' : cons) : Prop :=
  buf s' = buf s /\ r s' = r s /\ w s' = w s /\ e s' = e s /\ wakeups s' = wakeups s.

Definition live (s : cons) : Prop := screen_ok s /\ panicked s = false.

Lemma consputc_ok c s : live s -> exists s', consputc c s = Ok tt s' /\ live s' /\ same_input s s' /\
  uart s' = uart s ++ (if c =? BACKSPACE then [8; chr " "; 8] else [u8 c]).
Proof.
  intros [Hs Hp]. unfold consputc. rewrite (bind_ok _ _ _ (panicked s) s) by done. rewrite Hp.
  set (s1 := set_uart (uart s ++ (if c =? BACKSPACE then [8; chr " "; 8] else [u8 c])) s).
  rewrite (bind_ok _ _ _ tt s1) by done.
  destruct (cgaputc_spec c s1 Hs) as (s' & -> & Hs' & _ & E). exists s'. split; [done|].
  rewrite E. split; [split; [by rewrite E in Hs'|done]|]. done.
Qed.

Lemma consputs_ok l s : live s -> exists s', consputs l s = Ok tt s' /\ live s' /\ same_input s s' /\
  uart s' = uart s ++ flat_map (fun c => if c =? BACKSPACE then [8; chr " "; 8] else [u8 c]) l.
Proof.
  revert s. induction l as [|c l IH]; intros s Hs; cbn [consputs].
  - exists s. rewrite app_nil_r. done.
  - destruct (consputc_ok c s Hs) as (s1 & E1 & H1 & I1 & U1). rewrite (bind_ok _ _ _ _ _ E1).
    destruct (IH s1 H1) as (s2 & E2 & H2 & I2 & U2). exists s2. split; [done|]. split; [done|].
    split; [|by rewrite U2, U1, <- app_assoc]. unfold same_input in *. intuition congruence.
Qed.

(** ** The line editor *)

(** The committed bytes that [consoleread] may take, and the line being typed. *)
Definition line_char (c : Z) (st : list Z * list Z) : list Z * list Z :=
  let '(p, ed) := st in
  if c =? CTRL_P then (p, ed)
  else if c =? CTRL_U then (p, [])
  else if (c =? CTRL_H) || (c =? 127) then (p, removelast ed)
  else if (c =? 0) || (INPUT_BUF <=? Z.of_nat (length p + length ed)) then (p, ed)
  else
    let c := if c =? CR then NL else c in
    let ed' := ed ++ [c] in
    if (c =? NL) || (c =? CTRL_D) || (Z.of_nat (length p + length ed') =? INPUT_BUF)
    then (p ++ ed', []) else (p, ed').

(** The ring holds [p ++ ed] from the read index on, at the unbounded count [a]
    of bytes read so far. *)
Record holds (s : cons) (a : Z) (p ed : list Z) : Prop := {
  h_r : r s = u32 a;
  h_w : w s = u32 (a + Z.of_nat (length p));
  h_e : e s = u32 (a + Z.of_nat (length p + length ed));
  h_len : Z.of_nat (length p + length ed) <= INPUT_BUF;
  h_buf : length (buf s) = Z.to_nat INPUT_BUF;
  h_get : forall i x, (p ++ ed) !! i = Some x -> aget 0 (buf s) ((a + Z.of_nat i) mod INPUT_BUF) = x
}.

Lemma u32_mod_buf z : u32 z mod INPUT_BUF = z mod INPUT_BUF.
Proof. unfold u32, INPUT_BUF. apply Z.mod_mod_divide. by exists (2 ^ 25). Qed.

Lemma u32_inj a b : 0 <= b - a < 2 ^ 32 -> u32 a = u32 b -> a = b.
Proof.
  intros H E. assert (u32 (b - a) = 0) as E0 by (unfold u32 in *; rewrite Zminus_mod, E, Z.sub_diag; done).
  rewrite u32_id in E0 by lia. lia.
Qed.

Lemma u32_diff a k : 0 <= k < 2 ^ 32 -> u32 (u32 (a + k) - u32 a) = k.
Proof.
  intros. rewrite u32_sub_l, u32_sub_r. replace (a + k - a) with k by lia. by apply u32_id.
Qed.

Lemma holds_same s s' a p ed : same_input s s' -> holds s a p ed -> holds s' a p ed.
Proof. intros (E1 & E2 & E3 & E4 & _) [? ? ? ? ? ?]. split; rewrite ?E1, ?E2, ?E3, ?E4; done. Qed.

(** Dropping the last byte of the line. *)
Lemma holds_back s a p ed c : holds s a p (ed ++ [c]) -> holds (set_e (u32 (e s - 1)) s) a p ed.
Proof.
  intros [Hr Hw He Hl Hb Hg]. rewrite length_app in *. simpl in *. split; cbn; try done.
  - rewrite He, u32_sub_l. f_equal. lia.
  - lia.
  - intros i x Hi. apply Hg. rewrite app_assoc. by apply lookup_app_l_Some.
Qed.

Lemma removelast_snoc {A} (l : list A) x : removelast (l ++ [x]) = l.
Proof. rewrite removelast_app by done. simpl. apply app_nil_r. Qed.

(** The kill-line loop deletes the whole line: no byte of it is a newline. *)
Lemma kill_line_ok ed s a p f : live s -> holds s a p ed -> Forall (fun c => c <> NL) ed -> (length ed <= f)%nat ->
  exists s', kill_line f s = Ok tt s' /\ live s' /\ holds s' a p [] /\ wakeups s' = wakeups s.
Proof.
  revert s f. induction ed as [|c ed IH] using rev_ind; intros s f Hs Hh Hn Hf.
  - exists s. split; [|done]. pose proof (h_e _ _ _ _ Hh) as He. rewrite Nat.add_0_r, <- (h_w _ _ _ _ Hh) in He.
    destruct f; cbn [kill_line]; rewrite (bind_ok _ _ _ s s) by done; rewrite He, Z.eqb_refl; done.
  - destruct f as [|f]; [rewrite length_app in Hf; simpl in Hf; lia|]. cbn [kill_line].
    rewrite (bind_ok _ _ _ s s) by done. pose proof (holds_back _ _ _ _ _ Hh) as Hb.
    destruct Hh as [Hr Hw He Hl Hbf Hg]. apply Forall_app in Hn as [Hn Hc]. rewrite length_app in *. simpl in Hf, Hl, He.
    assert ((e s =? w s) = false) as ->.
    { apply Z.eqb_neq. rewrite He, Hw. intros E. symmetry in E. apply u32_inj in E; unfold INPUT_BUF in *; lia. }
    assert (aget 0 (buf s) (u32 (e s - 1) mod INPUT_BUF) = c) as ->.
    { rewrite He, u32_sub_l, u32_mod_buf. replace (a + Z.of_nat (length p + (length ed + 1)) - 1) with
        (a + Z.of_nat (length p + length ed)) by lia. apply Hg. rewrite app_assoc.
      rewrite lookup_app_r by (rewrite length_app; lia). by rewrite length_app, Nat.sub_diag. }
    assert ((c =? NL) = false) as ->.
    { apply Z.eqb_neq. by inversion Hc. }
    cbn [orb]. rewrite (bind_ok _ _ _ tt (set_e (u32 (e s - 1)) s)) by done.
    destruct (consputc_ok BACKSPACE (set_e (u32 (e s - 1)) s) Hs) as (s1 & E1 & H1 & I1 & _).
    rewrite (bind_ok _ _ _ _ _ E1). destruct (IH s1 f H1 (holds_same _ _ _ _ _ I1 Hb) Hn ltac:(lia)) as (s' & ? & ? & ? & ?).
    exists s'. split_and!; try done. destruct I1 as (_ & _ & _ & _ & I1). rewrite I1 in *. done.
Qed.

(** A character added to the line, and the line committed. *)
Lemma holds_type s a p ed c : holds s a p ed -> Z.of_nat (length p + length ed) < INPUT_BUF -> byte_ok c ->
  holds (set_e (u32 (e s + 1)) (set_buf (aset (buf s) (e s mod INPUT_BUF) (u8 c)) s)) a p (ed ++ [c]).
Proof.
  intros [Hr Hw He Hl Hb Hg] Hlt Hc. unfold INPUT_BUF in *.
  assert (e s mod 128 = (a + Z.of_nat (length p + length ed)) mod 128) as Em.
  { rewrite He. apply u32_mod_buf. }
  pose proof (Z.mod_pos_bound (a + Z.of_nat (length p + length ed)) 128 ltac:(lia)) as Hm.
  split; cbn [r w e buf set_e set_buf]; rewrite ?length_app, ?length_aset; cbn [length]; try done.
  - rewrite He, u32_add_l. f_equal. lia.
  - unfold INPUT_BUF. lia.
  - intros i x Hi. rewrite Em. rewrite app_assoc in Hi.
    apply lookup_app_Some in Hi as [Hi|[Hle Hi]].
    + pose proof (lookup_lt_Some _ _ _ Hi) as Hi'. rewrite length_app in Hi'. unfold INPUT_BUF.
      rewrite aget_aset_ne; [by apply Hg|]. intros E.
      assert ((a + Z.of_nat (length p + length ed) - (a + Z.of_nat i)) mod 128 = 0) as E'
        by (rewrite Zminus_mod, E, Z.sub_diag; done).
      rewrite Z.mod_small in E' by lia. lia.
    + rewrite length_app in *. destruct (i - (length p + length ed))%nat eqn:Ei; [|done].
      injection Hi as <-. replace i with (length p + length ed)%nat by lia. unfold INPUT_BUF.
      rewrite aget_aset_eq by (rewrite Hb; lia). by apply Z.mod_small.
Qed.

Lemma holds_commit s a p ed : holds s a p ed -> holds (add_wakeup (set_w (e s) s)) a (p ++ ed) [].
Proof.
  intros [Hr Hw He Hl Hb Hg]. split; cbn; rewrite ?length_app, ?Nat.add_0_r, ?app_nil_r; try done.
Qed.

Lemma ring_full_test s a p ed : holds s a p ed ->
  (e s =? u32 (r s + INPUT_BUF)) = (Z.of_nat (length p + length ed) =? INPUT_BUF).
Proof.
  intros [Hr Hw He Hl Hb Hg]. apply eq_true_iff_eq. rewrite !Z.eqb_eq, He, Hr, u32_add_l. split.
  - intros E. apply u32_inj in E; unfold INPUT_BUF in *; lia.
  - intros ->. done.
Qed.

Lemma intr_char_spec c s a p ed : live s -> holds s a p ed -> Forall (fun c => c <> NL) ed -> byte_ok c ->
  exists s', intr_char c s = Ok (c =? CTRL_P) s' /\ live s' /\
    let '(p', ed') := line_char c (p, ed) in holds s' a p' ed' /\ Forall (fun c => c <> NL) ed'.
Proof.
  intros Hs Hh Hn Hc. unfold intr_char, line_char. rewrite (bind_ok _ _ _ s s) by done.
  destruct (c =? CTRL_P) eqn:EP; [exists s; done|].
  destruct (c =? CTRL_U) eqn:EU.
  { assert (u32 (e s - w s) = Z.of_nat (length ed)) as ->.
    { rewrite (h_e _ _ _ _ Hh), (h_w _ _ _ _ Hh), Nat2Z.inj_add, Z.add_assoc. apply u32_diff.
      pose proof (h_len _ _ _ _ Hh). unfold INPUT_BUF in *. lia. }
    destruct (kill_line_ok ed s a p (Z.to_nat (Z.of_nat (length ed))) Hs Hh Hn ltac:(lia)) as (s' & E & H1 & H2 & _).
    rewrite (bind_ok _ _ _ _ _ E). exists s'. split_and!; done. }
  destruct ((c =? CTRL_H) || (c =? 127)) eqn:EH.
  { destruct ed as [|x ed _] using rev_ind.
    - exists s. assert ((e s =? w s) = true) as ->.
      { apply Z.eqb_eq. rewrite (h_e _ _ _ _ Hh), (h_w _ _ _ _ Hh). by rewrite Nat.add_0_r. }
      done.
    - assert ((e s =? w s) = false) as ->.
      { apply Z.eqb_neq. rewrite (h_e _ _ _ _ Hh), (h_w _ _ _ _ Hh). rewrite length_app. simpl. intros E. symmetry in E.
        pose proof (h_len _ _ _ _ Hh) as Hl. rewrite length_app in Hl. simpl in Hl.
        apply u32_inj in E; unfold INPUT_BUF in *; lia. }
      cbn [negb when]. destruct (consputc_ok BACKSPACE (set_e (u32 (e s - 1)) s) Hs) as (s1 & E1 & H1 & I1 & _).
      exists s1. rewrite removelast_snoc. apply Forall_app in Hn as [Hn _].
      unfold mbind, M_bind, modify. rewrite E1. split; [done|]. split; [done|]. split; [|done].
      eapply holds_same; [exact I1|]. by eapply holds_back. }
  assert ((u32 (e s - r s) <? INPUT_BUF) = negb (INPUT_BUF <=? Z.of_nat (length p + length ed))) as ->.
  { rewrite (h_e _ _ _ _ Hh), (h_r _ _ _ _ Hh), u32_diff by (pose proof (h_len _ _ _ _ Hh); unfold INPUT_BUF in *; lia).
    by rewrite <- Z.ltb_antisym. }
  destruct (c =? 0) eqn:E0; cbn [negb andb orb when]; [by exists s|].
  destruct (Z.leb_spec INPUT_BUF (Z.of_nat (length p + length ed))) as [Hfull|Hroom]; cbn [negb when]; [by exists s|].
  set (c' := if c =? CR then NL else c).
  assert (byte_ok c') as Hc'. { unfold c'. destruct (c =? CR); [|done]. unfold byte_ok, NL. lia. }
  set (s1 := set_e (u32 (e s + 1)) (set_buf (aset (buf s) (e s mod INPUT_BUF) (u8 c')) s)).
  assert (holds s1 a p (ed ++ [c'])) as Hh1 by (by apply holds_type).
  destruct (consputc_ok c' s1 Hs) as (s2 & E2 & H2 & I2 & _).
  assert (holds s2 a p (ed ++ [c'])) as Hh2 by (by eapply holds_same).
  unfold mbind, M_bind, modify. fold s1. rewrite E2. cbn [get]. rewrite (ring_full_test _ _ _ _ Hh2).
  destruct ((c' =? NL) || (c' =? CTRL_D) || (Z.of_nat (length p + length (ed ++ [c'])) =? INPUT_BUF)) eqn:Et.
  - exists (add_wakeup (set_w (e s2) s2)). split; [done|]. split; [done|]. split; [by apply holds_commit|done].
  - exists s2. split; [done|]. split; [done|]. split; [done|]. apply Forall_app. split; [done|].
    constructor; [|done]. apply orb_false_iff in Et as [Et _]. apply orb_false_iff in Et as [Et _]. by apply Z.eqb_neq.
Qed.

Lemma consoleintr_spec cs s a p ed d : live s -> holds s a p ed -> Forall (fun c => c <> NL) ed -> Forall byte_ok cs ->
  exists s', consoleintr cs d s = Ok (d || existsb (Z.eqb CTRL_P) cs) s' /\ live s' /\
    let '(p', ed') := foldl (fun st c => line_char c st) (p, ed) cs in
    holds s' a p' ed' /\ Forall (fun c => c <> NL) ed'.
Proof.
  intros Hs Hh Hn Hc. revert s p ed d Hs Hh Hn. induction Hc as [|c cs Hc _ IH]; intros s p ed d Hs Hh Hn.
  - exists s. simpl. rewrite orb_false_r. done.
  - cbn [consoleintr foldl existsb]. unfold byte_ok in Hc. destruct (Z.ltb_spec c 0); [lia|].
    destruct (intr_char_spec c s a p ed Hs Hh Hn Hc) as (s1 & E1 & H1 & H2). rewrite (bind_ok _ _ _ _ _ E1).
    destruct (line_char c (p, ed)) as [p1 ed1]. destruct H2 as [H2 H3].
    destruct (IH s1 p1 ed1 (d || (c =? CTRL_P)) H1 H2 H3) as (s2 & E2 & H4 & H5). exists s2. rewrite E2.
    split; [|done]. f_equal. by rewrite (Z.eqb_sym CTRL_P c), orb_assoc.
Qed.

(** ** Reading *)

(** What a read of [n] bytes that has already put [dst] does to the committed
    bytes [p], of which [p'] are left. *)
Definition read_ok (killed : bool) (n : nat) (dst : list Z) (res : rresult) (p p' : list Z) : Prop :=
  match res with
  | RDone bs => exists l, bs = dst ++ l /\ (length l <= n)%nat /\
      Forall (fun c => c <> CTRL_D) l /\ Forall (fun c => c <> NL) (removelast l) /\
      ((p = l ++ p' /\ (length l = n \/ last l = Some NL)) \/
       exists rest, p = l ++ CTRL_D :: rest /\ p' = if decide (bs = []) then rest else CTRL_D :: rest)
  | RSleep bs k => killed = false /\ bs = dst ++ p /\ p' = [] /\ (length p + k = n)%nat /\ (0 < k)%nat /\
      Forall (fun c => c <> CTRL_D /\ c <> NL) p
  | RKilled => killed = true /\ p' = [] /\ (length p < n)%nat /\ Forall (fun c => c <> CTRL_D /\ c <> NL) p
  end.

Lemma holds_read s a c p ed : holds s a (c :: p) ed ->
  holds (set_r (u32 (r s + 1)) s) (a + 1) p ed /\ aget 0 (buf s) (r s mod INPUT_BUF) = c /\ (r s =? w s) = false.
Proof.
  intros [Hr Hw He Hl Hb Hg]. cbn [length] in *. split; [split; cbn|split].
  - by rewrite Hr, u32_add_l.
  - rewrite Hw. f_equal. lia.
  - rewrite He. f_equal. lia.
  - lia.
  - done.
  - intros i x Hi. replace (a + 1 + Z.of_nat i) with (a + Z.of_nat (S i)) by lia. by apply Hg.
  - rewrite Hr, u32_mod_buf. specialize (Hg 0%nat c eq_refl). by rewrite Z.add_0_r in Hg.
  - apply Z.eqb_neq. rewrite Hr, Hw. intros E. apply u32_inj in E; unfold INPUT_BUF in *; lia.
Qed.

Lemma holds_unread s a c p ed : holds s a (c :: p) ed ->
  holds (set_r (u32 (u32 (r s + 1) - 1)) (set_r (u32 (r s + 1)) s)) a (c :: p) ed.
Proof.
  intros [Hr Hw He Hl Hb Hg]. split; cbn; try done. rewrite Hr, u32_add_l, u32_sub_l. f_equal. lia.
Qed.

Lemma consoleread_loop_spec killed n target dst s a p ed :
  holds s a p ed -> target = Z.of_nat (n + length dst) ->
  let '(res, s') := consoleread_loop killed n target dst s in
  exists a' p', holds s' a' p' ed /\ read_ok killed n dst res p p'.
Proof.
  revert dst s a p. induction n as [|n IH]; intros dst s a p Hh Ht; cbn [consoleread_loop].
  { exists a, p. split; [done|]. exists []. rewrite app_nil_r. split_and!; [done|simpl; lia|constructor|constructor|].
    left. auto. }
  destruct p as [|c p].
  { assert ((r s =? w s) = true) as ->.
    { apply Z.eqb_eq. by rewrite (h_r _ _ _ _ Hh), (h_w _ _ _ _ Hh), Z.add_0_r. }
    destruct killed; exists a, []; (split; [done|]); cbn; rewrite ?app_nil_r; split_and!; done || lia. }
  destruct (holds_read _ _ _ _ _ Hh) as (Hh1 & -> & ->).
  destruct (Z.eqb_spec c CTRL_D) as [->|Hd].
  - destruct (Z.ltb_spec (Z.of_nat (S n)) target) as [Hlt|Hge].
    + exists a, (CTRL_D :: p). split; [by apply holds_unread|]. exists []. rewrite app_nil_r.
      split_and!; [done|simpl; lia|constructor|constructor|]. right. exists p. split; [done|].
      rewrite decide_False; [done|]. intros ->. simpl in Ht. lia.
    + exists (a + 1), p. split; [done|]. exists []. rewrite app_nil_r.
      split_and!; [done|simpl; lia|constructor|constructor|]. right. exists p. split; [done|].
      rewrite decide_True; [done|]. destruct dst; [done|]. simpl in Ht. lia.
  - destruct (Z.eqb_spec c NL) as [->|Hnl].
    + exists (a + 1), p. split; [done|]. exists [NL]. split_and!; [done|simpl; lia|by constructor|constructor|].
      left. split; [done|]. by right.
    + specialize (IH (dst ++ [c]) (set_r (u32 (r s + 1)) s) (a + 1) p Hh1).
      rewrite length_app in IH. specialize (IH ltac:(simpl; lia)).
      destruct (consoleread_loop killed n target (dst ++ [c]) (set_r (u32 (r s + 1)) s)) as [res s'].
      destruct IH as (a' & p' & Hh' & Hres). exists a', p'. split; [done|]. destruct res as [bs| |bs k]; cbn in *.
      * destruct Hres as (l & -> & Hl & Hf & Hn & Hcase). exists (c :: l). rewrite <- app_assoc. split; [done|].
        split; [simpl; lia|]. split; [by constructor|]. split.
        { destruct l; [constructor|]. by constructor. }
        destruct Hcase as [[-> Hend]|(rest & -> & ->)]; [left|right; exists rest; rewrite <- app_assoc; done].
        split; [done|]. destruct Hend as [<-|Hend]; [by left|right]. by destruct l.
      * destruct Hres as (-> & -> & Hl & Hf). split_and!; [done|done|lia|by constructor].
      * destruct Hres as (-> & -> & -> & Hl & Hk & Hf). rewrite <- app_assoc. split_and!; [done|done|done|lia|lia|by constructor].
Qed.

(** [cgaputc] never panics and keeps the cursor on the 24 rows it scrolls:
    it puts the character at the cursor, advances it (to the next row for a
    newline, one back for a backspace), and when the cursor leaves the last row
    every row moves up by one, the new last row is empty and the cells after it
    are untouched. *)
Theorem cgaputc_correct c s : screen_ok s ->
  exists s', cgaputc c s = Ok tt s' /\ screen_ok s' /\ shown c s s' /\
    s' = set_crt (crt s') (set_cursor (cursor s') s).
Proof. apply cgaputc_spec. Qed.

(** C34. The input side implements a line editor over an unbounded queue: the
    counters may wrap around, yet [consoleintr] on any keys keeps the ring equal
    to the committed bytes and the line being typed, where ^H and ^U edit only
    the uncommitted line, a newline, ^D or a full ring commits it, and keys typed
    while the ring is full are dropped.  No key can panic or stop the kernel. *)
Theorem consoleintr_line_editor cs s a p ed :
  live s -> holds s a p ed -> Forall (fun c => c <> NL) ed -> Forall byte_ok cs ->
  exists s', consoleintr cs false s = Ok (existsb (Z.eqb CTRL_P) cs) s' /\ live s' /\
    let '(p', ed') := foldl (fun st c => line_char c st) (p, ed) cs in holds s' a p' ed'.
Proof.
  intros Hs Hh Hn Hc. destruct (consoleintr_spec cs s a p ed false Hs Hh Hn Hc) as (s' & E & H1 & H2).
  exists s'. split; [exact E|]. split; [exact H1|]. destruct (foldl _ _ _). apply H2.
Qed.

(** [consoleread] of [n] bytes delivers committed bytes in order, up to and
    including a newline, never a ^D: it stops before a ^D, which it consumes only
    when it has nothing else to deliver, so that the caller then sees the end of
    the file once.  It sleeps, or gives up when the process is killed, only after
    it has drained the committed bytes. *)
Theorem consoleread_correct killed n s a p ed : 0 <= n -> holds s a p ed ->
  let '(res, s') := consoleread killed n s in
  exists a' p', holds s' a' p' ed /\ read_ok killed (Z.to_nat n) [] res p p'.
Proof.
  intros Hn Hh. apply (consoleread_loop_spec killed (Z.to_nat n) n [] s a p ed Hh). simpl. lia.
Qed.

(** An idle console whose counters are about to wrap. *)
Definition cons0 : cons :=
  mkcons false (replicate 1920 0) 1919 [] (replicate 128 0) (2 ^ 32 - 2) (2 ^ 32 - 2) (2 ^ 32 - 2) 0.

Lemma cons0_live : live cons0.
Proof. split; [|done]. split; [cbn; lia|]. unfold cons0. cbn [crt]. rewrite length_replicate. lia. Qed.

Lemma cons0_holds : holds cons0 (2 ^ 32 - 2) [] [].
Proof. split; cbn; try done. Qed.

Lemma cgaputc_correct_witness : exists s', cgaputc 65 cons0 = Ok tt s' /\ screen_ok s' /\ shown 65 cons0 s'.
Proof.
  destruct (cgaputc_correct 65 cons0 (proj1 cons0_live)) as (s' & E & H1 & H2 & _).
  exists s'. split; [exact E|split; [exact H1|exact H2]].
Defined.

(** "a", "b", backspace, "c", return: the line "ac" is committed. *)
Lemma consoleintr_line_editor_witness : exists s',
  consoleintr [97; 98; 8; 99; 13] false cons0 = Ok false s' /\ holds s' (2 ^ 32 - 2) [97; 99; 10] [].
Proof.
  destruct (consoleintr_line_editor [97; 98; 8; 99; 13] cons0 (2 ^ 32 - 2) [] []) as (s' & E & _ & H).
  - apply cons0_live.
  - apply cons0_holds.
  - constructor.
  - repeat constructor; unfold byte_ok; lia.
  - exists s'. split; [exact E|exact H].
Defined.

Lemma consoleread_correct_witness :
  let s := set_w 0 (set_e 0 (set_buf (aset (aset (replicate 128 0) 126 97) 127 10) cons0)) in
  consoleread false 10 s = (RDone [97; 10], set_r 0 s) /\
  exists a' p', holds (set_r 0 s) a' p' [] /\ read_ok false 10 [] (RDone [97; 10]) [97; 10] p'.
Proof.
  intros s. assert (consoleread false 10 s = (RDone [97; 10], set_r 0 s)) as E by (vm_compute; reflexivity).
  split; [exact E|].
  assert (holds s (2 ^ 32 - 2) [97; 10] []) as Hh.
  { split; [done|done|done|done|done|]. intros [|[|i]] x Hi; simpl in Hi; simplify_eq; vm_compute; done. }
  pose proof (consoleread_correct false 10 s (2 ^ 32 - 2) [97; 10] [] ltac:(lia) Hh) as H.
  rewrite E in H. exact H.
Defined.

End Console.
