(* ===== verification/Kbd.v ===== *)
(** * The keyboard (system/devices/kbd.c, include/kbd.h)

    The translation tables and [kbdgetc] as a function of the controller's
    status and data registers, with its static variable [shift] as state.  The
    theorem is checked for every state of the flags and every key by
    computation. *)

From S2P Require Import Prelude.

Definition KBS_DIB : Z := 1.
Definition SHIFT : Z := 1.
Definition CTL : Z := 2.
Definition ALT : Z := 4.
Definition CAPSLOCK : Z := 8.
Definition NUMLOCK : Z := 16.
Definition SCROLLLOCK : Z := 32.
Definition E0ESC : Z := 64.

(** An array of 256 [uchar]s with its first elements and designated ones. *)
Definition designated (base : list Z) (over : list (Z * Z)) : list Z :=
  foldl (fun l p => aset l p.1 (u8 p.2)) (map u8 base ++ replicate (256 - length base) 0) over.

Definition shiftcode : list Z := designated
  []
  [(29, 2); (42, 1); (54, 1); (56, 4); (157, 2); (184, 4)].

Definition togglecode : list Z := designated
  []
  [(58, 8); (69, 16); (70, 32)].

Definition normalmap : list Z := designated
  [  0;  27;  49;  50;  51;  52;  53;  54;
    55;  56;  57;  48;  45;  61;   8;   9;
   113; 119; 101; 114; 116; 121; 117; 105;
   111; 112;  91;  93;  10;   0;  97; 115;
   100; 102; 103; 104; 106; 107; 108;  59;
    39;  96;   0;  92; 122; 120;  99; 118;
    98; 110; 109;  44;  46;  47;   0;  42;
     0;  32;   0;   0;   0;   0;   0;   0;
     0;   0;   0;   0;   0;   0;   0;  55;
    56;  57;  45;  52;  53;  54;  43;  49;
    50;  51;  48;  46;   0;   0;   0;   0]
  [(156, 10); (181, 47); (200, 226); (208, 227); (201, 230); (209, 231);
   (203, 228); (205, 229); (151, 224); (207, 225); (210, 232); (211, 233)].

Definition shiftmap : list Z := designated
  [  0;  27;  33;  64;  35;  36;  37;  94;
    38;  42;  40;  41;  95;  43;   8;   9;
    81;  87;  69;  82;  84;  89;  85;  73;
    79;  80; 123; 125;  10;   0;  65;  83;
    68;  70;  71;  72;  74;  75;  76;  58;
    34; 126;   0; 124;  90;  88;  67;  86;
    66;  78;  77;  60;  62;  63;   0;  42;
     0;  32;   0;   0;   0;   0;   0;   0;
     0;   0;   0;   0;   0;   0;   0;  55;
    56;  57;  45;  52;  53;  54;  43;  49;
    50;  51;  48;  46;   0;   0;   0;   0]
  [(156, 10); (181, 47); (200, 226); (208, 227); (201, 230); (209, 231);
   (203, 228); (205, 229); (151, 224); (207, 225); (210, 232); (211, 233)].

Definition ctlmap : list Z := designated
  [  0;   0;   0;   0;   0;   0;   0;   0;
     0;   0;   0;   0;   0;   0;   0;   0;
    17;  23;   5;  18;  20;  25;  21;   9;
    15;  16;   0;   0;  13;   0;   1;  19;
     4;   6;   7;   8;  10;  11;  12;   0;
     0;   0;   0;  28;  26;  24;   3;  22;
     2;  14;  13;   0;   0; -17;   0;   0]
  [(156, 13); (181, -17); (200, 226); (208, 227); (201, 230); (209, 231);
   (203, 228); (205, 229); (151, 224); (207, 225); (210, 232); (211, 233)].

Definition charcode (i : Z) : list Z :=
  if i =? 0 then normalmap else if i =? 1 then shiftmap else ctlmap.

(** [x & ~m] for a mask of the flags. *)
Definition clear (x m : Z) : Z := Z.land x (Z.lxor 4294967295 m).

Definition kbdgetc (st data shift : Z) : Z * Z :=
  if Z.land st KBS_DIB =? 0 then (-1, shift) else
  if data =? 224 then (0, Z.lor shift E0ESC) else
  if negb (Z.land data 128 =? 0) then
    let data := if negb (Z.land shift E0ESC =? 0) then data else Z.land data 127 in
    (0, clear shift (Z.lor (aget 0 shiftcode data) E0ESC))
  else
    let '(data, shift) :=
      if negb (Z.land shift E0ESC =? 0) then (Z.lor data 128, clear shift E0ESC) else (data, shift) in
    let shift := Z.lor shift (aget 0 shiftcode data) in
    let shift := Z.lxor shift (aget 0 togglecode data) in
    let c := aget 0 (charcode (Z.land shift (Z.lor CTL SHIFT))) data in
    let c :=
      if negb (Z.land shift CAPSLOCK =? 0) then
        if (97 <=? c) && (c <=? 122) then u32 (c + (65 - 97))
        else if (65 <=? c) && (c <=? 90) then u32 (c + (97 - 65))
        else c
      else c in
    (c, shift).

(** A sequence of bytes from the controller: the characters and the flags. *)
Fixpoint kbd_keys (datas : list Z) (shift : Z) : list Z * Z :=
  match datas with
  | [] => ([], shift)
  | d :: ds =>
      let '(c, shift) := kbdgetc KBS_DIB d shift in
      let '(cs, shift) := kbd_keys ds shift in (c :: cs, shift)
  end.

Definition flag (f shift : Z) : bool := negb (Z.land shift f =? 0).

Definition is_letter (c : Z) : bool := (97 <=? c) && (c <=? 122).

(** What the letter on a key gives under the flags. *)
Definition letter (shift c : Z) : Z :=
  if flag CTL shift then c - 96
  else if xorb (flag SHIFT shift) (flag CAPSLOCK shift) then c - 32 else c.

(** Modifier keys with the flag they hold, some behind an escape byte. *)
Definition modifiers : list (list Z * list Z * Z) :=
  [([42], [170], SHIFT); ([54], [182], SHIFT); ([29], [157], CTL); ([56], [184], ALT);
   ([224; 29], [224; 157], CTL); ([224; 56], [224; 184], ALT)].

Definition toggles : list (list Z * list Z * Z) :=
  [([58], [186], CAPSLOCK); ([69], [197], NUMLOCK); ([70], [198], SCROLLLOCK)].

(** The checks, for one state of the flags and one key. *)
Definition letter_check (shift d : Z) : bool :=
  negb (is_letter (aget 0 normalmap d)) ||
  bool_decide (kbdgetc KBS_DIB d shift = (letter shift (aget 0 normalmap d), shift)).

Definition modifier_check (shift : Z) (m : list Z * list Z * Z) : bool :=
  let '(down, up, f) := m in
  bool_decide ((kbd_keys down shift).2 = Z.lor shift f) &&
  bool_decide ((kbd_keys (down ++ up) shift).2 = clear shift f).

Definition toggle_check (shift : Z) (m : list Z * list Z * Z) : bool :=
  let '(down, up, f) := m in
  bool_decide ((kbd_keys (down ++ up) shift).2 = Z.lxor shift f) &&
  bool_decide ((kbd_keys (down ++ up ++ down ++ up) shift).2 = shift).

Definition range_check (shift d : Z) : bool :=
  let '(c, shift') := kbdgetc KBS_DIB d shift in
  (0 <=? c) && (c <? 256) && (0 <=? shift') && (shift' <? 128).

Lemma in_Zseq z n : 0 <= z < Z.of_nat n -> In z (map Z.of_nat (seq 0 n)).
Proof. intros H. apply in_map_iff. exists (Z.to_nat z). split; [lia|]. apply in_seq. lia. Qed.

Lemma check_all {A} (f : Z -> A -> bool) n (l : list A) :
  forallb (fun z => forallb (f z) l) (map Z.of_nat (seq 0 n)) = true ->
  forall z x, 0 <= z < Z.of_nat n -> In x l -> f z x = true.
Proof.
  intros H z x Hz Hx. rewrite forallb_forall in H. specialize (H z (in_Zseq z n Hz)).
  rewrite forallb_forall in H. by apply H.
Qed.

Lemma letters_ok shift d : 0 <= shift < 64 -> 0 <= d < 128 -> letter_check shift d = true.
Proof.
  intros Hs Hd. apply (check_all letter_check 64 (map Z.of_nat (seq 0 128))); [vm_compute; reflexivity|done|by apply in_Zseq].
Qed.

Lemma modifiers_ok shift m : 0 <= shift < 64 -> In m modifiers -> modifier_check shift m = true.
Proof. apply (check_all modifier_check 64 modifiers). vm_compute. reflexivity. Qed.

Lemma toggles_ok shift m : 0 <= shift < 64 -> In m toggles -> toggle_check shift m = true.
Proof. apply (check_all toggle_check 64 toggles). vm_compute. reflexivity. Qed.

Lemma keycode_range_ok shift d : 0 <= shift < 128 -> 0 <= d < 256 -> range_check shift d = true.
Proof.
  intros Hs Hd. apply (check_all range_check 128 (map Z.of_nat (seq 0 256))); [vm_compute; reflexivity|done|by apply in_Zseq].
Qed.

(** In every state of the modifier flags: a key with a letter gives the
    letter, upper case when exactly one of SHIFT and CAPSLOCK is on and the
    control character when CTL is held; pressing a modifier sets its flag and
    releasing it clears it, for the keys behind an escape byte as well; a toggle
    key flips its flag and pressing it twice restores the state; and every byte
    gives a character code and flags within range, so no table is read outside. *)
Theorem kbdgetc_correct :
  (forall shift d, 0 <= shift < 64 -> 0 <= d < 128 -> is_letter (aget 0 normalmap d) = true ->
     kbdgetc KBS_DIB d shift = (letter shift (aget 0 normalmap d), shift)) /\
  (forall shift down up f, 0 <= shift < 64 -> In (down, up, f) modifiers ->
     (kbd_keys down shift).2 = Z.lor shift f /\ (kbd_keys (down ++ up) shift).2 = clear shift f) /\
  (forall shift down up f, 0 <= shift < 64 -> In (down, up, f) toggles ->
     (kbd_keys (down ++ up) shift).2 = Z.lxor shift f /\
     (kbd_keys (down ++ up ++ down ++ up) shift).2 = shift) /\
  (forall shift d, 0 <= shift < 128 -> 0 <= d < 256 ->
     0 <= (kbdgetc KBS_DIB d shift).1 < 256 /\ 0 <= (kbdgetc KBS_DIB d shift).2 < 128).
Proof.
  split; [|split; [|split]].
  - intros shift d Hs Hd Hl. pose proof (letters_ok shift d Hs Hd) as H. unfold letter_check in H.
    rewrite Hl in H. by apply bool_decide_eq_true in H.
  - intros shift down up f Hs Hm. pose proof (modifiers_ok shift _ Hs Hm) as H. unfold modifier_check in H.
    by rewrite andb_true_iff, !bool_decide_eq_true in H.
  - intros shift down up f Hs Hm. pose proof (toggles_ok shift _ Hs Hm) as H. unfold toggle_check in H.
    by rewrite andb_true_iff, !bool_decide_eq_true in H.
  - intros shift d Hs Hd. pose proof (keycode_range_ok shift d Hs Hd) as H. unfold range_check in H.
    destruct (kbdgetc KBS_DIB d shift) as [c shift'].
    rewrite !andb_true_iff, !Z.leb_le, !Z.ltb_lt in H. simpl. lia.
Qed.

Lemma kbdgetc_correct_witness :
  kbdgetc KBS_DIB 30 9 = (letter 9 (aget 0 normalmap 30), 9) /\ letter 9 (aget 0 normalmap 30) = 97.
Proof.
  split; [|vm_compute; reflexivity].
  exact (proj1 kbdgetc_correct 9 30 ltac:(lia) ltac:(lia) ltac:(vm_compute; reflexivity)).
Defined.
