(* ===== verification/Structio.v ===== *)
(** * Structured output (user/lib/structio.c, user/lib/modern.c)

    The writer of JSON objects and the helpers of the commands that use it, as
    functions that return the bytes they write to the writer's descriptor.  A
    [char *] argument is a byte string or the null pointer ([None]).

    The theorem is a round trip: a reader of JSON recovers the fields that were
    written, whatever bytes the values contain.  The reader follows the grammar of
    RFC 8259 for objects of strings and integers: blanks between tokens, no control
    character in a string unless it is escaped, all escapes but surrogate pairs, no
    leading zeros.  Bytes above 127 in a string are taken as they are. *)

From S2P Require Import Prelude CString ULib UPrintf Printf.

(** Arguments of [printf]: words, and pointers to strings that lie at distinct
    addresses. *)
Inductive parg := AInt (z : Z) | AStr (s : option (list Z)).

Definition parg_word (l : list parg) (n : nat) : Z :=
  match l !! n with
  | Some (AInt z) => z
  | Some (AStr (Some _)) => Z.of_nat (S n)
  | _ => 0
  end.

Definition parg_string (l : list parg) (a : Z) : list Z :=
  match l !! (Z.to_nat a - 1)%nat with
  | Some (AStr (Some s)) => s
  | _ => []
  end.

Definition uprintf (fmt : list Z) (l : list parg) : list Z :=
  UPrintf.printf (parg_word l) (parg_string l) fmt.

Definition QUOTE : Z := 34.
Definition BACKSL : Z := 92.

Module Structio.

Definition write_str (s : option (list Z)) : list Z := default [] s.

Definition hex : list Z := cs "0123456789abcdef".

Definition escape_char (c : Z) : list Z :=
  if c =? QUOTE then [BACKSL; QUOTE]
  else if c =? BACKSL then [BACKSL; BACKSL]
  else if c =? 10 then [BACKSL; chr "n"]
  else if c =? 13 then [BACKSL; chr "r"]
  else if c =? 9 then [BACKSL; chr "t"]
  else if u8 c <? 32 then
    [BACKSL; chr "u"; chr "0"; chr "0"; aget 0 hex (Z.land (Z.shiftr c 4) 15); aget 0 hex (Z.land c 15)]
  else [c].

Definition write_escaped (s : list Z) : list Z := flat_map escape_char s.

(** [struct struct_writer]. *)
Record struct_writer := mkwriter { fd : Z; need_comma : bool }.

Definition begin_field (w : struct_writer) : struct_writer * list Z :=
  if need_comma w then (w, [chr ","]) else (mkwriter (fd w) true, []).

Definition struct_begin (fd : Z) : struct_writer * list Z := (mkwriter fd false, [123]).

Definition struct_field_str (w : struct_writer) (key value : option (list Z)) : struct_writer * list Z :=
  let '(w, o) := begin_field w in
  (w, o ++ [QUOTE] ++ write_str (Some (default [] key)) ++ [QUOTE; chr ":"; QUOTE] ++
      write_escaped (default [] value) ++ [QUOTE]).

Definition struct_field_int (w : struct_writer) (key : option (list Z)) (value : Z) : struct_writer * list Z :=
  let '(w, o) := begin_field w in
  (w, o ++ [QUOTE] ++ write_str (Some (default [] key)) ++ [QUOTE; chr ":"] ++ uprintf (cs "%d") [AInt value]).

Definition struct_end (w : struct_writer) : list Z := [125; 10].

(** A sequence of fields, as the commands write them. *)
Inductive field := FStr (key value : list Z) | FInt (key : list Z) (value : Z).

Definition put_field (st : struct_writer * list Z) (f : field) : struct_writer * list Z :=
  let '(w, o) := st in
  let '(w, o') := match f with
    | FStr k v => struct_field_str w (Some k) (Some v)
    | FInt k z => struct_field_int w (Some k) z
    end in
  (w, o ++ o').

Definition put_struct (fd : Z) (fs : list field) : list Z :=
  let '(w, o) := foldl put_field (struct_begin fd) fs in o ++ struct_end w.

End Structio.
Import Structio.

(** ** modern.c *)

Definition MODERN_VENDOR : list Z := cs "diam Systems Ltd".
Definition MODERN_YEAR : Z := 2026.

Definition modern_plain_version (cmd : list Z) : list Z :=
  uprintf (cs "%s (c) %s %d" ++ [10]) [AStr (Some cmd); AStr (Some MODERN_VENDOR); AInt MODERN_YEAR].

Definition modern_print_version (cmd : list Z) (json_mode : bool) : list Z :=
  if negb json_mode then modern_plain_version cmd else
  let '(w, o) := struct_begin 1 in
  let '(w, o1) := struct_field_str w (Some (cs "command")) (Some cmd) in
  let '(w, o2) := struct_field_str w (Some (cs "vendor")) (Some MODERN_VENDOR) in
  let '(w, o3) := struct_field_int w (Some (cs "year")) MODERN_YEAR in
  o ++ o1 ++ o2 ++ o3 ++ struct_end w.

(** The arguments from the index [i] on; [inl] is the output of the exit after
    [--version], [inr] the index of the first other argument and the mode. *)
Fixpoint consume_flags (cmd : list Z) (args : list (list Z)) (i : Z) (supports_json json_mode : bool) :
    list Z + Z * bool :=
  match args with
  | [] => inr (i, json_mode)
  | arg :: args' =>
      if bool_decide (arg = cs "--version") then inl (modern_print_version cmd json_mode)
      else if supports_json && (bool_decide (arg = cs "-J") || bool_decide (arg = cs "--json"))
      then consume_flags cmd args' (i + 1) supports_json true
      else inr (i, json_mode)
  end.

Definition modern_consume_flags (cmd : list Z) (argv : list (list Z)) (supports_json : bool) : list Z + Z * bool :=
  consume_flags cmd (drop 1 argv) 1 supports_json false.

Definition modern_emit_status (cmd : list Z) (event target : option (list Z)) (json_mode : bool)
    (status : option (list Z)) : list Z :=
  if negb json_mode then
    uprintf (cs "%s: %s %s %s" ++ [10]) [AStr (Some cmd); AStr (Some (default (cs "event") event)); AStr (Some (default [] target));
   AStr (Some (default (cs "done") status))]
  else
  let '(w, o) := struct_begin 1 in
  let '(w, o1) := struct_field_str w (Some (cs "command")) (Some cmd) in
  let '(w, o2) := struct_field_str w (Some (cs "event")) (Some (default (cs "event") event)) in
  let '(w, o3) := match target with
    | Some t => struct_field_str w (Some (cs "target")) (Some t) | None => (w, []) end in
  let '(w, o4) := match status with
    | Some t => struct_field_str w (Some (cs "status")) (Some t) | None => (w, []) end in
  o ++ o1 ++ o2 ++ o3 ++ o4 ++ struct_end w.

(** ** A reader of JSON objects *)

(** The blanks between tokens. *)
Fixpoint skip_blank (l : list Z) : list Z :=
  match l with
  | c :: l' => if (c =? 32) || (c =? 9) || (c =? 10) || (c =? 13) then skip_blank l' else l
  | [] => []
  end.

Definition hexval (c : Z) : option Z :=
  if (48 <=? c) && (c <=? 57) then Some (c - 48)
  else if (97 <=? c) && (c <=? 102) then Some (c - 87)
  else if (65 <=? c) && (c <=? 70) then Some (c - 55) else None.

(** The bytes of the code point of [\uXXXX] in UTF-8; surrogates are refused. *)
Definition utf8 (u : Z) : option (list Z) :=
  if u <? 128 then Some [u]
  else if u <? 2048 then Some [192 + u / 64; 128 + u mod 64]
  else if (55296 <=? u) && (u <=? 57343) then None
  else Some [224 + u / 4096; 128 + u / 64 mod 64; 128 + u mod 64].

(** The escape [e] after a backslash, but for [\u]. *)
Definition unescape (e : Z) : option Z :=
  if (e =? QUOTE) || (e =? BACKSL) || (e =? chr "/") then Some e
  else if e =? chr "b" then Some 8
  else if e =? chr "f" then Some 12
  else if e =? chr "n" then Some 10
  else if e =? chr "r" then Some 13
  else if e =? chr "t" then Some 9
  else None.

(** A JSON string after its opening quote: its bytes and what follows it. *)
Fixpoint read_string (l : list Z) : option (list Z * list Z) :=
  match l with
  | [] => None
  | c :: l' =>
      let push x l := prod_map (app x) id <$> read_string l in
      if c =? QUOTE then Some ([], l')
      else if c <? 32 then None
      else if c =? BACKSL then
        match l' with
        | [] => None
        | e :: l2 =>
            if e =? chr "u" then
              match l2 with
              | h1 :: h2 :: h3 :: h4 :: l3 =>
                  match hexval h1, hexval h2, hexval h3, hexval h4 with
                  | Some a, Some b, Some x, Some y =>
                      match utf8 (4096 * a + 256 * b + 16 * x + y) with
                      | Some bs => push bs l3
                      | None => None
                      end
                  | _, _, _, _ => None
                  end
              | _ => None
              end
            else match unescape e with Some x => push [x] l2 | None => None end
        end
      else push [c] l'
  end.

(** The digits at the front of a list. *)
Fixpoint read_digits (l : list Z) (n : Z) : Z * list Z :=
  match l with
  | c :: l' => if (48 <=? c) && (c <=? 57) then read_digits l' (n * 10 + (c - 48)) else (n, l)
  | [] => (n, [])
  end.

(** A natural number: at least one digit, and no zero before others. *)
Definition read_nat (l : list Z) : option (Z * list Z) :=
  match l with
  | c :: l' =>
      if c =? 48 then
        match l' with d :: _ => if (48 <=? d) && (d <=? 57) then None else Some (0, l') | [] => Some (0, []) end
      else if (49 <=? c) && (c <=? 57) then Some (read_digits l 0) else None
  | [] => None
  end.

Definition read_int (l : list Z) : option (Z * list Z) :=
  match l with
  | c :: l' => if c =? chr "-" then prod_map Z.opp id <$> read_nat l' else read_nat l
  | [] => None
  end.

Definition read_field (l : list Z) : option (field * list Z) :=
  match skip_blank l with
  | q :: l1 =>
      if negb (q =? QUOTE) then None else
      '(k, l2) ← read_string l1;
      match skip_blank l2 with
      | c :: l3 =>
          if negb (c =? chr ":") then None else
          match skip_blank l3 with
          | v :: l4 =>
              if v =? QUOTE then '(s, l5) ← read_string l4; Some (FStr k s, l5)
              else '(n, l5) ← read_int (v :: l4); Some (FInt k n, l5)
          | [] => None
          end
      | [] => None
      end
  | [] => None
  end.

(** The fields up to the closing brace, separated by commas. *)
Fixpoint read_fields (fuel : nat) (l : list Z) : option (list field * list Z) :=
  match fuel with
  | O => None
  | S f =>
      '(x, l1) ← read_field l;
      match skip_blank l1 with
      | c :: l2 =>
          if c =? chr "," then prod_map (cons x) id <$> read_fields f l2
          else if c =? 125 then Some ([x], l2) else None
      | [] => None
      end
  end.

(** An object, and nothing but blanks around it. *)
Definition read_struct (l : list Z) : option (list field) :=
  match skip_blank l with
  | b :: l1 =>
      if negb (b =? 123) then None else
      '(fs, l2) ← match skip_blank l1 with
                  | c :: l2 => if c =? 125 then Some ([], l2) else read_fields (length l) l1
                  | [] => None
                  end;
      if bool_decide (skip_blank l2 = []) then Some fs else None
  | [] => None
  end.

Lemma hexval_hex d : 0 <= d < 16 -> hexval (aget 0 hex d) = Some d.
Proof.
  intros H.
  assert (d = 0 \/ d = 1 \/ d = 2 \/ d = 3 \/ d = 4 \/ d = 5 \/ d = 6 \/ d = 7 \/ d = 8 \/ d = 9 \/ d = 10 \/
    d = 11 \/ d = 12 \/ d = 13 \/ d = 14 \/ d = 15) as Hc by lia.
  decompose [or] Hc; subst d; done.
Qed.

Lemma utf8_ascii u : 0 <= u < 128 -> utf8 u = Some [u].
Proof. intros Hu. unfold utf8. by rewrite (proj2 (Z.ltb_lt _ _)) by lia. Qed.

Lemma read_escaped_char c l : byte_ok c ->
  read_string (escape_char c ++ l) = prod_map (cons c) id <$> read_string l.
Proof.
  intros Hc. unfold byte_ok in Hc. unfold escape_char.
  destruct (Z.eqb_spec c QUOTE) as [->|H1]; [done|].
  destruct (Z.eqb_spec c BACKSL) as [->|H2]; [done|].
  destruct (Z.eqb_spec c 10) as [->|H3]; [done|].
  destruct (Z.eqb_spec c 13) as [->|H4]; [done|].
  destruct (Z.eqb_spec c 9) as [->|H5]; [done|].
  assert (u8 c = c) as -> by (apply Z.mod_small; lia).
  destruct (Z.ltb_spec c 32) as [Hlt|Hge].
  - assert (Z.land c 15 = c mod 16) as -> by (apply (Z.land_ones c 4); lia).
    assert (Z.land (Z.shiftr c 4) 15 = c / 16) as ->.
    { rewrite Z.shiftr_div_pow2 by lia. change 15 with (Z.ones 4). rewrite Z.land_ones by lia.
      apply Z.mod_small. split; [apply Z.div_pos; lia|]. apply Z.div_lt_upper_bound; lia. }
    cbn [app]. transitivity
      (match hexval (aget 0 hex (c / 16)), hexval (aget 0 hex (c mod 16)) with
       | Some a, Some b => match utf8 (16 * a + b) with Some bs => prod_map (app bs) id <$> read_string l | None => None end
       | _, _ => None end).
    { cbn -[hexval]. change (hexval 48) with (Some 0). by destruct (hexval (aget 0 hex (c / 16))), (hexval (aget 0 hex (c mod 16))). }
    rewrite !hexval_hex; [|apply Z.mod_pos_bound; lia|split; [apply Z.div_pos; lia|apply Z.div_lt_upper_bound; lia]].
    pose proof (Z.div_mod c 16 ltac:(lia)) as Hd. rewrite <- Hd, utf8_ascii by lia. done.
  - cbn [app read_string]. destruct (Z.eqb_spec c QUOTE); [done|]. rewrite (proj2 (Z.ltb_ge _ _)) by lia. by destruct (Z.eqb_spec c BACKSL).
Qed.

Lemma read_escaped s l : Forall byte_ok s -> read_string (write_escaped s ++ QUOTE :: l) = Some (s, l).
Proof.
  induction 1 as [|c s Hc _ IH]; [done|]. unfold write_escaped. cbn [flat_map]. fold (write_escaped s).
  rewrite <- app_assoc, read_escaped_char by done. by rewrite IH.
Qed.

(** A key is written as it is. *)
Definition plain_key (k : list Z) : Prop := Forall (fun c => 32 <= c /\ c <> QUOTE /\ c <> BACKSL) k.

Lemma read_plain k l : plain_key k -> read_string (k ++ QUOTE :: l) = Some (k, l).
Proof.
  induction 1 as [|c k (H0 & H1 & H2) _ IH]; [done|]. cbn [app read_string].
  destruct (Z.eqb_spec c QUOTE); [done|]. rewrite (proj2 (Z.ltb_ge _ _)) by lia. destruct (Z.eqb_spec c BACKSL); [done|]. by rewrite IH.
Qed.

(** ** Numbers *)

Definition not_digit (l : list Z) : Prop :=
  match l with c :: _ => ~ is_digit c | [] => True end.

Lemma read_digits_map ds l n : Forall (fun d => 0 <= d < 10) ds -> not_digit l ->
  read_digits (map (fun d => 48 + d) ds ++ l) n = (foldl (fun n d => n * 10 + d) n ds, l).
Proof.
  intros Hds Hl. revert n. induction Hds as [|d ds Hd _ IH]; intros n.
  - destruct l as [|c l]; [done|]. cbn [map app read_digits foldl]. unfold not_digit, is_digit in Hl.
    destruct (Z.leb_spec 48 c), (Z.leb_spec c 57); try done. lia.
  - cbn [map app read_digits foldl]. destruct (Z.leb_spec 48 (48 + d)); [|lia]. destruct (Z.leb_spec (48 + d) 57); [|lia].
    cbn [andb]. rewrite IH. f_equal. f_equal. lia.
Qed.

(** [printf("%d")] of an [int]. *)
Lemma uprintf_int z : - 2 ^ 31 <= z < 2 ^ 31 -> exists ds, ds <> [] /\ Forall (fun d => 0 <= d < 10) ds /\
  foldl (fun n d => n * 10 + d) 0 ds = Z.abs z /\ (ds = [0] \/ head ds <> Some 0) /\
  uprintf (cs "%d") [AInt z] = (if z <? 0 then [chr "-"] else []) ++ map (fun d => 48 + d) ds.
Proof.
  intros Hz. pose proof (u32_fuel 10 ltac:(lia)) as Hf.
  destruct (put_digits_spec 32 UPrintf.digits (Z.abs z) 10 ltac:(lia) ltac:(lia)) as (ds & Eds & Hds & Hv).
  exists ds. split; [|split; [done|split; [done|split]]].
  - intros ->. apply (f_equal (@rev Z)) in Eds. rewrite rev_involutive in Eds. by apply put_digits_neq in Eds; [|lia].
  - destruct (decide (z = 0)) as [->|Hz0].
    { left. vm_compute in Eds. destruct ds as [|d [|]]; try done. inversion Hds; subst. f_equal. injection Eds as Eds.
      assert (d = 0 \/ d = 1 \/ d = 2 \/ d = 3 \/ d = 4 \/ d = 5 \/ d = 6 \/ d = 7 \/ d = 8 \/ d = 9) as Hc by lia.
      decompose [or] Hc; subst d; done. }
    right. destruct (put_digits_last 32 UPrintf.digits (Z.abs z) 10 ltac:(lia) ltac:(lia)) as (d & l & E & Hd).
    rewrite E, rev_app_distr in Eds. destruct ds as [|d' ds]; [done|]. injection Eds as Eh _. simpl. intros [= ->].
    assert (d = 1 \/ d = 2 \/ d = 3 \/ d = 4 \/ d = 5 \/ d = 6 \/ d = 7 \/ d = 8 \/ d = 9) as Hc by lia.
    decompose [or] Hc; subst d; done.
  - transitivity (UPrintf.printint (s32 z) 10 1 ++ []); [reflexivity|]. rewrite app_nil_r, s32_id by lia.
    unfold UPrintf.printint. cbn [Z.eqb negb andb].
    assert ((if z <? 0 then u32 (- z) else u32 z) = Z.abs z) as ->.
    { destruct (Z.ltb_spec z 0); rewrite u32_id by lia; lia. }
    rewrite <- (decimal_digits ds) by done. rewrite <- Eds. destruct (z <? 0); [by rewrite rev_app_distr|done].
Qed.

Lemma read_nat_print ds l : ds <> [] -> Forall (fun d => 0 <= d < 10) ds -> ds = [0] \/ head ds <> Some 0 -> not_digit l ->
  read_nat (map (fun d => 48 + d) ds ++ l) = Some (foldl (fun n d => n * 10 + d) 0 ds, l).
Proof.
  intros Hne Hds Hz Hl. destruct ds as [|d ds]; [done|]. inversion Hds as [|? ? Hd Hds']; subst.
  destruct (decide (d = 0)) as [->|Hd0].
  - destruct Hz as [[= ->]|Hz]; [|done]. simpl. destruct l as [|c l]; [done|]. unfold not_digit, is_digit in Hl.
    destruct (Z.leb_spec 48 c), (Z.leb_spec c 57); try done. lia.
  - unfold read_nat. cbn [map app]. rewrite (proj2 (Z.eqb_neq _ _)) by lia.
    rewrite (proj2 (Z.leb_le 49 _)), (proj2 (Z.leb_le _ 57)) by lia. cbn [andb].
    change (48 + d :: map (fun d => 48 + d) ds ++ l) with (map (fun d => 48 + d) (d :: ds) ++ l).
    by rewrite read_digits_map.
Qed.

(** What follows a number, and what a token may start with. *)
Definition not_blank (l : list Z) : Prop :=
  match l with c :: _ => c <> 32 /\ c <> 9 /\ c <> 10 /\ c <> 13 | [] => True end.

Lemma skip_blank_id l : not_blank l -> skip_blank l = l.
Proof.
  destruct l as [|c l]; [done|]. cbn. intros (H1 & H2 & H3 & H4). by rewrite !(proj2 (Z.eqb_neq _ _)) by done.
Qed.

Lemma read_int_print z l : - 2 ^ 31 <= z < 2 ^ 31 -> not_digit l ->
  read_int (uprintf (cs "%d") [AInt z] ++ l) = Some (z, l) /\
  (exists c r, uprintf (cs "%d") [AInt z] = c :: r /\ c <> QUOTE /\ 45 <= c).
Proof.
  intros Hz Hl. destruct (uprintf_int z Hz) as (ds & Hne & Hds & Hv & Hlead & ->).
  destruct (Z.ltb_spec z 0) as [Hneg|Hpos]; cbn [app].
  - split; [|by exists (chr "-"), (map (fun d => 48 + d) ds)].
    unfold read_int. rewrite Z.eqb_refl, read_nat_print, Hv by done. unfold prod_map. simpl. do 2 f_equal. lia.
  - pose proof (read_nat_print ds l Hne Hds Hlead Hl) as Hr. destruct ds as [|d ds]; [done|]. inversion Hds as [|? ? Hd Hds']; subst.
    split; [|exists (48 + d), (map (fun d => 48 + d) ds); split; [done|unfold QUOTE; lia]].
    unfold read_int. cbn [map app] in *.
    destruct (Z.eqb_spec (48 + d) (chr "-")) as [E|_]; [change (chr "-") with 45 in E; lia|].
    rewrite Hr, Hv. do 2 f_equal. lia.
Qed.

(** ** Objects *)

Definition field_ok (f : field) : Prop :=
  match f with
  | FStr k v => plain_key k /\ Forall byte_ok v
  | FInt k z => plain_key k /\ - 2 ^ 31 <= z < 2 ^ 31
  end.

(** A field without the comma before it. *)
Definition field_text (f : field) : list Z :=
  match f with
  | FStr k v => [QUOTE] ++ k ++ [QUOTE; chr ":"; QUOTE] ++ write_escaped v ++ [QUOTE]
  | FInt k z => [QUOTE] ++ k ++ [QUOTE; chr ":"] ++ uprintf (cs "%d") [AInt z]
  end.

Lemma read_field_text f l : field_ok f -> not_digit l -> read_field (field_text f ++ l) = Some (f, l).
Proof.
  intros Hf Hl. unfold read_field.
  destruct f as [k v|k z]; destruct Hf as [Hk Hv]; cbn [field_text app]; rewrite skip_blank_id by done;
    rewrite Z.eqb_refl; cbn [negb]; rewrite <- app_assoc; cbn [app]; rewrite read_plain by done;
    cbn [mbind option_bind]; rewrite skip_blank_id by done; rewrite Z.eqb_refl; cbn [negb].
  - rewrite skip_blank_id by done. rewrite Z.eqb_refl, <- app_assoc. cbn [app]. by rewrite read_escaped.
  - destruct (read_int_print z l Hv Hl) as [Ei (c & r & Ec & Hc & Hc')]. rewrite Ec in *. cbn [app] in *.
    rewrite skip_blank_id by (cbn; lia). destruct (Z.eqb_spec c QUOTE); [done|]. by rewrite Ei.
Qed.

(** What a sequence of fields writes: commas between them. *)
Fixpoint fields_text (fs : list field) : list Z :=
  match fs with
  | [] => []
  | f :: fs' => chr "," :: field_text f ++ fields_text fs'
  end.

Lemma put_fields fs w o : need_comma w = true ->
  foldl put_field (w, o) fs = (w, o ++ fields_text fs).
Proof.
  revert o. induction fs as [|f fs IH]; intros o Hw; cbn [foldl fields_text]; [by rewrite app_nil_r|].
  assert (put_field (w, o) f = (w, o ++ chr "," :: field_text f)) as ->.
  { destruct f; cbn [put_field]; unfold struct_field_str, struct_field_int, begin_field; rewrite Hw; done. }
  rewrite IH by done. rewrite <- app_assoc. done.
Qed.

Lemma put_struct_text fd f fs : put_struct fd (f :: fs) = 123 :: field_text f ++ fields_text fs ++ [125; 10].
Proof.
  unfold put_struct, struct_begin. cbn [foldl].
  assert (put_field (mkwriter fd false, [123]) f = (mkwriter fd true, 123 :: field_text f)) as ->.
  { destruct f; done. }
  rewrite put_fields by done. cbn [app]. by rewrite <- app_assoc.
Qed.

Lemma fields_not_digit fs l : not_digit (fields_text fs ++ 125 :: l).
Proof. destruct fs; cbn; unfold is_digit; lia. Qed.

Lemma read_fields_text fuel f fs l : field_ok f -> Forall field_ok fs -> (length fs < fuel)%nat ->
  read_fields fuel (field_text f ++ fields_text fs ++ 125 :: l) = Some (f :: fs, l).
Proof.
  intros Hf Hfs. revert fuel f Hf. induction Hfs as [|f' fs Hf' _ IH]; intros fuel f Hf Hfu;
    (destruct fuel as [|fuel]; [simpl in Hfu; lia|]); cbn [read_fields];
    rewrite read_field_text by (done || apply (fields_not_digit [] l) || apply (fields_not_digit (_ :: _) l));
    cbn [mbind option_bind fields_text app]; rewrite skip_blank_id by done.
  - done.
  - rewrite Z.eqb_refl, <- app_assoc. rewrite IH by (done || simpl in Hfu; lia). done.
Qed.

Lemma length_fields_text fs : (length fs <= length (fields_text fs))%nat.
Proof. induction fs as [|f fs IH]; cbn [fields_text length]; [lia|]. rewrite length_app. lia. Qed.

Lemma read_put_struct fd fs : Forall field_ok fs -> read_struct (put_struct fd fs) = Some fs.
Proof.
  intros Hfs. destruct Hfs as [|f fs Hf Hfs]; [done|]. rewrite put_struct_text.
  unfold read_struct. rewrite skip_blank_id, Z.eqb_refl by done. cbn [negb].
  assert (exists r, field_text f ++ fields_text fs ++ [125; 10] = QUOTE :: r) as [r Er] by (destruct f; cbn [field_text app]; eauto).
  rewrite Er, skip_blank_id by done. cbn [Z.eqb Pos.eqb]. rewrite <- Er.
  change (QUOTE =? 125) with false. cbv iota. rewrite read_fields_text; [done|done|done|].
  cbn [length]. rewrite !length_app. pose proof (length_fields_text fs). lia.
Qed.

(** C36. What the writer prints is JSON that says what was written: a reader that
    refuses what RFC 8259 refuses, such as a control character in a string, recovers
    exactly the fields, in order, for values of any bytes and any [int].  Keys are
    written as they are and must not contain a quote, a backslash or a control
    character.  Whether bytes above 127 are UTF-8 is left to the value. *)
Theorem struct_roundtrip fd fs : Forall field_ok fs -> read_struct (put_struct fd fs) = Some fs.
Proof. apply read_put_struct. Qed.

Lemma struct_roundtrip_witness :
  let fs := [FStr (cs "file") [97; 34; 10; 1; 200]; FInt (cs "lines") (-7)] in
  read_struct (put_struct 1 fs) = Some fs.
Proof.
  apply struct_roundtrip. constructor; [|constructor; [|constructor]].
  - split; [apply (bool_decide_unpack _); vm_compute; exact I|].
    repeat constructor; unfold byte_ok; lia.
  - split; [apply (bool_decide_unpack _); vm_compute; exact I|lia].
Defined.
