(* ===== verification/Filters.v ===== *)
(** * Text filters (user/bin/grep.c, user/bin/wc.c, user/bin/cat.c)

    The filters read a file by [read] calls; a list of byte strings stands for
    what the calls return, up to the first call that returns 0.  Texts are byte
    strings without the final NUL. *)

From S2P Require Import Prelude CString ULib Printf Structio.
Import Structio.Structio.

Module Grep.

(** [matchstar(c, re, text)], where [mh] is [matchhere(re, _)]. *)
Fixpoint matchstar (mh : list Z -> bool) (c : Z) (text : list Z) : bool :=
  if mh text then true else
  match text with
  | [] => false
  | x :: text' => if (x =? c) || (c =? chr ".") then matchstar mh c text' else false
  end.

Fixpoint matchhere (re text : list Z) : bool :=
  match re with
  | [] => true
  | c :: re1 =>
      let one :=
        match text with
        | x :: text' => if (c =? chr ".") || (c =? x) then matchhere re1 text' else false
        | [] => false
        end in
      match re1 with
      | s :: re2 => if s =? chr "*" then matchstar (matchhere re2) c text else one
      | [] => if c =? chr "$" then bool_decide (text = []) else one
      end
  end.

(** The loop of [match] over the suffixes of the text. *)
Fixpoint match_loop (re text : list Z) : bool :=
  if matchhere re text then true else
  match text with
  | [] => false
  | _ :: text' => match_loop re text'
  end.

Definition match_re (re text : list Z) : bool :=
  match re with
  | c :: re1 => if c =? chr "^" then matchhere re1 text else match_loop re text
  | [] => match_loop re text
  end.

(** [strchr(p, '\n')] in the NUL-terminated buffer: the line and what follows it. *)
Fixpoint next_line (p : list Z) : option (list Z * list Z) :=
  match p with
  | [] => None
  | c :: p' =>
      if c =? 0 then None else if c =? 10 then Some ([], p')
      else prod_map (cons c) id <$> next_line p'
  end.

(** The inner loop: the bytes written and the rest after the last newline. *)
Fixpoint grep_lines (fuel : nat) (pattern p : list Z) : list Z * list Z :=
  match fuel with
  | O => ([], p)
  | S f =>
      match next_line p with
      | None => ([], p)
      | Some (line, q) =>
          let '(o, rest) := grep_lines f pattern q in
          ((if match_re pattern line then line ++ [10] else []) ++ o, rest)
      end
  end.

(** The outer loop, with [m] bytes kept at the start of the buffer: a buffer
    without a newline is thrown away. *)
Fixpoint grep (pattern held : list Z) (reads : list (list Z)) : list Z :=
  match reads with
  | [] => []
  | chunk :: reads' =>
      let buf := held ++ chunk in
      let '(o, p) := grep_lines (length buf) pattern buf in
      o ++ grep pattern (if bool_decide (p = buf) then [] else p) reads'
  end.

(** ** What the patterns mean *)

Inductive item := One (c : Z) | Star (c : Z) | End.

Fixpoint items (re : list Z) : list item :=
  match re with
  | [] => []
  | c :: re1 =>
      match re1 with
      | s :: re2 => if s =? chr "*" then Star c :: items re2 else One c :: items re1
      | [] => if c =? chr "$" then [End] else [One c]
      end
  end.

Definition any_of (c x : Z) : Prop := x = c \/ c = chr ".".

(** The items match at the start of the text. *)
Inductive here : list item -> list Z -> Prop :=
| here_nil t : here [] t
| here_end : here [End] []
| here_one c x its t : any_of c x -> here its t -> here (One c :: its) (x :: t)
| here_star c its pre t : Forall (any_of c) pre -> here its t -> here (Star c :: its) (pre ++ t).

Lemma any_of_test c x : ((x =? c) || (c =? chr ".")) = true <-> any_of c x.
Proof. unfold any_of. by rewrite orb_true_iff, !Z.eqb_eq. Qed.

Lemma matchstar_spec mh its c text : (forall t, mh t = true <-> here its t) ->
  matchstar mh c text = true <-> here (Star c :: its) text.
Proof.
  intros Hmh. induction text as [|x text IH]; cbn [matchstar].
  - destruct (mh []) eqn:E.
    + split; [|done]. intros _. apply (here_star c its [] []); [constructor|by apply Hmh].
    + split; [done|]. intros H. inversion H as [| | |? ? pre t Hp Ht Ei Et]; subst.
      apply app_eq_nil in Et as [-> ->]. apply Hmh in Ht. congruence.
  - destruct (mh (x :: text)) eqn:E.
    + split; [|done]. intros _. apply (here_star c its [] (x :: text)); [constructor|by apply Hmh].
    + destruct ((x =? c) || (c =? chr ".")) eqn:Ex.
      * rewrite IH. split; intros H; inversion H as [| | |? ? pre t Hp Ht Ei Et]; subst.
        -- apply (here_star c its (x :: pre) t); [constructor; [by apply any_of_test|done]|done].
        -- destruct pre as [|y pre]; cbn in Et; [subst t; apply Hmh in Ht; congruence|].
           injection Et as -> <-. inversion Hp; subst. by apply here_star.
      * split; [done|]. intros H. inversion H as [| | |? ? pre t Hp Ht Ei Et]; subst.
        destruct pre as [|y pre]; cbn in Et; [subst t; apply Hmh in Ht; congruence|].
        injection Et as -> <-. inversion Hp as [|? ? Hy]; subst. apply any_of_test in Hy. congruence.
Qed.

Lemma here_one_inv c its t : here (One c :: its) t <-> exists x t', t = x :: t' /\ any_of c x /\ here its t'.
Proof.
  split.
  - intros H. inversion H; subst. eauto.
  - intros (x & t' & -> & Hx & Ht). by constructor.
Qed.

Lemma matchhere_spec k re text : (length re <= k)%nat -> matchhere re text = true <-> here (items re) text.
Proof.
  revert re text. induction k as [|k IH]; intros re text Hk.
  { destruct re; [|simpl in Hk; lia]. split; [constructor|done]. }
  destruct re as [|c re1]; [split; [constructor|done]|].
  assert (forall its, (forall t, matchhere re1 t = true <-> here its t) ->
    match text with x :: text' => if (c =? chr ".") || (c =? x) then matchhere re1 text' else false | [] => false end
      = true <-> here (One c :: its) text) as Hone.
  { intros its His. rewrite here_one_inv. destruct text as [|x text].
    - split; [done|]. intros (x & t' & E & _). done.
    - rewrite (Z.eqb_sym c x), orb_comm. destruct ((x =? c) || (c =? chr ".")) eqn:Ex.
      + rewrite His. split; [|by intros (? & ? & [= <- <-] & _ & ?)]. intros H. exists x, text.
        split_and!; [done|by apply any_of_test|done].
      + split; [done|]. intros (? & ? & [= <- <-] & Hx & _). apply any_of_test in Hx. congruence. }
  simpl in Hk. destruct re1 as [|s re2]; cbn [matchhere items].
  - destruct (c =? chr "$").
    + rewrite bool_decide_eq_true. split; [intros ->; constructor|]. intros H. by inversion H.
    + apply Hone. intros t. split; [constructor|done].
  - destruct (s =? chr "*").
    + apply matchstar_spec. intros t. apply IH. simpl in Hk. lia.
    + apply Hone. intros t. apply IH. simpl in *. lia.
Qed.

Lemma match_loop_spec re text :
  match_loop re text = true <-> exists pre t, text = pre ++ t /\ here (items re) t.
Proof.
  induction text as [|x text IH]; cbn [match_loop].
  - destruct (matchhere re []) eqn:E.
    + split; [|done]. intros _. exists [], []. split; [done|]. by apply (matchhere_spec (length re)).
    + split; [done|]. intros (pre & t & Et & H). symmetry in Et. apply app_eq_nil in Et as [-> ->].
      apply (matchhere_spec (length re)) in H; [congruence|lia].
  - destruct (matchhere re (x :: text)) eqn:E.
    + split; [|done]. intros _. exists [], (x :: text). split; [done|]. by apply (matchhere_spec (length re)).
    + rewrite IH. split.
      * intros (pre & t & -> & H). by exists (x :: pre), t.
      * intros ([|y pre] & t & Et & H); cbn in Et.
        -- subst t. apply (matchhere_spec (length re)) in H; [congruence|lia].
        -- injection Et as -> ->. by exists pre, t.
Qed.

Lemma match_re_spec re text : match_re re text = true <->
  match re with
  | c :: re1 => if c =? chr "^" then here (items re1) text
                else exists pre t, text = pre ++ t /\ here (items re) t
  | [] => exists pre t, text = pre ++ t /\ here (items re) t
  end.
Proof.
  unfold match_re. destruct re as [|c re1]; [apply match_loop_spec|].
  destruct (c =? chr "^"); [by apply (matchhere_spec (length re1))|apply match_loop_spec].
Qed.

(** ** Lines *)

(** The complete lines of a text and the incomplete last one. *)
Fixpoint split_lines (p : list Z) : list (list Z) * list Z :=
  match p with
  | [] => ([], [])
  | c :: p' =>
      let '(ls, r) := split_lines p' in
      if c =? 10 then ([] :: ls, r)
      else match ls with [] => ([], c :: r) | l :: ls' => ((c :: l) :: ls', r) end
  end.

Definition select (pattern : list Z) (ls : list (list Z)) : list Z :=
  flat_map (fun l => if match_re pattern l then l ++ [10] else []) ls.

Lemma next_line_some p l q : Forall (fun c => c <> 0) p -> next_line p = Some (l, q) ->
  split_lines p = (l :: (split_lines q).1, (split_lines q).2) /\ Forall (fun c => c <> 0) q /\
  (length q < length p)%nat.
Proof.
  intros Hp. revert l q. induction Hp as [|c p Hc Hp IH]; intros l q; cbn [next_line split_lines length]; [done|].
  destruct (Z.eqb_spec c 0); [done|]. destruct (c =? 10) eqn:E.
  - intros [= <- <-]. destruct (split_lines p). split; [done|]. split; [done|lia].
  - destruct (next_line p) as [[l0 q0]|]; [|done]. cbn. intros [= <- <-].
    destruct (IH _ _ eq_refl) as (-> & Hq & Hl). split; [done|]. split; [done|]. unfold id in *. lia.
Qed.

Lemma next_line_none p : Forall (fun c => c <> 0) p -> next_line p = None -> split_lines p = ([], p).
Proof.
  induction 1 as [|c p Hc _ IH]; cbn [next_line split_lines]; [done|].
  destruct (Z.eqb_spec c 0); [done|]. destruct (c =? 10); [done|].
  destruct (next_line p) as [[]|]; [done|]. intros _. by rewrite IH.
Qed.

Lemma grep_lines_spec fuel pattern p : Forall (fun c => c <> 0) p -> (length p <= fuel)%nat ->
  grep_lines fuel pattern p = (select pattern (split_lines p).1, (split_lines p).2).
Proof.
  revert p. induction fuel as [|f IH]; intros p Hp Hf.
  { destruct p; [done|simpl in Hf; lia]. }
  cbn [grep_lines]. destruct (next_line p) as [[l q]|] eqn:E.
  - destruct (next_line_some p l q Hp E) as (-> & Hq & Hl). rewrite IH by (done || lia). done.
  - by rewrite (next_line_none p Hp E).
Qed.

Lemma split_lines_app a b : split_lines (a ++ b) =
  ((split_lines a).1 ++ (split_lines ((split_lines a).2 ++ b)).1, (split_lines ((split_lines a).2 ++ b)).2).
Proof.
  induction a as [|c a IH]; cbn [app split_lines]; [cbn [fst snd app]; by destruct (split_lines b)|]. rewrite IH.
  destruct (split_lines a) as [la ra]. cbn [fst snd]. destruct (c =? 10) eqn:E; [done|].
  destruct la as [|l la]; cbn [app fst snd split_lines]; [|done].
  destruct (split_lines (ra ++ b)) as [lb rb]. cbn [fst snd]. rewrite E. by destruct lb.
Qed.

Lemma split_rest_lines p : (split_lines (split_lines p).2).1 = [].
Proof.
  induction p as [|c p IH]; cbn [split_lines]; [done|]. destruct (split_lines p) as [ls r]. cbn [snd] in *.
  destruct (c =? 10) eqn:E; [done|]. destruct ls; cbn [snd split_lines]; [|done].
  destruct (split_lines r) as [lr rr]. cbn [fst] in IH. subst lr. by rewrite E.
Qed.

Lemma split_rest p : Forall (fun c => c <> 0) p -> Forall (fun c => c <> 0) (split_lines p).2 /\
  (10 ∈ p -> (length (split_lines p).2 < length p)%nat) /\ (length (split_lines p).2 <= length p)%nat.
Proof.
  induction 1 as [|c p Hc Hp (IH1 & IH2 & IH3)]; cbn [split_lines].
  - split; [constructor|]. split; [|simpl; lia]. intros H. by apply elem_of_nil in H.
  - destruct (split_lines p) as [ls r]. cbn [fst snd] in *. destruct (Z.eqb_spec c 10) as [->|E].
    + cbn [snd]. split; [done|]. simpl. split; lia.
    + assert (10 ∈ c :: p -> 10 ∈ p) as Hin by (intros H; apply elem_of_cons in H as [|]; [congruence|done]).
      destruct ls; cbn [snd].
      * split; [by constructor|]. simpl. split; [|lia]. intros H. specialize (IH2 (Hin H)). lia.
      * split; [done|]. simpl. split; lia.
Qed.

Lemma grep_spec pattern held reads : Forall (fun c => c <> 0) held -> (split_lines held).1 = [] ->
  Forall (Forall (fun c => c <> 0)) reads -> Forall (fun c => 10 ∈ c) reads ->
  grep pattern held reads = select pattern (split_lines (held ++ concat reads)).1.
Proof.
  intros Hh Hl Hr. revert held Hh Hl. induction Hr as [|c reads Hc _ IH]; intros held Hh Hl Hn.
  - cbn. by rewrite app_nil_r, Hl.
  - inversion Hn as [|? ? Hnc Hn']; subst. cbn [grep concat].
    assert (Forall (fun c => c <> 0) (held ++ c)) as Hhc by (by apply Forall_app).
    rewrite grep_lines_spec by (done || lia). destruct (split_rest _ Hhc) as (H1 & H2 & H3).
    rewrite bool_decide_eq_false_2.
    + rewrite IH by (done || apply split_rest_lines). rewrite app_assoc, (split_lines_app (held ++ c)). cbn [fst].
      unfold select. by rewrite flat_map_app.
    + intros E. specialize (H2 ltac:(apply elem_of_app; by right)). rewrite E in H2. lia.
Qed.

Lemma next_line_no_newline p : Forall (fun c => c <> 10) p -> next_line p = None.
Proof.
  induction 1 as [|c p Hc _ IH]; cbn [next_line]; [done|]. destruct (c =? 0); [done|].
  rewrite (proj2 (Z.eqb_neq _ _)) by done. by rewrite IH.
Qed.

(** A buffer without a newline is thrown away. *)
Lemma grep_loses pattern held chunk reads : Forall (fun c => c <> 10) (held ++ chunk) ->
  grep pattern held (chunk :: reads) = grep pattern [] reads.
Proof.
  intros Hn. cbn [grep].
  assert (grep_lines (length (held ++ chunk)) pattern (held ++ chunk) = ([], held ++ chunk)) as ->.
  { destruct (length (held ++ chunk)); cbn [grep_lines]; [done|]. by rewrite next_line_no_newline. }
  by rewrite bool_decide_eq_true_2.
Qed.

Lemma split_line line : Forall (fun c => c <> 10) line -> split_lines (line ++ [10]) = ([line], []).
Proof.
  induction 1 as [|c l Hc _ IH]; cbn [app split_lines]; [done|]. rewrite IH. by rewrite (proj2 (Z.eqb_neq _ _)).
Qed.

End Grep.

Module Wc.

Definition seps : list Z := [32; 13; 9; 10; 11].

(** [strchr] of a [char] in the separators; the NUL is not one of them. *)
Definition is_sep (x : Z) : bool := existsb (Z.eqb x) seps.

Record counts := mkc { l : Z; w : Z; c : Z; inword : bool }.

Definition wc_char (st : counts) (x : Z) : counts :=
  let c' := s32 (c st + 1) in
  let l' := if x =? 10 then s32 (l st + 1) else l st in
  if is_sep x then mkc l' (w st) c' false
  else if negb (inword st) then mkc l' (s32 (w st + 1)) c' true
  else mkc l' (w st) c' true.

(** [read_error] when the last [read] returned a negative number. *)
Definition wc (reads : list (list Z)) (read_error : bool) (name : list Z) : list Z :=
  let st := foldl (foldl wc_char) (mkc 0 0 0 false) reads in
  if read_error then uprintf (cs "wc: read error" ++ [10]) []
  else uprintf (cs "%d %d %d %s" ++ [10]) [AInt (l st); AInt (w st); AInt (c st); AStr (Some name)].

(** The words of a text: maximal runs of other bytes than separators. *)
Fixpoint words (prev : bool) (t : list Z) : Z :=
  match t with
  | [] => 0
  | x :: t' => (if negb (is_sep x) && negb prev then 1 else 0) + words (negb (is_sep x)) t'
  end.

Definition newlines (t : list Z) : Z := Z.of_nat (length (List.filter (Z.eqb 10) t)).

Lemma words_range t prev : 0 <= words prev t <= Z.of_nat (length t).
Proof.
  revert prev. induction t as [|x t IH]; intros prev; cbn [words length]; [lia|].
  specialize (IH (negb (is_sep x))). destruct (negb (is_sep x) && negb prev); lia.
Qed.

Lemma newlines_range t : 0 <= newlines t <= Z.of_nat (length t).
Proof. unfold newlines. pose proof (List.filter_length_le (Z.eqb 10) t). lia. Qed.

Lemma wc_fold t st : 0 <= l st <= c st -> 0 <= w st <= c st -> c st + Z.of_nat (length t) < 2 ^ 31 ->
  exists iw, foldl wc_char st t =
    mkc (l st + newlines t) (w st + words (inword st) t) (c st + Z.of_nat (length t)) iw.
Proof.
  revert st. induction t as [|x t IH]; intros st Hl Hw Hc; cbn [foldl length].
  - exists (inword st). destruct st. cbn. f_equal; unfold newlines; simpl; lia.
  - cbn [length] in Hc.
    assert (wc_char st x = mkc (l st + (if x =? 10 then 1 else 0))
      (w st + (if negb (is_sep x) && negb (inword st) then 1 else 0)) (c st + 1) (negb (is_sep x))) as ->.
    { unfold wc_char. rewrite (s32_id (c st + 1)), (s32_id (l st + 1)), (s32_id (w st + 1)) by lia.
      destruct (is_sep x), (inword st), (x =? 10); cbn [negb andb]; f_equal; lia. }
    destruct (IH (mkc (l st + (if x =? 10 then 1 else 0))
      (w st + (if negb (is_sep x) && negb (inword st) then 1 else 0)) (c st + 1) (negb (is_sep x)))) as [iw E];
      cbn [l w c inword]; [destruct (x =? 10); lia|destruct (negb (is_sep x) && negb (inword st)); lia|lia|].
    exists iw. rewrite E. cbn [l w c inword words]. unfold newlines. cbn [List.filter]. rewrite (Z.eqb_sym 10 x).
    destruct (x =? 10); cbn [length]; f_equal; lia.
Qed.

Lemma foldl_concat {A B} (f : A -> B -> A) a (ls : list (list B)) : foldl (foldl f) a ls = foldl f a (concat ls).
Proof. revert a. induction ls as [|x ls IH]; intros a; simpl; [done|]. by rewrite foldl_app, IH. Qed.

End Wc.

Module Cat.

(** The lines that [cat_json] emits, with the bytes collected in [linebuf]. *)
Fixpoint json_lines (linebuf t : list Z) : list (list Z) :=
  match t with
  | [] => if (0 <? Z.of_nat (length linebuf)) then [linebuf] else []
  | c :: t' =>
      if c =? 10 then linebuf :: json_lines [] t'
      else if Z.of_nat (length linebuf) <? 1024 - 1 then json_lines (linebuf ++ [c]) t'
      else linebuf :: json_lines [] t'
  end.

Definition emit_line (source line : option (list Z)) : list Z :=
  let '(w, o) := struct_begin 1 in
  let '(w, o1) := match source with
    | Some _ => struct_field_str w (Some (cs "source")) source | None => (w, []) end in
  let '(w, o2) := struct_field_str w (Some (cs "data")) (Some (default [] line)) in
  o ++ o1 ++ o2 ++ struct_end w.

Definition cat_json (source : list Z) (reads : list (list Z)) (read_error : bool) : list Z :=
  flat_map (fun line => emit_line (Some source) (Some line)) (json_lines [] (concat reads)) ++
  (if read_error then uprintf (cs "cat: read error" ++ [10]) [] else []).

(** [write_ok] says for each [write] whether it wrote everything. *)
Fixpoint cat_plain (reads : list (list Z * bool)) (read_error : bool) : list Z :=
  match reads with
  | [] => if read_error then uprintf (cs "cat: read error" ++ [10]) [] else []
  | (chunk, write_ok) :: reads' =>
      chunk ++ (if negb write_ok then uprintf (cs "cat: write error" ++ [10]) [] else cat_plain reads' read_error)
  end.

(** The lines of a text, the last one also when it is not terminated. *)
Definition lines (t : list Z) : list (list Z) :=
  let '(ls, r) := Grep.split_lines t in ls ++ (if (0 <? Z.of_nat (length r)) then [r] else []).

Definition short (l : list Z) : Prop := Z.of_nat (length l) < 1024.

Lemma split_prefix lb t : Forall (fun c => c <> 10) lb ->
  Grep.split_lines (lb ++ t) =
    match Grep.split_lines t with
    | (l :: ls, r) => ((lb ++ l) :: ls, r)
    | ([], r) => ([], lb ++ r)
    end.
Proof.
  induction 1 as [|c lb Hc _ IH]; cbn [app Grep.split_lines].
  - by destruct (Grep.split_lines t) as [[|]].
  - rewrite IH. destruct (Z.eqb_spec c 10); [done|]. by destruct (Grep.split_lines t) as [[|]].
Qed.

Lemma json_lines_spec t linebuf :
  Forall (fun c => c <> 10) linebuf -> Forall short (lines (linebuf ++ t)) ->
  json_lines linebuf t = lines (linebuf ++ t).
Proof.
  revert linebuf. induction t as [|c t IH]; intros lb Hlb Hs; cbn [json_lines].
  - unfold lines. rewrite split_prefix by done. cbn. by rewrite app_nil_r.
  - destruct (Z.eqb_spec c 10) as [->|Hc].
    + assert (lines (lb ++ 10 :: t) = lb :: lines t) as E.
      { unfold lines. rewrite split_prefix by done. cbn [Grep.split_lines]. change (10 =? 10) with true.
        destruct (Grep.split_lines t) as [ls r]. by rewrite app_nil_r. }
      rewrite E in *. inversion Hs; subst. f_equal. by apply (IH []).
    + replace (lb ++ c :: t) with ((lb ++ [c]) ++ t) in * by (by rewrite <- app_assoc).
      assert (Forall (fun c => c <> 10) (lb ++ [c])) as Hlc by (apply Forall_app; split; [done|by constructor]).
      destruct (Z.ltb_spec (Z.of_nat (length lb)) (1024 - 1)) as [Hlt|Hge]; [by apply IH|]. exfalso.
      unfold lines in Hs. rewrite split_prefix in Hs by done. unfold short in Hs.
      destruct (Grep.split_lines t) as [[|l ls] r]; cbn [app] in Hs.
      * destruct (Z.ltb_spec 0 (Z.of_nat (length ((lb ++ [c]) ++ r)))) as [H0|H0];
          [|rewrite !length_app in H0; simpl in H0; lia].
        inversion Hs as [|? ? H _]; subst. rewrite !length_app in H. simpl in H. lia.
      * inversion Hs as [|? ? H _]; subst. rewrite !length_app in H. simpl in H. lia.
Qed.

End Cat.

(** ** Claims *)

(** C38. [grep]'s matcher decides the declarative meaning of its patterns (a
    character, '.', a starred one of them, '^' at the start, '$' at the end): it
    accepts a text exactly when the pattern matches at its start for '^', or at
    some position. *)
Theorem grep_match_correct re text : Grep.match_re re text = true <->
  match re with
  | c :: re1 => if c =? chr "^" then Grep.here (Grep.items re1) text
                else exists pre t, text = pre ++ t /\ Grep.here (Grep.items re) t
  | [] => exists pre t, text = pre ++ t /\ Grep.here (Grep.items re) t
  end.
Proof. apply Grep.match_re_spec. Qed.

(** C39. However a file without NULs is cut into reads, [grep] writes the matching complete
    lines in order, provided each read completes a line.  When a read ends without a newline in
    the buffer, all that the buffer holds is thrown away, and [grep] goes on as if it had not been
    read: of a line that two reads deliver in two parts, the second part is matched and
    written as if it were the line. *)
Theorem grep_lines_correct pattern :
  (forall reads, Forall (Forall (fun c => c <> 0)) reads -> Forall (fun c => 10 ∈ c) reads ->
     Grep.grep pattern [] reads = Grep.select pattern (Grep.split_lines (concat reads)).1) /\
  (forall held chunk reads, Forall (fun c => c <> 10) (held ++ chunk) ->
     Grep.grep pattern held (chunk :: reads) = Grep.grep pattern [] reads) /\
  (forall l1 l2, Forall (fun c => c <> 10) l1 -> Forall (fun c => c <> 0 /\ c <> 10) l2 ->
     Grep.grep pattern [] [l1; l2 ++ [10]] = if Grep.match_re pattern l2 then l2 ++ [10] else []).
Proof.
  assert (forall reads, Forall (Forall (fun c => c <> 0)) reads -> Forall (fun c => 10 ∈ c) reads ->
     Grep.grep pattern [] reads = Grep.select pattern (Grep.split_lines (concat reads)).1) as Hall.
  { intros reads H0 H10. rewrite (Grep.grep_spec pattern [] reads); [done|constructor|done|done|done]. }
  split_and!; [done|apply Grep.grep_loses|].
  intros l1 l2 H1 H2. rewrite Grep.grep_loses by done. rewrite Hall.
  - cbn [concat]. rewrite app_nil_r, Grep.split_line by (eapply Forall_impl; [done|by intros c [_ ?]]).
    cbn. by rewrite app_nil_r.
  - constructor; [|constructor]. apply Forall_app. split; [eapply Forall_impl; [done|by intros c [? _]]|by repeat constructor].
  - constructor; [|constructor]. apply elem_of_app. right. constructor.
Qed.

(** Two lines in two reads; and a line in two reads, of which a match of its end alone is left. *)
Lemma grep_lines_correct_witness :
  Grep.grep (cs "hello") [] [cs "hello" ++ [10; 97]; cs "b" ++ [10]] = cs "hello" ++ [10] /\
  Grep.grep (cs "hello") [] [cs "hel"; cs "lo" ++ [10]] = [] /\
  Grep.grep (cs "^lo") [] [cs "hel"; cs "lo" ++ [10]] = cs "lo" ++ [10].
Proof.
  split; [|split].
  - destruct (grep_lines_correct (cs "hello")) as [H _]. rewrite H.
    + vm_compute. reflexivity.
    + apply (bool_decide_unpack _). vm_compute. exact I.
    + apply (bool_decide_unpack _). vm_compute. exact I.
  - destruct (grep_lines_correct (cs "hello")) as (_ & _ & H). rewrite H.
    + vm_compute. reflexivity.
    + apply (bool_decide_unpack _). vm_compute. exact I.
    + apply (bool_decide_unpack _). vm_compute. exact I.
  - destruct (grep_lines_correct (cs "^lo")) as (_ & _ & H). rewrite H.
    + vm_compute. reflexivity.
    + apply (bool_decide_unpack _). vm_compute. exact I.
    + apply (bool_decide_unpack _). vm_compute. exact I.
Defined.

(** [wc] prints the number of newlines, words and bytes of the file, however
    it is cut into reads, for files below 2 GiB. *)
Theorem wc_correct reads name : Z.of_nat (length (concat reads)) < 2 ^ 31 ->
  Wc.wc reads false name =
    uprintf (cs "%d %d %d %s" ++ [10])
      [AInt (Wc.newlines (concat reads)); AInt (Wc.words false (concat reads));
       AInt (Z.of_nat (length (concat reads))); AStr (Some name)].
Proof.
  intros H. unfold Wc.wc. rewrite Wc.foldl_concat.
  destruct (Wc.wc_fold (concat reads) (Wc.mkc 0 0 0 false)) as [iw ->]; [simpl; lia|simpl; lia|simpl; lia|]. done.
Qed.

Lemma wc_correct_witness :
  Wc.wc [[97; 32]; [98; 10; 99]] false (cs "f") =
    uprintf (cs "%d %d %d %s" ++ [10]) [AInt 1; AInt 3; AInt 5; AStr (Some (cs "f"))].
Proof. apply (wc_correct [[97; 32]; [98; 10; 99]] (cs "f")). simpl. lia. Defined.

(** [cat -J] emits one object per line when every line is shorter than its
    1024-byte buffer; a longer line is cut, and the byte at which it is cut is
    lost. *)
Theorem cat_json_correct :
  (forall t, Forall Cat.short (Cat.lines t) -> Cat.json_lines [] t = Cat.lines t) /\
  (forall t1 x t2, length t1 = 1023%nat -> Forall (fun c => c <> 10) t1 -> x <> 10 ->
     Cat.json_lines [] (t1 ++ x :: t2) = t1 :: Cat.json_lines [] t2).
Proof.
  split.
  - intros t H. by apply (Cat.json_lines_spec t []).
  - intros t1 x t2 Hl Hn Hx.
    assert (forall t lb, Forall (fun c => c <> 10) t -> (length lb + length t = 1023)%nat ->
      Cat.json_lines lb (t ++ x :: t2) = (lb ++ t) :: Cat.json_lines [] t2) as H.
    { clear -Hx. induction t as [|c t IH]; intros lb Hn Hl; cbn [app Cat.json_lines]; simpl in Hl.
      - destruct (Z.eqb_spec x 10); [done|]. destruct (Z.ltb_spec (Z.of_nat (length lb)) (1024 - 1)); [lia|].
        by rewrite app_nil_r.
      - inversion Hn; subst. destruct (Z.eqb_spec c 10); [done|].
        destruct (Z.ltb_spec (Z.of_nat (length lb)) (1024 - 1)); [|lia].
        rewrite IH by (done || rewrite length_app; simpl; lia). by rewrite <- app_assoc. }
    by apply (H t1 []).
Qed.
