(* ===== verification/Ted.v ===== *)
(** * The line editor (user/bin/ted.c)

    The editor's buffer is the list of its used lines, ordered by number; its
    other state is the static variables.  Strings are byte strings without the
    final NUL.  The files are a map from names to contents, with the kernel's
    [open] and [write]: [open] creates a missing file, does not truncate an
    existing one, and fails on the names that [can_write] excludes. *)

From stdpp Require Import sorting.
From S2P Require Import Prelude CString ULib Printf Structio.
Import Structio.Structio.

Module Ted.

Definition MAX_LINES : Z := 512.
Definition MAX_COLS : Z := 160.
Definition MAX_FILE : Z := 128.

(** [struct line]. *)
Record line := mkline { number : Z; text : list Z }.
#[global] Instance line_eq_dec : EqDecision line.
Proof. solve_decision. Defined.

Record ted := mkted {
  buffer : list line;        (** [buffer[0..line_count-1]] *)
  dirty : bool;
  current_file : list Z;
  json_mode : bool;
  files : gmap (list Z) (list Z);
  out : list Z               (** what has been written to descriptor 1 *)
}.

Definition set_buffer v s := mkted v (dirty s) (current_file s) (json_mode s) (files s) (out s).
Definition set_dirty v s := mkted (buffer s) v (current_file s) (json_mode s) (files s) (out s).
Definition set_current v s := mkted (buffer s) (dirty s) v (json_mode s) (files s) (out s).
Definition set_json v s := mkted (buffer s) (dirty s) (current_file s) v (files s) (out s).
Definition set_files v s := mkted (buffer s) (dirty s) (current_file s) (json_mode s) v (out s).
Definition put_out o s := mkted (buffer s) (dirty s) (current_file s) (json_mode s) (files s) (out s ++ o).

Definition line_count (s : ted) : Z := Z.of_nat (length (buffer s)).

(** ** Strings *)

Definition is_ws (c : Z) : bool := (c =? 32) || (c =? 9).

Fixpoint skipws (s : list Z) : list Z :=
  match s with
  | c :: s' => if is_ws c then skipws s' else s
  | [] => []
  end.

Definition is_trim (c : Z) : bool := (c =? 10) || (c =? 13) || (c =? 32) || (c =? 9).

(** [trim] cuts from the end. *)
Fixpoint trim_rev (r : list Z) : list Z :=
  match r with
  | c :: r' => if is_trim c then trim_rev r' else r
  | [] => []
  end.

Definition trim (s : list Z) : list Z := rev (trim_rev (rev s)).

Definition digit (c : Z) : bool := (48 <=? c) && (c <=? 57).

Definition begin_with_digit (s : list Z) : bool :=
  match s with c :: _ => digit c | [] => false end.

(** The number, the rest of the string, and [*ok]. *)
Fixpoint parse_int_loop (s : list Z) (n : Z) (any : bool) : Z * list Z * bool :=
  match s with
  | c :: s' => if digit c then parse_int_loop s' (s32 (s32 (s32 (n * 10) + c) - 48)) true else (n, s, any)
  | [] => (n, [], any)
  end.

Definition parse_int_token (s : list Z) : Z * list Z * bool := parse_int_loop s 0 false.

(** [to_upper] into a buffer of [max] bytes. *)
Fixpoint to_upper (k : nat) (src : list Z) : list Z :=
  match k, src with
  | S k', c :: src' =>
      if is_ws c then [] else (if (97 <=? c) && (c <=? 122) then c - 32 else c) :: to_upper k' src'
  | _, _ => []
  end.

Definition command_is (cmd word : list Z) : bool := bool_decide (cmd = word).

Definition editor_copy (src : list Z) (max : Z) : list Z := take (Z.to_nat (max - 1)) src.

(** ** Output *)

Definition emit (o : list Z) : M ted unit := modify (put_out o).

Definition editor_prompt : M ted unit :=
  s ← get;
  if json_mode s then
    let '(w, o) := struct_begin 1 in
    let '(w, o1) := struct_field_str w (Some (cs "prompt")) (Some (cs "hello-edit")) in
    let '(w, o2) := struct_field_str w (Some (cs "file")) (Some (current_file s)) in
    let '(w, o3) := struct_field_int w (Some (cs "lines")) (line_count s) in
    let '(w, o4) := struct_field_int w (Some (cs "dirty")) (if dirty s then 1 else 0) in
    emit (o ++ o1 ++ o2 ++ o3 ++ o4 ++ struct_end w)
  else
    emit (uprintf (cs "edit(%s%s) > ")
      [AStr (Some (if bool_decide (current_file s = []) then cs "(new)" else current_file s));
       AStr (Some (if dirty s then cs "*" else []))]).

Definition emit_status (event detail : list Z) : M ted unit :=
  s ← get;
  emit (modern_emit_status (cs "hello-edit") (Some event) (Some detail) (json_mode s)
    (Some (if dirty s then cs "dirty" else cs "clean"))).

Definition emit_error (msg : list Z) : M ted unit :=
  s ← get;
  emit (if json_mode s
        then modern_emit_status (cs "hello-edit") (Some (cs "error")) (Some msg) true (Some (cs "error"))
        else uprintf (cs "hello-edit: %s" ++ [10]) [AStr (Some msg)]).

Definition help_lines : list string :=
  ["hello-edit BASIC-style usage:";
   "  <num> text   set a line (empty text deletes)";
   "  LIST [a [b]] list program lines";
   "  DELETE n     delete line n";
   "  NEW          clear buffer";
   "  OPEN file    load file (line numbers optional)";
   "  WRITE [file] save program";
   "  HELP         this text";
   "  Q or Q!      quit (Q! ignores unsaved edits)"].

Definition print_help : M ted unit :=
  emit (flat_map (fun l => uprintf (cs l ++ [10]) []) help_lines).

(** ** The buffer *)

Fixpoint find_insert_index (num : Z) (b : list line) : nat :=
  match b with
  | l :: b' => if number l <? num then S (find_insert_index num b') else O
  | [] => O
  end.

Definition upsert_line (num : Z) (txt : list Z) (mark_dirty : bool) : M ted unit :=
  s ← get;
  if line_count s >=? MAX_LINES then emit_error (cs "buffer full") else
  let b := buffer s in
  let idx := find_insert_index num b in
  let new := mkline num (editor_copy txt MAX_COLS) in
  (match b !! idx with
   | Some l =>
       if number l =? num then modify (set_buffer (<[idx := new]> b))
       else modify (set_buffer (take idx b ++ new :: drop idx b))
   | None => modify (set_buffer (take idx b ++ new :: drop idx b))
   end) ;;
  when mark_dirty (modify (set_dirty true)).

Definition delete_line_number (num : Z) (mark_dirty : bool) : M ted unit :=
  s ← get;
  let b := buffer s in
  let idx := find_insert_index num b in
  match b !! idx with
  | Some l =>
      if negb (number l =? num) then mret tt else
      modify (set_buffer (take idx b ++ drop (S idx) b)) ;;
      when mark_dirty (modify (set_dirty true))
  | None => mret tt
  end.

Definition list_lines (start stop : Z) : M ted unit :=
  s ← get;
  if line_count s =? 0 then emit (uprintf (cs "(empty)" ++ [10]) []) else
  emit (flat_map (fun l =>
    if (start >=? 0) && (number l <? start) then []
    else if (stop >=? 0) && (number l >? stop) then []
    else uprintf (cs "%d %s" ++ [10]) [AInt (number l); AStr (Some (text l))]) (buffer s)).

Definition clear_buffer : M ted unit := modify (fun s => set_dirty false (set_buffer [] s)).

Definition set_filename (name : list Z) : M ted unit := modify (set_current (editor_copy name MAX_FILE)).

(** ** Files *)

(** [while(n > 0 && t < sizeof(tmp)) { tmp[t++] = '0' + n % 10; n /= 10; }] *)
Fixpoint num_digits (k : nat) (n : Z) : list Z :=
  match k with
  | O => []
  | S k' => if n >? 0 then 48 + n mod 10 :: num_digits k' (n / 10) else []
  end.

(** The bytes that [save_file] writes for a line. *)
Definition save_line (l : line) : list Z :=
  let tmp := (if number l =? 0 then [48] else []) ++ num_digits 16 (number l) in
  rev tmp ++ [32] ++ text l ++ [10].

(** The bytes written from the start of a file that is not truncated. *)
Definition overwrite (old new : list Z) : list Z := new ++ drop (length new) old.

Section Files.
Context (can_write : list Z -> bool).

Definition save_file (name : list Z) : M ted unit :=
  s ← get;
  if negb (can_write name) then emit_error (cs "cannot write file") else
  modify (set_files (<[name := overwrite (default [] (files s !! name)) (flat_map save_line (buffer s))]> (files s))) ;;
  modify (set_dirty false) ;;
  set_filename name ;;
  emit_status (cs "write") name.

(** The string in a buffer: up to the first NUL. *)
Fixpoint cut (l : list Z) : list Z :=
  match l with
  | c :: l' => if c =? 0 then [] else c :: cut l'
  | [] => []
  end.

(** One line of the file in [linebuf]; the result is the new [last]. *)
Definition load_line (linebuf : list Z) (last : Z) : M ted Z :=
  let line := cut linebuf in
  let '(num, tmp, ok) := parse_int_token line in
  if (ok : bool) then
    upsert_line num (skipws tmp) false ;;
    mret (if num >? last then num else last)
  else
    let last := s32 (last + 10) in
    upsert_line last line false ;;
    mret last.

Fixpoint load_loop (contents linebuf : list Z) (last : Z) : M ted unit :=
  match contents with
  | [] =>
      when (0 <? Z.of_nat (length linebuf)) (
        let line := cut linebuf in
        let '(num, tmp, ok) := parse_int_token line in
        if (ok : bool) then upsert_line num (skipws tmp) false
        else upsert_line (s32 (last + 10)) line false)
  | ch :: contents' =>
      if ch =? 13 then load_loop contents' linebuf last
      else if ch =? 10 then last ← load_line linebuf last; load_loop contents' [] last
      else load_loop contents'
             (if Z.of_nat (length linebuf) <? MAX_COLS - 1 then linebuf ++ [ch] else linebuf) last
  end.

Definition load_file (name : list Z) : M ted unit :=
  s ← get;
  clear_buffer ;;
  match files s !! name with
  | None =>
      emit (uprintf (cs "hello-edit: new file %s" ++ [10]) [AStr (Some name)]) ;;
      set_filename name ;;
      emit_status (cs "open") name
  | Some contents =>
      load_loop contents [] 0 ;;
      modify (set_dirty false) ;;
      set_filename name ;;
      emit_status (cs "open") name
  end.

(** ** Commands *)

Definition handle_line_input (s : list Z) : M ted unit :=
  let '(num, rest, ok) := parse_int_token s in
  if negb ok || (num <=? 0) then emit_error (cs "invalid line number") else
  match skipws rest with
  | [] => delete_line_number num true
  | txt => upsert_line num txt true
  end.

(** The string after the first word. *)
Fixpoint after_word (s : list Z) : list Z :=
  match s with
  | c :: s' => if is_ws c then s else after_word s'
  | [] => []
  end.

Definition handle_command (s : list Z) : M ted unit :=
  let cmd := to_upper 15 s in
  let args := skipws (after_word s) in
  if command_is cmd (cs "HELP") || command_is cmd (cs "H") then print_help
  else if command_is cmd (cs "LIST") || command_is cmd (cs "L") then
    match args with
    | [] => list_lines (-1) (-1)
    | _ =>
        let '(start, args, ok) := parse_int_token args in
        if negb ok then emit_error (cs "invalid start line") else
        match skipws args with
        | [] => list_lines start start
        | args =>
            let '(stop, _, ok) := parse_int_token args in
            if negb ok then emit_error (cs "invalid end line") else list_lines start stop
        end
    end
  else if command_is cmd (cs "DELETE") || command_is cmd (cs "D") then
    let '(num, _, ok) := parse_int_token args in
    if negb ok then emit_error (cs "usage: DELETE <line>") else delete_line_number num true
  else if command_is cmd (cs "NEW") then clear_buffer ;; emit_status (cs "new") (cs "buffer")
  else if command_is cmd (cs "OPEN") || command_is cmd (cs "O") then
    match args with
    | [] => emit_error (cs "usage: OPEN <file>")
    | _ => load_file args
    end
  else if command_is cmd (cs "WRITE") || command_is cmd (cs "W") || command_is cmd (cs "SAVE") then
    s ← get;
    match (match args with [] => current_file s | _ => args end) with
    | [] => emit_error (cs "no filename")
    | name => save_file name
    end
  else emit_error (cs "unknown command (type HELP)").

(** One turn of the loop of [main] on the string that [gets] read; the result
    says whether the editor quits. *)
Definition main_turn (buf : list Z) : M ted bool :=
  editor_prompt ;;
  let line := skipws (trim buf) in
  match line with
  | [] => mret false
  | _ =>
      if begin_with_digit line then handle_line_input line ;; mret false
      else if bool_decide (line = cs "q!") then emit_status (cs "quit") (cs "forced") ;; mret true
      else if bool_decide (line = cs "q") || bool_decide (line = cs "Q") then
        s ← get;
        if dirty s then emit_error (cs "buffer modified (use Q!)") ;; mret false
        else emit_status (cs "quit") (cs "clean") ;; mret true
      else handle_command line ;; mret false
  end.

Fixpoint main_loop (inputs : list (list Z)) : M ted bool :=
  match inputs with
  | [] => mret false
  | buf :: inputs' => q ← main_turn buf; if (q : bool) then mret true else main_loop inputs'
  end.

(** [main] up to the end of its input; [true] when it has quit. *)
Definition main (argv inputs : list (list Z)) : M ted bool :=
  match modern_consume_flags (cs "hello-edit") argv true with
  | inl o => emit o ;; mret true
  | inr (argi, json) =>
      modify (set_json json) ;;
      when (argi <? Z.of_nat (length argv)) (set_filename (aget [] argv argi)) ;;
      s ← get;
      when (negb (bool_decide (current_file s = []))) (load_file (current_file s)) ;;
      main_loop inputs
  end.

End Files.

(** ** The buffer as a finite map *)

Definition sorted (b : list line) : Prop := StronglySorted (fun l l' => number l < number l') b.

Record ted_ok (s : ted) : Prop := {
  t_sorted : sorted (buffer s);
  t_count : line_count s <= MAX_LINES;
  t_cols : Forall (fun l => Z.of_nat (length (text l)) < MAX_COLS) (buffer s)
}.

Definition to_map (b : list line) : gmap Z (list Z) := list_to_map (map (fun l => (number l, text l)) b).

Lemma sorted_app a b : sorted (a ++ b) <->
  sorted a /\ sorted b /\ forall x y, x ∈ a -> y ∈ b -> number x < number y.
Proof.
  unfold sorted. induction a as [|x a IH]; cbn [app].
  - split; [|by intros (_ & ? & _)]. intros H. split_and!; [constructor|done|]. intros ? ? Hx. by apply elem_of_nil in Hx.
  - split.
    + intros H. apply StronglySorted_inv in H as [H Hx]. apply IH in H as (H1 & H2 & H3).
      apply Forall_app in Hx as [Hxa Hxb]. split_and!; [by constructor|done|].
      intros y z Hy Hz. apply elem_of_cons in Hy as [->|Hy]; [|by apply H3].
      by apply (proj1 (Forall_forall _ _) Hxb).
    + intros (H1 & H2 & H3). apply StronglySorted_inv in H1 as [H1 Hx]. constructor.
      * apply IH. split_and!; [done|done|]. intros. apply H3; [by apply list_elem_of_further|done].
      * apply Forall_app. split; [done|]. apply Forall_forall. intros z Hz. apply H3; [constructor|done].
Qed.

Lemma sorted_nodup b : sorted b -> NoDup (map number b).
Proof.
  induction 1 as [|x b Hs IH Hx]; cbn; [constructor|]. constructor; [|done].
  intros Hin. apply list_elem_of_fmap in Hin as (y & E & Hy). apply (proj1 (Forall_forall _ _) Hx) in Hy. lia.
Qed.

Lemma to_map_elem b k t : sorted b -> to_map b !! k = Some t <-> mkline k t ∈ b.
Proof.
  intros Hs. unfold to_map. rewrite <- elem_of_list_to_map.
  - rewrite list_elem_of_fmap. split.
    + intros ([n x] & [= -> ->] & H). done.
    + intros H. by exists (mkline k t).
  - rewrite <- list_fmap_compose. by apply sorted_nodup.
Qed.

(** Splitting the buffer at a number. *)
Lemma find_index_split num b : sorted b -> exists lo hi, b = lo ++ hi /\ find_insert_index num b = length lo /\
  Forall (fun l => number l < num) lo /\ Forall (fun l => num <= number l) hi.
Proof.
  induction 1 as [|x b Hs IH Hx]; cbn [find_insert_index].
  - exists [], []. split_and!; [done|done|constructor|constructor].
  - destruct (Z.ltb_spec (number x) num) as [Hlt|Hge].
    + destruct IH as (lo & hi & -> & -> & H1 & H2). exists (x :: lo), hi. split_and!; [done|done|by constructor|done].
    + exists [], (x :: b). split_and!; [done|done|constructor|]. constructor; [done|].
      eapply Forall_impl; [exact Hx|]. intros y Hy. simpl in Hy. lia.
Qed.

(** The rest of the buffer after the line [num], if it starts with it. *)
Definition without (num : Z) (hi : list line) : list line :=
  match hi with
  | l :: hi' => if number l =? num then hi' else hi
  | [] => []
  end.

Lemma without_elem num hi l : sorted hi -> Forall (fun l => num <= number l) hi ->
  l ∈ without num hi <-> l ∈ hi /\ number l <> num.
Proof.
  intros Hs Hge. destruct hi as [|x hi]; cbn [without].
  - split; [intros H; by apply elem_of_nil in H|by intros [? _]].
  - apply StronglySorted_inv in Hs as [_ Hx]. rewrite Forall_forall in Hx.
    destruct (Z.eqb_spec (number x) num) as [E|E]; rewrite elem_of_cons.
    + split.
      * intros H. specialize (Hx l H). split; [by right|lia].
      * intros [[->|H] Hn]; [done|done].
    + split; [|by intros [? _]]. intros H. split; [done|]. inversion Hge; subst.
      destruct H as [->|H]; [done|]. specialize (Hx l H). lia.
Qed.

Lemma without_sorted num hi : sorted hi -> sorted (without num hi).
Proof.
  intros Hs. destruct hi as [|x hi]; [done|]. cbn [without]. destruct (number x =? num); [|done].
  by apply StronglySorted_inv in Hs as [? _].
Qed.

(** The new buffer of [upsert_line]. *)
Lemma upsert_line_eq num txt md s lo hi : buffer s = lo ++ hi -> find_insert_index num (buffer s) = length lo ->
  line_count s < MAX_LINES ->
  upsert_line num txt md s =
    Ok tt (set_dirty (md || dirty s) (set_buffer (lo ++ mkline num (editor_copy txt MAX_COLS) :: without num hi) s)).
Proof.
  intros Hb Hi Hc. unfold upsert_line. rewrite (bind_ok _ _ _ s s) by done. rewrite Z.geb_leb.
  destruct (Z.leb_spec MAX_LINES (line_count s)); [lia|]. rewrite Hi, Hb.
  rewrite lookup_app_r, Nat.sub_diag by lia.
  assert (take (length lo) (lo ++ hi) = lo /\ drop (length lo) (lo ++ hi) = hi) as [-> ->].
  { rewrite take_app_length, drop_app_length. done. }
  assert (forall s1, when md (modify (set_dirty true)) s1 = Ok tt (set_dirty (md || dirty s1) s1)) as Hmd.
  { intros s1. destruct md; [done|]. by destruct s1. }
  set (new := mkline num (editor_copy txt MAX_COLS)).
  rewrite (bind_ok _ _ _ tt (set_buffer (lo ++ new :: without num hi) s)); [by rewrite Hmd|].
  destruct hi as [|l hi]; cbn [lookup list_lookup without]; [done|]. destruct (number l =? num); [|done].
  unfold modify. do 3 f_equal. rewrite insert_app_r_alt, Nat.sub_diag by lia. done.
Qed.

Lemma upserted_sorted num t lo hi : sorted (lo ++ hi) -> Forall (fun l => number l < num) lo ->
  Forall (fun l => num <= number l) hi -> sorted (lo ++ mkline num t :: without num hi).
Proof.
  intros Hs Hlo Hhi. apply sorted_app in Hs as (H1 & H2 & H3). rewrite Forall_forall in Hlo, Hhi.
  apply sorted_app. split; [done|]. split.
  - constructor; [by apply without_sorted|]. apply Forall_forall. intros y Hy.
    apply without_elem in Hy as [Hy Hn]; [|done|by apply Forall_forall]. specialize (Hhi y Hy). simpl. lia.
  - intros x y Hx Hy. apply elem_of_cons in Hy as [->|Hy]; [by apply Hlo|].
    apply without_elem in Hy as [Hy _]; [|done|by apply Forall_forall]. by apply H3.
Qed.

Lemma upserted_map num t lo hi : sorted (lo ++ hi) -> Forall (fun l => number l < num) lo ->
  Forall (fun l => num <= number l) hi ->
  to_map (lo ++ mkline num t :: without num hi) = <[num := t]> (to_map (lo ++ hi)).
Proof.
  intros Hs Hlo Hhi. pose proof (upserted_sorted num t lo hi Hs Hlo Hhi) as Hs'.
  apply map_eq. intros k. apply option_eq. intros x. rewrite to_map_elem by done.
  pose proof (proj1 (sorted_app _ _) Hs) as (_ & H2 & _). rewrite elem_of_app, elem_of_cons, without_elem by done.
  cbn [number]. destruct (decide (k = num)) as [->|Hne].
  - rewrite lookup_insert_eq. split; [|intros [= ->]; auto]. intros [H|[[= <-]|[_ H]]]; [|done|done].
    rewrite Forall_forall in Hlo. specialize (Hlo _ H). simpl in Hlo. lia.
  - rewrite lookup_insert_ne, to_map_elem, elem_of_app by done. naive_solver.
Qed.

Lemma delete_line_eq num md s lo hi : buffer s = lo ++ hi -> find_insert_index num (buffer s) = length lo ->
  delete_line_number num md s =
    Ok tt (set_dirty ((md && bool_decide (without num hi <> hi)) || dirty s)
             (set_buffer (lo ++ without num hi) s)).
Proof.
  intros Hb Hi. unfold delete_line_number. rewrite (bind_ok _ _ _ s s) by done. rewrite Hi, Hb.
  rewrite lookup_app_r, Nat.sub_diag by lia. destruct hi as [|l hi]; cbn [lookup list_lookup without].
  - rewrite bool_decide_eq_false_2 by (by intros []). rewrite andb_false_r. cbn [orb].
    destruct s. cbn in *. by subst.
  - destruct (number l =? num); cbn [negb].
    + rewrite take_app_length. assert (drop (S (length lo)) (lo ++ l :: hi) = hi) as ->.
      { replace (lo ++ l :: hi) with ((lo ++ [l]) ++ hi) by (by rewrite <- app_assoc).
        replace (S (length lo)) with (length (lo ++ [l])) by (rewrite length_app; simpl; lia). apply drop_app_length. }
      rewrite bool_decide_eq_true_2 by (intros E; apply (f_equal length) in E; simpl in E; lia).
      rewrite andb_true_r. destruct md; [done|]. by destruct s.
    + rewrite bool_decide_eq_false_2 by (by intros []). rewrite andb_false_r. cbn [orb].
      destruct s. cbn in *. by subst.
Qed.

Lemma deleted_sorted num lo hi : sorted (lo ++ hi) -> Forall (fun l => num <= number l) hi ->
  sorted (lo ++ without num hi).
Proof.
  intros Hs Hhi. apply sorted_app in Hs as (H1 & H2 & H3). apply sorted_app.
  split; [done|]. split; [by apply without_sorted|]. intros x y Hx Hy.
  apply without_elem in Hy as [Hy _]; [|done|done]. by apply H3.
Qed.

Lemma deleted_map num lo hi : sorted (lo ++ hi) -> Forall (fun l => number l < num) lo ->
  Forall (fun l => num <= number l) hi -> to_map (lo ++ without num hi) = delete num (to_map (lo ++ hi)).
Proof.
  intros Hs Hlo Hhi. pose proof (deleted_sorted num lo hi Hs Hhi) as Hs'.
  pose proof (proj1 (sorted_app _ _) Hs) as (_ & H2 & _).
  apply map_eq. intros k. apply option_eq. intros x. rewrite to_map_elem by done.
  rewrite elem_of_app, without_elem by done. cbn [number]. destruct (decide (k = num)) as [->|Hne].
  - rewrite lookup_delete_eq. split; [|done]. intros [H|[_ H]]; [|done].
    rewrite Forall_forall in Hlo. specialize (Hlo _ H). simpl in Hlo. lia.
  - rewrite lookup_delete_ne, to_map_elem, elem_of_app by done. naive_solver.
Qed.

(** ** Every command keeps the invariant *)

Definition keeps {A} (m : M ted A) : Prop := forall s, ted_ok s -> exists a s', m s = Ok a s' /\ ted_ok s'.

Lemma keeps_ret {A} (a : A) : keeps (mret a).
Proof. intros s Hs. by exists a, s. Qed.

Lemma keeps_bind {A B} (m : M ted A) (k : A -> M ted B) : keeps m -> (forall a, keeps (k a)) -> keeps (m ≫= k).
Proof.
  intros Hm Hk s Hs. destruct (Hm s Hs) as (a & s1 & E & H1). rewrite (bind_ok _ _ _ _ _ E). by apply Hk.
Qed.

Lemma keeps_get_bind {B} (k : ted -> M ted B) :
  (forall s, ted_ok s -> exists b s', k s s = Ok b s' /\ ted_ok s') -> keeps (get ≫= k).
Proof. intros Hk s Hs. rewrite (bind_ok _ _ _ s s) by done. by apply Hk. Qed.

Lemma keeps_modify f : (forall s, buffer (f s) = buffer s) -> keeps (modify f).
Proof.
  intros Hf s [H1 H2 H3]. exists tt, (f s). split; [done|]. split; unfold line_count in *; by rewrite Hf.
Qed.

Lemma keeps_emit o : keeps (emit o).
Proof. by apply keeps_modify. Qed.

Lemma keeps_at {A} (m : M ted A) s : keeps m -> ted_ok s -> exists a s', m s = Ok a s' /\ ted_ok s'.
Proof. intros H. apply H. Qed.

Lemma keeps_when b (m : M ted unit) : keeps m -> keeps (when b m).
Proof. intros H. destruct b; [done|apply keeps_ret]. Qed.

Lemma keeps_clear : keeps clear_buffer.
Proof.
  intros s _. exists tt. eexists. split; [reflexivity|]. split; [constructor|unfold line_count, MAX_LINES; simpl; lia|constructor].
Qed.

Create HintDb ted.

(** Follows the structure of a program down to the calls in the database. *)
Ltac keep :=
  repeat lazymatch goal with
  | |- keeps (get ≫= _) => apply keeps_get_bind; intros
  | |- keeps (_ ≫= _) => apply keeps_bind; [|intros]
  | |- keeps (mret _) => apply keeps_ret
  | |- keeps (emit _) => apply keeps_emit
  | |- keeps (when _ _) => apply keeps_when
  | |- keeps (modify _) => apply keeps_modify; intros; reflexivity
  | |- keeps (match ?x with _ => _ end) => destruct x
  | |- exists b s', ?m ?s = Ok b s' /\ _ => apply (keeps_at m s); [|assumption]
  | |- keeps _ => solve [eauto 1 with ted nocore]
  end.

#[local] Hint Resolve keeps_clear : ted.

Lemma keeps_error msg : keeps (emit_error msg).
Proof. unfold emit_error. keep. Qed.

Lemma keeps_status e d : keeps (emit_status e d).
Proof. unfold emit_status. keep. Qed.

Lemma keeps_prompt : keeps editor_prompt.
Proof. unfold editor_prompt. keep. Qed.

Lemma keeps_filename n : keeps (set_filename n).
Proof. unfold set_filename. by apply keeps_modify. Qed.

#[local] Hint Resolve keeps_error keeps_status keeps_prompt keeps_filename : ted.

Lemma length_copy t : Z.of_nat (length (editor_copy t MAX_COLS)) < MAX_COLS.
Proof. unfold editor_copy, MAX_COLS. rewrite length_take. lia. Qed.

Lemma length_without num hi : (length (without num hi) <= length hi)%nat.
Proof. destruct hi as [|l hi]; [done|]. cbn [without]. destruct (number l =? num); simpl; lia. Qed.

Lemma without_sub num hi (P : line -> Prop) : Forall P hi -> Forall P (without num hi).
Proof. intros H. destruct H; [constructor|]. cbn [without]. destruct (number x =? num); [done|by constructor]. Qed.

Lemma keeps_upsert num txt md : keeps (upsert_line num txt md).
Proof.
  intros s Hs. destruct (find_index_split num (buffer s) (t_sorted _ Hs)) as (lo & hi & Hb & Hi & Hlo & Hhi).
  destruct (decide (line_count s < MAX_LINES)) as [Hc|Hc].
  - rewrite (upsert_line_eq num txt md s lo hi Hb Hi Hc). exists tt. eexists. split; [reflexivity|].
    destruct Hs as [H1 H2 H3]. rewrite Hb in *. split; cbn [buffer set_dirty set_buffer].
    + by apply upserted_sorted.
    + unfold line_count in *. cbn [buffer set_dirty set_buffer]. rewrite Hb in Hc. rewrite length_app in *. simpl.
      pose proof (length_without num hi). unfold MAX_LINES in *. lia.
    + apply Forall_app in H3 as [H3 H4]. apply Forall_app. split; [done|]. constructor; [apply length_copy|].
      by apply without_sub.
  - unfold upsert_line. rewrite (bind_ok _ _ _ s s) by done. rewrite Z.geb_leb.
    destruct (Z.leb_spec MAX_LINES (line_count s)); [|lia]. by apply keeps_error.
Qed.

Lemma keeps_delete num md : keeps (delete_line_number num md).
Proof.
  intros s Hs. destruct (find_index_split num (buffer s) (t_sorted _ Hs)) as (lo & hi & Hb & Hi & Hlo & Hhi).
  rewrite (delete_line_eq num md s lo hi Hb Hi). exists tt. eexists. split; [reflexivity|].
  destruct Hs as [H1 H2 H3]. unfold line_count in H2. rewrite Hb in *. split; unfold line_count; cbn [buffer set_dirty set_buffer].
  - by apply deleted_sorted.
  - rewrite length_app in *. pose proof (length_without num hi). lia.
  - apply Forall_app in H3 as [H3 H4]. apply Forall_app. split; [done|by apply without_sub].
Qed.

#[local] Hint Resolve keeps_upsert keeps_delete : ted.

Lemma keeps_list a b : keeps (list_lines a b).
Proof. unfold list_lines. keep. Qed.

Lemma keeps_help : keeps print_help.
Proof. apply keeps_emit. Qed.

Lemma keeps_load_line lb last : keeps (load_line lb last).
Proof. unfold load_line. keep. Qed.

#[local] Hint Resolve keeps_list keeps_help keeps_load_line : ted.

Lemma keeps_load_loop contents lb last : keeps (load_loop contents lb last).
Proof.
  revert lb last. induction contents as [|ch contents IH]; intros lb last; cbn [load_loop].
  - apply keeps_when. keep.
  - destruct (ch =? 13); [apply IH|]. destruct (ch =? 10); [|apply IH]. apply keeps_bind; [apply keeps_load_line|].
    intros. apply IH.
Qed.

Lemma keeps_load name : keeps (load_file name).
Proof.
  unfold load_file. apply keeps_get_bind. intros s Hs. apply keeps_at; [|done].
  apply keeps_bind; [apply keeps_clear|]. intros _. destruct (files s !! name); keep. apply keeps_load_loop.
Qed.

Lemma keeps_save cw name : keeps (save_file cw name).
Proof. unfold save_file. keep. Qed.

#[local] Hint Resolve keeps_load keeps_save : ted.

Lemma keeps_line_input l : keeps (handle_line_input l).
Proof. unfold handle_line_input. keep. Qed.

Lemma keeps_command cw l : keeps (handle_command cw l).
Proof. unfold handle_command. keep. Qed.

#[local] Hint Resolve keeps_line_input keeps_command : ted.

Lemma keeps_turn cw l : keeps (main_turn cw l).
Proof. unfold main_turn. keep. Qed.

Lemma keeps_loop cw ls : keeps (main_loop cw ls).
Proof.
  induction ls as [|l ls IH]; cbn [main_loop]; [apply keeps_ret|].
  apply keeps_bind; [apply keeps_turn|]. intros []; [apply keeps_ret|done].
Qed.

#[local] Hint Resolve keeps_loop : ted.

Lemma keeps_main cw argv ls : keeps (main cw argv ls).
Proof. unfold main. keep. Qed.

(** ** Saving and loading *)

Definition line_ok (l : line) : Prop :=
  0 < number l < 2 ^ 31 /\ Forall (fun c => c <> 0 /\ c <> 10 /\ c <> 13) (text l) /\
  (match text l with c :: _ => is_ws c = false | [] => True end) /\
  (length (num_digits 16 (number l)) + 1 + length (text l) < 160)%nat.

Lemma s32_add_l a b : s32 (s32 a + b) = s32 (a + b).
Proof.
  unfold s32. f_equal. replace ((a + 2 ^ 31) mod 2 ^ 32 - 2 ^ 31 + b + 2 ^ 31) with ((a + 2 ^ 31) mod 2 ^ 32 + b) by lia.
  rewrite Zplus_mod_idemp_l. f_equal. lia.
Qed.

Lemma num_digits_spec k n : 0 <= n < 10 ^ Z.of_nat k -> exists ds, rev (num_digits k n) = map (fun d => 48 + d) ds /\
  Forall (fun d => 0 <= d < 10) ds /\ foldl (fun n d => n * 10 + d) 0 ds = n.
Proof.
  revert n. induction k as [|k IH]; intros n Hn; cbn [num_digits].
  - simpl in Hn. exists []. split_and!; [done|constructor|simpl; lia].
  - destruct (Z.gtb_spec n 0) as [Hp|Hz]; [|exists []; split_and!; [done|constructor|simpl; lia]].
    destruct (IH (n / 10)) as (ds & E & Hds & Hv).
    { rewrite Nat2Z.inj_succ, Z.pow_succ_r in Hn by lia. split; [apply Z.div_pos; lia|].
      apply Z.div_lt_upper_bound; lia. }
    exists (ds ++ [n mod 10]). cbn [rev]. rewrite E, map_app, foldl_app. cbn [foldl map]. rewrite Hv.
    split_and!; [done| |pose proof (Z.div_mod n 10); lia].
    apply Forall_app. split; [done|]. constructor; [apply Z.mod_pos_bound; lia|constructor].
Qed.

Lemma foldl_digits_ge ds n : Forall (fun d => 0 <= d < 10) ds -> 0 <= n -> n <= foldl (fun n d => n * 10 + d) n ds.
Proof.
  intros Hds. revert n. induction Hds as [|d ds Hd _ IH]; intros n Hn; cbn [foldl]; [lia|].
  specialize (IH (n * 10 + d) ltac:(lia)). lia.
Qed.

Lemma parse_digits ds n any t : Forall (fun d => 0 <= d < 10) ds -> 0 <= n ->
  foldl (fun n d => n * 10 + d) n ds < 2 ^ 31 ->
  parse_int_loop (map (fun d => 48 + d) ds ++ 32 :: t) n any =
    (foldl (fun n d => n * 10 + d) n ds, 32 :: t, if decide (ds = []) then any else true).
Proof.
  intros Hds. revert n any. induction Hds as [|d ds Hd Hds IH]; intros n any Hn Hlt; cbn [map app parse_int_loop foldl].
  - done.
  - assert (digit (48 + d) = true) as ->.
    { unfold digit. destruct (Z.leb_spec 48 (48 + d)); [|lia]. destruct (Z.leb_spec (48 + d) 57); [done|lia]. }
    cbn [foldl] in Hlt. pose proof (foldl_digits_ge ds (n * 10 + d) Hds ltac:(lia)).
    assert (s32 (s32 (s32 (n * 10) + (48 + d)) - 48) = n * 10 + d) as ->.
    { change (s32 (s32 (n * 10) + (48 + d)) - 48) with (s32 (s32 (n * 10) + (48 + d)) + - 48).
      rewrite s32_add_l. rewrite <- Z.add_assoc, s32_add_l. rewrite s32_id by lia. lia. }
    rewrite IH by lia. by destruct (decide (ds = [])).
Qed.

Lemma cut_id l : Forall (fun c => c <> 0) l -> cut l = l.
Proof. induction 1 as [|c l Hc _ IH]; cbn [cut]; [done|]. destruct (Z.eqb_spec c 0); [done|]. by rewrite IH. Qed.

Lemma load_collect w rest lb last s : Forall (fun c => c <> 10 /\ c <> 13) w -> (length lb + length w < 160)%nat ->
  load_loop (w ++ rest) lb last s = load_loop rest (lb ++ w) last s.
Proof.
  intros Hw. revert lb. induction Hw as [|c w [H1 H2] _ IH]; intros lb Hl; cbn [app load_loop]; simpl in Hl.
  - by rewrite app_nil_r.
  - destruct (Z.eqb_spec c 13); [done|]. destruct (Z.eqb_spec c 10); [done|].
    destruct (Z.ltb_spec (Z.of_nat (length lb)) (MAX_COLS - 1)); [|unfold MAX_COLS in *; lia].
    rewrite IH by (rewrite length_app; simpl; lia). by rewrite <- app_assoc.
Qed.

(** The text of a line before the newline. *)
Definition line_text (l : line) : list Z := rev (num_digits 16 (number l)) ++ 32 :: text l.

Lemma save_line_text l : 0 < number l -> save_line l = line_text l ++ [10].
Proof.
  intros H. unfold save_line, line_text. destruct (Z.eqb_spec (number l) 0); [lia|]. cbn [app].
  by rewrite <- app_assoc.
Qed.

Lemma load_line_text l last s : line_ok l -> Forall (fun x => number x < number l) (buffer s) ->
  line_count s < MAX_LINES -> exists last' s', load_line (line_text l) last s = Ok last' s' /\
    s' = set_dirty (dirty s) (set_buffer (buffer s ++ [l]) s).
Proof.
  intros (Hn & Ht & Hws & Hlen) Hlo Hc.
  destruct (num_digits_spec 16 (number l) ltac:(simpl; lia)) as (ds & Eds & Hds & Hv).
  assert (ds <> []) as Hne. { intros ->. simpl in Hv. lia. }
  unfold load_line.
  assert (cut (line_text l) = line_text l) as ->.
  { apply cut_id. unfold line_text. rewrite Eds. apply Forall_app. split.
    - apply Forall_fmap. eapply Forall_impl; [exact Hds|]. intros d Hd. unfold compose. cbv beta in Hd. lia.
    - constructor; [done|]. eapply Forall_impl; [exact Ht|]. naive_solver. }
  unfold line_text. rewrite Eds. unfold parse_int_token. rewrite parse_digits by (done || lia).
  rewrite Hv, decide_False by done. cbn iota beta.
  assert (skipws (32 :: text l) = text l) as ->.
  { cbn [skipws]. change (is_ws 32) with true. destruct (text l) as [|c t]; [done|]. cbn [skipws]. by rewrite Hws. }
  rewrite (bind_ok _ _ _ _ _ (upsert_line_eq (number l) (text l) false s (buffer s) [] ltac:(by rewrite app_nil_r)
    ltac:(clear -Hlo; induction Hlo as [|x b Hx _ IH]; cbn; [done|]; destruct (Z.ltb_spec (number x) (number l)); [by rewrite IH|lia]) Hc)).
  do 2 eexists. split; [reflexivity|]. cbn [orb without]. do 3 f_equal.
  assert (editor_copy (text l) MAX_COLS = text l) as ->.
  { unfold editor_copy, MAX_COLS. apply take_ge. lia. }
  by destruct l.
Qed.

Lemma load_saved b s last : Forall line_ok b -> sorted (buffer s ++ b) ->
  Z.of_nat (length (buffer s ++ b)) <= MAX_LINES ->
  load_loop (flat_map save_line b) [] last s = Ok tt (set_dirty (dirty s) (set_buffer (buffer s ++ b) s)).
Proof.
  intros Hb. revert s last. induction Hb as [|l b Hl Hb IH]; intros s last Hs Hc.
  - cbn. rewrite app_nil_r. by destruct s.
  - cbn [flat_map]. rewrite save_line_text by (destruct Hl as (? & _); lia). rewrite <- app_assoc.
    rewrite load_collect.
    + cbn [app load_loop]. change (10 =? 13) with false. change (10 =? 10) with true. cbn iota.
      apply sorted_app in Hs as (H1 & H2 & H3).
      destruct (load_line_text l last s Hl) as (last' & s1 & E & ->).
      { apply Forall_forall. intros x Hx. apply H3; [done|constructor]. }
      { unfold line_count. rewrite length_app in Hc. simpl in Hc. lia. }
      rewrite (bind_ok _ _ _ _ _ E). rewrite IH.
      * cbn [buffer set_dirty set_buffer dirty]. by rewrite <- app_assoc.
      * cbn [buffer set_dirty set_buffer]. rewrite <- app_assoc. apply sorted_app. done.
      * cbn [buffer set_dirty set_buffer]. rewrite <- app_assoc. done.
    + destruct Hl as (Hn & Ht & _ & _). unfold line_text.
      destruct (num_digits_spec 16 (number l) ltac:(simpl; lia)) as (ds & -> & Hds & _). apply Forall_app. split.
      * apply Forall_fmap. eapply Forall_impl; [exact Hds|]. intros d Hd. unfold compose. cbv beta in Hd. lia.
      * constructor; [done|]. eapply Forall_impl; [exact Ht|]. naive_solver.
    + destruct Hl as (_ & _ & _ & Hlen). unfold line_text. rewrite length_app, length_rev. cbn [length]. lia.
Qed.

End Ted.
Import Ted.

(** ** Claims *)

(** C23. Whatever the arguments and the input lines, the editor runs on and keeps
    its buffer ordered by distinct line numbers, within its 512 lines, and each
    text within its 160 bytes. *)
Theorem ted_invariant can_write argv inputs s : ted_ok s ->
  exists quit s', main can_write argv inputs s = Ok quit s' /\ ted_ok s'.
Proof. apply keeps_main. Qed.

(** C35. The buffer is a finite map from numbers to texts: setting a line when
    there is room inserts its text, cut to 159 bytes, and deleting a number
    removes it, both without touching any other line; in a full buffer even the
    replacement of an existing line is refused. *)
Theorem ted_buffer_map num txt md s : ted_ok s ->
  (line_count s < MAX_LINES -> exists s', upsert_line num txt md s = Ok tt s' /\
     to_map (buffer s') = <[num := take 159 txt]> (to_map (buffer s)) /\ dirty s' = md || dirty s) /\
  (line_count s = MAX_LINES -> exists s', upsert_line num txt md s = Ok tt s' /\ buffer s' = buffer s) /\
  (exists s', delete_line_number num md s = Ok tt s' /\ to_map (buffer s') = delete num (to_map (buffer s))).
Proof.
  intros Hs. destruct (find_index_split num (buffer s) (t_sorted _ Hs)) as (lo & hi & Hb & Hi & Hlo & Hhi).
  pose proof (t_sorted _ Hs) as Hsrt. split; [|split].
  - intros Hc. rewrite (upsert_line_eq num txt md s lo hi Hb Hi Hc). eexists. split; [reflexivity|].
    cbn [buffer set_dirty set_buffer dirty]. split; [|done]. rewrite Hb in *. by apply upserted_map.
  - intros Hc. unfold upsert_line. rewrite (bind_ok _ _ _ s s) by done. rewrite Z.geb_leb, Hc, Z.leb_refl.
    eexists. split; [reflexivity|]. done.
  - rewrite (delete_line_eq num md s lo hi Hb Hi). eexists. split; [reflexivity|].
    cbn [buffer set_dirty set_buffer]. rewrite Hb in *. by apply deleted_map.
Qed.

(** Saving and then opening a file gives back the buffer, when the file is
    new or not longer than what is saved and every line fits the 159 bytes that
    loading reads with its number in front. *)
Theorem ted_save_load_roundtrip can_write name s :
  ted_ok s -> Forall line_ok (buffer s) -> can_write name = true ->
  (length (default [] (files s !! name)) <= length (flat_map save_line (buffer s)))%nat ->
  exists s', (save_file can_write name ;; load_file name) s = Ok tt s' /\ buffer s' = buffer s /\ dirty s' = false.
Proof.
  intros Hs Hl Hw Hold. unfold save_file. rewrite bind_assoc, (bind_ok _ _ _ s s) by done. rewrite Hw. cbn [negb].
  unfold set_filename, emit_status, emit, load_file, clear_buffer, mbind, M_bind, modify, get.
  cbn [files set_files set_dirty set_buffer set_current put_out]. rewrite lookup_insert_eq. unfold overwrite.
  rewrite drop_ge, app_nil_r by done.
  match goal with |- context [load_loop _ [] 0 ?s1] => rewrite (load_saved (buffer s) s1 0) end;
    [|done|apply Hs|apply Hs].
  eexists. split; [reflexivity|]. done.
Qed.

(** [save_file] does not truncate: deleting lines at the end of a saved
    program and saving again leaves them in the file, and opening it brings them
    back. *)
Theorem ted_save_keeps_deleted can_write name b1 b2 s :
  ted_ok s -> buffer s = b1 -> sorted (b1 ++ b2) -> Z.of_nat (length (b1 ++ b2)) <= MAX_LINES ->
  Forall line_ok (b1 ++ b2) -> can_write name = true ->
  files s !! name = Some (flat_map save_line (b1 ++ b2)) ->
  exists s', (save_file can_write name ;; load_file name) s = Ok tt s' /\ buffer s' = b1 ++ b2.
Proof.
  intros Hs Hb Hsrt Hlen Hl Hw Hf. unfold save_file. rewrite bind_assoc, (bind_ok _ _ _ s s) by done. rewrite Hw. cbn [negb].
  unfold set_filename, emit_status, emit, load_file, clear_buffer, mbind, M_bind, modify, get.
  cbn [files set_files set_dirty set_buffer set_current put_out]. rewrite lookup_insert_eq.
  rewrite Hf, Hb. change (default [] (Some ?x)) with x.
  assert (overwrite (flat_map save_line (b1 ++ b2)) (flat_map save_line b1) = flat_map save_line (b1 ++ b2)) as ->.
  { unfold overwrite. by rewrite !flat_map_app, drop_app_length. }
  match goal with |- context [load_loop _ [] 0 ?s1] => rewrite (load_saved (b1 ++ b2) s1 0) end; [|done|done|done].
  eexists. split; [reflexivity|]. done.
Qed.

(** ** Witnesses *)

Definition ex_l10 : line := mkline 10 (cs "print 1").
Definition ex_l20 : line := mkline 20 (cs "goto 10").
Definition ex_ted : ted := mkted [ex_l10; ex_l20] true [] false ∅ [].

Lemma ex_ted_ok : ted_ok ex_ted.
Proof.
  split.
  - repeat constructor.
  - unfold line_count, MAX_LINES. simpl. lia.
  - repeat constructor; unfold MAX_COLS; simpl; lia.
Qed.

Lemma ex_line_ok l : l = ex_l10 \/ l = ex_l20 -> line_ok l.
Proof.
  intros [->| ->]; (split; [simpl; lia|split; [apply (bool_decide_unpack _); vm_compute; exact I|split; [reflexivity|]]]);
    vm_compute; lia.
Qed.

Lemma ted_invariant_witness : exists quit s',
  main (fun _ => true) [cs "ted"; cs "a.bas"] [cs "10 x"; cs "LIST"; cs "w"; cs "q"] ex_ted = Ok quit s' /\ ted_ok s'.
Proof. apply ted_invariant. apply ex_ted_ok. Defined.

Lemma ted_buffer_map_witness : exists s', upsert_line 15 (cs "new") true ex_ted = Ok tt s' /\
  to_map (buffer s') = <[15 := take 159 (cs "new")]> (to_map (buffer ex_ted)).
Proof.
  destruct (ted_buffer_map 15 (cs "new") true ex_ted ex_ted_ok) as (H & _ & _).
  destruct H as (s' & E & Hm & _); [unfold line_count, MAX_LINES; simpl; lia|]. exists s'. split; [exact E|exact Hm].
Defined.

Lemma ted_save_load_roundtrip_witness : exists s',
  (save_file (fun _ => true) (cs "f") ;; load_file (cs "f")) ex_ted = Ok tt s' /\ buffer s' = [ex_l10; ex_l20] /\ dirty s' = false.
Proof.
  apply (ted_save_load_roundtrip (fun _ => true) (cs "f") ex_ted).
  - apply ex_ted_ok.
  - constructor; [apply ex_line_ok; auto|constructor; [apply ex_line_ok; auto|constructor]].
  - reflexivity.
  - vm_compute. lia.
Defined.

Lemma ted_save_keeps_deleted_witness : exists s',
  (save_file (fun _ => true) (cs "f") ;; load_file (cs "f"))
    (mkted [ex_l10] true [] false {[cs "f" := flat_map save_line [ex_l10; ex_l20]]} []) = Ok tt s' /\
  buffer s' = [ex_l10; ex_l20].
Proof.
  apply (ted_save_keeps_deleted (fun _ => true) (cs "f") [ex_l10] [ex_l20]).
  - split; [repeat constructor|unfold line_count, MAX_LINES; simpl; lia|repeat constructor; unfold MAX_COLS; simpl; lia].
  - reflexivity.
  - repeat constructor.
  - unfold MAX_LINES. simpl. lia.
  - constructor; [apply ex_line_ok; auto|constructor; [apply ex_line_ok; auto|constructor]].
  - reflexivity.
  - cbn [files]. apply lookup_singleton_eq.
Defined.
