(* ===== verification/Hello.v ===== *)
(** * The shell (user/bin/hello.c)

    The parser works on positions in the line, as the code does on pointers: a
    token is a pair of positions, and [nulterminate] stores NULs in the line.
    Its state is the position [*ps]; [panic] ends the process with a message.
    [runcmd] is the tree of the system calls that the process makes, with a
    branch for each result that the code tests.  [malloc] is taken to succeed, as
    the code takes it. *)

From S2P Require Import Prelude CString ULib Printf Structio.
Import Structio.Structio.

Definition MAXARGS : nat := 10.
Definition HELLO_MAXPATH : Z := 128.
Definition O_RDONLY : Z := 0.
Definition O_WRONLY_CREATE : Z := 513.   (** O_WRONLY|O_CREATE *)

Module Hello.

(** [struct cmd] and its variants.  The parser's strings are the pairs of their
    start and their end in the line. *)
Inductive cmd (A : Type) :=
| EXEC (argv : list A)
| REDIR (c : cmd A) (file : A) (mode fd : Z)
| PIPE (left right : cmd A)
| LIST (left right : cmd A)
| BACK (c : cmd A).

Arguments EXEC {A}.
Arguments REDIR {A}.
Arguments PIPE {A}.
Arguments LIST {A}.
Arguments BACK {A}.

Definition token : Type := Z * Z.
Definition redir (A : Type) : Type := A * Z * Z.   (** file, mode, fd *)

Definition whitespace : list Z := [32; 9; 13; 10; 11].
Definition symbols : list Z := cs "<|>&;()".

Section Parser.
(** The line and its length. *)
Context (s : list Z) (es : Z).

Definition at_ (i : Z) : Z := aget 0 s i.

Definition is_ws (c : Z) : bool := existsb (Z.eqb c) whitespace.
Definition is_sym (c : Z) : bool := existsb (Z.eqb c) symbols.

(** [while(s < es && strchr(whitespace, *s)) s++;] *)
Fixpoint skip_ws (fuel : nat) (i : Z) : Z :=
  match fuel with
  | O => i
  | S f => if (i <? es) && is_ws (at_ i) then skip_ws f (i + 1) else i
  end.

Fixpoint skip_word (fuel : nat) (i : Z) : Z :=
  match fuel with
  | O => i
  | S f => if (i <? es) && negb (is_ws (at_ i)) && negb (is_sym (at_ i)) then skip_word f (i + 1) else i
  end.

Definition left_in (i : Z) : nat := Z.to_nat (es - i).

(** The token, [*q] and [*eq]. *)
Definition gettoken : M Z (Z * Z * Z) := fun ps =>
  let i := skip_ws (left_in ps) ps in
  let q := i in
  let c := at_ i in
  let '(ret, i) :=
    if c =? 0 then (c, i)
    else if (c =? chr "|") || (c =? 40) || (c =? 41) || (c =? chr ";") || (c =? chr "&") || (c =? chr "<")
    then (c, i + 1)
    else if c =? chr ">" then (if at_ (i + 1) =? chr ">" then (chr "+", i + 2) else (c, i + 1))
    else (chr "a", skip_word (left_in i) i) in
  Ok (ret, q, i) (skip_ws (left_in i) i).

Definition peek (toks : list Z) : M Z bool := fun ps =>
  let i := skip_ws (left_in ps) ps in
  Ok (negb (at_ i =? 0) && existsb (Z.eqb (at_ i)) toks) i.

(** The loop of [parseredirs]: the redirections it wraps around the command. *)
Fixpoint redirs_loop (fuel : nat) : M Z (list (redir token)) :=
  match fuel with
  | O => nofuel
  | S f =>
      b ← peek (cs "<>");
      if negb b then mret [] else
      '(tok, _, _) ← gettoken;
      '(t, q, eq) ← gettoken;
      if negb (t =? chr "a") then panic "missing file for redirection" else
      rest ← redirs_loop f;
      mret (if tok =? chr "<" then ((q, eq), O_RDONLY, 0) :: rest
            else if (tok =? chr ">") || (tok =? chr "+") then ((q, eq), O_WRONLY_CREATE, 1) :: rest
            else rest)
  end.

Definition wrap {A} (c : cmd A) (rs : list (redir A)) : cmd A :=
  foldl (fun c r => REDIR c r.1.1 r.1.2 r.2) c rs.

Definition parseredirs (c : cmd token) : M Z (cmd token) := ps ← get; rs ← redirs_loop (S (left_in ps)); mret (wrap c rs).

(** The argument loop of [parseexec], with the arguments so far; it returns
    them all with the redirections met on the way. *)
Fixpoint args_loop (fuel : nat) (args : list token) : M Z (list token * list (redir token)) :=
  match fuel with
  | O => nofuel
  | S f =>
      b ← peek (cs "|)&;");
      if (b : bool) then mret (args, []) else
      '(tok, q, eq) ← gettoken;
      if tok =? 0 then mret (args, []) else
      if negb (tok =? chr "a") then panic "syntax" else
      let args := args ++ [(q, eq)] in
      if (MAXARGS <=? length args)%nat then panic "too many args" else
      ps ← get;
      rs ← redirs_loop (S (left_in ps));
      '(args, rs') ← args_loop f args;
      mret (args, rs ++ rs')
  end.

(** [while(peek(ps, es, "&")) { gettoken(ps, es, 0, 0); cmd = backcmd(cmd); }] *)
Fixpoint back_loop (fuel : nat) (c : cmd token) : M Z (cmd token) :=
  match fuel with
  | O => nofuel
  | S f =>
      b ← peek (cs "&");
      if negb b then mret c else
      gettoken ;;
      back_loop f (BACK c)
  end.

(** The mutual recursion consumes a character at each turn. *)
Fixpoint parseline (fuel : nat) : M Z (cmd token) :=
  match fuel with
  | O => nofuel
  | S f =>
      c ← parsepipe f;
      ps ← get;
      c ← back_loop (S (left_in ps)) c;
      b ← peek (cs ";");
      if negb b then mret c else
      gettoken ;;
      r ← parseline f;
      mret (LIST c r)
  end
with parsepipe (fuel : nat) : M Z (cmd token) :=
  match fuel with
  | O => nofuel
  | S f =>
      c ← parseexec f;
      b ← peek (cs "|");
      if negb b then mret c else
      gettoken ;;
      r ← parsepipe f;
      mret (PIPE c r)
  end
with parseexec (fuel : nat) : M Z (cmd token) :=
  match fuel with
  | O => nofuel
  | S f =>
      b ← peek [40];
      if (b : bool) then parseblock f else
      ps ← get;
      rs ← redirs_loop (S (left_in ps));
      ps ← get;
      '(args, rs') ← args_loop (S (left_in ps)) [];
      mret (wrap (EXEC args) (rs ++ rs'))
  end
with parseblock (fuel : nat) : M Z (cmd token) :=
  match fuel with
  | O => nofuel
  | S f =>
      b ← peek [40];
      if negb b then panic "parseblock" else
      gettoken ;;
      c ← parseline f;
      b ← peek [41];
      if negb b then panic "syntax - missing )" else
      gettoken ;;
      parseredirs c
  end.

End Parser.

(** The positions at which [nulterminate] stores a NUL. *)
Fixpoint ends (c : cmd token) : list Z :=
  match c with
  | EXEC argv => map snd argv
  | REDIR c file _ _ => ends c ++ [file.2]
  | PIPE l r | LIST l r => ends l ++ ends r
  | BACK c => ends c
  end.

Definition nulterminate (c : cmd token) (s : list Z) : list Z := foldl (fun s i => aset s i 0) s (ends c).

(** Four levels of the recursion per character. *)
Definition parse_fuel (s : list Z) : nat := 4 * S (length s).

(** [panic]: the message, and the process exits. *)
Definition panic_text (msg : list Z) : list Z := uprintf (cs "%s" ++ [10]) [AStr (Some msg)].

(** The command with the line after [nulterminate], which has its final NUL; or
    what the process prints on the standard error before it exits.  [None]: the
    fuel is spent. *)
Definition parsecmd (line : list Z) : option (list Z + cmd token * list Z) :=
  let es := Z.of_nat (length line) in
  match (c ← parseline line es (parse_fuel line); peek line es [] ;; mret c) 0 with
  | Ok c ps =>
      Some (if negb (ps =? es)
            then inl (uprintf (cs "leftovers: %s" ++ [10]) [AStr (Some (drop (Z.to_nat ps) line))]
                        ++ panic_text (cs "syntax"))
            else inr (c, nulterminate c (line ++ [0])))
  | Panic msg => Some (inl (panic_text (cs msg)))
  | _ => None
  end.

(** ** Running a command *)

(** A C string of the line. *)
Fixpoint cstring (l : list Z) : list Z :=
  match l with
  | c :: l' => if c =? 0 then [] else c :: cstring l'
  | [] => []
  end.

Definition str_of (line : list Z) (i : Z) : list Z := cstring (drop (Z.to_nat i) line).

(** The system calls of a process.  [Exec] goes on only when the call fails;
    [Fork] has a continuation for its failure, for the child and for the parent. *)
Inductive proc :=
| Exit
| Printf (fd : Z) (bytes : list Z) (k : proc)
| Exec (path : list Z) (argv : list (list Z)) (k : proc)
| Close (fd : Z) (k : proc)
| Open (file : list Z) (mode : Z) (failed opened : proc)
| Dup (fd : Z) (k : proc)
| Pipe (failed : proc) (k : Z -> Z -> proc)
| Fork (failed child parent : proc)
| Wait (k : proc).

Definition panicp (msg : list Z) : proc := Printf 2 (panic_text msg) Exit.

Definition fork1 (child parent : proc) : proc := Fork (panicp (cs "fork")) child parent.

Definition hello_copy (src : list Z) (dstsz : Z) : list Z := take (Z.to_nat (dstsz - 1)) src.

Definition append_exec_path (dstsz : Z) (prefix cmd : list Z) : list Z :=
  match prefix with
  | [] => hello_copy cmd dstsz
  | _ =>
      let n := if Z.of_nat (length prefix) >=? dstsz then dstsz - 1 else Z.of_nat (length prefix) in
      let dst := take (Z.to_nat n) prefix in
      let need_slash := (n >? 0) && negb (aget 0 dst (n - 1) =? chr "/") in
      let dst := if need_slash && (n <? dstsz - 1) then dst ++ [chr "/"] else dst in
      if Z.of_nat (length dst) <? dstsz - 1
      then dst ++ hello_copy cmd (dstsz - Z.of_nat (length dst)) else dst
  end.

(** The segments of the search path between colons. *)
Fixpoint segments (path : list Z) : list (list Z) :=
  match path with
  | [] => [[]]
  | c :: path' =>
      if c =? chr ":" then [] :: segments path'
      else match segments path' with
           | seg :: segs => (c :: seg) :: segs
           | [] => [[c]]
           end
  end.

(** The paths that [try_exec] tries in turn. *)
Definition candidates (hello_path cmd : list Z) : list (list Z) :=
  if existsb (Z.eqb (chr "/")) cmd then [cmd]
  else map (fun seg => append_exec_path 128 seg cmd) (segments (hello_copy hello_path HELLO_MAXPATH)) ++ [cmd].

Definition try_exec (hello_path cmd : list Z) (argv : list (list Z)) (k : proc) : proc :=
  foldr (fun path k => Exec path argv k) k (candidates hello_path cmd).

Fixpoint runcmd (hello_path line : list Z) (c : cmd token) : proc :=
  match c with
  | EXEC argv =>
      match map (fun a => str_of line a.1) argv with
      | [] => Exit
      | (cmd :: _) as args =>
          try_exec hello_path cmd args
            (Printf 2 (uprintf (cs "hello: exec %s failed" ++ [10]) [AStr (Some cmd)]) Exit)
      end
  | REDIR c file mode fd =>
      Close fd (Open (str_of line file.1) mode
        (Printf 2 (uprintf (cs "open %s failed" ++ [10]) [AStr (Some (str_of line file.1))]) Exit)
        (runcmd hello_path line c))
  | LIST l r => fork1 (runcmd hello_path line l) (Wait (runcmd hello_path line r))
  | PIPE l r =>
      Pipe (panicp (cs "pipe")) (fun p0 p1 =>
        fork1 (Close 1 (Dup p1 (Close p0 (Close p1 (runcmd hello_path line l)))))
          (fork1 (Close 0 (Dup p0 (Close p0 (Close p1 (runcmd hello_path line r)))))
            (Close p0 (Close p1 (Wait (Wait Exit))))))
  | BACK c => fork1 (runcmd hello_path line c) Exit
  end.

(** ** Built-in commands *)

(** [dirs] are the successful calls of [chdir], [out] and [err] what is printed on
    the standard output and error. *)
Record hello := mkhello {
  hello_json : bool; hello_path : list Z; dirs : list (list Z); out : list Z; err : list Z }.

Definition put1 o s := mkhello (hello_json s) (hello_path s) (dirs s) (out s ++ o) (err s).
Definition put2 o s := mkhello (hello_json s) (hello_path s) (dirs s) (out s) (err s ++ o).
Definition set_path p s := mkhello (hello_json s) p (dirs s) (out s) (err s).
Definition add_dir d s := mkhello (hello_json s) (hello_path s) (dirs s ++ [d]) (out s) (err s).

Definition hello_show_prompt : M hello unit :=
  s ← get;
  if hello_json s then
    let '(w, o) := struct_begin 1 in
    let '(w, o1) := struct_field_str w (Some (cs "prompt")) (Some (cs "hello")) in
    modify (put1 (o ++ o1 ++ struct_end w))
  else modify (put2 (uprintf (cs "hello$ ") [])).

Fixpoint trim_newline (s : list Z) : list Z :=
  match s with
  | c :: s' => if (c =? 10) || (c =? 13) then [] else c :: trim_newline s'
  | [] => []
  end.

Fixpoint skipws (s : list Z) : list Z :=
  match s with
  | c :: s' => if (c =? 32) || (c =? 9) || (c =? 13) || (c =? 10) then skipws s' else s
  | [] => []
  end.

Definition hello_emit_status (event detail : list Z) : M hello unit :=
  s ← get;
  modify (put1 (modern_emit_status (cs "hello") (Some event) (Some detail) (hello_json s) (Some (cs "ok")))).

Definition hello_print_path : M hello unit :=
  s ← get;
  if hello_json s then
    let '(w, o) := struct_begin 1 in
    let '(w, o1) := struct_field_str w (Some (cs "command")) (Some (cs "hello")) in
    let '(w, o2) := struct_field_str w (Some (cs "path")) (Some (hello_path s)) in
    modify (put1 (o ++ o1 ++ o2 ++ struct_end w))
  else modify (put1 (uprintf (cs "PATH=%s" ++ [10]) [AStr (Some (hello_path s))])).

Definition hello_set_path (value : list Z) : M hello unit :=
  let value := match value with [] => cs "bin" | _ => value end in
  let p := take (Z.to_nat (HELLO_MAXPATH - 1)) value in
  modify (set_path p) ;;
  hello_emit_status (cs "path") p.

Definition help_lines : list string :=
  ["Hello Shell commands:";
   "  cd <dir>        change directory";
   "  path            show command search path";
   "  path set X      set path (colon separated)";
   "  help            show this message";
   "  version         show version info"].

Definition hello_help : M hello unit :=
  s ← get;
  if hello_json s then
    let '(w, o) := struct_begin 1 in
    let '(w, o1) := struct_field_str w (Some (cs "command")) (Some (cs "hello")) in
    let '(w, o2) := struct_field_str w (Some (cs "help"))
      (Some (cs "Built-ins: cd <dir>, path [set <paths>], help, version")) in
    modify (put1 (o ++ o1 ++ o2 ++ struct_end w))
  else modify (put1 (flat_map (fun l => uprintf (cs l ++ [10]) []) help_lines)).

(** [hello_strncmp]: bytes are signed. *)
Fixpoint hello_strncmp (n : nat) (a b : list Z) : Z :=
  match n with
  | O => 0
  | S n' =>
      let ca := s8 (default 0 (head a)) in
      let cb := s8 (default 0 (head b)) in
      if negb (ca =? cb) then ca - cb
      else if ca =? 0 then 0 else hello_strncmp n' (drop 1 a) (drop 1 b)
  end.

(** The end of a word: NUL, blank or tab. *)
Definition word_end (s : list Z) : bool :=
  match s with
  | c :: _ => (c =? 32) || (c =? 9)
  | [] => true
  end.

(** Whether the line is handled here, with the line as [trim_newline] leaves it;
    [chdir] says whether the call succeeds. *)
Definition handle_builtin (chdir : list Z -> bool) (buf : list Z) : M hello (bool * list Z) :=
  st ← get;
  let buf := trim_newline buf in
  let s := skipws buf in
  match s with
  | [] => mret (true, buf)
  | _ =>
      if bool_decide (take 2 s = cs "cd") && word_end (drop 2 s) then
        (match skipws (drop 2 s) with
         | [] => modify (put2 (uprintf (cs "hello: cd requires a path" ++ [10]) []))
         | arg =>
             if chdir arg then modify (add_dir arg)
             else modify (put2 (uprintf (cs "hello: cannot cd %s" ++ [10]) [AStr (Some arg)]))
         end) ;; mret (true, buf)
      else if bool_decide (s = cs "help") then hello_help ;; mret (true, buf)
      else if bool_decide (s = cs "version") || bool_decide (s = cs "--version") then
        modify (put1 (modern_print_version (cs "hello") (hello_json st))) ;; mret (true, buf)
      else if (hello_strncmp 4 s (cs "path") =? 0) && word_end (drop 4 s) then
        (match skipws (drop 4 s) with
         | [] => hello_print_path
         | arg =>
             if (hello_strncmp 3 arg (cs "set") =? 0) && word_end (drop 3 arg)
             then hello_set_path (skipws (drop 3 arg))
             else modify (put2 (uprintf (cs "hello: usage path [set <paths>]" ++ [10]) []))
         end) ;; mret (true, buf)
      else mret (false, buf)
  end.

(** The child that the loop of [main] forks for a line. *)
Definition child (hello_path buf : list Z) : option proc :=
  match parsecmd buf with
  | Some (inl msg) => Some (Printf 2 msg Exit)
  | Some (inr (c, line)) => Some (runcmd hello_path line c)
  | None => None
  end.

(** [getcmd], where [buf] is the string that [gets] reads; false at the end of
    the input. *)
Definition getcmd (buf : list Z) : M hello bool :=
  hello_show_prompt ;; mret (negb (bool_decide (buf = []))).

(** One turn of the loop of [main] on the string that [gets] reads: [None] at the
    end of the input, else the child to fork and wait for, if any. *)
Definition main_turn (chdir : list Z -> bool) (buf : list Z) : M hello (option (option proc)) :=
  b ← getcmd buf;
  if negb b then mret None else
  '(b, buf) ← handle_builtin chdir buf;
  if (b : bool) then mret (Some None) else
  s ← get;
  match child (hello_path s) buf with
  | Some p => mret (Some (Some p))
  | None => nofuel
  end.

End Hello.
