(* ===== verification/HelloSpec.v ===== *)
(** * Correctness of the shell (user/bin/hello.c)

    The parser returns on every line, with every string of the command a word
    of the line that [nulterminate] makes a C string; it reads back every command
    that the grammar can write; and the processes of a pipeline are connected
    to its pipe alone. *)

From S2P Require Import Prelude CString ULib Printf Structio Hello.
Import Structio.Structio Hello.Hello.

(** ** Partial correctness without fuel *)

(** [m] returns a result that satisfies [Q], or panics. *)
Definition post {A} (m : M Z A) (ps : Z) (Q : A -> Z -> Prop) : Prop :=
  match m ps with
  | Ok a ps' => Q a ps'
  | Panic _ => True
  | _ => False
  end.

Lemma post_bind {A B} (m : M Z A) (k : A -> M Z B) ps (P : A -> Z -> Prop) Q :
  post m ps P -> (forall a ps', P a ps' -> post (k a) ps' Q) -> post (m ≫= k) ps Q.
Proof. unfold post, mbind, M_bind. intros Hm Hk. destruct (m ps); auto. by apply Hk. Qed.

Lemma post_mono {A} (m : M Z A) ps (P Q : A -> Z -> Prop) :
  post m ps P -> (forall a ps', P a ps' -> Q a ps') -> post m ps Q.
Proof. unfold post. intros Hm HQ. destruct (m ps); auto. Qed.

Lemma post_ret {A} (a : A) ps (Q : A -> Z -> Prop) : Q a ps -> post (mret a) ps Q.
Proof. done. Qed.

Lemma post_panic {A} msg ps (Q : A -> Z -> Prop) : post (panic msg) ps Q.
Proof. done. Qed.

Lemma post_get {A} (k : Z -> M Z A) ps Q : post (k ps) ps Q -> post (get ≫= k) ps Q.
Proof. done. Qed.

Definition word_char (c : Z) : Prop := c <> 0 /\ is_ws c = false /\ is_sym c = false.

Section Total.
Context (s : list Z) (Hs : Forall (fun c => c <> 0) s).
Local Notation es := (Z.of_nat (length s)).
Local Notation at_ := (at_ s).

(** A position of the line, and one reached from another. *)
Definition pos (i : Z) : Prop := 0 <= i <= es.

(** A word that ends where [nulterminate] may store a NUL. *)
Definition word_at (t : token) : Prop :=
  0 <= t.1 < t.2 /\ t.2 <= es /\ (forall i, t.1 <= i < t.2 -> word_char (at_ i)) /\ ~ word_char (at_ t.2).

Lemma at_end i : es <= i -> at_ i = 0.
Proof.
  intros Hi. unfold Hello.at_, aget. destruct (Z.ltb_spec i 0); [done|].
  by rewrite lookup_ge_None_2 by lia.
Qed.

Lemma at_nonzero i : 0 <= i < es -> at_ i <> 0.
Proof.
  intros Hi. unfold Hello.at_, aget. destruct (Z.ltb_spec i 0); [lia|].
  destruct (lookup_lt_is_Some_2 s (Z.to_nat i)) as [c Ec]; [lia|].
  rewrite Ec. by apply (Forall_lookup_1 _ _ _ _ Hs Ec).
Qed.

Lemma skip_ws_spec n i : pos i -> (left_in es i <= n)%nat ->
  i <= skip_ws s es n i <= es /\ is_ws (at_ (skip_ws s es n i)) = false.
Proof.
  unfold left_in. revert i. induction n as [|n IH]; intros i Hi Hn; cbn [skip_ws].
  - assert (i = es) as -> by (unfold pos in *; lia). rewrite at_end by lia. split; [lia|done].
  - destruct (Z.ltb_spec i es); cbn [andb].
    + destruct (is_ws (at_ i)) eqn:E; [|unfold pos in *; split; [lia|done]].
      destruct (IH (i + 1)) as [H1 H2]; [unfold pos in *; lia..|]. split; [lia|done].
    + assert (i = es) as -> by (unfold pos in *; lia). rewrite at_end by lia. split; [lia|done].
Qed.

Lemma skip_word_spec n i : pos i -> (left_in es i <= n)%nat ->
  i <= skip_word s es n i <= es /\
  (forall j, i <= j < skip_word s es n i -> word_char (at_ j)) /\ ~ word_char (at_ (skip_word s es n i)).
Proof.
  assert (H0 : forall i, pos i -> es <= i -> i <= i <= es /\
    (forall j, i <= j < i -> word_char (at_ j)) /\ ~ word_char (at_ i)).
  { unfold pos. intros j Hj Hj'. rewrite at_end by lia. split; [lia|]. split; [lia|]. by intros [? _]. }
  unfold left_in. revert i. induction n as [|n IH]; intros i Hi Hn; cbn [skip_word].
  - apply H0; [done|unfold pos in *; lia].
  - destruct (Z.ltb_spec i es); cbn [andb]; [|apply H0; [done|lia]].
    destruct (is_ws (at_ i)) eqn:E1; cbn [negb andb]; [|destruct (is_sym (at_ i)) eqn:E2; cbn [negb andb]].
    1,2: unfold pos in *; split; [lia|]; split; [lia|]; intros (_ & ? & ?); congruence.
    destruct (IH (i + 1)) as (H1 & H2 & H3); [unfold pos in *; lia..|].
    split; [lia|]. split; [|done]. intros j Hj. destruct (decide (j = i)) as [->|]; [|apply H2; lia].
    split; [|done]. apply at_nonzero. unfold pos in *. lia.
Qed.

(** A token other than the end of the line moves the position. *)
Definition token_ok (ps : Z) (r : Z * Z * Z) (ps' : Z) : Prop :=
  ps <= ps' <= es /\ (r.1.1 <> 0 \/ ps < es -> ps < ps') /\ (r.1.1 = chr "a" -> word_at (r.1.2, r.2)).

Lemma is_sym_cases c : is_sym c = false ->
  c <> chr "|" /\ c <> 40 /\ c <> 41 /\ c <> chr ";" /\ c <> chr "&" /\ c <> chr "<" /\ c <> chr ">".
Proof.
  intros H. repeat split; intros ->; vm_compute in H; done.
Qed.

Lemma is_sym_only c : c <> chr "|" -> c <> 40 -> c <> 41 -> c <> chr ";" -> c <> chr "&" -> c <> chr "<" ->
  c <> chr ">" -> is_sym c = false.
Proof.
  intros. unfold is_sym, symbols. apply not_true_is_false. intros (x & Hx & E)%existsb_exists.
  apply Z.eqb_eq in E as ->. repeat (destruct Hx as [<-|Hx]; [done|]). done.
Qed.

Lemma gettoken_ok ps : pos ps -> post (gettoken s es) ps (token_ok ps).
Proof.
  intros Hp. unfold post, gettoken.
  destruct (skip_ws_spec (left_in es ps) ps Hp ltac:(lia)) as [Hi Hw].
  set (i := skip_ws s es (left_in es ps) ps) in *. clearbody i.
  assert (Hpi : pos i) by (unfold pos in *; lia).
  assert (Hend : forall j, pos j -> j <= skip_ws s es (left_in es j) j <= es).
  { intros j Hj. apply skip_ws_spec; [done|lia]. }
  destruct (Z.eqb_spec (at_ i) 0) as [E0|N0].
  { specialize (Hend i Hpi). rewrite E0. split; [cbn; lia|]. split; [|done].
    destruct (Z.lt_ge_cases i es); [|cbn; lia]. by destruct (at_nonzero i); [unfold pos in *; lia|]. }
  assert (Hlt : i < es). { destruct (Z.lt_ge_cases i es); [done|]. by rewrite at_end in N0. }
  assert (Hnext : forall r j, 0 <= i < j -> j <= es -> r <> chr "a" ->
    token_ok ps (r, i, j) (skip_ws s es (left_in es j) j)).
  { intros r j Hj Hj' Hr. specialize (Hend j ltac:(unfold pos; lia)). split; [lia|]. split; [cbn; lia|done]. }
  destruct ((at_ i =? chr "|") || _ || _ || _ || _ || _) eqn:Esp.
  { apply Hnext; [unfold pos in *; lia|lia|]. intros E. rewrite E in Esp. done. }
  destruct (Z.eqb_spec (at_ i) (chr ">")) as [E|N].
  { destruct (Z.eqb_spec (at_ (i + 1)) (chr ">")) as [E'|N'].
    - apply Hnext; [unfold pos in *; lia| |done].
      destruct (Z.lt_ge_cases (i + 1) es); [lia|]. by rewrite at_end in E' by lia.
    - apply Hnext; [unfold pos in *; lia|lia|]. by rewrite E. }
  rewrite !orb_false_iff, !Z.eqb_neq in Esp. destruct Esp as (((((? & ?) & ?) & ?) & ?) & ?).
  assert (Hc : word_char (at_ i)) by (split; [done|split; [done|by apply is_sym_only]]).
  destruct (skip_word_spec (left_in es i) i Hpi ltac:(lia)) as (Hb & Hin & Hout).
  set (e := skip_word s es (left_in es i) i) in *. clearbody e.
  assert (i < e). { destruct (decide (i = e)) as [->|]; [done|lia]. }
  specialize (Hend e ltac:(unfold pos in *; lia)).
  split; [lia|]. split; [cbn; lia|]. intros _. unfold pos in *. split; [cbn; lia|]. split; [cbn; lia|]. by split.
Qed.

Lemma peek_ok toks ps : pos ps -> post (peek s es toks) ps (fun b ps' =>
  ps <= ps' <= es /\ (b = true -> ps' < es)).
Proof.
  intros Hp. unfold post, peek.
  destruct (skip_ws_spec (left_in es ps) ps Hp ltac:(lia)) as [Hi Hw].
  split; [lia|]. intros [Hz _]%andb_true_iff.
  destruct (Z.lt_ge_cases (skip_ws s es (left_in es ps) ps) es); [done|]. by rewrite at_end in Hz.
Qed.

Definition redirs_ok (rs : list (redir token)) : Prop := Forall (fun r => word_at r.1.1) rs.

Fixpoint cmd_ok (c : cmd token) : Prop :=
  match c with
  | EXEC argv => Forall word_at argv /\ (length argv < MAXARGS)%nat
  | REDIR c file _ _ => cmd_ok c /\ word_at file
  | PIPE l r | LIST l r => cmd_ok l /\ cmd_ok r
  | BACK c => cmd_ok c
  end.

Lemma wrap_ok c rs : cmd_ok c -> redirs_ok rs -> cmd_ok (wrap c rs).
Proof.
  intros Hc Hrs. revert c Hc. unfold wrap.
  induction Hrs as [|r rs Hr Hrs IH]; intros c Hc; cbn [foldl]; [done|]. apply IH. by split.
Qed.

(** [step] runs the next [peek], [gettoken] or [get]. *)
Ltac step :=
  match goal with
  | |- post (peek _ _ _ ≫= _) ?ps _ =>
      eapply post_bind; [apply peek_ok; unfold pos in *; lia|]; intros [] ? [? ?]; cbn [negb]
  | |- post (gettoken _ _ ≫= _) ?ps _ =>
      eapply post_bind; [apply gettoken_ok; unfold pos in *; lia|];
      intros [[? ?] ?] ? (? & ? & ?); cbn [fst snd] in *
  | |- post (get ≫= _) _ _ => apply post_get
  | |- post (mret _) _ _ => apply post_ret
  | |- post (panic _) _ _ => apply post_panic
  end.

Lemma redirs_loop_ok n ps : pos ps -> (left_in es ps < n)%nat ->
  post (redirs_loop s es n) ps (fun rs ps' => ps <= ps' <= es /\ redirs_ok rs).
Proof.
  unfold left_in. revert ps. induction n as [|n IH]; intros ps Hp Hn; cbn [redirs_loop]; [lia|].
  step; [|step; split; [lia|constructor]].
  step. step. destruct (Z.eqb_spec z2 (chr "a")) as [Ea|]; cbn [negb]; [|step].
  eapply post_bind; [apply IH; unfold pos in *; lia|]. intros rs pz [? Hrs]. step. split; [lia|].
  destruct (_ =? _); [by constructor; [auto|]|]. destruct (_ || _); [by constructor; [auto|]|done].
Qed.

Lemma args_loop_ok n args ps : pos ps -> (left_in es ps < n)%nat ->
  Forall word_at args -> (length args < MAXARGS)%nat ->
  post (args_loop s es n args) ps (fun r ps' => ps <= ps' <= es /\
    Forall word_at r.1 /\ (length r.1 < MAXARGS)%nat /\ redirs_ok r.2).
Proof.
  unfold left_in. revert args ps.
  induction n as [|n IH]; intros args ps Hp Hn Hargs Hlen; cbn [args_loop]; [lia|].
  step; [step; split; [lia|]; split_and!; [done..|constructor]|].
  step. destruct (Z.eqb_spec z 0); [step; split; [lia|]; split_and!; [done..|constructor]|].
  destruct (Z.eqb_spec z (chr "a")) as [Ea|]; cbn [negb]; [|step].
  destruct (Nat.leb_spec MAXARGS (length (args ++ [(z0, z1)]))); [step|].
  step. eapply post_bind; [apply redirs_loop_ok; [unfold pos in *; lia|unfold left_in; lia]|].
  intros rs pz [? Hrs]. eapply post_bind; [apply IH; [unfold pos in *; lia|lia| |lia]|].
  { apply Forall_app. by split; [|constructor; [auto|constructor]]. }
  intros [args' rs'] pz' (? & ? & ? & ?). step. split; [lia|]. split_and!; [done..|]. by apply Forall_app.
Qed.

Lemma back_loop_ok n c ps : pos ps -> (left_in es ps < n)%nat -> cmd_ok c ->
  post (back_loop s es n c) ps (fun c ps' => ps <= ps' <= es /\ cmd_ok c).
Proof.
  unfold left_in. revert c ps. induction n as [|n IH]; intros c ps Hp Hn Hc; cbn [back_loop]; [lia|].
  step; [|step; by split; [lia|]].
  step. eapply post_mono; [apply IH; [unfold pos in *; lia|lia|done]|]. intros ? ? [? ?]. by split; [lia|].
Qed.

(** The fuel of each level of the parser. *)
Definition parser_ok (n : nat) : Prop := forall ps, pos ps ->
  let Q c ps' := ps <= ps' <= es /\ cmd_ok c in
  ((4 * left_in es ps + 3 < n)%nat -> post (parseline s es n) ps Q) /\
  ((4 * left_in es ps + 2 < n)%nat -> post (parsepipe s es n) ps Q) /\
  ((4 * left_in es ps + 1 < n)%nat -> post (parseexec s es n) ps Q) /\
  ((4 * left_in es ps < n)%nat -> post (parseblock s es n) ps Q).

Lemma parser_total n : parser_ok n.
Proof.
  unfold parser_ok, left_in. induction n as [|n IH]; intros ps Hp; [lia|].
  cbn zeta in *. cbn [parseline parsepipe parseexec parseblock]. split_and!; intros Hn.
  - eapply post_bind; [apply IH; [done|lia]|]. intros c ps1 [? Hc]. step.
    eapply post_bind; [apply back_loop_ok; [unfold pos in *; lia|unfold left_in; lia|done]|].
    intros c' ps2 [? Hc']. step; [|step; by split; [lia|]].
    step. eapply post_bind; [apply IH; unfold pos in *; lia|]. intros r ps3 [? Hr]. step. by split; [lia|].
  - eapply post_bind; [apply IH; [done|lia]|]. intros c ps1 [? Hc]. step; [|step; by split; [lia|]].
    step. eapply post_bind; [apply IH; unfold pos in *; lia|]. intros r ps3 [? Hr]. step. by split; [lia|].
  - step; [eapply post_mono; [apply IH; unfold pos in *; lia|]; intros ? ? [? ?]; by split; [lia|]|].
    step. eapply post_bind; [apply redirs_loop_ok; [unfold pos in *; lia|unfold left_in; lia]|].
    intros rs ps1 [? Hrs]. step.
    eapply post_bind; [apply args_loop_ok; [unfold pos in *; lia|unfold left_in; lia|by apply Forall_nil|unfold MAXARGS; cbn; lia]|].
    intros [args rs'] ps2 (? & ? & ? & ?). step. split; [lia|].
    apply wrap_ok; [by split|]. by apply Forall_app.
  - step; [|step]. step. eapply post_bind; [apply IH; unfold pos in *; lia|]. intros c ps1 [? Hc].
    step; [|step]. step. unfold parseredirs. step.
    eapply post_bind; [apply redirs_loop_ok; [unfold pos in *; lia|unfold left_in; lia]|].
    intros rs ps2 [? Hrs]. step. split; [lia|]. by apply wrap_ok.
Qed.

(** ** The strings of the command *)

Definition substr (t : token) : list Z := take (Z.to_nat (t.2 - t.1)) (drop (Z.to_nat t.1) s).

Lemma ends_ok c : cmd_ok c -> Forall (fun e => pos e /\ ~ word_char (at_ e)) (ends c).
Proof.
  assert (Hw : forall t, word_at t -> pos t.2 /\ ~ word_char (at_ t.2)).
  { intros t (? & ? & ? & ?). split; [unfold pos; lia|done]. }
  induction c as [argv|c IH f m fd|l IHl r IHr|l IHl r IHr|c IH]; cbn [cmd_ok ends].
  - intros [H _]. apply Forall_map. eapply Forall_impl; [done|]. intros t Ht. by apply Hw.
  - intros [? ?]. apply Forall_app. split; [auto|]. constructor; [by apply Hw|constructor].
  - intros [? ?]. apply Forall_app. auto.
  - intros [? ?]. apply Forall_app. auto.
  - auto.
Qed.

Fixpoint tokens {A} (c : cmd A) : list A :=
  match c with
  | EXEC argv => argv
  | REDIR c file _ _ => tokens c ++ [file]
  | PIPE l r | LIST l r => tokens l ++ tokens r
  | BACK c => tokens c
  end.

Lemma ends_tokens c : ends c = map snd (tokens c).
Proof. induction c; cbn [ends tokens]; rewrite ?map_app; simpl; by f_equal. Qed.

Lemma tokens_ok c : cmd_ok c -> Forall word_at (tokens c).
Proof.
  induction c; cbn [cmd_ok tokens]; intros H; rewrite ?Forall_app; try tauto.
  split; [tauto|]. constructor; [tauto|constructor].
Qed.

Lemma zeros_lookup (E : list Z) (b : list Z) (j : nat) :
  (j < length b)%nat ->
  foldl (fun s i => aset s i 0) b E !! j = if decide (Z.of_nat j ∈ E) then Some 0 else b !! j.
Proof.
  revert b. induction E as [|i E IH]; intros b Hj; cbn [foldl]; [done|].
  assert (Hl : length (aset b i 0) = length b) by (unfold aset; destruct (i <? 0); len).
  rewrite IH by lia. destruct (decide (Z.of_nat j ∈ E)) as [HE|HE].
  { by rewrite decide_True by (by apply list_elem_of_further). }
  unfold aset. destruct (Z.ltb_spec i 0).
  { rewrite decide_False; [done|]. intros [|]%elem_of_cons; [lia|done]. }
  destruct (decide (Z.of_nat j = i)) as [<-|Hne].
  - rewrite decide_True by apply list_elem_of_here. by rewrite Nat2Z.id, list_lookup_insert_eq by lia.
  - rewrite decide_False by (intros [|]%elem_of_cons; done). by rewrite list_lookup_insert_ne by lia.
Qed.

Lemma zeros_length (E : list Z) (b : list Z) : length (foldl (fun s i => aset s i 0) b E) = length b.
Proof.
  revert b. induction E as [|i E IH]; intros b; cbn [foldl]; [done|].
  rewrite IH. unfold aset. destruct (i <? 0); len.
Qed.

Lemma cstring_app w l : Forall (fun c => c <> 0) w -> cstring (w ++ 0 :: l) = w.
Proof.
  induction 1 as [|c w Hc Hw IH]; cbn; [done|]. destruct (Z.eqb_spec c 0); [done|]. by rewrite IH.
Qed.

Lemma at_lookup i : 0 <= i < es -> s !! Z.to_nat i = Some (at_ i).
Proof.
  intros Hi. unfold Hello.at_, aget. destruct (Z.ltb_spec i 0); [lia|].
  by destruct (lookup_lt_is_Some_2 s (Z.to_nat i)) as [c ->]; [lia|].
Qed.

(** Outside the words' ends the line is as it was. *)
Lemma nulterminate_word c t j : cmd_ok c -> word_at t -> t.1 <= j < t.2 ->
  nulterminate c (s ++ [0]) !! Z.to_nat j = s !! Z.to_nat j.
Proof.
  intros Hc (? & ? & Hw & _) Hj. unfold nulterminate. rewrite zeros_lookup by len.
  rewrite decide_False; [by rewrite lookup_app_l by lia|]. rewrite Z2Nat.id by lia. intros Hin.
  destruct (proj1 (Forall_forall _ _) (ends_ok _ Hc) _ Hin) as [_ Hn]. by destruct Hn; apply Hw.
Qed.

Lemma nulterminate_str c t : cmd_ok c -> t ∈ tokens c -> str_of (nulterminate c (s ++ [0])) t.1 = substr t.
Proof.
  intros Hc Ht. pose proof (proj1 (Forall_forall _ _) (tokens_ok _ Hc) _ Ht) as Hw.
  pose proof Hw as (Hb & He & Hin & _). unfold str_of.
  assert (Hend : nulterminate c (s ++ [0]) !! Z.to_nat t.2 = Some 0).
  { unfold nulterminate. rewrite zeros_lookup by len. rewrite decide_True; [done|].
    rewrite Z2Nat.id by lia. rewrite ends_tokens. apply list_elem_of_In, in_map. by apply list_elem_of_In. }
  assert (Hsub : drop (Z.to_nat t.1) (take (Z.to_nat t.2) (nulterminate c (s ++ [0]))) = substr t).
  { unfold substr. rewrite skipn_firstn_comm. rewrite <- Z2Nat.inj_sub by lia. apply list_eq. intros i.
    destruct (decide (i < Z.to_nat (t.2 - t.1))%nat); [|by rewrite !lookup_take_ge by lia].
    rewrite !lookup_take_lt, !lookup_drop by lia.
    pose proof (nulterminate_word c t (t.1 + Z.of_nat i) Hc Hw ltac:(lia)) as E.
    by rewrite Z2Nat.inj_add, Nat2Z.id in E by lia. }
  rewrite <- (take_drop_middle _ _ _ Hend), drop_app_le, Hsub
    by (apply lookup_lt_Some in Hend; rewrite length_take; lia).
  apply cstring_app. apply Forall_lookup_2. intros i x Hx. unfold substr in Hx.
  apply lookup_take_Some in Hx as [Hx Hi]. rewrite lookup_drop in Hx.
  pose proof (at_lookup (t.1 + Z.of_nat i) ltac:(lia)) as E. rewrite Z2Nat.inj_add, Nat2Z.id in E by lia.
  rewrite Hx in E. injection E as ->. apply at_nonzero. lia.
Qed.

Lemma parsecmd_total :
  match parsecmd s with
  | None => False
  | Some (inl _) => True
  | Some (inr (c, line)) => cmd_ok c /\ line = nulterminate c (s ++ [0])
  end.
Proof.
  unfold parsecmd.
  assert (H : post (c ← parseline s es (parse_fuel s); peek s es [] ;; mret c) 0 (fun c _ => cmd_ok c)).
  { assert (pos 0) by (unfold pos; lia).
    eapply post_bind; [apply parser_total; [done|unfold left_in, parse_fuel; lia]|].
    intros c ps [? Hc]. eapply post_bind; [apply peek_ok; unfold pos in *; lia|]. intros b ps' _. by apply post_ret. }
  unfold post in H.
  destruct ((c ← parseline s es (parse_fuel s); peek s es [] ;; mret c) 0) as [c ps| | |]; [|done..].
  by destruct (negb _).
Qed.

End Total.

(** ** The grammar *)

Inductive rdir := RIn | ROut | RApp.

Definition gredir : Type := rdir * list Z.

(** A line is pipelines, each run in the background some number of times, with
    semicolons between; a stage is a command with its words and redirections, or a
    block. *)
Inductive gline :=
| GLine (p : gpipe) (bg : nat)
| GSeq (p : gpipe) (bg : nat) (l : gline)
with gpipe :=
| GStage (e : gexec)
| GPipe (e : gexec) (p : gpipe)
with gexec :=
| GSimple (rs : list gredir) (args : list (list Z * list gredir))
| GBlock (l : gline) (rs : list gredir).

Scheme gline_mut := Induction for gline Sort Prop
  with gpipe_mut := Induction for gpipe Sort Prop
  with gexec_mut := Induction for gexec Sort Prop.

(** The tokens of a phrase. *)
Definition rsym (d : rdir) : list Z := match d with RIn => cs "<" | ROut => cs ">" | RApp => cs ">>" end.
Definition redir_toks (rs : list gredir) : list (list Z) := flat_map (fun r => [rsym r.1; r.2]) rs.
Definition arg_toks (args : list (list Z * list gredir)) : list (list Z) :=
  flat_map (fun a => a.1 :: redir_toks a.2) args.
Definition bg_toks (bg : nat) : list (list Z) := replicate bg (cs "&").

Fixpoint line_toks (l : gline) : list (list Z) :=
  match l with
  | GLine p bg => pipe_toks p ++ bg_toks bg
  | GSeq p bg l => pipe_toks p ++ bg_toks bg ++ [cs ";"] ++ line_toks l
  end
with pipe_toks (p : gpipe) : list (list Z) :=
  match p with
  | GStage e => exec_toks e
  | GPipe e p => exec_toks e ++ [cs "|"] ++ pipe_toks p
  end
with exec_toks (e : gexec) : list (list Z) :=
  match e with
  | GSimple rs args => redir_toks rs ++ arg_toks args
  | GBlock l rs => [[40]] ++ line_toks l ++ [[41]] ++ redir_toks rs
  end.

(** The texts of a list of tokens: any blanks before, between and after them,
    none where the tokens do not run together.  Two words would, and [>] and a
    token that begins with [>]. *)
Definition blanks (b : list Z) : Prop := Forall (fun c => is_ws c = true) b.

Definition joins (t : list Z) (c : Z) : bool :=
  if is_sym (hd 0 t) then bool_decide (t = cs ">") && (c =? chr ">") else negb (is_ws c) && negb (is_sym c).

Definition apart (t txt : list Z) : Prop := match txt with c :: _ => joins t c = false | [] => True end.

Inductive spells : list (list Z) -> list Z -> Prop :=
| spells_end b : blanks b -> spells [] b
| spells_tok b t ts txt : blanks b -> apart t txt -> spells ts txt -> spells (t :: ts) (b ++ t ++ txt).

(** The command that a phrase means.  [>>] means the redirection of [>]: there
    is no mode to append in. *)
Definition den_redir (r : gredir) : redir (list Z) :=
  match r.1 with RIn => (r.2, O_RDONLY, 0) | ROut | RApp => (r.2, O_WRONLY_CREATE, 1) end.
Definition den_redirs (rs : list gredir) : list (redir (list Z)) := map den_redir rs.
Definition den_bg (bg : nat) (c : cmd (list Z)) : cmd (list Z) := Nat.iter bg BACK c.

Fixpoint den_line (l : gline) : cmd (list Z) :=
  match l with
  | GLine p bg => den_bg bg (den_pipe p)
  | GSeq p bg l => LIST (den_bg bg (den_pipe p)) (den_line l)
  end
with den_pipe (p : gpipe) : cmd (list Z) :=
  match p with
  | GStage e => den_exec e
  | GPipe e p => PIPE (den_exec e) (den_pipe p)
  end
with den_exec (e : gexec) : cmd (list Z) :=
  match e with
  | GSimple rs args => wrap (EXEC (map fst args)) (den_redirs rs ++ flat_map (fun a => den_redirs a.2) args)
  | GBlock l rs => wrap (den_line l) (den_redirs rs)
  end.

(** Words are made of word characters; a command has fewer than MAXARGS. *)
Definition word_ok (w : list Z) : Prop := w <> [] /\ Forall word_char w.
Definition gredirs_ok (rs : list gredir) : Prop := Forall (fun r => word_ok r.2) rs.

Fixpoint line_ok (l : gline) : Prop :=
  match l with
  | GLine p _ => pipe_ok p
  | GSeq p _ l => pipe_ok p /\ line_ok l
  end
with pipe_ok (p : gpipe) : Prop :=
  match p with
  | GStage e => exec_ok e
  | GPipe e p => exec_ok e /\ pipe_ok p
  end
with exec_ok (e : gexec) : Prop :=
  match e with
  | GSimple rs args => gredirs_ok rs /\ Forall (fun a => word_ok a.1 /\ gredirs_ok a.2) args /\ (length args < MAXARGS)%nat
  | GBlock l rs => line_ok l /\ gredirs_ok rs
  end.

Fixpoint cmd_map {A B} (f : A -> B) (c : cmd A) : cmd B :=
  match c with
  | EXEC argv => EXEC (map f argv)
  | REDIR c file mode fd => REDIR (cmd_map f c) (f file) mode fd
  | PIPE l r => PIPE (cmd_map f l) (cmd_map f r)
  | LIST l r => LIST (cmd_map f l) (cmd_map f r)
  | BACK c => BACK (cmd_map f c)
  end.

Definition redir_map {A B} (f : A -> B) (r : redir A) : redir B := (f r.1.1, r.1.2, r.2).

Lemma cmd_map_wrap {A B} (f : A -> B) c rs : cmd_map f (wrap c rs) = wrap (cmd_map f c) (map (redir_map f) rs).
Proof. revert c. unfold wrap. induction rs as [|r rs IH]; intros c; cbn [foldl map]; [done|]. by rewrite IH. Qed.

Lemma cmd_map_ext {A B} (f g : A -> B) c : (forall t, t ∈ tokens c -> f t = g t) -> cmd_map f c = cmd_map g c.
Proof.
  induction c as [argv|c IH fl m fd|l IHl r IHr|l IHl r IHr|c IH]; cbn [tokens cmd_map]; intros H.
  - f_equal. apply map_ext_in. intros a Ha. apply H. by apply list_elem_of_In.
  - rewrite IH, H; [done|set_solver..].
  - rewrite IHl, IHr; [done|set_solver..].
  - rewrite IHl, IHr; [done|set_solver..].
  - by rewrite IH.
Qed.

(** [m] returns, with a result that satisfies [Q]. *)
Definition runs {A} (m : M Z A) (ps : Z) (Q : A -> Z -> Prop) : Prop :=
  exists a ps', m ps = Ok a ps' /\ Q a ps'.

Lemma runs_bind {A B} (m : M Z A) (k : A -> M Z B) ps (P : A -> Z -> Prop) Q :
  runs m ps P -> (forall a ps', P a ps' -> runs (k a) ps' Q) -> runs (m ≫= k) ps Q.
Proof.
  intros (a & ps' & E & Ha) Hk. destruct (Hk _ _ Ha) as (b & ps'' & E' & Hb).
  exists b, ps''. split; [|done]. unfold mbind, M_bind. by rewrite E.
Qed.

Lemma runs_ret {A} (a : A) ps (Q : A -> Z -> Prop) : Q a ps -> runs (mret a) ps Q.
Proof. by exists a, ps. Qed.

Lemma runs_get {A} (k : Z -> M Z A) ps Q : runs (k ps) ps Q -> runs (get ≫= k) ps Q.
Proof. intros (a & ps' & E & H). by exists a, ps'. Qed.

Lemma runs_mono {A} (m : M Z A) ps (P Q : A -> Z -> Prop) :
  runs m ps P -> (forall a ps', P a ps' -> Q a ps') -> runs m ps Q.
Proof. intros (a & ps' & E & H) HQ. exists a, ps'. auto. Qed.

Section RoundTrip.
Context (s : list Z).
Local Notation es := (Z.of_nat (length s)).
Local Notation at_ := (at_ s).
Local Notation subs := (substr s).

(** The text from the position on. *)
Definition here (ps : Z) (k : list Z) : Prop := 0 <= ps /\ ps + Z.of_nat (length k) = es /\ drop (Z.to_nat ps) s = k.

Definition nows (k : list Z) : Prop := match k with c :: _ => is_ws c = false | [] => True end.

Lemma here_at ps c k : here ps (c :: k) -> at_ ps = c /\ ps < es.
Proof.
  intros (H1 & H2 & H3). cbn [length] in H2. split; [|lia]. unfold Hello.at_, aget.
  destruct (Z.ltb_spec ps 0); [lia|]. rewrite <- (Nat.add_0_r (Z.to_nat ps)), <- lookup_drop, H3. done.
Qed.

Lemma here_app ps w k : here ps (w ++ k) -> here (ps + Z.of_nat (length w)) k.
Proof.
  intros (H1 & H2 & H3). rewrite length_app in H2. split; [lia|]. split; [lia|].
  rewrite Z2Nat.inj_add, Nat2Z.id, <- drop_drop, H3, drop_app_length by lia. done.
Qed.

Lemma here_cons ps c k : here ps (c :: k) -> here (ps + 1) k.
Proof. apply (here_app ps [c]). Qed.

Lemma here_nil ps : here ps [] -> ps = es /\ at_ ps = 0.
Proof.
  intros (H1 & H2 & H3). cbn [length] in H2. split; [lia|]. unfold Hello.at_, aget.
  destruct (Z.ltb_spec ps 0); [done|]. by rewrite lookup_ge_None_2 by lia.
Qed.

Lemma here_left ps k : here ps k -> left_in es ps = length k.
Proof. unfold left_in. intros (? & ? & _). lia. Qed.

Lemma skip_ws_here n ps k : here ps k -> nows k -> skip_ws s es n ps = ps.
Proof.
  destruct n as [|n]; cbn [skip_ws]; [done|]. intros Hh Hk. destruct k as [|c k].
  - apply here_nil in Hh as [-> _]. by rewrite Z.ltb_irrefl.
  - apply here_at in Hh as [-> ?]. cbn [nows] in Hk. rewrite Hk. by rewrite andb_false_r.
Qed.

Lemma skip_ws_blanks b n ps k : blanks b -> here ps (b ++ k) -> nows k -> (length b <= n)%nat ->
  skip_ws s es n ps = ps + Z.of_nat (length b).
Proof.
  intros Hb. revert n ps. induction Hb as [|c b Hc Hb IH]; intros n ps Hh Hk Hn.
  - rewrite (skip_ws_here _ _ k) by done. cbn. lia.
  - destruct n as [|n]; cbn [length] in Hn; [lia|]. pose proof (here_cons _ _ _ Hh) as Hh'.
    apply here_at in Hh as [E ?]. cbn [skip_ws length]. rewrite E, Hc, (proj2 (Z.ltb_lt _ _)) by done. cbn [andb].
    rewrite IH by (done || lia). lia.
Qed.

Lemma skip_word_here n w ps k : Forall word_char w -> here ps (w ++ k) ->
  match k with c :: _ => negb (is_ws c) && negb (is_sym c) = false | [] => True end -> (length w <= n)%nat ->
  skip_word s es n ps = ps + Z.of_nat (length w).
Proof.
  intros Hw. revert n ps. induction Hw as [|c w (H0 & H1 & H2) Hw IH]; intros n ps Hh Hk Hn.
  - destruct n; cbn [skip_word length]; [lia|]. destruct k as [|c k].
    + apply here_nil in Hh as [-> _]. rewrite Z.ltb_irrefl. cbn. lia.
    + apply here_at in Hh as [E ?]. rewrite E, <- andb_assoc, Hk, andb_false_r. lia.
  - destruct n as [|n]; cbn [length] in Hn; [lia|]. pose proof (here_cons _ _ _ Hh) as Hh'.
    apply here_at in Hh as [E ?]. cbn [skip_word length]. rewrite E, H1, H2, (proj2 (Z.ltb_lt _ _)) by done. cbn [negb andb].
    rewrite IH by (done || lia). lia.
Qed.

(** A token begins with a character that is neither NUL nor blank. *)
Definition tok_ok (t : list Z) : Prop := match t with c :: _ => c <> 0 /\ is_ws c = false | [] => False end.

(** The rest of the line is a text of [ts]; with [ready], the position is that
    of the first of them. *)
Definition at_toks (ps : Z) (ts : list (list Z)) : Prop :=
  Forall tok_ok ts /\ exists txt, here ps txt /\ spells ts txt.

Definition ready (ps : Z) (ts : list (list Z)) : Prop :=
  Forall tok_ok ts /\
  match ts with
  | [] => here ps []
  | t :: ts' => exists txt, here ps (t ++ txt) /\ apart t txt /\ spells ts' txt
  end.

Lemma ready_at ps ts : ready ps ts -> at_toks ps ts.
Proof.
  intros [Hok H]. split; [done|]. destruct ts as [|t ts].
  - exists []. split; [done|]. by apply spells_end, Forall_nil_2.
  - destruct H as (txt & Hh & Ha & Hs). exists ([] ++ t ++ txt). split; [done|].
    apply spells_tok; [apply Forall_nil_2|done..].
Qed.

Lemma skip_ready ps ts : at_toks ps ts -> ready (skip_ws s es (left_in es ps) ps) ts.
Proof.
  intros (Hok & txt & Hh & Hs). split; [done|]. rewrite (here_left _ _ Hh). destruct Hs as [b Hb|b t ts txt Hb Ha Hs].
  - rewrite <- (app_nil_r b) in Hh. rewrite (skip_ws_blanks b _ ps []) by (done || len). by apply here_app.
  - apply Forall_cons in Hok as [Ht _]. exists txt. split; [|done].
    rewrite (skip_ws_blanks b _ ps (t ++ txt)); [by apply here_app|done|done| |len].
    destruct t; [done|]. by destruct Ht.
Qed.

Lemma toks_left ps ts : at_toks ps ts -> (length ts <= left_in es ps)%nat.
Proof.
  intros (Hok & txt & Hh & Hs). rewrite (here_left _ _ Hh). clear Hh. revert Hok.
  induction Hs as [|b t ts txt Hb Ha Hs IH]; intros Hok; cbn [length]; [lia|].
  apply Forall_cons in Hok as [Ht Hok]. specialize (IH Hok). destruct t; [done|]. len.
Qed.

(** The position after a token. *)
Lemma after_ready ps t ts txt : Forall tok_ok ts -> here ps (t ++ txt) -> spells ts txt ->
  at_toks (skip_ws s es (left_in es (ps + Z.of_nat (length t))) (ps + Z.of_nat (length t))) ts.
Proof.
  intros Hok Hh Hs. apply ready_at, skip_ready. split; [done|]. exists txt. split; [by apply here_app|done].
Qed.

(** The first characters of the tokens. *)
Definition next (toks : list Z) (ts : list (list Z)) : bool :=
  match ts with t :: _ => existsb (Z.eqb (hd 0 t)) toks | [] => false end.

Lemma peek_runs toks ps ts : at_toks ps ts ->
  runs (peek s es toks) ps (fun b ps' => b = next toks ts /\ at_toks ps' ts).
Proof.
  intros H. pose proof (skip_ready _ _ H) as Hr. eexists _, _. split; [reflexivity|].
  split; [|by apply ready_at]. destruct Hr as [Hok Hr]. destruct ts as [|t ts].
  - by destruct (here_nil _ Hr) as [_ ->].
  - destruct Hr as (txt & Hh & _). apply Forall_cons in Hok as [Ht _]. destruct t as [|c t]; [done|].
    destruct (here_at _ _ _ Hh) as [-> _]. destruct Ht as [Hc _]. cbn [next hd].
    by rewrite (proj2 (Z.eqb_neq _ _)).
Qed.

Lemma gettoken_word w ps ts : word_ok w -> at_toks ps (w :: ts) ->
  runs (gettoken s es) ps (fun r ps' => exists q e, r = (chr "a", q, e) /\ at_toks ps' ts /\ subs (q, e) = w).
Proof.
  intros [Hne Hw] H. apply skip_ready in H as [Hok (txt & Hh & Ha & Hs)]. apply Forall_cons in Hok as [_ Hok].
  set (q := skip_ws s es (left_in es ps) ps) in *.
  destruct w as [|c w]; [done|]. pose proof Hw as ((Hc0 & Hc1 & Hc2) & _)%Forall_cons.
  eexists _, _. split; [|exists q, (q + Z.of_nat (length (c :: w))); split; [done|split; [by eapply after_ready|]]].
  - unfold gettoken. cbv zeta. fold q. destruct (here_at _ _ _ Hh) as [-> _]. pose proof Hc2 as (?&?&?&?&?&?&?)%is_sym_cases.
    rewrite !(proj2 (Z.eqb_neq _ _)) by done. cbn [orb].
    rewrite (skip_word_here _ (c :: w) q txt); [done|done|done| |rewrite (here_left _ _ Hh); len].
    unfold apart, joins in Ha. cbn [hd] in Ha. by rewrite Hc2 in Ha.
  - destruct Hh as (? & ? & E). unfold substr. cbn [fst snd]. rewrite E.
    replace (Z.to_nat _) with (length (c :: w)) by lia. by rewrite take_app_length.
Qed.

Lemma gettoken_sym c ps ts : c ∈ [chr "|"; 40; 41; chr ";"; chr "&"; chr "<"; chr ">"] ->
  at_toks ps ([c] :: ts) -> runs (gettoken s es) ps (fun r ps' => r.1.1 = c /\ at_toks ps' ts).
Proof.
  intros Hc H. apply skip_ready in H as [Hok (txt & Hh & Ha & Hs)]. apply Forall_cons in Hok as [_ Hok].
  set (q := skip_ws s es (left_in es ps) ps) in *.
  assert (Hgt : c = chr ">" -> (at_ (q + 1) =? chr ">") = false).
  { intros ->. pose proof (here_cons _ _ _ Hh) as Hh'. destruct txt as [|x txt].
    - by destruct (here_nil _ Hh') as [_ ->].
    - destruct (here_at _ _ _ Hh') as [-> _]. exact Ha. }
  exists (c, q, q + 1), (skip_ws s es (left_in es (q + 1)) (q + 1)).
  split; [|split; [done|by eapply (after_ready q [c])]].
  unfold gettoken. cbv zeta. fold q. apply here_at in Hh as [-> _].
  repeat (apply elem_of_cons in Hc as [->|Hc]; [try reflexivity|]); [|by apply elem_of_nil in Hc].
  by rewrite Hgt.
Qed.

Lemma gettoken_app ps ts : at_toks ps (cs ">>" :: ts) ->
  runs (gettoken s es) ps (fun r ps' => r.1.1 = chr "+" /\ at_toks ps' ts).
Proof.
  intros H. apply skip_ready in H as [Hok (txt & Hh & Ha & Hs)]. apply Forall_cons in Hok as [_ Hok].
  set (q := skip_ws s es (left_in es ps) ps) in *.
  exists (chr "+", q, q + 2), (skip_ws s es (left_in es (q + 2)) (q + 2)).
  split; [|split; [done|by eapply (after_ready q (cs ">>"))]].
  unfold gettoken. cbv zeta. fold q.
  pose proof (here_cons _ _ _ Hh) as [E1 _]%here_at. apply here_at in Hh as [-> _]. by rewrite E1.
Qed.

Lemma gettoken_end ps : at_toks ps [] -> runs (gettoken s es) ps (fun r ps' => r.1.1 = 0 /\ at_toks ps' []).
Proof.
  intros H. apply skip_ready in H as [_ Hh]. set (q := skip_ws s es (left_in es ps) ps) in *.
  exists (0, q, q), q. split; [|split; [done|]].
  - unfold gettoken. cbv zeta. fold q. destruct (here_nil _ Hh) as [_ E]. rewrite E. cbn. by rewrite (skip_ws_here _ _ [] Hh I).
  - apply ready_at. by split.
Qed.

(** The next token begins with a character of [F], or the line ends. *)
Definition follow (F : list Z) (ts : list (list Z)) : Prop := match ts with t :: _ => hd 0 t ∈ F | [] => True end.

Lemma follow_spec (P : Z -> bool) F ts : follow F ts -> forallb P F = true ->
  match ts with t :: _ => P (hd 0 t) = true | [] => True end.
Proof. destruct ts as [|t ts]; [done|]. cbn [follow]. intros Hc HF. by eapply forallb_forall in HF; [|apply list_elem_of_In]. Qed.

Lemma follow_next F toks ts : follow F ts -> forallb (fun c => negb (existsb (Z.eqb c) toks)) F = true ->
  next toks ts = false.
Proof.
  intros H HF. pose proof (follow_spec _ _ _ H HF) as E. destruct ts as [|t ts]; [done|]. by apply negb_true_iff in E.
Qed.

Lemma word_next w ts toks : word_ok w -> forallb is_sym toks = true -> next toks (w :: ts) = false.
Proof.
  intros [Hne Hw] Ht. destruct w as [|c w]; [done|]. apply Forall_cons in Hw as [(_ & _ & Hc) _].
  cbn [next hd]. apply not_true_is_false. intros (x & Hx & E)%existsb_exists.
  apply Z.eqb_eq in E as ->. eapply forallb_forall in Ht; [|done]. congruence.
Qed.

Lemma args_next toks args k : Forall (fun a => word_ok a.1 /\ gredirs_ok a.2) args -> forallb is_sym toks = true ->
  next toks k = false -> next toks (arg_toks args ++ k) = false.
Proof.
  destruct args as [|[w rs] args]; [done|]. intros [[Hw _] _]%Forall_cons Ht _. by apply word_next.
Qed.

(** The first token of a redirection. *)
Lemma gettoken_redir d ps ts : at_toks ps (rsym d :: ts) ->
  runs (gettoken s es) ps (fun r ps' => r.1.1 = match d with RIn => chr "<" | ROut => chr ">" | RApp => chr "+" end /\ at_toks ps' ts).
Proof. intros H. destruct d; [by apply gettoken_sym; [vm_compute; set_solver|]..|by apply gettoken_app]. Qed.

Lemma redirs_here rs k n ps : gredirs_ok rs -> next (cs "<>") k = false ->
  at_toks ps (redir_toks rs ++ k) -> (length (redir_toks rs ++ k) < n)%nat ->
  runs (redirs_loop s es n) ps (fun r ps' => at_toks ps' k /\ map (redir_map subs) r = den_redirs rs).
Proof.
  intros Hrs Hf. revert n ps. induction Hrs as [|[d w] rs Hw Hrs IH]; intros n ps Hh Hn;
    destruct n as [|n]; [lia| |lia|]; cbn [redirs_loop].
  - eapply runs_bind; [by apply peek_runs|]. intros b ps1 [-> Hh1]. cbn [redir_toks flat_map app] in *.
    rewrite Hf. cbn [negb]. by apply runs_ret.
  - cbn [redir_toks flat_map app fst snd] in Hh, Hn. fold (redir_toks rs) in Hh, Hn.
    eapply runs_bind; [by apply peek_runs|]. intros b ps1 [-> Hh1].
    replace (next _ _) with true by by destruct d. cbn [negb].
    eapply runs_bind; [by apply gettoken_redir|]. intros [[t q0] e0] ps2 [Et Hh2]. cbn [fst] in Et. subst t.
    eapply runs_bind; [by apply gettoken_word|]. intros r ps3 (q & e & -> & Hh3 & Ew).
    cbn [snd] in Ew. rewrite Z.eqb_refl. cbn [negb]. eapply runs_bind; [apply IH; [done|cbn [length] in Hn; lia]|].
    intros rs' ps4 [Hh4 Ers]. apply runs_ret. split; [done|].
    change (den_redirs ((d, w) :: rs)) with (den_redir (d, w) :: den_redirs rs). rewrite <- Ers, <- Ew. by destruct d.
Qed.

Lemma args_here args k n acc ps : Forall (fun a => word_ok a.1 /\ gredirs_ok a.2) args ->
  follow [124; 41; 38; 59] k -> (length acc + length args < MAXARGS)%nat ->
  at_toks ps (arg_toks args ++ k) -> (length (arg_toks args ++ k) < n)%nat ->
  runs (args_loop s es n acc) ps (fun r ps' => at_toks ps' k /\ map subs r.1 = map subs acc ++ map fst args /\
    map (redir_map subs) r.2 = flat_map (fun a => den_redirs a.2) args).
Proof.
  intros Ha Hf.
  revert n acc ps. induction Ha as [|[w rs] args [Hw Hrs] Ha IH]; intros n acc ps Hlen Hh Hn;
    destruct n as [|n]; [lia| |lia|]; cbn [args_loop].
  - eapply runs_bind; [by apply peek_runs|]. intros b ps1 [-> Hh1]. cbn [arg_toks flat_map app] in *.
    destruct k as [|t k].
    + cbn [next]. eapply runs_bind; [by apply gettoken_end|]. intros [[t q] e] ps2 [Et Hh2].
      cbn [fst] in Et. subst t. cbn [Z.eqb]. apply runs_ret. by rewrite app_nil_r.
    + replace (next _ _) with true; [by apply runs_ret; rewrite app_nil_r|]. symmetry.
      apply (follow_spec (fun c => next (cs "|)&;") [[c]]) _ _ Hf eq_refl).
  - cbn [arg_toks flat_map fst snd] in Hh, Hn. fold (arg_toks args) in Hh, Hn. cbn [app] in Hh, Hn.
    rewrite <- !app_assoc in Hh, Hn.
    eapply runs_bind; [by apply peek_runs|]. intros b ps1 [-> Hh1].
    cbn [fst snd] in *. rewrite word_next by done.
    eapply runs_bind; [by apply gettoken_word|]. intros r ps2 (q & e & -> & Hh2 & Ew).
    change (chr "a" =? 0) with false. rewrite Z.eqb_refl. cbn [negb length] in *.
    destruct (Nat.leb_spec MAXARGS (length (acc ++ [(q, e)]))); [len|].
    apply runs_get. eapply runs_bind.
    { apply (redirs_here rs (arg_toks args ++ k)); [done| |done|pose proof (toks_left _ _ Hh2); lia].
      apply args_next; [done..|]. by eapply follow_next. }
    intros rs' ps3 [Hh3 Ers]. eapply runs_bind; [apply (IH n); [len|done|len]|].
    intros [args' rs''] ps4 (Hh4 & Ea & Er). apply runs_ret. cbn [fst snd] in *.
    split; [done|]. split; [|by rewrite map_app, Ers, Er].
    rewrite Ea, map_app, <- app_assoc, <- Ew. done.
Qed.

Lemma back_here bg k n c ps : next (cs "&") k = false -> at_toks ps (bg_toks bg ++ k) ->
  (length (bg_toks bg ++ k) < n)%nat ->
  runs (back_loop s es n c) ps (fun c' ps' => at_toks ps' k /\ cmd_map subs c' = den_bg bg (cmd_map subs c)).
Proof.
  intros Hf. revert n c ps. induction bg as [|bg IH]; intros n c ps Hh Hn;
    destruct n as [|n]; [lia| |lia|]; cbn [back_loop].
  - eapply runs_bind; [by apply peek_runs|]. intros b ps1 [-> Hh1]. cbn [bg_toks replicate app] in *.
    rewrite Hf. by apply runs_ret.
  - cbn [bg_toks replicate app] in Hh, Hn. fold (bg_toks bg) in Hh, Hn.
    eapply runs_bind; [by apply peek_runs|]. intros b ps1 [-> Hh1]. replace (next _ _) with true by done.
    cbn [negb]. eapply runs_bind; [by apply (gettoken_sym (chr "&")); [vm_compute; set_solver|]|].
    intros r ps2 [_ Hh2]. eapply runs_mono; [apply IH; [done|cbn [length] in Hn; lia]|].
    intros c' ps3 [Hh3 E]. split; [done|]. rewrite E. unfold den_bg. cbn [cmd_map]. symmetry. by rewrite <- Nat.iter_succ_r.
Qed.

(** The stages of a pipeline are followed by a bar, an ampersand, a semicolon, a
    closing parenthesis or the end; a pipeline by the last four; a line by the last
    two. *)
Definition after_exec : list Z := [124; 38; 59; 41].
Definition after_pipe : list Z := [38; 59; 41].
Definition after_line : list Z := [41].

Lemma follow_lit G t k : existsb (Z.eqb (hd 0 t)) G = true -> follow G (t :: k).
Proof. intros (x & Hx & E%Z.eqb_eq)%existsb_exists. cbn [follow]. rewrite E. by apply list_elem_of_In. Qed.

Lemma follow_mono F G k : follow F k -> forallb (fun c => existsb (Z.eqb c) G) F = true -> follow G k.
Proof.
  intros H HF. pose proof (follow_spec _ _ _ H HF). destruct k; [done|]. by apply follow_lit.
Qed.

Ltac fol := first [apply follow_lit; reflexivity | eapply follow_mono; [eassumption|reflexivity]].

(** What the parser of a level does with a text of the tokens of a phrase. *)
Definition reads (m : nat -> M Z (cmd token)) (lvl : nat) (F : list Z) (ts : list (list Z)) (c : cmd (list Z)) : Prop :=
  forall n ps k, at_toks ps (ts ++ k) -> follow F k -> (4 * length (ts ++ k) + lvl < n)%nat ->
    runs (m n) ps (fun c' ps' => at_toks ps' k /\ cmd_map subs c' = c).

Lemma reads_simple rs args : exec_ok (GSimple rs args) ->
  reads (parseexec s es) 1 after_exec (exec_toks (GSimple rs args)) (den_exec (GSimple rs args)).
Proof.
  intros (Hrs & Ha & Hlen) [|n] ps k Hh Hf Hn; [lia|]. cbn [exec_toks den_exec parseexec] in *.
  rewrite <- app_assoc in Hh, Hn.
  eapply runs_bind; [by apply peek_runs|]. intros b ps1 [-> Hh1].
  replace (next [40] _) with false.
  2: { symmetry. destruct rs as [|[[] w] rs]; [|done..]. apply args_next; [done..|]. by eapply follow_next. }
  apply runs_get. eapply runs_bind.
  { apply (redirs_here rs (arg_toks args ++ k)); [done| |done|pose proof (toks_left _ _ Hh1); lia].
    apply args_next; [done..|]. by eapply follow_next. }
  intros rs1 ps2 [Hh2 Ers]. apply runs_get. eapply runs_bind.
  { apply (args_here args k); [done| |done|done|pose proof (toks_left _ _ Hh2); lia].
    fol. }
  intros [args' rs2] ps3 (Hh3 & Ea & Er). apply runs_ret. cbn [fst snd] in *. split; [done|].
  rewrite cmd_map_wrap, map_app, Ers, Er. cbn [cmd_map]. by rewrite Ea.
Qed.

Lemma reads_block l rs : gredirs_ok rs ->
  reads (parseline s es) 3 after_line (line_toks l) (den_line l) ->
  reads (parseexec s es) 1 after_exec (exec_toks (GBlock l rs)) (den_exec (GBlock l rs)).
Proof.
  intros Hrs IH [|[|n]] ps k Hh Hf Hn; [lia|lia|]. cbn [exec_toks den_exec parseexec parseblock] in *.
  rewrite <- !app_assoc in Hh, Hn. cbn [app] in Hh, Hn.
  eapply runs_bind; [by apply peek_runs|]. intros b ps1 [-> Hh1]. replace (next _ _) with true by done.
  eapply runs_bind; [by apply peek_runs|]. intros b ps2 [-> Hh2]. replace (next _ _) with true by done. cbn [negb].
  eapply runs_bind; [by apply (gettoken_sym 40); [vm_compute; set_solver|]|]. intros r ps3 [_ Hh3].
  eapply runs_bind; [apply IH; [done| |cbn [length] in Hn; lia]; fol|]. intros c ps4 [Hh4 Ec].
  eapply runs_bind; [by apply peek_runs|]. intros b ps5 [-> Hh5]. replace (next _ _) with true by done. cbn [negb].
  eapply runs_bind; [by apply (gettoken_sym 41); [vm_compute; set_solver|]|]. intros r' ps6 [_ Hh6].
  unfold parseredirs. apply runs_get. eapply runs_bind.
  { apply (redirs_here rs k); [done| |done|pose proof (toks_left _ _ Hh6); lia]. by eapply follow_next. }
  intros rs' ps7 [Hh7 Er]. apply runs_ret. split; [done|]. by rewrite cmd_map_wrap, Er, Ec.
Qed.

Lemma reads_stage e : reads (parseexec s es) 1 after_exec (exec_toks e) (den_exec e) ->
  reads (parsepipe s es) 2 after_pipe (pipe_toks (GStage e)) (den_pipe (GStage e)).
Proof.
  intros IH [|n] ps k Hh Hf Hn; [lia|]. cbn [pipe_toks den_pipe parsepipe] in *.
  eapply runs_bind; [apply IH; [done| |lia]; fol|]. intros c ps1 [Hh1 Ec].
  eapply runs_bind; [by apply peek_runs|]. intros b ps2 [-> Hh2].
  rewrite (follow_next _ _ _ Hf) by done. by apply runs_ret.
Qed.

Lemma reads_pipe e p : reads (parseexec s es) 1 after_exec (exec_toks e) (den_exec e) ->
  reads (parsepipe s es) 2 after_pipe (pipe_toks p) (den_pipe p) ->
  reads (parsepipe s es) 2 after_pipe (pipe_toks (GPipe e p)) (den_pipe (GPipe e p)).
Proof.
  intros IHe IHp [|n] ps k Hh Hf Hn; [lia|]. cbn [pipe_toks den_pipe parsepipe] in *.
  rewrite <- !app_assoc in Hh, Hn. cbn [app] in Hh, Hn.
  eapply runs_bind; [apply IHe; [done| |lia]; fol|]. intros c ps1 [Hh1 Ec].
  eapply runs_bind; [by apply peek_runs|]. intros b ps2 [-> Hh2]. replace (next _ _) with true by done. cbn [negb].
  eapply runs_bind; [by apply (gettoken_sym (chr "|")); [vm_compute; set_solver|]|]. intros r ps3 [_ Hh3].
  eapply runs_bind; [apply IHp; [done|done|len]|]. intros c' ps4 [Hh4 Ec'].
  apply runs_ret. split; [done|]. cbn [cmd_map]. by rewrite Ec, Ec'.
Qed.

Lemma reads_line p bg : reads (parsepipe s es) 2 after_pipe (pipe_toks p) (den_pipe p) ->
  reads (parseline s es) 3 after_line (line_toks (GLine p bg)) (den_line (GLine p bg)).
Proof.
  intros IH [|n] ps k Hh Hf Hn; [lia|]. cbn [line_toks den_line parseline] in *.
  rewrite <- !app_assoc in Hh, Hn.
  eapply runs_bind; [apply IH; [done| |lia]; destruct bg; fol|]. intros c ps1 [Hh1 Ec].
  apply runs_get. eapply runs_bind.
  { apply (back_here bg k); [|done|pose proof (toks_left _ _ Hh1); lia]. by eapply follow_next. }
  intros c' ps2 [Hh2 Ec']. eapply runs_bind; [by apply peek_runs|]. intros b ps3 [-> Hh3].
  rewrite (follow_next _ _ _ Hf) by done. apply runs_ret. split; [done|]. by rewrite Ec', Ec.
Qed.

Lemma reads_seq p bg l : reads (parsepipe s es) 2 after_pipe (pipe_toks p) (den_pipe p) ->
  reads (parseline s es) 3 after_line (line_toks l) (den_line l) ->
  reads (parseline s es) 3 after_line (line_toks (GSeq p bg l)) (den_line (GSeq p bg l)).
Proof.
  intros IHp IHl [|n] ps k Hh Hf Hn; [lia|]. cbn [line_toks den_line parseline] in *.
  rewrite <- !app_assoc in Hh, Hn. cbn [app] in Hh, Hn.
  eapply runs_bind; [apply IHp; [done| |lia]; destruct bg; fol|]. intros c ps1 [Hh1 Ec].
  apply runs_get. eapply runs_bind.
  { apply (back_here bg (cs ";" :: line_toks l ++ k)); [done..|pose proof (toks_left _ _ Hh1); lia]. }
  intros c' ps2 [Hh2 Ec']. eapply runs_bind; [by apply peek_runs|]. intros b ps3 [-> Hh3].
  replace (next _ _) with true by done. cbn [negb].
  eapply runs_bind; [by apply (gettoken_sym (chr ";")); [vm_compute; set_solver|]|]. intros r ps4 [_ Hh4].
  eapply runs_bind; [apply IHl; [done|done|len]|]. intros c2 ps5 [Hh5 Ec2].
  apply runs_ret. split; [done|]. cbn [cmd_map]. by rewrite Ec', Ec, Ec2.
Qed.

Lemma parseline_reads l : line_ok l -> reads (parseline s es) 3 after_line (line_toks l) (den_line l).
Proof.
  revert l. apply (gline_mut
    (fun l => line_ok l -> reads (parseline s es) 3 after_line (line_toks l) (den_line l))
    (fun p => pipe_ok p -> reads (parsepipe s es) 2 after_pipe (pipe_toks p) (den_pipe p))
    (fun e => exec_ok e -> reads (parseexec s es) 1 after_exec (exec_toks e) (den_exec e))).
  - intros p IH bg Hp. apply reads_line; auto.
  - intros p IH bg l IHl [Hp Hl]. apply reads_seq; auto.
  - intros e IH He. apply reads_stage; auto.
  - intros e IHe p IHp [He Hp]. apply reads_pipe; auto.
  - intros rs args H. by apply reads_simple.
  - intros l IH rs [Hl Hr]. apply reads_block; auto.
Qed.

End RoundTrip.

(** No character of a token is NUL, and its first is not blank. *)
Definition tok_chars (t : list Z) : Prop := tok_ok t /\ Forall (fun c => c <> 0) t.

Lemma word_chars w : word_ok w -> tok_chars w.
Proof.
  intros [Hne Hw]. split; [|eapply Forall_impl; [done|]; by intros c [? _]].
  destruct w as [|c w]; [done|]. apply Forall_cons in Hw as [(? & ? & _) _]. done.
Qed.

Lemma sym_chars t : bool_decide (t <> [] /\ Forall (fun c => is_sym c = true) t) = true -> tok_chars t.
Proof.
  intros [Hne Ht]%bool_decide_eq_true_1.
  assert (forall c, is_sym c = true -> c <> 0 /\ is_ws c = false) as Hs.
  { intros c (x & Hx & ->%Z.eqb_eq)%existsb_exists. revert x Hx. apply List.Forall_forall. by repeat constructor. }
  split; [|eapply Forall_impl; [done|]; intros c Hc; apply (Hs c Hc)].
  destruct t as [|c t]; [done|]. apply Forall_cons in Ht as [Hc _]. by apply Hs.
Qed.

Lemma redirs_chars rs : gredirs_ok rs -> Forall tok_chars (redir_toks rs).
Proof.
  induction 1 as [|[d w] rs Hw Hrs IH]; cbn [redir_toks flat_map app fst snd]; [constructor|].
  constructor; [by apply sym_chars; destruct d|]. by constructor; [apply word_chars|].
Qed.

Lemma line_chars l : line_ok l -> Forall tok_chars (line_toks l).
Proof.
  assert (Hbg : forall bg, Forall tok_chars (bg_toks bg)) by (intros bg; by apply Forall_replicate, sym_chars).
  revert l. apply (gline_mut
    (fun l => line_ok l -> Forall tok_chars (line_toks l))
    (fun p => pipe_ok p -> Forall tok_chars (pipe_toks p))
    (fun e => exec_ok e -> Forall tok_chars (exec_toks e)));
    cbn [line_ok pipe_ok exec_ok line_toks pipe_toks exec_toks]; intros; rewrite ?Forall_app, ?Forall_singleton.
  - auto.
  - split_and!; [tauto|auto|by apply sym_chars|tauto].
  - auto.
  - split_and!; [tauto|by apply sym_chars|tauto].
  - destruct H as (Hrs & Ha & _). split; [by apply redirs_chars|].
    induction Ha as [|[w rs'] args [Hw Hr] Ha IHa]; cbn [arg_toks flat_map fst snd app]; [constructor|].
    constructor; [by apply word_chars|]. apply Forall_app. split; [by apply redirs_chars|done].
  - split_and!; [by apply sym_chars|tauto|by apply sym_chars|apply redirs_chars; tauto].
Qed.

Lemma spells_nonzero ts txt : Forall tok_chars ts -> spells ts txt -> Forall (fun c => c <> 0) txt.
Proof.
  assert (Hb : forall b, blanks b -> Forall (fun c => c <> 0) b).
  { intros b H. eapply Forall_impl; [exact H|]. intros c Hc ->. discriminate Hc. }
  intros Hts Hs. induction Hs as [|b t ts txt Hbl Ha Hs IH]; [auto|].
  apply Forall_cons in Hts as [[_ Ht] Hts]. rewrite !Forall_app. auto.
Qed.

Lemma parsecmd_reads l s : line_ok l -> spells (line_toks l) s -> exists c line,
  parsecmd s = Some (inr (c, line)) /\ cmd_map (fun t => str_of line t.1) c = den_line l.
Proof.
  intros Hl Hsp. set (es := Z.of_nat (length s)). pose proof (line_chars l Hl) as Hch.
  assert (Hs : Forall (fun c => c <> 0) s) by by eapply spells_nonzero.
  assert (runs (c ← parseline s es (parse_fuel s); peek s es [] ;; mret c) 0
    (fun c ps => here s ps [] /\ cmd_map (substr s) c = den_line l)) as (c & ps & E & Hh & Ec).
  { assert (at_toks s 0 (line_toks l ++ [])) as H0.
    { rewrite app_nil_r. split; [eapply Forall_impl; [exact Hch|]; by intros t [? _]|].
      exists s. split; [|done]. split; [lia|]. by split. }
    eapply runs_bind; [apply (parseline_reads s l Hl _ 0 []); [done|done|]|].
    - pose proof (toks_left _ _ _ H0). unfold left_in, parse_fuel in *. lia.
    - intros c ps [Hh Ec]. pose proof (skip_ready _ _ _ Hh) as [_ Hr].
      eexists _, _. split; [reflexivity|]. split; [exact Hr|done]. }
  pose proof (parsecmd_total s Hs) as Ht. revert Ht. unfold parsecmd. fold es. rewrite E.
  destruct (here_nil _ _ Hh) as [-> _]. fold es. rewrite Z.eqb_refl. cbn [negb]. intros [Hc _].
  eexists _, _. split; [done|]. rewrite <- Ec. apply cmd_map_ext. intros t Ht. by apply nulterminate_str.
Qed.

(** ** Descriptors *)

(** What a descriptor refers to; a pipe is named after the point of the run that
    makes it. *)
Inductive obj := OFile (name : list Z) (mode : Z) | ORead (p : list bool) | OWrite (p : list bool) | OTerm (n : nat).

Notation fdtab := (gmap Z obj).

Definition NOFILE : nat := 16.

(** [fdalloc]: the lowest free descriptor. *)
Definition fdalloc (t : fdtab) : option Z :=
  head (filter (fun i => t !! i = None) (map Z.of_nat (seq 0 NOFILE))).

(** The programs that a process and its children come to run, with their
    descriptors, when forks, pipes and opens succeed and the executable files are
    [runnable]. *)
Section Jobs.
Context (runnable : list Z -> bool).

Fixpoint jobs (p : proc) (t : fdtab) (id : list bool) : list (list Z * list (list Z) * fdtab) :=
  match p with
  | Exit => []
  | Printf _ _ k => jobs k t id
  | Exec path argv k => if runnable path then [(path, argv, t)] else jobs k t id
  | Close fd k => jobs k (delete fd t) id
  | Open file mode failed opened =>
      match fdalloc t with
      | Some fd => jobs opened (<[fd := OFile file mode]> t) id
      | None => jobs failed t id
      end
  | Dup fd k =>
      match t !! fd, fdalloc t with
      | Some o, Some fd' => jobs k (<[fd' := o]> t) id
      | _, _ => jobs k t id
      end
  | Pipe failed k =>
      match fdalloc t with
      | Some p0 =>
          let t0 := <[p0 := ORead id]> t in
          match fdalloc t0 with
          | Some p1 => jobs (k p0 p1) (<[p1 := OWrite id]> t0) (false :: id)
          | None => jobs failed t id
          end
      | None => jobs failed t id
      end
  | Fork failed child parent => jobs child t (true :: id) ++ jobs parent t (false :: id)
  | Wait k => jobs k t id
  end.

(** The same with the strings of the command for its positions. *)
Fixpoint runwords (hello_path : list Z) (c : cmd (list Z)) : proc :=
  match c with
  | EXEC [] => Exit
  | EXEC ((cmd :: _) as args) =>
      try_exec hello_path cmd args (Printf 2 (uprintf (cs "hello: exec %s failed" ++ [10]) [AStr (Some cmd)]) Exit)
  | REDIR c file mode fd =>
      Close fd (Open file mode (Printf 2 (uprintf (cs "open %s failed" ++ [10]) [AStr (Some file)]) Exit)
        (runwords hello_path c))
  | LIST l r => fork1 (runwords hello_path l) (Wait (runwords hello_path r))
  | PIPE l r =>
      Pipe (panicp (cs "pipe")) (fun p0 p1 =>
        fork1 (Close 1 (Dup p1 (Close p0 (Close p1 (runwords hello_path l)))))
          (fork1 (Close 0 (Dup p0 (Close p0 (Close p1 (runwords hello_path r)))))
            (Close p0 (Close p1 (Wait (Wait Exit))))))
  | BACK c => fork1 (runwords hello_path c) Exit
  end.

Lemma jobs_words hp line c : forall t id,
  jobs (runcmd hp line c) t id = jobs (runwords hp (cmd_map (fun a => str_of line a.1) c)) t id.
Proof.
  induction c as [argv|c IH f m fd|l IHl r IHr|l IHl r IHr|c IH]; intros t id; cbn [runcmd runwords cmd_map].
  - by destruct argv.
  - cbn [jobs]. destruct (fdalloc _); [apply IH|done].
  - cbn [jobs]. destruct (fdalloc t) as [p0|]; [|done]. destruct (fdalloc _) as [p1|]; [|done].
    cbn [fork1 jobs]. f_equal; [|f_equal]; repeat case_match; auto.
  - cbn [fork1 jobs]. by rewrite IHl, IHr.
  - cbn [fork1 jobs]. by rewrite IH.
Qed.

(** The standard descriptors of a process of the pipeline. *)
Definition std (i o e : obj) : fdtab := <[0 := i]> (<[1 := o]> {[2 := e]}).

(** Redirections: of two for the same descriptor the one written first holds. *)
Definition redirected (rs : list gredir) (t : fdtab) : fdtab :=
  foldr (fun r t => <[(den_redir r).2 := OFile r.2 (den_redir r).1.2]> t) t rs.

(** A simple stage: its program, words and redirections. *)
Record stage := mkstage { words : list (list Z); redirections : list gredir }.

Definition program (hp : list Z) (words : list (list Z)) : option (list Z) :=
  head (filter (fun p => runnable p = true) (candidates hp (default [] (head words)))).

Definition job (hp : list Z) (st : stage) (t : fdtab) : list (list Z * list (list Z) * fdtab) :=
  match words st, program hp (words st) with
  | _ :: _, Some path => [(path, words st, redirected (redirections st) t)]
  | _, _ => []
  end.

(** Stage by stage: the standard input of a stage is the pipe of the one before. *)
Fixpoint wired (hp : list Z) (sts : list stage) (i o e : obj) (id : list bool) : list (list Z * list (list Z) * fdtab) :=
  match sts with
  | [] => []
  | [st] => job hp st (std i o e)
  | st :: sts' => job hp st (std i (OWrite id) e) ++ wired hp sts' (ORead id) o e (true :: false :: false :: id)
  end.

Fixpoint stages (p : gpipe) : option (list stage) :=
  let one e := match e with
    | GSimple rs args => Some (mkstage (map fst args) (rs ++ flat_map snd args))
    | GBlock _ _ => None
    end in
  match p with
  | GStage e => st ← one e; Some [st]
  | GPipe e p => st ← one e; sts ← stages p; Some (st :: sts)
  end.

Lemma jobs_try_exec hp cmd args k t id :
  jobs (try_exec hp cmd args k) t id =
  match head (filter (fun p => runnable p = true) (candidates hp cmd)) with
  | Some path => [(path, args, t)]
  | None => jobs k t id
  end.
Proof.
  unfold try_exec. induction (candidates hp cmd) as [|path ps IH]; cbn [foldr]; [done|].
  cbn [jobs]. rewrite filter_cons. by destruct (runnable path); cbn.
Qed.

Lemma jobs_simple hp ws rs i o e id :
  jobs (runwords hp (wrap (EXEC ws) (den_redirs rs))) (std i o e) id = job hp (mkstage ws rs) (std i o e).
Proof.
  revert i o. induction rs as [|[d f] rs IH] using rev_ind; intros i o.
  - destruct ws as [|w ws]; [done|]. cbn [den_redirs map wrap foldl runwords].
    by rewrite jobs_try_exec.
  - unfold den_redirs. rewrite map_app. unfold wrap. rewrite foldl_app. cbn [map foldl].
    fold (wrap (EXEC ws) (map den_redir rs)). fold (den_redirs rs).
    unfold job. cbn [words redirections]. unfold redirected. rewrite foldr_app. cbn [foldr].
    fold (redirected rs).
    assert (exists i' o', <[(den_redir (d, f)).2 := OFile f (den_redir (d, f)).1.2]> (std i o e) = std i' o' e /\
      fdalloc (delete (den_redir (d, f)).2 (std i o e)) = Some (den_redir (d, f)).2) as (i' & o' & E & Ea).
    { destruct d; [exists (OFile f O_RDONLY), o|exists i, (OFile f O_WRONLY_CREATE)..]; by split. }
    cbn [runwords jobs snd fst]. rewrite Ea, insert_delete_eq.
    replace (den_redir (d, f)).1.1 with f by by destruct d. rewrite E. apply IH.
Qed.

Lemma jobs_pipe hp l r i o e id :
  jobs (runwords hp (PIPE l r)) (std i o e) id =
  jobs (runwords hp l) (std i (OWrite id) e) (true :: false :: id) ++
  jobs (runwords hp r) (std (ORead id) o e) (true :: false :: false :: id).
Proof.
  cbn [runwords fork1 jobs].
  assert (fdalloc (std i o e) = Some 3) as -> by reflexivity.
  assert (fdalloc (<[3 := ORead id]> (std i o e)) = Some 4) as -> by reflexivity.
  cbn [jobs fork1]. rewrite app_nil_r. f_equal; reflexivity.
Qed.

Lemma jobs_wired hp p : forall sts i o e id, stages p = Some sts ->
  jobs (runwords hp (den_pipe p)) (std i o e) id = wired hp sts i o e id.
Proof.
  assert (Hd : forall rs (args : list (list Z * list gredir)),
    den_redirs rs ++ flat_map (fun a => den_redirs a.2) args = den_redirs (rs ++ flat_map snd args)).
  { intros rs args. unfold den_redirs. rewrite map_app. f_equal.
    induction args as [|a args IH]; cbn; [done|]. by rewrite map_app, IH. }
  induction p as [[rs args|]|[rs args|] p IH]; intros sts i o e id; cbn [stages mbind option_bind]; try done.
  - intros [= <-]. cbn [den_pipe den_exec]. rewrite Hd. apply jobs_simple.
  - destruct (stages p) as [sts'|] eqn:Es; [|done]. intros [= <-].
    cbn [den_pipe den_exec]. rewrite Hd, jobs_pipe, jobs_simple, (IH sts') by done.
    destruct sts' as [|st sts']; [|done]. exfalso. clear IH. destruct p as [[]|[]]; cbn in Es; try done.
    by destruct (stages p).
Qed.

End Jobs.

(** ** The search path and the built-in commands *)

Lemma segments_spec path : exists seg segs, segments path = seg :: segs /\
  Forall (fun x => chr ":" ∉ x) (seg :: segs) /\ path = seg ++ flat_map (fun x => chr ":" :: x) segs.
Proof.
  induction path as [|c path (seg & segs & E & Hall & Hp)]; cbn [segments].
  { exists [], []. split; [done|]. split; [|done]. repeat constructor. apply not_elem_of_nil. }
  destruct (Z.eqb_spec c (chr ":")) as [->|Hc].
  - exists [], (segments path). rewrite E. split; [done|]. split; [constructor; [apply not_elem_of_nil|done]|].
    cbn [app flat_map]. by rewrite Hp at 1.
  - rewrite E. exists (c :: seg), segs. split; [done|]. apply Forall_cons in Hall as [Hseg Hsegs].
    split; [|by rewrite Hp at 1]. constructor; [|done]. by apply not_elem_of_cons.
Qed.

(** A directory of the search path and a command. *)
Definition join (seg cmd : list Z) : list Z :=
  match last seg with
  | None => cmd
  | Some c => if c =? chr "/" then seg ++ cmd else seg ++ [chr "/"] ++ cmd
  end.

Lemma append_exec_path_join seg cmd : cmd <> [] -> (length seg + 1 + length cmd < 128)%nat -> append_exec_path 128 seg cmd = join seg cmd.
Proof.
  intros Hcmd Hlen. assert (Hc : (0 < length cmd)%nat) by (destruct cmd; [done|cbn; lia]).
  unfold append_exec_path, hello_copy, join. destruct seg as [|c0 seg0] eqn:Eseg.
  { cbn [length last] in *. apply take_ge. lia. }
  rewrite <- Eseg in *. assert (Hne : (0 < length seg)%nat) by (subst; cbn; lia). clear Eseg c0 seg0.
  assert (E : (Z.of_nat (length seg) >=? 128) = false) by lia. rewrite E.
  rewrite Nat2Z.id, take_ge by lia.
  destruct (last seg) as [c|] eqn:El; [|apply last_None in El; subst; cbn in Hne; lia].
  assert (aget 0 seg (Z.of_nat (length seg) - 1) = c) as ->.
  { unfold aget. destruct (Z.ltb_spec (Z.of_nat (length seg) - 1) 0); [lia|].
    rewrite last_lookup in El. replace (Z.to_nat _) with (pred (length seg)) by lia. by rewrite El. }
  rewrite (proj2 (Z.gtb_lt _ _)) by lia. rewrite (proj2 (Z.ltb_lt (Z.of_nat (length seg)) (128 - 1))) by lia. cbn [andb].
  destruct (c =? chr "/"); cbn [negb andb].
  - rewrite (proj2 (Z.ltb_lt _ _)) by lia. f_equal. apply take_ge. lia.
  - assert (length (seg ++ [chr "/"]) = S (length seg)) as -> by (rewrite length_app; cbn; lia).
    rewrite (proj2 (Z.ltb_lt _ _)) by lia. rewrite <- app_assoc. do 2 f_equal. apply take_ge. lia.
Qed.

Lemma trim_newline_app v : Forall (fun c => is_ws c = false) v -> trim_newline (v ++ [10]) = v.
Proof.
  induction 1 as [|c v Hc Hv IH]; cbn [trim_newline app]; [done|]. rewrite IH.
  destruct (Z.eqb_spec c 10) as [->|]; [done|]. by destruct (Z.eqb_spec c 13) as [->|].
Qed.

Lemma skipws_word v : Forall (fun c => is_ws c = false) v -> skipws v = v.
Proof.
  destruct 1 as [|c v Hc Hv]; cbn [skipws]; [done|].
  destruct (Z.eqb_spec c 32) as [->|]; [done|]. destruct (Z.eqb_spec c 9) as [->|]; [done|].
  destruct (Z.eqb_spec c 13) as [->|]; [done|]. by destruct (Z.eqb_spec c 10) as [->|].
Qed.

Lemma path_set_sets chdir v st : Forall (fun c => is_ws c = false) v -> v <> [] -> (length v < 128)%nat ->
  exists st', handle_builtin chdir (cs "path set " ++ v ++ [10]) st = Ok (true, cs "path set " ++ v) st' /\
    hello_path st' = v.
Proof.
  intros Hv Hne Hlen.
  assert (Et : trim_newline (cs "path set " ++ v ++ [10]) = cs "path set " ++ v).
  { cbn. by rewrite trim_newline_app. }
  assert (Es : skipws (drop 4 (cs "path set " ++ v)) = cs "set " ++ v) by done.
  assert (Ev : skipws (drop 3 (cs "set " ++ v)) = v) by (cbn [cs app]; exact (skipws_word v Hv)).
  unfold handle_builtin. rewrite Et. change (skipws (cs "path set " ++ v)) with (cs "path set " ++ v).
  assert (Em : match v with [] => cs "bin" | _ => v end = v) by by destruct v.
  cbn zeta. rewrite Es. eexists. split.
  - transitivity ((hello_set_path (skipws (drop 3 (cs "set " ++ v))) ;; mret (true, cs "path set " ++ v)) st);
      [reflexivity|]. rewrite Ev. unfold hello_set_path. rewrite Em. reflexivity.
  - cbn [hello_path put1 set_path]. apply take_ge. unfold HELLO_MAXPATH. lia.
Qed.

(** ** The properties *)

(** C20.  The parser returns on every line of non-NUL bytes: with an error message,
    or with a command of fewer than MAXARGS words per program, all of whose strings
    are words of the line.  [nulterminate] then stores inside the line's buffer
    and makes each of them a C string, whatever the other strings are. *)
Theorem hello_parse_total line :
  Forall (fun c => c <> 0) line ->
  match parsecmd line with
  | None => False
  | Some (inl _) => True
  | Some (inr (c, line')) =>
      cmd_ok line c /\ length line' = S (length line) /\
      Forall (fun t => str_of line' t.1 = substr line t) (tokens c)
  end.
Proof.
  intros Hs. pose proof (parsecmd_total line Hs) as H. destruct (parsecmd line) as [[|[c line']]|]; [done| |done].
  destruct H as [Hc ->]. split; [done|]. split; [unfold nulterminate; rewrite zeros_length; len|].
  apply Forall_forall. intros t Ht. by apply nulterminate_str.
Qed.

Lemma hello_parse_total_witness :
  match parsecmd (cs "cat<in|wc -l>>out&") with
  | None => False
  | Some (inl _) => True
  | Some (inr (c, line')) =>
      cmd_ok (cs "cat<in|wc -l>>out&") c /\ length line' = S (length (cs "cat<in|wc -l>>out&")) /\
      Forall (fun t => str_of line' t.1 = substr (cs "cat<in|wc -l>>out&") t) (tokens c)
  end.
Proof.
  apply (hello_parse_total (cs "cat<in|wc -l>>out&")). apply (bool_decide_unpack _). vm_compute. exact I.
Defined.

(** C21.  The parser reads back every line of the grammar, however it is spaced:
    pipelines of commands and blocks, with redirections anywhere, in the background
    or in sequence, give the command that [den_line] says, its strings those of the
    text.  The words hold no blanks, symbols or NULs, and a command has fewer than
    MAXARGS of them.  Blanks may stand anywhere, and must only between two words
    and after a [>] that another follows.  The command of [>>] is that of [>]: the
    code has no redirection that appends. *)
Theorem hello_parse_roundtrip l text :
  line_ok l -> spells (line_toks l) text -> exists c line,
    parsecmd text = Some (inr (c, line)) /\ cmd_map (fun t => str_of line t.1) c = den_line l.
Proof. apply parsecmd_reads. Qed.

(** [ls -l>f|( wc&);echo hi], with two spaces before [hi]. *)
Definition sample : gline :=
  GSeq (GPipe (GSimple [] [(cs "ls", []); (cs "-l", [(ROut, cs "f")])])
         (GStage (GBlock (GLine (GStage (GSimple [] [(cs "wc", [])])) 1) []))) 0
    (GLine (GStage (GSimple [] [(cs "echo", []); (cs "hi", [])])) 0).

Lemma word_ok_cs w : bool_decide (w <> [] /\ Forall (fun c => c <> 0 /\ is_ws c = false /\ is_sym c = false) w) = true ->
  word_ok w.
Proof. intros H. by apply bool_decide_eq_true_1 in H. Qed.

(** A text given by the blanks before each token and at the end. *)
Fixpoint layout (ts : list (list Z)) (gaps : list (list Z)) : list Z :=
  match ts, gaps with
  | t :: ts', g :: gaps' => g ++ t ++ layout ts' gaps'
  | _, _ => hd [] gaps
  end.

Fixpoint spaced (ts : list (list Z)) (gaps : list (list Z)) : bool :=
  match ts, gaps with
  | t :: ts', g :: gaps' =>
      forallb is_ws g && match layout ts' gaps' with c :: _ => negb (joins t c) | [] => true end && spaced ts' gaps'
  | [], [g] => forallb is_ws g
  | _, _ => false
  end.

Lemma layout_spells ts : forall gaps, spaced ts gaps = true -> spells ts (layout ts gaps).
Proof.
  assert (Hb : forall b, forallb is_ws b = true -> blanks b).
  { intros b H. apply Forall_forall. intros c Hc. rewrite forallb_forall in H. by apply H, list_elem_of_In. }
  induction ts as [|t ts IH]; intros [|g gaps] H; cbn [spaced layout] in *; try done.
  - destruct gaps; [|done]. constructor. auto.
  - apply andb_true_iff in H as [[Hg Hj]%andb_true_iff Hs]. constructor; [auto| |auto].
    unfold apart. destruct (layout ts gaps); [done|]. by apply negb_true_iff.
Qed.

Lemma hello_parse_roundtrip_witness :
  exists c line, parsecmd (cs "ls -l>f|( wc&);echo  hi") = Some (inr (c, line)) /\
    cmd_map (fun t => str_of line t.1) c =
    LIST (PIPE (REDIR (EXEC [cs "ls"; cs "-l"]) (cs "f") O_WRONLY_CREATE 1) (BACK (EXEC [cs "wc"])))
      (EXEC [cs "echo"; cs "hi"]).
Proof.
  apply (hello_parse_roundtrip sample).
  - cbn [sample line_ok pipe_ok exec_ok gredirs_ok].
    split_and!; repeat (constructor; cbn [fst snd]); try (cbn; lia); by apply word_ok_cs.
  - by apply (layout_spells (line_toks sample) [[]; [32]; []; []; []; []; [32]; []; []; []; []; [32; 32]; []]).
Defined.

(** C22.  A pipeline of commands is wired as it is written, however it is spaced.
    Each program runs with its words, found along the search path; its standard
    input is the pipe from the stage before and its standard output the pipe to
    the next, unless redirected; and it has no other descriptor, so that no copy of
    a pipe's write end keeps a reader from the end of its input. *)
Theorem hello_pipeline runnable hp p text sts i o e :
  pipe_ok p -> spells (pipe_toks p) text -> stages p = Some sts -> exists pr,
    child hp text = Some pr /\ jobs runnable pr (std i o e) [] = wired runnable hp sts i o e [].
Proof.
  intros Hp Hsp Hst. destruct (parsecmd_reads (GLine p 0) text Hp) as (c & line & E & Ec).
  { cbn [line_toks bg_toks replicate]. by rewrite app_nil_r. }
  unfold child. rewrite E.
  eexists. split; [done|]. rewrite jobs_words, Ec. by apply jobs_wired.
Qed.

Lemma hello_pipeline_witness : exists pr,
  child (cs "bin") (cs "cat<in | wc") = Some pr /\
  jobs (fun p => bool_decide (p = cs "bin/cat" \/ p = cs "wc")) pr (std (OTerm 0) (OTerm 1) (OTerm 2)) [] =
  [(cs "bin/cat", [cs "cat"], std (OFile (cs "in") 0) (OWrite []) (OTerm 2));
   (cs "wc", [cs "wc"], std (ORead []) (OTerm 1) (OTerm 2))].
Proof.
  set (p := GPipe (GSimple [] [(cs "cat", [(RIn, cs "in")])]) (GStage (GSimple [] [(cs "wc", [])]))).
  destruct (hello_pipeline (fun p => bool_decide (p = cs "bin/cat" \/ p = cs "wc")) (cs "bin") p (cs "cat<in | wc")
    [mkstage [cs "cat"] [(RIn, cs "in")]; mkstage [cs "wc"] []] (OTerm 0) (OTerm 1) (OTerm 2)) as (pr & E & J).
  - cbn [p pipe_ok exec_ok gredirs_ok].
    split_and!; repeat (constructor; cbn [fst snd]); try (cbn; lia); by apply word_ok_cs.
  - by apply (layout_spells (pipe_toks p) [[]; []; []; [32]; [32]; []]).
  - reflexivity.
  - exists pr. split; [exact E|]. rewrite J. vm_compute. reflexivity.
Defined.

(** [path set] sets the search path, and a command without a slash is then
    looked for in each directory of the path in order and last under its own
    name. *)
Theorem hello_path_search chdir v cmd st :
  Forall (fun c => is_ws c = false) v -> v <> [] -> (length v < 128)%nat ->
  chr "/" ∉ cmd -> cmd <> [] -> (length v + 1 + length cmd < 128)%nat ->
  exists st' seg segs,
    handle_builtin chdir (cs "path set " ++ v ++ [10]) st = Ok (true, cs "path set " ++ v) st' /\
    v = seg ++ flat_map (fun x => chr ":" :: x) segs /\ Forall (fun x => chr ":" ∉ x) (seg :: segs) /\
    candidates (hello_path st') cmd = map (fun x => join x cmd) (seg :: segs) ++ [cmd].
Proof.
  intros Hv Hne Hlen Hcmd Hcne Hfit. destruct (path_set_sets chdir v st Hv Hne Hlen) as (st' & E & Ep).
  destruct (segments_spec v) as (seg & segs & Es & Hall & Hv').
  exists st', seg, segs. split; [done|]. split; [done|]. split; [done|]. rewrite Ep. unfold candidates.
  replace (existsb _ cmd) with false.
  2: { symmetry. apply not_true_is_false. intros (x & Hx & <-%Z.eqb_eq)%existsb_exists. by apply list_elem_of_In in Hx. }
  unfold hello_copy. rewrite take_ge by (unfold HELLO_MAXPATH; lia). rewrite Es. f_equal. apply map_ext_in.
  intros x Hx. apply append_exec_path_join; [done|].
  enough (length x <= length v)%nat by lia. rewrite Hv', length_app.
  destruct Hx as [->|Hx]; [lia|]. apply in_split in Hx as (l1 & l2 & ->).
  rewrite flat_map_app, length_app. cbn [flat_map length app]. rewrite length_app. lia.
Qed.

Lemma hello_path_search_witness : exists st' seg segs,
    handle_builtin (fun _ => true) (cs "path set bin:usr/" ++ [10]) (mkhello false (cs "bin") [] [] []) =
      Ok (true, cs "path set bin:usr/") st' /\
    cs "bin:usr/" = seg ++ flat_map (fun x => chr ":" :: x) segs /\ Forall (fun x => chr ":" ∉ x) (seg :: segs) /\
    candidates (hello_path st') (cs "ls") = map (fun x => join x (cs "ls")) (seg :: segs) ++ [cs "ls"].
Proof.
  apply (hello_path_search (fun _ => true) (cs "bin:usr/") (cs "ls") (mkhello false (cs "bin") [] [] []));
    try (apply (bool_decide_unpack _); vm_compute; exact I); cbn; lia.
Defined.
