(* ===== verification/Umalloc.v ===== *)
(** * The user memory allocator (user/lib/umalloc.c)

    The free list is circular, sorted by address, and threaded through the headers
    of the free blocks, from the static header [base].  A [Header *] is its address;
    a header is 8 bytes, and sizes are counted in headers.  [hdr] holds the headers
    that the allocator has written.  [base_] is the address of [base], which lies
    below the heap; [grow sz n] says whether the kernel lets a process of [sz] bytes
    grow by [n].

    The theorem says that blocks handed out and free blocks never overlap, and
    that nothing is lost, whatever the client does with the blocks it owns. *)

From stdpp Require Import sorting.
From S2P Require Import Prelude.

Module Umalloc.

Record heap := mkheap {
  hdr : gmap Z (Z * Z);   (** [s.ptr] and [s.size] *)
  freep : Z;              (** 0 is the null pointer *)
  brk : Z                 (** the size of the process *)
}.

Definition sptr (p : Z) (h : heap) : Z := (default (0, 0) (hdr h !! p)).1.
Definition ssize (p : Z) (h : heap) : Z := (default (0, 0) (hdr h !! p)).2.
Definition set_ptr (p v : Z) (h : heap) : heap := mkheap (<[p := (v, ssize p h)]> (hdr h)) (freep h) (brk h).
Definition set_size (p v : Z) (h : heap) : heap := mkheap (<[p := (sptr p h, v)]> (hdr h)) (freep h) (brk h).
Definition set_freep (v : Z) (h : heap) : heap := mkheap (hdr h) v (brk h).

Section Alloc.
Context (base_ : Z) (grow : Z -> Z -> bool).

(** The loop of [free]: the block after which [bp] goes. *)
Fixpoint free_loop (fuel : nat) (bp p : Z) : M heap Z :=
  h ← get;
  if (bp >? p) && (bp <? sptr p h) then mret p else
  if (p >=? sptr p h) && ((bp >? p) || (bp <? sptr p h)) then mret p else
  match fuel with
  | O => nofuel
  | S f => free_loop f bp (sptr p h)
  end.

(** The freed block [bp] takes over the block after it when they touch. *)
Definition join_upper (bp p : Z) : M heap unit :=
  h ← get;
  if bp + 8 * ssize bp h =? sptr p h then
    modify (set_size bp (ssize bp h + ssize (sptr p h) h)) ;;
    h ← get;
    modify (set_ptr bp (sptr (sptr p h) h))
  else modify (set_ptr bp (sptr p h)).

(** The block [p] takes over [bp] when they touch. *)
Definition join_lower (bp p : Z) : M heap unit :=
  h ← get;
  if p + 8 * ssize p h =? bp then
    modify (set_size p (ssize p h + ssize bp h)) ;;
    h ← get;
    modify (set_ptr p (sptr bp h))
  else modify (set_ptr p bp).

(** The loop turns at most once around the list. *)
Definition free (ap : Z) : M heap unit :=
  let bp := ap - 8 in
  h ← get;
  p ← free_loop (size (hdr h)) bp (freep h);
  join_upper bp p ;;
  join_lower bp p ;;
  modify (set_freep p).

(** The system call. *)
Definition sbrk (n : Z) : M heap Z :=
  h ← get;
  if grow (brk h) n then put (mkheap (hdr h) (freep h) (brk h + n)) ;; mret (brk h) else mret (-1).

Definition morecore (nu : Z) : M heap Z :=
  let nu := if nu <? 4096 then 4096 else nu in
  p ← sbrk (s32 (nu * 8));
  if p =? -1 then mret 0 else
  modify (set_size p nu) ;;
  free (p + 8) ;;
  gets freep.

(** The branch of [malloc]'s loop for a block that is large enough: the whole block, or
    its tail. *)
Definition take_block (nunits prevp p : Z) : M heap Z :=
  h ← get;
  if ssize p h =? nunits then
    modify (set_ptr prevp (sptr p h)) ;;
    modify (set_freep prevp) ;;
    mret (p + 8)
  else
    modify (set_size p (ssize p h - nunits)) ;;
    let p' := p + 8 * (ssize p h - nunits) in
    modify (set_size p' nunits) ;;
    modify (set_freep prevp) ;;
    mret (p' + 8).

Fixpoint malloc_loop (fuel : nat) (nunits prevp p : Z) : M heap Z :=
  h ← get;
  if ssize p h >=? nunits then take_block nunits prevp p else
  match fuel with
  | O => nofuel
  | S f =>
      if p =? freep h then
        r ← morecore nunits;
        if r =? 0 then mret 0 else
        h ← get;
        malloc_loop f nunits r (sptr r h)
      else malloc_loop f nunits p (sptr p h)
  end.

Definition nunits (nbytes : Z) : Z := u32 (nbytes + 8 - 1) / 8 + 1.

(** The loop turns at most twice around the list, which grows by one block. *)
Definition malloc (nbytes : Z) : M heap Z :=
  h ← get;
  (if freep h =? 0 then modify (fun h => set_freep base_ (mkheap (<[base_ := (base_, 0)]> (hdr h)) (freep h) (brk h))) else mret tt) ;;
  h ← get;
  malloc_loop (2 * size (hdr h) + 2) (nunits nbytes) (freep h) (sptr (freep h) h).
End Alloc.

(** ** The client *)

(** What a program does: it allocates, frees a block that it owns, or grows the heap
    itself. *)
Inductive event := EMalloc (n : Z) | EFree (p : Z) | ESbrk (n : Z).

(** The blocks that the program owns, each the address that [malloc] returned and the
    bytes asked for, and the bytes that the allocator has had from the kernel. *)
Record client := mkclient { cheap : heap; own : gmap Z Z; got : Z }.

Definition run_event (base_ : Z) (grow : Z -> Z -> bool) (e : event) (c : client) : option client :=
  match e with
  | EMalloc n =>
      match malloc base_ grow n (cheap c) with
      | Ok p h => Some (mkclient h (if p =? 0 then own c else <[p := n]> (own c)) (got c + (brk h - brk (cheap c))))
      | _ => None
      end
  | EFree p =>
      match own c !! p with
      | None => Some c
      | Some _ => match free p (cheap c) with Ok _ h => Some (mkclient h (delete p (own c)) (got c)) | _ => None end
      end
  | ESbrk n => match sbrk grow n (cheap c) with Ok _ h => Some (mkclient h (own c) (got c)) | _ => None end
  end.

Fixpoint run_events (base_ : Z) (grow : Z -> Z -> bool) (es : list event) (c : client) : option client :=
  match es with
  | [] => Some c
  | e :: es => c' ← run_event base_ grow e c; run_events base_ grow es c'
  end.

(** ** The free list

    [linked m first l]: the headers of [l], each an address and a size, point each to
    the next, and the last one to [first]. *)
Definition head_addr (first : Z) (l : list (Z * Z)) : Z := match l with (a, _) :: _ => a | [] => first end.

Fixpoint linked (m : gmap Z (Z * Z)) (first : Z) (l : list (Z * Z)) : Prop :=
  match l with
  | [] => True
  | (a, s) :: l' => m !! a = Some (head_addr first l', s) /\ linked m first l'
  end.

(** Block [x] ends before [y] starts, and they are not adjacent. *)
Definition below (x y : Z * Z) : Prop := x.1 + 8 * x.2 < y.1.
Definition disj (x y : Z * Z) : Prop := x.1 + 8 * x.2 <= y.1 \/ y.1 + 8 * y.2 <= x.1.

Record flist (base_ : Z) (h : heap) (t : list (Z * Z)) : Prop := {
  fl_link : linked (hdr h) base_ ((base_, 0) :: t);
  fl_sort : StronglySorted below ((base_, 0) :: t);
  fl_free : forall x, x ∈ t -> 1 <= x.2 /\ base_ + 8 <= x.1 /\ x.1 + 8 * x.2 <= brk h;
  fl_freep : exists s, (freep h, s) ∈ (base_, 0) :: t
}.

(** The block of an owned pointer, with its header. *)
Definition oblock (p n : Z) : Z * Z := (p - 8, nunits n).

(** The owned blocks: their headers are intact, they are in the heap, and apart from
    the free blocks and from each other. *)
Record owned (base_ : Z) (h : heap) (t : list (Z * Z)) (own : gmap Z Z) : Prop := {
  ow_hdr : forall p n, own !! p = Some n -> exists x, hdr h !! (p - 8) = Some (x, nunits n);
  ow_in : forall p n, own !! p = Some n -> base_ + 8 <= p - 8 /\ p - 8 + 8 * nunits n <= brk h;
  ow_size : forall p n, own !! p = Some n -> 0 <= n < 2 ^ 31 - 16;
  ow_free : forall p n x, own !! p = Some n -> x ∈ t -> disj x (oblock p n);
  ow_own : forall p n q m, own !! p = Some n -> own !! q = Some m -> p <> q -> disj (oblock p n) (oblock q m)
}.

Definition own_units (own : gmap Z Z) : Z := map_fold (fun _ n a => nunits n + a) 0 own.

Definition units (t : list (Z * Z)) : Z := foldr (fun x a => x.2 + a) 0 t.

Lemma head_addr_app first l1 l2 : head_addr first (l1 ++ l2) = head_addr (head_addr first l2) l1.
Proof. by destruct l1 as [|[]]. Qed.

Lemma linked_app m first l1 l2 :
  linked m first (l1 ++ l2) <-> linked m (head_addr first l2) l1 /\ linked m first l2.
Proof. induction l1 as [|[a s] l1 IH]; simpl; [tauto|]. rewrite head_addr_app. tauto. Qed.

Lemma linked_frame m m' first l :
  (forall x, x ∈ l -> m' !! x.1 = m !! x.1) -> linked m first l -> linked m' first l.
Proof.
  induction l as [|[a s] l IH]; simpl; [done|]. intros Hf [Ha Hl]. split.
  - assert (E : m' !! a = m !! a) by exact (Hf (a, s) (list_elem_of_here _ _)). by rewrite E.
  - apply IH; [|done]. intros x Hx. apply Hf. by right.
Qed.

(** ** The circle: positions in the list *)
Definition nx (n i : nat) : nat := if (S i <? n)%nat then S i else O.
Definition dist (n i k : nat) : nat := if (i <=? k)%nat then (k - i)%nat else (n - i + k)%nat.

Lemma dist_step n i k : (i < n)%nat -> (k < n)%nat -> i <> k -> dist n i k = S (dist n (nx n i) k).
Proof.
  unfold dist, nx. intros.
  destruct (Nat.ltb_spec (S i) n), (Nat.leb_spec i k); try (destruct (Nat.leb_spec (S i) k)); simpl; lia.
Qed.
Lemma dist_refl n i : dist n i i = O.
Proof. unfold dist. destruct (Nat.leb_spec i i); lia. Qed.
Lemma nx_lt n i : (i < n)%nat -> (nx n i < n)%nat.
Proof. unfold nx. destruct (Nat.ltb_spec (S i) n); lia. Qed.
Lemma dist_lt n i k : (i < n)%nat -> (k < n)%nat -> (dist n i k < n)%nat.
Proof. unfold dist. destruct (Nat.leb_spec i k); lia. Qed.
(** Position [j] is the last of the circle that starts after it. *)
Lemma dist_nx_max n j k : (j < n)%nat -> (k < n)%nat -> (dist n (nx n j) k <= dist n (nx n j) j)%nat.
Proof.
  unfold dist, nx. intros.
  destruct (Nat.ltb_spec (S j) n).
  - destruct (Nat.leb_spec (S j) k), (Nat.leb_spec (S j) j); lia.
  - destruct (Nat.leb_spec 0 k), (Nat.leb_spec 0 j); lia.
Qed.

Lemma linked_lookup m l first i a s :
  head_addr first l = first -> linked m first l -> l !! i = Some (a, s) ->
  exists b t, l !! nx (length l) i = Some (b, t) /\ m !! a = Some (b, s).
Proof.
  intros Hh Hl Hi. assert (Hlt := lookup_lt_Some _ _ _ Hi).
  rewrite <- (take_drop_middle l i (a, s) Hi) in Hl. apply linked_app in Hl as [_ [Ha _]]. unfold nx.
  destruct (Nat.ltb_spec (S i) (length l)) as [Hs|Hs].
  - destruct (lookup_lt_is_Some_2 l (S i) Hs) as [[b t] Hb]. exists b, t. split; [done|].
    rewrite (drop_S _ _ _ Hb) in Ha. done.
  - rewrite drop_ge in Ha by lia. destruct l as [|[b t] l]; [done|]. exists b, t. simpl in *. by subst.
Qed.

Lemma linked_elem m first l x : linked m first l -> x ∈ l -> exists b, m !! x.1 = Some (b, x.2).
Proof.
  intros Hl Hx. apply list_elem_of_split in Hx as (l1 & l2 & ->). destruct x as [a s].
  apply linked_app in Hl as [_ [Ha _]]. simpl. eauto.
Qed.

Lemma below_neq l x y : StronglySorted below l -> (forall z, z ∈ l -> 0 <= z.2) -> x ∈ l -> y ∈ l -> x <> y -> x.1 <> y.1.
Proof.
  intros Hs H0 Hx Hy Hne. apply list_elem_of_split in Hx as (l1 & l2 & ->).
  apply StronglySorted_app in Hs as (Hc & _ & Hs2). apply StronglySorted_cons in Hs2 as [Hf _].
  assert (Hxx := H0 x ltac:(set_solver)). assert (Hyy := H0 y Hy).
  apply elem_of_app in Hy as [Hy|Hy].
  - specialize (Hc y x Hy ltac:(set_solver)). unfold below in Hc. lia.
  - apply elem_of_cons in Hy as [->|Hy]; [done|]. rewrite Forall_forall in Hf.
    specialize (Hf y Hy). unfold below in Hf. lia.
Qed.

(** The list is no longer than the table of headers, which bounds the loops. *)
Lemma linked_length m first l :
  linked m first l -> StronglySorted below l -> (forall x, x ∈ l -> 0 <= x.2) -> (length l <= size m)%nat.
Proof.
  revert m. induction l as [|[a s] l IH]; intros m; simpl; [lia|]. intros [Ha Hl] Hs H0.
  apply StronglySorted_cons in Hs as [Hf Hs]. rewrite Forall_forall in Hf.
  assert (Hd : linked (delete a m) first l).
  { eapply linked_frame; [|exact Hl]. intros x Hx. rewrite lookup_delete_ne; [done|].
    specialize (Hf x Hx). specialize (H0 (a, s) ltac:(set_solver)). unfold below in Hf. simpl in *. lia. }
  specialize (IH _ Hd Hs ltac:(set_solver)).
  assert (size m = S (size (delete a m))); [|lia].
  rewrite <- (insert_delete_id m a _ Ha) at 1. by rewrite map_size_insert_None by apply lookup_delete_eq.
Qed.

(** The state of a program's heap: nothing allocated yet, or a free list that accounts,
    with the owned blocks, for every byte had from the kernel. *)
Definition heap_ok (base_ : Z) (c : client) : Prop :=
  base_ + 8 <= brk (cheap c) /\
  (freep (cheap c) = 0 /\ own c = ∅ /\ got c = 0 \/
   exists t, freep (cheap c) <> 0 /\ flist base_ (cheap c) t /\ owned base_ (cheap c) t (own c) /\
     8 * (units t + own_units (own c)) = got c).

(** The requests covered: the sizes at which the sum in [malloc] does not wrap,
    and an [sbrk] that does not give memory back. *)
Definition event_ok (e : event) : Prop :=
  match e with
  | EMalloc n => 0 <= n < 2 ^ 31 - 16
  | EFree _ => True
  | ESbrk n => 0 <= n
  end.

Definition start (brk0 : Z) : client := mkclient (mkheap ∅ 0 brk0) ∅ 0.

Section Facts.
Context (base_ : Z) (grow : Z -> Z -> bool).
Hypothesis base_pos : 0 < base_.

Notation full t := ((base_, 0) :: t).

Lemma flist_sizes h t : flist base_ h t -> forall x, x ∈ full t -> 0 <= x.2 /\ base_ <= x.1.
Proof.
  intros Hf x Hx. apply elem_of_cons in Hx as [->|Hx]; [simpl; lia|].
  destruct (fl_free _ _ _ Hf x Hx). lia.
Qed.

Lemma flist_length h t : flist base_ h t -> (length (full t) <= size (hdr h))%nat.
Proof.
  intros Hf. eapply linked_length; [apply Hf|apply Hf|].
  intros x Hx. by apply (flist_sizes _ _ Hf).
Qed.

Lemma sptr_hdr h a b s : hdr h !! a = Some (b, s) -> sptr a h = b /\ ssize a h = s.
Proof. unfold sptr, ssize. by intros ->. Qed.

(** The place of a block in the sorted list. *)
Lemma split_at bp l x :
  StronglySorted below (x :: l) -> (forall y, y ∈ x :: l -> 0 <= y.2 /\ y.1 <> bp) -> x.1 < bp ->
  exists l1 p l2, x :: l = l1 ++ p :: l2 /\ (forall y, y ∈ l1 -> y.1 < bp) /\ p.1 < bp /\ (forall y, y ∈ l2 -> bp < y.1).
Proof.
  revert x. induction l as [|z l IH]; intros x Hs Hn Hx.
  - exists [], x, []. set_solver.
  - apply StronglySorted_cons in Hs as [Hf Hs]. destruct (Z.lt_ge_cases z.1 bp) as [Hz|Hz].
    + destruct (IH z Hs ltac:(set_solver) Hz) as (l1 & p & l2 & E & H1 & Hp & H2).
      exists (x :: l1), p, l2. rewrite E. split; [done|]. split; [|done].
      intros y [->|Hy]%elem_of_cons; auto.
    + exists [], x, (z :: l). split; [done|]. split; [set_solver|]. split; [done|].
      apply StronglySorted_cons in Hs as [Hfz _]. rewrite Forall_forall in Hfz.
      assert (Hzz := Hn z ltac:(set_solver)).
      intros y [->|Hy]%elem_of_cons; [lia|]. specialize (Hfz y Hy). unfold below in Hfz. lia.
Qed.

(** The loop of [free] stops at the last block below the one that is freed, from
    wherever it starts. *)
Lemma free_loop_run h t bp l1 p l2 :
  flist base_ h t -> full t = l1 ++ p :: l2 ->
  (forall y, y ∈ l1 -> y.1 < bp) -> p.1 < bp -> (forall y, y ∈ l2 -> bp < y.1) ->
  forall fuel i a s, full t !! i = Some (a, s) -> (dist (length (full t)) i (length l1) <= fuel)%nat ->
  free_loop fuel bp a h = Ok p.1 h.
Proof.
  intros Hf El H1 Hp H2.
  assert (Hk : (length l1 < length (full t))%nat) by (rewrite El, length_app; simpl; lia).
  assert (Hlo : forall j x, full t !! j = Some x -> (j < length l1)%nat -> x.1 < bp).
  { intros j x Hj Hl. rewrite El, lookup_app_l in Hj by done. eapply H1, list_elem_of_lookup_2, Hj. }
  assert (Hhi : forall j x, full t !! j = Some x -> (length l1 < j)%nat -> bp < x.1).
  { intros j x Hj Hl. rewrite El, lookup_app_r in Hj by lia. destruct (j - length l1)%nat as [|j'] eqn:E; [lia|].
    eapply H2, list_elem_of_lookup_2, Hj. }
  assert (Hmono : forall j x y, full t !! j = Some x -> full t !! S j = Some y -> x.1 < y.1).
  { intros j x y Hx Hy. pose proof (fl_sort _ _ _ Hf) as Hs.
    rewrite <- (take_drop_middle _ _ _ Hx), (drop_S _ _ _ Hy) in Hs.
    apply StronglySorted_app in Hs as (_ & _ & Hs). apply StronglySorted_cons in Hs as [Hs _].
    inversion_clear Hs as [|? ? Hb _]. unfold below in Hb.
    assert (Hz := flist_sizes _ _ Hf x (list_elem_of_lookup_2 _ _ _ Hx)). lia. }
  induction fuel as [fuel IH] using lt_wf_ind. intros i a s Hi Hd.
  assert (Hlt := lookup_lt_Some _ _ _ Hi).
  destruct (linked_lookup _ (full t) base_ _ _ _ eq_refl (fl_link _ _ _ Hf) Hi) as (b & u & Hb & Hm).
  assert (Eb : sptr a h = b) by apply (sptr_hdr _ _ _ _ Hm).
  assert (Hbase : base_ <= b) by apply (flist_sizes _ _ Hf _ (list_elem_of_lookup_2 _ _ _ Hb)).
  assert (Hbp : base_ < bp).
  { destruct l1 as [|x l1]; [by injection El as <- _|]. injection El as Ex _.
    specialize (H1 x ltac:(set_solver)). by rewrite <- Ex in H1. }
  unfold nx in Hb.
  destruct (decide (i = length l1)) as [Ei|Ei].
  - assert (Ep : p = (a, s)).
    { subst i. rewrite El, list_lookup_middle in Hi by done. by injection Hi. }
    subst p. cbn [fst snd] in *.
    assert (Hstop : (bp >? a) && (bp <? b) = true \/ (bp >? a) = true /\ (a >=? b) = true).
    { destruct (Nat.ltb_spec (S i) (length (full t))) as [Hs|Hs].
      - assert (Hx := Hhi _ _ Hb ltac:(lia)). simpl in Hx. left. apply andb_true_intro. lia.
      - right. simpl in Hb. injection Hb as <- _.
        assert (base_ <= a) by apply (flist_sizes _ _ Hf _ (list_elem_of_lookup_2 _ _ _ Hi)). lia. }
    destruct fuel; simpl; msimpl; rewrite Eb; destruct Hstop as [->|[-> ->]]; try done; by destruct (bp <? b).
  - destruct fuel as [|f]; [rewrite dist_step in Hd by done; lia|].
    assert (Hgo : (bp >? a) && (bp <? b) = false /\ (a >=? b) && ((bp >? a) || (bp <? b)) = false).
    { destruct (Nat.ltb_spec (S i) (length (full t))) as [Hs|Hs].
      - assert (Hab := Hmono _ _ _ Hi Hb). simpl in Hab. destruct (decide (i < length l1)%nat) as [Hil|Hil].
        + assert (b < bp).
          { destruct (decide (S i = length l1)) as [E|E].
            - rewrite E, El, list_lookup_middle in Hb by done. injection Hb as ->. done.
            - apply (Hlo _ _ Hb). lia. }
          split; [apply andb_false_intro2|apply andb_false_intro1]; lia.
        + assert (Hx := Hhi _ _ Hi ltac:(lia)). simpl in Hx.
          split; [apply andb_false_intro1|apply andb_false_intro1]; lia.
      - simpl in Hb. injection Hb as <- _. assert (Hx := Hhi _ _ Hi ltac:(lia)). simpl in Hx.
        split; [apply andb_false_intro1; lia|apply andb_false_intro2, orb_false_intro; lia]. }
    simpl. msimpl. rewrite Eb. destruct Hgo as [-> ->].
    rewrite dist_step in Hd by done. eapply IH; [lia|exact Hb|]. fold (nx (length (full t)) i). lia.
Qed.

(** What is left of the upper part of the list, and the size of the freed block, when
    that block has taken over the block after it. *)
Definition absorb (bp n : Z) (l : list (Z * Z)) : Z * list (Z * Z) :=
  match l with
  | (c, u) :: l' => if bp + 8 * n =? c then (n + u, l') else (n, l)
  | [] => (n, [])
  end.

Definition inserted (l1 : list (Z * Z)) (p s bp n : Z) (l2 : list (Z * Z)) : list (Z * Z) :=
  let '(n', l2') := absorb bp n l2 in
  if p + 8 * s =? bp then l1 ++ (p, s + n') :: l2' else l1 ++ (p, s) :: (bp, n') :: l2'.

Lemma heap_ext h h' : hdr h = hdr h' -> freep h = freep h' -> brk h = brk h' -> h = h'.
Proof. destruct h, h'; simpl. congruence. Qed.

Lemma join_upper_run h p s bp x n l2 :
  hdr h !! p = Some (head_addr base_ l2, s) -> linked (hdr h) base_ l2 ->
  hdr h !! bp = Some (x, n) -> p <> bp -> base_ < bp -> 0 <= n -> (forall y, y ∈ l2 -> bp < y.1) ->
  join_upper bp p h =
    Ok tt (mkheap (<[bp := (head_addr base_ (absorb bp n l2).2, (absorb bp n l2).1)]> (hdr h)) (freep h) (brk h)).
Proof.
  intros Hp Hl Hbp Hne Hb Hn H2. destruct (sptr_hdr _ _ _ _ Hp) as [Ep _]. destruct (sptr_hdr _ _ _ _ Hbp) as [_ En].
  unfold join_upper. msimpl. rewrite Ep, En. destruct l2 as [|[c u] l2]; simpl in *.
  - rewrite (proj2 (Z.eqb_neq _ _)) by lia. unfold set_ptr. by rewrite En.
  - destruct Hl as [Hc Hl]. specialize (H2 (c, u) ltac:(set_solver)). simpl in H2.
    destruct (bp + 8 * n =? c); simpl.
    + f_equal. unfold set_ptr, set_size, sptr, ssize. simpl. apply heap_ext; simpl; [|done..].
      rewrite (lookup_insert_ne _ bp p) by done. rewrite Hp. simpl. rewrite (lookup_insert_ne _ bp c) by lia.
      rewrite Hc, insert_insert_eq, lookup_insert_eq. done.
    + unfold set_ptr. by rewrite En.
Qed.

Lemma join_lower_run h p q s bp q' n :
  hdr h !! p = Some (q, s) -> hdr h !! bp = Some (q', n) -> p <> bp ->
  join_lower bp p h =
    Ok tt (mkheap (<[p := if p + 8 * s =? bp then (q', s + n) else (bp, s)]> (hdr h)) (freep h) (brk h)).
Proof.
  intros Hp Hbp Hne. destruct (sptr_hdr _ _ _ _ Hp) as [_ Es]. destruct (sptr_hdr _ _ _ _ Hbp) as [_ En].
  unfold join_lower. msimpl. rewrite Es, En. destruct (p + 8 * s =? bp); simpl; f_equal.
  - unfold set_ptr, set_size, sptr, ssize. apply heap_ext; simpl; [|done..].
    rewrite (lookup_insert_ne _ p bp) by done. rewrite Hbp, lookup_insert_eq, insert_insert_eq. done.
  - unfold set_ptr. by rewrite Es.
Qed.

Lemma inserted_linked m l1 p s bp n l2 :
  linked m base_ (l1 ++ (p, s) :: l2) ->
  (forall y, y ∈ l1 -> y.1 <> p /\ y.1 <> bp) -> p <> bp -> (forall y, y ∈ l2 -> y.1 <> p /\ y.1 <> bp) ->
  linked (<[p := if p + 8 * s =? bp then (head_addr base_ (absorb bp n l2).2, s + (absorb bp n l2).1) else (bp, s)]>
    (<[bp := (head_addr base_ (absorb bp n l2).2, (absorb bp n l2).1)]> m)) base_ (inserted l1 p s bp n l2).
Proof.
  intros Hl H1 Hne H2. apply linked_app in Hl as [Hl1 [_ Hl2]]. simpl in Hl1.
  assert (Hl2' : linked m base_ (absorb bp n l2).2 /\ (absorb bp n l2).2 ⊆ l2).
  { destruct l2 as [|[c u] l2]; simpl in *; [done|]. destruct (bp + 8 * n =? c); simpl; [|done].
    destruct Hl2. split; [done|]. set_solver. }
  unfold inserted. destruct (absorb bp n l2) as [n' l2']. simpl in *. destruct Hl2' as [Hl2' Hsub].
  assert (Hfr : forall l v w, (forall y, y ∈ l -> y.1 <> p /\ y.1 <> bp) -> forall f, linked m f l -> linked (<[p := v]> (<[bp := w]> m)) f l).
  { intros l v w Hy f. apply linked_frame. intros y Hin. destruct (Hy y Hin). by rewrite !lookup_insert_ne. }
  destruct (p + 8 * s =? bp); apply linked_app; simpl; split_and!;
    repeat first [by apply Hfr | rewrite lookup_insert_eq; done | rewrite lookup_insert_ne by done; by rewrite lookup_insert_eq
      | apply Hfr; [intros y Hy; apply H2, Hsub, Hy|done]].
Qed.

(** [absorb] keeps the part of the list above the block, apart from it. *)
Lemma absorb_spec bp n l2 :
  StronglySorted below l2 -> 0 <= n -> (forall y, y ∈ l2 -> 1 <= y.2 /\ bp < y.1 /\ disj (bp, n) y) ->
  let '(n', l2') := absorb bp n l2 in
  StronglySorted below ((bp, n') :: l2') /\ l2' ⊆ l2 /\ n <= n' /\
  units l2' + n' = units l2 + n /\ (forall hi, bp + 8 * n <= hi -> (forall y, y ∈ l2 -> y.1 + 8 * y.2 <= hi) -> bp + 8 * n' <= hi) /\
  (forall y, 1 <= y.2 -> disj (bp, n) y -> (forall x, x ∈ l2 -> disj x y) -> disj (bp, n') y).
Proof.
  intros Hs Hn H2. destruct l2 as [|[c u] l2]; simpl.
  - split_and!; [by repeat constructor|done|lia|done|done|done].
  - pose proof (H2 (c, u) ltac:(set_solver)) as (Hu & Hc & Hd). unfold disj in Hd. simpl in *.
    apply StronglySorted_cons in Hs as [Hf Hs]. rewrite Forall_forall in Hf.
    destruct (Z.eqb_spec (bp + 8 * n) c) as [E|E].
    + split_and!; [|set_solver|lia|simpl; lia| |].
      * constructor; [done|]. rewrite Forall_forall. intros y Hy. specialize (Hf y Hy). unfold below in *. simpl in *. lia.
      * intros hi _ Hhi. specialize (Hhi (c, u) ltac:(set_solver)). simpl in Hhi. lia.
      * intros y Hy Hb Hx. specialize (Hx (c, u) ltac:(set_solver)). unfold disj in *. simpl in *. lia.
    + split_and!; [|done|lia|simpl; lia|done|done].
      constructor; [constructor; [done|by rewrite Forall_forall]|]. rewrite Forall_forall.
      intros y [->|Hy]%elem_of_cons; [unfold below; simpl; lia|]. specialize (Hf y Hy). unfold below in *. simpl in *. lia.
Qed.

Lemma units_app l1 l2 : units (l1 ++ l2) = units l1 + units l2.
Proof. induction l1 as [|x l1 IH]; simpl; [done|]. unfold units in *. lia. Qed.

Lemma inserted_spec l1 p s bp n l2 :
  StronglySorted below (l1 ++ (p, s) :: l2) -> 0 <= s -> 1 <= n ->
  p < bp -> (forall y, y ∈ l2 -> 1 <= y.2 /\ bp < y.1) -> (forall y, y ∈ l1 ++ (p, s) :: l2 -> disj (bp, n) y) ->
  let l := inserted l1 p s bp n l2 in
  StronglySorted below l /\ units l = units (l1 ++ (p, s) :: l2) + n /\ (exists x, x ∈ l /\ n <= x.2) /\
  (forall x, x ∈ l -> x ∈ l1 \/ x.1 = p /\ s <= x.2 \/ x ∈ l2 \/ x.1 = bp /\ n <= x.2) /\
  (exists s', (p, s') ∈ l) /\
  (forall hi, bp + 8 * n <= hi -> (forall y, y ∈ l1 ++ (p, s) :: l2 -> y.1 + 8 * y.2 <= hi) -> forall x, x ∈ l -> x.1 + 8 * x.2 <= hi) /\
  (forall y, 1 <= y.2 -> disj (bp, n) y -> (forall x, x ∈ l1 ++ (p, s) :: l2 -> disj x y) -> forall x, x ∈ l -> disj x y).
Proof.
  intros Hs Hs0 Hn Hp H2 Hd. apply StronglySorted_app in Hs as (H12 & S1 & S2).
  apply StronglySorted_cons in S2 as [Hf S2]. rewrite Forall_forall in Hf.
  assert (A := absorb_spec bp n l2 S2 ltac:(lia)). unfold inserted. destruct (absorb bp n l2) as [n' l2'].
  destruct A as (S2' & Hsub & Hnn & Hu & Hhi & Hcov).
  { intros y Hy. destruct (H2 y Hy). split_and!; [done..|]. apply Hd. set_solver. }
  assert (Hps : p + 8 * s <= bp) by (specialize (Hd (p, s) ltac:(set_solver)); unfold disj in Hd; simpl in Hd; lia).
  apply StronglySorted_cons in S2' as [Hfb S2']. rewrite Forall_forall in Hfb.
  assert (H1b : forall x, x ∈ l1 -> below x (p, s)) by (intros; apply H12; set_solver).
  assert (Hbig : forall x, x ∈ l2' -> x ∈ l2) by set_solver.
  destruct (Z.eqb_spec (p + 8 * s) bp) as [E|E].
  - split_and!.
    + apply StronglySorted_app; split_and!; [|done|].
      * intros x y Hx [->|Hy]%elem_of_cons; [by apply (H1b x)|]. apply H12; set_solver.
      * constructor; [done|]. rewrite Forall_forall. intros y Hy. specialize (Hfb y Hy). unfold below in *. simpl in *. lia.
    + rewrite !units_app. simpl. lia.
    + exists (p, s + n'). split; [set_solver|simpl; lia].
    + intros x [Hx|[->|Hx]%elem_of_cons]%elem_of_app; [auto|simpl; lia|auto].
    + set_solver.
    + intros hi Hb Hall x [Hx|[->|Hx]%elem_of_cons]%elem_of_app; [apply Hall; set_solver| |apply Hall; set_solver].
      specialize (Hhi hi Hb ltac:(intros; apply Hall; set_solver)). simpl. lia.
    + intros y Hy Hb Hall x [Hx|[->|Hx]%elem_of_cons]%elem_of_app; [apply Hall; set_solver| |apply Hall; set_solver].
      specialize (Hcov y Hy Hb ltac:(intros; apply Hall; set_solver)). specialize (Hall (p, s) ltac:(set_solver)).
      unfold disj in *. simpl in *. lia.
  - split_and!.
    + apply StronglySorted_app; split_and!; [|done|].
      * intros x y Hx [->|[->|Hy]%elem_of_cons]%elem_of_cons; [by apply (H1b x)| |apply H12; set_solver].
        specialize (H1b x Hx). unfold below in *. simpl in *. lia.
      * constructor; [constructor; [done|by rewrite Forall_forall]|]. rewrite Forall_forall.
        intros y [->|Hy]%elem_of_cons; [unfold below; simpl; lia|auto].
    + rewrite !units_app. simpl. lia.
    + exists (bp, n'). split; [set_solver|done].
    + intros x [Hx|[->|[->|Hx]%elem_of_cons]%elem_of_cons]%elem_of_app; [auto|simpl; lia|simpl; lia|auto].
    + set_solver.
    + intros hi Hb Hall x [Hx|[->|[->|Hx]%elem_of_cons]%elem_of_cons]%elem_of_app; [apply Hall; set_solver| |by apply Hhi; [|set_solver]|apply Hall; set_solver].
      apply (Hall (p, s)). set_solver.
    + intros y Hy Hb Hall x [Hx|[->|[->|Hx]%elem_of_cons]%elem_of_cons]%elem_of_app; [apply Hall; set_solver| | |apply Hall; set_solver].
      * apply Hall. set_solver.
      * apply Hcov; [done..|]. intros; apply Hall; set_solver.
Qed.

Lemma inserted_full t l1 p s bp n l2 :
  full t = l1 ++ (p, s) :: l2 -> base_ < bp -> exists t', inserted l1 p s bp n l2 = full t'.
Proof.
  intros E Hb. unfold inserted. destruct (absorb bp n l2) as [n' l2'].
  destruct l1 as [|x l1]; injection E as E1 E2.
  - subst p s. rewrite (proj2 (Z.eqb_neq _ _)) by lia. eauto.
  - rewrite <- E1. case_match; simpl; eauto.
Qed.

Lemma inserted_length l1 p s bp n l2 : (length (inserted l1 p s bp n l2) <= S (length (l1 ++ (p, s) :: l2)))%nat.
Proof.
  unfold inserted, absorb. destruct l2 as [|[c v] l2]; [|destruct (bp + 8 * n =? c)]; destruct (p + 8 * s =? bp);
    rewrite !length_app; simpl; lia.
Qed.

(** Where the freed block goes, and that the loop of [free] finds the place. *)
Lemma free_place h t bp n :
  flist base_ h t -> 1 <= n -> base_ + 8 <= bp -> (forall y, y ∈ t -> disj (bp, n) y) ->
  exists l1 p s l2, full t = l1 ++ (p, s) :: l2 /\ 0 <= s /\ p < bp /\
    (forall y, y ∈ l2 -> y ∈ t /\ bp < y.1) /\ (forall y, y ∈ l1 \/ y ∈ l2 -> y.1 <> p /\ y.1 <> bp) /\
    free_loop (size (hdr h)) bp (freep h) h = Ok p h.
Proof.
  intros Hf Hn Hb Hd.
  assert (Hne : forall y, y ∈ full t -> 0 <= y.2 /\ y.1 <> bp).
  { intros y [->|Hy]%elem_of_cons; [simpl; lia|]. specialize (Hd y Hy). destruct (fl_free _ _ _ Hf y Hy).
    unfold disj in Hd. simpl in Hd. lia. }
  destruct (split_at bp t (base_, 0) (fl_sort _ _ _ Hf) Hne ltac:(simpl; lia)) as (l1 & [p s] & l2 & E & H1 & Hp & H2).
  simpl in Hp. exists l1, p, s, l2. split_and!; [done| |done| | |].
  - apply (Hne (p, s)). rewrite E. set_solver.
  - intros y Hy. split; [|auto]. assert (Et : t = tail (l1 ++ (p, s) :: l2)) by by rewrite <- E.
    rewrite Et. destruct l1; set_solver.
  - assert (Hs := fl_sort _ _ _ Hf). rewrite E in Hs, Hne.
    intros y Hy. split; [|apply Hne; set_solver]. apply StronglySorted_app in Hs as (H12 & _ & Hs2).
    apply StronglySorted_cons in Hs2 as [Hfa _]. rewrite Forall_forall in Hfa.
    assert (0 <= y.2) by (apply Hne; set_solver). destruct Hy as [Hy|Hy].
    + specialize (H12 y (p, s) Hy ltac:(set_solver)). unfold below in H12. simpl in H12. lia.
    + specialize (H2 y Hy). lia.
  - destruct (fl_freep _ _ _ Hf) as [sf Hfp]. apply list_elem_of_lookup_1 in Hfp as [i Hi].
    eapply (free_loop_run h t bp l1 (p, s) l2 Hf E H1 Hp H2); [exact Hi|].
    assert (L := flist_length _ _ Hf). apply lookup_lt_Some in Hi.
    assert (Hk : (length l1 < length (full t))%nat) by (rewrite E, length_app; simpl; lia).
    assert (D := dist_lt _ _ _ Hi Hk). lia.
Qed.

(** [free] puts the block in the list, whatever its place, and touches no other
    header than those of the list and of the block. *)
Lemma free_spec h t bp x n :
  flist base_ h t -> hdr h !! bp = Some (x, n) -> 1 <= n -> base_ + 8 <= bp -> bp + 8 * n <= brk h ->
  (forall y, y ∈ t -> disj (bp, n) y) ->
  exists h' t', free (bp + 8) h = Ok tt h' /\ flist base_ h' t' /\ brk h' = brk h /\
    units t' = units t + n /\ (length t' <= S (length t))%nat /\ (exists x, x ∈ t' /\ n <= x.2) /\
    (forall a, a <> bp -> a <> base_ -> (forall y, y ∈ t -> y.1 <> a) -> hdr h' !! a = hdr h !! a) /\
    (forall y, 1 <= y.2 -> base_ + 8 <= y.1 -> disj (bp, n) y -> (forall x, x ∈ t -> disj x y) -> forall x, x ∈ t' -> disj x y).
Proof.
  intros Hf Hbp Hn Hb Hhi Hd.
  destruct (free_place h t bp n Hf Hn Hb Hd) as (l1 & p & s & l2 & E & Hps & Hp & H2 & Hord & Hrun).
  assert (Hall : forall (P : Z * Z -> Prop), P (base_, 0) -> (forall y, y ∈ t -> P y) -> forall y, y ∈ l1 ++ (p, s) :: l2 -> P y).
  { intros P P0 Pt y. rewrite <- E. intros [->|Hy]%elem_of_cons; auto. }
  assert (Hl := fl_link _ _ _ Hf). assert (Hs := fl_sort _ _ _ Hf). rewrite E in Hl, Hs.
  assert (Hlen := inserted_length l1 p s bp n l2). rewrite <- E in Hlen.
  destruct (proj1 (linked_app _ _ _ _) Hl) as [_ [Hhp Hl2]].
  destruct (inserted_full t l1 p s bp n l2 E ltac:(lia)) as [t' Et].
  destruct (inserted_spec l1 p s bp n l2) as (S' & Hu & (w & Hw & Hwn) & Hel & (s' & Hin) & Hhi' & Hcov); try done.
  { intros y Hy. destruct (H2 y Hy) as [Hyt Hy']. split; [|done]. apply (fl_free _ _ _ Hf y Hyt). }
  { apply Hall; [right; simpl; lia|done]. }
  rewrite Et in *. eexists (mkheap _ p (brk h)), t'. split_and!.
  - unfold free. replace (bp + 8 - 8) with bp by lia. msimpl. rewrite Hrun.
    erewrite join_upper_run; [|exact Hhp|exact Hl2|exact Hbp|lia..|intros y Hy; by apply H2].
    erewrite join_lower_run; [|simpl; rewrite lookup_insert_ne by lia; exact Hhp|simpl; apply lookup_insert_eq|lia].
    unfold set_freep. simpl. reflexivity.
  - split; simpl; [|done| |exists s'; exact Hin].
    + change (linked (<[p := if p + 8 * s =? bp then (head_addr base_ (absorb bp n l2).2, s + (absorb bp n l2).1) else (bp, s)]>
        (<[bp := (head_addr base_ (absorb bp n l2).2, (absorb bp n l2).1)]> (hdr h))) base_ (full t')).
      rewrite <- Et. apply inserted_linked; try done; try lia; auto.
    + intros y Hy. apply StronglySorted_cons in S' as [Hfa _]. rewrite Forall_forall in Hfa.
      assert (Hby := Hfa y Hy). unfold below in Hby. simpl in Hby.
      assert (Hold : forall z, z ∈ l1 ++ (p, s) :: l2 -> z.1 = y.1 -> 1 <= z.2 /\ base_ + 8 <= z.1).
      { apply (Hall (fun z => z.1 = y.1 -> 1 <= z.2 /\ base_ + 8 <= z.1)); [simpl; lia|]. intros z Hz _. destruct (fl_free _ _ _ Hf z Hz). lia. }
      assert (Hb' : y.1 + 8 * y.2 <= brk h).
      { apply Hhi'; [done| |by right]. apply (Hall (fun z => z.1 + 8 * z.2 <= brk h)); [simpl; lia|]. intros z Hz. apply (fl_free _ _ _ Hf z Hz). }
      destruct (Hel y ltac:(by right)) as [Hy1|[[Hy1 Hy2]|[Hy1|[Hy1 Hy2]]]].
      * specialize (Hold y ltac:(set_solver) eq_refl). lia.
      * specialize (Hold (p, s) ltac:(set_solver) (eq_sym Hy1)). simpl in Hold. lia.
      * specialize (Hold y ltac:(set_solver) eq_refl). lia.
      * lia.
  - done.
  - rewrite <- E in Hu. simpl in Hu. lia.
  - simpl in Hlen. lia.
  - apply elem_of_cons in Hw as [->|Hw]; [simpl in Hwn; lia|eauto].
  - intros a Ha Hab Hay. simpl. rewrite !lookup_insert_ne; [done|done|].
    intros ->. revert Hay. apply (Hall (fun z => z.1 = a -> ~ (forall y, y ∈ t -> y.1 <> a)) ) with (y := (a, s));
      [simpl; congruence|naive_solver|set_solver|done].
  - intros y Hy1 Hy2 Hy3 Hy4 z Hz. apply Hcov; [done|done| |by right]. apply (Hall (fun z => disj z y)); [left; simpl; lia|done].
Qed.

(** What an allocation of [n] units at [a] does to the list and the headers. *)
Record allocated (h : heap) (t : list (Z * Z)) (n a : Z) (h' : heap) (t' : list (Z * Z)) : Prop := {
  al_list : flist base_ h' t';
  al_units : units t' + n = units t;
  al_hdr : exists x, hdr h' !! a = Some (x, n);
  al_in : base_ + 8 <= a /\ a + 8 * n <= brk h';
  al_disj : forall x, x ∈ t' -> disj (a, n) x;
  al_frame : forall b, b <> a -> b <> base_ -> (forall y, y ∈ t -> y.1 <> b) -> hdr h' !! b = hdr h !! b;
  al_cover : forall y, (forall x, x ∈ t -> disj x y) -> disj (a, n) y /\ forall x, x ∈ t' -> disj x y
}.

(** Two neighbours in the list, and the rest of it around them. *)
Record around (h : heap) (t : list (Z * Z)) (q sq p s : Z) (u m1 m2 : list (Z * Z)) : Prop := {
  ar_tail : t = m1 ++ (p, s) :: m2;
  ar_full : forall r, full (m1 ++ r) = u ++ (q, sq) :: r;
  ar_link1 : linked (hdr h) q u;
  ar_q : hdr h !! q = Some (p, sq);
  ar_p : hdr h !! p = Some (head_addr base_ m2, s);
  ar_link2 : linked (hdr h) base_ m2;
  ar_sort1 : StronglySorted below (u ++ [(q, sq)]);
  ar_sort2 : StronglySorted below ((p, s) :: m2);
  ar_below : forall x y, x ∈ u ++ [(q, sq)] -> y ∈ (p, s) :: m2 -> below x y;
  ar_lt_q : forall x, x ∈ u -> x.1 < q;
  ar_lt_p : q < p;
  ar_gt : forall x, x ∈ m2 -> p + 8 * s < x.1
}.

Lemma neighbours h t i q sq p s :
  flist base_ h t -> full t !! i = Some (q, sq) -> full t !! S i = Some (p, s) -> exists u m1 m2, around h t q sq p s u m1 m2.
Proof.
  intros Hf Hq Hp. assert (E := take_drop_middle _ _ _ Hq). rewrite (drop_S _ _ _ Hp) in E.
  exists (take i (full t)). revert E. generalize (take i (full t)) (drop (S (S i)) (full t)). intros u m2 E. clear Hq Hp.
  assert (Hl := fl_link _ _ _ Hf). assert (Hs := fl_sort _ _ _ Hf).
  assert (Hsz : forall x, x ∈ full t -> 0 <= x.2) by (intros; by apply (flist_sizes _ _ Hf)).
  rewrite <- E in Hl, Hs, Hsz. apply linked_app in Hl as [Hl1 [Hhq [Hhp Hl2]]]. simpl in Hl1, Hhq.
  change ((q, sq) :: (p, s) :: m2) with ([(q, sq)] ++ (p, s) :: m2) in Hs. rewrite (assoc_L (++)) in Hs.
  apply StronglySorted_app in Hs as (H12 & S1 & S2). pose proof S1 as S1'. apply StronglySorted_app in S1' as (H1q & _ & _).
  pose proof S2 as S2'. apply StronglySorted_cons in S2' as [Hfp _]. rewrite Forall_forall in Hfp.
  exists (tail (u ++ [(q, sq)])), m2. split; try done.
  - assert (Et : t = tail (u ++ (q, sq) :: (p, s) :: m2)) by by rewrite E.
    rewrite Et. destruct u as [|x u]; [done|]. simpl. by rewrite <- (assoc_L (++)).
  - intros r. destruct u as [|x u]; [by injection E as -> -> _|]. injection E as -> _. simpl. by rewrite <- (assoc_L (++)).
  - intros x Hx. specialize (H1q x (q, sq) Hx ltac:(set_solver)). specialize (Hsz x ltac:(set_solver)). unfold below in H1q. simpl in *. lia.
  - specialize (H12 (q, sq) (p, s) ltac:(set_solver) ltac:(set_solver)). specialize (Hsz (q, sq) ltac:(set_solver)). unfold below in H12. simpl in *. lia.
Qed.

Lemma around_elem h t q sq p s u m1 m2 : around h t q sq p s u m1 m2 -> forall r x, x ∈ full (m1 ++ r) <-> x ∈ u ++ [(q, sq)] \/ x ∈ r.
Proof. intros A r x. rewrite (ar_full _ _ _ _ _ _ _ _ _ A). set_solver. Qed.

(** A header that belongs to the list is [base] or the header of a free block. *)
Lemma full_header t b s : (b, s) ∈ full t -> b <> base_ -> ~ (forall y, y ∈ t -> y.1 <> b).
Proof. intros [E|Hin]%elem_of_cons Hb Hall; [congruence|]. by apply (Hall _ Hin). Qed.

Lemma take_whole h t i q sq p n :
  flist base_ h t -> full t !! i = Some (q, sq) -> full t !! S i = Some (p, n) -> 1 <= n ->
  exists h' t', take_block n q p h = Ok (p + 8) h' /\ brk h' = brk h /\ allocated h t n p h' t'.
Proof.
  intros Hf Hq Hp Hn. destruct (neighbours _ _ _ _ _ _ _ Hf Hq Hp) as (u & m1 & m2 & A).
  assert (Hel := around_elem _ _ _ _ _ _ _ _ _ A). pose proof A as [Et El Hl1 Hhq Hhp Hl2 S1 S2 H12 Hlq Hqp Hgt].
  destruct (sptr_hdr _ _ _ _ Hhp) as [Ep Es]. destruct (sptr_hdr _ _ _ _ Hhq) as [_ Eq].
  destruct (fl_free _ _ _ Hf (p, n)) as (_ & Hpb & Hph); [rewrite Et; set_solver|]. simpl in *.
  eexists (mkheap _ q (brk h)), (m1 ++ m2). split_and!; [|done|].
  - unfold take_block. msimpl. rewrite Es, Z.eqb_refl. simpl. unfold set_freep. simpl. rewrite Ep, Eq. done.
  - split; simpl.
    + split; simpl.
      * change (linked (<[q := (head_addr base_ m2, sq)]> (hdr h)) base_ (full (m1 ++ m2))). rewrite El. apply linked_app. simpl.
        split_and!; [|apply lookup_insert_eq|].
        -- eapply linked_frame; [|exact Hl1]. intros x Hx. specialize (Hlq x Hx). by rewrite lookup_insert_ne by lia.
        -- eapply linked_frame; [|exact Hl2]. intros x Hx. specialize (Hgt x Hx). by rewrite lookup_insert_ne by lia.
      * change (StronglySorted below (full m1 ++ m2)). apply StronglySorted_app. apply StronglySorted_cons in S2 as [_ S2].
        specialize (El []). rewrite app_nil_r in El. rewrite El. split_and!; [|done..].
        intros x y Hx Hy. apply H12; [done|by right].
      * intros x Hx. apply (fl_free _ _ _ Hf). rewrite Et. set_solver.
      * exists sq. apply Hel. set_solver.
    + rewrite Et, !units_app. simpl. lia.
    + exists (head_addr base_ m2). by rewrite lookup_insert_ne by lia.
    + done.
    + intros x Hx. destruct (proj1 (Hel m2 x) ltac:(by right)) as [Hx'|Hx'].
      * right. specialize (H12 x (p, n) Hx' ltac:(set_solver)). unfold below in H12. simpl in *. lia.
      * left. specialize (Hgt x Hx'). simpl. lia.
    + intros b Hb Hb0 Hbt. rewrite lookup_insert_ne; [done|]. intros ->.
      apply (full_header t b sq); [|done..]. rewrite Et. apply Hel. set_solver.
    + intros y Hy. split; [apply Hy; rewrite Et; set_solver|]. intros x Hx. apply Hy. rewrite Et. set_solver.
Qed.

Lemma take_tail h t i q sq p s n :
  flist base_ h t -> full t !! i = Some (q, sq) -> full t !! S i = Some (p, s) -> 1 <= n < s ->
  exists h' t' a, take_block n q p h = Ok (a + 8) h' /\ brk h' = brk h /\ allocated h t n a h' t'.
Proof.
  intros Hf Hq Hp Hn. destruct (neighbours _ _ _ _ _ _ _ Hf Hq Hp) as (u & m1 & m2 & A).
  assert (Hel := around_elem _ _ _ _ _ _ _ _ _ A). pose proof A as [Et El Hl1 Hhq Hhp Hl2 S1 S2 H12 Hlq Hqp Hgt].
  destruct (sptr_hdr _ _ _ _ Hhp) as [Ep Es].
  destruct (fl_free _ _ _ Hf (p, s)) as (_ & Hpb & Hph); [rewrite Et; set_solver|]. simpl in *.
  assert (Hlo : forall x, x ∈ u ++ [(q, sq)] -> x.1 < p).
  { intros x [Hx| ->%list_elem_of_singleton]%elem_of_app; [specialize (Hlq x Hx); lia|done]. }
  eexists (mkheap (<[p + 8 * (s - n) := (_, n)]> (<[p := (head_addr base_ m2, s - n)]> (hdr h))) q (brk h)),
    (m1 ++ (p, s - n) :: m2), (p + 8 * (s - n)). split_and!; [|done|].
  - unfold take_block. msimpl. rewrite Es, (proj2 (Z.eqb_neq _ _)) by lia. simpl. unfold set_freep, set_size at 1. simpl. rewrite Ep. done.
  - split; simpl.
    + split; simpl.
      * match goal with |- ?g => change (linked (<[p + 8 * (s - n) := (sptr (p + 8 * (s - n)) (set_size p (s - n) h), n)]> (<[p := (head_addr base_ m2, s - n)]> (hdr h))) base_ (full (m1 ++ (p, s - n) :: m2))) end.
        rewrite El. apply linked_app. simpl. split_and!.
        -- eapply linked_frame; [|exact Hl1]. intros x Hx. specialize (Hlq x Hx). by rewrite !lookup_insert_ne by lia.
        -- by rewrite !lookup_insert_ne by lia.
        -- rewrite lookup_insert_ne by lia. apply lookup_insert_eq.
        -- eapply linked_frame; [|exact Hl2]. intros x Hx. specialize (Hgt x Hx). by rewrite !lookup_insert_ne by lia.
      * change (StronglySorted below (full m1 ++ (p, s - n) :: m2)). apply StronglySorted_app. apply StronglySorted_cons in S2 as [_ S2].
        specialize (El []). rewrite app_nil_r in El. rewrite El. split_and!; [|done|].
        -- intros x y Hx [->|Hy]%elem_of_cons; [|by apply H12; [|right]].
           specialize (H12 x (p, s) Hx ltac:(left)). unfold below in *. done.
        -- constructor; [done|]. rewrite Forall_forall. intros y Hy. specialize (Hgt y Hy). unfold below. simpl. lia.
      * intros x [Hx|[->|Hx]%elem_of_cons]%elem_of_app; [|simpl; lia|]; apply (fl_free _ _ _ Hf); rewrite Et; set_solver.
      * exists sq. apply Hel. set_solver.
    + rewrite Et, !units_app. simpl. lia.
    + eexists. apply lookup_insert_eq.
    + lia.
    + intros x Hx. destruct (proj1 (Hel _ x) ltac:(by right)) as [Hx'|[->|Hx']%elem_of_cons].
      * right. specialize (H12 x (p, s) Hx' ltac:(left)). unfold below in H12. simpl in *. lia.
      * right. simpl. lia.
      * left. specialize (Hgt x Hx'). simpl. lia.
    + intros b Hb Hb0 Hbt. rewrite !lookup_insert_ne; [done| |done]. intros ->.
      apply (full_header t b s); [|done..]. rewrite Et. apply Hel. set_solver.
    + intros y Hy. assert (Hy' := Hy (p, s) ltac:(rewrite Et; set_solver)). unfold disj in Hy'. simpl in Hy'.
      split; [unfold disj; simpl; lia|]. intros x [Hx|[->|Hx]%elem_of_cons]%elem_of_app.
      * apply Hy. rewrite Et. set_solver.
      * unfold disj. simpl. lia.
      * apply Hy. rewrite Et. set_solver.
Qed.

Lemma take_spec h t i q sq p s n :
  flist base_ h t -> full t !! i = Some (q, sq) -> full t !! nx (length (full t)) i = Some (p, s) -> 1 <= n <= s ->
  exists h' t' a, take_block n q p h = Ok (a + 8) h' /\ brk h' = brk h /\ allocated h t n a h' t'.
Proof.
  intros Hf Hq Hp Hn. unfold nx in Hp. destruct (Nat.ltb_spec (S i) (length (full t))).
  - destruct (decide (s = n)) as [->|Hne].
    + destruct (take_whole _ _ _ _ _ _ _ Hf Hq Hp) as (h' & t' & ?); [lia|eauto].
    + eapply take_tail; [done..|lia].
  - simpl in Hp. injection Hp as _ <-. lia.
Qed.

Lemma index_unique h t i j a s s' :
  flist base_ h t -> full t !! i = Some (a, s) -> full t !! j = Some (a, s') -> i = j.
Proof.
  intros Hf. revert i j s s'.
  assert (Hlt : forall i j s s', full t !! i = Some (a, s) -> full t !! j = Some (a, s') -> ~ (i < j)%nat).
  { intros i j s s' Hi Hj Hlt. assert (Hs := fl_sort _ _ _ Hf). rewrite <- (take_drop_middle _ _ _ Hi) in Hs.
    apply StronglySorted_app in Hs as (_ & _ & Hs). apply StronglySorted_cons in Hs as [Hs _]. rewrite Forall_forall in Hs.
    assert (Hin : (a, s') ∈ drop (S i) (full t)).
    { apply (list_elem_of_lookup_2 _ (j - S i)). rewrite lookup_drop. by replace (S i + (j - S i))%nat with j by lia. }
    specialize (Hs _ Hin). assert (H0 := flist_sizes _ _ Hf _ (list_elem_of_lookup_2 _ _ _ Hi)). unfold below in Hs. simpl in *. lia. }
  intros i j s s' Hi Hj. assert (H1 := Hlt _ _ _ _ Hi Hj). assert (H2 := Hlt _ _ _ _ Hj Hi). lia.
Qed.

(** A turn of [malloc]'s loop, from the block after position [i], ends at a block that
    is large enough, or at [freep] when none up to there is. *)
Lemma malloc_walk h t n j sj :
  flist base_ h t -> 1 <= n -> full t !! j = Some (freep h, sj) ->
  forall d i q sq p s fuel,
  full t !! i = Some (q, sq) -> full t !! nx (length (full t)) i = Some (p, s) ->
  dist (length (full t)) (nx (length (full t)) i) j = d -> (d <= fuel)%nat ->
  (exists h' t' a, malloc_loop grow fuel n q p h = Ok (a + 8) h' /\ brk h' = brk h /\ allocated h t n a h' t') \/
  ((forall k x, (dist (length (full t)) (nx (length (full t)) i) k <= d)%nat -> full t !! k = Some x -> x.2 < n) /\
   exists q', malloc_loop grow fuel n q p h = malloc_loop grow (fuel - d) n q' (freep h) h).
Proof.
  intros Hf Hn Hj d. set (len := length (full t)).
  assert (Hjl : (j < len)%nat) by exact (lookup_lt_Some _ _ _ Hj).
  induction d as [|d IH]; intros i q sq p s fuel Hq Hp Hd Hfu.
  all: destruct (linked_lookup _ (full t) base_ _ _ _ eq_refl (fl_link _ _ _ Hf) Hp) as (b & v & Hb & Hm).
  all: destruct (sptr_hdr _ _ _ _ Hm) as [Eb Es]; fold len in Hb.
  all: assert (Hil : (nx len i < len)%nat) by exact (lookup_lt_Some _ _ _ Hp).
  all: destruct (Z.geb_spec s n) as [Hfit|Hfit];
    [left; destruct (take_spec _ _ _ _ _ _ _ n Hf Hq Hp ltac:(lia)) as (h' & t' & a & Ht & Hrest);
     exists h', t', a; split; [|done]; destruct fuel; simpl; msimpl; rewrite Es, (proj2 (Z.geb_le s n)) by lia; done|].
  - right. assert (Ej : nx len i = j) by (destruct (decide (nx len i = j)); [done|rewrite dist_step in Hd by done; lia]).
    split; [|exists q; rewrite Nat.sub_0_r; f_equal; rewrite Ej in Hp; congruence].
    intros k x Hk Hx. assert (Ek : nx len i = k).
    { destruct (decide (nx len i = k)); [done|]. rewrite dist_step in Hk; [lia|done| |done]. exact (lookup_lt_Some _ _ _ Hx). }
    rewrite <- Ek, Hp in Hx. injection Hx as <-. done.
  - destruct (decide (nx len i = j)) as [Ej|Ej]; [by rewrite Ej, dist_refl in Hd|].
    destruct fuel as [|f]; [lia|]. rewrite dist_step in Hd by done.
    assert (Hpf : p <> freep h) by (intros ->; apply Ej; eapply index_unique; done).
    destruct (IH _ p s b v f Hp Hb ltac:(lia) ltac:(lia)) as [Hl|[Hno [q' Hr]]].
    + left. destruct Hl as (h' & t' & a & Ht & Hrest). exists h', t', a. split; [|done]. simpl. msimpl.
      rewrite Es, Eb, (proj2 (Z.eqb_neq _ _) Hpf). destruct (Z.geb_spec s n); [lia|]. done.
    + right. split.
      * intros k x Hk Hx. destruct (decide (nx len i = k)) as [Ek|Ek].
        -- rewrite <- Ek, Hp in Hx. injection Hx as <-. done.
        -- rewrite dist_step in Hk; [|done| |done]; [|exact (lookup_lt_Some _ _ _ Hx)]. apply (Hno k x); [lia|done].
      * exists q'. simpl. msimpl. rewrite Es, Eb, (proj2 (Z.eqb_neq _ _) Hpf). destruct (Z.geb_spec s n); [lia|]. done.
Qed.

(** Memory above the list can be given to the process, and a header written there. *)
Lemma flist_grow h t v hi :
  flist base_ h t -> base_ < brk h -> brk h <= hi -> flist base_ (mkheap (<[brk h := v]> (hdr h)) (freep h) hi) t.
Proof.
  intros Hf Hb Hhi. split.
  - eapply linked_frame; [|apply Hf]. intros x [->|Hx]%elem_of_cons; simpl; rewrite lookup_insert_ne; [done|lia|done|].
    destruct (fl_free _ _ _ Hf x Hx). lia.
  - apply Hf.
  - intros x Hx. simpl. destruct (fl_free _ _ _ Hf x Hx). lia.
  - apply Hf.
Qed.

Definition core (n : Z) : Z := if n <? 4096 then 4096 else n.

Lemma morecore_spec h t n :
  flist base_ h t -> 1 <= n -> 8 * core n < 2 ^ 31 -> base_ + 8 <= brk h ->
  if grow (brk h) (8 * core n) then
    exists h' t', morecore grow n h = Ok (freep h') h' /\ flist base_ h' t' /\ brk h' = brk h + 8 * core n /\
      units t' = units t + core n /\ (length t' <= S (length t))%nat /\ (exists x, x ∈ t' /\ n <= x.2) /\
      (forall a, a <> brk h -> a <> base_ -> (forall y, y ∈ t -> y.1 <> a) -> hdr h' !! a = hdr h !! a) /\
      (forall y, 1 <= y.2 -> base_ + 8 <= y.1 -> y.1 + 8 * y.2 <= brk h -> (forall x, x ∈ t -> disj x y) -> forall x, x ∈ t' -> disj x y)
  else morecore grow n h = Ok 0 h.
Proof.
  intros Hf Hn Hc Hb. assert (Hcn : n <= core n /\ 4096 <= core n) by (unfold core; destruct (Z.ltb_spec n 4096); lia).
  unfold morecore. fold (core n). rewrite s32_id by lia. replace (core n * 8) with (8 * core n) by lia. unfold sbrk. msimpl.
  destruct (grow (brk h) (8 * core n)); [|done]. destruct (Z.eqb_spec (brk h) (-1)); [lia|]. simpl.
  set (h1 := set_size _ _ _).
  assert (Hf1 : flist base_ h1 t) by (apply (flist_grow h t (_, core n) (brk h + 8 * core n)); [done|lia..]).
  destruct (free_spec h1 t (brk h) (sptr (brk h) (mkheap (hdr h) (freep h) (brk h + 8 * core n))) (core n) Hf1)
    as (h' & t' & Hrun & Hf' & Hbrk & Hu & Hlen & (x & Hx & Hxn) & Hfr & Hcov); [apply lookup_insert_eq|lia|lia|simpl; lia| |].
  { intros y Hy. right. simpl. destruct (fl_free _ _ _ Hf y Hy). lia. }
  rewrite Hrun. exists h', t'. split_and!; try done.
  - exists x. split; [done|lia].
  - intros a Ha Ha0 Hat. rewrite Hfr by done. simpl. by rewrite lookup_insert_ne.
  - intros y Hy1 Hy2 Hy3 Hy4. apply Hcov; [done..| |done]. right. done.
Qed.

(** An allocation, with the core it may have had from the kernel. *)
Record malloced (h : heap) (t : list (Z * Z)) (n a : Z) (h' : heap) (t' : list (Z * Z)) : Prop := {
  ml_list : flist base_ h' t';
  ml_brk : brk h <= brk h';
  ml_units : 8 * (units t' + n) = 8 * units t + (brk h' - brk h);
  ml_hdr : exists x, hdr h' !! a = Some (x, n);
  ml_in : base_ + 8 <= a /\ a + 8 * n <= brk h';
  ml_disj : forall x, x ∈ t' -> disj (a, n) x;
  ml_cover : forall y, 1 <= y.2 -> base_ + 8 <= y.1 -> y.1 + 8 * y.2 <= brk h -> (forall x, x ∈ t -> disj x y) ->
    hdr h' !! y.1 = hdr h !! y.1 /\ disj (a, n) y /\ forall x, x ∈ t' -> disj x y
}.

Lemma disj_neq x y : 1 <= x.2 -> 1 <= y.2 -> disj x y -> x.1 <> y.1.
Proof. unfold disj. lia. Qed.

(** A block that is apart from the list keeps its header. *)
Lemma allocated_cover h t n a h' t' y :
  flist base_ h t -> allocated h t n a h' t' -> 1 <= n -> 1 <= y.2 -> base_ + 8 <= y.1 -> (forall x, x ∈ t -> disj x y) ->
  hdr h' !! y.1 = hdr h !! y.1 /\ disj (a, n) y /\ forall x, x ∈ t' -> disj x y.
Proof.
  intros Hf Ha Hn Hy1 Hy2 Hy. destruct (al_cover _ _ _ _ _ _ Ha y Hy) as [Hc1 Hc2]. split; [|done].
  apply (al_frame _ _ _ _ _ _ Ha); [|lia|].
  - apply not_eq_sym. by apply (disj_neq (a, n) y).
  - intros z Hz. destruct (fl_free _ _ _ Hf z Hz). apply disj_neq; auto.
Qed.

Lemma allocated_malloced h t n a h' t' :
  flist base_ h t -> 1 <= n -> brk h' = brk h -> allocated h t n a h' t' -> malloced h t n a h' t'.
Proof.
  intros Hf Hn E Ha. pose proof Ha as [Hl Hu Hh Hi Hd _ _]. split; auto; try lia.
  intros y Hy1 Hy2 _ Hy. by eapply allocated_cover.
Qed.

(** One turn from [freep]. *)
Lemma malloc_turn h t n fuel :
  flist base_ h t -> 1 <= n -> (length t <= fuel)%nat ->
  (exists h' t' a, malloc_loop grow fuel n (freep h) (sptr (freep h) h) h = Ok (a + 8) h' /\ brk h' = brk h /\ allocated h t n a h' t') \/
  ((forall x, x ∈ full t -> x.2 < n) /\
   exists q' f, malloc_loop grow fuel n (freep h) (sptr (freep h) h) h = malloc_loop grow f n q' (freep h) h /\ (fuel - length t <= f)%nat).
Proof.
  intros Hf Hn Hfu. destruct (fl_freep _ _ _ Hf) as [sj Hj]. apply list_elem_of_lookup_1 in Hj as [j Hj].
  assert (Hjl := lookup_lt_Some _ _ _ Hj).
  destruct (linked_lookup _ (full t) base_ _ _ _ eq_refl (fl_link _ _ _ Hf) Hj) as (p & s & Hp & Hm).
  destruct (sptr_hdr _ _ _ _ Hm) as [Ep _]. rewrite Ep.
  assert (Hd := dist_lt _ _ _ (nx_lt _ _ Hjl) Hjl). change (length (full t)) with (S (length t)) in Hd.
  destruct (malloc_walk h t n j sj Hf Hn Hj _ j (freep h) sj p s fuel Hj Hp eq_refl) as [Hl|[Hno [q' Hr]]].
  - change (length (full t)) with (S (length t)). lia.
  - by left.
  - right. split; [|exists q'; eexists; split; [exact Hr|change (length (full t)) with (S (length t)); lia]].
    intros x Hx. apply list_elem_of_lookup_1 in Hx as [k Hk].
    apply (Hno k x); [|done]. apply dist_nx_max; [done|]. exact (lookup_lt_Some _ _ _ Hk).
Qed.

Lemma malloc_loop_spec h t n :
  flist base_ h t -> 1 <= n -> 8 * core n < 2 ^ 31 -> base_ + 8 <= brk h ->
  let run := malloc_loop grow (2 * size (hdr h) + 2) n (freep h) (sptr (freep h) h) h in
  (exists h' t' a, run = Ok (a + 8) h' /\ malloced h t n a h' t') \/ (grow (brk h) (8 * core n) = false /\ run = Ok 0 h).
Proof.
  intros Hf Hn Hc Hb. simpl. assert (L := flist_length _ _ Hf). change (length (full t)) with (S (length t)) in L.
  destruct (malloc_turn h t n (2 * size (hdr h) + 2) Hf Hn ltac:(lia)) as [(h' & t' & a & Hr & Hbr & Ha)|(Hno & q' & f & Hr & Hfl)].
  { left. exists h', t', a. split; [exact Hr|by apply allocated_malloced]. }
  simpl in Hr. rewrite Hr. destruct f as [|f]; [lia|].
  destruct (fl_freep _ _ _ Hf) as [sj Hj]. assert (Hsj := Hno _ Hj). simpl in Hsj.
  destruct (linked_elem _ _ _ _ (fl_link _ _ _ Hf) Hj) as [b Hm]. destruct (sptr_hdr _ _ _ _ Hm) as [_ Es]. simpl in Es.
  assert (M := morecore_spec h t n Hf Hn Hc Hb).
  simpl. msimpl. rewrite Es. destruct (Z.geb_spec sj n); [lia|]. rewrite Z.eqb_refl.
  destruct (grow (brk h) (8 * core n)); [|by right; rewrite M].
  destruct M as (h1 & t1 & Hm1 & Hf1 & Hb1 & Hu1 & Hl1 & (x & Hx & Hxn) & Hfr1 & Hcov1). rewrite Hm1.
  assert (H0 : 0 < freep h1).
  { destruct (fl_freep _ _ _ Hf1) as [s1 Hs1]. destruct (flist_sizes _ _ Hf1 _ Hs1). simpl in *. lia. }
  destruct (Z.eqb_spec (freep h1) 0); [lia|].
  destruct (malloc_turn h1 t1 n f Hf1 Hn ltac:(lia)) as [(h' & t' & a & Hr' & Hbr & [Al Au Ah Ai Ad Afr Ac])|(Hno' & _)].
  2: { specialize (Hno' x ltac:(by right)). lia. }
  left. exists h', t', a. split; [exact Hr'|].
  assert (Hcn : 4096 <= core n) by (unfold core; destruct (Z.ltb_spec n 4096); lia).
  assert (Ha := Build_allocated _ _ _ _ _ _ Al Au Ah Ai Ad Afr Ac). split; auto; try lia.
  intros y Hy1 Hy2 Hy3 Hy. destruct (allocated_cover _ _ _ _ _ _ y Hf1 Ha Hn Hy1 Hy2 (Hcov1 y Hy1 Hy2 Hy3 Hy)) as (Hh & Hd & Hall).
  split; [|done]. rewrite Hh. apply Hfr1; [lia|lia|].
  intros z Hz. destruct (fl_free _ _ _ Hf z Hz). apply disj_neq; auto.
Qed.

(** ** The client's view *)
Lemma nunits_bounds n : 0 <= n < 2 ^ 31 - 16 -> 1 <= nunits n /\ n + 8 <= 8 * nunits n /\ 8 * core (nunits n) < 2 ^ 31.
Proof.
  intros Hn. unfold nunits. rewrite u32_id by lia.
  assert (E := Z.div_mod (n + 8 - 1) 8 ltac:(lia)). assert (B := Z.mod_pos_bound (n + 8 - 1) 8 ltac:(lia)).
  unfold core. case_match; zbool; lia.
Qed.

Lemma own_units_insert own p n : own !! p = None -> own_units (<[p := n]> own) = nunits n + own_units own.
Proof. intros H. unfold own_units. rewrite map_fold_insert_L; [done| |done]. intros; lia. Qed.

Lemma own_units_delete own p n : own !! p = Some n -> own_units own = nunits n + own_units (delete p own).
Proof. intros H. unfold own_units. rewrite (map_fold_delete_L _ _ p n own); [done| |done]. intros; lia. Qed.

(** The owned blocks are kept by what leaves their headers alone. *)
Lemma owned_keep h h' t t' own own' :
  owned base_ h t own -> own' ⊆ own -> brk h <= brk h' ->
  (forall p n, own' !! p = Some n -> hdr h' !! (p - 8) = hdr h !! (p - 8) /\ forall x, x ∈ t' -> disj x (oblock p n)) ->
  owned base_ h' t' own'.
Proof.
  intros [H1 H2 H3 H4 H5] Hsub Hb Hk. split.
  - intros p n Hp. rewrite (proj1 (Hk p n Hp)). apply H1. by eapply lookup_weaken.
  - intros p n Hp. assert (Hp' := lookup_weaken _ _ _ _ Hp Hsub). specialize (H2 p n Hp'). lia.
  - intros p n Hp. eapply H3. by eapply lookup_weaken.
  - intros p n x Hp Hx. by apply (Hk p n Hp).
  - intros p n q m Hp Hq. apply H5; by eapply lookup_weaken.
Qed.

Lemma free_owned h t own p n :
  flist base_ h t -> owned base_ h t own -> own !! p = Some n ->
  exists h' t', free p h = Ok tt h' /\ brk h' = brk h /\ freep h' <> 0 /\ flist base_ h' t' /\ owned base_ h' t' (delete p own) /\
    units t' + own_units (delete p own) = units t + own_units own.
Proof.
  intros Hf Ho Hp. destruct (ow_hdr _ _ _ _ Ho p n Hp) as [x Hx]. destruct (ow_in _ _ _ _ Ho p n Hp) as [Hi1 Hi2].
  assert (Hn := proj1 (nunits_bounds n (ow_size _ _ _ _ Ho p n Hp))).
  destruct (free_spec h t (p - 8) x (nunits n) Hf Hx Hn Hi1 Hi2) as (h' & t' & Hr & Hf' & Hb & Hu & _ & _ & Hfr & Hcov).
  { intros y Hy. assert (D := ow_free _ _ _ _ Ho p n y Hp Hy). unfold disj, oblock in *. simpl in *. lia. }
  exists h', t'. replace (p - 8 + 8) with p in Hr by lia. split_and!; try done.
  - destruct (fl_freep _ _ _ Hf') as [s Hs]. destruct (flist_sizes _ _ Hf' _ Hs). simpl in *. lia.
  - apply (owned_keep h h' t t' own); [done|apply delete_subseteq|lia|].
    intros q m Hq. apply lookup_delete_Some in Hq as [Hne Hq].
    assert (Hm := proj1 (nunits_bounds m (ow_size _ _ _ _ Ho q m Hq))). destruct (ow_in _ _ _ _ Ho q m Hq) as [Hj1 Hj2].
    assert (D := ow_own _ _ _ _ Ho p n q m Hp Hq Hne). split.
    + apply Hfr; [lia|lia|]. intros y Hy. apply (disj_neq y (oblock q m)); [apply (fl_free _ _ _ Hf y Hy)|done|].
      by apply (ow_free _ _ _ _ Ho q m).
    + apply Hcov; [done|done|exact D|]. intros y Hy. by apply (ow_free _ _ _ _ Ho q m).
  - rewrite Hu, (own_units_delete own p n Hp). lia.
Qed.

Lemma malloc_owned h t own n a h' t' :
  flist base_ h t -> owned base_ h t own -> 0 <= n < 2 ^ 31 - 16 -> malloced h t (nunits n) a h' t' ->
  owned base_ h' t' (<[a + 8 := n]> own) /\ own !! (a + 8) = None.
Proof.
  intros Hf Ho Hn [Hl Hb Hu Hh Hi Hd Hc]. destruct (nunits_bounds n Hn) as [Hnu _].
  assert (K : forall p m, own !! p = Some m -> hdr h' !! (p - 8) = hdr h !! (p - 8) /\ disj (a, nunits n) (oblock p m) /\ forall x, x ∈ t' -> disj x (oblock p m)).
  { intros p m Hp. destruct (ow_in _ _ _ _ Ho p m Hp) as [Hj1 Hj2]. apply (Hc (oblock p m)); [|done|done|].
    - apply (nunits_bounds m (ow_size _ _ _ _ Ho p m Hp)).
    - intros x Hx. by apply (ow_free _ _ _ _ Ho p m). }
  assert (Hnone : own !! (a + 8) = None).
  { destruct (own !! (a + 8)) as [m|] eqn:E; [|done]. destruct (K _ _ E) as (_ & D & _).
    assert (Hm := proj1 (nunits_bounds m (ow_size _ _ _ _ Ho _ m E))). unfold disj, oblock in D. simpl in D. lia. }
  split; [|done].
  assert (Hk : owned base_ h' t' own) by (apply (owned_keep h h' t t' own); [done..|]; intros p m Hp; destruct (K p m Hp) as (? & _ & ?); done).
  assert (Ea : a + 8 - 8 = a) by lia. assert (Eo : oblock (a + 8) n = (a, nunits n)) by (unfold oblock; by rewrite Ea).
  split.
  - intros p m [[<- <-]|[_ Hp]]%lookup_insert_Some; [by rewrite Ea|by apply (ow_hdr _ _ _ _ Hk)].
  - intros p m [[<- <-]|[_ Hp]]%lookup_insert_Some; [by rewrite Ea|by apply (ow_in _ _ _ _ Hk)].
  - intros p m [[<- <-]|[_ Hp]]%lookup_insert_Some; [done|by eapply (ow_size _ _ _ _ Hk)].
  - intros p m x [[<- <-]|[_ Hp]]%lookup_insert_Some Hx; [|by apply (ow_free _ _ _ _ Hk)].
    rewrite Eo. specialize (Hd x Hx). unfold disj in *. lia.
  - intros p m q k [[<- <-]|[_ Hp]]%lookup_insert_Some [[<- <-]|[_ Hq]]%lookup_insert_Some Hne; [done| | |by apply (ow_own _ _ _ _ Hk)].
    + rewrite Eo. exact (proj1 (proj2 (K q k Hq))).
    + rewrite Eo. destruct (K p m Hp) as (_ & D & _). unfold disj in *. lia.
Qed.

(** [malloc] in a heap that is in order: it returns a block, or null when the kernel
    refuses to grow the process. *)
Lemma malloc_ok c n :
  heap_ok base_ c -> 0 <= n < 2 ^ 31 - 16 ->
  exists p h, malloc base_ grow n (cheap c) = Ok p h /\ brk (cheap c) <= brk h /\
    heap_ok base_ (mkclient h (if p =? 0 then own c else <[p := n]> (own c)) (got c + (brk h - brk (cheap c)))) /\
    (p = 0 -> grow (brk (cheap c)) (8 * core (nunits n)) = false) /\ (p <> 0 -> own c !! p = None).
Proof.
  intros [Hb Hc] Hn. destruct (nunits_bounds n Hn) as (Hn1 & _ & Hn3).
  assert (Hpre : exists h1 t, freep h1 <> 0 /\ brk h1 = brk (cheap c) /\ flist base_ h1 t /\ owned base_ h1 t (own c) /\
      8 * (units t + own_units (own c)) = got c /\
      malloc base_ grow n (cheap c) = malloc_loop grow (2 * size (hdr h1) + 2) (nunits n) (freep h1) (sptr (freep h1) h1) h1).
  { unfold malloc. msimpl. destruct Hc as [(H0 & Ho & Hg)|(t & H0 & Hf & Ho & Hs)].
    - rewrite H0, Ho, Hg. simpl. eexists (set_freep base_ (mkheap (<[base_ := (base_, 0)]> (hdr (cheap c))) (freep (cheap c)) (brk (cheap c)))), [].
      split_and!; [simpl; lia|done| | |by unfold own_units; rewrite map_fold_empty|done].
      + split; simpl; [split; [apply lookup_insert_eq|done]|by repeat constructor|set_solver|exists 0; set_solver].
      + split; intros *; by rewrite lookup_empty.
    - exists (cheap c), t. destruct (Z.eqb_spec (freep (cheap c)) 0); [done|]. by split_and!. }
  destruct Hpre as (h1 & t & H0 & Hb1 & Hf & Ho & Hs & ->). rewrite <- Hb1 in Hb |- *.
  destruct (malloc_loop_spec h1 t (nunits n) Hf Hn1 Hn3 Hb) as [(h' & t' & a & Hr & Hm)|[Hg Hr]]; cbv zeta in Hr; rewrite Hr.
  - destruct (malloc_owned _ _ _ _ _ _ _ Hf Ho Hn Hm) as [Ho' Hno]. pose proof Hm as [Hl Hbb Hu _ Hi _ _].
    exists (a + 8), h'. destruct (Z.eqb_spec (a + 8) 0); [lia|]. split_and!; [done|done| |lia|done].
    split; [simpl; lia|]. right. exists t'. simpl. split_and!; [|done|done|rewrite own_units_insert by done; lia].
    destruct (fl_freep _ _ _ Hl) as [s Hin]. destruct (flist_sizes _ _ Hl _ Hin). simpl in *. lia.
  - exists 0, h1. simpl. split_and!; [done|done| |done|done]. split; [done|]. right. exists t. split_and!; [done..|simpl; lia].
Qed.

Lemma heap_event_ok e c : heap_ok base_ c -> event_ok e -> exists c', run_event base_ grow e c = Some c' /\ heap_ok base_ c'.
Proof.
  intros Hc He. destruct e as [n|p|n]; simpl in *.
  - destruct (malloc_ok c n Hc He) as (p & h & -> & _ & Hk & _). eauto.
  - destruct (own c !! p) as [n|] eqn:Hp; [|eauto]. destruct Hc as [Hb [(_ & Ho & _)|(t & H0 & Hf & Ho & Hs)]].
    { by rewrite Ho, lookup_empty in Hp. }
    destruct (free_owned _ _ _ _ _ Hf Ho Hp) as (h' & t' & -> & Hbr & H0' & Hf' & Ho' & Hu).
    eexists. split; [done|]. split; [simpl; lia|]. right. exists t'. simpl. split_and!; [done..|lia].
  - unfold sbrk. msimpl. destruct (grow (brk (cheap c)) n); [|destruct c; eauto].
    eexists. split; [done|]. destruct Hc as [Hb Hc]. split; [simpl; lia|]. destruct Hc as [Hc|(t & H0 & Hf & Ho & Hs)]; [by left|].
    right. exists t. simpl. split_and!; [done| | |done].
    + destruct Hf as [F1 F2 F3 F4]. split; [done|done| |done]. intros x Hx. specialize (F3 x Hx). simpl. lia.
    + apply (owned_keep (cheap c) _ t t (own c)); [done|done|simpl; lia|].
      intros p m Hp. split; [done|]. intros x Hx. by apply (ow_free _ _ _ _ Ho p m).
Qed.

Lemma heap_events_ok es c :
  heap_ok base_ c -> Forall event_ok es -> exists c', run_events base_ grow es c = Some c' /\ heap_ok base_ c'.
Proof.
  intros Hc Hes. revert c Hc. induction Hes as [|e es He _ IH]; intros c Hc; [eauto|].
  destruct (heap_event_ok e c Hc He) as (c' & E & Hc'). simpl. rewrite E. by apply IH.
Qed.
End Facts.

(** C14. Whatever sequence of [malloc], [free] of owned blocks and [sbrk] a program runs, with
    fewer than 2^31 - 16 bytes asked of each [malloc] and no negative [sbrk] (the events of
    [event_ok]; [malloc_wraps] shows a larger request go wrong), every call returns; the blocks that the program owns never overlap each other, a free block or a
    header of the allocator, and lie in the process; the free list stays sorted, circular
    and fully coalesced; and the free and owned blocks together are exactly the memory had
    from the kernel.  In every such state, [malloc] gives a new block of at least the size
    asked for, and null only when the kernel refuses to grow the process. *)
Theorem heap_safe base_ grow brk0 es :
  0 < base_ -> base_ + 8 <= brk0 -> Forall event_ok es ->
  exists c, run_events base_ grow es (start brk0) = Some c /\ heap_ok base_ c /\
    (forall p n q m, own c !! p = Some n -> own c !! q = Some m -> p < q -> p + n <= q - 8) /\
    (forall p n, own c !! p = Some n -> base_ + 16 <= p /\ p + n <= brk (cheap c)) /\
    (forall n, 0 <= n < 2 ^ 31 - 16 -> exists p h, malloc base_ grow n (cheap c) = Ok p h /\
       (p = 0 -> grow (brk (cheap c)) (8 * core (nunits n)) = false) /\ (p <> 0 -> own c !! p = None)).
Proof.
  intros Hb Hk Hes. destruct (heap_events_ok base_ grow Hb es (start brk0)) as (c & Hr & Hc); [|done|].
  { split; [done|]. left. done. }
  exists c. split_and!; [done|done| | |].
  - intros p n q m Hp Hq Hlt. destruct Hc as [_ [(_ & Ho & _)|(t & _ & _ & Ho & _)]]; [by rewrite Ho, lookup_empty in Hp|].
    destruct (nunits_bounds n (ow_size _ _ _ _ Ho p n Hp)) as (_ & Hn & _).
    assert (Hm := proj1 (nunits_bounds m (ow_size _ _ _ _ Ho q m Hq))).
    assert (D := ow_own _ _ _ _ Ho p n q m Hp Hq ltac:(lia)). unfold disj, oblock in D. simpl in D. lia.
  - intros p n Hp. destruct Hc as [_ [(_ & Ho & _)|(t & _ & _ & Ho & _)]]; [by rewrite Ho, lookup_empty in Hp|].
    destruct (nunits_bounds n (ow_size _ _ _ _ Ho p n Hp)) as (_ & Hn & _). assert (D := ow_in _ _ _ _ Ho p n Hp). lia.
  - intros n Hn. destruct (malloc_ok base_ grow Hb c n Hc Hn) as (p & h & Hm & _ & _ & H1 & H2). eauto.
Qed.

(** Four blocks, the two in the middle freed, and a larger one: the freed blocks are
    merged and serve it, without a system call. *)
Lemma heap_safe_witness :
  let es := [EMalloc 100; EMalloc 200; EMalloc 300; EMalloc 50; EFree 40648; EFree 40336; EMalloc 400] in
  let grow := fun sz n => sz + n <? 2 ^ 31 in
  match run_events 4096 grow es (start 8192) with
  | Some c => heap_ok 4096 c /\ brk (cheap c) = 40960 /\ own c = list_to_map [(40856, 100); (40272, 50); (40448, 400)]
  | None => False
  end.
Proof.
  intros es grow. destruct (heap_safe 4096 grow 8192 es) as (c & Hr & Hc & _); [lia|lia|repeat constructor; simpl; lia|].
  assert (E : (fun c => (brk (cheap c), own c)) <$> run_events 4096 grow es (start 8192) =
    Some (40960, list_to_map [(40856, 100); (40272, 50); (40448, 400)])) by (vm_compute; reflexivity).
  rewrite Hr in E |- *. injection E as E1 E2. exact (conj Hc (conj E1 E2)).
Defined.

(** The sum in [malloc] wraps: asked for nearly four gigabytes, it returns a block of no
    bytes at all. *)
Lemma malloc_wraps :
  match malloc 4096 (fun sz n => sz + n <? 2 ^ 31) (2 ^ 32 - 7) (mkheap ∅ 0 8192) with
  | Ok p h => p <> 0 /\ ssize (p - 8) h = 1
  | _ => False
  end.
Proof. vm_compute. split; [discriminate|reflexivity]. Qed.
End Umalloc.
