(* ===== verification/Ide.v ===== *)
(** * The IDE disk driver (system/storage/ide.c)

    The driver queues the buffers to transfer through [qnext] and keeps the disk busy
    with the first.  The disk controller is hardware: [Ata] is what the driver does to
    it, through its ports, and [AtaLaws] what the ATA protocol promises in return, for
    commands that transfer one sector.

    The theorem says that the driver implements a disk that serves requests in the
    order of the calls of [iderw], which [Spec] describes. *)

From S2P Require Import Prelude Spinlock Bio.
Import SleepLock.

Definition FSSIZE : Z := 4000.
Definition IDE_BSY : Z := 128.
Definition IDE_DRDY : Z := 64.
Definition IDE_DF : Z := 32.
Definition IDE_ERR : Z := 1.
Definition IDE_CMD_READ : Z := 32.
Definition IDE_CMD_WRITE : Z := 48.
Definition IDE_CMD_RDMUL : Z := 196.
Definition IDE_CMD_WRMUL : Z := 197.
Definition SECTOR_SIZE : Z := 512.

(** ** The controller *)

(** A transfer in progress, with the drive and the sector. *)
Inductive req := Read (drive sector : Z) | Write (drive sector : Z) (bs : block).

Class Ata (D : Type) := {
  outb : Z -> Z -> D -> D;
  outsl : list Z -> D -> D;
  inb : Z -> D -> Z * D;
  insl : D -> list Z * D;
  (** The controller finishes the transfer in progress and raises its interrupt. *)
  finish : D -> D
}.

(** The writes to the ports that select one sector. *)
Definition select `{Ata D} (drive sector : Z) (d : D) : D :=
  outb 502 (Z.lor (Z.lor 224 (Z.shiftl drive 4)) (Z.land (Z.shiftr sector 24) 15))
    (outb 501 (Z.land (Z.shiftr sector 16) 255)
      (outb 500 (Z.land (Z.shiftr sector 8) 255)
        (outb 499 (Z.land sector 255) (outb 498 1 (outb 1014 0 d))))).

Class AtaLaws (D : Type) `{Ata D} := {
  pending : D -> option req;
  media : D -> Z -> Z -> block;
  (** How long the controller stays busy. *)
  delay : D -> nat;
  media_length : forall d drive sector, length (media d drive sector) = BSIZE;
  (** Reading the status changes nothing but the wait. *)
  inb_wait : forall d, let '(r, d') := inb 503 d in
    pending d' = pending d /\ media d' = media d /\ fst (insl d') = fst (insl d) /\
    (Z.land r (Z.lor IDE_BSY IDE_DRDY) = IDE_DRDY \/ (delay d' < delay d)%nat);
  (** The commands. *)
  start_read : forall d drive sector, pending d = None -> 0 <= drive <= 1 -> 0 <= sector < 2 ^ 28 ->
    let d' := outb 503 IDE_CMD_READ (select drive sector d) in
    pending d' = Some (Read drive sector) /\ media d' = media d;
  start_write : forall d drive sector bs, pending d = None -> 0 <= drive <= 1 -> 0 <= sector < 2 ^ 28 -> length bs = BSIZE ->
    let d' := outsl bs (outb 503 IDE_CMD_WRITE (select drive sector d)) in
    pending d' = Some (Write drive sector bs) /\ media d' = media d;
  (** The end of a transfer, without an error of the medium. *)
  finish_read : forall d drive sector, pending d = Some (Read drive sector) ->
    pending (finish d) = None /\ media (finish d) = media d /\ fst (insl (finish d)) = media d drive sector;
  finish_ok : forall d, pending d = None -> Z.land (fst (inb 503 d)) (Z.lor IDE_DF IDE_ERR) = 0;
  finish_write : forall d drive sector bs, pending d = Some (Write drive sector bs) -> length bs = BSIZE ->
    pending (finish d) = None /\
    forall v s, media (finish d) v s = if (v =? drive) && (s =? sector) then bs else media d v s;
  insl_keeps : forall d, pending (snd (insl d)) = pending d /\ media (snd (insl d)) = media d
}.

(** ** The driver *)
Module Ide.

(** The fields of [struct buf] that the driver uses. *)
Record buf := mkbuf {
  flags : Z;
  dev : Z;
  blockno : Z;
  lock : sleeplock;
  qnext : option nat;
  data : block
}.

Section Driver.
Context {D : Type} `{!Ata D}.

Record ide := mkide {
  bufs : list buf;
  idequeue : option nat;
  havedisk1 : bool;
  ctl : D
}.

Definition buf0 : buf := mkbuf 0 0 0 initsleeplock None (replicate BSIZE 0).
Definition buf_at (b : nat) (s : ide) : buf := default buf0 (bufs s !! b).
Definition set_ctl (d : D) (s : ide) : ide := mkide (bufs s) (idequeue s) (havedisk1 s) d.
Definition set_queue (q : option nat) (s : ide) : ide := mkide (bufs s) q (havedisk1 s) (ctl s).
Definition set_buf (b : nat) (x : buf) (s : ide) : ide := mkide (<[b := x]> (bufs s)) (idequeue s) (havedisk1 s) (ctl s).
Definition set_flags (v : Z) (x : buf) : buf := mkbuf v (dev x) (blockno x) (lock x) (qnext x) (data x).
Definition set_qnext (v : option nat) (x : buf) : buf := mkbuf (flags x) (dev x) (blockno x) (lock x) v (data x).
Definition set_data (v : block) (x : buf) : buf := mkbuf (flags x) (dev x) (blockno x) (lock x) (qnext x) v.
Definition upd (b : nat) (f : buf -> buf) : M ide unit := modify (fun s => set_buf b (f (buf_at b s)) s).
Definition port (f : D -> D) : M ide unit := modify (fun s => set_ctl (f (ctl s)) s).
Definition port_in (f : D -> Z * D) : M ide Z := fun s => let '(r, d) := f (ctl s) in Ok r (set_ctl d s).

(** The fuel is the controller's delay. *)
Fixpoint idewait_loop (fuel : nat) : M ide Z :=
  r ← port_in (inb 503);
  if negb (Z.land r (Z.lor IDE_BSY IDE_DRDY) =? IDE_DRDY) then
    match fuel with O => nofuel | S f => idewait_loop f end
  else mret r.

Definition idewait (delay : D -> nat) (checkerr : bool) : M ide Z :=
  s ← get;
  r ← idewait_loop (delay (ctl s));
  if checkerr && negb (Z.land r (Z.lor IDE_DF IDE_ERR) =? 0) then mret (-1) else mret 0.

(** [ideinit], after the lock and the interrupt line. *)
Fixpoint probe_loop (n : nat) : M ide unit :=
  match n with
  | O => mret tt
  | S n =>
      r ← port_in (inb 503);
      if negb (r =? 0) then modify (fun s => mkide (bufs s) (idequeue s) true (ctl s)) else probe_loop n
  end.

Definition ideinit (delay : D -> nat) : M ide unit :=
  idewait delay false ;;
  port (outb 502 (Z.lor 224 (Z.shiftl 1 4))) ;;
  probe_loop 1000 ;;
  port (outb 502 (Z.lor 224 (Z.shiftl 0 4))).

Definition idestart (delay : D -> nat) (b : option nat) : M ide unit :=
  match b with
  | None => panic "idestart"
  | Some b =>
      x ← gets (buf_at b);
      if blockno x >=? FSSIZE then panic "incorrect blockno" else
      let sector_per_block := Z.of_nat BSIZE / SECTOR_SIZE in
      let sector := blockno x * sector_per_block in
      let read_cmd := if sector_per_block =? 1 then IDE_CMD_READ else IDE_CMD_RDMUL in
      let write_cmd := if sector_per_block =? 1 then IDE_CMD_WRITE else IDE_CMD_WRMUL in
      if sector_per_block >? 7 then panic "idestart" else
      idewait delay false ;;
      port (outb 1014 0) ;;
      port (outb 498 sector_per_block) ;;
      port (outb 499 (Z.land sector 255)) ;;
      port (outb 500 (Z.land (Z.shiftr sector 8) 255)) ;;
      port (outb 501 (Z.land (Z.shiftr sector 16) 255)) ;;
      port (outb 502 (Z.lor (Z.lor 224 (Z.shiftl (Z.land (dev x) 1) 4)) (Z.land (Z.shiftr sector 24) 15))) ;;
      if negb (Z.land (flags x) B_DIRTY =? 0) then
        port (outb 503 write_cmd) ;;
        port (outsl (data x))
      else port (outb 503 read_cmd)
  end.

(** [insl(0x1f0, b->data, BSIZE/4)]. *)
Definition read_data (b : nat) : M ide unit :=
  modify (fun s => set_buf b (set_data (fst (insl (ctl s))) (buf_at b s)) (set_ctl (snd (insl (ctl s))) s)).

(** The interrupt handler; the processes that wait on the buffer look at its flags again
    in [iderw_wait]. *)
Definition ideintr (delay : D -> nat) : M ide unit :=
  s ← get;
  match idequeue s with
  | None => mret tt
  | Some b =>
      let x := buf_at b s in
      modify (set_queue (qnext x)) ;;
      (if Z.land (flags x) B_DIRTY =? 0 then
         r ← idewait delay true;
         if r >=? 0 then read_data b else mret tt
       else mret tt) ;;
      upd b (fun x => set_flags (Z.lor (flags x) B_VALID) x) ;;
      upd b (fun x => set_flags (Z.land (flags x) (Z.lnot B_DIRTY)) x) ;;
      s ← get;
      match idequeue s with
      | Some n => idestart delay (Some n)
      | None => mret tt
      end
  end.

(** The walk of [pp] to the end of the queue: the last buffer, if any. *)
Fixpoint queue_last (fuel : nat) (last pp : option nat) : M ide (option nat) :=
  match pp with
  | None => mret last
  | Some b =>
      match fuel with
      | O => nofuel
      | S f => x ← gets (buf_at b); queue_last f (Some b) (qnext x)
      end
  end.

(** [iderw] up to its wait, called by process [pid].  The walk is bounded by the number
    of buffers. *)
Definition iderw_start (delay : D -> nat) (pid : Z) (b : nat) : M ide unit :=
  x ← gets (buf_at b);
  if negb (holdingsleep pid (lock x)) then panic "iderw: buf not locked" else
  if Z.land (flags x) (Z.lor B_VALID B_DIRTY) =? B_VALID then panic "iderw: nothing to do" else
  s ← get;
  if negb (dev x =? 0) && negb (havedisk1 s) then panic "iderw: ide disk 1 not present" else
  upd b (set_qnext None) ;;
  s ← get;
  last ← queue_last (length (bufs s)) None (idequeue s);
  match last with
  | None => modify (set_queue (Some b))
  | Some l => upd l (set_qnext (Some b))
  end ;;
  s ← get;
  if bool_decide (idequeue s = Some b) then idestart delay (Some b) else mret tt.

(** The condition of [iderw]'s wait, looked at again at each wakeup: whether it is over. *)
Definition iderw_wait (b : nat) : M ide bool :=
  x ← gets (buf_at b);
  mret (Z.land (flags x) (Z.lor B_VALID B_DIRTY) =? B_VALID).
End Driver.
Arguments ide : clear implicits.
Arguments idestart : simpl never.
Arguments idewait : simpl never.

(** ** The driver at work

    Processes call [iderw] on buffers whose sleep lock they hold, the controller
    interrupts, and a process in [iderw] looks at its buffer again.  A buffer that is not
    in a call of [iderw] may be changed in any way by its owner. *)
Inductive event :=
  | ECall (pid : Z) (b : nat)
  | EIntr
  | EWake (b : nat)
  | ESet (b : nat) (x : buf).

(** The conditions under which the code may call [iderw]. *)
Definition can_call (have1 : bool) (pid : Z) (x : buf) : bool :=
  holdingsleep pid (lock x) && negb (Z.land (flags x) (Z.lor B_VALID B_DIRTY) =? B_VALID) &&
  ((dev x =? 0) || have1) && (0 <=? blockno x) && (blockno x <? FSSIZE).

(** What the owner of a buffer may not change: it holds a block, and the queue is the
    driver's. *)
Definition owner_set (old x : buf) : option buf :=
  if bool_decide (length (data x) = BSIZE) then Some (set_qnext (qnext old) x) else None.

Section System.
Context {D : Type} `{!Ata D}.

(** The driver, and the buffers whose call of [iderw] has not returned. *)
Record sys := mksys { drv : ide D; inuse : list nat }.

Definition run_event (delay : D -> nat) (e : event) (s : sys) : outcome sys unit :=
  let keep (m : M (ide D) unit) (u : list nat) :=
    match m (drv s) with
    | Ok _ d => Ok tt (mksys d u)
    | Panic msg => Panic msg
    | Asleep d => Asleep (mksys d u)
    | NoFuel => NoFuel
    end in
  match e with
  | ECall pid b =>
      match bufs (drv s) !! b with
      | Some x =>
          if bool_decide (b ∉ inuse s) && can_call (havedisk1 (drv s)) pid x
          then keep (iderw_start delay pid b) (b :: inuse s) else Ok tt s
      | None => Ok tt s
      end
  | EIntr =>
      match idequeue (drv s) with
      | None => keep (ideintr delay) (inuse s)
      | Some _ => keep (port finish ;; ideintr delay) (inuse s)
      end
  | EWake b =>
      match iderw_wait b (drv s) with
      | Ok true d => Ok tt (mksys d (filter (.≠ b) (inuse s)))
      | _ => Ok tt s
      end
  | ESet b x =>
      match bufs (drv s) !! b with
      | Some old =>
          match owner_set old x with
          | Some x => if bool_decide (b ∉ inuse s) then keep (modify (set_buf b x)) (inuse s) else Ok tt s
          | None => Ok tt s
          end
      | None => Ok tt s
      end
  end.

Fixpoint run_events (delay : D -> nat) (es : list event) : M sys unit :=
  match es with
  | [] => mret tt
  | e :: es => run_event delay e ;; run_events delay es
  end.
End System.
Arguments sys : clear implicits.

(** ** The specification: a disk that serves requests in order *)
Module Spec.
Record spec := mkspec {
  sbufs : list buf;
  smedia : Z -> Z -> block;
  squeue : list nat;
  sinuse : list nat
}.

Definition drive (x : buf) : Z := Z.land (dev x) 1.
Definition dirty (x : buf) : bool := negb (Z.land (flags x) B_DIRTY =? 0).

(** One transfer: the buffer as it is left, and the medium. *)
Definition transfer (x : buf) (m : Z -> Z -> block) : buf * (Z -> Z -> block) :=
  let done v := Z.land (Z.lor v B_VALID) (Z.lnot B_DIRTY) in
  if dirty x then
    (set_flags (done (flags x)) x, fun v s => if (v =? drive x) && (s =? blockno x) then data x else m v s)
  else (set_flags (done (flags x)) (set_data (m (drive x) (blockno x)) x), m).

Definition step (have1 : bool) (e : event) (a : spec) : spec :=
  match e with
  | ECall pid b =>
      match sbufs a !! b with
      | Some x =>
          if bool_decide (b ∉ sinuse a) && can_call have1 pid x
          then mkspec (sbufs a) (smedia a) (squeue a ++ [b]) (b :: sinuse a) else a
      | None => a
      end
  | EIntr =>
      match squeue a with
      | [] => a
      | b :: q =>
          match sbufs a !! b with
          | Some x => let '(x', m) := transfer x (smedia a) in mkspec (<[b := x']> (sbufs a)) m q (sinuse a)
          | None => a
          end
      end
  | EWake b => if bool_decide (b ∈ squeue a) then a else mkspec (sbufs a) (smedia a) (squeue a) (filter (.≠ b) (sinuse a))
  | ESet b x =>
      match sbufs a !! b with
      | Some old =>
          match owner_set old x with
          | Some x => if bool_decide (b ∉ sinuse a) then mkspec (<[b := x]> (sbufs a)) (smedia a) (squeue a) (sinuse a) else a
          | None => a
          end
      | None => a
      end
  end.

Definition steps (have1 : bool) (es : list event) (a : spec) : spec := foldl (fun a e => step have1 e a) a es.
End Spec.
Import Spec.

(** ** The queue *)
Fixpoint chain (bs : list buf) (h : option nat) (q : list nat) : Prop :=
  match q with
  | [] => h = None
  | b :: q => h = Some b /\ exists x, bs !! b = Some x /\ chain bs (qnext x) q
  end.

Lemma chain_frame bs bs' q : forall h,
  (forall b, b ∈ q -> qnext <$> bs' !! b = qnext <$> bs !! b) -> chain bs h q -> chain bs' h q.
Proof.
  induction q as [|b q IH]; intros h Hf; simpl; [done|]. intros (-> & x & Hx & Hc). split; [done|].
  assert (E := Hf b ltac:(left)). rewrite Hx in E. simpl in E. destruct (bs' !! b) as [y|]; [|done].
  injection E as E. exists y. split; [done|]. rewrite E. apply IH; [|done]. intros c Hc'. apply Hf. by right.
Qed.

Lemma chain_lookup bs q : forall h b, chain bs h q -> b ∈ q -> is_Some (bs !! b).
Proof.
  induction q as [|c q IH]; intros h b; simpl; [set_solver|]. intros (_ & x & Hx & Hc) [->|Hb]%elem_of_cons; eauto.
Qed.

(** Linking [b] at the end. *)
Lemma chain_append bs q l b : forall h xl,
  chain bs h (q ++ [l]) -> NoDup (q ++ [l]) -> b ∉ q ++ [l] -> bs !! l = Some xl -> (qnext <$> bs !! b) = Some None ->
  chain (<[l := set_qnext (Some b) xl]> bs) h (q ++ [l; b]).
Proof.
  induction q as [|c q IH]; intros h xl; simpl.
  - intros (-> & x & Hx & Hn) _ Hb Hl Hbn. split; [done|]. exists (set_qnext (Some b) xl).
    split; [by rewrite list_lookup_insert_eq by (by eapply lookup_lt_Some)|]. simpl. split; [done|].
    destruct (bs !! b) as [y|] eqn:Ey; [|done]. exists y. rewrite list_lookup_insert_ne by set_solver. by injection Hbn as ->.
  - intros (-> & x & Hx & Hc) Hnd Hb Hl Hbn. apply NoDup_cons in Hnd as [Hcq Hnd]. split; [done|]. exists x.
    split; [rewrite list_lookup_insert_ne by set_solver; done|]. apply (IH _ xl); [done|done|set_solver|done|done].
Qed.

(** ** The simulation *)
Definition strip : buf -> buf := set_qnext None.

Definition req_of (x : buf) : req :=
  if dirty x then Write (drive x) (blockno x) (data x) else Read (drive x) (blockno x).

(** A buffer that waits for the disk. *)
Definition queued_ok (x : buf) : Prop :=
  Z.land (flags x) (Z.lor B_VALID B_DIRTY) <> B_VALID /\ 0 <= blockno x < FSSIZE.

(** The invariant of the specification: the queue holds buffers in use, once each, and
    the buffers in use that are not queued are done. *)
Record spec_ok (a : spec) : Prop := {
  so_nodup : NoDup (squeue a);
  so_sub : squeue a ⊆ sinuse a;
  so_queued : forall b x, b ∈ squeue a -> sbufs a !! b = Some x -> queued_ok x;
  so_done : forall b x, b ∈ sinuse a -> b ∉ squeue a -> sbufs a !! b = Some x -> Z.land (flags x) (Z.lor B_VALID B_DIRTY) = B_VALID;
  so_range : forall b, b ∈ sinuse a -> is_Some (sbufs a !! b);
  so_data : forall b x, sbufs a !! b = Some x -> length (data x) = BSIZE;
  so_media : forall v n, length (smedia a v n) = BSIZE
}.

Lemma done_flags v : Z.land (Z.land (Z.lor v B_VALID) (Z.lnot B_DIRTY)) (Z.lor B_VALID B_DIRTY) = B_VALID.
Proof.
  rewrite <- Z.land_assoc. change (Z.land (Z.lnot B_DIRTY) (Z.lor B_VALID B_DIRTY)) with B_VALID.
  apply Z.bits_inj'. intros n _. rewrite Z.land_spec, Z.lor_spec. by destruct (Z.testbit v n), (Z.testbit B_VALID n).
Qed.

Lemma can_call_ok have1 pid x : can_call have1 pid x = true -> queued_ok x.
Proof. intros Hc. unfold can_call in Hc. do 4 (apply andb_prop in Hc as [Hc ?]). zbool. split; [done|lia]. Qed.

Lemma transfer_ok x m :
  length (data x) = BSIZE -> (forall v n, length (m v n) = BSIZE) ->
  let '(x', m') := transfer x m in
  Z.land (flags x') (Z.lor B_VALID B_DIRTY) = B_VALID /\ length (data x') = BSIZE /\ forall v n, length (m' v n) = BSIZE.
Proof.
  intros Hx Hm. unfold transfer. destruct (dirty x); simpl; rewrite done_flags; split_and!; auto.
  intros v n. destruct ((v =? drive x) && (n =? blockno x)); auto.
Qed.

Lemma lookup_insert_cases {A} (l : list A) i j x y :
  <[i := x]> l !! j = Some y -> i = j /\ y = x \/ i <> j /\ l !! j = Some y.
Proof. intros H. apply list_lookup_insert_Some in H as [(-> & -> & _)|[Hne H]]; auto. Qed.

Lemma step_ok have1 e a : spec_ok a -> spec_ok (step have1 e a).
Proof.
  intros Ha. pose proof Ha as [R1 R2 R3 R4 R5 R6 R7]. destruct e as [pid b| |b|b x]; simpl.
  - destruct (sbufs a !! b) as [x|] eqn:Hb; [|done]. case_bool_decide as Hu; simpl; [|done].
    destruct (can_call have1 pid x) eqn:Hc; [|done]. apply can_call_ok in Hc. split; simpl; auto.
    + apply NoDup_app. split_and!; [done|set_solver|apply NoDup_singleton].
    + set_solver.
    + intros c y [Hin| ->%list_elem_of_singleton]%elem_of_app Hy; [eauto|congruence].
    + intros c y Hin Hnq. apply R4; set_solver.
    + intros c [->|Hin]%elem_of_cons; eauto.
  - destruct (squeue a) as [|b q] eqn:Hq; [done|]. destruct (sbufs a !! b) as [x|] eqn:Hb; [|done].
    assert (T := transfer_ok x (smedia a) (R6 _ _ Hb) R7). destruct (transfer x (smedia a)) as [x' m]. destruct T as (T1 & T2 & T3).
    apply NoDup_cons in R1 as [Hbq R1]. split; simpl; auto.
    + set_solver.
    + intros c y Hin [[<- _]|[_ Hy]]%lookup_insert_cases; [done|]. apply (R3 c y); [by right|done].
    + intros c y Hin Hnq [[<- ->]|[Hne Hy]]%lookup_insert_cases; [done|]. apply (R4 c y); [done|set_solver|done].
    + intros c Hin. destruct (R5 c Hin) as [y Hy]. destruct (decide (b = c)) as [<-|Hne].
      * rewrite list_lookup_insert_eq by (by eapply lookup_lt_Some). done.
      * by rewrite list_lookup_insert_ne.
    + intros c y [[<- ->]|[Hne Hy]]%lookup_insert_cases; eauto.
  - case_bool_decide as Hin; [done|]. split; simpl; auto.
    + intros c Hc. apply list_elem_of_filter. split; [by intros ->|by apply R2].
    + intros c y [_ Hc]%list_elem_of_filter. eauto.
    + intros c [_ Hc]%list_elem_of_filter. eauto.
  - destruct (sbufs a !! b) as [old|] eqn:Hb; [|done]. unfold owner_set. case_bool_decide as Hl; [|done].
    case_bool_decide as Hu; [|done]. split; simpl; auto.
    + intros c y Hin [[<- ->]|[Hne Hy]]%lookup_insert_cases; [by apply R2 in Hin|eauto].
    + intros c y Hin Hnq [[<- ->]|[Hne Hy]]%lookup_insert_cases; [done|eauto].
    + intros c Hin. destruct (R5 c Hin) as [y Hy]. by rewrite list_lookup_insert_ne by (intros ->; done).
    + intros c y [[<- ->]|[Hne Hy]]%lookup_insert_cases; [done|eauto].
Qed.

Section Facts.
Context {D : Type} `{!Ata D, !AtaLaws D}.

Record refines (s : sys D) (a : spec) : Prop := {
  rf_bufs : strip <$> bufs (drv s) = sbufs a;
  rf_media : forall v n, media (ctl (drv s)) v n = smedia a v n;
  rf_queue : chain (bufs (drv s)) (idequeue (drv s)) (squeue a);
  rf_inuse : inuse s = sinuse a;
  rf_pending : match squeue a with
    | [] => pending (ctl (drv s)) = None
    | b :: _ => exists x, sbufs a !! b = Some x /\ pending (ctl (drv s)) = Some (req_of x)
    end
}.

Lemma idewait_loop_run : forall fuel (s : ide D), (delay (ctl s) <= fuel)%nat ->
  exists r d0 d, idewait_loop fuel s = Ok r (set_ctl d s) /\ pending d = pending (ctl s) /\ media d = media (ctl s) /\
    fst (insl d) = fst (insl (ctl s)) /\ r = fst (inb 503 d0) /\ pending d0 = pending (ctl s).
Proof.
  induction fuel as [|f IH]; intros s Hd.
  all: assert (L := inb_wait (ctl s)); simpl; unfold port_in; msimpl; destruct (inb 503 (ctl s)) as [r d] eqn:E.
  all: destruct L as (Hp & Hm & Hi & Hw); destruct (Z.eqb_spec (Z.land r (Z.lor IDE_BSY IDE_DRDY)) IDE_DRDY) as [Hr|Hr]; simpl.
  1, 3: exists r, (ctl s), d; rewrite E; done.
  - destruct Hw; [done|lia].
  - destruct (IH (set_ctl d s)) as (r' & d0 & d' & Hrun & Hp' & Hm' & Hi' & Hr' & Hd0); [simpl; destruct Hw; [done|lia]|].
    exists r', d0, d'. simpl in *. split_and!; [exact Hrun|congruence..].
Qed.

Lemma idewait_run ce (s : ide D) : ce = false \/ pending (ctl s) = None ->
  exists d, idewait delay ce s = Ok 0 (set_ctl d s) /\ pending d = pending (ctl s) /\ media d = media (ctl s) /\
    fst (insl d) = fst (insl (ctl s)).
Proof.
  intros Hce. destruct (idewait_loop_run (delay (ctl s)) s ltac:(lia)) as (r & d0 & d & Hr & Hp & Hm & Hi & -> & Hd0).
  exists d. split; [|done]. unfold idewait. msimpl. rewrite Hr. destruct Hce as [->|Hn]; [done|].
  rewrite (finish_ok d0) by congruence. by destruct ce.
Qed.

Lemma drive_range x : 0 <= drive x <= 1.
Proof.
  assert (E : drive x = dev x mod 2 ^ 1) by exact (Z.land_ones (dev x) 1 ltac:(lia)).
  assert (B := Z.mod_pos_bound (dev x) (2 ^ 1)). lia.
Qed.

Lemma idestart_run b x (s : ide D) :
  bufs s !! b = Some x -> 0 <= blockno x < FSSIZE -> length (data x) = BSIZE -> pending (ctl s) = None ->
  exists d, idestart delay (Some b) s = Ok tt (set_ctl d s) /\ pending d = Some (req_of x) /\ media d = media (ctl s).
Proof.
  intros Hb Hn Hl Hp. assert (Ex : buf_at b s = x) by (unfold buf_at; by rewrite Hb). unfold FSSIZE in *.
  destruct (idewait_run false s (or_introl eq_refl)) as (d & Hw & Hpd & Hm & _). rewrite Hp in Hpd.
  assert (Hdr := drive_range x).
  unfold idestart, gets, port. unfold mbind at 1, M_bind at 1. rewrite Ex.
  destruct (Z.geb_spec (blockno x) FSSIZE); [unfold FSSIZE in *; lia|].
  change (Z.of_nat BSIZE / SECTOR_SIZE) with 1. simpl Z.eqb. simpl Z.gtb. cbv iota. rewrite (Z.mul_1_r (blockno x)).
  msimpl. rewrite Hw. simpl. unfold req_of, dirty.
  destruct (negb (Z.land (flags x) B_DIRTY =? 0)); eexists; (split; [reflexivity|]); rewrite <- Hm.
  - by apply (start_write d (drive x) (blockno x) (data x)); [| |lia|].
  - by apply (start_read d (drive x) (blockno x)); [| |lia].
Qed.

Lemma queue_last_run (s : ide D) q : forall fuel last h,
  chain (bufs s) h q -> (length q <= fuel)%nat ->
  queue_last fuel last h s = Ok (match list.last q with Some l => Some l | None => last end) s.
Proof.
  induction q as [|b q IH]; intros fuel last h Hc Hf; simpl in *; [subst h; by destruct fuel|].
  destruct Hc as (-> & x & Hx & Hc). destruct fuel as [|f]; [lia|]. simpl. msimpl.
  unfold buf_at. rewrite Hx. simpl. rewrite (IH _ _ _ Hc) by lia. destruct q as [|c q]; [done|].
  change (list.last (b :: c :: q)) with (list.last (c :: q)). destruct (list.last (c :: q)) eqn:E; [done|]. by apply last_None in E.
Qed.

Lemma strip_lookup (s : sys D) a b x :
  strip <$> bufs (drv s) = sbufs a -> bufs (drv s) !! b = Some x -> sbufs a !! b = Some (strip x).
Proof. intros <- Hb. by rewrite list_lookup_fmap, Hb. Qed.

(** The first part of [iderw]: the buffer is the last of the queue, and the disk is
    started when it is the first. *)
Lemma iderw_start_run pid b x (s : ide D) q :
  bufs s !! b = Some x -> can_call (havedisk1 s) pid x = true -> chain (bufs s) (idequeue s) q -> b ∉ q ->
  (length q <= length (bufs s))%nat ->
  iderw_start delay pid b s =
    match list.last q with
    | None => idestart delay (Some b) (set_queue (Some b) (set_buf b (set_qnext None x) s))
    | Some l =>
        Ok tt (set_buf l (set_qnext (Some b) (buf_at l (set_buf b (set_qnext None x) s))) (set_buf b (set_qnext None x) s))
    end.
Proof.
  intros Hb Hc Hq Hbq Hlen. unfold can_call in Hc. do 4 (apply andb_prop in Hc as [Hc ?]).
  match goal with H : negb (_ =? B_VALID) = true |- _ => apply negb_true_iff in H; rename H into Hfl end.
  match goal with H : (_ || _)%bool = true |- _ => rename H into Hdev end.
  set (s1 := set_buf b (set_qnext None x) s).
  assert (Hc1 : chain (bufs s1) (idequeue s) q).
  { eapply chain_frame; [|exact Hq]. intros c Hcq. simpl. rewrite list_lookup_insert_ne by set_solver. done. }
  assert (Hql := queue_last_run s1 q (length (bufs s1)) None _ Hc1 ltac:(simpl; rewrite length_insert; lia)).
  assert (Ex : buf_at b s = x) by (unfold buf_at; by rewrite Hb).
  unfold iderw_start, gets, upd, get, modify. unfold mbind, M_bind. rewrite Ex, Hc, Hfl. cbv [negb].
  assert (Ed : (negb (dev x =? 0) && negb (havedisk1 s)) = false) by (destruct (dev x =? 0); [done|]; simpl in *; by rewrite Hdev).
  unfold negb in Ed. rewrite Ed. cbv [negb]. rewrite Ex. fold s1. change (idequeue s1) with (idequeue s).
  rewrite Hql.
  destruct (list.last q) as [l|] eqn:El; simpl.
  - rewrite bool_decide_false; [done|]. intros E. apply Hbq. destruct q as [|c q]; [done|]. destruct Hq as [Eh _]. rewrite E in Eh. injection Eh as ->. left.
  - by rewrite bool_decide_true.
Qed.

Lemma chain_bound (s : ide D) q : chain (bufs s) (idequeue s) q -> NoDup q -> (length q <= length (bufs s))%nat.
Proof.
  intros Hc Hn. rewrite <- (length_seq (length (bufs s)) 0). apply submseteq_length, NoDup_submseteq; [done|].
  intros b Hb. destruct (chain_lookup _ _ _ _ Hc Hb) as [x Hx]. apply elem_of_seq. apply lookup_lt_Some in Hx. lia.
Qed.

Lemma strip_insert (bs : list buf) b x y : bs !! b = Some x -> strip y = strip x -> strip <$> <[b := y]> bs = strip <$> bs.
Proof. intros Hb E. rewrite list_fmap_insert, E. apply list_insert_id. by rewrite list_lookup_fmap, Hb. Qed.

Lemma strip_spec (s : sys D) a b x : refines s a -> bufs (drv s) !! b = Some x -> sbufs a !! b = Some (strip x).
Proof. intros R Hb. rewrite <- (rf_bufs _ _ R). by rewrite list_lookup_fmap, Hb. Qed.

Lemma strip_back (s : sys D) a b y : refines s a -> sbufs a !! b = Some y -> exists x, bufs (drv s) !! b = Some x /\ y = strip x.
Proof. intros R. rewrite <- (rf_bufs _ _ R), list_lookup_fmap. destruct (bufs (drv s) !! b); simpl; [|done]. intros [= <-]. eauto. Qed.

Lemma strip_req x : req_of (strip x) = req_of x.
Proof. done. Qed.

(** ** The steps *)
Lemma call_refines pid b x (s : sys D) a :
  refines s a -> spec_ok a -> bufs (drv s) !! b = Some x -> b ∉ inuse s -> can_call (havedisk1 (drv s)) pid x = true ->
  exists d, iderw_start delay pid b (drv s) = Ok tt d /\ havedisk1 d = havedisk1 (drv s) /\
    refines (mksys d (b :: inuse s)) (mkspec (sbufs a) (smedia a) (squeue a ++ [b]) (b :: sinuse a)).
Proof.
  intros R Ha Hb Hu Hc. pose proof R as [R1 R2 R3 R4 R5].
  assert (Hbq : b ∉ squeue a) by (rewrite R4 in Hu; intros Hin; by apply Hu, (so_sub _ Ha)).
  rewrite (iderw_start_run pid b x (drv s) (squeue a) Hb Hc R3 Hbq (chain_bound _ _ R3 (so_nodup _ Ha))).
  set (s1 := set_buf b (set_qnext None x) (drv s)).
  assert (Hb1 : bufs s1 !! b = Some (set_qnext None x)) by (apply list_lookup_insert_eq; by eapply lookup_lt_Some).
  assert (Hc1 : chain (bufs s1) (idequeue s1) (squeue a)).
  { eapply chain_frame; [|exact R3]. intros c Hcq. simpl. rewrite list_lookup_insert_ne by set_solver. done. }
  assert (Hst : strip <$> bufs s1 = sbufs a) by (rewrite <- R1; by apply (strip_insert _ b x)).
  assert (Hnd := so_nodup _ Ha). destruct (list.last (squeue a)) as [l|] eqn:El.
  - apply last_Some in El as [q Eq]. rewrite Eq in *. eexists. split; [done|]. split; [done|].
    destruct (chain_lookup _ _ _ l Hc1 ltac:(set_solver)) as [xl Hl]. unfold buf_at. rewrite Hl. split; simpl.
    + rewrite <- Hst. by apply (strip_insert _ l xl).
    + exact R2.
    + rewrite <- (assoc_L (++)). apply chain_append; [exact Hc1|done|done|exact Hl|]. exact (f_equal (fmap qnext) Hb1).
    + by rewrite R4.
    + destruct q; exact R5.
  - apply last_None in El. rewrite El in *. simpl in *.
    assert (Hx := strip_spec _ _ _ _ R Hb).
    destruct (idestart_run b (set_qnext None x) (set_queue (Some b) s1)) as (d & Hd & Hp & Hm); [exact Hb1| | |exact R5|].
    + apply (proj2 (can_call_ok _ _ _ Hc)).
    + apply (so_data _ Ha _ _ Hx).
    + exists (set_ctl d (set_queue (Some b) s1)). split; [exact Hd|]. split; [done|]. split; simpl.
      * exact Hst.
      * intros v n. rewrite Hm. apply R2.
      * split; [done|]. exists (set_qnext None x). done.
      * by rewrite R4.
      * exists (strip x). done.
Qed.

(** The handler up to the start of the next transfer. *)
Lemma ideintr_run (s : ide D) b x m :
  idequeue s = Some b -> bufs s !! b = Some x -> length (data x) = BSIZE -> pending (ctl s) = Some (req_of x) -> (forall v n, media (ctl s) v n = m v n) ->
  exists d x' m', pending d = None /\ (forall v n, media d v n = m' v n) /\ transfer (strip x) m = (strip x', m') /\
    (port finish ;; ideintr delay) s =
      let s' := mkide (<[b := x']> (bufs s)) (qnext x) (havedisk1 s) d in
      match qnext x with Some n => idestart delay (Some n) s' | None => Ok tt s' end.
Proof.
  intros Eh Hx Hl Hp Hm. assert (Hlt := lookup_lt_Some _ _ _ Hx).
  unfold req_of in Hp. unfold transfer. change (dirty (strip x)) with (dirty x).
  unfold port, ideintr, upd, read_data. destruct (dirty x) eqn:Hd; unfold dirty in Hd.
  - destruct (finish_write _ _ _ _ Hp Hl) as [Hf Hw]. apply negb_true_iff in Hd.
    exists (finish (ctl s)), (set_flags (Z.land (Z.lor (flags x) B_VALID) (Z.lnot B_DIRTY)) x). eexists. split_and!; [done| |reflexivity|].
    { intros v n. rewrite Hw. simpl. change (drive (strip x)) with (drive x). by rewrite Hm. }
    msimpl. rewrite Eh. unfold buf_at. simpl. rewrite Hx. simpl. rewrite Hd. simpl. rewrite Hx. simpl.
    rewrite list_lookup_insert_eq by done. unfold set_buf. simpl. rewrite list_insert_insert_eq. by destruct (qnext x).
  - destruct (finish_read _ _ _ Hp) as (Hf & Hw & Hi). apply negb_false_iff in Hd.
    destruct (idewait_run true (set_queue (qnext x) (set_ctl (finish (ctl s)) s)) (or_intror Hf)) as (d & Hr & Hpd & Hmd & Hid).
    destruct (insl_keeps d) as [Hk1 Hk2]. simpl in *.
    exists (snd (insl d)), (set_flags (Z.land (Z.lor (flags x) B_VALID) (Z.lnot B_DIRTY)) (set_data (fst (insl d)) x)), m.
    split_and!; [congruence|intros; by rewrite Hk2, Hmd, Hw| |].
    { unfold set_flags, set_data, strip, set_qnext. simpl. rewrite Hid, Hi. change (drive (mkbuf _ _ _ _ _ _)) with (drive x). rewrite Hm. done. }
    msimpl. rewrite Eh. unfold buf_at. simpl. rewrite Hx. simpl. rewrite Hd. simpl. rewrite Hr. simpl. rewrite Hx. simpl.
    unfold set_buf. simpl. rewrite !list_insert_insert_eq, !list_lookup_insert_eq by done. simpl. by destruct (qnext x).
Qed.

Lemma intr_refines (s : sys D) a b q :
  refines s a -> spec_ok a -> squeue a = b :: q ->
  exists d, (port finish ;; ideintr delay) (drv s) = Ok tt d /\ havedisk1 d = havedisk1 (drv s) /\
    refines (mksys d (inuse s)) (step (havedisk1 (drv s)) EIntr a).
Proof.
  intros R Ha Eq. pose proof R as [R1 R2 R3 R4 R5]. rewrite Eq in R3, R5. destruct R3 as (Eh & x & Hx & Hq).
  destruct R5 as (y & Hy & Hp). assert (Hxs := strip_spec _ _ _ _ R Hx). rewrite Hxs in Hy. injection Hy as <-. rewrite strip_req in Hp.
  destruct (ideintr_run (drv s) b x (smedia a) Eh Hx (so_data _ Ha _ _ Hxs) Hp R2) as (d & x' & m' & Hpd & Hmd & Ht & Hrun).
  assert (Hnd := so_nodup _ Ha). rewrite Eq in Hnd. apply NoDup_cons in Hnd as [Hbq _].
  simpl. rewrite Eq, Hxs, Ht. rewrite Hrun. clear Hrun.
  assert (Hc' : chain (<[b := x']> (bufs (drv s))) (qnext x) q).
  { eapply chain_frame; [|exact Hq]. intros c Hc. rewrite list_lookup_insert_ne by set_solver. done. }
  assert (Hst : strip <$> <[b := x']> (bufs (drv s)) = <[b := strip x']> (sbufs a)) by (by rewrite list_fmap_insert, R1).
  simpl. destruct q as [|c q].
  - simpl in Hc'. rewrite Hc'. eexists. split; [done|]. split; [done|]. by split.
  - pose proof Hc' as (En & z & Hz & _). rewrite En.
    destruct (idestart_run c z (mkide (<[b := x']> (bufs (drv s))) (Some c) (havedisk1 (drv s)) d)) as (d' & Hd & Hp' & Hm'); [exact Hz| | |exact Hpd|].
    + rewrite list_lookup_insert_ne in Hz by set_solver.
      apply (so_queued _ Ha c (strip z)); [rewrite Eq; set_solver|by apply (strip_spec s)].
    + rewrite list_lookup_insert_ne in Hz by set_solver. apply (so_data _ Ha c (strip z)). by apply (strip_spec s).
    + eexists. split; [exact Hd|]. split; [done|]. split; simpl.
      * exact Hst.
      * intros v n. rewrite Hm'. apply Hmd.
      * rewrite En in Hc'. exact Hc'.
      * exact R4.
      * exists (strip z). split; [|done]. rewrite <- Hst, list_lookup_fmap, Hz. done.
Qed.

Lemma event_refines e (s : sys D) a :
  refines s a -> spec_ok a ->
  exists s', run_event delay e s = Ok tt s' /\ havedisk1 (drv s') = havedisk1 (drv s) /\ refines s' (step (havedisk1 (drv s)) e a).
Proof.
  intros R Ha. pose proof R as [R1 R2 R3 R4 R5]. destruct e as [pid b| |b|b x]; simpl.
  - destruct (bufs (drv s) !! b) as [x|] eqn:Hb.
    + rewrite (strip_spec _ _ _ _ R Hb), R4. case_bool_decide as Hu; simpl; [|eauto].
      change (can_call (havedisk1 (drv s)) pid (strip x)) with (can_call (havedisk1 (drv s)) pid x).
      destruct (can_call _ _ _) eqn:Hc; [|eauto].
      destruct (call_refines pid b x s a R Ha Hb ltac:(by rewrite R4) Hc) as (d & Hd & Hh & R'). rewrite Hd. eexists. split; [done|]. split; [exact Hh|]. by rewrite R4 in R'.
    + rewrite <- R1, list_lookup_fmap, Hb. simpl. eauto.
  - destruct (squeue a) as [|b q] eqn:Eq; simpl in R3.
    + rewrite R3. unfold ideintr. msimpl. rewrite R3. destruct s. eauto.
    + destruct R3 as [R3 _]. rewrite R3. destruct (intr_refines s a b q R Ha Eq) as (d & Hd & Hh & R').
      rewrite Hd. simpl in R'. rewrite Eq in R'. eauto.
  - unfold iderw_wait. msimpl. unfold buf_at.
    assert (Hno : b ∉ inuse s -> filter (.≠ b) (inuse s) = inuse s) by (intros Hb; apply list_filter_all; intros c Hc ->; done).
    assert (Hw : forall x, bufs (drv s) !! b = Some x -> b ∈ squeue a -> Z.land (flags x) (Z.lor B_VALID B_DIRTY) <> B_VALID).
    { intros x Hx Hq. apply (so_queued _ Ha b (strip x) Hq). by apply (strip_spec s). }
    assert (Hd : forall x, bufs (drv s) !! b = Some x -> b ∉ squeue a -> b ∈ inuse s -> Z.land (flags x) (Z.lor B_VALID B_DIRTY) = B_VALID).
    { intros x Hx Hq Hu. rewrite R4 in Hu. apply (so_done _ Ha b (strip x) Hu Hq). by apply (strip_spec s). }
    assert (Hs : b ∈ squeue a -> is_Some (bufs (drv s) !! b)) by (intros Hq; by eapply chain_lookup).
    assert (Hr : forall u, u = sinuse a -> refines (mksys (drv s) u) (mkspec (sbufs a) (smedia a) (squeue a) (sinuse a))) by (intros u ->; by split).
    destruct a as [sb sm sq su]. simpl in *.
    destruct (bufs (drv s) !! b) as [x|] eqn:Hb; simpl.
    + specialize (Hw x eq_refl). specialize (Hd x eq_refl). case_bool_decide as Hq.
      * rewrite (proj2 (Z.eqb_neq _ _)) by auto. eauto.
      * destruct (Z.eqb_spec (Z.land (flags x) (Z.lor B_VALID B_DIRTY)) B_VALID) as [E|E].
        -- eexists. split; [done|]. split; [done|]. subst su. by split.
        -- assert (Hu : b ∉ inuse s) by (intros Hu; auto). eexists. split; [done|]. split; [done|].
           rewrite <- R4, (Hno Hu), R4. done.
    + rewrite bool_decide_false by (intros Hq; by destruct (Hs Hq)). eexists. split; [done|]. split; [done|].
      rewrite <- R4, Hno, R4; [done|]. intros Hu. rewrite R4 in Hu. destruct (so_range _ Ha b Hu) as [y Hy]. simpl in Hy.
      rewrite <- R1, list_lookup_fmap, Hb in Hy. done.
  - destruct (bufs (drv s) !! b) as [old|] eqn:Hb; [|rewrite <- R1, list_lookup_fmap, Hb; simpl; eauto].
    rewrite (strip_spec _ _ _ _ R Hb), R4. unfold owner_set. case_bool_decide as Hl; [|eauto]. case_bool_decide as Hu; [|eauto].
    msimpl. eexists. split; [done|]. split; [done|].
    assert (Hbq : b ∉ squeue a) by (intros Hq; by apply Hu, (so_sub _ Ha)).
    split; simpl.
    + rewrite list_fmap_insert, R1. done.
    + done.
    + eapply chain_frame; [|exact R3]. intros c Hc. rewrite list_lookup_insert_ne by set_solver. done.
    + done.
    + destruct (squeue a) as [|c q] eqn:Eq; [done|]. destruct R5 as (y & Hy & Hp). exists y.
      rewrite list_lookup_insert_ne by set_solver. done.
Qed.

Lemma events_refine es : forall (s : sys D) a,
  refines s a -> spec_ok a ->
  exists s', run_events delay es s = Ok tt s' /\ refines s' (steps (havedisk1 (drv s)) es a) /\ spec_ok (steps (havedisk1 (drv s)) es a).
Proof.
  induction es as [|e es IH]; intros s a R Ha; simpl; [eauto|].
  destruct (event_refines e s a R Ha) as (s' & Hr & Hh & R'). msimpl. rewrite Hr.
  destruct (IH s' _ R' (step_ok _ _ _ Ha)) as (s'' & Hr' & R'' & Ha''). rewrite Hh in *. eauto.
Qed.
End Facts.

(** The queue drains, one transfer an interrupt, and then every call can return. *)
Lemma steps_app h es1 es2 a : steps h (es1 ++ es2) a = steps h es2 (steps h es1 a).
Proof. apply foldl_app. Qed.

Lemma drain h q : forall a, spec_ok a -> squeue a = q ->
  squeue (steps h (replicate (length q) EIntr) a) = [] /\ sinuse (steps h (replicate (length q) EIntr) a) = sinuse a.
Proof.
  induction q as [|b q IH]; intros a Ha Eq; [done|]. change (steps h (replicate (length (b :: q)) EIntr) a) with (steps h (replicate (length q) EIntr) (step h EIntr a)).
  assert (Ha' := step_ok h EIntr a Ha). revert Ha'. simpl. rewrite Eq.
  destruct (so_range _ Ha b (so_sub _ Ha b ltac:(rewrite Eq; left))) as [x Hx]. rewrite Hx.
  destruct (transfer x (smedia a)) as [x' m]. intros Ha'. destruct (IH _ Ha' eq_refl) as [H1 H2]. done.
Qed.

Lemma wake_all h u : forall a, squeue a = [] -> sinuse a ⊆ u -> sinuse (steps h (EWake <$> u) a) = [].
Proof.
  induction u as [|b u IH]; intros a Hq Hu; simpl.
  - destruct (sinuse a) as [|c l]; [done|]. specialize (Hu c ltac:(left)). by apply not_elem_of_nil in Hu.
  - rewrite Hq, bool_decide_false by apply not_elem_of_nil. apply IH; [done|]. simpl.
    intros c [Hc Hin]%list_elem_of_filter. specialize (Hu c Hin). apply elem_of_cons in Hu as [->|]; done.
Qed.

(** C15. The driver implements a disk that serves requests in the order of the calls.  Processes call
    [iderw] on locked buffers, the controller interrupts, and processes wake up, in any
    order; the driver never panics and every wait for the controller ends; the buffers
    and the medium are those of the specification, whatever the interleaving; a call
    returns exactly when its transfer is done; and as many interrupts as there are
    requests let every call return. *)
Theorem driver_refines_disk (D : Type) `(L : AtaLaws D) (d0 : D) bs have1 es :
  pending d0 = None -> Forall (fun x => length (data x) = BSIZE) bs ->
  let s0 := mksys (mkide bs None have1 d0) [] in
  let a := steps have1 es (mkspec (strip <$> bs) (media d0) [] []) in
  (exists s, run_events delay es s0 = Ok tt s /\
    strip <$> bufs (drv s) = sbufs a /\ (forall v n, media (ctl (drv s)) v n = smedia a v n) /\
    inuse s = sinuse a /\ chain (bufs (drv s)) (idequeue (drv s)) (squeue a)) /\
  (exists s, run_events delay (es ++ replicate (length (squeue a)) EIntr ++ (EWake <$> sinuse a)) s0 = Ok tt s /\ inuse s = []).
Proof.
  intros Hp Hbs s0 a.
  assert (R0 : refines s0 (mkspec (strip <$> bs) (media d0) [] [])) by by split.
  assert (A0 : spec_ok (mkspec (strip <$> bs) (media d0) [] [])).
  { split; simpl; try set_solver; try by intros b x []%not_elem_of_nil.
    - apply NoDup_nil_2.
    - intros b x Hx. rewrite list_lookup_fmap in Hx. destruct (bs !! b) as [y|] eqn:Hy; [|done]. injection Hx as <-.
      rewrite Forall_forall in Hbs. apply (Hbs y). by eapply list_elem_of_lookup_2.
    - apply media_length. }
  split.
  - destruct (events_refine es s0 _ R0 A0) as (s & Hr & [R1 R2 R3 R4 R5] & _). exists s. done.
  - destruct (events_refine es s0 _ R0 A0) as (_ & _ & _ & Ha).
    destruct (events_refine (es ++ replicate (length (squeue a)) EIntr ++ (EWake <$> sinuse a)) s0 _ R0 A0) as (s & Hr & R & _).
    exists s. split; [exact Hr|]. rewrite (rf_inuse _ _ R), !steps_app.
    change (sinuse (steps have1 (EWake <$> sinuse a) (steps have1 (replicate (length (squeue a)) EIntr) a)) = []).
    destruct (drain have1 _ a Ha eq_refl) as [H1 H2]. apply wake_all; [exact H1|]. by rewrite H2.
Qed.

(** ** A controller

    A register file, a disk and a fixed delay, which satisfies the laws. *)
Module Sim.
Record dev := mkdev {
  r3 : Z; r4 : Z; r5 : Z; r6 : Z;
  pend : option req;
  dsk : gmap (Z * Z) block;
  wait : nat;
  obuf : list Z
}.

Definition sector (d : dev) : Z :=
  r3 d + Z.shiftl (r4 d) 8 + Z.shiftl (r5 d) 16 + Z.shiftl (Z.land (r6 d) 15) 24.
Definition unit_ (d : dev) : Z := Z.land (Z.shiftr (r6 d) 4) 1.
Definition block_of (d : dev) (v s : Z) : block :=
  match dsk d !! (v, s) with Some bs => if bool_decide (length bs = BSIZE) then bs else replicate BSIZE 0 | None => replicate BSIZE 0 end.

Definition set_pend (r : option req) (d : dev) : dev := mkdev (r3 d) (r4 d) (r5 d) (r6 d) r (dsk d) 3 (obuf d).

#[global] Instance ata : Ata dev := {
  outb p v d :=
    if p =? 499 then mkdev v (r4 d) (r5 d) (r6 d) (pend d) (dsk d) (wait d) (obuf d) else
    if p =? 500 then mkdev (r3 d) v (r5 d) (r6 d) (pend d) (dsk d) (wait d) (obuf d) else
    if p =? 501 then mkdev (r3 d) (r4 d) v (r6 d) (pend d) (dsk d) (wait d) (obuf d) else
    if p =? 502 then mkdev (r3 d) (r4 d) (r5 d) v (pend d) (dsk d) (wait d) (obuf d) else
    if p =? 503 then
      if v =? IDE_CMD_READ then set_pend (Some (Read (unit_ d) (sector d))) d else
      if v =? IDE_CMD_WRITE then set_pend (Some (Write (unit_ d) (sector d) [])) d else d
    else d;
  outsl bs d := match pend d with Some (Write v s _) => set_pend (Some (Write v s bs)) d | _ => d end;
  inb _ d := match wait d with
    | O => (IDE_DRDY, d)
    | S w => (IDE_BSY, mkdev (r3 d) (r4 d) (r5 d) (r6 d) (pend d) (dsk d) w (obuf d))
    end;
  insl d := (obuf d, d);
  finish d := match pend d with
    | Some (Read v s) => mkdev (r3 d) (r4 d) (r5 d) (r6 d) None (dsk d) 2 (block_of d v s)
    | Some (Write v s bs) => mkdev (r3 d) (r4 d) (r5 d) (r6 d) None (<[(v, s) := bs]> (dsk d)) 2 (obuf d)
    | None => d
    end
}.

Lemma sector_bytes s : 0 <= s < 2 ^ 28 ->
  Z.land s 255 + Z.shiftl (Z.land (Z.shiftr s 8) 255) 8 + Z.shiftl (Z.land (Z.shiftr s 16) 255) 16 +
    Z.shiftl (Z.land (Z.shiftr s 24) 15) 24 = s.
Proof.
  intros Hs. change 255 with (Z.ones 8). change 15 with (Z.ones 4). rewrite !Z.land_ones, !Z.shiftr_div_pow2, !Z.shiftl_mul_pow2 by lia.
  Z.div_mod_to_equations. lia.
Qed.

Lemma head_bits drive s : 0 <= drive <= 1 ->
  let v := Z.lor (Z.lor 224 (Z.shiftl drive 4)) (Z.land (Z.shiftr s 24) 15) in Z.land (Z.shiftr v 4) 1 = drive /\ Z.land v 15 = Z.land (Z.shiftr s 24) 15.
Proof.
  intros Hd v. set (w := Z.land (Z.shiftr s 24) 15) in *.
  assert (Hw : 0 <= w < 16) by (unfold w; change 15 with (Z.ones 4); rewrite Z.land_ones by lia; apply Z.mod_pos_bound; lia).
  assert (H16 : w = 0 \/ w = 1 \/ w = 2 \/ w = 3 \/ w = 4 \/ w = 5 \/ w = 6 \/ w = 7 \/ w = 8 \/ w = 9 \/ w = 10 \/ w = 11 \/ w = 12 \/ w = 13 \/ w = 14 \/ w = 15) by lia.
  clearbody w. subst v. assert (Hdd : drive = 0 \/ drive = 1) by lia.
  destruct Hdd as [-> | ->]; repeat (destruct H16 as [-> | H16]; [by vm_compute|]); subst w; by vm_compute.
Qed.

#[global] Instance ata_laws : AtaLaws dev.
Proof.
  refine {| pending := pend; media := block_of; delay := wait |}.
  - intros d v s. unfold block_of. destruct (dsk d !! (v, s)) as [bs|]; [case_bool_decide; [done|]|]; apply length_replicate.
  - intros d. unfold inb, ata. destruct (wait d) eqn:Hw; simpl; split_and!; try done; [by left|right; lia].
  - intros d v s Hp Hv Hs. destruct (head_bits v s Hv) as [E1 E2]. split; [|done].
    change (Some (Read (Z.land (Z.shiftr (Z.lor (Z.lor 224 (Z.shiftl v 4)) (Z.land (Z.shiftr s 24) 15)) 4) 1)
      (Z.land s 255 + Z.shiftl (Z.land (Z.shiftr s 8) 255) 8 + Z.shiftl (Z.land (Z.shiftr s 16) 255) 16 +
       Z.shiftl (Z.land (Z.lor (Z.lor 224 (Z.shiftl v 4)) (Z.land (Z.shiftr s 24) 15)) 15) 24)) = Some (Read v s)).
    rewrite E1, E2, sector_bytes by done. done.
  - intros d v s bs Hp Hv Hs Hl. destruct (head_bits v s Hv) as [E1 E2]. split; [|done].
    change (Some (Write (Z.land (Z.shiftr (Z.lor (Z.lor 224 (Z.shiftl v 4)) (Z.land (Z.shiftr s 24) 15)) 4) 1)
      (Z.land s 255 + Z.shiftl (Z.land (Z.shiftr s 8) 255) 8 + Z.shiftl (Z.land (Z.shiftr s 16) 255) 16 +
       Z.shiftl (Z.land (Z.lor (Z.lor 224 (Z.shiftl v 4)) (Z.land (Z.shiftr s 24) 15)) 15) 24) bs) = Some (Write v s bs)).
    rewrite E1, E2, sector_bytes by done. done.
  - intros d v s Hp. unfold finish, ata. rewrite Hp. done.
  - intros d _. unfold inb, ata. destruct (wait d); done.
  - intros d v s bs Hp Hl. unfold finish, ata. rewrite Hp. split; [done|]. intros v' s'. unfold block_of. simpl.
    destruct (Z.eqb_spec v' v) as [->|Hv]; [destruct (Z.eqb_spec s' s) as [->|Hs]|]; simpl.
    + rewrite lookup_insert_eq. by rewrite bool_decide_true.
    + by rewrite lookup_insert_ne by congruence.
    + by rewrite lookup_insert_ne by congruence.
  - done.
Defined.

Definition dev0 : dev := mkdev 0 0 0 0 None ∅ 5 [].
End Sim.

(** Three requests: a block is written while another is to be read, and the third reads
    back the first, queued before the second was served. *)
Lemma driver_refines_disk_witness :
  let b0 := mkbuf 4 1 7 (mksl 1 5) None (replicate BSIZE 1) in
  let b1 := mkbuf 0 1 9 (mksl 1 6) None (replicate BSIZE 2) in
  let b2 := mkbuf 0 1 7 (mksl 1 7) None (replicate BSIZE 3) in
  let s0 := mksys (mkide [b0; b1; b2] None true Sim.dev0) [] in
  exists s, run_events delay [ECall 5 0; ECall 6 1; EWake 0; EIntr; ECall 7 2; EIntr; EWake 1; EIntr] s0 = Ok tt s /\
    inuse s = [2; 0]%nat /\ data <$> bufs (drv s) !! 2%nat = Some (replicate BSIZE 1).
Proof.
  intros b0 b1 b2 s0.
  destruct (driver_refines_disk Sim.dev Sim.ata_laws Sim.dev0 [b0; b1; b2] true
    [ECall 5 0; ECall 6 1; EWake 0; EIntr; ECall 7 2; EIntr; EWake 1; EIntr]) as [(s & Hr & Hb & _ & Hu & _) _];
    [reflexivity|repeat constructor|].
  exists s. split; [exact Hr|]. split; [exact Hu|].
  apply (f_equal (fun l => data <$> l !! 2%nat)) in Hb. rewrite list_lookup_fmap in Hb. vm_compute in Hb |- *.
  destruct s as [[[|? [|? [|x l]]] ? ? ?] ?]; exact Hb.
Defined.

(** A read that fails: the handler marks the buffer valid although nothing was read into
    it. *)
Lemma ideintr_read_error {D} `{!Ata D} (dl : D -> nat) (s : ide D) b x d :
  idequeue s = Some b -> bufs s !! b = Some x -> qnext x = None -> Z.land (flags x) B_DIRTY = 0 ->
  idewait dl true (set_queue None s) = Ok (-1) (set_ctl d (set_queue None s)) ->
  ideintr dl s = Ok tt (mkide (<[b := set_flags (Z.land (Z.lor (flags x) B_VALID) (Z.lnot B_DIRTY)) x]> (bufs s)) None (havedisk1 s) d).
Proof.
  intros Hq Hx Hn Hd Hw. assert (Hlt := lookup_lt_Some _ _ _ Hx). unfold ideintr, upd. msimpl. rewrite Hq. unfold buf_at. simpl.
  rewrite Hx. simpl. rewrite Hd, Hn. simpl. rewrite Hw. simpl. rewrite Hx. unfold set_buf. simpl.
  rewrite list_lookup_insert_eq, list_insert_insert_eq by done. done.
Qed.
End Ide.
