(* ===== verification/VmSpace.v ===== *)
(** * Whole address spaces (system/memory/vm.c)

    What [setupkvm], [loaduvm], [clearpteu], [copyout] and [freevm] do to an address
    space, to the allocator and to the pages of others: [evolves] says that an
    address space has changed without losing a page and without touching a page
    that is neither free nor its own, and [other_ok] that an address space whose
    pages are not touched is as it was. *)

From S2P Require Import Prelude Kalloc Vm.

Section Space.
Context (kend : Z) (Hkend : KERNBASE < kend).

(** The pages that are neither free nor in the address space are not touched. *)
Definition spares (s s' : kmem) (pgdir : Z) (l : list Z) : Prop :=
  forall q, valid_page kend q -> q ∉ l -> ~ held s pgdir q -> page_at q s' = page_at q s.

Record evolves (s s' : kmem) (pgdir : Z) (l l' : list Z) : Prop := {
  ev_ok : as_ok kend s' pgdir l';
  ev_account : account s s' pgdir l l';
  ev_spares : spares s s' pgdir l
}.

Lemma evolves_refl s pgdir l : as_ok kend s pgdir l -> evolves s s pgdir l l.
Proof. by split. Qed.

Lemma evolves_trans s1 s2 s3 pgdir l1 l2 l3 :
  evolves s1 s2 pgdir l1 l2 -> evolves s2 s3 pgdir l2 l3 -> evolves s1 s3 pgdir l1 l3.
Proof.
  intros [H1 A1 P1] [H2 A2 P2]. split; [done|by eapply account_trans|].
  intros q Hv Hl Hh. assert (~ (q ∈ l2 \/ held s2 pgdir q)) as Hn by (rewrite (A1 q); tauto).
  rewrite P2, P1 by tauto. done.
Qed.

Lemma uframe_spares s s' pgdir l l' : uframe kend s s' pgdir l l' -> spares s s' pgdir l.
Proof.
  intros H q Hv Hl Hh. apply H; [done| |].
  - split_and!; [done|intros ->; apply Hh; by left|]. intros i Hi Hp ->. apply Hh. right. left. by exists i.
  - intros va Hva Hp E. apply Hh. right. right. by exists va.
Qed.

Lemma frame_spares s s' pgdir l l' : frame kend s s' pgdir l l' -> spares s s' pgdir l.
Proof. intros H. apply (uframe_spares s s' pgdir l l'). intros q Hv Ho _. by apply H. Qed.

Lemma held_valid s pgdir l q : as_ok kend s pgdir l -> held s pgdir q -> valid_page kend q /\ q ∉ l.
Proof.
  intros [Hpt Hu _] [->|[(i & Hi & Hp & ->)|(va & Hva & Hp & ->)]].
  - apply (pt_dir _ _ _ _ Hpt).
  - by destruct (pt_tab _ _ _ _ Hpt i Hi Hp) as (? & ? & _).
  - by destruct (Hu va Hva Hp) as (? & ? & _).
Qed.

(** An address space whose pages stay out of the free list and keep their contents. *)
Lemma other_ok s s' pgdir l l' : as_ok kend s pgdir l -> free_list kend s' l' ->
  (forall q, held s pgdir q -> q ∉ l' /\ page_at q s' = page_at q s) ->
  as_ok kend s' pgdir l' /\ (forall i, 0 <= i < 1024 -> pde_at s' pgdir i = pde_at s pgdir i) /\
  (forall va, pte_at s' pgdir va = pte_at s pgdir va).
Proof.
  intros Has Hfl Hq. pose proof (as_pt _ _ _ _ Has) as Hpt. destruct (pt_dir _ _ _ _ Hpt) as [Hd _].
  assert (forall i, 0 <= i < 1024 -> pde_at s' pgdir i = pde_at s pgdir i) as Hpde.
  { intros i Hi. unfold pde_at, ld32, page_at.
    destruct (word_addr pgdir i (proj1 Hd) Hi) as [-> ->].
    destruct (Hq pgdir) as [_ E]; [by left|]. unfold page_at in E.
    rewrite (page_base_id pgdir (proj1 Hd)) in E. by rewrite E. }
  assert (forall va, pte_at s' pgdir va = pte_at s pgdir va) as Hpte.
  { intros va. unfold pte_at, tab_at. rewrite Hpde by apply PDX_range.
    destruct (has PTE_P (pde_at s pgdir (PDX va))) eqn:Hpr; [|done]. fold (tab_at s pgdir (PDX va)).
    destruct (pt_tab _ _ _ _ Hpt _ (PDX_range va) Hpr) as (Hvt & _).
    destruct (Hq (tab_at s pgdir (PDX va))) as [_ E]; [right; left; exists (PDX va); split; [apply PDX_range|done]|].
    unfold ld32, page_at in *. destruct (word_addr _ (PTX va) (proj1 Hvt) (PTX_range va)) as [-> ->].
    rewrite (page_base_id _ (proj1 Hvt)) in E. by rewrite E. }
  split; [|done]. split.
  - eapply pt_ok_frame; [done|done|done|by apply Hq; left|].
    intros i Hi Hp. apply Hq. right. left. by exists i.
  - intros va Hva. unfold upage. rewrite !Hpte. intros Hp.
    destruct (as_user _ _ _ _ Has va Hva Hp) as (H1 & _ & H3 & H4). split_and!; [done| |done|].
    + apply Hq. right. right. by exists va.
    + intros i Hi. unfold tab_at. rewrite Hpde by done. by apply H4.
  - intros v1 v2 H1 H2. unfold upage. rewrite !Hpte. by apply (as_inj _ _ _ _ Has).
Qed.

(** ** freevm *)

(** The page tables from the entry [i] on. *)
Definition tables_from (s : kmem) (pgdir i q : Z) : Prop :=
  exists j, i <= j < 1024 /\ has PTE_P (pde_at s pgdir j) = true /\ q = tab_at s pgdir j.

Lemma free_tables pgdir n : forall i s l, 0 <= i -> i + Z.of_nat n = 1024 -> valid_page kend pgdir ->
  free_list kend s l ->
  (forall j, i <= j < 1024 -> has PTE_P (pde_at s pgdir j) = true ->
     valid_page kend (tab_at s pgdir j) /\ tab_at s pgdir j ∉ l /\ tab_at s pgdir j <> pgdir) ->
  (forall j k, i <= j < 1024 -> i <= k < 1024 -> j <> k -> has PTE_P (pde_at s pgdir j) = true ->
     has PTE_P (pde_at s pgdir k) = true -> tab_at s pgdir j <> tab_at s pgdir k) ->
  exists s' l', for_each n i (fun i =>
      e ← gets (ld32 (pgdir + 4 * i)); when (has PTE_P e) (kfree kend (P2V (PTE_ADDR e)))) s = Ok tt s' /\
    free_list kend s' l' /\ (forall q, q ∈ l' <-> q ∈ l \/ tables_from s pgdir i q) /\
    (forall q, valid_page kend q -> ~ tables_from s pgdir i q -> page_at q s' = page_at q s).
Proof.
  induction n as [|n IH]; intros i s l Hi Hn Hd Hfl Hv Hinj; cbn [for_each].
  { exists s, l. split_and!; [done|done| |done]. intros q. split; [tauto|]. intros [?|(j & Hj & _)]; [done|lia]. }
  rewrite bind_unfold. rewrite (bind_ok _ _ _ (pde_at s pgdir i) s) by done. cbn [when].
  destruct (has PTE_P (pde_at s pgdir i)) eqn:Hp; cbn [when].
  - destruct (Hv i ltac:(lia) Hp) as (Hvt & Hnl & Hnd).
    destruct (kfree_spec kend (tab_at s pgdir i) s l Hvt Hfl Hnl) as (s1 & E & Hfl1 & Hfr).
    fold (tab_at s pgdir i). rewrite E.
    assert (forall j, 0 <= j < 1024 -> pde_at s1 pgdir j = pde_at s pgdir j) as Hpde.
    { intros j Hj. unfold pde_at, ld32. rewrite Hfr; [done|].
      destruct (word_addr pgdir j (proj1 Hd) Hj) as [-> _]. congruence. }
    assert (forall q, tables_from s1 pgdir (i + 1) q <-> tables_from s pgdir (i + 1) q) as Htf.
    { intros q. split; intros (j & Hj & Hpj & ->); exists j; unfold tab_at in *; rewrite Hpde in * by lia; done. }
    assert (forall q, tables_from s pgdir i q <-> q = tab_at s pgdir i \/ tables_from s pgdir (i + 1) q) as Hsplit.
    { intros q. split.
      - intros (j & Hj & Hpj & ->). destruct (decide (j = i)) as [->|]; [by left|]. right. exists j. split; [lia|done].
      - intros [->|(j & Hj & Hpj & ->)]; [exists i|exists j]; (split; [lia|done]). }
    destruct (IH (i + 1) s1 (tab_at s pgdir i :: l)) as (s' & l' & E' & Hfl' & Hl' & Hfr'); [lia|lia|done|done| | |].
    + intros j Hj. unfold tab_at. rewrite Hpde by lia. intros Hpj. fold (tab_at s pgdir j) (tab_at s pgdir i).
      destruct (Hv j ltac:(lia) Hpj) as (? & ? & ?). split_and!; [done| |done].
      apply not_elem_of_cons. split; [|done]. apply Hinj; (lia || done).
    + intros j k Hj Hk Hjk. unfold tab_at. rewrite !Hpde by lia. apply Hinj; lia.
    + exists s', l'. split_and!; [done|done| |].
      * intros q. rewrite Hl', elem_of_cons, Htf, Hsplit. tauto.
      * intros q Hq Hn'. rewrite Hfr' by (rewrite ?Htf; rewrite Hsplit in Hn'; tauto).
        apply Hfr. rewrite (page_base_id q (proj1 Hq)). rewrite Hsplit in Hn'. tauto.
  - assert (forall q, tables_from s pgdir i q <-> tables_from s pgdir (i + 1) q) as Hsplit.
    { intros q. split; intros (j & Hj & Hpj & ->); exists j; (split; [|done]); [|lia].
      destruct (decide (j = i)) as [->|]; [congruence|lia]. }
    destruct (IH (i + 1) s l) as (s' & l' & E' & Hfl' & Hl' & Hfr'); [lia|lia|done|done| | |].
    + intros j Hj. apply Hv. lia.
    + intros j k Hj Hk. apply Hinj; lia.
    + exists s', l'. split_and!; [done|done| |].
      * intros q. by rewrite Hl', Hsplit.
      * intros q Hq Hn'. apply Hfr'; [done|]. by rewrite <- Hsplit.
Qed.

(** Every page of the address space is free afterwards. *)
Lemma freevm_spec pgdir s l : as_ok kend s pgdir l ->
  exists s' l', freevm kend pgdir s = Ok tt s' /\ free_list kend s' l' /\
    (forall q, q ∈ l' <-> q ∈ l \/ held s pgdir q) /\ spares s s' pgdir l.
Proof using Hkend.
  intros Has. unfold freevm. destruct (pt_dir _ _ _ _ (as_pt _ _ _ _ Has)) as [Hd _].
  pose proof (valid_page_pos kend pgdir Hd). destruct (Z.eqb_spec pgdir 0); [lia|].
  destruct (deallocuvm_spec kend Hkend pgdir KERNBASE 0 s l Has) as (s1 & l1 & E1 & Has1 & _ & Hu & Huf & Hacc);
    [unfold KERNBASE; lia|lia|].
  rewrite (bind_ok _ _ _ _ _ E1).
  assert (forall q, ~ user s1 pgdir q) as Hnu.
  { intros q (va & Hva & Hp & _). destruct (Hu va (user_range va Hva)) as [Hx _]. rewrite Hx in Hp; [done|].
    change (PGROUNDUP 0) with 0. pose proof (Z.div_pos va PGSIZE ltac:(lia) ltac:(done)).
    pose proof (Z.mul_div_le va PGSIZE ltac:(done)). unfold PGSIZE in *. lia. }
  pose proof (as_pt _ _ _ _ Has1) as Hpt1. destruct (pt_dir _ _ _ _ Hpt1) as [_ Hdl].
  destruct (free_tables pgdir NPDENTRIES 0 s1 l1) as (s2 & l2 & E2 & Hfl2 & Hl2 & Hfr2);
    [lia|reflexivity|done|apply (pt_free _ _ _ _ Hpt1)|apply (pt_tab _ _ _ _ Hpt1)|apply (pt_inj _ _ _ _ Hpt1)|].
  rewrite (bind_ok _ _ _ _ _ E2).
  assert (forall q, tables_from s1 pgdir 0 q <-> table s1 pgdir q) as Ht by done.
  assert (pgdir ∉ l2) as Hd2.
  { rewrite Hl2. intros [?|(i & Hi & Hp & E)]; [done|]. destruct (pt_tab _ _ _ _ Hpt1 i Hi Hp) as (_ & _ & ?). congruence. }
  destruct (kfree_spec kend pgdir s2 l2 Hd Hfl2 Hd2) as (s3 & E3 & Hfl3 & Hfr3). rewrite E3.
  exists s3, (pgdir :: l2). split_and!; [done|done| |].
  - intros q. rewrite elem_of_cons, Hl2, Ht, <- (Hacc q). unfold held. pose proof (Hnu q). tauto.
  - intros q Hv Hl Hh. assert (~ (q ∈ l1 \/ held s1 pgdir q)) as Hn by (rewrite (Hacc q); tauto).
    rewrite Hfr3, Hfr2; [|done| |].
    + by apply (uframe_spares s s1 pgdir l l1).
    + rewrite Ht. unfold held in Hn. tauto.
    + rewrite (page_base_id q (proj1 Hv)). intros ->. apply Hn. right. by left.
Qed.

(** ** setupkvm *)

(** The image of a program: exactly the user pages below [sz] are there. *)
Record image_ok (s : kmem) (pgdir : Z) (l : list Z) (sz : Z) : Prop := {
  im_ok : as_ok kend s pgdir l;
  im_sz : 0 <= sz < KERNBASE;
  im_pages : forall va, 0 <= va < KERNBASE -> has PTE_P (pte_at s pgdir va) = (PGSIZE * (va / PGSIZE) <? sz)
}.

(** Without user pages. *)
Lemma as_ok_nouser s pgdir l : pt_ok kend s pgdir l ->
  (forall va, 0 <= va < KERNBASE -> has PTE_P (pte_at s pgdir va) = false) -> as_ok kend s pgdir l.
Proof.
  intros Hpt Hn. split; [done| |].
  - intros va Hva. by rewrite Hn.
  - intros va va' Hva Hva'. by rewrite Hn.
Qed.

Lemma no_user s pgdir q : (forall va, 0 <= va < KERNBASE -> has PTE_P (pte_at s pgdir va) = false) ->
  ~ user s pgdir q.
Proof. intros Hn (va & Hva & Hp & _). by rewrite Hn in Hp. Qed.

(** The entries of [kmap] lie one above the other, from [lo] up. *)
Fixpoint kmap_above (lo : Z) (km : list (Z * Z * Z * Z)) : Prop :=
  match km with
  | [] => True
  | (virt, ps, pe, _) :: km' =>
      lo <= virt /\ virt mod PGSIZE = 0 /\ 0 < u32 (pe - ps) /\ virt + u32 (pe - ps) <= 2 ^ 32 /\
      0 <= ps < 2 ^ 32 /\ kmap_above (virt + u32 (pe - ps)) km'
  end.

Lemma setupkvm_loop_spec pgdir km : forall lo s l, KERNBASE <= lo -> kmap_above lo km ->
  pt_ok kend s pgdir l ->
  (forall va, 0 <= va < 2 ^ 32 -> va < KERNBASE \/ lo <= PGSIZE * (va / PGSIZE) -> has PTE_P (pte_at s pgdir va) = false) ->
  exists r s' l', setupkvm_loop kend km pgdir s = Ok r s' /\ spares s s' pgdir l /\
    (r = 0 /\ free_list kend s' l' /\ (forall q, q ∈ l' <-> q ∈ l \/ held s pgdir q) \/
     r = pgdir /\ image_ok s' pgdir l' 0 /\ account s s' pgdir l l').
Proof using Hkend.
  induction km as [|[[[virt ps] pe] perm] km IH]; intros lo s l Hlo Hkm Hpt Hfree; cbn [setupkvm_loop].
  { exists pgdir, s, l. split; [done|]. split; [done|]. right. split; [done|]. split; [|done].
    assert (forall va, 0 <= va < KERNBASE -> has PTE_P (pte_at s pgdir va) = false) as Hn
      by (intros va Hva; apply Hfree; [by apply user_range|by left; lia]).
    split; [by apply as_ok_nouser|unfold KERNBASE; lia|]. intros va Hva. rewrite Hn by done.
    symmetry. apply Z.ltb_ge. pose proof (Z.div_pos va PGSIZE ltac:(lia) ltac:(done)). unfold PGSIZE in *. lia. }
  cbn [kmap_above] in Hkm. destruct Hkm as (Hv & Hm & Hs & Hb & Hps & Hkm). set (size := u32 (pe - ps)) in *.
  pose proof (mod_page virt Hm) as Hpv.
  destruct (mappages_spec kend pgdir virt size ps perm s l) as (j & s1 & l1 & Hj & E & Hpt1 & Hl1 & _ & Hmap & Hfr & Htb);
    [done|unfold KERNBASE in *; lia|done|done|done| |].
  { intros va Hva Hr. apply Hfree; [done|]. right. unfold PGSIZE in *. lia. }
  rewrite (bind_ok _ _ _ _ _ E). set (k := Z.to_nat ((virt + size - 1) / PGSIZE - virt / PGSIZE + 1)) in *.
  pose proof (Z.mul_div_le (virt + size - 1) PGSIZE ltac:(done)).
  assert (virt / PGSIZE <= (virt + size - 1) / PGSIZE) by (apply Z.div_le_mono; [done|lia]).
  assert (forall va, 0 <= va < 2 ^ 32 -> va < KERNBASE \/ virt + size <= PGSIZE * (va / PGSIZE) ->
    has PTE_P (pte_at s1 pgdir va) = false) as Hfree1.
  { intros va Hva Hc. pose proof (Z.mul_div_le va PGSIZE ltac:(done)). rewrite Hmap by done. rewrite decide_False.
    - apply Hfree; [done|]. destruct Hc; [by left|right; lia].
    - unfold k in Hj. unfold PGSIZE in *. lia. }
  assert (forall va, 0 <= va < KERNBASE -> has PTE_P (pte_at s pgdir va) = false) as Hn
    by (intros va Hva; apply Hfree; [by apply user_range|by left; lia]).
  assert (forall va, 0 <= va < KERNBASE -> has PTE_P (pte_at s1 pgdir va) = false) as Hn1
    by (intros va Hva; apply Hfree1; [by apply user_range|by left; lia]).
  assert (account s s1 pgdir l l1) as Hacc.
  { intros q. unfold held. pose proof (Htb q). pose proof (no_user _ _ q Hn). pose proof (no_user _ _ q Hn1). tauto. }
  assert (evolves s s1 pgdir l l1) as Hev1
    by (split; [by apply as_ok_nouser|done|by apply (frame_spares s s1 pgdir l l1)]).
  assert (forall s2, spares s1 s2 pgdir l1 -> spares s s2 pgdir l) as Hsp.
  { intros s2 H2 q Hq Hl Hh. assert (~ (q ∈ l1 \/ held s1 pgdir q)) by (rewrite (Hacc q); tauto).
    rewrite H2 by tauto. by apply (ev_spares _ _ _ _ _ Hev1). }
  destruct (decide (j = k)) as [->|Hjk]; cbn [Z.ltb Z.compare].
  - destruct (IH (virt + size) s1 l1) as (r & s' & l' & E' & Hsp' & Hcase); [lia|done|done|done|].
    exists r, s', l'. split; [done|]. split; [by apply Hsp|].
    destruct Hcase as [(-> & Hfl & Hl)|(-> & Him & Ha)]; [left|right]; (split; [done|]).
    + split; [done|]. intros q. by rewrite Hl, (Hacc q).
    + split; [done|]. by eapply account_trans.
  - destruct (freevm_spec pgdir s1 l1 (ev_ok _ _ _ _ _ Hev1)) as (s' & l' & E' & Hfl & Hl & Hsp').
    rewrite (bind_ok _ _ _ _ _ E'). exists 0, s', l'. split; [done|]. split; [by apply Hsp|].
    left. split; [done|]. split; [done|]. intros q. by rewrite Hl, (Hacc q).
Qed.

Section Kvm.
(** The linker puts [data] on a page after the kernel's text, below PHYSTOP. *)
Context (kdata : Z) (Hdata : kdata mod PGSIZE = 0 /\ KERNLINK < kdata < KERNBASE + PHYSTOP).

Lemma kmap_layout : kmap_above KERNBASE (kmap kdata).
Proof using Hdata.
  destruct Hdata as [Hm Hr]. unfold kmap, kmap_above, KERNLINK, V2P, KERNBASE, PHYSTOP, EXTMEM, DEVSPACE in *.
  rewrite (u32_id (kdata - 2147483648)) by lia.
  change (u32 (2147483648 + 1048576 - 2147483648)) with 1048576. change (u32 (1048576 - 0)) with 1048576.
  change (u32 (0 - 4261412864)) with 33554432.
  rewrite (u32_id (kdata - 2147483648 - 1048576)), (u32_id (234881024 - (kdata - 2147483648))) by lia.
  split_and!; try lia; try done.
Qed.

(** [setupkvm] makes an address space without user pages out of free pages, or
    gives everything back. *)
Lemma setupkvm_spec s l : free_list kend s l ->
  exists r s' l', setupkvm kend kdata s = Ok r s' /\ (forall q, valid_page kend q -> q ∉ l -> page_at q s' = page_at q s) /\
    (r = 0 /\ free_list kend s' l' /\ (forall q, q ∈ l' <-> q ∈ l) \/
     r <> 0 /\ image_ok s' r l' 0 /\ (forall q, q ∈ l' \/ held s' r q <-> q ∈ l)).
Proof using Hkend Hdata.
  intros Hfl. unfold setupkvm. pose proof (kalloc_spec kend s l Hfl) as Hk. destruct l as [|d l].
  { rewrite (bind_ok _ _ _ _ _ Hk). exists 0, s, []. split; [done|]. split; [done|]. by left. }
  destruct Hk as (s0 & E & Hfl0 & Hpg). rewrite (bind_ok _ _ _ _ _ E).
  pose proof Hfl as (_ & Hnd & Hv & _). apply Forall_cons in Hv as [Hd _]. apply NoDup_cons in Hnd as [Hdl _].
  pose proof (valid_page_pos kend d Hd). destruct (Z.eqb_spec d 0); [lia|].
  set (s1 := memset_page d 0 s0). rewrite (bind_ok _ _ _ tt s1) by done.
  change (P2V PHYSTOP >? DEVSPACE) with false. cbv iota.
  assert (forall i, 0 <= i < 1024 -> pde_at s1 d i = 0) as Hpde by (intros i Hi; apply ld32_zero_page; [apply Hd|done]).
  assert (forall va, pte_at s1 d va = 0) as Hpte by (intros va; unfold pte_at; rewrite Hpde by apply PDX_range; done).
  assert (pt_ok kend s1 d l) as Hpt.
  { split; [by apply free_list_memset|done| |].
    - intros i Hi. by rewrite Hpde.
    - intros i j Hi Hj _. by rewrite Hpde. }
  assert (forall q, held s1 d q <-> q = d) as Hh.
  { intros q. split; [|by left]. intros [->|[(i & Hi & Hp & _)|(va & Hva & Hp & _)]]; [done| |].
    - by rewrite Hpde in Hp.
    - by rewrite Hpte in Hp. }
  assert (forall q, valid_page kend q -> q ∉ d :: l -> page_at q s1 = page_at q s) as Hs1.
  { intros q Hq Hn. apply not_elem_of_cons in Hn as [Hn _]. unfold s1, memset_page.
    rewrite page_at_set, !page_base_id, decide_False by (done || apply Hd || apply Hq). unfold page_at. by rewrite Hpg. }
  destruct (setupkvm_loop_spec d (kmap kdata) KERNBASE s1 l) as (r & s' & l' & E' & Hsp & Hcase);
    [lia|apply kmap_layout|done|intros; by rewrite Hpte|].
  rewrite E'. exists r, s', l'. split; [done|]. split.
  - intros q Hq Hn. rewrite <- Hs1 by done. apply not_elem_of_cons in Hn as [Hn Hn'].
    apply Hsp; [done|done|]. by rewrite Hh.
  - destruct Hcase as [(-> & Hf' & Hl')|(-> & Him & Ha)]; [left|right]; (split; [done|]); (split; [done|]); intros q.
    + rewrite Hl', Hh, elem_of_cons. tauto.
    + rewrite (Ha q), Hh, elem_of_cons. tauto.
Qed.

End Kvm.

(** ** Growing and filling an image *)

Lemma below_roundup sz va : 0 <= sz < KERNBASE -> PGSIZE * (va / PGSIZE) < PGROUNDUP sz <-> PGSIZE * (va / PGSIZE) < sz.
Proof.
  intros Hsz. destruct (pground_up sz) as (E & Hb & _); [lia|unfold PGSIZE, KERNBASE in *; lia|].
  rewrite E in *. split; [|lia]. intros H. apply page_lt in H. lia.
Qed.

Lemma page_in va : 0 <= va -> 0 <= PGSIZE * (va / PGSIZE) <= va.
Proof.
  intros Hva. pose proof (Z.mul_div_le va PGSIZE ltac:(done)). pose proof (Z.div_pos va PGSIZE Hva ltac:(done)).
  unfold PGSIZE in *. lia.
Qed.

Lemma image_grow s pgdir l sz newsz : image_ok s pgdir l sz -> sz <= newsz < KERNBASE ->
  exists r s' l', allocuvm kend pgdir sz newsz s = Ok r s' /\ evolves s s' pgdir l l' /\
    (r = 0 \/ r = newsz /\ image_ok s' pgdir l' newsz /\
       (forall va, 0 <= va < KERNBASE -> PGROUNDUP sz <= PGSIZE * (va / PGSIZE) < newsz ->
          PTE_FLAGS (pte_at s' pgdir va) = 7)).
Proof using Hkend.
  intros [Has Hsz Hp] Hn. destruct (pground_up sz) as (_ & Hb & _); [lia|unfold PGSIZE, KERNBASE in *; lia|].
  destruct (allocuvm_spec kend pgdir sz newsz s l Hkend Has) as (r & s' & l' & E & Has' & Hacc & Huf & Hcase); [lia|lia| |].
  { intros va Hva Hr. assert (va < KERNBASE).
    { pose proof (Z.mul_succ_div_gt va PGSIZE ltac:(done)).
      assert (PGSIZE * (va / PGSIZE) < PGSIZE * (KERNBASE / PGSIZE)) as Hx by (change (PGSIZE * (KERNBASE / PGSIZE)) with KERNBASE; lia).
      apply page_lt in Hx. change (PGSIZE * (KERNBASE / PGSIZE)) with KERNBASE in Hx. unfold PGSIZE in *. lia. }
    rewrite Hp by lia. apply Z.ltb_ge. lia. }
  exists r, s', l'. split; [done|]. split; [split; [done|done|by eapply uframe_spares]|].
  destruct Hcase as [[-> Hg]|[-> _]]; [right|by left]. split; [done|]. split.
  - split; [done|lia|]. intros va Hva. destruct (Hg va (user_range va Hva)) as [H1 H2].
    destruct (decide (PGROUNDUP sz <= PGSIZE * (va / PGSIZE) < newsz)) as [Hr|Hr].
    + destruct (H1 Hr) as (_ & -> & _). symmetry. apply Z.ltb_lt. lia.
    + destruct (H2 Hr) as [-> _]. rewrite Hp by done.
      pose proof (below_roundup sz va Hsz).
      destruct (Z.ltb_spec (PGSIZE * (va / PGSIZE)) sz), (Z.ltb_spec (PGSIZE * (va / PGSIZE)) newsz); lia.
  - intros va Hva Hr. destruct (Hg va (user_range va Hva)) as [H1 _]. by apply H1.
Qed.

Lemma image_roundup s pgdir l sz : image_ok s pgdir l sz -> PGROUNDUP sz < KERNBASE -> image_ok s pgdir l (PGROUNDUP sz).
Proof.
  intros [Has Hsz Hp] Hr. destruct (pground_up sz) as (_ & Hb & _); [lia|unfold PGSIZE, KERNBASE in *; lia|].
  split; [done|lia|]. intros va Hva. rewrite Hp by done. pose proof (below_roundup sz va Hsz).
  destruct (Z.ltb_spec (PGSIZE * (va / PGSIZE)) sz), (Z.ltb_spec (PGSIZE * (va / PGSIZE)) (PGROUNDUP sz)); lia.
Qed.

(** A store into a user page. *)
Lemma store_evolves s pgdir l va bs : as_ok kend s pgdir l -> 0 <= va < KERNBASE ->
  has PTE_P (pte_at s pgdir va) = true -> va mod PGSIZE + Z.of_nat (length bs) <= PGSIZE ->
  let s' := store_bytes (upage s pgdir va + va mod PGSIZE) bs s in
  evolves s s' pgdir l l /\ (forall va', pte_at s' pgdir va' = pte_at s pgdir va').
Proof.
  intros Has Hva Hp Hb s'. destruct (store_user kend s pgdir l va bs Has Hva Hp Hb) as (Has' & Hpde & Hpte & _ & Ho).
  split; [|done]. split; [done| |].
  - intros q. rewrite (held_ext s s') by (intros; first [by apply Hpde|by apply Hpte]). done.
  - intros q Hq Hl Hh. apply Ho; [done|]. intros ->. apply Hh. right. right. by exists va.
Qed.

Lemma image_pte s s' pgdir l sz : image_ok s pgdir l sz -> as_ok kend s' pgdir l ->
  (forall va, pte_at s' pgdir va = pte_at s pgdir va) -> image_ok s' pgdir l sz.
Proof. intros [_ Hsz Hp] Has' H. split; [done|done|]. intros va Hva. rewrite H. by apply Hp. Qed.

(** The walk to the entry of a page that is there. *)
Lemma walk_user s pgdir l va : as_ok kend s pgdir l -> has PTE_P (pte_at s pgdir va) = true ->
  has PTE_P (pde_at s pgdir (PDX va)) = true /\
  walkpgdir pgdir va false s = Ok (tab_at s pgdir (PDX va) + 4 * PTX va) s /\
  tab_at s pgdir (PDX va) + 4 * PTX va <> 0 /\
  ld32 (tab_at s pgdir (PDX va) + 4 * PTX va) s = pte_at s pgdir va.
Proof.
  intros Has Hp. assert (has PTE_P (pde_at s pgdir (PDX va)) = true) as Hd.
  { unfold pte_at in Hp. by destruct (has PTE_P (pde_at s pgdir (PDX va))). }
  split; [done|]. split; [by apply walk_present|].
  destruct (pt_tab _ _ _ _ (as_pt _ _ _ _ Has) _ (PDX_range va) Hd) as (Hvt & _).
  pose proof (valid_page_pos kend _ Hvt). pose proof (PTX_range va). split; [lia|].
  unfold pte_at. by rewrite Hd.
Qed.

Lemma loaduvm_loop_spec f readi pgdir addr i offset sz s l isz : image_ok s pgdir l isz ->
  (forall off n, Z.of_nat (length (readi off n)) <= Z.max 0 n) ->
  addr mod PGSIZE = 0 -> i mod PGSIZE = 0 -> 0 <= addr -> 0 <= i -> addr + sz <= isz ->
  sz - i <= PGSIZE * Z.of_nat f ->
  exists r s', loaduvm_loop f readi pgdir addr i offset sz s = Ok r s' /\ evolves s s' pgdir l l /\ image_ok s' pgdir l isz.
Proof.
  intros Him Hread Ha. revert i s Him. induction f as [|f IH]; intros i s Him Hi Ha0 Hi0 Hsz Hf; cbn [loaduvm_loop].
  all: destruct (Z.ltb_spec i sz) as [Hlt|Hge]; [|exists 0, s; split; [done|split; [by apply evolves_refl, Him|done]]].
  { unfold PGSIZE in Hf. lia. }
  pose proof (im_sz _ _ _ _ Him). rewrite (u32_id (addr + i)) by (unfold KERNBASE in *; lia).
  assert ((addr + i) mod PGSIZE = 0) as Hm by (rewrite Zplus_mod, Ha, Hi; done).
  assert (has PTE_P (pte_at s pgdir (addr + i)) = true) as Hp.
  { rewrite (im_pages _ _ _ _ Him) by lia. rewrite (mod_page _ Hm). apply Z.ltb_lt. lia. }
  destruct (walk_user s pgdir l (addr + i) (im_ok _ _ _ _ Him) Hp) as (_ & Ew & Hnz & Ee).
  rewrite (bind_ok _ _ _ _ _ Ew). rewrite (proj2 (Z.eqb_neq _ _)) by done.
  rewrite (bind_ok _ _ _ (pte_at s pgdir (addr + i)) s) by (unfold gets; by rewrite Ee).
  set (n := if sz - i <? PGSIZE then sz - i else PGSIZE).
  assert (0 < n <= PGSIZE) as Hn by (unfold n; destruct (Z.ltb_spec (sz - i) PGSIZE); unfold PGSIZE in *; lia).
  pose proof (Hread (u32 (offset + i)) n) as Hlen. set (bs := readi (u32 (offset + i)) n) in *.
  destruct (store_evolves s pgdir l (addr + i) bs (im_ok _ _ _ _ Him)) as [Hev Hpte]; [lia|done|lia|].
  rewrite Hm, Z.add_0_r in Hev, Hpte. fold (upage s pgdir (addr + i)).
  set (s1 := store_bytes (upage s pgdir (addr + i)) bs s) in *.
  assert (image_ok s1 pgdir l isz) as Him1 by (apply (image_pte s); [done|apply Hev|done]).
  rewrite (bind_ok _ _ _ tt s1) by done.
  destruct (negb _); [by exists (-1), s1|].
  rewrite (u32_id (i + PGSIZE)) by (unfold PGSIZE, KERNBASE in *; lia).
  destruct (IH (i + PGSIZE) s1 Him1) as (r & s' & E & Hev' & Him').
  - rewrite Zplus_mod, Hi, Z_mod_same_full. done.
  - done.
  - unfold PGSIZE. lia.
  - done.
  - lia.
  - exists r, s'. split; [done|]. split; [by eapply evolves_trans|done].
Qed.

Lemma loaduvm_spec readi pgdir addr offset sz s l isz : image_ok s pgdir l isz ->
  (forall off n, Z.of_nat (length (readi off n)) <= Z.max 0 n) ->
  addr mod PGSIZE = 0 -> 0 <= addr -> 0 <= sz -> addr + sz <= isz ->
  exists r s', loaduvm readi pgdir addr offset sz s = Ok r s' /\ evolves s s' pgdir l l /\ image_ok s' pgdir l isz.
Proof.
  intros Him Hr Ha Ha0 Hs0 Hsz. unfold loaduvm. rewrite Ha. cbn [Z.eqb negb].
  apply loaduvm_loop_spec; try done.
  pose proof (Z.mul_succ_div_gt sz PGSIZE ltac:(done)). pose proof (Z.div_pos sz PGSIZE ltac:(lia) ltac:(done)).
  rewrite Nat2Z.inj_succ, Z2Nat.id by done. lia.
Qed.

(** ** The guard page *)

Lemma clear_u e : let e' := u32 (Z.land e (u32 (Z.lnot PTE_U))) in
  has PTE_P e' = has PTE_P e /\ has PTE_U e' = false /\ PTE_ADDR e' = PTE_ADDR e.
Proof.
  change (u32 (Z.lnot PTE_U)) with 4294967291.
  assert (u32 (Z.land e 4294967291) = Z.land e 4294967291) as E.
  { unfold u32. change 4294967291 with (Z.land 4294967291 (Z.ones 32)). rewrite Z.land_assoc, Z.land_ones by done.
    apply Z.mod_mod. done. }
  cbv zeta. rewrite E. unfold has, PTE_ADDR. rewrite <- !Z.land_assoc.
  change (Z.land 4294967291 PTE_P) with PTE_P. change (Z.land 4294967291 PTE_U) with 0.
  change (Z.land 4294967291 PGMASK) with PGMASK. by rewrite Z.land_0_r.
Qed.

(** [clearpteu] takes a page away from user code and changes nothing else. *)
Lemma clearpteu_spec pgdir uva s l sz : image_ok s pgdir l sz -> 0 <= uva < KERNBASE ->
  has PTE_P (pte_at s pgdir uva) = true ->
  exists s', clearpteu pgdir uva s = Ok tt s' /\ evolves s s' pgdir l l /\ image_ok s' pgdir l sz /\
    (forall va, 0 <= va < 2 ^ 32 -> va / PGSIZE = uva / PGSIZE -> has PTE_U (pte_at s' pgdir va) = false) /\
    (forall va, 0 <= va < 2 ^ 32 -> va / PGSIZE <> uva / PGSIZE -> pte_at s' pgdir va = pte_at s pgdir va).
Proof.
  intros Him Hu Hp. pose proof (im_ok _ _ _ _ Him) as Has.
  destruct (walk_user s pgdir l uva Has Hp) as (Hd & Ew & Hnz & Ee).
  unfold clearpteu. rewrite (bind_ok _ _ _ _ _ Ew), (proj2 (Z.eqb_neq _ _)) by done.
  set (v := Z.land (pte_at s pgdir uva) (u32 (Z.lnot PTE_U))).
  destruct (set_pte kend s pgdir uva v l (as_pt _ _ _ _ Has) Hd (user_range uva Hu)) as (Hpt & Hpde & Hpte & Hfr).
  set (s' := st32 (tab_at s pgdir (PDX uva) + 4 * PTX uva) v s) in *.
  exists s'. split; [unfold modify; by rewrite Ee|].
  destruct (clear_u (pte_at s pgdir uva)) as (Hc1 & Hc2 & Hc3). fold v in Hc1, Hc2, Hc3.
  assert (forall va, va / PGSIZE = uva / PGSIZE -> pte_at s pgdir va = pte_at s pgdir uva) as Hpg.
  { intros va E. unfold pte_at. by destruct (indices_page va uva E) as [-> ->]. }
  assert (forall va, 0 <= va < 2 ^ 32 -> has PTE_P (pte_at s' pgdir va) = has PTE_P (pte_at s pgdir va) /\
    upage s' pgdir va = upage s pgdir va) as Hsame.
  { intros va Hva. unfold upage. rewrite Hpte by done. case_decide as E; [|done]. by rewrite (Hpg va E), Hc1, Hc3. }
  assert (as_ok kend s' pgdir l) as Has'.
  { split; [done| |].
    - intros va Hva. destruct (Hsame va (user_range va Hva)) as [-> ->]. intros Hp'.
      destruct (as_user _ _ _ _ Has va Hva Hp') as (? & ? & ? & H4). split_and!; [done..|].
      intros i Hi. unfold tab_at. rewrite Hpde by done. by apply H4.
    - intros v1 v2 H1 H2. destruct (Hsame v1 (user_range v1 H1)) as [-> ->], (Hsame v2 (user_range v2 H2)) as [-> ->].
      by apply (as_inj _ _ _ _ Has). }
  split_and!.
  - split; [done| |by apply (frame_spares s s' pgdir l l)].
    intros q. unfold held. rewrite (table_ext s s') by done.
    assert (user s' pgdir q <-> user s pgdir q) as ->; [|done].
    split; intros (va & Hva & Hp' & ->); exists va; destruct (Hsame va (user_range va Hva)) as [E1 E2];
      rewrite ?E1, ?E2 in *; done.
  - split; [done|apply Him|]. intros va Hva. destruct (Hsame va (user_range va Hva)) as [-> _]. by apply Him.
  - intros va Hva E. rewrite Hpte by done. by rewrite decide_True.
  - intros va Hva E. rewrite Hpte by done. by rewrite decide_False.
Qed.

(** ** copyout to an image *)

(** Where the pages are there, [copyout] writes until it meets one that user code
    may not use. *)
Lemma copyout_loop_total f cur pgdir va buf s l :
  as_ok kend s pgdir l -> 0 <= va -> va + Z.of_nat (length buf) <= KERNBASE -> (length buf < f)%nat ->
  (forall v, va <= v < va + Z.of_nat (length buf) -> has PTE_P (pte_at s pgdir v) = true) ->
  exists r s', copyout_loop f cur pgdir va buf s = Ok r s' /\ evolves s s' pgdir l l /\
    (forall v, pte_at s' pgdir v = pte_at s pgdir v) /\
    (r = -1 \/ r = 0 /\ forall v, va <= v < va + Z.of_nat (length buf) -> has PTE_U (pte_at s pgdir v) = true).
Proof.
  revert va buf s. induction f as [|f IH]; intros va buf s Has Hva Hb Hf Hp; [lia|].
  destruct buf as [|x buf]; cbn [copyout_loop].
  { exists 0, s. split_and!; [done|by apply evolves_refl|done|]. right. split; [done|]. simpl. lia. }
  set (b := x :: buf) in *. assert (0 < Z.of_nat (length b)) as Hpos by (simpl; lia).
  destruct (aligned_down va ltac:(unfold KERNBASE in *; lia)) as (Hm0 & Hd0 & Hr0 & E0).
  set (va0 := PGROUNDDOWN va) in *.
  pose proof (Z.div_mod va PGSIZE ltac:(done)). pose proof (Z.mod_pos_bound va PGSIZE ltac:(done)).
  assert (forall v, v / PGSIZE = va / PGSIZE -> pte_at s pgdir v = pte_at s pgdir va) as Hpg.
  { intros v E. unfold pte_at. by destruct (indices_page v va E) as [-> ->]. }
  pose proof (Hp va ltac:(lia)) as Hpa. rewrite <- (Hpg va0 Hd0) in Hpa.
  destruct (walk_user s pgdir l va0 Has Hpa) as (_ & Ew & Hnz & Ee).
  unfold uva2ka. rewrite bind_assoc, (bind_ok _ _ _ _ _ Ew), (proj2 (Z.eqb_neq _ _) Hnz).
  rewrite bind_assoc, (bind_ok _ _ _ (pte_at s pgdir va0) s) by (unfold gets; by rewrite Ee).
  rewrite Hpa. cbn [negb andb].
  destruct (has PTE_U (pte_at s pgdir va0)) eqn:Hu; cbn [negb].
  2:{ exists (-1), s. split_and!; [done|by apply evolves_refl|done|by left]. }
  fold (upage s pgdir va0). rewrite (bind_ok _ _ _ (upage s pgdir va0) s) by done.
  rewrite (Hpg va0 Hd0) in Hpa, Hu.
  assert (upage s pgdir va0 = upage s pgdir va) as -> by (unfold upage; by rewrite (Hpg va0 Hd0)).
  destruct (user_outside kend s pgdir l va Has ltac:(lia) Hpa) as [Hq _].
  pose proof (valid_page_pos kend _ Hq). destruct (Z.eqb_spec (upage s pgdir va) 0) as [|_]; [lia|].
  replace (va - va0) with (va mod PGSIZE) by lia.
  set (n := if PGSIZE - va mod PGSIZE >? Z.of_nat (length b) then Z.of_nat (length b) else PGSIZE - va mod PGSIZE).
  assert (0 < n <= Z.of_nat (length b) /\ n <= PGSIZE - va mod PGSIZE /\
    (n = PGSIZE - va mod PGSIZE \/ n = Z.of_nat (length b))) as (Hn1 & Hn2 & Hn3).
  { unfold n. rewrite Z.gtb_ltb. destruct (Z.ltb_spec (Z.of_nat (length b)) (PGSIZE - va mod PGSIZE)); lia. }
  assert (length (take (Z.to_nat n) b) = Z.to_nat n) as Hlt by (rewrite length_take; lia).
  destruct (store_evolves s pgdir l va (take (Z.to_nat n) b) Has ltac:(lia) Hpa ltac:(lia)) as [Hev Hpte1].
  set (s1 := store_bytes _ _ s) in *. rewrite (bind_ok _ _ _ tt s1) by done.
  rewrite (u32_id (va0 + PGSIZE)) by (unfold PGSIZE, KERNBASE in *; lia).
  set (rest := drop (Z.to_nat n) b).
  assert (length rest = (length b - Z.to_nat n)%nat) as Hlr by apply length_drop.
  assert (forall v, va <= v < va + n -> has PTE_U (pte_at s pgdir v) = true) as Hun.
  { intros v Hv. rewrite (Hpg v); [done|]. symmetry.
    apply (Z.div_unique _ _ _ (v - PGSIZE * (va / PGSIZE))); [left|]; lia. }
  destruct (decide (n = Z.of_nat (length b))) as [En|En].
  - assert (rest = []) as -> by (apply nil_length_inv; lia).
    exists 0, s1. split; [destruct f; done|]. split_and!; [done|done|]. right. split; [done|]. by rewrite <- En.
  - assert (va0 + PGSIZE = va + n) as Enext by lia. rewrite Enext.
    destruct (IH (va + n) rest s1) as (r & s' & E' & Hev' & Hpte' & Hcase); [apply Hev|lia|lia|lia| |].
    + intros v Hv. rewrite Hpte1. apply Hp. lia.
    + exists r, s'. split_and!; [done|by eapply evolves_trans|intros v; by rewrite Hpte'|].
      destruct Hcase as [->|[-> Hc]]; [by left|right]. split; [done|]. intros v Hv.
      destruct (decide (v < va + n)); [apply Hun; lia|]. rewrite <- Hpte1. apply Hc. lia.
Qed.

Lemma copyout_total cur pgdir va buf s l sz : image_ok s pgdir l sz -> sz mod PGSIZE = 0 ->
  0 <= va -> va + Z.of_nat (length buf) <= sz ->
  exists r s', copyout cur pgdir va buf s = Ok r s' /\ evolves s s' pgdir l l /\ image_ok s' pgdir l sz /\
    (forall v, pte_at s' pgdir v = pte_at s pgdir v) /\
    (r = -1 \/ r = 0 /\ forall v, va <= v < va + Z.of_nat (length buf) -> has PTE_U (pte_at s pgdir v) = true).
Proof.
  intros Him Hm Hva Hb. pose proof (im_sz _ _ _ _ Him).
  destruct (copyout_loop_total (S (length buf)) cur pgdir va buf s l (im_ok _ _ _ _ Him)) as (r & s' & E & Hev & Hpte & Hc);
    [lia|lia|lia| |].
  - intros v Hv. rewrite (im_pages _ _ _ _ Him) by lia. apply Z.ltb_lt. pose proof (page_in v ltac:(lia)). lia.
  - exists r, s'. split_and!; [done|done|by apply (image_pte s); [|apply Hev|]|done|done].
Qed.

End Space.
