(* ===== verification/Exec.v ===== *)
(** * Executing a program (system/core/exec.c, include/elf.h)

    [exec] builds a new address space from an ELF file, with the program's arguments on
    its stack, and commits to it, or gives everything back.  The page tables and the
    memory are those of Vm.v.  The file system is seen through what [exec] asks of it:
    [namei path] is the inode of a path, [readi ip off n] the bytes that a read of a
    locked inode delivers, and [calls] the history of the calls that take and release
    things: the transaction, and the inode with its lock.

    [image] holds the fields of the process that [exec] replaces; the memory of the old
    program and of the new one is in [xkm].  Until it commits the page directory of the
    old program is loaded, and [copyout] is given it. *)

From S2P Require Import Prelude Kalloc Vm VmSpace.

Definition MAXARG : Z := 32.
Definition ELF_MAGIC : Z := 1179403647.
Definition ELF_PROG_LOAD : Z := 1.

(** The fields of [struct elfhdr] that are used, at their offsets. *)
Record elfhdr := mkelf { magic : Z; entry : Z; phoff : Z; phnum : Z }.
Definition elfhdr_size : Z := 52.
Definition elfhdr_of (bs : list Z) : elfhdr := mkelf (get32 0 bs) (get32 24 bs) (get32 28 bs) (get16 44 bs).

Record proghdr := mkph { ptype : Z; poff : Z; vaddr : Z; filesz : Z; memsz : Z }.
Definition proghdr_size : Z := 32.
Definition proghdr_of (bs : list Z) : proghdr :=
  mkph (get32 0 bs) (get32 4 bs) (get32 8 bs) (get32 16 bs) (get32 20 bs).

Inductive fscall := BeginOp | EndOp | Ilock (ip : nat) | Iunlockput (ip : nat).

Record image := mkimage { ipgdir : Z; isz : Z; ieip : Z; iesp : Z; iname : list Z }.

Record xst := mkxst { xkm : kmem; ximg : image; calls : list fscall }.

Definition on_vm {A} (m : M kmem A) : M xst A := fun s =>
  match m (xkm s) with
  | Ok a k => Ok a (mkxst k (ximg s) (calls s))
  | Panic msg => Panic msg
  | Asleep k => Asleep (mkxst k (ximg s) (calls s))
  | NoFuel => NoFuel
  end.
Definition call (c : fscall) : M xst unit := modify (fun s => mkxst (xkm s) (ximg s) (calls s ++ [c])).

Section Exec.
Context (kend kdata : Z) (namei : list Z -> option nat) (readi : nat -> Z -> Z -> list Z).

(** The loop over the program headers: the size of the image, or [None] for [goto bad]. *)
Fixpoint load_segments (n : nat) (ip : nat) (pgdir off sz : Z) : M xst (option Z) :=
  match n with
  | O => mret (Some sz)
  | S n =>
      let bs := readi ip (u32 off) proghdr_size in
      if negb (Z.of_nat (length bs) =? proghdr_size) then mret None else
      let ph := proghdr_of bs in
      if negb (ptype ph =? ELF_PROG_LOAD) then load_segments n ip pgdir (off + proghdr_size) sz else
      if memsz ph <? filesz ph then mret None else
      if u32 (vaddr ph + memsz ph) <? vaddr ph then mret None else
      sz ← on_vm (allocuvm kend pgdir sz (u32 (vaddr ph + memsz ph)));
      if sz =? 0 then mret None else
      if negb (vaddr ph mod PGSIZE =? 0) then mret None else
      r ← on_vm (loaduvm (readi ip) pgdir (vaddr ph) (poff ph) (filesz ph));
      if r <? 0 then mret None else
      load_segments n ip pgdir (off + proghdr_size) sz
  end.

(** The loop that pushes the argument strings: the stack pointer, and the pointers to the
    strings in the order of the arguments.  [cur] is the page directory that is loaded,
    that of the running program. *)
Fixpoint push_strings (cur pgdir : Z) (argv : list (list Z)) (argc sp : Z) (ustack : list Z) : M kmem (option (Z * list Z)) :=
  match argv with
  | [] => mret (Some (sp, ustack))
  | a :: argv =>
      if argc >=? MAXARG then mret None else
      let sp := Z.land (u32 (sp - (Z.of_nat (length a) + 1))) (u32 (Z.lnot 3)) in
      r ← copyout cur pgdir sp (a ++ [0]);
      if r <? 0 then mret None else
      push_strings cur pgdir argv (argc + 1) sp (ustack ++ [sp])
  end.

Definition words (l : list Z) : list Z := concat (map (fun w => le_bytes 4 (u32 w)) l).

(** The strings and then the frame of [main]. *)
Definition push_args (cur pgdir : Z) (argv : list (list Z)) (sp : Z) : M kmem (option Z) :=
  r ← push_strings cur pgdir argv 0 sp [];
  match r with
  | None => mret None
  | Some (sp, ustack) =>
      let argc := Z.of_nat (length argv) in
      let sp' := u32 (sp - (3 + argc + 1) * 4) in
      r ← copyout cur pgdir sp' (words ([2 ^ 32 - 1; argc; sp - (argc + 1) * 4] ++ ustack ++ [0]));
      mret (if r <? 0 then None else Some sp')
  end.

(** The part of the path after its last slash. *)
Fixpoint last_part (last s : list Z) : list Z :=
  match s with
  | [] => last
  | c :: s => last_part (if c =? chr "/" then s else last) s
  end.

(** [safestrcpy] into the 16 bytes of the name. *)
Definition proc_name (s : list Z) : list Z := take 15 s ++ [0].

(** The label [bad]: what is left to release is the page table, and the inode with its
    transaction when the program was being loaded. *)
Definition bad (pgdir : Z) (ip : option nat) : M xst Z :=
  (if negb (pgdir =? 0) then on_vm (freevm kend pgdir) else mret tt) ;;
  match ip with
  | Some ip => call (Iunlockput ip) ;; call EndOp
  | None => mret tt
  end ;;
  mret (-1).

Definition exec (path : list Z) (argv : list (list Z)) : M xst Z :=
  call BeginOp ;;
  match namei path with
  | None => call EndOp ;; mret (-1)
  | Some ip =>
      call (Ilock ip) ;;
      let bs := readi ip 0 elfhdr_size in
      if negb (Z.of_nat (length bs) =? elfhdr_size) then bad 0 (Some ip) else
      let elf := elfhdr_of bs in
      if negb (magic elf =? ELF_MAGIC) then bad 0 (Some ip) else
      pgdir ← on_vm (setupkvm kend kdata);
      if pgdir =? 0 then bad 0 (Some ip) else
      sz ← load_segments (Z.to_nat (phnum elf)) ip pgdir (phoff elf) 0;
      match sz with
      | None => bad pgdir (Some ip)
      | Some sz =>
          call (Iunlockput ip) ;;
          call EndOp ;;
          let sz := PGROUNDUP sz in
          sz ← on_vm (allocuvm kend pgdir sz (u32 (sz + 2 * PGSIZE)));
          if sz =? 0 then bad pgdir None else
          on_vm (clearpteu pgdir (u32 (sz - 2 * PGSIZE))) ;;
          old ← gets (fun s => ipgdir (ximg s));
          sp ← on_vm (push_args old pgdir argv sz);
          match sp with
          | None => bad pgdir None
          | Some sp =>
              modify (fun s => mkxst (xkm s) (mkimage pgdir sz (entry elf) sp (proc_name (last_part path path))) (calls s)) ;;
              on_vm (freevm kend old) ;;
              mret 0
          end
      end
  end.
End Exec.

(** ** What exec takes and gives back *)
Section Protocol.
Context (kend kdata : Z) (namei : list Z -> option nat) (readi : nat -> Z -> Z -> list Z).

(** Memory operations leave the process and the history alone. *)
Definition quiet {A} (m : M xst A) : Prop :=
  forall s a s', m s = Ok a s' -> ximg s' = ximg s /\ calls s' = calls s.

Lemma quiet_vm {A} (m : M kmem A) : quiet (on_vm m).
Proof. intros s a s'. unfold on_vm. destruct (m (xkm s)); intros [= <- <-]. done. Qed.

Lemma quiet_ret {A} (a : A) : quiet (mret a).
Proof. intros s b s' [= <- <-]. done. Qed.

Lemma quiet_bind {A B} (m : M xst A) (k : A -> M xst B) : quiet m -> (forall a, quiet (k a)) -> quiet (m ≫= k).
Proof.
  intros Hm Hk s b s' H. apply bind_ok_inv in H as (a & s1 & H1 & H2).
  destruct (Hm _ _ _ H1) as [E1 E2], (Hk _ _ _ _ H2) as [E3 E4]. split; congruence.
Qed.

Lemma quiet_segments n ip pgdir : forall off sz, quiet (load_segments kend readi n ip pgdir off sz).
Proof.
  induction n as [|n IH]; intros off sz; simpl; [apply quiet_ret|].
  destruct (negb _); [apply quiet_ret|]. destruct (negb _); [apply IH|]. do 2 (destruct (_ <? _); [apply quiet_ret|]).
  apply quiet_bind; [apply quiet_vm|]. intros sz'. destruct (sz' =? 0); [apply quiet_ret|]. destruct (negb _); [apply quiet_ret|].
  apply quiet_bind; [apply quiet_vm|]. intros r. case_match; [apply quiet_ret|apply IH].
Qed.

Lemma bad_run pgdir ip s r s' :
  bad kend pgdir ip s = Ok r s' ->
  r = -1 /\ ximg s' = ximg s /\ calls s' = calls s ++ match ip with Some i => [Iunlockput i; EndOp] | None => [] end.
Proof.
  unfold bad. intros H. apply bind_ok_inv in H as ([] & s1 & H1 & H2).
  assert (Hq : quiet (if negb (pgdir =? 0) then on_vm (freevm kend pgdir) else mret tt)) by (destruct (negb (pgdir =? 0)); [apply quiet_vm|apply quiet_ret]).
  destruct (Hq _ _ _ H1) as [E1 E2].
  destruct ip as [i|]; msimpl; injection H2 as <- <-; simpl; rewrite E1, E2; split_and!; try done; [by rewrite <- app_assoc|by rewrite app_nil_r].
Qed.

Lemma exec_shape path argv s r s' :
  exec kend kdata namei readi path argv s = Ok r s' ->
  match namei path with
  | None => r = -1 /\ s' = mkxst (xkm s) (ximg s) (calls s ++ [BeginOp; EndOp])
  | Some ip =>
      calls s' = calls s ++ [BeginOp; Ilock ip; Iunlockput ip; EndOp] /\
      (r = -1 /\ ximg s' = ximg s \/
       r = 0 /\ ieip (ximg s') = entry (elfhdr_of (readi ip 0 elfhdr_size)) /\ iname (ximg s') = proc_name (last_part path path) /\
         ipgdir (ximg s') <> 0)
  end.
Proof.
  unfold exec. intros H. apply bind_ok_inv in H as ([] & s1 & [= <-] & H).
  destruct (namei path) as [ip|]; [|msimpl; injection H as <- <-; simpl; by rewrite <- app_assoc].
  apply bind_ok_inv in H as ([] & s2 & [= <-] & H). simpl in H.
  assert (Hbad : forall pg s3 r3 s3', bad kend pg (Some ip) s3 = Ok r3 s3' -> ximg s3 = ximg s -> calls s3 = (calls s ++ [BeginOp]) ++ [Ilock ip] ->
    calls s3' = calls s ++ [BeginOp; Ilock ip; Iunlockput ip; EndOp] /\ (r3 = -1 /\ ximg s3' = ximg s \/
      r3 = 0 /\ ieip (ximg s3') = entry (elfhdr_of (readi ip 0 elfhdr_size)) /\ iname (ximg s3') = proc_name (last_part path path) /\ ipgdir (ximg s3') <> 0)).
  { intros pg s3 r3 s3' H3 E1 E2. apply bad_run in H3 as (-> & -> & ->). rewrite E1, E2, <- !app_assoc. auto. }
  destruct (negb _); [by eapply Hbad|]. destruct (negb _); [by eapply Hbad|].
  apply bind_ok_inv in H as (pgdir & s3 & H3 & H). destruct (quiet_vm _ _ _ _ H3) as [E1 E2]. simpl in E1, E2.
  destruct (Z.eqb_spec pgdir 0) as [_|Hpg]; [by eapply Hbad|].
  apply bind_ok_inv in H as (sz & s4 & H4 & H). destruct (quiet_segments _ _ _ _ _ _ _ _ H4) as [E3 E4].
  destruct sz as [sz|]; [|eapply Hbad; [exact H|congruence..]].
  apply bind_ok_inv in H as ([] & s5 & [= <-] & H). apply bind_ok_inv in H as ([] & s6 & [= <-] & H). simpl in H.
  apply bind_ok_inv in H as (sz' & s7 & H7 & H). destruct (quiet_vm _ _ _ _ H7) as [E5 E6]. simpl in E5, E6.
  assert (Ec : calls s7 = calls s ++ [BeginOp; Ilock ip; Iunlockput ip; EndOp]) by (rewrite E6, E4, E2, <- !app_assoc; done).
  assert (Hbad2 : forall s8, bad kend pgdir None s8 = Ok r s' -> ximg s8 = ximg s7 -> calls s8 = calls s7 ->
    calls s' = calls s ++ [BeginOp; Ilock ip; Iunlockput ip; EndOp] /\ r = -1 /\ ximg s' = ximg s).
  { intros s8 H8 F1 F2. apply bad_run in H8 as (-> & -> & ->). rewrite F1, F2, app_nil_r, Ec. split_and!; congruence. }
  destruct (sz' =? 0); [destruct (Hbad2 _ H eq_refl eq_refl) as (? & ? & ?); auto|].
  apply bind_ok_inv in H as ([] & s8 & H8 & H). destruct (quiet_vm _ _ _ _ H8) as [E7 E8].
  apply bind_ok_inv in H as (old & s10 & [= _ <-] & H).
  apply bind_ok_inv in H as (sp & s9 & H9 & H). destruct (quiet_vm _ _ _ _ H9) as [E9 E10].
  destruct sp as [sp|]; [|destruct (Hbad2 _ H ltac:(congruence) ltac:(congruence)) as (? & ? & ?); auto].
  apply bind_ok_inv in H as ([] & s11 & [= <-] & H).
  apply bind_ok_inv in H as ([] & s12 & H12 & [= <- <-]). destruct (quiet_vm _ _ _ _ H12) as [E11 E12]. simpl in *.
  split; [congruence|]. right. rewrite E11. simpl. done.
Qed.
End Protocol.

(** ** The arguments on the stack *)

(** The bytes that user code reads at [va]. *)
Definition ubytes (s : kmem) (pgdir va : Z) (bs : list Z) : Prop :=
  forall i x, bs !! i = Some x -> user_byte s pgdir (va + Z.of_nat i) = x.

(** The room that the strings take, each with its NUL and aligned. *)
Definition room (a : list Z) : Z := (Z.of_nat (length a) + 4) / 4 * 4.
Definition rooms (argv : list (list Z)) : Z := foldr (fun a n => room a + n) 0 argv.

Lemma room_bounds a : Z.of_nat (length a) + 1 <= room a < Z.of_nat (length a) + 5 /\ room a mod 4 = 0.
Proof.
  unfold room. split; [|apply Z.mod_mul; lia].
  assert (E := Z.div_mod (Z.of_nat (length a) + 4) 4 ltac:(lia)). assert (B := Z.mod_pos_bound (Z.of_nat (length a) + 4) 4 ltac:(lia)). lia.
Qed.

Lemma rooms_nonneg argv : 0 <= rooms argv.
Proof. induction argv as [|a argv IH]; simpl; [lia|]. destruct (room_bounds a). unfold rooms in *. lia. Qed.

(** [sp = (sp - (strlen(s) + 1)) & ~3] on an aligned stack pointer. *)
Lemma push_sp sp a : 0 <= sp < 2 ^ 32 -> sp mod 4 = 0 -> room a <= sp ->
  Z.land (u32 (sp - (Z.of_nat (length a) + 1))) (u32 (Z.lnot 3)) = sp - room a.
Proof.
  intros Hsp Hal Hr. destruct (room_bounds a) as [[Hb1 Hb2] Hm]. set (n := Z.of_nat (length a)) in *. assert (0 <= n) by lia.
  rewrite u32_id by lia. change (u32 (Z.lnot 3)) with (Z.shiftl (Z.ones (32 - 2)) 2).
  rewrite land_align by lia. change (2 ^ 2) with 4.
  assert (E := Z.div_mod (sp - (n + 1)) 4 ltac:(lia)). assert (B := Z.mod_pos_bound (sp - (n + 1)) 4 ltac:(lia)).
  apply Z.mod_divide in Hal as [k Hk]; [|lia]. apply Z.mod_divide in Hm as [j Hj]; [|lia]. lia.
Qed.

Section Stack.
Context (kend : Z) (Hkend : KERNBASE < kend) (cur pgdir : Z) (l : list Z).

Lemma user_ok_keep s s' v : (forall w, pte_at s' pgdir w = pte_at s pgdir w) -> user_ok s pgdir v -> user_ok s' pgdir v.
Proof.
  intros Hp (H1 & H2 & H3). unfold user_ok. rewrite Hp. split_and!; [|done..].
  rewrite <- Hp in H2. unfold pte_at in H2. destruct (has PTE_P (pde_at s' pgdir (PDX v))); [done|]. by vm_compute in H2.
Qed.

(** One [copyout] into the stack. *)
Lemma copyout_stack lo hi va buf s :
  as_ok kend s pgdir l -> 0 <= lo -> hi <= KERNBASE -> (forall v, lo <= v < hi -> user_ok s pgdir v) ->
  lo <= va -> va + Z.of_nat (length buf) <= hi ->
  exists s', copyout cur pgdir va buf s = Ok 0 s' /\ as_ok kend s' pgdir l /\ (forall w, pte_at s' pgdir w = pte_at s pgdir w) /\
    ubytes s' pgdir va buf /\
    (forall v, lo <= v < hi -> ~ (va <= v < va + Z.of_nat (length buf)) -> user_byte s' pgdir v = user_byte s pgdir v).
Proof using Hkend.
  intros Has H0 Hk Hu H1 H2.
  destruct (copyout_loop_spec kend Hkend (S (length buf)) cur pgdir va buf s l Has ltac:(lia) ltac:(lia) ltac:(lia)) as (s' & Hr & Has' & Hp & Hb).
  { intros v Hv. apply Hu. lia. }
  exists s'. split_and!; [exact Hr|done|done| |].
  - intros i x Hi. assert (Hlt := lookup_lt_Some _ _ _ Hi). rewrite Hb; [|lia|apply Hu; lia]. rewrite decide_True by lia.
    replace (va + Z.of_nat i - va) with (Z.of_nat i) by lia. rewrite aget_nat, Hi. done.
  - intros v Hv Hn. rewrite Hb; [by rewrite decide_False|lia|by apply Hu].
Qed.

Lemma ubytes_keep s s' va bs :
  (forall v, va <= v < va + Z.of_nat (length bs) -> user_byte s' pgdir v = user_byte s pgdir v) -> ubytes s pgdir va bs -> ubytes s' pgdir va bs.
Proof. intros H Hb i x Hi. rewrite H; [by apply Hb|]. apply lookup_lt_Some in Hi. lia. Qed.

Lemma push_strings_run lo hi : 0 <= lo -> hi <= KERNBASE -> forall argv argc sp us s,
  as_ok kend s pgdir l -> (forall v, lo <= v < hi -> user_ok s pgdir v) ->
  0 <= argc -> argc + Z.of_nat (length argv) <= MAXARG -> sp mod 4 = 0 -> sp <= hi -> lo <= sp - rooms argv ->
  exists ps s', push_strings cur pgdir argv argc sp us s = Ok (Some (sp - rooms argv, us ++ ps)) s' /\
    as_ok kend s' pgdir l /\ (forall w, pte_at s' pgdir w = pte_at s pgdir w) /\
    Forall2 (fun a p => ubytes s' pgdir p (a ++ [0]) /\ sp - rooms argv <= p /\ p + Z.of_nat (length a) + 1 <= sp) argv ps /\
    (forall v, lo <= v < hi -> v < sp - rooms argv \/ sp <= v -> user_byte s' pgdir v = user_byte s pgdir v).
Proof using Hkend.
  intros H0 Hk argv. induction argv as [|a argv IH]; intros argc sp us s Has Hu Hc Hn Hal Hsp Hlo; simpl.
  { exists [], s. rewrite Z.sub_0_r, app_nil_r. split_and!; try done. }
  simpl in *. fold (rooms argv) in *. destruct (room_bounds a) as [[Hr1 Hr2] Hm]. assert (Hrs := rooms_nonneg argv).
  unfold MAXARG in *. destruct (Z.geb_spec argc 32); [lia|]. rewrite push_sp; [|unfold KERNBASE in *; lia|done|lia].
  destruct (copyout_stack lo hi (sp - room a) (a ++ [0]) s Has H0 Hk Hu ltac:(lia)) as (s1 & Hr & Has1 & Hp1 & Hb1 & Hk1).
  { rewrite length_app. simpl. lia. }
  rewrite (bind_ok _ _ _ _ _ Hr). simpl.
  destruct (IH (argc + 1) (sp - room a) (us ++ [sp - room a]) s1 Has1) as (ps & s2 & Hrun & Has2 & Hp2 & Hps & Hk2).
  { intros v Hv. apply (user_ok_keep s); auto. }
  all: try lia.
  { rewrite Zminus_mod, Hal, Hm. done. }
  exists ((sp - room a) :: ps), s2. replace (sp - (room a + rooms argv)) with (sp - room a - rooms argv) by lia.
  split_and!; [by rewrite Hrun, <- app_assoc|done|intros w; by rewrite Hp2| |].
  - constructor.
    + split_and!; [|lia|lia]. apply (ubytes_keep s1); [|done]. intros v Hv. rewrite length_app in Hv. simpl in Hv. apply Hk2; lia.
    + eapply Forall2_impl; [exact Hps|]. intros b p (? & ? & ?). split_and!; [done|lia..].
  - intros v Hv Ho. rewrite Hk2 by lia. apply Hk1; [done|]. rewrite length_app. simpl. lia.
Qed.
End Stack.

Lemma length_words ws : Z.of_nat (length (words ws)) = 4 * Z.of_nat (length ws).
Proof. induction ws as [|w ws IH]; [done|]. unfold words in *. simpl in *. lia. Qed.

(** C30. The arguments that fit the stack page are laid out there as [main] expects: from the
    stack pointer up, a return address, [argc], [argv], the [argc] pointers and a null
    one, and above them each string with its NUL, all of it inside the page and nothing
    overlapping; the rest of the page is not touched. *)
Theorem exec_stack kend cur pgdir argv sz s l :
  KERNBASE < kend -> as_ok kend s pgdir l -> PGSIZE <= sz <= KERNBASE -> sz mod PGSIZE = 0 ->
  (forall v, sz - PGSIZE <= v < sz -> user_ok s pgdir v) ->
  Z.of_nat (length argv) <= MAXARG -> rooms argv + 4 * (4 + Z.of_nat (length argv)) <= PGSIZE ->
  exists sp ps s', push_args cur pgdir argv sz s = Ok (Some sp) s' /\ as_ok kend s' pgdir l /\
    sz - PGSIZE <= sp /\ sp mod 4 = 0 /\
    ubytes s' pgdir sp (words ([2 ^ 32 - 1; Z.of_nat (length argv); sp + 12] ++ ps ++ [0])) /\
    Forall2 (fun a p => ubytes s' pgdir p (a ++ [0]) /\ sp + 4 * (4 + Z.of_nat (length argv)) <= p /\ p + Z.of_nat (length a) + 1 <= sz) argv ps /\
    (forall v, sz - PGSIZE <= v < sp -> user_byte s' pgdir v = user_byte s pgdir v).
Proof.
  intros Hk Has Hsz Hal Hu Hn Hroom. set (argc := Z.of_nat (length argv)) in *. assert (0 <= argc) by lia.
  assert (Hrs := rooms_nonneg argv).
  assert (Hal4 : sz mod 4 = 0).
  { apply Z.mod_divide in Hal as [k Hk']; [|unfold PGSIZE; lia]. rewrite Hk'. change PGSIZE with (1024 * 4). rewrite Z.mul_assoc. apply Z.mod_mul. lia. }
  destruct (push_strings_run kend Hk cur pgdir l (sz - PGSIZE) sz ltac:(lia) ltac:(lia) argv 0 sz [] s Has Hu ltac:(lia) Hn Hal4 ltac:(lia) ltac:(lia))
    as (ps & s1 & Hr1 & Has1 & Hp1 & Hps & Hk1).
  assert (Hlen : length ps = length argv) by (symmetry; by eapply Forall2_length).
  assert (Hr4 : rooms argv mod 4 = 0).
  { clear. induction argv as [|a argv IH]; [done|]. simpl. fold (rooms argv). rewrite Z.add_mod, (proj2 (room_bounds a)), IH by lia. done. }
  set (sp1 := sz - rooms argv) in *. set (sp := sp1 - (3 + argc + 1) * 4).
  assert (Esp : u32 (sp1 - (3 + argc + 1) * 4) = sp) by (apply u32_id; unfold sp, sp1, KERNBASE in *; lia).
  assert (Earg : sp1 - (argc + 1) * 4 = sp + 12) by (unfold sp; lia).
  set (ws := [2 ^ 32 - 1; argc; sp + 12] ++ ps ++ [0]).
  assert (Hws : Z.of_nat (length (words ws)) = (3 + argc + 1) * 4) by (rewrite length_words; unfold ws; rewrite !length_app; simpl; lia).
  destruct (copyout_stack kend Hk cur pgdir l (sz - PGSIZE) sz sp (words ws) s1 Has1 ltac:(lia) ltac:(lia)) as (s2 & Hr2 & Has2 & Hp2 & Hb2 & Hk2).
  { intros v Hv. apply (user_ok_keep pgdir s); auto. }
  { unfold sp, sp1. lia. }
  { unfold sp, sp1. lia. }
  exists sp, ps, s2. split_and!.
  - unfold push_args. rewrite (bind_ok _ _ _ _ _ Hr1). cbn [app]. fold argc. rewrite Esp, Earg. fold ws. rewrite (bind_ok _ _ _ _ _ Hr2). done.
  - done.
  - unfold sp, sp1. lia.
  - unfold sp, sp1. rewrite Zminus_mod, (Zminus_mod sz), Hal4, Hr4, Z.mod_mul by lia. done.
  - exact Hb2.
  - eapply Forall2_impl; [exact Hps|]. intros a p (Hb & H1 & H2). split_and!; [|unfold sp; lia|lia].
    apply (ubytes_keep pgdir s1); [|done]. intros v Hv. rewrite length_app in Hv. simpl in Hv. apply Hk2; [unfold sp1 in *; lia|unfold sp; lia].
  - intros v Hv. rewrite Hk2 by (unfold sp, sp1 in *; lia). apply Hk1; unfold sp, sp1 in *; lia.
Qed.

(** ** The whole call *)

(** What [readi] delivers: bytes, and no more of them than were asked for. *)
Definition reads_ok (readi : nat -> Z -> Z -> list Z) : Prop :=
  forall ip off n, Z.of_nat (length (readi ip off n)) <= Z.max 0 n /\ Forall byte_ok (readi ip off n).

(** The address space of the process is as it was, and so is the set of free pages. *)
Definition untouched (kend : Z) (s s' : kmem) (pgdir : Z) (l l' : list Z) : Prop :=
  as_ok kend s' pgdir l' /\ l' ≡ₚ l /\ (forall va, pte_at s' pgdir va = pte_at s pgdir va) /\
  (forall va, 0 <= va < KERNBASE -> has PTE_P (pte_at s pgdir va) = true ->
     page_at (upage s pgdir va) s' = page_at (upage s pgdir va) s).

Lemma get_range k off bs : Forall byte_ok bs -> 0 <= le_value (take k (drop off bs)) < 256 ^ Z.of_nat k.
Proof.
  intros H. destruct (le_value_range (take k (drop off bs))) as [H1 H2]; [by apply Forall_take, Forall_drop|].
  split; [done|]. eapply Z.lt_le_trans; [exact H2|]. apply Z.pow_le_mono_r; [lia|]. rewrite length_take. lia.
Qed.

Lemma on_vm_ok {A} (m : M kmem A) s a k : m (xkm s) = Ok a k -> on_vm m s = Ok a (mkxst k (ximg s) (calls s)).
Proof. intros H. unfold on_vm. by rewrite H. Qed.

Section Run.
Context (kend : Z) (Hkend : KERNBASE < kend) (readi : nat -> Z -> Z -> list Z) (Hread : reads_ok readi).

(** [allocuvm] as the loader calls it, whatever the size asked for. *)
Lemma image_alloc s pgdir l sz newsz : image_ok kend s pgdir l sz -> 0 <= newsz ->
  exists r s' l', allocuvm kend pgdir sz newsz s = Ok r s' /\ evolves kend s s' pgdir l l' /\
    (r = 0 \/ image_ok kend s' pgdir l' r /\ newsz <= r).
Proof using Hkend.
  intros Him Hn. destruct (decide (KERNBASE <= newsz)) as [Hk|Hk].
  { exists 0, s, l. unfold allocuvm. rewrite Z.geb_leb, (proj2 (Z.leb_le _ _)) by done.
    split; [done|]. split; [apply evolves_refl, Him|by left]. }
  destruct (decide (newsz < sz)) as [Hl|Hl].
  { exists sz, s, l. unfold allocuvm. rewrite Z.geb_leb, (proj2 (Z.leb_gt _ _)), (proj2 (Z.ltb_lt _ _)) by lia.
    split; [done|]. split; [apply evolves_refl, Him|right]. split; [done|lia]. }
  destruct (image_grow kend Hkend s pgdir l sz newsz Him ltac:(lia)) as (r & s' & l' & E & Hev & Hc).
  exists r, s', l'. split; [done|]. split; [done|]. destruct Hc as [->|(-> & ? & _)]; [by left|right]. split; [done|lia].
Qed.

Lemma load_segments_run n ip pgdir : forall off sz s l, image_ok kend (xkm s) pgdir l sz ->
  exists r k l', load_segments kend readi n ip pgdir off sz s = Ok r (mkxst k (ximg s) (calls s)) /\
    evolves kend (xkm s) k pgdir l l' /\ match r with Some sz' => image_ok kend k pgdir l' sz' | None => True end.
Proof using Hkend Hread.
  induction n as [|n IH]; intros off sz s l Him; cbn [load_segments].
  { exists (Some sz), (xkm s), l. destruct s. split; [done|]. split; [apply evolves_refl, Him|done]. }
  assert (forall k l', evolves kend (xkm s) k pgdir l l' ->
    exists r k0 l0, Ok (@None Z) (mkxst k (ximg s) (calls s)) = Ok r (mkxst k0 (ximg s) (calls s)) /\
      evolves kend (xkm s) k0 pgdir l l0 /\ match r with Some sz' => image_ok kend k0 pgdir l0 sz' | None => True end) as Hnone
    by (intros k l' H; by exists None, k, l').
  assert (mkxst (xkm s) (ximg s) (calls s) = s) as Es by (by destruct s).
  pose proof (evolves_refl kend _ _ _ (im_ok _ _ _ _ _ Him)) as Hrefl.
  destruct (negb _); [rewrite <- Es; by apply (Hnone _ l)|].
  destruct (Hread ip (u32 off) proghdr_size) as [_ Hby]. set (bs := readi ip (u32 off) proghdr_size) in *.
  set (ph := proghdr_of bs). destruct (negb _); [by apply IH|].
  assert (0 <= vaddr ph < 2 ^ 32) as Hv by exact (get_range 4 8 bs Hby).
  assert (0 <= filesz ph < 2 ^ 32) as Hf by exact (get_range 4 16 bs Hby).
  assert (0 <= memsz ph < 2 ^ 32) as Hms by exact (get_range 4 20 bs Hby).
  destruct (Z.ltb_spec (memsz ph) (filesz ph)) as [_|Hmf]; [rewrite <- Es; by apply (Hnone _ l)|].
  destruct (Z.ltb_spec (u32 (vaddr ph + memsz ph)) (vaddr ph)) as [_|Hw]; [rewrite <- Es; by apply (Hnone _ l)|].
  assert (u32 (vaddr ph + memsz ph) = vaddr ph + memsz ph) as Eu.
  { unfold u32 in *. destruct (decide (vaddr ph + memsz ph < 2 ^ 32)); [by apply Z.mod_small; lia|].
    assert ((vaddr ph + memsz ph) mod 2 ^ 32 = vaddr ph + memsz ph - 2 ^ 32); [|lia].
    symmetry. apply (Z.mod_unique _ _ 1); lia. }
  rewrite Eu. destruct (image_alloc (xkm s) pgdir l sz (vaddr ph + memsz ph) Him ltac:(lia)) as (sz1 & k1 & l1 & E1 & Hev1 & Hc1).
  rewrite (bind_ok _ _ _ _ _ (on_vm_ok _ _ _ _ E1)).
  destruct (Z.eqb_spec sz1 0) as [_|Hnz]; [by apply (Hnone _ l1)|]. destruct Hc1 as [|[Him1 Hle]]; [done|].
  destruct (Z.eqb_spec (vaddr ph mod PGSIZE) 0) as [Hal|_]; cbn [negb]; [|by apply (Hnone _ l1)].
  destruct (loaduvm_spec kend (readi ip) pgdir (vaddr ph) (poff ph) (filesz ph) k1 l1 sz1 Him1) as (r & k2 & E2 & Hev2 & Him2);
    [intros; apply Hread|done|lia|lia|lia|].
  rewrite (bind_ok _ _ _ _ _ (on_vm_ok _ (mkxst k1 (ximg s) (calls s)) _ _ E2)). cbn [ximg calls].
  pose proof (evolves_trans kend _ _ _ _ _ _ _ Hev1 Hev2) as Hev.
  destruct (r <? 0); [by apply (Hnone _ l1)|].
  destruct (IH (off + proghdr_size) sz1 (mkxst k2 (ximg s) (calls s)) l1 Him2) as (r' & k3 & l3 & E3 & Hev3 & Hc3).
  exists r', k3, l3. split; [exact E3|]. split; [by eapply evolves_trans|done].
Qed.

(** The stack page and the guard page below it. *)
Definition guarded (s : kmem) (pgdir sz : Z) : Prop :=
  2 * PGSIZE <= sz /\ sz mod PGSIZE = 0 /\
  forall v, sz - 2 * PGSIZE <= v < sz - PGSIZE -> has PTE_U (pte_at s pgdir v) = false.

Lemma push_strings_total cur pgdir l sz argv : Forall (fun a => room a <= PGSIZE) argv -> forall argc sp us s,
  image_ok kend s pgdir l sz -> guarded s pgdir sz -> sz - PGSIZE <= sp <= sz -> sp mod 4 = 0 -> 0 <= argc <= MAXARG ->
  exists r s', push_strings cur pgdir argv argc sp us s = Ok r s' /\ evolves kend s s' pgdir l l /\
    image_ok kend s' pgdir l sz /\
    match r with
    | Some (sp', us') => sz - PGSIZE <= sp' <= sz /\ argc + Z.of_nat (length argv) <= MAXARG /\
        length us' = (length us + length argv)%nat
    | None => True
    end.
Proof.
  induction 1 as [|a argv Ha Hargv IH]; intros argc sp us s Him Hg Hsp Hal Hc; cbn [push_strings].
  { exists (Some (sp, us)), s. split; [done|]. split; [apply evolves_refl, Him|]. cbn [length]. split; [done|lia]. }
  pose proof (evolves_refl kend _ _ _ (im_ok _ _ _ _ _ Him)) as Hrefl. pose proof (im_sz _ _ _ _ _ Him).
  destruct (Z.geb_spec argc MAXARG); [by exists None, s|].
  destruct (room_bounds a) as [[Hr1 Hr2] Hm]. destruct Hg as (Hg1 & Hg2 & Hg3).
  rewrite push_sp by (unfold KERNBASE in *; lia || done).
  assert (Z.of_nat (length (a ++ [0])) = Z.of_nat (length a) + 1) as Hlen by (rewrite length_app; cbn; lia).
  destruct (copyout_total kend cur pgdir (sp - room a) (a ++ [0]) s l sz Him Hg2) as (r & s1 & E & Hev & Him1 & Hpte & Hcase); [lia|lia|].
  rewrite (bind_ok _ _ _ _ _ E). destruct Hcase as [->|[-> Hu]]; cbn [Z.ltb Z.compare]; [by exists None, s1|].
  assert (sz - PGSIZE <= sp - room a) as Hin.
  { destruct (decide (sz - PGSIZE <= sp - room a)); [done|]. pose proof (Hu (sp - room a) ltac:(lia)) as Hx.
    rewrite Hg3 in Hx by lia. done. }
  destruct (IH (argc + 1) (sp - room a) (us ++ [sp - room a]) s1 Him1) as (r & s' & E' & Hev' & Him' & Hr).
  - split; [done|]. split; [done|]. intros v Hv. rewrite Hpte. by apply Hg3.
  - lia.
  - rewrite Zminus_mod, Hal, Hm. done.
  - lia.
  - exists r, s'. split; [done|]. split; [by eapply evolves_trans|]. split; [done|].
    destruct r as [[sp' us']|]; [|done]. rewrite length_app in Hr. cbn [length] in *. lia.
Qed.

Lemma push_args_total cur pgdir l sz argv s : Forall (fun a => room a <= PGSIZE) argv ->
  image_ok kend s pgdir l sz -> guarded s pgdir sz ->
  exists r s', push_args cur pgdir argv sz s = Ok r s' /\ evolves kend s s' pgdir l l /\ image_ok kend s' pgdir l sz.
Proof.
  intros Ha Him Hg. pose proof (im_sz _ _ _ _ _ Him). pose proof Hg as (Hg1 & Hg2 & _).
  assert (Hal4 : sz mod 4 = 0).
  { apply Z.mod_divide in Hg2 as [k ->]; [|done]. change PGSIZE with (1024 * 4). rewrite Z.mul_assoc. by apply Z.mod_mul. }
  destruct (push_strings_total cur pgdir l sz argv Ha 0 sz [] s Him Hg) as (r & s1 & E & Hev & Him1 & Hr);
    [unfold PGSIZE; lia|done|unfold MAXARG; lia|].
  unfold push_args. rewrite (bind_ok _ _ _ _ _ E). destruct r as [[sp us]|]; [|by exists None, s1].
  destruct Hr as (Hsp & Hc & Hus). cbn [length] in Hus. unfold MAXARG, PGSIZE in *.
  rewrite (u32_id (sp - (3 + Z.of_nat (length argv) + 1) * 4)) by (unfold KERNBASE in *; lia).
  destruct (copyout_total kend cur pgdir (sp - (3 + Z.of_nat (length argv) + 1) * 4)
    (words ([2 ^ 32 - 1; Z.of_nat (length argv); sp - (Z.of_nat (length argv) + 1) * 4] ++ us ++ [0])) s1 l sz Him1 Hg2)
    as (r & s2 & E2 & Hev2 & Him2 & _); [lia| |].
  { rewrite length_words, !length_app. cbn [length]. lia. }
  rewrite (bind_ok _ _ _ _ _ E2). eexists _, s2. split; [done|]. split; [by eapply evolves_trans|done].
Qed.

(** The label [bad] gives the new pages back. *)
Lemma bad_ok pgdir ip s l : as_ok kend (xkm s) pgdir l ->
  exists k l', bad kend pgdir ip s =
      Ok (-1) (mkxst k (ximg s) (calls s ++ match ip with Some i => [Iunlockput i; EndOp] | None => [] end)) /\
    free_list kend k l' /\ (forall q, q ∈ l' <-> q ∈ l \/ held (xkm s) pgdir q) /\ spares kend (xkm s) k pgdir l.
Proof using Hkend.
  intros Has. destruct (pt_dir _ _ _ _ (as_pt _ _ _ _ Has)) as [Hd _]. pose proof (valid_page_pos kend pgdir Hd).
  destruct (freevm_spec kend Hkend pgdir (xkm s) l Has) as (k & l' & E & Hfl & Hl & Hsp).
  exists k, l'. split; [|done]. unfold bad. destruct (Z.eqb_spec pgdir 0); [lia|]. cbn [negb].
  rewrite (bind_ok _ _ _ _ _ (on_vm_ok _ _ _ _ E)). destruct ip as [i|]; msimpl; [by rewrite <- app_assoc|by rewrite app_nil_r].
Qed.

Section Whole.
Context (s : xst) (l : list Z).
Local Notation old := (ipgdir (ximg s)).
Context (Hold : as_ok kend (xkm s) old l).

(** While the new address space [d] is being built out of the free pages. *)
Record building (k : kmem) (d : Z) (l1 : list Z) : Prop := {
  bd_pages : forall q, q ∈ l1 \/ held k d q <-> q ∈ l;
  bd_spares : forall q, valid_page kend q -> q ∉ l -> page_at q k = page_at q (xkm s)
}.

Lemma building_evolves k k' d l1 l2 : building k d l1 -> evolves kend k k' d l1 l2 -> building k' d l2.
Proof.
  intros [H1 H2] [_ Ha Hs]. split; [intros q; by rewrite (Ha q)|].
  intros q Hv Hl. assert (~ (q ∈ l1 \/ held k d q)) by (by rewrite H1). rewrite Hs by tauto. by apply H2.
Qed.

Lemma same_elements k l' : free_list kend k l' -> (forall q, q ∈ l' <-> q ∈ l) -> l' ≡ₚ l.
Proof using Hold.
  intros (_ & Hnd & _) Hl. pose proof (pt_free _ _ _ _ (as_pt _ _ _ _ Hold)) as (_ & Hnd' & _).
  by apply NoDup_Permutation.
Qed.

Lemma untouched_ok k l' : free_list kend k l' -> (forall q, q ∈ l' <-> q ∈ l) ->
  (forall q, valid_page kend q -> q ∉ l -> page_at q k = page_at q (xkm s)) -> untouched kend (xkm s) k old l l'.
Proof using Hold.
  intros Hfl Hl Hs.
  destruct (other_ok kend (xkm s) k old l l' Hold Hfl) as (Has & _ & Hpte).
  { intros q Hq. destruct (held_valid kend _ _ _ _ Hold Hq) as [Hv Hn]. rewrite Hl. auto. }
  split; [done|]. split; [by apply (same_elements k)|]. split; [done|].
  intros va Hva Hp. destruct (user_outside kend _ _ _ va Hold Hva Hp) as [Hv [Hn _]]. by apply Hs.
Qed.

(** A failure: the new address space is freed. *)
Lemma building_bad k d l1 ip cs : building k d l1 -> as_ok kend k d l1 ->
  exists s' l', bad kend d ip (mkxst k (ximg s) cs) = Ok (-1) s' /\ ximg s' = ximg s /\
    untouched kend (xkm s) (xkm s') old l l'.
Proof using Hkend Hold.
  intros [H1 H2] Has. destruct (bad_ok d ip (mkxst k (ximg s) cs) l1 Has) as (k' & l' & E & Hfl & Hl & Hsp). cbn [xkm] in *.
  eexists _, l'. split; [exact E|]. split; [done|]. apply untouched_ok; [done|intros q; by rewrite Hl|].
  intros q Hv Hn. cbn [xkm]. assert (~ (q ∈ l1 \/ held k d q)) by (by rewrite H1). rewrite Hsp by tauto. by apply H2.
Qed.

(** A success: the old one is. *)
Lemma building_commit k d l1 sz : building k d l1 -> image_ok kend k d l1 sz ->
  exists k' l', freevm kend old k = Ok tt k' /\ image_ok kend k' d l' sz /\
    (forall q, q ∈ l' \/ held k' d q <-> q ∈ l \/ held (xkm s) old q).
Proof using Hkend Hold.
  intros [H1 H2] Him.
  assert (forall q, held (xkm s) old q -> valid_page kend q /\ q ∉ l /\ q ∉ l1) as Hho.
  { intros q Hq. destruct (held_valid kend _ _ _ _ Hold Hq) as [Hv Hn]. split_and!; [done|done|].
    intros Hx. apply Hn, H1. by left. }
  destruct (other_ok kend (xkm s) k old l l1 Hold (pt_free _ _ _ _ (as_pt _ _ _ _ (im_ok _ _ _ _ _ Him)))) as (Haso & Hpde & Hpte).
  { intros q Hq. destruct (Hho q Hq) as (? & ? & ?). auto. }
  assert (forall q, held k old q <-> held (xkm s) old q) as Hhe by (intros q; apply held_ext; auto).
  destruct (freevm_spec kend Hkend old k l1 Haso) as (k' & l' & E & Hfl & Hl & Hsp).
  exists k', l'. split; [done|].
  destruct (other_ok kend k k' d l1 l' (im_ok _ _ _ _ _ Him) Hfl) as (Has' & Hpde' & Hpte').
  { intros q Hq. destruct (held_valid kend _ _ _ _ (im_ok _ _ _ _ _ Him) Hq) as [Hv Hn].
    assert (~ held k old q) as Hno.
    { rewrite Hhe. intros Hx. destruct (Hho q Hx) as (_ & Hnl & _). apply Hnl, H1. by right. }
    split; [rewrite Hl; tauto|by apply Hsp]. }
  split.
  - split; [done|apply Him|]. intros va Hva. rewrite Hpte'. by apply Him.
  - intros q. rewrite (held_ext k k') by auto. rewrite Hl, Hhe. pose proof (H1 q). tauto.
Qed.

(** The end of [exec], from the end of the program headers on. *)
Lemma exec_stack_run path argv ip elf d k l1 sz cs :
  Forall (fun a => room a <= PGSIZE) argv -> d <> 0 -> building k d l1 -> image_ok kend k d l1 sz ->
  exists r s' l',
    (call (Iunlockput ip) ;;
     call EndOp ;;
     let sz := PGROUNDUP sz in
     sz ← on_vm (allocuvm kend d sz (u32 (sz + 2 * PGSIZE)));
     if sz =? 0 then bad kend d None else
     on_vm (clearpteu d (u32 (sz - 2 * PGSIZE))) ;;
     old ← gets (fun s => ipgdir (ximg s));
     sp ← on_vm (push_args old d argv sz);
     match sp with
     | None => bad kend d None
     | Some sp =>
         modify (fun s => mkxst (xkm s) (mkimage d sz (entry elf) sp (proc_name (last_part path path))) (calls s)) ;;
         on_vm (freevm kend old) ;;
         mret 0
     end) (mkxst k (ximg s) cs) = Ok r s' /\
    (r = -1 /\ ximg s' = ximg s /\ untouched kend (xkm s) (xkm s') old l l' \/
     r = 0 /\ image_ok kend (xkm s') (ipgdir (ximg s')) l' (isz (ximg s')) /\
       forall q, q ∈ l' \/ held (xkm s') (ipgdir (ximg s')) q <-> q ∈ l \/ held (xkm s) old q).
Proof using Hkend Hold.
  intros Hargs Hd Hb Him. set (cs' := (cs ++ [Iunlockput ip]) ++ [EndOp]).
  assert (forall k' l2, building k' d l2 -> as_ok kend k' d l2 -> exists r s' l',
    bad kend d None (mkxst k' (ximg s) cs') = Ok r s' /\
    (r = -1 /\ ximg s' = ximg s /\ untouched kend (xkm s) (xkm s') old l l' \/
     r = 0 /\ image_ok kend (xkm s') (ipgdir (ximg s')) l' (isz (ximg s')) /\
       forall q, q ∈ l' \/ held (xkm s') (ipgdir (ximg s')) q <-> q ∈ l \/ held (xkm s) old q)) as Hbad.
  { intros k' l2 Hb2 Has2. destruct (building_bad k' d l2 None cs' Hb2 Has2) as (s' & l' & E & E1 & Hu). exists (-1), s', l'. auto. }
  rewrite (bind_ok _ _ _ tt (mkxst k (ximg s) (cs ++ [Iunlockput ip]))) by done.
  rewrite (bind_ok _ _ _ tt (mkxst k (ximg s) cs')) by done. cbv zeta.
  pose proof (im_sz _ _ _ _ _ Him) as Hsz. destruct (pground_up sz) as (_ & Hr & Hm); [lia|unfold PGSIZE, KERNBASE in *; lia|].
  rewrite (u32_id (PGROUNDUP sz + 2 * PGSIZE)) by (unfold PGSIZE, KERNBASE in *; lia).
  set (top := PGROUNDUP sz + 2 * PGSIZE).
  destruct (decide (KERNBASE <= top)) as [Hk|Hk].
  { assert (allocuvm kend d (PGROUNDUP sz) top k = Ok 0 k) as E
      by (unfold allocuvm; by rewrite Z.geb_leb, (proj2 (Z.leb_le _ _)) by done).
    rewrite (bind_ok _ _ _ _ _ (on_vm_ok _ (mkxst k (ximg s) cs') _ _ E)). cbn [Z.eqb ximg calls].
    apply (Hbad k l1); [done|apply Him]. }
  assert (image_ok kend k d l1 (PGROUNDUP sz)) as Him' by (apply image_roundup; [done|unfold top, PGSIZE in *; lia]).
  destruct (image_grow kend Hkend k d l1 (PGROUNDUP sz) top Him') as (r1 & k1 & l2 & E1 & Hev1 & Hc1); [unfold top, PGSIZE in *; lia|].
  rewrite (bind_ok _ _ _ _ _ (on_vm_ok _ (mkxst k (ximg s) cs') _ _ E1)). cbn [ximg calls].
  pose proof (building_evolves _ _ _ _ _ Hb Hev1) as Hb1.
  destruct Hc1 as [->|(-> & Him1 & _)]; [cbn [Z.eqb]; apply (Hbad k1 l2); [done|apply Hev1]|].
  destruct (Z.eqb_spec top 0); [unfold top, PGSIZE in *; lia|].
  assert (top mod PGSIZE = 0) as Htm by (unfold top; rewrite Z.mod_add; done).
  assert (u32 (top - 2 * PGSIZE) = PGROUNDUP sz) as -> by (unfold top; rewrite u32_id; unfold PGSIZE, KERNBASE in *; lia).
  destruct (clearpteu_spec kend d (PGROUNDUP sz) k1 l2 top Him1) as (k2 & E2 & Hev2 & Him2 & Hguard & _).
  { unfold top, PGSIZE in *. lia. }
  { rewrite (im_pages _ _ _ _ _ Him1) by (unfold top, PGSIZE in *; lia). rewrite (mod_page _ Hm). apply Z.ltb_lt. unfold top, PGSIZE. lia. }
  rewrite (bind_ok _ _ _ _ _ (on_vm_ok _ (mkxst k1 (ximg s) cs') _ _ E2)). cbn [ximg calls].
  pose proof (building_evolves _ _ _ _ _ Hb1 Hev2) as Hb2.
  rewrite (bind_ok _ _ _ old (mkxst k2 (ximg s) cs')) by done.
  assert (guarded k2 d top) as Hg.
  { split; [unfold top; lia|]. split; [done|]. intros v Hv. apply Hguard; [unfold top, PGSIZE, KERNBASE in *; lia|].
    pose proof (mod_page _ Hm). symmetry. apply (Z.div_unique _ _ _ (v - PGROUNDUP sz)); [left|]; unfold top, PGSIZE in *; lia. }
  destruct (push_args_total old d l2 top argv k2 Hargs Him2 Hg) as (r3 & k3 & E3 & Hev3 & Him3).
  rewrite (bind_ok _ _ _ _ _ (on_vm_ok _ (mkxst k2 (ximg s) cs') _ _ E3)). cbn [ximg calls].
  pose proof (building_evolves _ _ _ _ _ Hb2 Hev3) as Hb3.
  destruct r3 as [sp|]; [|apply (Hbad k3 l2); [done|apply Hev3]].
  destruct (building_commit k3 d l2 top Hb3 Him3) as (k4 & l4 & E4 & Him4 & Hacc).
  set (img := mkimage d top (entry elf) sp (proc_name (last_part path path))).
  rewrite (bind_ok _ _ _ tt (mkxst k3 img cs')) by done.
  rewrite (bind_ok _ _ _ _ _ (on_vm_ok _ (mkxst k3 img cs') _ _ E4)).
  exists 0, (mkxst k4 img cs'), l4. split; [done|]. by right.
Qed.

(** The linker puts [data] on a page after the kernel's text, below PHYSTOP. *)
Context (kdata : Z) (Hdata : kdata mod PGSIZE = 0 /\ KERNLINK < kdata < KERNBASE + PHYSTOP).
Context (namei : list Z -> option nat).

Lemma exec_run path argv : Forall (fun a => room a <= PGSIZE) argv ->
  exists r s' l', exec kend kdata namei readi path argv s = Ok r s' /\
    (r = -1 /\ ximg s' = ximg s /\ untouched kend (xkm s) (xkm s') old l l' \/
     r = 0 /\ image_ok kend (xkm s') (ipgdir (ximg s')) l' (isz (ximg s')) /\
       forall q, q ∈ l' \/ held (xkm s') (ipgdir (ximg s')) q <-> q ∈ l \/ held (xkm s) old q).
Proof using Hkend Hold Hread Hdata.
  intros Hargs. unfold exec. pose proof (pt_free _ _ _ _ (as_pt _ _ _ _ Hold)) as Hfl.
  assert (untouched kend (xkm s) (xkm s) old l l) as Hsame by (by split_and!).
  rewrite (bind_ok _ _ _ tt (mkxst (xkm s) (ximg s) (calls s ++ [BeginOp]))) by done.
  destruct (namei path) as [ip|]; [|eexists _, _, l; split; [reflexivity|by left]].
  set (cs := (calls s ++ [BeginOp]) ++ [Ilock ip]).
  rewrite (bind_ok _ _ _ tt (mkxst (xkm s) (ximg s) cs)) by done. cbv zeta.
  destruct (negb _); [eexists _, _, l; split; [reflexivity|by left]|].
  destruct (negb _); [eexists _, _, l; split; [reflexivity|by left]|].
  set (elf := elfhdr_of (readi ip 0 elfhdr_size)).
  destruct (setupkvm_spec kend Hkend kdata Hdata (xkm s) l Hfl) as (d & k1 & l1 & E1 & Hsp1 & Hc1).
  rewrite (bind_ok _ _ _ _ _ (on_vm_ok _ (mkxst (xkm s) (ximg s) cs) _ _ E1)). cbn [ximg calls].
  destruct Hc1 as [(-> & Hfl1 & Hl1)|(Hd & Him1 & Hh1)].
  { cbn [Z.eqb]. eexists _, _, l1. split; [reflexivity|left]. split; [done|]. split; [done|]. by apply untouched_ok. }
  rewrite (proj2 (Z.eqb_neq _ _)) by done.
  assert (building k1 d l1) as Hb1 by (by split).
  destruct (load_segments_run (Z.to_nat (phnum elf)) ip d (phoff elf) 0 (mkxst k1 (ximg s) cs) l1 Him1) as (r2 & k2 & l2 & E2 & Hev2 & Hc2).
  rewrite (bind_ok _ _ _ _ _ E2). cbn [ximg calls xkm] in *.
  pose proof (building_evolves _ _ _ _ _ Hb1 Hev2) as Hb2.
  destruct r2 as [sz|]; [by apply (exec_stack_run path argv ip elf d k2 l2 sz cs)|].
  destruct (building_bad k2 d l2 (Some ip) cs Hb2 (ev_ok _ _ _ _ _ _ Hev2)) as (s' & l' & E & E' & Hu).
  exists (-1), s', l'. split; [exact E|]. by left.
Qed.

End Whole.

End Run.

(** A path that names nothing, and a file that is no executable, are refused without
    touching memory. *)
Lemma exec_refuses kend kdata namei readi path argv s :
  (namei path = None -> exec kend kdata namei readi path argv s = Ok (-1) (mkxst (xkm s) (ximg s) (calls s ++ [BeginOp; EndOp]))) /\
  (forall ip, namei path = Some ip ->
     length (readi ip 0 elfhdr_size) <> Z.to_nat elfhdr_size \/ magic (elfhdr_of (readi ip 0 elfhdr_size)) <> ELF_MAGIC ->
     exec kend kdata namei readi path argv s = Ok (-1) (mkxst (xkm s) (ximg s) (calls s ++ [BeginOp; Ilock ip; Iunlockput ip; EndOp]))).
Proof.
  split.
  - intros Hn. unfold exec. rewrite Hn. msimpl. by rewrite <- app_assoc.
  - intros ip Hn Hbad. unfold exec. rewrite Hn. msimpl. unfold bad. msimpl.
    destruct (Z.eqb_spec (Z.of_nat (length (readi ip 0 elfhdr_size))) elfhdr_size) as [E|E]; simpl; [|by rewrite <- !app_assoc].
    destruct (Z.eqb_spec (get32 0 (readi ip 0 elfhdr_size)) ELF_MAGIC) as [E'|E']; simpl; [|by rewrite <- !app_assoc].
    destruct Hbad as [H|H]; [unfold elfhdr_size in *; lia|done].
Qed.

(** C31. [exec] takes and gives back in pairs, whatever the file, the memory and the arguments.  A path
    that names nothing and a file that is no executable are refused with -1, memory and
    process untouched.  On every path to a return it ends the transaction it began, and
    unlocks and releases the inode it locked, once each and in this order; a success gives
    the process a page table, the entry point of the file and the last part of the path as
    its name.  And when no argument is longer than a page, [readi] delivers at most the
    bytes asked for, and the running program has an address space of its own, [exec]
    always returns.  A failure then leaves the process its fields and its address space,
    every mapping and the contents of every page, and the allocator its free pages, so that
    nothing taken is lost.  A success gives the process an image with exactly the pages below its
    size, and the pages of the old one are free or in use by the new. *)
Theorem exec_protocol kend kdata namei readi path argv s :
  (namei path = None -> exec kend kdata namei readi path argv s = Ok (-1) (mkxst (xkm s) (ximg s) (calls s ++ [BeginOp; EndOp]))) /\
  (forall ip, namei path = Some ip ->
     length (readi ip 0 elfhdr_size) <> Z.to_nat elfhdr_size \/ magic (elfhdr_of (readi ip 0 elfhdr_size)) <> ELF_MAGIC ->
     exec kend kdata namei readi path argv s = Ok (-1) (mkxst (xkm s) (ximg s) (calls s ++ [BeginOp; Ilock ip; Iunlockput ip; EndOp]))) /\
  (forall r s', exec kend kdata namei readi path argv s = Ok r s' -> forall ip, namei path = Some ip ->
     calls s' = calls s ++ [BeginOp; Ilock ip; Iunlockput ip; EndOp] /\
     (r = -1 /\ ximg s' = ximg s \/
      r = 0 /\ ieip (ximg s') = entry (elfhdr_of (readi ip 0 elfhdr_size)) /\ iname (ximg s') = proc_name (last_part path path) /\
        ipgdir (ximg s') <> 0)) /\
  (forall l, KERNBASE < kend -> kdata mod PGSIZE = 0 /\ KERNLINK < kdata < KERNBASE + PHYSTOP -> reads_ok readi ->
     as_ok kend (xkm s) (ipgdir (ximg s)) l -> Forall (fun a => room a <= PGSIZE) argv ->
     exists r s' l', exec kend kdata namei readi path argv s = Ok r s' /\
       (r = -1 /\ ximg s' = ximg s /\ untouched kend (xkm s) (xkm s') (ipgdir (ximg s)) l l' \/
        r = 0 /\ image_ok kend (xkm s') (ipgdir (ximg s')) l' (isz (ximg s')) /\
          forall q, q ∈ l' \/ held (xkm s') (ipgdir (ximg s')) q <-> q ∈ l \/ held (xkm s) (ipgdir (ximg s)) q)).
Proof.
  destruct (exec_refuses kend kdata namei readi path argv s) as [H1 H2]. split_and!; [done|done| |].
  - intros r s' H ip Hn. apply exec_shape in H. by rewrite Hn in H.
  - intros l Hk Hd Hr Has Ha. by apply exec_run.
Qed.

(** An argument longer than the image wraps the stack pointer around; where the new page
    directory has no table for the address, [copyout] takes the word at address 0 of the
    running program for the page table entry, and panics if there is no page there. *)
Lemma exec_long_argument cur pgdir a argv us s sp :
  let sp' := Z.land (u32 (sp - (Z.of_nat (length a) + 1))) (u32 (Z.lnot 3)) in
  has PTE_P (pde_at s pgdir (PDX (PGROUNDDOWN sp'))) = false -> has PTE_P (pte_at s cur 0) = false ->
  push_strings cur pgdir (a :: argv) 0 sp us s = Panic "trap".
Proof.
  intros sp' Hp Hc. cbn [push_strings]. change (0 >=? MAXARG) with false. cbv iota. fold sp'.
  assert (E : copyout cur pgdir sp' (a ++ [0]) s = Panic "trap"); [|by rewrite bind_unfold, E].
  unfold copyout. destruct (a ++ [0]) as [|x buf] eqn:Ea; [by destruct a|]. cbn [copyout_loop length].
  rewrite bind_unfold. unfold uva2ka. rewrite (bind_ok _ _ _ 0 s) by (by apply walk_absent).
  rewrite bind_unfold. unfold kload. cbn [Z.eqb]. msimpl. by rewrite Hc.
Qed.

Import VmExample.

(** Three arguments on a one-page stack. *)
Lemma exec_stack_witness : exists s l sp ps s', allocuvm kend3 dir 0 PGSIZE vm0 = Ok PGSIZE s /\
  push_args dir dir [cs "ls"; cs "-l"; cs "/bin"] PGSIZE s = Ok (Some sp) s' /\ as_ok kend3 s' dir l /\
  ubytes s' dir sp (words ([2 ^ 32 - 1; 3; sp + 12] ++ ps ++ [0])).
Proof.
  destruct one_page as (s & l & E & Has & Hu).
  destruct (exec_stack kend3 dir dir [cs "ls"; cs "-l"; cs "/bin"] PGSIZE s l kend3_high Has) as (sp & ps & s' & H1 & H2 & _ & _ & H3 & _).
  - vm_compute. split; congruence.
  - reflexivity.
  - intros v Hv. apply Hu. lia.
  - vm_compute. congruence.
  - vm_compute. congruence.
  - exists s, l, sp, ps, s'. exact (conj E (conj H1 (conj H2 H3))).
Defined.

(** A file with the magic number and no program headers. *)
Definition elf_file : list Z := [127; chr "E"; chr "L"; chr "F"] ++ replicate 48 0.

(** A path that names nothing, a file of zeros, and an executable file. *)
Lemma exec_protocol_witness :
  let s := mkxst vm0 (mkimage dir PGSIZE 0 0 []) [] in
  exec kend3 kend3 (fun _ => None) (fun _ _ _ => []) (cs "/x") [] s = Ok (-1) (mkxst vm0 (mkimage dir PGSIZE 0 0 []) [BeginOp; EndOp]) /\
  exec kend3 kend3 (fun _ => Some 7%nat) (fun _ _ n => replicate (Z.to_nat n) 0) (cs "/x") [] s =
    Ok (-1) (mkxst vm0 (mkimage dir PGSIZE 0 0 []) [BeginOp; Ilock 7; Iunlockput 7; EndOp]) /\
  exists r s' l', exec kend3 (KERNLINK + PGSIZE) (fun _ => Some 7%nat) (fun _ _ n => take (Z.to_nat n) elf_file) (cs "/x") [cs "x"; cs "-l"] s = Ok r s' /\
    (r = -1 /\ ximg s' = ximg s /\ untouched kend3 vm0 (xkm s') dir [page1; page2] l' \/
     r = 0 /\ image_ok kend3 (xkm s') (ipgdir (ximg s')) l' (isz (ximg s')) /\
       forall q, q ∈ l' \/ held (xkm s') (ipgdir (ximg s')) q <-> q ∈ [page1; page2] \/ held vm0 dir q).
Proof.
  intros s. split; [|split].
  - apply (exec_protocol kend3 kend3 (fun _ => None) (fun _ _ _ => []) (cs "/x") [] s). reflexivity.
  - apply (exec_protocol kend3 kend3 (fun _ => Some 7%nat) (fun _ _ n => replicate (Z.to_nat n) 0) (cs "/x") [] s); [reflexivity|].
    right. vm_compute. congruence.
  - apply (exec_protocol kend3 (KERNLINK + PGSIZE) (fun _ => Some 7%nat) (fun _ _ n => take (Z.to_nat n) elf_file) (cs "/x") [cs "x"; cs "-l"] s).
    + apply kend3_high.
    + split; [reflexivity|]. vm_compute. split; reflexivity.
    + intros ip off n. split; [rewrite length_take; lia|]. apply Forall_take. by repeat constructor.
    + apply vm0_as.
    + by repeat constructor.
Defined.
