(* ===== verification/Mp.v ===== *)
(** * Finding the processors (system/platform/x86/mp.c, include/mp.h)

    The firmware leaves a table that lists the processors and the I/O interrupt
    controller.  [mem a] is the byte at the kernel address [a], between 0 and 2^32, and
    pointers wrap around there; [inb23] is what the port 0x23 reads.  The table's entries are read in a loop that leaves at the end of the
    table, and that an entry of an unknown type stops from advancing. *)

From S2P Require Import Prelude Kalloc.

Module Mp.

Definition NCPU : nat := 8.
Definition MPPROC : Z := 0.
Definition MPBUS : Z := 1.
Definition MPIOAPIC : Z := 2.
Definition MPIOINTR : Z := 3.
Definition MPLINTR : Z := 4.

Definition mp_size : Z := 16.
Definition mpconf_size : Z := 44.
Definition mpproc_size : Z := 20.
Definition mpioapic_size : Z := 8.

(** What [mpinit] records: the [apicid] of [cpus[0..ncpu)], the I/O controller, the
    address of the local one, and what is written to the port 0x23. *)
Record mps := mkmps { apicids : list Z; ioapicid : Z; lapic : Z; imcr : option Z }.

Section Mp.
Context (mem : Z -> Z) (inb23 : Z).

Definition at_ (a : Z) : Z := mem (u32 a).
Definition bytes (a : Z) (n : nat) : list Z := map (fun i => at_ (a + Z.of_nat i)) (seq 0 n).
Definition word (a : Z) : Z := le_value (bytes a 4).
Definition half (a : Z) : Z := le_value (bytes a 2).

(** [sum] adds in an [int] and returns a [uchar]. *)
Fixpoint sum_loop (addr : Z) (len : nat) (sum : Z) : Z :=
  match len with
  | O => u8 sum
  | S n => sum_loop (addr + 1) n (sum + at_ addr)
  end.

Definition sum (addr len : Z) : Z := sum_loop addr (Z.to_nat len) 0.

(** [memcmp(p, s, 4) == 0]. *)
Definition signed (a : Z) (s : list Z) : bool := bool_decide (bytes a 4 = s).

Fixpoint mpsearch1_loop (fuel : nat) (p e : Z) : option Z :=
  match fuel with
  | O => None
  | S f =>
      if p <? e then
        if signed p (cs "_MP_") && (sum p mp_size =? 0) then Some p else mpsearch1_loop f (u32 (p + mp_size)) e
      else None
  end.

Definition mpsearch1 (a len : Z) : option Z :=
  let addr := P2V a in
  mpsearch1_loop (Z.to_nat (len / mp_size + 1)) addr (u32 (addr + len)).

Definition mpsearch : option Z :=
  let bda := P2V 1024 in
  let p := Z.shiftl (Z.lor (Z.shiftl (at_ (bda + 15)) 8) (at_ (bda + 14))) 4 in
  match (if negb (p =? 0) then mpsearch1 p 1024
         else mpsearch1 (u32 (Z.lor (Z.shiftl (at_ (bda + 20)) 8) (at_ (bda + 19)) * 1024 - 1024)) 1024) with
  | Some mp => Some mp
  | None => mpsearch1 983040 65536
  end.

(** The pointer structure and the table that it points to. *)
Definition mpconfig : option (Z * Z) :=
  match mpsearch with
  | None => None
  | Some mp =>
      if word (mp + 4) =? 0 then None else
      let conf := P2V (word (mp + 4)) in
      if negb (signed conf (cs "PCMP")) then None else
      if negb (at_ (conf + 6) =? 1) && negb (at_ (conf + 6) =? 4) then None else
      if negb (sum conf (half (conf + 4)) =? 0) then None else
      Some (mp, conf)
  end.

(** The loop over the table: [ismp] is cleared by an entry of an unknown type, at which
    [p] stays. *)
Fixpoint mpinit_loop (fuel : nat) (p e : Z) (ismp : bool) : M mps bool :=
  match fuel with
  | O => nofuel
  | S f =>
      if p <? e then
        if at_ p =? MPPROC then
          modify (fun s => if (length (apicids s) <? NCPU)%nat
                           then mkmps (apicids s ++ [at_ (p + 1)]) (ioapicid s) (lapic s) (imcr s) else s) ;;
          mpinit_loop f (u32 (p + mpproc_size)) e ismp
        else if at_ p =? MPIOAPIC then
          modify (fun s => mkmps (apicids s) (at_ (p + 1)) (lapic s) (imcr s)) ;;
          mpinit_loop f (u32 (p + mpioapic_size)) e ismp
        else if (at_ p =? MPBUS) || (at_ p =? MPIOINTR) || (at_ p =? MPLINTR) then mpinit_loop f (u32 (p + 8)) e ismp
        else mpinit_loop f p e false
      else mret ismp
  end.

(** Every entry takes at least 8 bytes of the table, which ends below the end of the
    address space. *)
Definition table_fuel (len : Z) : nat := Z.to_nat (len / 8 + 2).

Definition mpinit_with (fuel : Z -> nat) : M mps unit :=
  match mpconfig with
  | None => panic "Expect to run on an SMP"
  | Some (mp, conf) =>
      modify (fun s => mkmps (apicids s) (ioapicid s) (word (conf + 36)) (imcr s)) ;;
      let len := half (conf + 4) in
      ismp ← mpinit_loop (fuel len) (u32 (conf + mpconf_size)) (u32 (conf + len)) true;
      if negb ismp then panic "Didn't find a suitable machine" else
      when (negb (at_ (mp + 12) =? 0)) (modify (fun s => mkmps (apicids s) (ioapicid s) (lapic s) (Some (Z.lor inb23 1))))
  end.

Definition mpinit : M mps unit := mpinit_with table_fuel.
End Mp.

(** ** The table *)

Inductive entry := EProc (apicid : Z) | EIoapic (apicno : Z) | EOther.

(** The bytes from [p] to [e] are the entries [es]. *)
Inductive layout (mem : Z -> Z) (e : Z) : Z -> list entry -> Prop :=
  | lay_end p : e <= p -> layout mem e p []
  | lay_proc p es : p < e -> at_ mem p = MPPROC -> layout mem e (u32 (p + 20)) es -> layout mem e p (EProc (at_ mem (p + 1)) :: es)
  | lay_ioapic p es : p < e -> at_ mem p = MPIOAPIC -> layout mem e (u32 (p + 8)) es -> layout mem e p (EIoapic (at_ mem (p + 1)) :: es)
  | lay_other p es : p < e -> at_ mem p = MPBUS \/ at_ mem p = MPIOINTR \/ at_ mem p = MPLINTR -> layout mem e (u32 (p + 8)) es -> layout mem e p (EOther :: es).

Definition procs (es : list entry) : list Z := omap (fun x => match x with EProc a => Some a | _ => None end) es.
Definition ioapics (es : list entry) : list Z := omap (fun x => match x with EIoapic a => Some a | _ => None end) es.
Definition recorded (es : list entry) (s : mps) : mps :=
  mkmps (take NCPU (apicids s ++ procs es)) (List.last (ioapics es) (ioapicid s)) (lapic s) (imcr s).

(** The loop on a table of known entries. *)
Lemma mpinit_loop_known mem e p es : layout mem e p es -> forall fuel ismp s,
  (length es < fuel)%nat -> (length (apicids s) <= NCPU)%nat ->
  mpinit_loop mem fuel p e ismp s = Ok ismp (recorded es s).
Proof.
  induction 1 as [p Hp|p es Hp Hm _ IH|p es Hp Hm _ IH|p es Hp Hm _ IH]; intros fuel ismp s Hf Hs; destruct fuel as [|f]; simpl in Hf; try lia; simpl.
  - rewrite (proj2 (Z.ltb_ge _ _)) by lia. unfold recorded. simpl. rewrite app_nil_r, take_ge by done. by destruct s.
  - rewrite (proj2 (Z.ltb_lt _ _)), Hm by lia. simpl. msimpl.
    destruct (Nat.ltb_spec (length (apicids s)) NCPU) as [Hl|Hl]; rewrite IH by (simpl; rewrite ?length_app; simpl; lia); unfold recorded; simpl.
    + by rewrite <- app_assoc.
    + assert (E : length (apicids s) = NCPU) by lia. by rewrite <- E, !take_app_length.
  - rewrite (proj2 (Z.ltb_lt _ _)), Hm by lia. simpl. msimpl. rewrite IH by (simpl; lia). unfold recorded. simpl.
    do 2 f_equal. symmetry. apply last_cons_default.
  - rewrite (proj2 (Z.ltb_lt _ _)) by lia. destruct Hm as [Hm|[Hm|Hm]]; rewrite Hm; simpl; rewrite IH by lia; done.
Qed.

(** An entry of an unknown type. *)
Definition unknown (t : Z) : Prop := t < 0 \/ 4 < t.

Lemma mpinit_loop_stuck mem p e : p < e -> unknown (at_ mem p) -> forall fuel ismp s, mpinit_loop mem fuel p e ismp s = NoFuel.
Proof.
  intros Hp Hu fuel. induction fuel as [|f IH]; intros ismp s; simpl; [done|].
  unfold unknown in Hu. rewrite (proj2 (Z.ltb_lt _ _)) by lia. unfold MPPROC, MPIOAPIC, MPBUS, MPIOINTR, MPLINTR.
  rewrite !(proj2 (Z.eqb_neq (at_ mem p) _)) by lia. simpl. apply IH.
Qed.

(** [q] is reached from [p] over known entries. *)
Inductive reaches (mem : Z -> Z) (e q : Z) : Z -> Prop :=
  | reach_here : reaches mem e q q
  | reach_proc p : p < e -> at_ mem p = MPPROC -> reaches mem e q (u32 (p + 20)) -> reaches mem e q p
  | reach_other p : p < e -> at_ mem p <> MPPROC -> 0 <= at_ mem p <= 4 -> reaches mem e q (u32 (p + 8)) -> reaches mem e q p.

Lemma mpinit_loop_reach mem e q p : reaches mem e q p -> q < e -> unknown (at_ mem q) ->
  forall fuel ismp s, mpinit_loop mem fuel p e ismp s = NoFuel.
Proof.
  intros Hr Hq Hu. induction Hr as [|p Hp Hm _ IH|p Hp Hm Hr _ IH]; [by apply mpinit_loop_stuck| |]; intros fuel ismp s; destruct fuel as [|f]; [done| |done|]; simpl.
  - rewrite (proj2 (Z.ltb_lt _ _)), Hm by lia. msimpl. apply IH.
  - unfold MPPROC, MPIOAPIC, MPBUS, MPIOINTR, MPLINTR in *. rewrite (proj2 (Z.ltb_lt _ _)), (proj2 (Z.eqb_neq (at_ mem p) 0)) by lia.
    destruct (Z.eqb_spec (at_ mem p) 2); [msimpl; apply IH|].
    assert (E : (at_ mem p =? 1) || (at_ mem p =? 3) || (at_ mem p =? 4) = true) by (destruct (Z.eqb_spec (at_ mem p) 1), (Z.eqb_spec (at_ mem p) 3), (Z.eqb_spec (at_ mem p) 4); try done; lia).
    rewrite E. apply IH.
Qed.

Lemma layout_length mem e p es : layout mem e p es -> 0 <= p -> e + 20 <= 2 ^ 32 ->
  8 * Z.of_nat (length es) <= Z.max 0 (e - p + 7).
Proof.
  intros Hl H0 He. induction Hl as [|p es Hp _ _ IH|p es Hp _ _ IH|p es Hp _ _ IH]; simpl; [lia|..];
    rewrite u32_id in IH by lia; specialize (IH ltac:(lia)); lia.
Qed.

Lemma mpconfig_range mem mp conf : mpconfig mem = Some (mp, conf) -> 0 <= conf < 2 ^ 32.
Proof.
  unfold mpconfig. intros H. repeat case_match; try done. injection H as _ <-. unfold P2V, u32. apply Z.mod_pos_bound. lia.
Qed.

(** ** The search *)
Definition is_mp (mem : Z -> Z) (p : Z) : bool := signed mem p (cs "_MP_") && (sum mem p mp_size =? 0).

Lemma mpsearch1_loop_spec mem e : forall fuel p, e - p <= 16 * Z.of_nat fuel -> 0 <= p -> e + 16 <= 2 ^ 32 ->
  match mpsearch1_loop mem fuel p e with
  | Some q => exists k, q = p + 16 * Z.of_nat k /\ q < e /\ is_mp mem q = true /\ forall j, (j < k)%nat -> is_mp mem (p + 16 * Z.of_nat j) = false
  | None => forall k, p + 16 * Z.of_nat k < e -> is_mp mem (p + 16 * Z.of_nat k) = false
  end.
Proof.
  induction fuel as [|f IH]; intros p Hf H0 He; simpl; [intros k Hk; lia|].
  destruct (Z.ltb_spec p e) as [Hp|Hp]; [|intros k Hk; lia].
  fold (is_mp mem p). destruct (is_mp mem p) eqn:Hm.
  { exists O. rewrite Z.add_0_r. split_and!; [done|done|done|lia]. }
  unfold mp_size in *. rewrite u32_id by lia. specialize (IH (p + 16) ltac:(lia) ltac:(lia) He).
  assert (Hstep : forall j, p + 16 + 16 * Z.of_nat j = p + 16 * Z.of_nat (S j)) by lia.
  destruct (mpsearch1_loop mem f (p + 16) e) as [q|].
  - destruct IH as (k & -> & Hq & Hmq & Hall). exists (S k). rewrite Hstep in *. split_and!; [done|done|done|].
    intros [|j] Hj; [by rewrite Z.add_0_r|]. rewrite <- Hstep. apply Hall. lia.
  - intros [|k] Hk; [by rewrite Z.add_0_r|]. rewrite <- Hstep in *. by apply IH.
Qed.

(** [mpsearch1] returns the first structure in its range: the lowest of the addresses in steps of
    16 bytes that has the signature and whose bytes sum to zero, and null exactly when
    there is none. *)
Theorem mpsearch1_correct mem a len : 0 <= len -> P2V a + len + 16 <= 2 ^ 32 ->
  match mpsearch1 mem a len with
  | Some q => exists k, q = P2V a + 16 * Z.of_nat k /\ q < P2V a + len /\ is_mp mem q = true /\
      forall j, (j < k)%nat -> is_mp mem (P2V a + 16 * Z.of_nat j) = false
  | None => forall k, P2V a + 16 * Z.of_nat k < P2V a + len -> is_mp mem (P2V a + 16 * Z.of_nat k) = false
  end.
Proof.
  intros Hl Hw. unfold mpsearch1. assert (0 <= P2V a) by (unfold P2V, u32; apply Z.mod_pos_bound; lia). rewrite (u32_id (P2V a + len)) by lia.
  apply mpsearch1_loop_spec; [|lia|lia]. unfold mp_size. assert (E := Z.div_mod len 16 ltac:(lia)).
  assert (B := Z.mod_pos_bound len 16 ltac:(lia)). rewrite Z2Nat.id; lia.
Qed.

(** C33. [mpinit] on a table of known entries ends, and records the local interrupt controllers of the
    first [NCPU] processors in the order of the table, the last I/O controller and the
    address of the local controller.  When an entry of an unknown type is reached, it
    never ends: its loop does not advance, and the panic that the code has for such a
    machine is not reached.  The bound of the model is enough for a table that ends 64
    bytes below the end of the address space; on any other, any bound above the number
    of entries is. *)
Theorem mpinit_correct mem inb23 mp conf s :
  mpconfig mem = Some (mp, conf) -> apicids s = [] ->
  let len := half mem (conf + 4) in let e := u32 (conf + len) in
  (forall es, layout mem e (u32 (conf + 44)) es ->
     let result := Ok tt (mkmps (take NCPU (procs es)) (List.last (ioapics es) (ioapicid s)) (word mem (conf + 36))
       (if at_ mem (mp + 12) =? 0 then imcr s else Some (Z.lor inb23 1))) in
     (0 <= len -> conf + len + 64 <= 2 ^ 32 -> mpinit mem inb23 s = result) /\
     (forall fuel, (length es < fuel len)%nat -> mpinit_with mem inb23 fuel s = result)) /\
  (forall q fuel, reaches mem e q (u32 (conf + 44)) -> q < e -> unknown (at_ mem q) -> mpinit_with mem inb23 fuel s = NoFuel).
Proof.
  intros Hc Hs len e. unfold mpinit. split.
  - intros es Hlay. match goal with |- (_ -> _ -> _ = ?r) /\ _ => set (result := r) end.
    assert (forall fuel, (length es < fuel len)%nat -> mpinit_with mem inb23 fuel s = result) as Hrun.
    { intros fuel Hf. unfold mpinit_with. rewrite Hc. unfold mpconf_size. msimpl. fold len. fold e.
      rewrite (mpinit_loop_known _ _ _ _ Hlay) by (simpl; rewrite ?Hs; simpl; done || lia).
      unfold recorded, result. simpl. rewrite Hs. simpl. by destruct (at_ mem (mp + 12) =? 0). }
    split; [|done]. intros Hl Hw. apply Hrun. pose proof (mpconfig_range _ _ _ Hc) as Hconf. unfold e in *.
    rewrite !u32_id in Hlay by lia. pose proof (layout_length _ _ _ _ Hlay ltac:(lia) ltac:(lia)) as B.
    assert (E := Z.div_mod len 8 ltac:(lia)). assert (Bm := Z.mod_pos_bound len 8 ltac:(lia)). unfold table_fuel. lia.
  - intros q fuel Hr Hq Hu. unfold mpinit_with. rewrite Hc. unfold mpconf_size. msimpl. fold len. fold e.
    by rewrite (mpinit_loop_reach _ _ _ _ Hr Hq Hu).
Qed.

(** A machine with the structures at the start of the BIOS ROM: one processor, one I/O
    controller and one bus. *)
Module Machine.
Definition rom : list Z :=
  [95; 77; 80; 95; 16; 0; 15; 0; 1; 4; 1; 0; 128; 0; 0; 0] ++
  [80; 67; 77; 80; 80; 0; 4; 104; 0; 0; 0; 0; 0; 0; 0; 0; 0; 0; 0; 0; 0; 0; 0; 0; 0; 0; 0; 0; 0; 0; 0; 0; 0; 0; 3; 0; 0; 0; 224; 254; 0; 0; 0; 0] ++
  [0; 3; 17; 1; 0; 0; 0; 0; 0; 0; 0; 0; 0; 0; 0; 0; 0; 0; 0; 0; 2; 9; 17; 1; 0; 0; 0; 0; 1; 0; 0; 0; 0; 0; 0; 0].
Definition mem (a : Z) : Z := aget 0 rom (a - P2V 983040).
End Machine.

Lemma mpsearch1_correct_witness :
  mpsearch1 Machine.mem 983040 65536 = Some (P2V 983040) /\ is_mp Machine.mem (P2V 983040) = true.
Proof.
  assert (E : mpsearch1 Machine.mem 983040 65536 = Some (P2V 983040)) by (vm_compute; reflexivity).
  assert (H := mpsearch1_correct Machine.mem 983040 65536 ltac:(lia) ltac:(vm_compute; discriminate)). rewrite E in H. destruct H as (k & _ & _ & H & _).
  split; [exact E|exact H].
Defined.

Lemma mpinit_correct_witness :
  mpinit Machine.mem 2 (mkmps [] 0 0 None) = Ok tt (mkmps [3] 9 4276092928 (Some 3)).
Proof.
  destruct (mpinit_correct Machine.mem 2 (P2V 983040) (P2V 983056) (mkmps [] 0 0 None)) as [H _]; [vm_compute; reflexivity|reflexivity|].
  assert (layout Machine.mem (u32 (P2V 983056 + half Machine.mem (P2V 983056 + 4))) (u32 (P2V 983056 + 44)) [EProc 3; EIoapic 9; EOther]) as Hl.
  { apply (lay_proc Machine.mem _ (u32 (P2V 983056 + 44))); [vm_compute; reflexivity|vm_compute; reflexivity|].
    apply (lay_ioapic Machine.mem _ (u32 (u32 (P2V 983056 + 44) + 20))); [vm_compute; reflexivity|vm_compute; reflexivity|].
    apply lay_other; [vm_compute; reflexivity|left; vm_compute; reflexivity|].
    apply lay_end. vm_compute. discriminate. }
  destruct (H _ Hl) as [H1 _]. apply H1; vm_compute; discriminate.
Defined.
End Mp.
