(* ===== verification/Boot.v ===== *)
(** * The boot loader (boot/stage1/bootmain.c)

    The loader reads an ELF kernel from the disk, sector by sector, into physical memory.
    Memory is a function from 32-bit addresses to bytes; pointers wrap around.  [sector n]
    are the bytes that the controller delivers for the sector [n] of the boot disk.

    A read is rounded to sectors on both sides, which writes more than was asked; the
    theorem gives the condition on the program headers under which every segment is
    nevertheless loaded as the file says. *)

From stdpp Require Import sorting.
From S2P Require Import Prelude Kalloc Vm Exec.

Module Boot.

Definition SECTSIZE : Z := 512.
(** The scratch space for the headers. *)
Definition SCRATCH : Z := 65536.

Definition memory : Type := Z -> Z.

Definition mbytes (m : memory) (a : Z) (n : nat) : list Z := map (fun i => m (u32 (a + Z.of_nat i))) (seq 0 n).
Definition mword (m : memory) (a : Z) : Z := le_value (mbytes m a 4).
Definition mhalf (m : memory) (a : Z) : Z := le_value (mbytes m a 2).

Section Boot.
Context (sector : Z -> list Z).

(** The sector is selected by 28 bits of [offset], which no caller exceeds. *)
Definition readsect (dst offset : Z) (m : memory) : memory := fun a =>
  if u32 (a - dst) <? SECTSIZE then aget 0 (sector (offset mod 2 ^ 28)) (u32 (a - dst)) else m a.

Fixpoint readseg_loop (fuel : nat) (pa epa offset : Z) : M memory unit :=
  if pa <? epa then
    match fuel with
    | O => nofuel
    | S f => modify (readsect pa offset) ;; readseg_loop f (u32 (pa + SECTSIZE)) epa (u32 (offset + 1))
    end
  else mret tt.

(** The range is [count] bytes and less than a sector before them.  A loop that has not
    ended after that many sectors has gone past the end of the address space, and does
    not end. *)
Definition readseg (pa count offset : Z) : M memory unit :=
  let epa := u32 (pa + count) in
  let pa := u32 (pa - offset mod SECTSIZE) in
  readseg_loop (Z.to_nat (count / SECTSIZE + 2)) pa epa (u32 (offset / SECTSIZE + 1)).

(** [stosb(pa + filesz, 0, memsz - filesz)]. *)
Definition zero (a n : Z) (m : memory) : memory := fun b => if u32 (b - a) <? n then 0 else m b.

(** The program header at [ph], as it lies in memory when it is looked at. *)
Definition load_segment (ph : Z) : M memory unit :=
  m ← get;
  let pa := mword m (ph + 12) in
  readseg pa (mword m (ph + 16)) (mword m (ph + 4)) ;;
  m ← get;
  if mword m (ph + 20) >? mword m (ph + 16)
  then modify (zero (u32 (pa + mword m (ph + 16))) (mword m (ph + 20) - mword m (ph + 16)))
  else mret tt.

(** The headers are adjacent, so that their number bounds the turns. *)
Fixpoint load_loop (fuel : nat) (ph eph : Z) : M memory unit :=
  if ph <? eph then
    match fuel with
    | O => nofuel
    | S f => load_segment ph ;; load_loop f (u32 (ph + proghdr_size)) eph
    end
  else mret tt.

(** The entry point that is called, or [None] when the loader returns to bootasm.S. *)
Definition bootmain : M memory (option Z) :=
  readseg SCRATCH 4096 0 ;;
  m ← get;
  if negb (mword m SCRATCH =? ELF_MAGIC) then mret None else
  let ph := u32 (SCRATCH + mword m (SCRATCH + 28)) in
  let phnum := mhalf m (SCRATCH + 44) in
  load_loop (Z.to_nat phnum) ph (u32 (ph + proghdr_size * phnum)) ;;
  m ← get;
  mret (Some (mword m (SCRATCH + 24))).
End Boot.

(** ** The file *)

(** The byte of the kernel image at an offset: the image starts at sector 1. *)
Definition image (sector : Z -> list Z) (o : Z) : Z := aget 0 (sector (o / SECTSIZE + 1)) (o mod SECTSIZE).

Section Facts.
Context (sector : Z -> list Z).

(** An address that lies at or after [d], in a range that does not wrap. *)
Lemma u32_offset a d n : 0 <= a < 2 ^ 32 -> 0 <= d -> 0 <= n -> d + n <= 2 ^ 32 ->
  (u32 (a - d) <? n) = (d <=? a) && (a <? d + n) /\ (d <= a -> u32 (a - d) = a - d).
Proof.
  intros Ha Hd Hn Hw. destruct (Z.leb_spec d a) as [H|H].
  - rewrite u32_id by lia. split; [|done]. simpl. lia.
  - replace (u32 (a - d)) with (a - d + 2 ^ 32) by (unfold u32; apply (Z.mod_unique _ _ (-1)); lia).
    split; [|lia]. simpl. lia.
Qed.

(** What a read changes: the bytes from its first sector to its last. *)
Lemma readseg_loop_run fuel : forall pa epa o m, epa - pa <= 512 * Z.of_nat fuel ->
  0 <= o -> (o + 1) + Z.of_nat fuel < 2 ^ 28 -> 0 <= pa -> pa < epa + 512 -> epa + 512 <= 2 ^ 32 ->
  exists m' e, readseg_loop sector fuel pa epa (o + 1) m = Ok tt m' /\ (epa <= pa -> e = pa) /\ (pa < epa -> epa <= e < epa + 512) /\
    forall a, 0 <= a < 2 ^ 32 -> m' a = if (pa <=? a) && (a <? e) then image sector (512 * o + (a - pa)) else m a.
Proof.
  induction fuel as [|f IH]; intros pa epa o m Hf Ho Hs H0 H1 Hw; cbn [readseg_loop].
  - destruct (Z.ltb_spec pa epa); [lia|]. exists m, pa. split; [done|]. split; [lia|]. split; [lia|]. intros a _.
    destruct (Z.leb_spec pa a), (Z.ltb_spec a pa); simpl; try done; lia.
  - destruct (Z.ltb_spec pa epa) as [Hlt|Hge].
    2: { exists m, pa. split; [done|]. split; [lia|]. split; [lia|]. intros a _. destruct (Z.leb_spec pa a), (Z.ltb_spec a pa); simpl; try done; lia. }
    msimpl. unfold SECTSIZE in *. rewrite (u32_id (pa + 512)), (u32_id (o + 1 + 1)) by lia.
    destruct (IH (pa + 512) epa (o + 1) (readsect sector pa (o + 1) m)) as (m' & e & Hr & He1 & He2 & Hm); [lia..|].
    exists m', e. split; [exact Hr|]. split; [lia|]. split; [lia|]. intros a Ha. rewrite Hm by done. unfold readsect, SECTSIZE.
    destruct (u32_offset a pa 512 Ha ltac:(lia) ltac:(lia) ltac:(lia)) as [E1 E2]. rewrite E1.
    destruct (Z.leb_spec (pa + 512) a), (Z.leb_spec pa a), (Z.ltb_spec a (pa + 512)), (Z.ltb_spec a e); simpl; try lia; try done.
    + f_equal. lia.
    + rewrite E2 by done. unfold image, SECTSIZE. rewrite (Z.mod_small (o + 1)) by lia.
      assert (Ed : (512 * o + (a - pa)) / 512 = o) by (symmetry; apply (Z.div_unique _ 512 o (a - pa)); lia).
      rewrite Ed. f_equal. apply (Z.mod_unique _ 512 o); lia.
Qed.

Lemma readseg_run pa count off m : 0 <= count -> 0 <= off -> off + count < 2 ^ 31 ->
  off mod 512 <= pa -> pa + count + 512 <= 2 ^ 32 ->
  exists m' e, readseg sector pa count off m = Ok tt m' /\ pa - off mod 512 <= e < pa + count + 512 /\ pa + count <= e /\
    forall a, 0 <= a < 2 ^ 32 -> m' a = if (pa - off mod 512 <=? a) && (a <? e) then image sector (off + (a - pa)) else m a.
Proof.
  intros Hc Ho Hb Hlo Hhi. unfold readseg, SECTSIZE.
  assert (E := Z.div_mod off 512 ltac:(lia)). assert (B := Z.mod_pos_bound off 512 ltac:(lia)).
  assert (Ec := Z.div_mod count 512 ltac:(lia)). assert (Bc := Z.mod_pos_bound count 512 ltac:(lia)).
  assert (0 <= off / 512) by (apply Z.div_pos; lia). assert (0 <= count / 512) by (apply Z.div_pos; lia).
  rewrite (u32_id (pa + count)), (u32_id (pa - off mod 512)), (u32_id (off / 512 + 1)) by lia.
  destruct (readseg_loop_run (Z.to_nat (count / 512 + 2)) (pa - off mod 512) (pa + count) (off / 512) m) as (m' & e & Hr & He1 & He2 & Hm); [lia..|].
  exists m', e. split; [exact Hr|]. split; [lia|]. split; [lia|]. intros a Ha. rewrite Hm by done. destruct ((pa - off mod 512 <=? a) && (a <? e)); [|done]. f_equal. lia.
Qed.

(** ** The segments *)

(** A word of the file. *)
Definition iword (o : Z) : Z := le_value (map (fun i => image sector (o + Z.of_nat i)) (seq 0 4)).

Record segment := mkseg { s_off : Z; s_pa : Z; s_filesz : Z; s_memsz : Z }.

Definition segment_at (h : Z) : segment := mkseg (iword (h + 4)) (iword (h + 12)) (iword (h + 16)) (iword (h + 20)).

(** The segment is in memory: its bytes of the file, and zeros up to its size. *)
Definition loaded (m : memory) (g : segment) : Prop :=
  (forall a, s_pa g <= a < s_pa g + s_filesz g -> m a = image sector (s_off g + (a - s_pa g))) /\
  (forall a, s_pa g + s_filesz g <= a < s_pa g + s_memsz g -> m a = 0).

(** What loading it may write, and what it has to keep. *)
Definition writes (g : segment) (a : Z) : Prop :=
  s_pa g - s_off g mod 512 <= a < s_pa g + s_filesz g + 512 \/ s_pa g + s_filesz g <= a < s_pa g + s_memsz g.
Definition holds (g : segment) (a : Z) : Prop := s_pa g <= a < s_pa g + Z.max (s_filesz g) (s_memsz g).

(** The headers are in the scratch space. *)
Definition headers (m : memory) : Prop := forall a, SCRATCH <= a < SCRATCH + 4096 -> m a = image sector (a - SCRATCH).

(** The addresses of the sectors read and of the bytes cleared do not wrap, and spare the
    headers. *)
Definition segment_ok (g : segment) : Prop :=
  s_off g + s_filesz g < 2 ^ 31 /\ s_off g mod 512 <= s_pa g /\
  s_pa g + s_filesz g + 512 <= 2 ^ 32 /\ s_pa g + s_memsz g <= 2 ^ 32 /\ forall a, SCRATCH <= a < SCRATCH + 4096 -> ~ writes g a.

Lemma headers_word m o : headers m -> 0 <= o -> o + 4 <= 4096 -> mword m (SCRATCH + o) = iword o.
Proof.
  intros Hh H0 H1. unfold mword, iword, mbytes. f_equal. apply map_ext_in. intros i Hi. apply in_seq in Hi.
  rewrite u32_id by (unfold SCRATCH; lia). rewrite Hh by (unfold SCRATCH; lia). f_equal. unfold SCRATCH. lia.
Qed.

Lemma image_value_nonneg o n : (forall n, Forall byte_ok (sector n)) ->
  0 <= le_value (map (fun i => image sector (o + Z.of_nat i)) (seq 0 n)).
Proof.
  intros Hb. apply le_value_range. apply Forall_forall. intros x Hx. apply list_elem_of_In, in_map_iff in Hx as (i & <- & _).
  unfold image, aget. case_match; [split; lia|]. destruct (sector _ !! _) as [c|] eqn:E; simpl; [|split; lia].
  specialize (Hb ((o + Z.of_nat i) / SECTSIZE + 1)). rewrite Forall_forall in Hb. apply Hb. by eapply list_elem_of_lookup_2.
Qed.

Lemma iword_nonneg o : (forall n, Forall byte_ok (sector n)) -> 0 <= iword o.
Proof. apply image_value_nonneg. Qed.

Lemma load_segment_run h m : headers m -> 0 <= h -> h + 32 <= 4096 -> 0 <= s_off (segment_at h) -> 0 <= s_filesz (segment_at h) ->
  segment_ok (segment_at h) ->
  exists m', load_segment sector (SCRATCH + h) m = Ok tt m' /\ headers m' /\ loaded m' (segment_at h) /\
    forall a, 0 <= a < 2 ^ 32 -> ~ writes (segment_at h) a -> m' a = m a.
Proof.
  intros Hh H0 H1 Ho Hf (Hb & Hlo & Hhi & Hms & Hs). set (g := segment_at h) in *.
  assert (W : forall m k, headers m -> 0 <= k -> k + 4 <= 32 -> mword m (SCRATCH + h + k) = iword (h + k)).
  { intros m0 k Hm0 Hk1 Hk2. rewrite <- Z.add_assoc. apply headers_word; [done|lia..]. }
  unfold load_segment. msimpl. rewrite !W by (done || lia). change (iword (h + 12)) with (s_pa g). change (iword (h + 16)) with (s_filesz g). change (iword (h + 4)) with (s_off g).
  destruct (readseg_run (s_pa g) (s_filesz g) (s_off g) m Hf Ho Hb Hlo Hhi) as (m1 & e & Hr & He & He2 & Hm1). rewrite Hr.
  assert (B := Z.mod_pos_bound (s_off g) 512 ltac:(lia)).
  assert (Hout : forall a, 0 <= a < 2 ^ 32 -> ~ writes g a -> m1 a = m a).
  { intros a Hr1 Ha. rewrite Hm1 by done. destruct (Z.leb_spec (s_pa g - s_off g mod 512) a), (Z.ltb_spec a e); simpl; try done.
    exfalso. apply Ha. left. lia. }
  assert (Hin : forall a, s_pa g <= a < s_pa g + s_filesz g -> m1 a = image sector (s_off g + (a - s_pa g))).
  { intros a Ha. rewrite Hm1 by lia. destruct (Z.leb_spec (s_pa g - s_off g mod 512) a), (Z.ltb_spec a e); simpl; try done; lia. }
  assert (Hh1 : headers m1) by (intros a Ha; rewrite Hout; [by apply Hh|unfold SCRATCH in Ha; lia|by apply Hs]).
  rewrite !W by (done || lia). change (iword (h + 20)) with (s_memsz g). change (iword (h + 16)) with (s_filesz g).
  destruct (Z.gtb_spec (s_memsz g) (s_filesz g)) as [Hgt|Hle].
  - eexists. split; [done|].
    assert (Hzero : forall a, 0 <= a < 2 ^ 32 -> zero (u32 (s_pa g + s_filesz g)) (s_memsz g - s_filesz g) m1 a =
      if (s_pa g + s_filesz g <=? a) && (a <? s_pa g + s_memsz g) then 0 else m1 a).
    { intros a Ha. unfold zero. rewrite (u32_id (s_pa g + s_filesz g)) by lia.
      destruct (u32_offset a (s_pa g + s_filesz g) (s_memsz g - s_filesz g) Ha) as [-> _]; [lia..|].
      by replace (s_pa g + s_filesz g + (s_memsz g - s_filesz g)) with (s_pa g + s_memsz g) by lia. }
    assert (Hz : forall a, 0 <= a < 2 ^ 32 -> ~ writes g a -> zero (u32 (s_pa g + s_filesz g)) (s_memsz g - s_filesz g) m1 a = m a).
    { intros a Hra Ha. rewrite Hzero by done. destruct (Z.leb_spec (s_pa g + s_filesz g) a), (Z.ltb_spec a (s_pa g + s_memsz g)); simpl; try by apply Hout.
      exfalso. apply Ha. right. lia. }
    split_and!; [|split|done].
    + intros a Ha. rewrite Hz; [by apply Hh|unfold SCRATCH in Ha; lia|by apply Hs].
    + intros a Ha. rewrite Hzero by lia. rewrite (proj2 (Z.leb_gt _ _)) by lia. simpl. by apply Hin.
    + intros a Ha. rewrite Hzero by lia. rewrite (proj2 (Z.leb_le _ _)), (proj2 (Z.ltb_lt _ _)) by lia. done.
  - exists m1. split_and!; [done|done|split; [done|intros; lia]|done].
Qed.

(** The segments of the program headers from the offset [h]. *)
Fixpoint segments (n : nat) (h : Z) : list segment :=
  match n with
  | O => []
  | S n => segment_at h :: segments n (h + proghdr_size)
  end.

(** Loading a segment spares the ones before it. *)
Definition spares (g g' : segment) : Prop := forall a, holds g a -> ~ writes g' a.

Lemma loaded_keep m m' g : 0 <= s_filesz g -> (forall a, holds g a -> m' a = m a) -> loaded m g -> loaded m' g.
Proof.
  intros H0 H [H1 H2]. unfold holds in H. split; intros a Ha; rewrite H by lia; auto.
Qed.

Lemma holds_range g a : segment_ok g -> holds g a -> 0 <= a < 2 ^ 32.
Proof. intros (_ & H1 & H2 & H3 & _) Ha. unfold holds in Ha. pose proof (Z.mod_pos_bound (s_off g) 512 ltac:(lia)). lia. Qed.

Lemma load_loop_run (Hb : forall n, Forall byte_ok (sector n)) n : forall h m,
  headers m -> 0 <= h -> h + 32 * Z.of_nat n <= 4096 -> Forall segment_ok (segments n h) -> StronglySorted spares (segments n h) ->
  exists m', load_loop sector n (SCRATCH + h) (SCRATCH + h + 32 * Z.of_nat n) m = Ok tt m' /\ headers m' /\ Forall (loaded m') (segments n h) /\
    forall a, 0 <= a < 2 ^ 32 -> (forall g, g ∈ segments n h -> ~ writes g a) -> m' a = m a.
Proof.
  induction n as [|n IH]; intros h m Hh H0 H1 Hok Hs; cbn [load_loop segments].
  { exists m. rewrite (proj2 (Z.ltb_ge _ _)) by lia. by split_and!. }
  cbn [segments] in *. apply Forall_cons in Hok as [Hg Hok]. apply StronglySorted_cons in Hs as [Hsp Hs].
  rewrite (proj2 (Z.ltb_lt _ _)) by lia.
  destruct (load_segment_run h m Hh H0 ltac:(lia)) as (m1 & Hr1 & Hh1 & Hl1 & Ho1); [apply iword_nonneg, Hb|apply iword_nonneg, Hb|done|].
  rewrite (bind_ok _ _ _ _ _ Hr1). unfold proghdr_size, SCRATCH in *. rewrite u32_id by lia.
  destruct (IH (h + 32) m1 Hh1 ltac:(lia) ltac:(lia) Hok Hs) as (m2 & Hr2 & Hh2 & Hl2 & Ho2).
  exists m2. split_and!; [|done| |].
  - rewrite <- Hr2. f_equal; lia.
  - constructor; [|done]. apply (loaded_keep m1); [apply iword_nonneg, Hb| |done]. intros a Ha.
    apply Ho2; [by eapply holds_range|]. intros g Hin. rewrite Forall_forall in Hsp. by apply (Hsp g).
  - intros a Hra Ha. rewrite Ho2, Ho1; [done|done|apply Ha; left|done|]. intros g Hin. apply Ha. by right.
Qed.
End Facts.

(** C32. The loader puts every segment of an ELF kernel in memory as the file says, with zeros after
    it up to its size, and calls the entry point of the header, when the program headers
    lie in the first page of the file and the sectors written for a segment, which are
    rounded to more than was asked, have addresses that do not wrap around and spare the
    headers and the segments loaded before it.
    A file without the magic number is not loaded. *)
Theorem bootmain_correct sector m :
  (forall n, Forall byte_ok (sector n)) ->
  let n := Z.to_nat (le_value (map (fun i => image sector (44 + Z.of_nat i)) (seq 0 2))) in let h := iword sector 28 in
  (iword sector 0 <> ELF_MAGIC -> exists m', bootmain sector m = Ok None m') /\
  (iword sector 0 = ELF_MAGIC -> h + 32 * Z.of_nat n <= 4096 ->
   Forall (segment_ok) (segments sector n h) -> StronglySorted spares (segments sector n h) ->
   exists m', bootmain sector m = Ok (Some (iword sector 24)) m' /\ Forall (loaded sector m') (segments sector n h)).
Proof.
  intros Hb n h. destruct (readseg_run sector SCRATCH 4096 0 m ltac:(lia) ltac:(lia) ltac:(lia) ltac:(done) ltac:(done)) as (m1 & e & Hr & He & He2 & Hm).
  assert (Hh : headers sector m1).
  { intros a Ha. rewrite Hm by (unfold SCRATCH in Ha; lia). rewrite Z.mod_0_l, Z.sub_0_r by lia.
    rewrite (proj2 (Z.leb_le _ _)), (proj2 (Z.ltb_lt _ _)) by lia. simpl. f_equal. }
  assert (W : forall m0 k, headers sector m0 -> 0 <= k -> k + 4 <= 4096 -> mword m0 (SCRATCH + k) = iword sector k) by (intros; by apply headers_word).
  assert (Wm : mword m1 SCRATCH = iword sector 0) by (rewrite <- (W m1 0); [by rewrite Z.add_0_r|done|lia|lia]).
  unfold bootmain. rewrite (bind_ok _ _ _ _ _ Hr). rewrite (bind_ok get _ m1 m1 m1 eq_refl). rewrite Wm. split.
  - intros Hne. exists m1. by rewrite (proj2 (Z.eqb_neq _ _)).
  - intros He0 Hfit Hok Hs. rewrite He0. simpl (negb _). cbv iota.
    assert (En : mhalf m1 (SCRATCH + 44) = le_value (map (fun i => image sector (44 + Z.of_nat i)) (seq 0 2))).
    { unfold mhalf, mbytes. f_equal. apply map_ext_in. intros i Hi. apply in_seq in Hi.
      unfold SCRATCH in *. rewrite u32_id by lia. rewrite Hh by (unfold SCRATCH; lia). unfold SCRATCH. f_equal. lia. }
    assert (0 <= le_value (map (fun i => image sector (44 + Z.of_nat i)) (seq 0 2))) as Hn0 by by apply image_value_nonneg.
    rewrite En, W by (done || lia). fold n h. pose proof (iword_nonneg sector 28 Hb) as Hh0. fold h in Hh0.
    rewrite (u32_id (SCRATCH + h)), u32_id by (unfold SCRATCH, proghdr_size; lia).
    destruct (load_loop_run sector Hb n h m1 Hh Hh0 Hfit Hok Hs) as (m2 & Hr2 & Hh2 & Hl2 & _).
    replace (SCRATCH + h + proghdr_size * _) with (SCRATCH + h + 32 * Z.of_nat n) by (unfold n, proghdr_size; lia).
    rewrite (bind_ok _ _ _ _ _ Hr2). exists m2. split; [|done]. msimpl. rewrite W by (done || lia). done.
Qed.

(** A kernel of one segment: three bytes at one megabyte, and seven zeros after them. *)
Module Kernel.
Definition header : list Z :=
  [127; 69; 76; 70] ++ replicate 20 0 ++ [12; 0; 16; 0] ++ [52; 0; 0; 0] ++ replicate 12 0 ++ [1; 0] ++ replicate 6 0.
Definition program : list Z :=
  [1; 0; 0; 0] ++ [0; 16; 0; 0] ++ replicate 4 0 ++ [0; 0; 16; 0] ++ [3; 0; 0; 0] ++ [10; 0; 0; 0] ++ replicate 8 0.
Definition file : list Z := header ++ program ++ replicate (4096 - 84) 0 ++ [5; 6; 7].
Definition sector (n : Z) : list Z := take 512 (drop (Z.to_nat (512 * (n - 1))) file).

Lemma kernel_sector_bytes n : Forall byte_ok (sector n).
Proof.
  apply Forall_take, Forall_drop. assert (E : forallb (fun c => (0 <=? c) && (c <? 256)) file = true) by (vm_compute; reflexivity).
  rewrite forallb_forall in E. apply Forall_forall. intros c Hc. apply list_elem_of_In, E in Hc. unfold byte_ok. zbool. lia.
Qed.
End Kernel.

(** A read at an offset inside a sector also writes below its destination, so loading
    segments in increasing order is not enough. *)
Lemma readseg_writes_below :
  match readseg Kernel.sector 2000 1 4097 (fun _ => 204) with Ok _ m => m 1999 = 5 /\ m 2000 = 6 | _ => False end.
Proof. vm_compute. split; reflexivity. Qed.

(** A destination below the offset in the sector wraps around, and nothing is read. *)
Lemma readseg_wraps m : readseg Kernel.sector 0 1 4097 m = Ok tt m.
Proof. reflexivity. Qed.

Lemma bootmain_correct_witness : exists m', bootmain Kernel.sector (fun _ => 204) = Ok (Some 1048588) m' /\
  m' 1048576 = 5 /\ m' 1048578 = 7 /\ m' 1048579 = 0 /\ m' 1048585 = 0.
Proof.
  destruct (bootmain_correct Kernel.sector (fun _ => 204) Kernel.kernel_sector_bytes) as [_ H].
  assert (Es : segments Kernel.sector (Z.to_nat (le_value (map (fun i => image Kernel.sector (44 + Z.of_nat i)) (seq 0 2)))) (iword Kernel.sector 28) = [mkseg 4096 1048576 3 10])
    by (vm_compute; reflexivity).
  rewrite Es in H. destruct H as (m' & Hr & Hl).
  - vm_compute. reflexivity.
  - vm_compute. congruence.
  - constructor; [|constructor]. split_and!; [simpl; lia|vm_compute; discriminate|simpl; lia|simpl; lia|]. intros a Ha Hw. unfold SCRATCH, writes in *. simpl in *. change (4096 mod 512) with 0 in Hw. lia.
  - repeat constructor.
  - exists m'. apply Forall_cons in Hl as [[H1 H2] _]. simpl in *. split; [exact Hr|].
    rewrite !H1, !H2 by lia. vm_compute. repeat split.
Defined.
End Boot.
