(* ===== verification/Commands.v ===== *)
(** * The user commands (user/bin)

    The [main] functions of the small commands, and ls.  A command is the list of what it
    does: bytes that it puts on a descriptor, and system calls.  [exit] ends the list.
    The system is seen through its answers: [reads path] is what the [read] calls on an
    open file return and whether the last one failed ([None]: it cannot be opened),
    [dirents path] the same for the 16-byte reads of a directory, [fstat path] the
    status of an open file, and [accepts call] whether a system call succeeds. *)

From S2P Require Import Prelude CString ULib UPrintf Printf Structio Filters.
Import Structio.Structio.

Module Commands.

Definition DIRSIZ : Z := 14.
Definition T_DIR : Z := 1.
Definition T_FILE : Z := 2.
Definition T_DEV : Z := 3.

(** The fields of [struct stat] that the commands use. *)
Record stat := mkstat { st_type : Z; st_ino : Z; st_size : Z }.

Inductive sys := SMkdir (path : list Z) | SUnlink (path : list Z) | SLink (old new : list Z) | SKill (pid : Z).
Inductive action := Out (fd : Z) (bs : list Z) | Sys (s : sys).

Definition nl : list Z := [10].
Definition say (fd : Z) (fmt : list Z) (args : list parg) : action := Out fd (uprintf fmt args).
Definition str (s : list Z) : parg := AStr (Some s).

Section World.
Context (stdin : list (list Z) * bool) (reads : list Z -> option (list (list Z) * bool)).
Context (dirents : list Z -> list (list Z)) (fstat : list Z -> option stat) (accepts : sys -> bool).

(** ** Text *)

Fixpoint wc_files (args : list (list Z)) : list action :=
  match args with
  | [] => []
  | a :: args =>
      match reads a with
      | None => [say 1 (cs "wc: cannot open %s" ++ nl) [str a]]
      | Some (rs, err) => Out 1 (Wc.wc rs err a) :: (if err then [] else wc_files args)
      end
  end.

Definition wc_main (argv : list (list Z)) : list action :=
  if (length argv <=? 1)%nat then [Out 1 (Wc.wc stdin.1 stdin.2 [])] else wc_files (drop 1 argv).

(** [grep] stops at a failed read as at the end. *)
Fixpoint grep_files (pattern : list Z) (args : list (list Z)) : list action :=
  match args with
  | [] => []
  | a :: args =>
      match reads a with
      | None => [say 1 (cs "grep: cannot open %s" ++ nl) [str a]]
      | Some (rs, _) => Out 1 (Grep.grep pattern [] rs) :: grep_files pattern args
      end
  end.

Definition grep_main (argv : list (list Z)) : list action :=
  match argv with
  | _ :: pattern :: args =>
      if bool_decide (args = []) then [Out 1 (Grep.grep pattern [] stdin.1)] else grep_files pattern args
  | _ => [say 2 (cs "usage: grep pattern [file ...]" ++ nl) []]
  end.

(** [write_ok] says of each [write] whether it wrote everything. *)
Definition cat_stream (write_ok : list Z -> bool) (json_mode : bool) (source : list Z) (f : list (list Z) * bool) : list action :=
  if json_mode then [Out 1 (Cat.cat_json source f.1 f.2)]
  else [Out 1 (Cat.cat_plain (map (fun c => (c, write_ok c)) f.1) f.2)].

(** Whether [cat_stream] left by [exit]. *)
Definition cat_exits (write_ok : list Z -> bool) (json_mode : bool) (f : list (list Z) * bool) : bool :=
  f.2 || (negb json_mode && existsb (fun c => negb (write_ok c)) f.1).

Fixpoint cat_files (write_ok : list Z -> bool) (json_mode : bool) (args : list (list Z)) : list action :=
  match args with
  | [] => []
  | a :: args =>
      match reads a with
      | None => [say 1 (cs "cat: cannot open %s" ++ nl) [str a]]
      | Some f => cat_stream write_ok json_mode a f ++ (if cat_exits write_ok json_mode f then [] else cat_files write_ok json_mode args)
      end
  end.

Definition cat_main (write_ok : list Z -> bool) (argv : list (list Z)) : list action :=
  match modern_consume_flags (cs "cat") argv true with
  | inl o => [Out 1 o]
  | inr (idx, json_mode) =>
      if idx >=? Z.of_nat (length argv) then cat_stream write_ok json_mode (cs "stdin") stdin
      else cat_files write_ok json_mode (drop (Z.to_nat idx) argv)
  end.

Fixpoint echo_args (args : list (list Z)) : list action :=
  match args with
  | [] => []
  | a :: args => say 1 (cs "%s%s") [str a; str (if bool_decide (args = []) then nl else cs " ")] :: echo_args args
  end.

Definition echo_main (argv : list (list Z)) : list action := echo_args (drop 1 argv).

Definition clear_main : list action := [say 1 ([27] ++ cs "[2J" ++ [27] ++ cs "[H") []].

(** ** ls *)

(** The walk back to the last slash: its position, or -1. *)
Fixpoint slash_back (path : list Z) (n : nat) : Z :=
  if aget 0 path (Z.of_nat n) =? chr "/" then Z.of_nat n
  else match n with O => -1 | S m => slash_back path m end.

(** The static buffer's last byte is never written. *)
Definition fmtname (path : list Z) : list Z :=
  let p := drop (Z.to_nat (slash_back path (length path) + 1)) path in
  if Z.of_nat (length p) >=? DIRSIZ then p
  else p ++ replicate (Z.to_nat (DIRSIZ - Z.of_nat (length p))) (chr " ").

(** The two walks of [basename]: over the slashes at the end, and over the name. *)
Fixpoint back_slashes (path : list Z) (p : nat) : nat :=
  match p with
  | O => O
  | S m => if aget 0 path (Z.of_nat m) =? chr "/" then back_slashes path m else p
  end.

Fixpoint back_name (path : list Z) (start : nat) : nat :=
  match start with
  | O => O
  | S m => if negb (aget 0 path (Z.of_nat m) =? chr "/") then back_name path m else start
  end.

Definition basename (dstsz : Z) (path : list Z) : list Z :=
  let p := back_slashes path (length path) in
  let start := back_name path p in
  let len := Z.of_nat p - Z.of_nat start in
  let len := if len >=? dstsz then dstsz - 1 else len in
  if (len =? 0) && (dstsz >? 1) then cs "." else take (Z.to_nat len) (drop start path).

Definition typestr (type : Z) : list Z :=
  if type =? T_DIR then cs "dir" else if type =? T_FILE then cs "file"
  else if type =? T_DEV then cs "device" else cs "unknown".

Definition emit_entry (json_mode : bool) (path name : list Z) (st : stat) : action :=
  if negb json_mode
  then say 1 (cs "%s %d %d %d" ++ nl) [str (fmtname path); AInt (st_type st); AInt (st_ino st); AInt (st_size st)]
  else
    let '(w, o) := struct_begin 1 in
    let '(w, o1) := struct_field_str w (Some (cs "path")) (Some path) in
    let '(w, o2) := struct_field_str w (Some (cs "name")) (Some name) in
    let '(w, o3) := struct_field_str w (Some (cs "type")) (Some (typestr (st_type st))) in
    let '(w, o4) := struct_field_int w (Some (cs "inode")) (st_ino st) in
    let '(w, o5) := struct_field_int w (Some (cs "size")) (st_size st) in
    Out 1 (o ++ o1 ++ o2 ++ o3 ++ o4 ++ o5 ++ struct_end w).

(** [stat] of the user library. *)
Definition stat_path (path : list Z) : option stat :=
  match reads path with None => None | Some _ => fstat path end.

(** The C string in a buffer. *)
Fixpoint upto_nul (l : list Z) : list Z :=
  match l with
  | [] => []
  | c :: l => if c =? 0 then [] else c :: upto_nul l
  end.

(** A [struct dirent]: the inode number and the name up to its NUL. *)
Definition de_inum (de : list Z) : Z := le_value (take 2 de).
Definition de_name (de : list Z) : list Z := upto_nul (take 14 (drop 2 de)).

Fixpoint ls_entries (json_mode : bool) (path : list Z) (des : list (list Z)) : list action :=
  match des with
  | [] => []
  | de :: des =>
      if negb (length de =? 16)%nat then [] else
      if de_inum de =? 0 then ls_entries json_mode path des else
      let buf := path ++ cs "/" ++ de_name de in
      match stat_path buf with
      | None => say 1 (cs "ls: cannot stat %s" ++ nl) [str buf]
      | Some st => emit_entry json_mode buf (de_name de) st
      end :: ls_entries json_mode path des
  end.

Definition ls (json_mode : bool) (path : list Z) : list action :=
  match reads path with
  | None => [say 2 (cs "ls: cannot open %s" ++ nl) [str path]]
  | Some _ =>
      match fstat path with
      | None => [say 2 (cs "ls: cannot stat %s" ++ nl) [str path]]
      | Some st =>
          if st_type st =? T_FILE then
            [emit_entry json_mode path (if json_mode then basename (DIRSIZ + 1) path else fmtname path) st]
          else if st_type st =? T_DIR then
            if Z.of_nat (length path) + 1 + DIRSIZ + 1 >? 512 then [say 1 (cs "ls: path too long" ++ nl) []]
            else ls_entries json_mode path (dirents path)
          else []
      end
  end.

Definition ls_main (argv : list (list Z)) : list action :=
  match modern_consume_flags (cs "ls") argv true with
  | inl o => [Out 1 o]
  | inr (i, json_mode) =>
      if i >=? Z.of_nat (length argv) then ls json_mode (cs ".")
      else flat_map (ls json_mode) (drop (Z.to_nat i) argv)
  end.

(** ** Files and processes *)

(** The loop of [mkdir] and [rm]: it stops at the first failure. *)
Fixpoint each_file (call : list Z -> sys) (fmt : list Z) (args : list (list Z)) : list action :=
  match args with
  | [] => []
  | a :: args => Sys (call a) :: (if accepts (call a) then each_file call fmt args else [say 2 fmt [str a]])
  end.

Definition mkdir_main (argv : list (list Z)) : list action :=
  if (length argv <? 2)%nat then [say 2 (cs "Usage: mkdir files..." ++ nl) []]
  else each_file SMkdir (cs "mkdir: %s failed to create" ++ nl) (drop 1 argv).

Definition rm_main (argv : list (list Z)) : list action :=
  if (length argv <? 2)%nat then [say 2 (cs "Usage: rm files..." ++ nl) []]
  else each_file SUnlink (cs "rm: %s failed to delete" ++ nl) (drop 1 argv).

Definition ln_main (argv : list (list Z)) : list action :=
  match argv with
  | [_; old; new] => Sys (SLink old new) :: (if accepts (SLink old new) then [] else [say 2 (cs "link %s %s: failed" ++ nl) [str old; str new]])
  | _ => [say 2 (cs "Usage: ln old new" ++ nl) []]
  end.

(** [atoi] of a string. *)
Definition atoi_of (s : list Z) : Z := default 0 (ULib.atoi 0 (s ++ [0])).

Definition kill_main (argv : list (list Z)) : list action :=
  if (length argv <? 2)%nat then [say 2 (cs "usage: kill pid..." ++ nl) []]
  else map (fun a => Sys (SKill (atoi_of a))) (drop 1 argv).
End World.

(** ** Names *)

(** A path that ends in the name [b]: nothing or a directory before it. *)
Definition ends_in (path dir b : list Z) : Prop :=
  path = dir ++ b /\ (dir = [] \/ list.last dir = Some (chr "/")) /\ chr "/" ∉ b.

Lemma aget_at (l : list Z) i : aget 0 l (Z.of_nat i) = default 0 (l !! i).
Proof. apply aget_nat. Qed.

Lemma slash_back_none path n : (forall i, (i <= n)%nat -> aget 0 path (Z.of_nat i) <> chr "/") -> slash_back path n = -1.
Proof.
  induction n as [|n IH]; intros H; simpl.
  - rewrite (proj2 (Z.eqb_neq _ _)); [done|]. apply (H O). lia.
  - rewrite (proj2 (Z.eqb_neq _ _)) by (apply (H (S n)); lia). apply IH. intros i Hi. apply H. lia.
Qed.

Lemma slash_back_at path k n : (k <= n)%nat -> aget 0 path (Z.of_nat k) = chr "/" ->
  (forall i, (k < i <= n)%nat -> aget 0 path (Z.of_nat i) <> chr "/") -> slash_back path n = Z.of_nat k.
Proof.
  intros Hk Hs H. induction n as [|n IH]; simpl.
  - assert (k = O) as -> by lia. rewrite Hs. done.
  - destruct (decide (k = S n)) as [->|Hne]; [by rewrite Hs, Z.eqb_refl|].
    rewrite (proj2 (Z.eqb_neq _ _)) by (apply (H (S n)); lia). apply IH; [lia|]. intros i Hi. apply H. lia.
Qed.

Lemma name_no_slash (dir b : list Z) i : chr "/" ∉ b -> (length dir <= i)%nat -> aget 0 (dir ++ b) (Z.of_nat i) <> chr "/".
Proof.
  intros Hb Hi. rewrite aget_at, lookup_app_r by lia. destruct (b !! (i - length dir)%nat) as [c|] eqn:E; simpl; [|done].
  intros ->. apply Hb. by eapply list_elem_of_lookup_2.
Qed.

Lemma dir_slash (dir b : list Z) : list.last dir = Some (chr "/") -> aget 0 (dir ++ b) (Z.of_nat (length dir - 1)) = chr "/".
Proof.
  intros H. apply last_Some in H as [d ->]. rewrite length_app, aget_at. simpl.
  rewrite <- app_assoc, lookup_app_r by lia. by replace (length d + 1 - 1 - length d)%nat with O by lia.
Qed.

Lemma last_nonempty {A} (d : list A) x : list.last d = Some x -> (0 < length d)%nat.
Proof. destruct d; [done|simpl; lia]. Qed.

Lemma slash_back_ends dir b : dir = [] \/ list.last dir = Some (chr "/") -> chr "/" ∉ b ->
  slash_back (dir ++ b) (length (dir ++ b)) = Z.of_nat (length dir) - 1.
Proof.
  intros [->|Hd] Hb.
  - simpl. apply slash_back_none. intros i _. apply (name_no_slash []); [done|simpl; lia].
  - assert (H0 := last_nonempty _ _ Hd). rewrite (slash_back_at _ (length dir - 1)); [lia|rewrite length_app; lia|by apply dir_slash|].
    intros i Hi. apply name_no_slash; [done|lia].
Qed.

Lemma back_slashes_run (p sl : list Z) : Forall (eq (chr "/")) sl -> (p = [] \/ exists q c, p = q ++ [c] /\ c <> chr "/") ->
  back_slashes (p ++ sl) (length (p ++ sl)) = length p.
Proof.
  intros Hsl Hp. induction sl as [|c sl IH] using rev_ind.
  - rewrite app_nil_r. destruct Hp as [->|(q & c & -> & Hc)]; [done|]. rewrite length_app. simpl. rewrite Nat.add_1_r. simpl.
    rewrite aget_at, lookup_app_r, Nat.sub_diag by lia. simpl. by rewrite (proj2 (Z.eqb_neq _ _)).
  - apply Forall_app in Hsl as [Hsl Hc]. inversion_clear Hc as [|? ? Ec _].
    assert (Hpre : forall n, (n <= length (p ++ sl))%nat -> back_slashes (p ++ sl ++ [c]) n = back_slashes (p ++ sl) n).
    { induction n as [|n IHn]; intros Hn; simpl; [done|]. rewrite !aget_at, (assoc_L (++)), lookup_app_l by lia. rewrite <- (assoc_L (++)), IHn by lia. done. }
    replace (length (p ++ sl ++ [c])) with (S (length (p ++ sl))) by (rewrite !length_app; simpl; lia). simpl.
    rewrite aget_at. rewrite (assoc_L (++)) at 1. rewrite lookup_app_r, Nat.sub_diag by lia. simpl. rewrite <- Ec, Z.eqb_refl.
    rewrite Ec, Hpre by lia. by apply IH.
Qed.

Lemma back_name_run dir b sl : dir = [] \/ list.last dir = Some (chr "/") -> chr "/" ∉ b ->
  forall n, (n <= length b)%nat -> back_name (dir ++ b ++ sl) (length dir + n) = length dir.
Proof.
  intros Hd Hb n. induction n as [|n IH]; intros Hn.
  - rewrite Nat.add_0_r. destruct Hd as [->|Hd]; [done|]. assert (H0 := last_nonempty _ _ Hd). destruct (length dir) as [|k] eqn:E; [done|]. simpl.
    assert (Hs := dir_slash dir (b ++ sl) Hd). rewrite E in Hs. simpl in Hs. rewrite Nat.sub_0_r in Hs. by rewrite Hs.
  - rewrite Nat.add_succ_r. simpl. rewrite aget_at, lookup_app_r by lia. replace (length dir + n - length dir)%nat with n by lia.
    rewrite lookup_app_l by lia. destruct (b !! n) as [c|] eqn:Ec; [|apply lookup_ge_None in Ec; lia]. simpl.
    rewrite (proj2 (Z.eqb_neq _ _)); [apply IH; lia|]. intros ->. apply Hb. by eapply list_elem_of_lookup_2.
Qed.

(** ** Listings *)

(** The words for the types of files, and for any other number. *)
Definition type_words : list (Z * list Z) := [(1, cs "dir"); (2, cs "file"); (3, cs "device")].
Definition type_word (t : Z) : list Z :=
  default (cs "unknown") (snd <$> List.find (fun p => p.1 =? t) type_words).

(** The fields of an entry. *)
Definition entry_fields (path name : list Z) (st : stat) : list field :=
  [FStr (cs "path") path; FStr (cs "name") name; FStr (cs "type") (type_word (st_type st));
   FInt (cs "inode") (st_ino st); FInt (cs "size") (st_size st)].

Lemma typestr_word t : typestr t = type_word t.
Proof.
  unfold typestr, type_word, type_words, T_DIR, T_FILE, T_DEV. cbn [List.find fst snd].
  rewrite !(Z.eqb_sym _ t). by destruct (t =? 1), (t =? 2), (t =? 3).
Qed.

Lemma emit_entry_json path name st : emit_entry true path name st = Out 1 (put_struct 1 (entry_fields path name st)).
Proof. unfold emit_entry, put_struct, entry_fields. rewrite <- typestr_word. cbv -[app cs write_escaped uprintf typestr st_type st_ino st_size]. by rewrite <- !app_assoc. Qed.

Definition stat_ok (st : stat) : Prop := 0 <= st_ino st < 2 ^ 31 /\ 0 <= st_size st < 2 ^ 31.

Lemma type_word_bytes t : Forall byte_ok (type_word t).
Proof. rewrite <- typestr_word. unfold typestr. repeat case_match; repeat constructor; unfold byte_ok; lia. Qed.

Lemma entry_fields_ok path name st : Forall byte_ok path -> Forall byte_ok name -> stat_ok st -> Forall field_ok (entry_fields path name st).
Proof.
  intros Hp Hn [Hi Hs]. assert (Ht := type_word_bytes (st_type st)).
  assert (Hk : forall k, k ∈ [cs "path"; cs "name"; cs "type"; cs "inode"; cs "size"] -> plain_key k).
  { intros k Hk. apply (bool_decide_unpack _). revert k Hk. apply Forall_forall. repeat constructor. }
  repeat constructor; simpl; try done; try lia; apply Hk; set_solver.
Qed.

(** What a listing shows of a directory: the entries in use. *)
Definition live (de : list Z) : Prop := de_inum de <> 0.
#[global] Instance live_dec de : Decision (live de).
Proof. unfold live. apply _. Defined.

Lemma de_name_bytes de : Forall byte_ok de -> Forall byte_ok (de_name de).
Proof.
  intros H. unfold de_name. assert (H' : Forall byte_ok (take 14 (drop 2 de))) by by apply Forall_take, Forall_drop.
  induction H' as [|c l Hc _ IH]; simpl; [constructor|]. destruct (c =? 0); [constructor|by constructor].
Qed.

#[global] Instance byte_ok_dec c : Decision (byte_ok c).
Proof. unfold byte_ok. apply _. Defined.

Section Listing.
Context (reads : list Z -> option (list (list Z) * bool)) (fstat : list Z -> option stat).

Lemma ls_entries_json path des (stats : list Z -> stat) :
  Forall (fun de => length de = 16%nat) des ->
  Forall (fun de => stat_path reads fstat (path ++ cs "/" ++ de_name de) = Some (stats de)) (filter live des) ->
  ls_entries reads fstat true path des =
    map (fun de => Out 1 (put_struct 1 (entry_fields (path ++ cs "/" ++ de_name de) (de_name de) (stats de)))) (filter live des).
Proof.
  intros Hl Hst. induction Hl as [|de des Hde _ IH]; [done|]. cbn [ls_entries]. rewrite Hde, Nat.eqb_refl. cbn [negb].
  destruct (Z.eqb_spec (de_inum de) 0) as [Hz|Hz].
  - rewrite filter_cons_False in * by (intros Hlv; by apply Hlv). by apply IH.
  - rewrite filter_cons_True in * by done. apply Forall_cons in Hst as [Hs Hst]. rewrite Hs, emit_entry_json. cbn [map]. f_equal. by apply IH.
Qed.
End Listing.

(** C37. [ls] in JSON mode lists a directory: one object for each entry in use and in the order of the
    directory, which a reader of JSON decodes to the path, the name, the type, the inode
    and the size of the file. *)
Theorem ls_json_correct reads dirents fstat path st (stats : list Z -> stat) :
  is_Some (reads path) -> fstat path = Some st -> st_type st = T_DIR -> Z.of_nat (length path) <= 496 ->
  Forall byte_ok path -> Forall (fun de => length de = 16%nat /\ Forall byte_ok de) (dirents path) ->
  Forall (fun de => stat_path reads fstat (path ++ cs "/" ++ de_name de) = Some (stats de) /\ stat_ok (stats de)) (filter live (dirents path)) ->
  Forall2 (fun de a => exists o, a = Out 1 o /\
    read_struct o = Some (entry_fields (path ++ cs "/" ++ de_name de) (de_name de) (stats de)))
    (filter live (dirents path)) (ls reads dirents fstat true path).
Proof.
  intros [f Hf] Hst Ht Hl Hp Hd Hs. unfold ls. rewrite Hf, Hst, Ht. simpl. destruct (Z.gtb_spec (Z.of_nat (length path) + 1 + DIRSIZ + 1) 512); [unfold DIRSIZ in *; lia|].
  rewrite (ls_entries_json reads fstat path _ stats); [|eapply Forall_impl; [exact Hd|by intros ? [? ?]]|eapply Forall_impl; [exact Hs|by intros ? [? ?]]].
  assert (Hd' : Forall (fun de => Forall byte_ok de) (filter live (dirents path))).
  { apply Forall_forall. intros de [_ Hin]%list_elem_of_filter. rewrite Forall_forall in Hd. by apply Hd. }
  revert Hs Hd'. generalize (filter live (dirents path)). intros l Hs Hd'. induction l as [|de l IH]; [constructor|].
  apply Forall_cons in Hs as [[_ Hok] Hs]. apply Forall_cons in Hd' as [Hde Hd']. constructor; [|by apply IH].
  eexists. split; [done|]. apply read_put_struct, entry_fields_ok; [| |done].
  - apply Forall_app. split; [done|]. change (Forall byte_ok (47 :: de_name de)). constructor; [unfold byte_ok; lia|by apply de_name_bytes].
  - by apply de_name_bytes.
Qed.

(** The names that [ls] shows are the last components of the paths: [fmtname] pads a name to
    [DIRSIZ] with blanks, and leaves a longer one; [basename] drops slashes at the end and
    cuts the name to the buffer, and is a dot for a path of slashes. *)
Theorem ls_names_correct dir b sl dstsz :
  dir = [] \/ list.last dir = Some (chr "/") -> chr "/" ∉ b -> Forall (eq (chr "/")) sl -> 1 < dstsz ->
  fmtname (dir ++ b) = b ++ replicate (Z.to_nat DIRSIZ - length b) (chr " ") /\
  (b <> [] -> basename dstsz (dir ++ b ++ sl) = take (Z.to_nat (dstsz - 1)) b) /\
  basename dstsz sl = cs ".".
Proof.
  intros Hd Hb Hsl Hsz. split_and!.
  - unfold fmtname. rewrite slash_back_ends by done. replace (Z.of_nat (length dir) - 1 + 1) with (Z.of_nat (length dir)) by lia.
    rewrite Nat2Z.id, drop_app_length. unfold DIRSIZ. destruct (Z.geb_spec (Z.of_nat (length b)) 14) as [H|H].
    + replace (Z.to_nat 14 - length b)%nat with O by lia. by rewrite app_nil_r.
    + do 2 f_equal. lia.
  - intros Hne. unfold basename. rewrite (assoc_L (++)), back_slashes_run; [|done|].
    2: { right. destruct (exists_last Hne) as (q & c & ->). exists (dir ++ q), c. split; [by rewrite (assoc_L (++))|].
         intros ->. apply Hb. set_solver. }
    rewrite <- (assoc_L (++)), length_app, (back_name_run dir b sl Hd Hb (length b)) by lia.
    assert (H0 : (0 < length b)%nat) by (destruct b; [done|simpl; lia]).
    replace (Z.of_nat (length dir + length b) - Z.of_nat (length dir)) with (Z.of_nat (length b)) by lia.
    rewrite drop_app_length. destruct (Z.geb_spec (Z.of_nat (length b)) dstsz) as [H|H].
    + rewrite (proj2 (Z.eqb_neq _ _)) by lia. simpl. by rewrite take_app_le by lia.
    + rewrite (proj2 (Z.eqb_neq _ _)) by lia. simpl. rewrite Nat2Z.id, take_app_length, take_ge by lia. done.
  - unfold basename. assert (E := back_slashes_run [] sl Hsl (or_introl eq_refl)). simpl in E. rewrite E.
    change (Z.of_nat O - Z.of_nat (back_name sl O)) with 0. destruct (Z.geb_spec 0 dstsz); [lia|]. simpl. destruct (Z.gtb_spec dstsz 1); [done|lia].
Qed.

(** A directory with an empty slot and a file. *)
Lemma ls_json_correct_witness :
  let dot := [1; 0] ++ cs "." ++ replicate 13 0 in
  let free := replicate 16 0 in
  let note := [7; 0] ++ cs "note" ++ replicate 10 0 in
  let reads := fun _ => Some ([], false) in
  let fstat := fun p => Some (if bool_decide (p = cs "/d/note") then mkstat 2 7 120 else mkstat 1 1 512) in
  Forall2 (fun de a => exists o, a = Out 1 o /\ read_struct o = Some
      (entry_fields (cs "/d" ++ cs "/" ++ de_name de) (de_name de) (if bool_decide (de = note) then mkstat 2 7 120 else mkstat 1 1 512)))
    [dot; note] (ls reads (fun _ => [dot; free; note]) fstat true (cs "/d")).
Proof.
  intros dot free note reads fstat.
  apply (ls_json_correct reads (fun _ => [dot; free; note]) fstat (cs "/d") (mkstat 1 1 512)
    (fun de => if bool_decide (de = note) then mkstat 2 7 120 else mkstat 1 1 512)).
  - eexists. reflexivity.
  - reflexivity.
  - reflexivity.
  - vm_compute. congruence.
  - apply (bool_decide_unpack _). vm_compute. exact I.
  - apply (bool_decide_unpack _). vm_compute. exact I.
  - apply Forall_cons. split; [|apply Forall_cons; split; [|constructor]]; (split; [vm_compute; reflexivity|unfold stat_ok; simpl; lia]).
Defined.

Lemma ls_names_correct_witness :
  fmtname (cs "/bin/ls") = cs "ls" ++ replicate 12 32 /\ basename 15 (cs "/bin/ls//") = cs "ls" /\ basename 15 (cs "//") = cs ".".
Proof.
  destruct (ls_names_correct (cs "/bin/") (cs "ls") (cs "//") 15) as (H1 & H2 & H3).
  - right. reflexivity.
  - apply (bool_decide_unpack _). vm_compute. exact I.
  - apply (bool_decide_unpack _). vm_compute. exact I.
  - lia.
  - split; [exact H1|]. split; [|exact H3]. apply H2. discriminate.
Defined.
End Commands.
