(* ===== verification/Trap.v ===== *)
(** * Traps, the clock and the process system calls
    (system/platform/x86/trap.c, system/core/syscall.c, system/core/sysproc.c, include/traps.h)

    [trap] serves a trap on the CPU [c] while the process [cur] runs there, if any does.
    [syscall] dispatches through the table of calls.  The calls of sysproc.c are defined here over
    the process table of Proc.v; those of sysfile.c, which work on the state of Kern.v, and the
    interrupt handlers of the devices are parameters.  An argument comes from user memory, as the
    page table of the process maps it, through [Syscall.argint].

    A system call answers [None] when the process does not go on: it has exited, or it sleeps.
    [sys_sleep] is cut at its context switch: [sleep_loop] runs up to [sleep], and [sleep_resume]
    from there on.

    [trap_kills] says that a killed process does not go back to user code, and what becomes of
    unexpected traps.  [sleep_exact] says of every execution of the clock, the sleepers and the
    rest of the process table that [sys_sleep] waits for as many ticks as asked for and that no
    process sleeps when its time has come. *)

From S2P Require Import Prelude Kalloc Vm Kern Syscall Proc ProcWait.
Import Proc.

Module Trap.

Definition T_SYSCALL : Z := 64.
Definition T_IRQ0 : Z := 32.
Definition IRQ_TIMER : Z := 0.
Definition IRQ_KBD : Z := 1.
Definition IRQ_COM1 : Z := 4.
Definition IRQ_IDE : Z := 14.
Definition IRQ_SPURIOUS : Z := 31.
Definition DPL_USER : Z := 3.

(** The address of [ticks]. *)
Definition TICKS : Z := 1.

Section Trap.
Context {F : Type} `{!ProcEnv F}.
Context (kend kdata forkret : Z).

Record tsys := mktsys { ps : psys (F := F); ticks : Z }.

Definition on_ps {A} (m : M psys A) : M tsys A := fun s =>
  match m (ps s) with
  | Ok a p => Ok a (mktsys p (ticks s))
  | Panic msg => Panic msg
  | Asleep p => Asleep (mktsys p (ticks s))
  | NoFuel => NoFuel
  end.

Definition cur_proc (cur : nat) (s : tsys) : proc := proc_at cur (ps s).

(** The process as the functions that fetch arguments see it: its memory, and the stack pointer,
    which is the sixth of the registers of the trap frame. *)
Definition user_view (cur : nat) (s : tsys) : fproc :=
  let p := cur_proc cur s in
  mkfproc (pid p) (killed p) [] None
    (map (user_byte (km (ps s)) (pgdir p)) (seqZ 0 (sz p))) (nth 5 (tf_regs (tf p)) 0).

Definition arg0 (cur : nat) (s : tsys) : option Z := argint (user_view cur s) 0.

(** ** sysproc.c *)

Definition sys_fork (cur : nat) : M tsys (option Z) :=
  r ← on_ps (fork kend kdata forkret cur); mret (Some r).

Definition sys_exit (c cur : nat) : M tsys (option Z) := on_ps (exit c cur) ;; mret None.

Definition sys_wait (c cur : nat) : M tsys (option Z) := on_ps (wait kend c cur).

Definition sys_kill (cur : nat) : M tsys (option Z) :=
  a ← gets (arg0 cur);
  match a with
  | None => mret (Some (-1))
  | Some pid => r ← on_ps (kill pid); mret (Some r)
  end.

Definition sys_getpid (cur : nat) : M tsys (option Z) := gets (fun s => Some (pid (cur_proc cur s))).

Definition sys_sbrk (cur : nat) : M tsys (option Z) :=
  a ← gets (arg0 cur);
  match a with
  | None => mret (Some (-1))
  | Some n =>
      addr ← gets (fun s => s32 (sz (cur_proc cur s)));
      r ← on_ps (growproc kend cur n);
      if r <? 0 then mret (Some (-1)) else mret (Some addr)
  end.

(** The loop of [sys_sleep].  It compares a [uint] with an [int], as [uint]s. *)
Definition sleep_loop (c cur : nat) (n ticks0 : Z) : M tsys (option Z) :=
  s ← get;
  if u32 (ticks s - ticks0) <? u32 n then
    if killed (cur_proc cur s) then mret (Some (-1))
    else on_ps (sleep c cur (ChAddr TICKS)) ;; mret None
  else mret (Some 0).

Definition sys_sleep (c cur : nat) : M tsys (option Z) :=
  a ← gets (arg0 cur);
  match a with
  | None => mret (Some (-1))
  | Some n => ticks0 ← gets ticks; sleep_loop c cur n ticks0
  end.

(** The rest of [sleep] and of the loop, when the process has the CPU again. *)
Definition sleep_resume (c cur : nat) (n ticks0 : Z) : M tsys (option Z) :=
  on_ps (sleep_return cur) ;;
  sleep_loop c cur n ticks0.

Definition sys_uptime : M tsys (option Z) := gets (fun s => Some (s32 (ticks s))).

(** ** syscall.c *)

(** The calls of sysfile.c. *)
Context (filecall : Z -> nat -> M tsys (option Z)).

(** [syscalls[num]]; the table has the numbers 1 to 21. *)
Definition syscalls (c cur : nat) (num : Z) : option (M tsys (option Z)) :=
  if num =? 1 then Some (sys_fork cur)
  else if num =? 2 then Some (sys_exit c cur)
  else if num =? 3 then Some (sys_wait c cur)
  else if num =? 6 then Some (sys_kill cur)
  else if num =? 11 then Some (sys_getpid cur)
  else if num =? 12 then Some (sys_sbrk cur)
  else if num =? 13 then Some (sys_sleep c cur)
  else if num =? 14 then Some sys_uptime
  else if (num >? 0) && (num <? 22) then Some (filecall num cur)
  else None.

Definition set_eax (v : Z) (p : proc) : proc := set_tf (mktf v (tf_regs (tf p))) p.

(** [true] when the call has returned; the message on an unknown call is not kept. *)
Definition syscall (c cur : nat) : M tsys bool :=
  s ← get;
  match syscalls c cur (s32 (tf_eax (tf (cur_proc cur s)))) with
  | Some f =>
      r ← f;
      match r with
      | Some v => on_ps (upd cur (set_eax v)) ;; mret true
      | None => mret false
      end
  | None => on_ps (upd cur (set_eax (-1))) ;; mret true
  end.

(** ** trap.c *)

(** The handlers of the devices, by their interrupt. *)
Context (device : Z -> M tsys unit).

(** What becomes of the process: it goes back to what it did, it has exited, it has given up the
    CPU, or it is in a system call that has not returned. *)
Inductive tres := Returned | Exited | Yielded | Blocked.

Definition user_mode (cs : Z) : bool := Z.land cs 3 =? DPL_USER.

(** The tick, on the first CPU only. *)
Definition clock_tick (c : nat) : M tsys unit :=
  when (bool_decide (c = O)) (
    modify (fun s => mktsys (ps s) (u32 (ticks s + 1))) ;;
    on_ps (wakeup (ChAddr TICKS))).

(** The switch over the trap number; the messages are not kept. *)
Definition dispatch (c : nat) (cur : option nat) (trapno cs : Z) : M tsys unit :=
  if trapno =? T_IRQ0 + IRQ_TIMER then clock_tick c
  else if trapno =? T_IRQ0 + IRQ_IDE then device IRQ_IDE
  else if trapno =? T_IRQ0 + IRQ_IDE + 1 then mret tt
  else if trapno =? T_IRQ0 + IRQ_KBD then device IRQ_KBD
  else if trapno =? T_IRQ0 + IRQ_COM1 then device IRQ_COM1
  else if (trapno =? T_IRQ0 + 7) || (trapno =? T_IRQ0 + IRQ_SPURIOUS) then mret tt
  else match cur with
    | None => panic "trap"
    | Some i => if Z.land cs 3 =? 0 then panic "trap" else on_ps (upd i (set_killed true))
    end.

(** [if(myproc() && myproc()->killed && (tf->cs&3) == DPL_USER) exit();] and [k] otherwise. *)
Definition unless_killed (c : nat) (cur : option nat) (cs : Z) (k : M tsys tres) : M tsys tres :=
  match cur with
  | None => k
  | Some i =>
      s ← get;
      if killed (cur_proc i s) && user_mode cs then on_ps (exit c i) ;; mret Exited else k
  end.

(** The last check of [trap], which a process that yielded reaches when it has the CPU again. *)
Definition trap_end (c : nat) (cur : option nat) (cs : Z) : M tsys tres :=
  unless_killed c cur cs (mret Returned).

Definition trap (c : nat) (cur : option nat) (trapno cs : Z) (tf' : trapframe) : M tsys tres :=
  if trapno =? T_SYSCALL then
    match cur with
    | None => panic "trap"   (* the null process is dereferenced *)
    | Some i =>
        s ← get;
        if killed (cur_proc i s) then on_ps (exit c i) ;; mret Exited else
        on_ps (upd i (set_tf tf')) ;;
        back ← syscall c i;
        if negb back then mret Blocked else
        s ← get;
        if killed (cur_proc i s) then on_ps (exit c i) ;; mret Exited else mret Returned
    end
  else
    dispatch c cur trapno cs ;;
    unless_killed c cur cs (
      s ← get;
      match cur with
      | Some i =>
          if bool_decide (state (cur_proc i s) = RUNNING) && (trapno =? T_IRQ0 + IRQ_TIMER)
          then on_ps (yield c i) ;; mret Yielded
          else trap_end c cur cs
      | None => trap_end c cur cs
      end).

(** ** Killed processes *)

(** The interrupts that [trap] knows. *)
Definition known_irq (trapno : Z) : bool :=
  bool_decide (trapno ∈ [32; 46; 47; 33; 36; 39; 63]).

Lemma on_ps_inv {A} (m : M psys A) s a s' : on_ps m s = Ok a s' ->
  m (ps s) = Ok a (ps s') /\ ticks s' = ticks s.
Proof. unfold on_ps. destruct (m (ps s)) eqn:E; intros H; simplify_eq; done. Qed.

(** The process [i] ran [exit], or gave up the CPU, and has done nothing since. *)
Definition has_exited (c i : nat) (s : tsys) : Prop := exists p, exit c i p = Ok tt (ps s).
Definition has_yielded (c i : nat) (s : tsys) : Prop := exists p, yield c i p = Ok tt (ps s).

Lemma exit_step c i (r r' : tres) s s' : (on_ps (exit c i) ;; mret r') s = Ok r s' -> r = r' /\ has_exited c i s'.
Proof.
  intros H. apply bind_ok_inv in H as ([] & s1 & H & [= <- <-]).
  apply on_ps_inv in H as [H _]. split; [done|]. by eexists.
Qed.

Definition fate (c i : nat) (r : tres) (s : tsys) : Prop :=
  match r with
  | Returned => killed (cur_proc i s) = false
  | Exited => has_exited c i s
  | Yielded => has_yielded c i s
  | Blocked => True
  end.

Lemma trap_end_fate c i cs r s s' : user_mode cs = true -> trap_end c (Some i) cs s = Ok r s' -> fate c i r s'.
Proof.
  intros Hu H. unfold trap_end, unless_killed in H. apply bind_ok_inv in H as (s0 & ? & [= <- <-] & H).
  rewrite Hu, andb_true_r in H. destruct (killed (cur_proc i s)) eqn:Ek.
  - by apply exit_step in H as [-> H].
  - by injection H as <- <-.
Qed.

Lemma dispatch_unknown c cur trapno cs : known_irq trapno = false ->
  dispatch c cur trapno cs =
  match cur with
  | None => panic "trap"
  | Some i => if Z.land cs 3 =? 0 then panic "trap" else on_ps (upd i (set_killed true))
  end.
Proof.
  intros Hk. apply bool_decide_eq_false in Hk. rewrite !not_elem_of_cons in Hk.
  destruct Hk as (H1 & H2 & H3 & H4 & H5 & H6 & H7 & _). unfold dispatch.
  rewrite !(proj2 (Z.eqb_neq trapno _)) by done. done.
Qed.

Lemma cur_killed i s u s' : (i < length (procs (ps s)))%nat ->
  on_ps (upd i (set_killed true)) s = Ok u s' -> killed (cur_proc i s') = true.
Proof.
  intros Hi H. apply on_ps_inv in H as [H _]. unfold upd, modify in H. injection H as <- H.
  unfold cur_proc, proc_at. rewrite <- H. cbn [set_procs procs]. rewrite list_lookup_alter_eq.
  destruct (lookup_lt_is_Some_2 _ _ Hi) as [p ->]. done.
Qed.

Lemma user_mode_land cs : user_mode cs = true -> Z.land cs 3 = 3.
Proof. apply Z.eqb_eq. Qed.

(** A trap from user code, which a system call is, and the process it finds. *)
Lemma trap_syscall_fate c i cs tf' r s s' : trap c (Some i) T_SYSCALL cs tf' s = Ok r s' -> fate c i r s'.
Proof.
  unfold trap. cbn [T_SYSCALL]. change (64 =? 64) with true. cbv iota. intros H.
  apply bind_ok_inv in H as (s0 & ? & [= <- <-] & H). destruct (killed (cur_proc i s)).
  { by apply exit_step in H as [-> H]. }
  apply bind_ok_inv in H as (u & s1 & _ & H). apply bind_ok_inv in H as (back & s2 & _ & H).
  destruct back; cbn [negb] in H; [|by injection H as <- <-].
  apply bind_ok_inv in H as (s3 & ? & [= <- <-] & H). destruct (killed (cur_proc i s2)) eqn:Ek.
  - by apply exit_step in H as [-> H].
  - by injection H as <- <-.
Qed.

Lemma trap_other_fate c i trapno cs tf' r s s' : trapno <> T_SYSCALL -> user_mode cs = true ->
  trap c (Some i) trapno cs tf' s = Ok r s' ->
  fate c i r s' /\ (known_irq trapno = false -> (i < length (procs (ps s)))%nat -> r = Exited).
Proof.
  intros Ht Hu. unfold trap. rewrite (proj2 (Z.eqb_neq _ _) Ht). intros H.
  apply bind_ok_inv in H as (u & s1 & Hd & H). unfold unless_killed in H.
  apply bind_ok_inv in H as (s0 & ? & [= <- <-] & H). rewrite Hu, andb_true_r in H.
  destruct (killed (cur_proc i s1)) eqn:Ek.
  { by apply exit_step in H as [-> H]. }
  split.
  - apply bind_ok_inv in H as (s0 & ? & [= <- <-] & H). destruct (_ && _); [|by eapply trap_end_fate].
    apply bind_ok_inv in H as ([] & s2 & H & [= <- <-]). apply on_ps_inv in H as [H _]. by eexists.
  - intros Hk Hi. rewrite dispatch_unknown, user_mode_land in Hd by done.
    by rewrite (cur_killed i s u s1 Hi Hd) in Ek.
Qed.

Lemma trap_panics c cur trapno cs tf' s : trapno <> T_SYSCALL -> known_irq trapno = false ->
  cur = None \/ Z.land cs 3 = 0 -> trap c cur trapno cs tf' s = Panic "trap".
Proof.
  intros Ht Hk Hc. unfold trap. rewrite (proj2 (Z.eqb_neq _ _) Ht), dispatch_unknown by done.
  destruct cur as [i|]; [|done]. destruct Hc as [Hc|Hc]; [done|]. by rewrite Hc.
Qed.

(** ** Sleepers on the clock *)

Definition on_ticks (p : proc) : Prop := state p = SLEEPING /\ pchan p = ChAddr TICKS.

(** No process has begun to sleep on the clock. *)
Definition calm (s s' : psys (F := F)) : Prop :=
  forall i p', procs s' !! i = Some p' -> on_ticks p' -> exists p, procs s !! i = Some p /\ on_ticks p.

Definition calmly {A} (m : M (psys (F := F)) A) : Prop := forall s a s', m s = Ok a s' -> calm s s'.

#[local] Instance calm_preorder : PreOrder calm.
Proof.
  split; [intros s i p Hp Ht; eauto|]. intros s1 s2 s3 H1 H2 i p Hp Ht.
  destruct (H2 i p Hp Ht) as (q & Hq & Hqt). eauto.
Qed.

Lemma calm_procs s s' : procs s' = procs s -> calm s s'.
Proof. intros E i p'. rewrite E. eauto. Qed.

Lemma calmly_bind {A B} (m : M psys A) (k : A -> M psys B) : calmly m -> (forall a, calmly (k a)) -> calmly (mbind k m).
Proof.
  intros Hm Hk s b s' H. apply bind_ok_inv in H as (a & s1 & H1 & H2).
  transitivity s1; [by eapply Hm|by eapply Hk].
Qed.

Lemma calmly_ret {A} (a : A) : calmly (mret a).
Proof. intros s b s' [= <- <-]. reflexivity. Qed.

Lemma calmly_get : calmly get.
Proof. intros s b s' [= <- <-]. reflexivity. Qed.

Lemma calmly_gets {A} (f : psys -> A) : calmly (gets f).
Proof. intros s b s' [= <- <-]. reflexivity. Qed.

Lemma calmly_modify f : (forall s, procs (f s) = procs s) -> calmly (modify f).
Proof. intros Hf s b s' [= <- <-]. by apply calm_procs. Qed.

Lemma calmly_panic {A} msg : calmly (panic (A := A) msg).
Proof. by intros s b s'. Qed.

Lemma calmly_on_km {A} (m : M kmem A) : calmly (on_km m).
Proof. intros s a s' H. apply on_km_core in H. apply calm_procs. by injection H. Qed.

Lemma calmly_on_env {A} (m : M F A) : calmly (on_env m).
Proof. intros s a s' H. apply on_env_core in H. apply calm_procs. by injection H. Qed.

Lemma calmly_upd i f : (forall p, on_ticks (f p) -> on_ticks p) -> calmly (upd i f).
Proof.
  intros Hf s u s' [= <- <-] j p'. cbn [set_procs procs]. destruct (decide (i = j)) as [<-|Hne].
  - rewrite list_lookup_alter_eq. destruct (procs s !! i) as [p|]; [|done]. intros [= <-]. eauto.
  - rewrite list_lookup_alter_ne by done. eauto.
Qed.

Lemma calmly_wakeup ch : calmly (wakeup1 ch).
Proof.
  intros s u s' [= <- <-] j p'. cbn [set_procs procs]. rewrite list_lookup_fmap.
  destruct (procs s !! j) as [p|]; [|done]. intros [= <-]. exists p. split; [done|].
  destruct (_ && _); [|done]. by destruct H.
Qed.

Lemma on_ticks_state st p : st <> SLEEPING -> on_ticks (set_state st p) -> on_ticks p.
Proof. by intros Hs [? _]. Qed.

Lemma calmly_when b m : calmly m -> calmly (when b m).
Proof. intros Hm. destruct b; [done|apply calmly_ret]. Qed.

(** A function that is not [sleep] is calm when its parts are. *)
Ltac calm_tac :=
  repeat first
    [ lazymatch goal with |- calmly (mbind _ _) => apply calmly_bind; [|intros] end | apply calmly_ret | apply calmly_get | apply calmly_gets
    | apply calmly_panic | apply calmly_on_km | apply calmly_on_env | apply calmly_wakeup
    | apply calmly_when | apply calmly_modify; by intros
    | apply calmly_upd; intros; (done || (eapply on_ticks_state; [|eassumption]; done))
    | progress cbv zeta | case_match ].

Lemma calmly_sched c cur : calmly (sched c cur).
Proof. unfold sched. calm_tac. Qed.

Lemma calmly_sleep c cur ch : ch <> ChAddr TICKS -> calmly (sleep c cur ch).
Proof.
  intros Hch s u s' H. unfold sleep in H. apply bind_ok_inv in H as (u1 & s1 & [= <- <-] & H).
  apply bind_ok_inv in H as (u2 & s2 & [= <- <-] & H). apply sched_winv in H as [E _].
  intros j p'. rewrite E. cbn [set_procs procs]. destruct (decide (cur = j)) as [<-|Hne].
  - rewrite !list_lookup_alter_eq. destruct (procs s !! cur) as [p|]; [|done]. intros [= <-]. by intros [_ Hc].
  - rewrite !list_lookup_alter_ne by done. eauto.
Qed.

Lemma calmly_schedule c i : calmly (schedule c i).
Proof. unfold schedule. calm_tac. Qed.

Lemma calmly_yield c cur : calmly (yield c cur).
Proof. unfold yield. calm_tac. apply calmly_sched. Qed.

Lemma calmly_kill pid' : calmly (kill pid').
Proof. unfold kill. calm_tac. Qed.

Lemma calmly_growproc cur n : calmly (growproc kend cur n).
Proof. unfold growproc. calm_tac. Qed.

Lemma calmly_dup_files fs : calmly (dup_files fs).
Proof. induction fs; cbn [dup_files]; calm_tac; done. Qed.

Lemma calmly_allocproc : calmly (allocproc forkret).
Proof. unfold allocproc. calm_tac. Qed.

Lemma calmly_fork cur : calmly (fork kend kdata forkret cur).
Proof. unfold fork. calm_tac; first [apply calmly_allocproc | apply calmly_dup_files]. Qed.

Lemma calmly_close_files cur fd fs : calmly (close_files cur fd fs).
Proof. revert fd. induction fs; intros; cbn [close_files]; calm_tac; done. Qed.

Lemma calmly_reparent cur i k : calmly (reparent cur i k).
Proof. revert i. induction k; intros; cbn [reparent]; calm_tac; done. Qed.

Lemma calmly_exit c cur : calmly (exit c cur).
Proof. unfold exit. calm_tac; auto using calmly_close_files, calmly_reparent, calmly_sched. Qed.

Lemma calmly_wait c cur : calmly (wait kend c cur).
Proof. unfold wait. calm_tac. by apply calmly_sleep. Qed.

(** Every step is calm but a [sleep] on the clock. *)
Lemma step_calm s s' : step kend kdata forkret s s' ->
  (forall c cur, runs c cur s -> sleep c cur (ChAddr TICKS) s <> Ok tt s') -> calm s s'.
Proof.
  intros H Hno. destruct H.
  - by eapply calmly_schedule.
  - by eapply calmly_yield.
  - eapply calmly_sleep; [|done]. intros [= ->]. by eapply Hno.
  - eapply calmly_upd; [|done]. by intros p [_ ?].
  - by eapply calmly_wakeup.
  - by eapply calmly_kill.
  - by eapply calmly_fork.
  - by eapply calmly_growproc.
  - by eapply calmly_exit.
  - by eapply calmly_wait.
Qed.

(** ** Executions of the clock *)

(** A call of [sys_sleep]: its argument, and the number of ticks since the start when it began. *)
Record nap := mknap { nap_n : Z; nap_start : Z }.

(** A call that has returned: when, with what, and whether the process was killed by then. *)
Record woken := mkwoken { w_nap : nap; w_end : Z; w_result : Z; w_killed : bool }.

(** The system, with the true number of ticks, the calls under way by process, and those that
    have returned. *)
Record csys := mkcsys { sys : tsys; clock : Z; naps : gmap nat nap; woke : list woken }.

(** The call [nap] of [cur] has come to [s'] with the answer [r]. *)
Definition after (cur : nat) (nap : nap) (r : option Z) (s' : tsys) (s : csys) : csys :=
  match r with
  | None => mkcsys s' (clock s) (<[cur := nap]> (naps s)) (woke s)
  | Some v => mkcsys s' (clock s) (delete cur (naps s))
                (mkwoken nap (clock s) v (killed (cur_proc cur s')) :: woke s)
  end.

(** A call of [sys_sleep] begins or goes on; a CPU takes a clock interrupt; or the process table
    changes in another way. *)
Inductive cstep : csys -> csys -> Prop :=
| c_call c cur n r s s' : runs c cur (ps (sys s)) -> arg0 cur (sys s) = Some n ->
    sys_sleep c cur (sys s) = Ok r s' -> cstep s (after cur (mknap n (clock s)) r s' s)
| c_resume c cur nap r s s' : runs c cur (ps (sys s)) -> naps s !! cur = Some nap ->
    sleep_resume c cur (nap_n nap) (u32 (nap_start nap)) (sys s) = Ok r s' -> cstep s (after cur nap r s' s)
| c_tick c s s' : clock_tick c (sys s) = Ok tt s' ->
    cstep s (mkcsys s' (if bool_decide (c = O) then clock s + 1 else clock s) (naps s) (woke s))
| c_other s p' : step kend kdata forkret (ps (sys s)) p' ->
    (forall c cur, runs c cur (ps (sys s)) -> sleep c cur (ChAddr TICKS) (ps (sys s)) <> Ok tt p') ->
    cstep s (mkcsys (mktsys p' (ticks (sys s))) (clock s) (naps s) (woke s)).

(** The time of [nap] has come at [t], as [sys_sleep] computes it. *)
Definition due (nap : nap) (t : Z) : Prop := u32 (nap_n nap) <= u32 (t - nap_start nap).

Definition woken_ok (t : Z) (w : woken) : Prop :=
  0 <= nap_start (w_nap w) <= w_end w /\ w_end w <= t /\
  (w_result w = 0 /\ due (w_nap w) (w_end w) \/
   w_result w = -1 /\ w_killed w = true /\ ~ due (w_nap w) (w_end w)).

Record cinv (s : csys) : Prop := {
  ci_proc : pinv (ps (sys s));
  ci_clock : ticks (sys s) = u32 (clock s);
  ci_pos : 0 <= clock s;
  ci_naps : forall i nap, naps s !! i = Some nap -> 0 <= nap_start nap <= clock s;
  ci_sleep : forall i p, procs (ps (sys s)) !! i = Some p -> on_ticks p ->
    exists nap, naps s !! i = Some nap /\ ~ due nap (clock s);
  ci_woke : Forall (woken_ok (clock s)) (woke s)
}.

(** The clock of the code against the true one. *)
Lemma elapsed t t0 : u32 (u32 t - u32 t0) = u32 (t - t0).
Proof. unfold u32. by rewrite <- Zminus_mod. Qed.

Lemma u32_idem t : u32 (u32 t) = u32 t.
Proof. unfold u32. by rewrite Zmod_mod. Qed.

(** What [sleep_loop] does: it returns, or the process sleeps on the clock before its time. *)
Lemma sleep_loop_cases c cur n t0 s r s' : sleep_loop c cur n t0 s = Ok r s' ->
  ticks s' = ticks s /\
  match r with
  | Some v => s' = s /\ (v = 0 /\ u32 n <= u32 (ticks s - t0) \/
      v = -1 /\ killed (cur_proc cur s) = true /\ u32 (ticks s - t0) < u32 n)
  | None => u32 (ticks s - t0) < u32 n /\
      forall i p', procs (ps s') !! i = Some p' -> on_ticks p' -> i = cur \/ procs (ps s) !! i = Some p'
  end.
Proof.
  intros H. unfold sleep_loop in H. apply bind_ok_inv in H as (s0 & ? & [= <- <-] & H).
  destruct (Z.ltb_spec (u32 (ticks s - t0)) (u32 n)) as [Hlt|Hge].
  - destruct (killed (cur_proc cur s)) eqn:Ek; [injection H as <- <-; auto 8|].
    apply bind_ok_inv in H as (u & s1 & H & [= <- <-]). apply on_ps_inv in H as [H ->].
    split; [done|]. split; [done|]. intros i p'. unfold sleep in H.
    apply bind_ok_inv in H as (u1 & p1 & [= <- <-] & H). apply bind_ok_inv in H as (u2 & p2 & [= <- <-] & H).
    apply sched_winv in H as [-> _]. cbn [set_procs procs]. destruct (decide (cur = i)) as [<-|Hne]; [by left|].
    rewrite !list_lookup_alter_ne by done. auto.
  - injection H as <- <-. auto.
Qed.

Lemma sleep_loop_pinv c cur n t0 s r s' : runs c cur (ps s) -> sleep_loop c cur n t0 s = Ok r s' ->
  pinv (ps s) -> pinv (ps s').
Proof.
  intros Hr H Hp. unfold sleep_loop in H. apply bind_ok_inv in H as (s0 & ? & [= <- <-] & H).
  destruct (_ <? _); [|by injection H as <- <-]. destruct (killed _); [by injection H as <- <-|].
  apply bind_ok_inv in H as (u & s1 & H & [= <- <-]). apply on_ps_inv in H as [H _]. by eapply sleep_inv.
Qed.

Lemma running_not_on_ticks c cur (s : psys (F := F)) p : pinv s -> runs c cur s -> procs s !! cur = Some p -> ~ on_ticks p.
Proof. intros Hp Hr Hc [Hs _]. pose proof (cur_running c cur s Hp Hr) as H. rewrite Hc in H. simpl in H. congruence. Qed.

(** A run of the loop by [cur] in [s1], which has the clock of [s] and no other sleepers. *)
Lemma after_inv c cur nap r s1 s' s : cinv s -> 0 <= nap_start nap <= clock s ->
  runs c cur (ps s1) -> pinv (ps s1) -> ticks s1 = ticks (sys s) -> calm (ps (sys s)) (ps s1) ->
  sleep_loop c cur (nap_n nap) (u32 (nap_start nap)) s1 = Ok r s' -> cinv (after cur nap r s' s).
Proof.
  intros [Hp Hc H0 Hn Hs Hw] Hst Hr Hp1 Ht Hcalm H. pose proof (sleep_loop_pinv _ _ _ _ _ _ _ Hr H Hp1) as Hp'.
  apply sleep_loop_cases in H as [Ht' H]. rewrite Ht, Hc, elapsed in H. rewrite Ht, Hc in Ht'.
  destruct r as [v|]; cbn [after].
  - destruct H as [-> H]. split; cbn [sys clock naps woke]; try done.
    + intros i nap'. rewrite lookup_delete_Some. intros [_ E]. eauto.
    + intros i p Hi Hon. destruct (decide (i = cur)) as [->|Hne]; [by destruct (running_not_on_ticks _ _ _ _ Hp1 Hr Hi)|].
      rewrite lookup_delete_ne by done. destruct (Hcalm i p Hi Hon) as (q & Hq & Hqt). eauto.
    + constructor; [|done]. split; [done|]. split; [cbn; lia|]. unfold due. cbn.
      destruct H as [[-> H]|(-> & Hk & H)]; [by left|right]. split_and!; [done|done|lia].
  - destruct H as [Hlt H]. split; cbn [sys clock naps woke]; try done.
    + intros i nap'. rewrite lookup_insert_Some. intros [[_ <-]|[_ E]]; eauto.
    + intros i p Hi Hon. destruct (decide (i = cur)) as [->|Hne].
      * rewrite lookup_insert_eq. exists nap. split; [done|]. unfold due. lia.
      * rewrite lookup_insert_ne by done. destruct (H i p Hi Hon) as [?|Hq]; [done|].
        destruct (Hcalm i p Hq Hon) as (q & Hq' & Hqt). eauto.
Qed.

(** After a tick nobody sleeps on the clock. *)
Lemma wakeup_ticks (s : psys (F := F)) u s' i p : wakeup (ChAddr TICKS) s = Ok u s' -> procs s' !! i = Some p -> ~ on_ticks p.
Proof.
  intros [= <- <-]. cbn [set_procs procs]. rewrite list_lookup_fmap. destruct (procs s !! i) as [q|]; [|done].
  intros [= <-] [Hs Hc]. destruct (bool_decide (state q = SLEEPING) && bool_decide (pchan q = ChAddr TICKS)) eqn:E; [done|].
  rewrite !bool_decide_eq_true_2 in E by done. done.
Qed.

Lemma woken_ok_later t t' w : t <= t' -> woken_ok t w -> woken_ok t' w.
Proof. intros Ht (H1 & H2 & H3). split; [done|]. split; [lia|done]. Qed.

Lemma tick_inv c s s' : cinv s -> clock_tick c (sys s) = Ok tt s' ->
  cinv (mkcsys s' (if bool_decide (c = O) then clock s + 1 else clock s) (naps s) (woke s)).
Proof.
  intros Hi H. unfold clock_tick in H. case_bool_decide; cbn [when] in H; [|injection H as <-; by destruct Hi, s].
  apply bind_ok_inv in H as (u & s1 & [= <- <-] & H). apply on_ps_inv in H as [H Ht]. cbn [ps ticks] in *.
  destruct Hi as [Hp Hc Hc0 Hn Hs Hw]. split; cbn [sys clock naps woke].
  - by eapply wakeup1_inv.
  - rewrite Ht, Hc. unfold u32. by rewrite Zplus_mod_idemp_l.
  - lia.
  - intros i nap E. specialize (Hn i nap E). lia.
  - intros i p E Hon. by destruct (wakeup_ticks _ _ _ _ _ H E).
  - eapply Forall_impl; [done|]. intros w. apply woken_ok_later. lia.
Qed.

Lemma cstep_inv s s' : cstep s s' -> cinv s -> cinv s'.
Proof.
  intros [c cur n r t t' Hr Ha H|c cur nap r t t' Hr Hn H|c t t' H|t p' H Hno] Hi.
  - unfold sys_sleep in H. apply bind_ok_inv in H as (a & ? & [= <- <-] & H). rewrite Ha in H.
    apply bind_ok_inv in H as (t0 & ? & [= <- <-] & H). rewrite (ci_clock _ Hi) in H.
    pose proof (ci_pos _ Hi). apply (after_inv c cur (mknap n (clock t)) r (sys t)); try done; by apply Hi.
  - unfold sleep_resume in H. apply bind_ok_inv in H as (u & s1 & H1 & H). apply on_ps_inv in H1 as [H1 Ht].
    eapply after_inv; [done|by eapply ci_naps| | |done| |done].
    + unfold sleep_return, upd, modify in H1. injection H1 as _ H1. unfold runs. rewrite <- H1. done.
    + eapply (proc_step_inv kend kdata forkret); [|by apply Hi]. destruct u. by eapply step_sleep_return.
    + eapply calmly_upd; [|done]. by intros p [_ ?].
  - by apply tick_inv.
  - pose proof (step_calm _ _ H Hno) as Hcalm. destruct Hi as [Hp Hc H0 Hn Hs Hw].
    split; cbn [sys clock naps woke ps ticks]; try done; [by eapply proc_step_inv|].
    intros i p Hi Hon. destruct (Hcalm i p Hi Hon) as (q & Hq & Hqt). eauto.
Qed.

Lemma cinv_run s s' : rtc cstep s s' -> cinv s -> cinv s'.
Proof. induction 1; eauto using cstep_inv. Qed.

(** Nobody sleeps on the clock yet. *)
Record quiet (s : csys) : Prop := {
  q_proc : pinv (ps (sys s));
  q_clock : ticks (sys s) = u32 (clock s);
  q_pos : 0 <= clock s;
  q_naps : naps s = ∅;
  q_sleep : Forall (fun p => ~ on_ticks p) (procs (ps (sys s)));
  q_woke : woke s = []
}.

Lemma quiet_cinv s : quiet s -> cinv s.
Proof.
  intros [H1 H2 H3 H4 H5 H6]. split; try done.
  - intros i nap. by rewrite H4, lookup_empty.
  - intros i p Hp Hon. by destruct (proj1 (Forall_lookup _ _) H5 i p Hp).
  - rewrite H6. constructor.
Qed.

(** While the counter has not wrapped, [due] compares true times. *)
Lemma due_exact nap t : 0 <= nap_start nap <= t -> t < 2 ^ 32 ->
  due nap t <-> u32 (nap_n nap) <= t - nap_start nap.
Proof. intros H1 H2. unfold due. by rewrite (u32_id (t - _)) by lia. Qed.

(** A call that returned 0 took the time asked for; one that returned -1 had been killed before. *)
Definition on_time (w : woken) : Prop :=
  let elapsed := w_end w - nap_start (w_nap w) in
  w_result w = 0 /\ u32 (nap_n (w_nap w)) <= elapsed \/
  w_result w = -1 /\ w_killed w = true /\ elapsed < u32 (nap_n (w_nap w)).

(** C18. Take any execution of calls of [sys_sleep], clock interrupts on all CPUs and steps of the
    process table, from a state in which nobody sleeps on the clock, and let the counter of ticks not
    wrap.  Every call that returned 0 took at least the ticks asked for, the argument read as a
    [uint], and a call returned -1 only early and to a killed process.  And no process sleeps on
    the clock whose time has come: no wakeup is lost. *)
Theorem sleep_exact s s' : rtc cstep s s' -> quiet s -> clock s' < 2 ^ 32 ->
  Forall on_time (woke s') /\
  forall i p, procs (ps (sys s')) !! i = Some p -> on_ticks p ->
    exists nap, naps s' !! i = Some nap /\ 0 <= clock s' - nap_start nap < u32 (nap_n nap).
Proof.
  intros Hrun Hq Hlt. destruct (cinv_run s s' Hrun (quiet_cinv s Hq)) as [_ _ _ Hn Hs Hw]. split.
  - eapply Forall_impl; [done|]. intros w (H1 & H2 & H3). rewrite due_exact in H3 by lia. unfold on_time. cbv zeta.
    destruct H3 as [H3|(H3 & H4 & H5)]; [by left|right]. split_and!; [done|done|lia].
  - intros i p Hp Hon. destruct (Hs i p Hp Hon) as (nap & E & Hd). exists nap. split; [done|].
    specialize (Hn i nap E). rewrite due_exact in Hd by lia. lia.
Qed.

(** C19. A trap from user code or a system call goes back to user code only with a process
    that is not killed; otherwise the process has exited, has yielded, or is in its call, and the
    check is made again when a process that yielded has the CPU back.  A trap that is no known
    interrupt ends the process in user mode, and is a panic in kernel mode. *)
Theorem trap_kills c i trapno cs tf' s :
  (trapno = T_SYSCALL \/ user_mode cs = true -> forall r s', trap c (Some i) trapno cs tf' s = Ok r s' ->
     fate c i r s') /\
  (trapno <> T_SYSCALL -> known_irq trapno = false -> (i < length (procs (ps s)))%nat ->
     (user_mode cs = true -> forall r s', trap c (Some i) trapno cs tf' s = Ok r s' ->
        r = Exited /\ has_exited c i s') /\
     (Z.land cs 3 = 0 -> trap c (Some i) trapno cs tf' s = Panic "trap")) /\
  (user_mode cs = true -> forall r s', trap_end c (Some i) cs s = Ok r s' -> fate c i r s').
Proof.
  split_and!.
  - intros Hu r s' H. destruct (decide (trapno = T_SYSCALL)) as [->|Hne]; [by eapply trap_syscall_fate|].
    destruct Hu as [|Hu]; [done|]. by destruct (trap_other_fate _ _ _ _ _ _ _ _ Hne Hu H).
  - intros Ht Hk Hi. split.
    + intros Hu r s' H. destruct (trap_other_fate _ _ _ _ _ _ _ _ Ht Hu H) as [Hf Hr]. rewrite (Hr Hk Hi) in *. done.
    + intros Hz. apply trap_panics; auto.
  - intros Hu r s' H. by eapply trap_end_fate.
Qed.

End Trap.
End Trap.
Import Trap.

(** ** Witnesses *)

Module TrapExample.
Import ProcExample.

Definition no_filecall (_ : Z) (_ : nat) : M (tsys (F := Z)) (option Z) := mret (Some (-1)).
Definition no_device (_ : Z) : M (tsys (F := Z)) unit := mret tt.

(** A page of user memory with the argument 2 on the stack of the only process. *)
Definition km1 : kmem :=
  match (allocuvm VmExample.kend3 VmExample.dir 0 PGSIZE ;; copyout VmExample.dir VmExample.dir 4 [2; 0; 0; 0]) VmExample.vm0 with
  | Ok _ k => k
  | _ => VmExample.vm0
  end.
Definition p1 : proc := set_tf (mktf 13 [27; 35; 35; 35; 512; 0; 0]) (set_pgdir VmExample.dir (set_sz 12 init_p)).

Definition c0 : csys (F := Z) := mkcsys (mktsys (mkpsys [p1] 2 0 [Some 0%nat] km1 0) 100) 100 ∅ [].

Definition run {A} (m : M (tsys (F := Z)) A) (s : csys) : tsys := match m (sys s) with Ok _ t => t | _ => sys s end.
Definition c1 := after 0 (mknap 2 100) None (run (sys_sleep 0 0) c0) c0.
Definition tick0 (s : csys) : csys (F := Z) :=
  mkcsys (run (clock_tick 0) s) (if bool_decide (0%nat = O) then clock s + 1 else clock s) (naps s) (woke s).
Definition c2 := tick0 c1.
Definition sched0 (s : csys) : csys (F := Z) :=
  mkcsys (mktsys (match schedule 0 0 (ps (sys s)) with Ok _ p => p | _ => ps (sys s) end) (ticks (sys s)))
    (clock s) (naps s) (woke s).
Definition c3 := sched0 c2.
Definition c4 := after 0 (mknap 2 100) None (run (sleep_resume 0 0 2 100) c3) c3.
Definition c5 := tick0 c4.
Definition c6 := sched0 c5.
Definition c7 := after 0 (mknap 2 100) (Some 0) (run (sleep_resume 0 0 2 100) c6) c6.

(** The only CPU runs nothing, so that no step is a [sleep]. *)
Lemma sched0_step s : cpus (ps (sys s)) = [None] ->
  (match schedule 0 0 (ps (sys s)) with Ok b _ => b | _ => false end) = true ->
  cstep VmExample.kend3 0 0 s (sched0 s).
Proof.
  intros Hc Hb. unfold sched0. destruct (schedule 0 0 (ps (sys s))) as [b p| | |] eqn:E; try done.
  apply c_other; [by eapply step_schedule|]. unfold runs. rewrite Hc. by intros [|[|c]] cur.
Qed.

Lemma tick0_step s : cstep VmExample.kend3 0 0 s (tick0 s).
Proof. by apply (c_tick _ _ _ 0). Qed.

Lemma c_run : rtc (cstep VmExample.kend3 0 0) c0 c7.
Proof.
  apply (rtc_l _ _ c1); [apply (c_call _ _ _ 0 0 2 None); vm_compute; reflexivity|].
  apply (rtc_l _ _ c2); [apply tick0_step|].
  apply (rtc_l _ _ c3); [apply sched0_step; vm_compute; reflexivity|].
  apply (rtc_l _ _ c4); [apply (c_resume _ _ _ 0 0 (mknap 2 100) None); vm_compute; reflexivity|].
  apply (rtc_l _ _ c5); [apply tick0_step|].
  apply (rtc_l _ _ c6); [apply sched0_step; vm_compute; reflexivity|].
  apply (rtc_l _ _ c7); [apply (c_resume _ _ _ 0 0 (mknap 2 100) (Some 0)); vm_compute; reflexivity|apply rtc_refl].
Qed.

Lemma c0_quiet : quiet c0.
Proof.
  split; cbn [c0 sys ps ticks clock naps woke procs]; try done.
  - split; cbn [views ps procs cpus nextpid initproc map].
    + intros [|[|c]] i; simpl; [intros [= <-]; done|done|done].
    + intros [|i]; simpl; [intros _; by exists 0%nat|done].
    + intros [|c] [|c'] i; simpl; done.
    + intros [|i] v; simpl; intros; simplify_eq; cbn; lia.
    + lia.
    + intros [|i] [|j] v w; simpl; intros; simplify_eq; done.
    + eexists. split; [reflexivity|]. unfold alive. cbn. tauto.
    + intros [|i] v q; simpl; intros; simplify_eq; done.
  - constructor; [|constructor]. by intros [? _].
Qed.

End TrapExample.
Import ProcExample TrapExample.

(** The process asks for 2 ticks at 100, is woken at 101 and sleeps again, and returns at 102. *)
Lemma sleep_exact_witness : rtc (cstep VmExample.kend3 0 0) c0 c7 /\ woke c7 = [mkwoken (mknap 2 100) 102 0 false] /\
  Forall on_time (woke c7).
Proof.
  split; [exact c_run|]. split; [vm_compute; reflexivity|].
  apply (sleep_exact VmExample.kend3 0 0 c0 c7 c_run c0_quiet). change (clock c7) with 102. lia.
Defined.

(** The child of init takes a page fault on CPU 1. *)
Lemma trap_kills_witness : exists s',
  trap VmExample.kend3 0 0 no_filecall no_device 1 (Some 1%nat) 14 27 (mktf 0 []) (mktsys ps2 7) = Ok Exited s' /\
  has_exited 1 1 s'.
Proof.
  destruct (trap_kills VmExample.kend3 0 0 no_filecall no_device 1 1 14 27 (mktf 0 []) (mktsys ps2 7)) as (_ & H & _).
  destruct (H ltac:(discriminate) ltac:(reflexivity) ltac:(vm_compute; lia)) as [H1 _].
  destruct (trap VmExample.kend3 0 0 no_filecall no_device 1 (Some 1%nat) 14 27 (mktf 0 []) (mktsys ps2 7)) as [r s'| | |] eqn:E;
    [|vm_compute in E; discriminate..].
  destruct (H1 ltac:(reflexivity) r s' eq_refl) as [-> Hx]. exists s'. split; [reflexivity|exact Hx].
Defined.
